(* ===== verification/_CoqProject ===== *)
-Q . S2P
Prelude.v
Bytes.v
Types.v
Tuples.v
Disk.v
ClockReplacer.v
LogRecord.v
LogManager.v
Replacer.v
Page.v
BufferPool.v
PoolView.v
LockManager.v
TablePage.v
RecordLocks.v
Engine.v
TableHeap.v
TableScan.v
TransactionManager.v
Checkpoint.v
LogRecovery.v
History.v
HashPage.v
Probe.v
HashTable.v
HashIndex.v
Expressions.v
Plans.v
Catalog.v
TmpTuples.v
Executors.v
Ordering.v
Grouping.v
Rows.v
Operators.v
Joins.v
IndexScan.v
IndexedTables.v
ScanActions.v
ExampleDatabase.v
Deletes.v
Updates.v
Queries.v
JoinQueries.v
TestData.v
CatalogRecovery.v
Parser.v
Statements.v
