(* ===== verification/Prelude.v ===== *)
(** * SamehadaDB: verification development

    SamehadaDB is a relational database in Go.  This library models its storage
    engine and its executors as the source writes them and proves what makes them
    correct.

    ** The parts and how they interact

    A query is a tree of plan nodes, for which the engine makes a tree of executors
    and draws tuples from its root.  The executors at the leaves find their tables in
    the catalog and read and write tuples through hash indexes and a table heap, a linked list of
    table pages.  Table pages are fetched from the buffer pool, which caches the
    disk manager's pages in frames chosen by the clock replacer, and flushes the
    log before it evicts a dirty page.  A change to a table page takes a lock
    from the lock manager for its transaction and appends a record to the log
    manager, whose LSN the page and the transaction get.

    - [Prelude]: outcomes of Go code ([Ok], [Panic], [Blocked], [OutOfFuel]), the
      state monad, machine integers, loops, tactics.
    - [Bytes]: [[]byte] values, slicing with its range checks, [copy],
      little-endian codecs ([types/lsn.go], [page_id.go], [txn_id.go], [uint32.go]).
    - [Types]: SQL values ([types/column_value.go], [types/column_type_id.go]).
    - [Tuples]: record ids, columns, schemas, tuples ([storage/page/rid.go],
      [storage/table/column], [storage/table/schema], [storage/tuple/tuple.go]).
    - [Disk]: the disk manager over two files ([storage/disk/disk_manager_impl.go]), with
      a trace of the writes, which the source does not have, to say in what order they are.
    - [ClockReplacer]: the circular list and the clock, on a heap of nodes
      ([storage/buffer/circular_list.go], [clock_replacer.go]).
    - [LogRecord], [LogManager]: log records, their serialized form and reader,
      and the double-buffered log ([recovery/log_record.go],
      [recovery/log_manager.go], [DeserializeLogRecord] of
      [recovery/log_recovery/log_recovery.go]).
    - [Replacer]: the replacement policy as a class, which the clock implements
      and the buffer pool's theorems are proved against.
    - [Page]: page objects and latches ([storage/page/page.go], [common/rwlatch.go]).
    - [BufferPool]: the pool over disk, log, replacer and the heap of page objects
      ([storage/buffer/buffer_pool_manager.go]).
    - [LockManager]: transactions' lock sets and the lock tables
      ([storage/access/transaction.go], [lock_manager.go]).
    - [TablePage]: the slotted page on its 4096 bytes
      ([storage/access/table_page.go]).
    - [PoolView]: what the pool is worth to its callers, the pages' contents, pins
      and latches, and one lemma per pool operation in those terms.
    - [Engine]: the state of a running transaction (the pool, the lock tables, the
      transaction, the logging switch) and page operations lifted to it.
    - [TableHeap], [TableScan]: the chain of table pages and the iterator over it
      ([storage/access/table_heap.go], [table_heap_iterator.go]).
    - [TransactionManager], [Checkpoint]: begin, commit, abort and the global latch
      ([storage/access/transaction_manager.go]), and what a checkpoint does under
      it ([concurrency/checkpoint_manager.go]).
    - [LogRecovery]: redo and undo over the buffer pool
      ([recovery/log_recovery/log_recovery.go]); [History]: what the two achieve
      together, and runs of the program they do not recover.
    - [HashPage], [Probe], [HashTable], [HashIndex]: the header and block pages of
      the linear probing hash table, what probing finds in a list of cells, the
      table over the pool and the index over the table ([container/hash],
      [storage/page/hash_table_block_page.go], [hash_table_header_page.go],
      [storage/index]).  The murmur hash is a parameter.
    - [Expressions], [Plans], [Catalog], [TmpTuples], [Executors]: expression trees,
      plan nodes, the tables the database knows, the pages of a join, and the
      executors with the engine's loop ([execution], [catalog],
      [container/hash/tmp_tuple.go], [tmp_tuple_page.go]).  [sort.Slice] and the order
      of [range] over a map are the classes [SliceSort] and [MapRange], with the laws
      the language gives them and an instance each.
    - [Ordering], [Grouping], [Rows]: what sorting and grouping make of lists of rows,
      and how the bytes of a table hold rows.
    - [Operators], [Joins], [IndexScan]: each executor as a stream of tuples over an
      engine at rest ([streams], [opens]), composed from the streams of its children.
    - [IndexedTables], [ExampleDatabase], [Queries], [JoinQueries]: a table with its
      indexes on the pages, two databases the program makes, queries over them, and
      joins.
    - [CatalogRecovery]: what creating tables writes to the catalog's pages, and what
      reading them in again makes of it ([catalog/table_catalog.go]).
    - [ScanActions], [Deletes], [Updates]: the scan that changes the records it selects,
      for any action on a record, and what DELETE and UPDATE do with it.  [RecordLocks]
      says what one record's lock does to the locks on the others.
    - [Parser], [Statements]: the visitors that read a statement off the syntax tree of a
      third-party parser ([parser]), and what they read off the tree of each statement.
    - [TestData]: the generator that fills the tests' tables and the helpers that run test
      cases ([execution/executors/table_generator.go], [testing_utils.go]).  The random
      numbers and the clock are the class [Random], with the range of [rand.Int31n].
    A Go struct is a record, a pointer to a shared object an address in a heap
    that is part of the state ([page_objs], the nodes of the circular list), a
    method a function on the state it can reach, in the order of the source's
    calls; an early return keeps its place, a failed assertion, a nil
    dereference and an index out of range are [Panic].  Every definition keeps
    the source's name; where two methods share a name the definitions are told
    apart by their file.

    ** What the theorems show

    - Codecs: values, tuples and log records are read back from their bytes;
      record sizes are the sizes of their serialized form.
    - Disk and log: the database file is a store of pages; the log is one
      growing stream of which the file holds a prefix up to [persistent_lsn].
    - Clock: the pointer structure refines an abstract ring.
    - Buffer pool: fetching, unpinning, flushing, evicting and creating pages keep
      every page's content and every pinned page in place; before an eviction writes
      a dirty page it has written the whole log (by the trace of the disk's writes).
    - Locks: tables and transactions agree; exclusive locks exclude as long as
      upgrades respect other holders; releasing frees everything, and once the
      other transactions have ended any lock is granted.
    - Table pages: each operation changes one entry of the page's list of slots,
      keeps the page well-formed and the other tuples' bytes, and returns the
      space a tuple used; refusals change nothing but the transaction's state.
    - Tables: an insert goes to the first page with room or to a new page at the
      end, an update stays or moves, deleting is marking; each leaves every other
      record, page and pin alone, and the iterator visits the records in order.
    - Transactions: commit performs the deletes and has the whole log on disk
      before it releases the locks; abort gives every record back, as long as old tuples
      still fit in their places; begin waits for
      checkpoints, and a checkpoint for transactions, and puts everything on disk.
    - Recovery: [Redo] does to the pages what the records of the log say, [Undo]
      what takes back the transactions without COMMIT ([redo_spec], [undo_spec]:
      the code refines the steps on abstract pages).  On those, pages of any
      age are brought to the same end, and undo is the inverse of redo slot by
      slot, so that committed work is all that is left
      ([recovery_keeps_winners]), on logs whose records can be taken back and have no
      NEWPAGE.  Theorems and runs say where it fails: a log torn within a record's header
      keeps redo from ending, an aborted insert whose slot was used again destroys the
      later one, an update is not undone once its room is taken.
    - Hash index: the table behaves as a multimap within its capacity, an index entry
      is found until it is deleted; a RID has to fit in 16 + 16 bits.
    - Queries: [means] says which answers a plan may give, by the rows of its tables and
      not by the executors; [query_answers] is the refinement, and its consequences
      read as SQL does: [top_n_query] (WHERE, ORDER BY, LIMIT, OFFSET),
      [group_by_query] (GROUP BY, HAVING), [join_query] (the hash join is the nested
      loop), [index_scan_is_seq_scan] and [inserted_row_is_found].  Their conditions are in
      their comments: sorting is by Integers and strings, groups are told apart by hashes,
      an index needs RIDs it never had, tables without Boolean columns and no collision.
      A join may leave temporary pages behind, one of them pinned, so that the theorems
      count frames and speak of views that may hold stray dirty pages ([leaky]).
      Expressions that type check do not go wrong.
    - Changes: DELETE marks what its predicate selects and keeps the indexes in step, and
      COMMIT leaves the table with the other rows ([delete_query], [delete_commit]);
      UPDATE in place gives the selected rows their new values ([update_query]), on
      tables without indexes and for ascending lists of columns: with an index it loses
      entries ([updated_row_leaves_index]).
    - Catalog: tables without indexes come back after a restart, as long as the rows of
      the catalog fit on one page for the tables and one for the columns
      ([catalog_survives_restart]).
    - Statements: the visitors read the statements of the type [Statement] as they are
      meant ([statement_read]), with constants, names and types given a meaning of their
      own; the literals, signs and conditions that are lost or refused are recorded.
    - Test data: whatever the random numbers are, [FillTable] ends and puts the rows asked
      for into the table ([fill_table]).
    Theorems that carry no number record where the code does not do what it
    means to (the reference bits of the clock, the 32-bit page offset, the pin
    [FlushPage] takes, the upgrade that ignores other sharers and others).

    ** Integers, fuel, concurrency

    Integers have the width of the source, with its wrap-around ([u32], [i32]).
    Loops are recursion on a list or on fuel; the fuel of a loop over the slots of
    a page is the page size, that of a loop over a table its number of pages, of a
    scan its pages and tuples, of recovery the number of records, and the theorems
    show that as much suffices.  A table operation needs a frame for each page
    pinned and one or two more ([frames_for]).  Mutexes and
    latches bracket whole operations; [BufferPool.fetch_step] interleaves the
    critical sections of [FetchPage], [LockManager.lock_step] the operations of
    transactions.

    ** Not modelled

    The third-party SQL parser is outside the model: what it makes of a text, its syntax
    tree, is data, with the children its [Accept] visits.  Recovery is proved for logs
    that fit the log buffer; it is sequential, as in the source.  The operating system's I/O errors, file opening
    and closing, and the third-party hash function are outside the
    model; so are printing and the wiring of [main]. *)

From Stdlib Require Export ZArith Lia.
From stdpp Require Export prelude gmap.

#[export] Set Default Goal Selector "!".
#[export] Set Warnings "-clear-no-such-hyp".
Global Open Scope Z_scope.

(** ** Outcomes of Go code

    A call returns a value, panics (a failed assertion, a nil dereference, a
    slice index out of range), blocks for ever on a latch it can never get, or
    exceeds the fuel a loop was given.  A theorem that a call succeeds excludes
    the last three. *)
Inductive res (A : Type) : Type :=
| Ok (a : A)
| Panic
| Blocked
| OutOfFuel.
Arguments Ok {A} a.
Arguments Panic {A}.
Arguments Blocked {A}.
Arguments OutOfFuel {A}.

#[global] Instance res_eq_dec {A} `{EqDecision A} : EqDecision (res A).
Proof. solve_decision. Defined.

Definition res_bind {A B : Type} (f : A → res B) (m : res A) : res B :=
  match m with
  | Ok a => f a
  | Panic => Panic
  | Blocked => Blocked
  | OutOfFuel => OutOfFuel
  end.

#[global] Instance res_mret : MRet res := @Ok.
#[global] Instance res_mbind : MBind res := @res_bind.

(** Dereferencing a Go pointer: nil panics. *)
Definition deref {A : Type} (o : option A) : res A :=
  match o with Some a => Ok a | None => Panic end.

(** A panic raised by a failed condition. *)
Definition guard_res (b : bool) : res unit := if b then Ok tt else Panic.

(** ** State passing *)
Definition st (S A : Type) : Type := S → res (A * S).

#[global] Instance st_mret S : MRet (st S) := λ A a s, Ok (a, s).
#[global] Instance st_mbind S : MBind (st S) := λ A B f m s,
  match m s with
  | Ok (a, s') => f a s'
  | Panic => Panic
  | Blocked => Blocked
  | OutOfFuel => OutOfFuel
  end.

Definition st_get {S : Type} : st S S := λ s, Ok (s, s).
Definition st_gets {S A : Type} (f : S → A) : st S A := λ s, Ok (f s, s).
Definition st_put {S : Type} (s : S) : st S unit := λ _, Ok (tt, s).
Definition st_modify {S : Type} (f : S → S) : st S unit := λ s, Ok (tt, f s).
Definition st_lift {S A : Type} (m : res A) : st S A := λ s,
  match m with
  | Ok a => Ok (a, s)
  | Panic => Panic
  | Blocked => Blocked
  | OutOfFuel => OutOfFuel
  end.

(** Running an operation of a component inside the state that contains it. *)
Definition zoom {W S A : Type} (get : W → S) (set : S → W → W) (m : st S A) : st W A := λ w,
  match m (get w) with
  | Ok (a, s) => Ok (a, set s w)
  | Panic => Panic
  | Blocked => Blocked
  | OutOfFuel => OutOfFuel
  end.

Lemma res_bind_Ok {A B} (f : A → res B) (m : res A) (b : B) :
  m ≫= f = Ok b ↔ ∃ a, m = Ok a ∧ f a = Ok b.
Proof.
  split.
  - destruct m; try discriminate. by eauto.
  - by intros (a & -> & H).
Qed.

Lemma st_bind_Ok {S A B} (f : A → st S B) (m : st S A) s b s'' :
  (m ≫= f) s = Ok (b, s'') ↔ ∃ a s', m s = Ok (a, s') ∧ f a s' = Ok (b, s'').
Proof.
  unfold mbind, st_mbind. split.
  - destruct (m s) as [[a s']| | |] eqn:E; try discriminate. by eauto.
  - by intros (a & s' & -> & H).
Qed.

Lemma st_bind_run {S A B} (f : A → st S B) (m : st S A) s a s' :
  m s = Ok (a, s') → (m ≫= f) s = f a s'.
Proof. unfold mbind, st_mbind. by intros ->. Qed.

Lemma res_bind_run {A B} (f : A → res B) (m : res A) a :
  m = Ok a → m ≫= f = f a.
Proof. by intros ->. Qed.

Lemma zoom_run {W S A} (get : W → S) (set : S → W → W) (m : st S A) w a s :
  m (get w) = Ok (a, s) → zoom get set m w = Ok (a, set s w).
Proof. unfold zoom. by intros ->. Qed.

Lemma zoom_Ok {W S A} (get : W → S) (set : S → W → W) (m : st S A) w a w' :
  zoom get set m w = Ok (a, w') ↔ ∃ s, m (get w) = Ok (a, s) ∧ w' = set s w.
Proof.
  unfold zoom. split.
  - destruct (m (get w)) as [[a' s']| | |]; intros; simplify_eq. eauto.
  - by intros (s & -> & ->).
Qed.

Lemma st_lift_run {S A} (m : res A) a (s : S) : m = Ok a → st_lift m s = Ok (a, s).
Proof. by intros ->. Qed.

Lemma st_lift_Ok {S A} (m : res A) a (s s' : S) :
  st_lift m s = Ok (a, s') ↔ m = Ok a ∧ s' = s.
Proof.
  unfold st_lift. destruct m; split; intros H; destruct_and?; simplify_eq; done.
Qed.

(** [run] computes a monadic program forward: it steps over every bind whose
    head is already known, by computation or by a hypothesis. *)
Ltac run1 :=
  match goal with
  | H : ?m ?s = Ok _ |- context [mbind _ ?m ?s] => rewrite (st_bind_run _ m s _ _ H)
  | H : ?m = Ok _ |- context [mbind _ ?m] => rewrite (res_bind_run _ m _ H)
  | H : ?m = Ok _ |- context [st_lift ?m ?s] => rewrite (st_lift_run m _ s H)
  end.
Ltac run := repeat first [run1 | progress (cbn beta iota)].

(** [mred] reduces binds on known outcomes and nothing else. *)
Ltac mred := cbn [mbind res_mbind res_bind mret res_mret deref fst snd].

(** [inv_ok] takes a successful monadic run apart. *)
Ltac inv_ok_step :=
  match goal with
  | H : mbind _ _ _ = Ok (_, _) |- _ =>
      apply st_bind_Ok in H; destruct H as (? & ? & ? & ?)
  | H : mbind _ _ = Ok _ |- _ => apply res_bind_Ok in H; destruct H as (? & ? & ?)
  | H : st_lift _ _ = Ok (_, _) |- _ => apply st_lift_Ok in H; destruct H as [? ?]
  | H : zoom _ _ _ _ = Ok (_, _) |- _ => apply zoom_Ok in H; destruct H as (? & ? & ?)
  | H : mret _ _ = Ok (_, _) |- _ => injection H as ??
  | H : mret _ = Ok _ |- _ => injection H as ?
  | H : Ok _ = Ok _ |- _ => injection H as ?
  | H : (_, _) = (_, _) |- _ => injection H as ??
  end.
Ltac inv_ok := repeat (inv_ok_step; subst).

(** ** Machine integers

    Go's fixed-width integers are [Z] with the wrap-around written out. *)
Definition u8 (z : Z) : Z := z mod 2 ^ 8.
Definition u16 (z : Z) : Z := z mod 2 ^ 16.
Definition u32 (z : Z) : Z := z mod 2 ^ 32.
Definition swrap (w z : Z) : Z := (z + 2 ^ (w - 1)) mod 2 ^ w - 2 ^ (w - 1).
Definition i16 (z : Z) : Z := swrap 16 z.
Definition i32 (z : Z) : Z := swrap 32 z.

Definition in_u32 (z : Z) : Prop := 0 ≤ z < 2 ^ 32.
Definition in_i32 (z : Z) : Prop := - 2 ^ 31 ≤ z < 2 ^ 31.

Create HintDb samehada.
Create Rewrite HintDb samehada.

Lemma u32_small z : in_u32 z → u32 z = z.
Proof. apply Z.mod_small. Qed.

Lemma u32_range z : in_u32 (u32 z).
Proof. apply Z.mod_pos_bound. lia. Qed.

Lemma i32_small z : in_i32 z → i32 z = z.
Proof.
  unfold in_i32, i32, swrap. intros H.
  replace (32 - 1) with 31 by lia.
  rewrite Z.mod_small; lia.
Qed.

Lemma i32_range z : in_i32 (i32 z).
Proof.
  unfold in_i32, i32, swrap. replace (32 - 1) with 31 by lia.
  pose proof (Z.mod_pos_bound (z + 2 ^ 31) (2 ^ 32)). lia.
Qed.

Lemma i32_u32 z : i32 (u32 z) = i32 z.
Proof.
  unfold i32, u32, swrap. f_equal. apply Zplus_mod_idemp_l.
Qed.

Lemma i16_u16 z : i16 (u16 z) = i16 z.
Proof.
  unfold i16, u16, swrap. f_equal. apply Zplus_mod_idemp_l.
Qed.

Lemma i16_small z : - 2 ^ 15 ≤ z < 2 ^ 15 → i16 z = z.
Proof.
  unfold i16, swrap. intros H. replace (16 - 1) with 15 by lia.
  rewrite Z.mod_small; lia.
Qed.

Lemma u32_i32 z : u32 (i32 z) = u32 z.
Proof.
  unfold i32, u32, swrap. rewrite Zminus_mod_idemp_l. f_equal. lia.
Qed.

#[export] Hint Resolve u32_range i32_range : samehada.
#[export] Hint Rewrite i32_u32 u32_i32 i16_u16 : samehada.

(** ** Association with natural indexes *)
Lemma lookup_Z_nat {A} (l : list A) (i : Z) :
  0 ≤ i < Z.of_nat (length l) → is_Some (l !! Z.to_nat i).
Proof. intros H. apply lookup_lt_is_Some. lia. Qed.

(** ** Loops

    A [for] loop over a range folds its body; the body can panic. *)
Fixpoint res_foldl {S A : Type} (f : S → A → res S) (l : list A) (s : S) : res S :=
  match l with
  | [] => Ok s
  | a :: l' => s' ← f s a; res_foldl f l' s'
  end.

Lemma res_foldl_app {S A} (f : S → A → res S) l1 l2 s :
  res_foldl f (l1 ++ l2) s = s' ← res_foldl f l1 s; res_foldl f l2 s'.
Proof.
  revert s. induction l1 as [|a l1 IH]; intros s; [done|]. simpl.
  destruct (f s a); try done. apply IH.
Qed.

Lemma res_foldl_ext {S A} (f g : S → A → res S) l s : (∀ s a, f s a = g s a) → res_foldl f l s = res_foldl g l s.
Proof.
  intros HE. revert s. induction l as [|a l IH]; intros s; [done|]. simpl. rewrite HE.
  destruct (g s a); try done. apply IH.
Qed.

Lemma mapM_length_Ok {A B} (f : A → res B) l k : mapM f l = Ok k → length k = length l.
Proof.
  revert k. induction l as [|a l IH]; intros k; cbn; [by intros [= <-]|].
  destruct (f a); try done. cbn. destruct (mapM f l) as [k'| | |]; try done. intros [= <-]. cbn. by rewrite IH.
Qed.

(** The loop rule: an invariant indexed by the iteration number, each
    iteration of which succeeds, holds at the end of a loop that succeeds. *)
Lemma res_foldl_range {S} (P : nat → S → Prop) (f : S → nat → res S) n s :
  P 0%nat s →
  (∀ i s, (i < n)%nat → P i s → ∃ s', f s i = Ok s' ∧ P (i + 1)%nat s') →
  ∃ s', res_foldl f (seq 0 n) s = Ok s' ∧ P n s'.
Proof.
  intros H0 Hstep.
  assert (∀ m, (m ≤ n)%nat → ∃ s', res_foldl f (seq 0 m) s = Ok s' ∧ P m s') as H.
  { induction m as [|m IH]; intros Hm; [by eauto|].
    destruct IH as (s1 & E1 & P1); [lia|].
    destruct (Hstep m s1) as (s2 & E2 & P2); [lia|done|].
    exists s2. rewrite seq_S, res_foldl_app, E1. cbn. rewrite E2.
    by replace (Datatypes.S m) with (m + 1)%nat by lia. }
  by apply H.
Qed.

(** Reading a Go slice or array element: an index out of range panics. *)
Definition index {A : Type} (l : list A) (i : Z) : res A :=
  if (0 <=? i) then deref (l !! Z.to_nat i) else Panic.

Lemma index_Ok {A} (l : list A) i a :
  0 ≤ i → l !! Z.to_nat i = Some a → index l i = Ok a.
Proof. intros H E. unfold index. by rewrite (proj2 (Z.leb_le _ _) H), E. Qed.

Lemma index_nat {A} (l : list A) (i : nat) a :
  l !! i = Some a → index l (Z.of_nat i) = Ok a.
Proof. intros H. apply index_Ok; [lia|]. by rewrite Nat2Z.id. Qed.
