(* ===== verification/Bytes.v ===== *)
(** * Byte slices and fixed-width codecs

    Go's [[]byte] values, slicing with its range checks, the [copy] builtin,
    and the little-endian codec of [encoding/binary] that every on-disk format
    of the system uses ([types/lsn.go], [types/page_id.go], [types/txn_id.go],
    [types/uint32.go]). *)

From Stdlib Require Strings.Byte Strings.String.
From S2P Require Import Prelude.

Abbreviation byte := Byte.byte.

Definition Z_of_byte (b : byte) : Z := Z.of_N (Byte.to_N b).
Definition byte_of_Z (z : Z) : byte :=
  default Byte.x00 (Byte.of_N (Z.to_N (z mod 2 ^ 8))).

#[global] Instance byte_eq_dec : EqDecision byte := Byte.byte_eq_dec.

(** The bytes of a string constant. *)
Definition text (s : String.string) : list byte := String.list_byte_of_string s.

Lemma Z_of_byte_range b : 0 ≤ Z_of_byte b < 256.
Proof. unfold Z_of_byte. pose proof (Byte.to_N_bounded b). lia. Qed.

Lemma byte_of_Z_of_byte b : byte_of_Z (Z_of_byte b) = b.
Proof.
  unfold byte_of_Z. pose proof (Z_of_byte_range b).
  rewrite Z.mod_small by lia. unfold Z_of_byte.
  rewrite N2Z.id, Byte.of_to_N. done.
Qed.

Lemma Z_of_byte_of_Z z : Z_of_byte (byte_of_Z z) = z mod 256.
Proof.
  unfold byte_of_Z. change (2 ^ 8) with 256.
  pose proof (Z.mod_pos_bound z 256 eq_refl).
  destruct (Byte.of_N (Z.to_N (z mod 256))) as [b|] eqn:E; simpl.
  - apply Byte.to_of_N in E. unfold Z_of_byte. lia.
  - apply Byte.of_N_None_iff in E. lia.
Qed.

(** ** Little-endian codec *)
Fixpoint le_bytes (n : nat) (z : Z) : list byte :=
  match n with
  | O => []
  | S n' => byte_of_Z z :: le_bytes n' (z / 256)
  end.

Fixpoint le_Z (bs : list byte) : Z :=
  match bs with
  | [] => 0
  | b :: bs' => Z_of_byte b + 256 * le_Z bs'
  end.

Lemma length_le_bytes n z : length (le_bytes n z) = n.
Proof. revert z. induction n; intros; simpl; auto. Qed.

Lemma le_Z_range bs : 0 ≤ le_Z bs < 256 ^ Z.of_nat (length bs).
Proof.
  induction bs as [|b bs IH]; simpl; [lia|].
  pose proof (Z_of_byte_range b).
  rewrite Nat2Z.inj_succ, Z.pow_succ_r by lia. lia.
Qed.

Lemma le_Z_bytes n z : le_Z (le_bytes n z) = z mod 256 ^ Z.of_nat n.
Proof.
  revert z. induction n as [|n IH]; intros z; simpl; [by rewrite Z.mod_1_r|].
  rewrite IH, Z_of_byte_of_Z, Nat2Z.inj_succ, Z.pow_succ_r by lia.
  rewrite (Z.rem_mul_r z 256); [lia|lia|].
  apply Z.pow_pos_nonneg; lia.
Qed.

Lemma le_bytes_Z bs : le_bytes (length bs) (le_Z bs) = bs.
Proof.
  induction bs as [|b bs IH]; simpl; [done|].
  pose proof (Z_of_byte_range b). f_equal.
  - transitivity (byte_of_Z (Z_of_byte b)); [|apply byte_of_Z_of_byte].
    unfold byte_of_Z. change (2 ^ 8) with 256.
    by rewrite (Z.mul_comm 256), Z.mod_add by lia.
  - transitivity (le_bytes (length bs) (le_Z bs)); [|exact IH]. f_equal.
    rewrite (Z.mul_comm 256), Z.div_add, Z.div_small by lia. lia.
Qed.

Lemma le_bytes_inj n z z' :
  0 ≤ z < 256 ^ Z.of_nat n → 0 ≤ z' < 256 ^ Z.of_nat n →
  le_bytes n z = le_bytes n z' → z = z'.
Proof.
  intros Hz Hz' E. apply (f_equal le_Z) in E. rewrite !le_Z_bytes in E.
  by rewrite !Z.mod_small in E.
Qed.

(** ** [binary.Read] into a fixed-width integer

    A buffer that is too short is an error, which the callers of
    [types/*FromBytes] ignore: the result keeps its zero value. *)
Definition read_le (n : nat) (bs : list byte) : Z :=
  if (length bs <? n)%nat then 0 else le_Z (take n bs).

Definition NewUInt32FromBytes (data : list byte) : Z := read_le 4 data.
Definition NewPageIDFromBytes (data : list byte) : Z := i32 (read_le 4 data).
Definition NewLSNFromBytes (data : list byte) : Z := i32 (read_le 4 data).
Definition NewTxnIDFromBytes (data : list byte) : Z := i32 (read_le 4 data).

Definition UInt32_Serialize (id : Z) : list byte := le_bytes 4 (u32 id).
Definition PageID_Serialize (id : Z) : list byte := le_bytes 4 (u32 id).
Definition LSN_Serialize (lsn : Z) : list byte := le_bytes 4 (u32 lsn).
Definition TxnID_Serialize (id : Z) : list byte := le_bytes 4 (u32 id).

Definition InvalidPageID : Z := -1.
(** [IsValid] of [types/page_id.go], with its disjunction as written. *)
Definition IsValid (id : Z) : bool := negb (id =? InvalidPageID) || (0 <=? id).

Lemma read_le_app n z bs :
  read_le n (le_bytes n z ++ bs) = z mod 256 ^ Z.of_nat n.
Proof.
  unfold read_le. rewrite length_app, length_le_bytes.
  destruct (Nat.ltb_spec (n + length bs) n); [lia|].
  rewrite take_app_le by (rewrite length_le_bytes; lia).
  rewrite take_ge by (rewrite length_le_bytes; lia). apply le_Z_bytes.
Qed.

Lemma read_le_take n m bs : (n ≤ m)%nat → read_le n (take m bs) = read_le n bs.
Proof.
  intros H. unfold read_le. rewrite length_take, take_take, (Nat.min_l n m) by done.
  destruct (Nat.ltb_spec (length bs) n), (Nat.ltb_spec (m `min` length bs) n);
    try done; lia.
Qed.

Lemma read_le_range n bs : 0 ≤ read_le n bs < 256 ^ Z.of_nat n.
Proof.
  unfold read_le. destruct (Nat.ltb_spec (length bs) n); [lia|].
  pose proof (le_Z_range (take n bs)) as R.
  by rewrite length_take, Nat.min_l in R by lia.
Qed.

Lemma UInt32_roundtrip z bs :
  NewUInt32FromBytes (UInt32_Serialize z ++ bs) = u32 z.
Proof.
  unfold NewUInt32FromBytes, UInt32_Serialize. rewrite read_le_app.
  apply Z.mod_mod. lia.
Qed.

Lemma PageID_roundtrip z bs :
  in_i32 z → NewPageIDFromBytes (PageID_Serialize z ++ bs) = z.
Proof.
  intros H. unfold NewPageIDFromBytes, PageID_Serialize.
  rewrite read_le_app. change (256 ^ Z.of_nat 4) with (2 ^ 32).
  fold (u32 (u32 z)). autorewrite with samehada. by apply i32_small.
Qed.

Lemma LSN_roundtrip z bs :
  in_i32 z → NewLSNFromBytes (LSN_Serialize z ++ bs) = z.
Proof. apply PageID_roundtrip. Qed.

Lemma TxnID_roundtrip z bs :
  in_i32 z → NewTxnIDFromBytes (TxnID_Serialize z ++ bs) = z.
Proof. apply PageID_roundtrip. Qed.

Lemma NewUInt32FromBytes_range bs : in_u32 (NewUInt32FromBytes bs).
Proof. exact (read_le_range 4 bs). Qed.
#[export] Hint Resolve NewUInt32FromBytes_range : samehada.

(** ** Slicing

    [data[lo:]] panics when [lo] is past the end, [data[lo:hi]] when the
    bounds are not ordered or [hi] is past the end (of the capacity, which is
    the length for every slice the callers below take). *)
Definition slice_from (data : list byte) (lo : Z) : res (list byte) :=
  if (0 <=? lo) && (lo <=? Z.of_nat (length data))
  then Ok (drop (Z.to_nat lo) data) else Panic.

Definition slice (data : list byte) (lo hi : Z) : res (list byte) :=
  if (0 <=? lo) && (lo <=? hi) && (hi <=? Z.of_nat (length data))
  then Ok (take (Z.to_nat (hi - lo)) (drop (Z.to_nat lo) data)) else Panic.

(** Writing [src] over [data] from index [off]: [copy(data[off:], src)] copies
    the shorter of the two lengths. *)
Definition overwrite (off : nat) (src data : list byte) : list byte :=
  take off data ++ take (length data - off) src ++ drop (off + length src) data.

Definition go_copy (data : list byte) (off : Z) (src : list byte) : res (list byte) :=
  if (0 <=? off) && (off <=? Z.of_nat (length data))
  then Ok (overwrite (Z.to_nat off) src data) else Panic.

(** The bytes [off, off + n). *)
Definition region (off n : nat) (data : list byte) : list byte :=
  take n (drop off data).

Lemma slice_from_Ok data lo :
  0 ≤ lo ≤ Z.of_nat (length data) → slice_from data lo = Ok (drop (Z.to_nat lo) data).
Proof.
  intros H. unfold slice_from.
  by rewrite (proj2 (Z.leb_le _ _)), (proj2 (Z.leb_le _ _)) by lia.
Qed.

Lemma slice_Ok data lo hi :
  0 ≤ lo ≤ hi → hi ≤ Z.of_nat (length data) →
  slice data lo hi = Ok (region (Z.to_nat lo) (Z.to_nat (hi - lo)) data).
Proof.
  intros H1 H2. unfold slice.
  by rewrite !(proj2 (Z.leb_le _ _)) by lia.
Qed.

Lemma go_copy_Ok data off src :
  0 ≤ off ≤ Z.of_nat (length data) →
  go_copy data off src = Ok (overwrite (Z.to_nat off) src data).
Proof.
  intros H. unfold go_copy. by rewrite !(proj2 (Z.leb_le _ _)) by lia.
Qed.

Lemma length_overwrite off src data :
  (off ≤ length data)%nat → length (overwrite off src data) = length data.
Proof.
  intros H. unfold overwrite. rewrite !length_app, !length_take, length_drop. lia.
Qed.

Lemma length_region off n data :
  (off + n ≤ length data)%nat → length (region off n data) = n.
Proof. intros H. unfold region. rewrite length_take, length_drop. lia. Qed.

Lemma lookup_region off n data i :
  region off n data !! i = if decide (i < n)%nat then data !! (off + i)%nat else None.
Proof.
  unfold region. case_decide.
  - by rewrite lookup_take_lt, lookup_drop.
  - rewrite lookup_take_ge; [done|lia].
Qed.

Lemma lookup_overwrite off src data i :
  (off ≤ length data)%nat → (i < length data)%nat →
  overwrite off src data !! i =
    if decide (off ≤ i < off + length src)%nat then src !! (i - off)%nat else data !! i.
Proof.
  intros Ho Hi. unfold overwrite. case_decide as C.
  - rewrite lookup_app_r; rewrite length_take; [|lia].
    rewrite Nat.min_l by lia. rewrite lookup_app_l; [|rewrite length_take; lia].
    by rewrite lookup_take_lt by lia.
  - destruct (decide (i < off)%nat).
    + rewrite lookup_app_l; [|rewrite length_take; lia]. by rewrite lookup_take_lt.
    + rewrite !lookup_app_r; rewrite ?length_take; [|lia..].
      rewrite lookup_drop. f_equal. lia.
Qed.

(** Regions are compared byte by byte. *)
Lemma region_ext off off' n data data' :
  (off + n ≤ length data)%nat → (off' + n ≤ length data')%nat →
  (∀ i, (i < n)%nat → data !! (off + i)%nat = data' !! (off' + i)%nat) →
  region off n data = region off' n data'.
Proof.
  intros H H' E. apply list_eq. intros i. rewrite !lookup_region.
  case_decide; [by apply E|done].
Qed.

Lemma region_overwrite_eq off src data :
  (off + length src ≤ length data)%nat →
  region off (length src) (overwrite off src data) = src.
Proof.
  intros H. apply list_eq. intros i. rewrite lookup_region. case_decide as C.
  - rewrite lookup_overwrite by lia. rewrite decide_True by lia. f_equal. lia.
  - symmetry. apply lookup_ge_None. lia.
Qed.

Lemma region_overwrite_ne off src data o n :
  (off + length src ≤ length data)%nat → (o + n ≤ length data)%nat →
  (o + n ≤ off ∨ off + length src ≤ o)%nat →
  region o n (overwrite off src data) = region o n data.
Proof.
  intros H1 H2 D. apply region_ext; rewrite ?length_overwrite by lia; [lia..|].
  intros i Hi. rewrite lookup_overwrite by lia. by rewrite decide_False by lia.
Qed.

Lemma region_overwrite_in off src data o n :
  (off + length src ≤ length data)%nat → (off ≤ o)%nat → (o + n ≤ off + length src)%nat →
  region o n (overwrite off src data) = region (o - off) n src.
Proof.
  intros H1 H2 H3. apply region_ext; rewrite ?length_overwrite by lia; [lia..|].
  intros i Hi. rewrite lookup_overwrite by lia. rewrite decide_True by lia.
  f_equal. lia.
Qed.

Lemma region_region o n o' n' data :
  (o + n ≤ n')%nat → region o n (region o' n' data) = region (o' + o) n data.
Proof.
  intros H. apply list_eq. intros i. rewrite !lookup_region.
  case_decide; [|done]. rewrite decide_True by lia. f_equal. lia.
Qed.

Lemma region_0_all data : region 0 (length data) data = data.
Proof. unfold region. rewrite drop_0. by rewrite take_ge. Qed.

Lemma region_app_r o n l1 l2 :
  (length l1 ≤ o)%nat → region o n (l1 ++ l2) = region (o - length l1) n l2.
Proof. intros H. unfold region. by rewrite drop_app_ge. Qed.

Lemma region_app_l o n l1 l2 :
  (o + n ≤ length l1)%nat → region o n (l1 ++ l2) = region o n l1.
Proof.
  intros H. unfold region. rewrite drop_app_le by lia.
  rewrite take_app_le; [done|]. rewrite length_drop. lia.
Qed.

(** ** Consecutive writes *)
Lemma overwrite_app off a b data :
  (off + length a + length b ≤ length data)%nat →
  overwrite (off + length a) b (overwrite off a data) = overwrite off (a ++ b) data.
Proof.
  intros H. apply list_eq. intros i.
  destruct (decide (i < length data)%nat) as [Hi|Hi].
  - rewrite lookup_overwrite by (rewrite ?length_overwrite by lia; lia).
    rewrite lookup_overwrite by lia. rewrite lookup_overwrite by lia. rewrite length_app.
    repeat case_decide; try lia; try done.
    + rewrite lookup_app_r by lia. f_equal. lia.
    + by rewrite lookup_app_l by lia.
  - rewrite !lookup_ge_None_2; [done|..];
      repeat rewrite length_overwrite; rewrite ?length_overwrite; lia.
Qed.

Lemma overwrite_tail off src data :
  (off ≤ length data)%nat → take off data ++ overwrite 0 src (drop off data) = overwrite off src data.
Proof.
  intros H. unfold overwrite. rewrite take_0, length_drop, Nat.sub_0_r, drop_drop. done.
Qed.

Lemma take_overwrite off src data :
  (off + length src ≤ length data)%nat →
  take (off + length src) (overwrite off src data) = take off data ++ src.
Proof.
  intros H. unfold overwrite. rewrite app_assoc, (take_ge src) by lia.
  apply take_app_length'. rewrite length_app, length_take. lia.
Qed.

(** ** Four-byte fields of a page *)
Definition field (off : nat) (data : list byte) : Z := read_le 4 (drop off data).

Lemma field_region off data : field off data = read_le 4 (region off 4 data).
Proof. unfold field, region. by rewrite read_le_take. Qed.

Lemma field_range off data : in_u32 (field off data).
Proof. exact (read_le_range 4 _). Qed.
#[export] Hint Resolve field_range : samehada.

Lemma field_overwrite_eq off z data :
  (off + 4 ≤ length data)%nat →
  field off (overwrite off (le_bytes 4 z) data) = u32 z.
Proof.
  intros H. rewrite field_region.
  pose proof (region_overwrite_eq off (le_bytes 4 z) data) as R.
  rewrite length_le_bytes in R. rewrite R by lia.
  rewrite <- (app_nil_r (le_bytes 4 z)). by rewrite read_le_app.
Qed.

Lemma field_overwrite_ne off src data o :
  (off + length src ≤ length data)%nat → (o + 4 ≤ length data)%nat →
  (o + 4 ≤ off ∨ off + length src ≤ o)%nat →
  field o (overwrite off src data) = field o data.
Proof. intros. rewrite !field_region. by rewrite region_overwrite_ne. Qed.

(** ** [Z] coordinates *)
Definition zlen (d : list byte) : Z := Z.of_nat (length d).
Definition zfield (o : Z) (d : list byte) : Z := field (Z.to_nat o) d.
Definition zregion (o n : Z) (d : list byte) : list byte := region (Z.to_nat o) (Z.to_nat n) d.
Definition zput (o : Z) (bs d : list byte) : list byte := overwrite (Z.to_nat o) bs d.

Lemma zput_len o bs d : 0 ≤ o → o + zlen bs ≤ zlen d → zlen (zput o bs d) = zlen d.
Proof. intros. unfold zput, zlen in *. rewrite length_overwrite; lia. Qed.

Lemma zfield_put o z d :
  0 ≤ o → o + 4 ≤ zlen d → zfield o (zput o (le_bytes 4 z) d) = u32 z.
Proof. intros. unfold zfield, zput, zlen in *. rewrite field_overwrite_eq; [done|lia]. Qed.

Lemma zfield_put_ne o bs d p :
  0 ≤ o → 0 ≤ p → o + zlen bs ≤ zlen d → p + 4 ≤ zlen d →
  p + 4 ≤ o ∨ o + zlen bs ≤ p → zfield p (zput o bs d) = zfield p d.
Proof. intros. unfold zfield, zput, zlen in *. rewrite field_overwrite_ne; [done|lia..]. Qed.

Lemma zregion_put o bs d : 0 ≤ o → o + zlen bs ≤ zlen d → zregion o (zlen bs) (zput o bs d) = bs.
Proof.
  intros. unfold zregion, zput, zlen in *. rewrite Nat2Z.id. rewrite region_overwrite_eq; [done|lia].
Qed.

Lemma zregion_put_ne o bs d p n :
  0 ≤ o → 0 ≤ p → 0 ≤ n → o + zlen bs ≤ zlen d → p + n ≤ zlen d →
  p + n ≤ o ∨ o + zlen bs ≤ p → zregion p n (zput o bs d) = zregion p n d.
Proof. intros. unfold zregion, zput, zlen in *. rewrite region_overwrite_ne; [done|lia..]. Qed.

(** Moving the bytes [s, s + m) to [o]. *)
Lemma zregion_move o s m d p n :
  0 ≤ o → 0 ≤ s → 0 ≤ m → 0 ≤ n → o + m ≤ zlen d → s + m ≤ zlen d →
  s ≤ p → p + n ≤ s + m →
  zregion (p - s + o) n (zput o (zregion s m d) d) = zregion p n d.
Proof.
  intros. unfold zregion, zput, zlen in *.
  rewrite region_overwrite_in; rewrite ?length_region; [|lia..].
  rewrite region_region by lia. f_equal. lia.
Qed.

Lemma zlen_region o n d : 0 ≤ o → 0 ≤ n → o + n ≤ zlen d → zlen (zregion o n d) = n.
Proof. intros. unfold zlen, zregion in *. rewrite length_region; lia. Qed.

#[global] Arguments le_bytes : simpl never.
#[global] Arguments le_Z : simpl never.
#[global] Arguments read_le : simpl never.
#[global] Arguments region : simpl never.
#[global] Arguments overwrite : simpl never.
#[global] Arguments field : simpl never.
