(* ===== verification/Types.v ===== *)
(** * SQL values ([types/column_type_id.go], [types/column_value.go])

    A [Value] keeps the source's pointer fields as options: dereferencing the
    field of another type is the nil dereference the code would make.  A
    [float32] is its IEEE-754 bit pattern, compared and added through the
    Standard Library's [SpecFloat] at precision 24 and exponent bound 128.

    Sections: the type, its constructors, the six comparisons, serialisation,
    the aggregation arithmetic; then the theorems: the comparisons are those of
    one total order, NULL breaks that order, serialisation round-trips below
    the 16-bit length limit and fails above it. *)

From Stdlib Require Import SpecFloat.
From S2P Require Import Prelude Bytes.

Inductive TypeID : Type :=
| Invalid | Boolean | Tinyint | Smallint | Integer | BigInt | Decimal | Float
| Varchar | Timestamp | Null.

#[global] Instance TypeID_eq_dec : EqDecision TypeID.
Proof. solve_decision. Defined.

Definition TypeID_Size (t : TypeID) : Z :=
  match t with
  | Integer => 1 + 4
  | Float => 1 + 4
  | Boolean => 1 + 1
  | _ => 0
  end.

(** ** float32 *)
Module F32.
(** The number a bit pattern stands for. *)
Definition decode (bits : Z) : spec_float :=
  let s := Z.testbit bits 31 in
  let e := Z.land (Z.shiftr bits 23) 255 in
  let m := Z.land bits (2 ^ 23 - 1) in
  if e =? 255 then (if m =? 0 then S754_infinity s else S754_nan)
  else if e =? 0 then
    match m with
    | Zpos p => S754_finite s p (-149)
    | _ => S754_zero s
    end
  else S754_finite s (Z.to_pos (m + 2 ^ 23)) (e - 150).

Definition sign_bit (s : bool) : Z := if s then 2 ^ 31 else 0.

(** Go's quiet NaN stands for every NaN result. *)
Definition encode (f : spec_float) : Z :=
  match f with
  | S754_zero s => sign_bit s
  | S754_infinity s => sign_bit s + Z.shiftl 255 23
  | S754_nan => Z.shiftl 511 22
  | S754_finite s m e =>
      if Z.pos m <? 2 ^ 23 then sign_bit s + Z.pos m
      else sign_bit s + Z.shiftl (e + 150) 23 + (Z.pos m - 2 ^ 23)
  end.

Definition add (a b : Z) : Z := encode (SFadd 24 128 (decode a) (decode b)).
Definition eqb (a b : Z) : bool := SFeqb (decode a) (decode b).
Definition ltb (a b : Z) : bool := SFltb (decode a) (decode b).
Definition leb (a b : Z) : bool := SFleb (decode a) (decode b).

Example add_one_half : add 0x3F800000 0x3F000000 = 0x3FC00000.
Proof. reflexivity. Qed.
End F32.

(** ** Go strings compare byte-wise *)
Fixpoint bytes_compare (a b : list byte) : comparison :=
  match a, b with
  | [], [] => Eq
  | [], _ :: _ => Lt
  | _ :: _, [] => Gt
  | x :: a', y :: b' =>
      match Z_of_byte x ?= Z_of_byte y with
      | Eq => bytes_compare a' b'
      | c => c
      end
  end.

(** ** The value record *)
Record Value : Type := MkValue {
  valueType : TypeID;
  isNull : bool;
  integer : option Z;
  boolean : option bool;
  varchar : option (list byte);
  float : option Z
}.

#[global] Instance Value_eq_dec : EqDecision Value.
Proof. solve_decision. Defined.

Definition NewInteger (value : Z) : Value := MkValue Integer false (Some value) None None None.
Definition NewFloat (value : Z) : Value := MkValue Float false None None None (Some value).
Definition NewBoolean (value : bool) : Value := MkValue Boolean false None (Some value) None None.
Definition NewVarchar (value : list byte) : Value := MkValue Varchar false None None (Some value) None.
Definition NewNull : Value := MkValue Integer true (Some 0) None None None.

Definition ToBoolean (v : Value) : res bool := deref (boolean v).
Definition ToInteger (v : Value) : res Z := deref (integer v).
Definition ToFloat (v : Value) : res Z := deref (float v).
Definition ToVarchar (v : Value) : res (list byte) := deref (varchar v).
Definition IsNull (v : Value) : bool := isNull v.

Definition SetNull (v : Value) : res Value :=
  match valueType v with
  | Integer => _ ← deref (integer v);
      Ok (MkValue Integer true (Some 0) (boolean v) (varchar v) (float v))
  | Float => _ ← deref (float v);
      Ok (MkValue Float true (integer v) (boolean v) (varchar v) (Some 0))
  | Varchar => _ ← deref (varchar v);
      Ok (MkValue Varchar true (integer v) (boolean v) (Some []) (float v))
  | Boolean => _ ← deref (boolean v);
      Ok (MkValue Boolean true (integer v) (Some false) (varchar v) (float v))
  | _ => Panic
  end.

(** ** Comparisons *)
Definition deref2 {A B} (f : A → A → B) (x y : option A) : res B :=
  a ← deref x; b ← deref y; Ok (f a b).

Definition bytes_eqb (a b : list byte) : bool :=
  match bytes_compare a b with Eq => true | _ => false end.
Definition bytes_ltb (a b : list byte) : bool :=
  match bytes_compare a b with Lt => true | _ => false end.
Definition bytes_leb (a b : list byte) : bool :=
  match bytes_compare a b with Gt => false | _ => true end.

Definition CompareEquals (v right : Value) : res bool :=
  if IsNull v && IsNull right then Ok true
  else if IsNull v || IsNull right then Ok false
  else match valueType v with
  | Integer => deref2 Z.eqb (integer v) (integer right)
  | Float => deref2 F32.eqb (float v) (float right)
  | Varchar => deref2 bytes_eqb (varchar v) (varchar right)
  | Boolean => deref2 Bool.eqb (boolean v) (boolean right)
  | _ => Ok false
  end.

Definition CompareNotEquals (v right : Value) : res bool :=
  if IsNull v && IsNull right then Ok false
  else if IsNull v || IsNull right then Ok true
  else match valueType v with
  | Integer => deref2 (λ a b, negb (a =? b)) (integer v) (integer right)
  | Float => deref2 (λ a b, negb (F32.eqb a b)) (float v) (float right)
  | Varchar => deref2 (λ a b, negb (bytes_eqb a b)) (varchar v) (varchar right)
  | Boolean => deref2 (λ a b, negb (Bool.eqb a b)) (boolean v) (boolean right)
  | _ => Ok false
  end.

Definition CompareGreaterThan (v right : Value) : res bool :=
  if IsNull v then Ok false
  else match valueType v with
  | Integer => deref2 (λ a b, b <? a) (integer v) (integer right)
  | Float => deref2 (λ a b, F32.ltb b a) (float v) (float right)
  | Varchar => deref2 (λ a b, bytes_ltb b a) (varchar v) (varchar right)
  | _ => Ok false
  end.

Definition CompareGreaterThanOrEqual (v right : Value) : res bool :=
  if IsNull v && IsNull right then Ok true
  else if IsNull v || IsNull right then Ok false
  else match valueType v with
  | Integer => deref2 (λ a b, b <=? a) (integer v) (integer right)
  | Float => deref2 (λ a b, F32.leb b a) (float v) (float right)
  | Varchar => deref2 (λ a b, bytes_leb b a) (varchar v) (varchar right)
  | Boolean => deref2 Bool.eqb (boolean v) (boolean right)
  | _ => Ok false
  end.

Definition CompareLessThan (v right : Value) : res bool :=
  if IsNull v then Ok false
  else match valueType v with
  | Integer => deref2 Z.ltb (integer v) (integer right)
  | Float => deref2 F32.ltb (float v) (float right)
  | Varchar => deref2 bytes_ltb (varchar v) (varchar right)
  | _ => Ok false
  end.

Definition CompareLessThanOrEqual (v right : Value) : res bool :=
  if IsNull v && IsNull right then Ok true
  else if IsNull v || IsNull right then Ok false
  else match valueType v with
  | Integer => deref2 Z.leb (integer v) (integer right)
  | Float => deref2 F32.leb (float v) (float right)
  | Varchar => deref2 bytes_leb (varchar v) (varchar right)
  | Boolean => deref2 Bool.eqb (boolean v) (boolean right)
  | _ => Panic
  end.

(** ** Serialisation *)
Definition bool_byte (b : bool) : byte := if b then Byte.x01 else Byte.x00.

(** [binary.Read] of a bool: one byte, true when it is not zero. *)
Definition read_bool (bs : list byte) : bool :=
  match bs with b :: _ => negb (Z_of_byte b =? 0) | [] => false end.

Definition Serialize (v : Value) : res (list byte) :=
  match valueType v with
  | Integer => z ← ToInteger v; Ok (bool_byte (isNull v) :: le_bytes 4 (u32 z))
  | Float => f ← ToFloat v; Ok (bool_byte (isNull v) :: le_bytes 4 f)
  | Varchar => s ← ToVarchar v;
      Ok (bool_byte (isNull v) :: le_bytes 2 (u16 (Z.of_nat (length s))) ++ s)
  | Boolean => b ← ToBoolean v; Ok [bool_byte (isNull v); bool_byte b]
  | _ => Ok []
  end.

Definition NewValueFromBytes (data : list byte) (t : TypeID) : res Value :=
  let null := read_bool data in
  let finish v := if null then SetNull v else Ok v in
  match t with
  | Integer => finish (NewInteger (i32 (read_le 4 (drop 1 data))))
  | Float => finish (NewFloat (read_le 4 (drop 1 data)))
  | Varchar =>
      let length := i16 (read_le 2 (drop 1 data)) in
      s ← slice data (1 + 2) (i16 (length + (1 + 2)));
      finish (NewVarchar s)
  | Boolean => finish (NewBoolean (read_bool (drop 1 data)))
  | _ => Panic
  end.

Definition Size (v : Value) : res Z :=
  match valueType v with
  | Integer => Ok (TypeID_Size Integer)
  | Float => Ok (TypeID_Size Float)
  | Varchar => s ← deref (varchar v); Ok (u32 (Z.of_nat (length s) + 1 + 2))
  | Boolean => Ok (TypeID_Size Boolean)
  | _ => Panic
  end.

(** ** Aggregation arithmetic *)
Definition Add (v other : Value) : res Value :=
  if IsNull other then Ok v
  else match valueType v with
  | Integer => z ← deref2 (λ a b, i32 (a + b)) (integer v) (integer other); Ok (NewInteger z)
  | Float => f ← deref2 F32.add (float v) (float other); Ok (NewFloat f)
  | _ => Panic
  end.

Definition Max (v other : Value) : res Value :=
  if IsNull other then Ok v
  else match valueType v with
  | Integer => c ← deref2 (λ a b, b <=? a) (integer v) (integer other);
      if (c : bool) then a ← deref (integer v); Ok (NewInteger a)
      else b ← ToInteger other; Ok (NewInteger b)
  | Float => c ← deref2 (λ a b, F32.leb b a) (float v) (float other);
      if (c : bool) then a ← deref (float v); Ok (NewFloat a)
      else b ← ToFloat other; Ok (NewFloat b)
  | _ => Panic
  end.

Definition Min (v other : Value) : res Value :=
  if IsNull other then Ok v
  else match valueType v with
  | Integer => c ← deref2 (λ a b, a <=? b) (integer v) (integer other);
      if (c : bool) then a ← deref (integer v); Ok (NewInteger a)
      else b ← ToInteger other; Ok (NewInteger b)
  | Float => c ← deref2 (λ a b, F32.leb a b) (float v) (float other);
      if (c : bool) then a ← deref (float v); Ok (NewFloat a)
      else b ← ToFloat other; Ok (NewFloat b)
  | _ => Panic
  end.

(** ** Byte-wise string order *)
Lemma bytes_compare_refl a : bytes_compare a a = Eq.
Proof. induction a as [|x a IH]; simpl; [done|]. by rewrite Z.compare_refl. Qed.

Lemma bytes_compare_antisym a b : bytes_compare b a = CompOpp (bytes_compare a b).
Proof.
  revert b. induction a as [|x a IH]; intros [|y b]; simpl; try done.
  rewrite (Z.compare_antisym (Z_of_byte x)).
  destruct (Z_of_byte x ?= Z_of_byte y); simpl; auto.
Qed.

Lemma Z_of_byte_inj x y : Z_of_byte x = Z_of_byte y → x = y.
Proof.
  intros E. rewrite <- (byte_of_Z_of_byte x), <- (byte_of_Z_of_byte y). by rewrite E.
Qed.

Lemma bytes_compare_eq a b : bytes_compare a b = Eq → a = b.
Proof.
  revert b. induction a as [|x a IH]; intros [|y b]; simpl; try done.
  destruct (Z.compare_spec (Z_of_byte x) (Z_of_byte y)) as [E| |]; try done.
  intros H. f_equal; auto using Z_of_byte_inj.
Qed.

Lemma bytes_compare_trans a b c :
  bytes_compare a b = Lt → bytes_compare b c = Lt → bytes_compare a c = Lt.
Proof.
  revert b c. induction a as [|x a IH]; intros [|y b] [|z c]; simpl; try done.
  destruct (Z.compare_spec (Z_of_byte x) (Z_of_byte y)),
    (Z.compare_spec (Z_of_byte y) (Z_of_byte z)),
    (Z.compare_spec (Z_of_byte x) (Z_of_byte z)); try done; eauto; lia.
Qed.

Lemma bytes_compare_same a b c :
  bytes_compare a b = bytes_compare b c → bytes_compare a c = bytes_compare a b.
Proof.
  destruct (bytes_compare a b) eqn:E; intros H; symmetry in H.
  - apply bytes_compare_eq in E as ->. done.
  - by apply bytes_compare_trans with b.
  - rewrite (bytes_compare_antisym c a), (bytes_compare_trans c b a); [done|..];
      rewrite bytes_compare_antisym; [by rewrite H|by rewrite E].
Qed.

(** ** The order the comparisons implement *)
Definition value_compare (v w : Value) : option comparison :=
  if IsNull v || IsNull w then None
  else match valueType v, valueType w with
  | Integer, Integer => a ← integer v; b ← integer w; Some (a ?= b)
  | Varchar, Varchar => a ← varchar v; b ← varchar w; Some (bytes_compare a b)
  | _, _ => None
  end.

Definition is_eq (c : comparison) : bool := match c with Eq => true | _ => false end.
Definition is_lt (c : comparison) : bool := match c with Lt => true | _ => false end.
Definition is_gt (c : comparison) : bool := match c with Gt => true | _ => false end.

(** Case analysis of a pair of comparable values. *)
Lemma value_compare_inv v w c :
  value_compare v w = Some c →
  isNull v = false ∧ isNull w = false ∧
  ((∃ a b, valueType v = Integer ∧ valueType w = Integer ∧ integer v = Some a ∧
      integer w = Some b ∧ c = (a ?= b)) ∨
   (∃ a b, valueType v = Varchar ∧ valueType w = Varchar ∧ varchar v = Some a ∧
      varchar w = Some b ∧ c = bytes_compare a b)).
Proof.
  unfold value_compare, IsNull. destruct v as [tv nv iv bv sv fv], w as [tw nw iw bw sw fw].
  simpl. destruct nv, nw; try done. simpl.
  destruct tv, tw; try done; intros H.
  - destruct iv, iw; simplify_option_eq. split_and!; [done..|]. left. by eauto 10.
  - destruct sv, sw; simplify_option_eq. split_and!; [done..|]. right. by eauto 10.
Qed.

(** The two clauses of a total order on comparable values. *)
Lemma value_compare_antisym v w c :
  value_compare v w = Some c → value_compare w v = Some (CompOpp c).
Proof.
  intros (N1 & N2 & [(a & b & T1 & T2 & E1 & E2 & ->)|(a & b & T1 & T2 & E1 & E2 & ->)])%value_compare_inv;
    unfold value_compare, IsNull; rewrite N1, N2, T1, T2, E1, E2; simpl.
  - by rewrite <- Z.compare_antisym.
  - by rewrite <- bytes_compare_antisym.
Qed.

Lemma value_compare_same v w x c :
  value_compare v w = Some c → value_compare w x = Some c → value_compare v x = Some c.
Proof.
  intros (N1 & N2 & H1)%value_compare_inv (N3 & N4 & H2)%value_compare_inv.
  unfold value_compare, IsNull. rewrite N1, N4. simpl.
  destruct H1 as [(a & b & T1 & T2 & E1 & E2 & C1)|(a & b & T1 & T2 & E1 & E2 & C1)],
    H2 as [(a' & b' & T3 & T4 & E3 & E4 & C2)|(a' & b' & T3 & T4 & E3 & E4 & C2)];
    try congruence; rewrite T1, T4, E1, E4; simplify_eq; simpl; f_equal.
  - destruct (Z.compare_spec a b), (Z.compare_spec b b'), (Z.compare_spec a b');
      try done; lia.
  - match goal with H : bytes_compare _ _ = bytes_compare _ _ |- _ =>
      pose proof (bytes_compare_same _ _ _ H) end. congruence.
Qed.

(** C36: on two non-NULL integers, or two non-NULL strings, the six comparison
    methods are the six relations of one total order: each returns (without a
    panic) what the order's [value_compare] says, and the order is
    antisymmetric and transitive. *)
Theorem comparisons_are_one_total_order v w c :
  value_compare v w = Some c →
  CompareEquals v w = Ok (is_eq c) ∧
  CompareNotEquals v w = Ok (negb (is_eq c)) ∧
  CompareLessThan v w = Ok (is_lt c) ∧
  CompareLessThanOrEqual v w = Ok (negb (is_gt c)) ∧
  CompareGreaterThan v w = Ok (is_gt c) ∧
  CompareGreaterThanOrEqual v w = Ok (negb (is_lt c)) ∧
  value_compare w v = Some (CompOpp c) ∧
  (∀ x, value_compare w x = Some c → value_compare v x = Some c).
Proof.
  intros H.
  pose proof (value_compare_antisym _ _ _ H) as HA.
  pose proof (λ x, value_compare_same v w x c H) as HT.
  split_and!; [..|exact HA|exact HT];
    destruct (value_compare_inv _ _ _ H) as
      (N1 & N2 & [(a & b & T1 & T2 & E1 & E2 & ->)|(a & b & T1 & T2 & E1 & E2 & ->)]);
    unfold CompareEquals, CompareNotEquals, CompareLessThan, CompareLessThanOrEqual,
      CompareGreaterThan, CompareGreaterThanOrEqual, IsNull;
    rewrite N1, ?N2, T1; unfold deref2, bytes_eqb, bytes_ltb, bytes_leb;
    rewrite E1, E2; cbn -[Z.eqb Z.ltb Z.leb]; f_equal;
    rewrite ?Z.eqb_compare, ?(bytes_compare_antisym a b); unfold Z.ltb, Z.leb;
    rewrite ?(Z.compare_antisym a b);
    first [by destruct (a ?= b) | by destruct (bytes_compare a b)].
Qed.

Lemma comparisons_are_one_total_order_witness :
  CompareLessThan (NewInteger 3) (NewInteger 7) = Ok true ∧
  CompareGreaterThan (NewVarchar [Byte.x62]) (NewVarchar [Byte.x61; Byte.x63]) = Ok true.
Proof.
  split.
  - apply (comparisons_are_one_total_order (NewInteger 3) (NewInteger 7) Lt eq_refl).
  - apply (comparisons_are_one_total_order
             (NewVarchar [Byte.x62]) (NewVarchar [Byte.x61; Byte.x63]) Gt eq_refl).
Defined.

(** NULL does not take part in that order: a positive integer is greater
    than NULL but not greater than or equal to it, and NULL is not less than
    the integer; only the equality tests treat NULL symmetrically. *)
Theorem null_breaks_greater_than n :
  0 < n →
  CompareGreaterThan (NewInteger n) NewNull = Ok true ∧
  CompareGreaterThanOrEqual (NewInteger n) NewNull = Ok false ∧
  CompareLessThan NewNull (NewInteger n) = Ok false.
Proof.
  intros H. split_and!; try done.
  unfold CompareGreaterThan, deref2. cbn -[Z.ltb]. by rewrite (proj2 (Z.ltb_lt 0 n)).
Qed.

Lemma null_breaks_greater_than_witness :
  CompareGreaterThan (NewInteger 5) NewNull = Ok true.
Proof. apply (null_breaks_greater_than 5). reflexivity. Defined.

(** ** Serialisation round trip

    The values a tuple can store: a NULL carries its type's zero value
    ([SetNull]), and a string is short enough for the signed 16-bit length
    arithmetic of the reader. *)
Inductive storable : Value → Prop :=
| storable_integer n z :
    in_i32 z → (n = true → z = 0) → storable (MkValue Integer n (Some z) None None None)
| storable_float n f :
    in_u32 f → (n = true → f = 0) → storable (MkValue Float n None None None (Some f))
| storable_varchar n s :
    Z.of_nat (length s) + 3 < 2 ^ 15 → (n = true → s = []) →
    storable (MkValue Varchar n None None (Some s) None)
| storable_boolean n b :
    (n = true → b = false) → storable (MkValue Boolean n None (Some b) None None).

Lemma read_bool_byte b rest : read_bool (bool_byte b :: rest) = b.
Proof. by destruct b. Qed.

(** [finish] of the reader, for a value whose NULL has the zero payload. *)
Lemma SetNull_null v :
  storable v → isNull v = true → SetNull (MkValue (valueType v) false
    (integer v) (boolean v) (varchar v) (float v)) = Ok v.
Proof.
  destruct 1; simpl; intros ->; unfold SetNull; simpl; f_equal; f_equal;
    f_equal; symmetry; auto.
Qed.

Lemma slice_prefix b1 b2 b3 (s rest : list byte) :
  slice (b1 :: b2 :: b3 :: s ++ rest) 3 (Z.of_nat (length s) + 3) = Ok s.
Proof.
  rewrite slice_Ok; [|lia|simpl; rewrite length_app; lia].
  f_equal. unfold region. change (Z.to_nat 3) with 3%nat. simpl. rewrite drop_0.
  rewrite take_app_length'; [done|lia].
Qed.

Lemma Serialize_storable v :
  storable v → ∃ bs, Serialize v = Ok bs ∧ Size v = Ok (Z.of_nat (length bs)) ∧
  ∀ rest, NewValueFromBytes (bs ++ rest) (valueType v) = Ok v.
Proof.
  intros H. pose proof (SetNull_null v H) as HN.
  destruct H as [n z Hz Hn|n f Hf Hn|n s Hs Hn|n b Hn].
  - exists (bool_byte n :: le_bytes 4 (u32 z)). split_and!; [done|done|].
    intros rest. unfold NewValueFromBytes. cbn [app drop valueType]. rewrite read_bool_byte, drop_0, read_le_app.
    change (256 ^ Z.of_nat 4) with (2 ^ 32). fold (u32 (u32 z)).
    autorewrite with samehada. rewrite i32_small by done.
    destruct n; [apply HN|]; done.
  - exists (bool_byte n :: le_bytes 4 f). split_and!; [done|done|].
    intros rest. unfold NewValueFromBytes. cbn [app drop valueType]. rewrite read_bool_byte, drop_0, read_le_app.
    rewrite Z.mod_small by done. destruct n; [apply HN|]; done.
  - exists (bool_byte n :: le_bytes 2 (u16 (Z.of_nat (length s))) ++ s). split_and!; [done| |].
    + rewrite length_cons, length_app, length_le_bytes. unfold Size. simpl.
      f_equal. unfold u32. rewrite Z.mod_small; lia.
    + intros rest. unfold NewValueFromBytes. cbn [app drop valueType]. rewrite read_bool_byte, drop_0.
      rewrite <- app_assoc, read_le_app. change (256 ^ Z.of_nat 2) with (2 ^ 16).
      fold (u16 (u16 (Z.of_nat (length s)))). autorewrite with samehada.
      rewrite (i16_small (Z.of_nat (length s))), i16_small by lia.
      replace (Z.of_nat (length s) + (1 + 2)) with (Z.of_nat (length s) + 3) by lia.
      unfold le_bytes. cbn [app]. rewrite slice_prefix. destruct n; [apply HN|]; done.
  - exists [bool_byte n; bool_byte b]. split_and!; [done|done|].
    intros rest. unfold NewValueFromBytes. cbn [app drop valueType].
    rewrite read_bool_byte. rewrite ?drop_0.
    destruct b, n; first [done|apply HN; done|by specialize (Hn eq_refl)].
Qed.

(** Every storable value is read back from its bytes, whatever follows
    them in the tuple, and the bytes written are as many as [Size] announces. *)
Theorem value_serialize_roundtrip v :
  storable v → ∃ bs, Serialize v = Ok bs ∧ Size v = Ok (Z.of_nat (length bs)) ∧
  ∀ rest, NewValueFromBytes (bs ++ rest) (valueType v) = Ok v.
Proof. exact (Serialize_storable v). Qed.

Lemma value_serialize_roundtrip_witness :
  ∃ bs, Serialize (NewVarchar [Byte.x68; Byte.x69]) = Ok bs ∧
  NewValueFromBytes (bs ++ [Byte.x00]) Varchar = Ok (NewVarchar [Byte.x68; Byte.x69]).
Proof.
  destruct (value_serialize_roundtrip (NewVarchar [Byte.x68; Byte.x69])) as (bs & H1 & _ & H2).
  - apply storable_varchar; [vm_compute; reflexivity|discriminate].
  - exists bs. split; [exact H1|apply (H2 [Byte.x00])].
Defined.

(** The length of a string is written as an unsigned 16-bit number and
    read back as a signed one that then has 3 added to it, so a string of
    32765 to 65535 bytes is stored but makes the reader panic. *)
Theorem long_varchar_read_panics s rest :
  32765 ≤ Z.of_nat (length s) < 65536 →
  ∃ bs, Serialize (NewVarchar s) = Ok bs ∧ NewValueFromBytes (bs ++ rest) Varchar = Panic.
Proof.
  intros H.
  exists (bool_byte false :: le_bytes 2 (u16 (Z.of_nat (length s))) ++ s). split; [done|].
  unfold NewValueFromBytes. cbn [app drop].
  rewrite ?drop_0, <- app_assoc, read_le_app. change (256 ^ Z.of_nat 2) with (2 ^ 16).
  fold (u16 (u16 (Z.of_nat (length s)))). autorewrite with samehada.
  assert (Hhi : i16 (i16 (Z.of_nat (length s)) + (1 + 2)) < 3).
  { unfold i16, swrap. change (2 ^ (16 - 1)) with 32768. change (2 ^ 16) with 65536.
    Z.div_mod_to_equations. lia. }
  unfold slice. destruct (Z.leb_spec (1 + 2) (i16 (i16 (Z.of_nat (length s)) + (1 + 2)))); [lia|].
  done.
Qed.

Lemma long_varchar_read_panics_witness :
  ∃ bs, Serialize (NewVarchar (replicate (Z.to_nat 32765) Byte.x61)) = Ok bs ∧
  NewValueFromBytes (bs ++ []) Varchar = Panic.
Proof.
  apply (long_varchar_read_panics (replicate (Z.to_nat 32765) Byte.x61) []).
  rewrite length_replicate. lia.
Defined.
