(* ===== verification/Tuples.v ===== *)
(** * Record identifiers, columns, schemas and tuples
    ([storage/page/rid.go], [storage/table/column/column.go],
    [storage/table/schema/schema.go], [storage/tuple/tuple.go])

    A tuple is the fixed part, one field per column at the offset the schema
    computed, followed by the payloads of the variable-length columns, whose
    field in the fixed part is the offset of the payload.  The theorem of this
    file is that building a tuple from values and reading its columns back
    gives the values. *)

From S2P Require Import Prelude Bytes Types.

(** ** RID *)
Record RID : Type := MkRID { PageId : Z; SlotNum : Z }.

#[global] Instance RID_eq_dec : EqDecision RID.
Proof. solve_decision. Defined.
#[global] Instance RID_countable : Countable RID.
Proof.
  apply (inj_countable' (λ r, (PageId r, SlotNum r)) (λ p, MkRID p.1 p.2)).
  by intros [].
Defined.

(** ** Columns *)
Record Column : Type := MkColumn {
  columnName : list byte;
  columnType : TypeID;
  fixedLength : Z;
  variableLength : Z;
  columnOffset : Z;
  hasIndex : bool;
  isLeft : bool
}.

Definition NewColumn (name : list byte) (t : TypeID) (hasIndex : bool) : Column :=
  if decide (t ≠ Varchar)
  then MkColumn name t (TypeID_Size t) 0 0 hasIndex true
  else MkColumn name Varchar 4 255 0 hasIndex true.

Definition IsInlined (c : Column) : bool := negb (bool_decide (columnType c = Varchar)).

Definition SetOffset (offset : Z) (c : Column) : Column :=
  MkColumn (columnName c) (columnType c) (fixedLength c) (variableLength c) offset
    (hasIndex c) (isLeft c).
Definition SetFixedLength (l : Z) (c : Column) : Column :=
  MkColumn (columnName c) (columnType c) l (variableLength c) (columnOffset c)
    (hasIndex c) (isLeft c).
Definition SetVariableLength (l : Z) (c : Column) : Column :=
  MkColumn (columnName c) (columnType c) (fixedLength c) l (columnOffset c)
    (hasIndex c) (isLeft c).
Definition SetHasIndex (b : bool) (c : Column) : Column :=
  MkColumn (columnName c) (columnType c) (fixedLength c) (variableLength c) (columnOffset c)
    b (isLeft c).
Definition SetIsLeft (b : bool) (c : Column) : Column :=
  MkColumn (columnName c) (columnType c) (fixedLength c) (variableLength c) (columnOffset c)
    (hasIndex c) b.

(** ** Schemas *)
Record Schema : Type := MkSchema {
  Length : Z;
  columns : list Column;
  tupleIsInlined : bool;
  uninlinedColumns : list Z
}.

Definition EmptySchema : Schema := MkSchema 0 [] true [].

(** One iteration of the loop of [NewSchema], with its local [currentOffset]. *)
Definition NewSchema_step (acc : Schema * Z) (col : Column) : Schema * Z :=
  let '(s, currentOffset) := acc in
  let i := u32 (Z.of_nat (length (columns s))) in
  let s' := if IsInlined col then s
            else MkSchema (Length s) (columns s) false (uninlinedColumns s ++ [i]) in
  (MkSchema (Length s') (columns s' ++ [SetOffset currentOffset col])
     (tupleIsInlined s') (uninlinedColumns s'),
   u32 (currentOffset + fixedLength col)).

Definition NewSchema (cols : list Column) : Schema :=
  let '(s, currentOffset) := foldl NewSchema_step (EmptySchema, 0) cols in
  MkSchema currentOffset (columns s) (tupleIsInlined s) (uninlinedColumns s).

Definition GetColumn (s : Schema) (colIndex : Z) : res Column := index (columns s) colIndex.
Definition GetColumnCount (s : Schema) : Z := u32 (Z.of_nat (length (columns s))).

(** The search loop of [GetColIndex]; a missing name panics. *)
Fixpoint GetColIndex_loop (name : list byte) (i : Z) (cols : list Column) : res Z :=
  match cols with
  | [] => Panic
  | c :: cols' =>
      if bool_decide (columnName c = name) then Ok i else GetColIndex_loop name (i + 1) cols'
  end.
Definition GetColIndex (s : Schema) (name : list byte) : res Z :=
  GetColIndex_loop name 0 (columns s).

(** [CopySchema] stores the address of its loop variable, which is one
    variable for the whole loop in the Go version of [go.mod]: every element
    is the column the variable held last. *)
Definition CopySchema (from : Schema) (attrs : list Z) : Schema :=
  match last (columns from) with
  | Some c => MkSchema 0 (replicate (length (columns from)) c) false []
  | None => MkSchema 0 [] false []
  end.

(** ** Tuples *)
Record Tuple : Type := MkTuple {
  rid : option RID;
  size : Z;
  data : list byte
}.

Definition NewTuple (r : option RID) (sz : Z) (d : list byte) : Tuple := MkTuple r sz d.
(** [new(tuple.Tuple)] *)
Definition ZeroTuple : Tuple := MkTuple None 0 [].
Definition SetRID (r : RID) (t : Tuple) : Tuple := MkTuple (Some r) (size t) (data t).

(** The size loop of [NewTupleFromSchema]. *)
Definition tuple_size_step (values : list Value) (tupleSize : Z) (colIndex : Z) : res Z :=
  v ← index values colIndex; n ← Size v; Ok (u32 (tupleSize + n)).

(** One iteration of its serialisation loop, over [(data, tupleEndOffset)]. *)
Definition tuple_write_step (values : list Value) (schema : Schema)
    (acc : list byte * Z) (i : nat) : res (list byte * Z) :=
  let '(d, tupleEndOffset) := acc in
  col ← GetColumn schema (Z.of_nat i);
  v ← index values (Z.of_nat i);
  if IsInlined col then
    bs ← Serialize v;
    d' ← go_copy d (columnOffset col) bs;
    Ok (d', tupleEndOffset)
  else
    d' ← go_copy d (columnOffset col) (UInt32_Serialize tupleEndOffset);
    bs ← Serialize v;
    d'' ← go_copy d' tupleEndOffset bs;
    n ← Size v;
    Ok (d'', u32 (tupleEndOffset + n)).

Definition NewTupleFromSchema (values : list Value) (schema : Schema) : res Tuple :=
  tupleSize ← res_foldl (tuple_size_step values) (uninlinedColumns schema) (Length schema);
  p ← res_foldl (tuple_write_step values schema) (seq 0 (Z.to_nat (GetColumnCount schema)))
        (replicate (Z.to_nat tupleSize) Byte.x00, Length schema);
  Ok (MkTuple None tupleSize (fst p)).

(** The values of the search tuple of a hash index lookup. *)
Definition search_value (colIndex : Z) (keyVal : Value) (idx : Z) (col : Column) : list Value :=
  match columnType col with
  | Integer => [if idx =? colIndex then keyVal else NewInteger 0]
  | Float => [if idx =? colIndex then keyVal else NewFloat 0]
  | Varchar => [if idx =? colIndex then keyVal else NewVarchar []]
  | _ => []
  end.
Definition GenTupleForHashIndexSearch (schema : Schema) (colIndex : Z) (keyVal : Value) : res Tuple :=
  let values := concat (imap (λ idx col, search_value colIndex keyVal (Z.of_nat idx) col) (columns schema)) in
  NewTupleFromSchema values schema.

(** The offset of a column's value in the tuple. *)
Definition value_offset (t : Tuple) (col : Column) : res Z :=
  let offset := columnOffset col in
  if IsInlined col then Ok offset
  else b ← slice (data t) offset (u32 (offset + fixedLength col)); Ok (NewUInt32FromBytes b).

Definition GetValue (t : Tuple) (schema : Schema) (colIndex : Z) : res Value :=
  col ← GetColumn schema colIndex;
  offset ← value_offset t col;
  d ← slice_from (data t) offset;
  NewValueFromBytes d (columnType col).

(** The bytes of a column, the key of a hash index. *)
Definition GetValueInBytes (t : Tuple) (schema : Schema) (colIndex : Z) : res (list byte) :=
  col ← GetColumn schema colIndex;
  offset ← value_offset t col;
  d ← slice_from (data t) offset;
  let null := bool_byte (read_bool d) in
  match columnType col with
  | Integer | Float => Ok (null :: le_bytes 4 (read_le 4 (drop 1 d)))
  | Boolean => Ok [null; bool_byte (read_bool (drop 1 d))]
  | Varchar =>
      let len := i16 (read_le 2 (drop 1 d)) in
      s ← slice (data t) (u32 (offset + (1 + 2))) (u32 (offset + u32 (u32 len + (1 + 2))));
      Ok (null :: le_bytes 2 (u16 len) ++ s)
  | _ => Panic
  end.

Definition TupleSizeOffsetInLogrecord : Z := 4.

(** [SerializeTo] and [DeserializeFrom] of a log record's tuple. *)
Definition SerializeTo (t : Tuple) (storage : list byte) : res (list byte) :=
  s1 ← go_copy storage 0 (le_bytes 4 (size t));
  _ ← slice s1 TupleSizeOffsetInLogrecord (TupleSizeOffsetInLogrecord + size t);
  Ok (overwrite (Z.to_nat TupleSizeOffsetInLogrecord) (take (Z.to_nat (size t)) (data t)) s1).

(** [storage] is given with its capacity: re-slicing may reach past its
    length [len] up to the end of the backing array. *)
Definition DeserializeFrom (t : Tuple) (storage : list byte) (len : nat) : res Tuple :=
  let size := if (len <? 4)%nat then size t else read_le 4 storage in
  b ← slice storage TupleSizeOffsetInLogrecord (TupleSizeOffsetInLogrecord + size);
  Ok (MkTuple (rid t) size b).

Definition GetDeepCopy (t : Tuple) : res Tuple :=
  r ← deref (rid t);
  Ok (MkTuple (Some (MkRID (PageId r) (SlotNum r))) (size t) []).

(** ** Layout of a schema *)
Definition fixed_total (cols : list Column) : Z := foldr (λ c n, fixedLength c + n) 0 cols.

(** The bytes the uninlined columns add behind the fixed part. *)
Definition payload_size (cv : Column * Value) : Z :=
  if IsInlined cv.1 then 0 else match Size cv.2 with Ok n => n | _ => 0 end.
Definition payload_total (cvs : list (Column * Value)) : Z :=
  foldr (λ cv n, payload_size cv + n) 0 cvs.

(** A column as [NewColumn] makes it, holding a storable value of its type. *)
Definition column_ok (c : Column) (v : Value) : Prop :=
  storable v ∧ valueType v = columnType c ∧
  fixedLength c = if IsInlined c then TypeID_Size (columnType c) else 4.

Lemma fixed_total_app l1 l2 : fixed_total (l1 ++ l2) = fixed_total l1 + fixed_total l2.
Proof. induction l1; simpl; lia. Qed.

Lemma payload_total_app l1 l2 : payload_total (l1 ++ l2) = payload_total l1 + payload_total l2.
Proof. induction l1; simpl; lia. Qed.

Lemma fixed_total_nonneg cols : Forall (λ c, 0 ≤ fixedLength c) cols → 0 ≤ fixed_total cols.
Proof. induction 1; simpl; lia. Qed.

Definition place (cols : list Column) : list Column :=
  imap (λ i c, SetOffset (fixed_total (take i cols)) c) cols.

Definition uninlined_of (cols : list Column) : list Z :=
  concat (imap (λ i c, if IsInlined c then [] else [Z.of_nat i]) cols).

Lemma NewSchema_loop cols :
  Forall (λ c, 0 ≤ fixedLength c) cols → fixed_total cols < 2 ^ 32 →
  Z.of_nat (length cols) < 2 ^ 32 →
  ∃ b, foldl NewSchema_step (EmptySchema, 0) cols =
    (MkSchema 0 (place cols) b (uninlined_of cols), fixed_total cols).
Proof.
  induction cols as [|c cols IH] using rev_ind; intros HF HT HL; [by exists true|].
  apply Forall_app in HF as [HF [Hc _]%Forall_cons].
  rewrite fixed_total_app in HT. simpl in HT. rewrite length_app in HL. simpl in HL.
  destruct IH as (b & IH); [done|lia|lia|].
  rewrite foldl_app, IH. simpl. unfold place, uninlined_of. rewrite length_imap.
  rewrite !imap_app, concat_app, fixed_total_app. simpl.
  pose proof (fixed_total_nonneg _ HF).
  rewrite !u32_small by (unfold in_u32; lia).
  replace (take (length cols + 0) (cols ++ [c])) with cols
    by (rewrite Nat.add_0_r; symmetry; apply take_app_length).
  exists (b && IsInlined c).
  replace (imap (λ i c0, SetOffset (fixed_total (take i (cols ++ [c]))) c0) cols)
    with (imap (λ i c0, SetOffset (fixed_total (take i cols)) c0) cols).
  2: { apply imap_ext. intros i x Hx. apply lookup_lt_Some in Hx.
       by rewrite take_app_le by lia. }
  rewrite !Z.add_0_r, Nat.add_0_r.
  by destruct (IsInlined c); simpl; rewrite ?andb_true_r, ?andb_false_r, ?app_nil_r.
Qed.

Lemma NewSchema_spec cols :
  Forall (λ c, 0 ≤ fixedLength c) cols → fixed_total cols < 2 ^ 32 →
  Z.of_nat (length cols) < 2 ^ 32 →
  ∃ b, NewSchema cols = MkSchema (fixed_total cols) (place cols) b (uninlined_of cols).
Proof.
  intros HF HT HL. destruct (NewSchema_loop cols HF HT HL) as (b & E).
  exists b. unfold NewSchema. by rewrite E.
Qed.

Lemma length_place cols : length (place cols) = length cols.
Proof. apply length_imap. Qed.

Lemma lookup_place cols i c :
  cols !! i = Some c → place cols !! i = Some (SetOffset (fixed_total (take i cols)) c).
Proof. intros H. unfold place. by rewrite list_lookup_imap, H. Qed.

Lemma fixed_total_take_S cols i c :
  cols !! i = Some c → fixed_total (take (i + 1) cols) = fixed_total (take i cols) + fixedLength c.
Proof.
  intros H. rewrite Nat.add_1_r, (take_S_r _ _ c) by done. rewrite fixed_total_app. simpl. lia.
Qed.

Lemma fixed_total_take_le cols i j :
  Forall (λ c, 0 ≤ fixedLength c) cols → (i ≤ j)%nat →
  fixed_total (take i cols) ≤ fixed_total (take j cols).
Proof.
  intros HF Hij. rewrite <- (take_drop i (take j cols)), fixed_total_app, take_take.
  rewrite Nat.min_l by lia.
  pose proof (fixed_total_nonneg (drop i (take j cols))) as N.
  assert (0 ≤ fixed_total (drop i (take j cols))); [|lia].
  apply N. by apply Forall_drop, Forall_take.
Qed.

(** ** Reading back what was written *)
Lemma drop_region off n d :
  (off + n ≤ length d)%nat → drop off d = region off n d ++ drop (off + n) d.
Proof. intros H. unfold region. by rewrite <- drop_drop, take_drop. Qed.

Section roundtrip.
Context (cols : list Column) (vals : list Value).
Hypothesis Hok : Forall2 column_ok cols vals.
Hypothesis HL : Z.of_nat (length cols) < 2 ^ 32.

(** The fixed part, the offsets of the columns in it, the payload bytes of
    the first [n] columns, the size of the tuple. *)
Local Definition F : Z := fixed_total cols.
Local Definition fixd (n : nat) : Z := fixed_total (take n cols).
Local Definition pay (n : nat) : Z := payload_total (zip (take n cols) (take n vals)).
Local Definition total : Z := F + pay (length cols).
Hypothesis HT : total < 2 ^ 32.

Lemma column_ok_nonneg c v : column_ok c v → 0 ≤ fixedLength c.
Proof. intros (_ & _ & ->). by destruct c as [? []]. Qed.

Lemma cols_nonneg : Forall (λ c, 0 ≤ fixedLength c) cols.
Proof.
  apply Forall_lookup. intros i c Hc.
  destruct (Forall2_lookup_l _ _ _ _ _ Hok Hc) as (v & _ & H). by eapply column_ok_nonneg.
Qed.

(** A column's bytes fill its fixed field, or its payload. *)
Lemma column_ok_bytes c v :
  column_ok c v → ∃ bs, Serialize v = Ok bs ∧ Size v = Ok (Z.of_nat (length bs)) ∧
    (∀ rest, NewValueFromBytes (bs ++ rest) (columnType c) = Ok v) ∧
    (if IsInlined c then fixedLength c = Z.of_nat (length bs) ∧ payload_size (c, v) = 0
     else fixedLength c = 4 ∧ payload_size (c, v) = Z.of_nat (length bs)).
Proof.
  intros (Hs & HT' & Hf). destruct (Serialize_storable v Hs) as (bs & H1 & H2 & H3).
  exists bs. rewrite HT' in H3. split_and!; [done..|].
  unfold payload_size. simpl. rewrite H2. destruct (IsInlined c) eqn:Ei; [|done].
  split; [|done]. rewrite Hf. unfold Size in H2. rewrite HT' in H2.
  unfold IsInlined in Ei.
  by destruct (columnType c); try done; injection H2 as <-.
Qed.

Lemma fixd_S i c : cols !! i = Some c → fixd (i + 1) = fixd i + fixedLength c.
Proof. apply fixed_total_take_S. Qed.

Lemma fixd_mono i j : (i ≤ j)%nat → fixd i ≤ fixd j.
Proof. apply fixed_total_take_le, cols_nonneg. Qed.

Lemma fixd_bounds i : 0 ≤ fixd i ≤ F.
Proof.
  split; [apply (fixd_mono 0); lia|].
  destruct (decide (i ≤ length cols)%nat) as [H|H].
  - unfold F. rewrite <- (firstn_all cols). by apply fixd_mono.
  - unfold fixd, F. rewrite take_ge by lia. lia.
Qed.

Lemma pay_S i c v :
  cols !! i = Some c → vals !! i = Some v → pay (i + 1) = pay i + payload_size (c, v).
Proof.
  intros Hc Hv. unfold pay. rewrite !Nat.add_1_r, (take_S_r _ _ c), (take_S_r _ _ v) by done.
  apply lookup_lt_Some in Hc, Hv.
  rewrite zip_with_app by (rewrite !length_take; lia).
  rewrite payload_total_app. simpl. lia.
Qed.

Lemma vals_lookup i c : cols !! i = Some c → ∃ v, vals !! i = Some v ∧ column_ok c v.
Proof. intros H. by apply (Forall2_lookup_l _ _ _ _ _ Hok H). Qed.

Lemma pay_step i : pay i ≤ pay (i + 1).
Proof.
  destruct (cols !! i) as [c|] eqn:Hc.
  - destruct (vals_lookup i c Hc) as (v & Hv & Hcv). rewrite (pay_S _ _ _ Hc Hv).
    destruct (column_ok_bytes c v Hcv) as (bs & _ & _ & _ & H).
    destruct (IsInlined c); lia.
  - apply lookup_ge_None in Hc. unfold pay.
    pose proof (Forall2_length _ _ _ Hok). rewrite !take_ge; lia.
Qed.

Lemma pay_mono i j : (i ≤ j)%nat → pay i ≤ pay j.
Proof.
  induction 1 as [|j H IH]; [lia|]. pose proof (pay_step j). rewrite Nat.add_1_r in *. lia.
Qed.

Lemma pay_bounds i : 0 ≤ pay i ≤ pay (length cols).
Proof.
  split; [apply (pay_mono 0); lia|].
  destruct (decide (i ≤ length cols)%nat); [by apply pay_mono|].
  unfold pay. pose proof (Forall2_length _ _ _ Hok). rewrite !take_ge; lia.
Qed.

Lemma uninlined_take_S i c :
  cols !! i = Some c →
  uninlined_of (take (i + 1) cols) =
    uninlined_of (take i cols) ++ (if IsInlined c then [] else [Z.of_nat i]).
Proof.
  intros Hc. rewrite Nat.add_1_r, (take_S_r _ _ c) by done. unfold uninlined_of.
  apply lookup_lt_Some in Hc.
  rewrite imap_app, concat_app, length_take, Nat.min_l by lia. simpl.
  by rewrite app_nil_r, Nat.add_0_r.
Qed.

Lemma tuple_size_loop :
  res_foldl (tuple_size_step vals) (uninlined_of cols) F = Ok total.
Proof.
  assert (∀ n, (n ≤ length cols)%nat →
    res_foldl (tuple_size_step vals) (uninlined_of (take n cols)) F = Ok (F + pay n)) as H.
  { induction n as [|n IH]; intros Hn.
    - unfold pay. simpl. f_equal. lia.
    - destruct (lookup_lt_is_Some_2 cols n) as [c Hc]; [lia|].
      destruct (vals_lookup n c Hc) as (v & Hv & Hcv).
      rewrite <- Nat.add_1_r, (uninlined_take_S _ _ Hc), res_foldl_app, IH by lia.
      rewrite (pay_S _ _ _ Hc Hv). cbn.
      pose proof (pay_bounds (n + 1)) as PB. rewrite (pay_S _ _ _ Hc Hv) in PB.
      pose proof (fixd_bounds 0). pose proof (pay_bounds n).
      destruct (column_ok_bytes c v Hcv) as (bs & _ & Hsz & _ & Hps).
      destruct (IsInlined c); cbn; [f_equal; lia|].
      unfold tuple_size_step. rewrite (index_nat _ _ _ Hv). cbn. rewrite Hsz. cbn.
      rewrite u32_small by (unfold in_u32, total in *; lia). f_equal. lia. }
  rewrite <- (firstn_all cols) at 1. by apply H.
Qed.

Definition stored (d : list byte) (j : nat) (c : Column) (v : Value) : Prop :=
  ∃ bs, Serialize v = Ok bs ∧
    if IsInlined c then region (Z.to_nat (fixd j)) (length bs) d = bs
    else field (Z.to_nat (fixd j)) d = F + pay j ∧
         region (Z.to_nat (F + pay j)) (length bs) d = bs.

(** A write outside the two areas of a column leaves it stored. *)
Lemma stored_overwrite d j c v off src :
  cols !! j = Some c → vals !! j = Some v → Z.of_nat (length d) = total →
  0 ≤ off → off + Z.of_nat (length src) ≤ total →
  (off + Z.of_nat (length src) ≤ fixd j ∨ fixd (j + 1) ≤ off) →
  (off + Z.of_nat (length src) ≤ F + pay j ∨ F + pay (j + 1) ≤ off) →
  stored d j c v → stored (overwrite (Z.to_nat off) src d) j c v.
Proof.
  intros Hc Hv Hd H0 H1 Df Dp (bs & Hbs & Hst). exists bs. split; [done|].
  destruct (vals_lookup j c Hc) as (v' & Hv' & Hcv). simplify_eq.
  destruct (column_ok_bytes c v Hcv) as (bs' & Hbs' & _ & _ & HF).
  assert (bs' = bs) as -> by congruence.
  rewrite (fixd_S _ _ Hc) in Df. rewrite (pay_S _ _ _ Hc Hv) in Dp.
  pose proof (fixd_bounds j). pose proof (fixd_bounds (j + 1)) as FB.
  rewrite (fixd_S _ _ Hc) in FB.
  pose proof (pay_bounds j). pose proof (pay_bounds (j + 1)) as PB.
  rewrite (pay_S _ _ _ Hc Hv) in PB.
  destruct (IsInlined c).
  - rewrite <- Hst at 2. apply region_overwrite_ne; unfold total in *; lia.
  - destruct Hst as [Hf Hr]. split.
    + rewrite <- Hf. apply field_overwrite_ne; unfold total in *; lia.
    + rewrite <- Hr at 2. apply region_overwrite_ne; unfold total in *; lia.
Qed.

(** The loop invariant of the serialisation loop. *)
Definition written (i : nat) (acc : list byte * Z) : Prop :=
  Z.of_nat (length (fst acc)) = total ∧ snd acc = F + pay i ∧
  ∀ j c v, (j < i)%nat → cols !! j = Some c → vals !! j = Some v → stored (fst acc) j c v.

Lemma tuple_write_step_ok b i acc :
  (i < length cols)%nat → written i acc →
  ∃ acc', tuple_write_step vals (MkSchema F (place cols) b (uninlined_of cols)) acc i = Ok acc' ∧
    written (i + 1) acc'.
Proof.
  intros Hi (HD & HE & HS). destruct acc as [d e]. simpl in *. subst e.
  destruct (lookup_lt_is_Some_2 cols i Hi) as [c Hc].
  destruct (vals_lookup i c Hc) as (v & Hv & Hcv).
  destruct (column_ok_bytes c v Hcv) as (bs & Hbs & Hsz & _ & HF).
  pose proof (fixd_S _ _ Hc) as Fi. pose proof (pay_S _ _ _ Hc Hv) as Pi.
  pose proof (fixd_bounds i). pose proof (fixd_bounds (i + 1)).
  pose proof (pay_bounds i). pose proof (pay_bounds (i + 1)).
  assert (Hold : ∀ j, (j < i)%nat → fixd (j + 1) ≤ fixd i ∧ pay (j + 1) ≤ pay i)
    by (intros; split; [apply fixd_mono|apply pay_mono]; lia).
  unfold tuple_write_step, GetColumn. simpl.
  rewrite (index_nat _ _ _ (lookup_place _ _ _ Hc)), (index_nat _ _ _ Hv). cbn.
  change (IsInlined (SetOffset (fixed_total (take i cols)) c)) with (IsInlined c).
  fold (fixd i). unfold total in *.
  destruct (IsInlined c) eqn:Ei; destruct HF as [HF1 HF2].
  - rewrite Hbs. cbn. rewrite go_copy_Ok by lia. eexists; split; [done|].
    split_and!; simpl; [rewrite length_overwrite; unfold total; lia|lia|].
    intros j c' v' Hj Hc' Hv'. destruct (decide (j = i)) as [->|Hne].
    + simplify_eq. exists bs. rewrite Ei. split; [done|].
      apply region_overwrite_eq. lia.
    + pose proof (Hold j). pose proof (pay_bounds j). apply stored_overwrite; unfold total; try done; try lia.
      apply HS; [lia|done..].
  - rewrite go_copy_Ok by lia. cbn. rewrite Hbs. cbn.
    assert (HL1 : length (overwrite (Z.to_nat (fixd i)) (UInt32_Serialize (F + pay i)) d) = length d)
      by (rewrite length_overwrite; lia).
    rewrite go_copy_Ok by lia. cbn. rewrite Hsz. cbn. eexists; split; [done|].
    rewrite HF2 in Pi. rewrite u32_small by (unfold in_u32; lia).
    split_and!; simpl; [rewrite length_overwrite; unfold total; lia|lia|].
    intros j c' v' Hj Hc' Hv'. destruct (decide (j = i)) as [->|Hne].
    + simplify_eq. exists bs. rewrite Ei. split; [done|]. split.
      * rewrite field_overwrite_ne by (rewrite ?HL1; lia).
        unfold UInt32_Serialize. rewrite field_overwrite_eq by lia.
        by rewrite (u32_small (F + pay i)), u32_small by (unfold in_u32; lia).
      * apply region_overwrite_eq. lia.
    + pose proof (Hold j). destruct (Hold j) as [Hfj Hpj]; [lia|].
      pose proof (fixd_bounds (j + 1)). pose proof (pay_bounds j).
      apply stored_overwrite; unfold total; rewrite ?HL1; try done; try lia.
      apply stored_overwrite; unfold total; unfold UInt32_Serialize;
        rewrite ?length_le_bytes; try done; try lia.
      apply HS; [lia|done..].
Qed.

(** Where a stored column is found. *)
Lemma stored_offset b d j c v r sz :
  cols !! j = Some c → vals !! j = Some v → Z.of_nat (length d) = total → stored d j c v →
  ∃ col off bs, GetColumn (MkSchema F (place cols) b (uninlined_of cols)) (Z.of_nat j) = Ok col ∧
    columnType col = columnType c ∧ value_offset (MkTuple r sz d) col = Ok off ∧ Serialize v = Ok bs ∧
    0 ≤ off ∧ off + Z.of_nat (length bs) ≤ total ∧ region (Z.to_nat off) (length bs) d = bs.
Proof.
  intros Hc Hv HD (bs & Hbs & Hst).
  destruct (vals_lookup j c Hc) as (v' & Hv' & Hcv). simplify_eq.
  destruct (column_ok_bytes c v Hcv) as (bs' & Hbs' & _ & Hread & HF).
  assert (bs' = bs) as -> by congruence.
  pose proof (fixd_S _ _ Hc) as Fi. pose proof (pay_S _ _ _ Hc Hv) as Pi.
  pose proof (fixd_bounds j). pose proof (fixd_bounds (j + 1)).
  pose proof (pay_bounds j). pose proof (pay_bounds (j + 1)).
  unfold GetColumn, value_offset, total in *. cbn [columns].
  rewrite (index_nat _ _ _ (lookup_place _ _ _ Hc)).
  exists (SetOffset (fixed_total (take j cols)) c), (if IsInlined c then fixd j else F + pay j), bs.
  split; [done|]. split; [done|].
  change (IsInlined (SetOffset (fixed_total (take j cols)) c)) with (IsInlined c). cbn [data SetOffset columnOffset fixedLength].
  fold (fixd j). destruct (IsInlined c) eqn:Ei; destruct HF as [HF1 HF2].
  - split; [done|]. split; [done|]. split; [lia|]. split; [lia|done].
  - destruct Hst as [Hf Hr]. rewrite HF1.
    rewrite u32_small by (unfold in_u32; lia). rewrite slice_Ok by lia. cbn [mbind res_mbind res_bind].
    replace (Z.to_nat (fixd j + 4 - fixd j)) with 4%nat by lia.
    unfold NewUInt32FromBytes. rewrite <- field_region, Hf.
    split; [done|]. split; [done|]. split; [lia|]. split; [lia|done].
Qed.

Lemma stored_GetValue b d j c v r sz :
  cols !! j = Some c → vals !! j = Some v → Z.of_nat (length d) = total → stored d j c v →
  GetValue (MkTuple r sz d) (MkSchema F (place cols) b (uninlined_of cols)) (Z.of_nat j) = Ok v.
Proof.
  intros Hc Hv HD Hst. destruct (vals_lookup j c Hc) as (v' & Hv' & Hcv). simplify_eq.
  destruct (stored_offset b d j c v r sz Hc Hv HD Hst) as (col & off & bs & EC & ET & EO & Hbs & H0 & H1 & HR).
  destruct (column_ok_bytes c v Hcv) as (bs' & Hbs' & _ & Hread & _). assert (bs' = bs) as -> by congruence.
  unfold GetValue. rewrite EC. mred. rewrite EO. mred. cbn [data]. rewrite slice_from_Ok by lia. mred.
  rewrite (drop_region _ (length bs)), HR, ET by lia. apply Hread.
Qed.

(** The bytes of a column are its value's. *)
Lemma stored_GetValueInBytes b d j c v r sz :
  cols !! j = Some c → vals !! j = Some v → Z.of_nat (length d) = total → stored d j c v →
  GetValueInBytes (MkTuple r sz d) (MkSchema F (place cols) b (uninlined_of cols)) (Z.of_nat j) = Serialize v.
Proof.
  intros Hc Hv HD Hst. destruct (vals_lookup j c Hc) as (v' & Hv' & Hcv). simplify_eq.
  destruct (stored_offset b d j c v r sz Hc Hv HD Hst) as (col & off & bs & EC & ET & EO & Hbs & H0 & H1 & HR).
  destruct Hcv as (Hsto & HTy & _). unfold total in *. pose proof (fixd_bounds 0). pose proof (pay_bounds 0).
  unfold GetValueInBytes. rewrite EC. mred. rewrite EO. mred. cbn [data]. rewrite slice_from_Ok by lia. mred.
  rewrite (drop_region _ (length bs)), HR, ET, <- HTy, Hbs by lia.
  destruct Hsto as [n z Hz Hn|n f Hf Hn|n s Hs Hn|n x Hn];
    unfold Serialize, ToInteger, ToFloat, ToVarchar, ToBoolean in Hbs;
    cbn [valueType integer float varchar boolean isNull deref mbind res_mbind res_bind] in Hbs;
    apply (f_equal (λ r, match r with Ok x => x | _ => [] end)) in Hbs; subst bs.
  - cbn [app drop valueType]. rewrite read_bool_byte, ?drop_0, read_le_app. rewrite Z.mod_small by apply u32_range. done.
  - cbn [app drop valueType]. rewrite read_bool_byte, ?drop_0, read_le_app. by rewrite Z.mod_small by done.
  - cbn [app drop valueType]. rewrite read_bool_byte, ?drop_0. rewrite <- app_assoc, read_le_app.
    change (256 ^ Z.of_nat 2) with (2 ^ 16). fold (u16 (u16 (Z.of_nat (length s)))). autorewrite with samehada.
    rewrite (i16_small (Z.of_nat (length s))) by lia.
    rewrite length_cons, length_app, length_le_bytes in *.
    rewrite (u32_small (Z.of_nat (length s))), !u32_small by (unfold in_u32; rewrite ?u32_small by (unfold in_u32; lia); lia).
    rewrite slice_Ok by lia. mred. do 3 f_equal.
    replace (Z.to_nat (off + (1 + 2))) with (Z.to_nat off + 3)%nat by lia.
    replace (Z.to_nat (_ - _)) with (length s) by lia.
    rewrite <- (region_region 3 _ (Z.to_nat off) (S (2 + length s))) by lia. rewrite HR.
    rewrite app_comm_cons, region_app_r by (rewrite length_cons, length_le_bytes; lia).
    rewrite length_cons, length_le_bytes. apply region_0_all.
  - cbn [app drop valueType]. rewrite read_bool_byte. rewrite ?drop_0. destruct n, x; reflexivity.
Qed.

Lemma NewTupleFromSchema_reads :
  ∃ t, NewTupleFromSchema vals (NewSchema cols) = Ok t ∧
    size t = total ∧ Z.of_nat (length (data t)) = total ∧ rid t = None ∧
    ∀ j v r sz, vals !! j = Some v →
      GetValue (MkTuple r sz (data t)) (NewSchema cols) (Z.of_nat j) = Ok v ∧
      GetValueInBytes (MkTuple r sz (data t)) (NewSchema cols) (Z.of_nat j) = Serialize v.
Proof.
  pose proof (fixd_bounds 0). pose proof (pay_bounds 0).
  destruct (NewSchema_spec cols cols_nonneg) as (b & ->); [|done|].
  { fold F. unfold total in HT. lia. }
  fold F. unfold NewTupleFromSchema. cbn [Length uninlinedColumns].
  rewrite tuple_size_loop. cbn.
  unfold GetColumnCount. cbn [columns]. rewrite length_place.
  rewrite u32_small by (unfold in_u32; lia). rewrite Nat2Z.id.
  destruct (res_foldl_range written
    (tuple_write_step vals (MkSchema F (place cols) b (uninlined_of cols)))
    (length cols) (replicate (Z.to_nat total) Byte.x00, F)) as ([d e] & HR & HD & _ & HS).
  - split_and!; simpl; [rewrite length_replicate; unfold total; lia|unfold pay; simpl; lia|lia].
  - intros i acc Hi Hw. by apply tuple_write_step_ok.
  - rewrite HR. cbn. eexists; split; [done|]. split_and!; [done|exact HD|done|].
    intros j v r sz Hv. destruct (lookup_lt_is_Some_2 cols j) as [c Hc].
    { rewrite (Forall2_length _ _ _ Hok). by eapply lookup_lt_Some. }
    assert (HSt : stored d j c v) by (apply HS; try done; by eapply lookup_lt_Some).
    split; [by apply stored_GetValue with c|by apply stored_GetValueInBytes with c].
Qed.
End roundtrip.

(** A tuple with the bytes made of a row gives its values and their bytes, whatever its
    RID and size field. *)
Lemma tuple_reads cols vals :
  Forall2 column_ok cols vals → Z.of_nat (length cols) < 2 ^ 32 →
  fixed_total cols + payload_total (zip cols vals) < 2 ^ 32 →
  ∃ t, NewTupleFromSchema vals (NewSchema cols) = Ok t ∧
    size t = fixed_total cols + payload_total (zip cols vals) ∧
    Z.of_nat (length (data t)) = size t ∧ rid t = None ∧
    ∀ j v r sz, vals !! j = Some v →
      GetValue (MkTuple r sz (data t)) (NewSchema cols) (Z.of_nat j) = Ok v ∧
      GetValueInBytes (MkTuple r sz (data t)) (NewSchema cols) (Z.of_nat j) = Serialize v.
Proof.
  intros Hok HL HT.
  assert (Htot : total cols vals = fixed_total cols + payload_total (zip cols vals)).
  { unfold total, F, pay. pose proof (Forall2_length _ _ _ Hok). by rewrite !take_ge by lia. }
  rewrite <- Htot in HT |- *.
  destruct (NewTupleFromSchema_reads cols vals Hok HL HT) as (t & H1 & H2 & H3 & H4 & H5).
  exists t. rewrite H2. by split_and!.
Qed.

Lemma tuple_built cols vals :
  Forall2 column_ok cols vals → Z.of_nat (length cols) < 2 ^ 32 →
  fixed_total cols + payload_total (zip cols vals) < 2 ^ 32 →
  ∃ t, NewTupleFromSchema vals (NewSchema cols) = Ok t ∧
    size t = fixed_total cols + payload_total (zip cols vals) ∧
    Z.of_nat (length (data t)) = size t ∧
    ∀ j v, vals !! j = Some v → GetValue t (NewSchema cols) (Z.of_nat j) = Ok v.
Proof.
  intros Hok HL HT. destruct (tuple_reads cols vals Hok HL HT) as ([r sz d] & H1 & H2 & H3 & _ & H4).
  exists (MkTuple r sz d). split_and!; try done. intros j v Hv. by apply H4.
Qed.

(** The tuple holds the row. *)
Definition holds_row (t : Tuple) (s : Schema) (row : list Value) : Prop :=
  length row = length (columns s) ∧ ∀ i v, row !! i = Some v → GetValue t s (Z.of_nat i) = Ok v.

Lemma holds_row_GetValue t s row i : holds_row t s row → GetValue t s i = index row i.
Proof.
  intros [HL HV]. destruct (decide (0 ≤ i < Z.of_nat (length row))) as [Hi|Hi].
  - destruct (lookup_lt_is_Some_2 row (Z.to_nat i)) as [v Hv]; [lia|].
    pose proof (HV _ _ Hv) as E. rewrite Z2Nat.id in E by lia. rewrite E. symmetry.
    rewrite <- (Z2Nat.id i) at 1 by lia. by apply index_nat.
  - assert (index row i = Panic) as ->.
    { unfold index. destruct (Z.leb_spec 0 i); [|done]. by rewrite lookup_ge_None_2 by lia. }
    unfold GetValue, GetColumn. assert (index (columns s) i = Panic) as ->; [|done].
    unfold index. destruct (Z.leb_spec 0 i); [|done]. by rewrite lookup_ge_None_2 by lia.
Qed.

Lemma row_fits cols vals :
  Forall2 column_ok cols vals → fixed_total cols + payload_total (zip cols vals) < 2 ^ 32 → fixed_total cols < 2 ^ 32.
Proof.
  intros Hok HT. pose proof (pay_bounds cols vals Hok (length cols)) as HP. unfold pay in HP.
  rewrite (take_ge cols), (take_ge vals) in HP by (rewrite ?(Forall2_length _ _ _ Hok); lia). lia.
Qed.

(** A tuple made from a row holds it. *)
Lemma tuple_holds_row cols vals :
  Forall2 column_ok cols vals → Z.of_nat (length cols) < 2 ^ 32 →
  fixed_total cols + payload_total (zip cols vals) < 2 ^ 32 →
  ∃ t, NewTupleFromSchema vals (NewSchema cols) = Ok t ∧ holds_row t (NewSchema cols) vals ∧
    Z.of_nat (length (data t)) = fixed_total cols + payload_total (zip cols vals).
Proof.
  intros Hok HL HT. destruct (tuple_built cols vals Hok HL HT) as (t & E & HS & HD & HV).
  exists t. split; [done|]. split; [|by rewrite HD]. split; [|done]. rewrite <- (Forall2_length _ _ _ Hok).
  destruct (NewSchema_spec cols) as (b & ->); [by eapply cols_nonneg|by eapply row_fits|done|cbn [columns]; by rewrite length_place].
Qed.

(** C27: a tuple built from one storable value per column, under a schema made
    of columns as [NewColumn] makes them, gives every value back: the fixed
    fields, the offsets the schema computed and the payloads of the
    variable-length columns do not disturb one another.  Neither call panics,
    and the tuple is exactly as long as its size field says. *)
Theorem tuple_columns_roundtrip cols vals :
  Forall2 column_ok cols vals → Z.of_nat (length cols) < 2 ^ 32 →
  fixed_total cols + payload_total (zip cols vals) < 2 ^ 32 →
  ∃ t, NewTupleFromSchema vals (NewSchema cols) = Ok t ∧
    size t = fixed_total cols + payload_total (zip cols vals) ∧
    Z.of_nat (length (data t)) = size t ∧
    ∀ j v, vals !! j = Some v → GetValue t (NewSchema cols) (Z.of_nat j) = Ok v.
Proof. exact (tuple_built cols vals). Qed.

(** A schema and a row of it with every column type and a NULL. *)
Definition example_columns : list Column :=
  [NewColumn [Byte.x61] Integer false; NewColumn [Byte.x62] Varchar true;
   NewColumn [Byte.x63] Boolean false; NewColumn [Byte.x64] Varchar false;
   NewColumn [Byte.x65] Float false].
Definition example_row : list Value :=
  [NewInteger (-20); NewVarchar [Byte.x68; Byte.x69]; NewBoolean true;
   MkValue Varchar true None None (Some []) None; NewFloat 1065353216].

Lemma example_row_ok : Forall2 column_ok example_columns example_row.
Proof.
  repeat constructor; try (vm_compute; done).
Qed.

Lemma tuple_columns_roundtrip_witness :
  ∃ t, NewTupleFromSchema example_row (NewSchema example_columns) = Ok t ∧
    GetValue t (NewSchema example_columns) 1 = Ok (NewVarchar [Byte.x68; Byte.x69]).
Proof.
  destruct (tuple_columns_roundtrip example_columns example_row example_row_ok)
    as (t & H1 & _ & _ & H4); [reflexivity|reflexivity|].
  exists t. split; [exact H1|]. apply (H4 1%nat). reflexivity.
Defined.
