(* ===== verification/Disk.v ===== *)
(** * Disk manager ([storage/disk/disk_manager_impl.go], [common/config.go])

    The operating system's file is a byte sequence with a current position;
    [Seek] to a negative offset fails and leaves the position, [Write] past the
    end fills the gap with zeros, [Read] at the end of the file is an error.
    No other I/O error is modelled.  [Sync] and closing or removing files have
    no effect on these contents.

    The theorems: a written page is read back and no other page changes, as
    long as the page offset fits the 32-bit multiplication; past that limit
    page ids alias; log writes append, unless a log read moved the position. *)

From S2P Require Import Prelude Bytes.

Definition PageSize : Z := 4096.
Definition InvalidTxnID : Z := -1.
Definition InvalidLSN : Z := -1.
Definition HeaderPageID : Z := 0.
Definition BufferPoolSize : Z := 10.
Definition LogBufferSize : Z := (BufferPoolSize + 1) * PageSize.
Definition BucketSize : Z := 50.

Definition zeros (n : nat) : list byte := replicate n Byte.x00.

(** ** Files *)
Record File : Type := MkFile { content : list byte; pos : Z }.

Definition file_size (f : File) : Z := Z.of_nat (length (content f)).

Definition Seek (offset : Z) (f : File) : File :=
  if offset <? 0 then f else MkFile (content f) offset.

(** [Write] at the current position. *)
Definition write_at (p : nat) (bs c : list byte) : list byte :=
  take p c ++ zeros (p - length c) ++ bs ++ drop (p + length bs) c.
Definition Write (bs : list byte) (f : File) : File :=
  MkFile (write_at (Z.to_nat (pos f)) bs (content f)) (pos f + Z.of_nat (length bs)).

(** [Read] of at most [n] bytes; [None] is [io.EOF]. *)
Definition Read (n : nat) (f : File) : option (list byte) * File :=
  if (n =? 0)%nat then (Some [], f)
  else if file_size f <=? pos f then (None, f)
  else let bs := region (Z.to_nat (pos f)) n (content f) in
       (Some bs, MkFile (content f) (pos f + Z.of_nat (length bs))).

(** ** The disk manager *)

(** A write to one of the two files. *)
Inductive file_write : Type :=
| PageWritten (offset : Z) (pageData : list byte)
| LogWritten (log_data : list byte).

(** [writes], the writes so far in their order, is not a field of the source: it is what
    an observer of the disk sees. *)
Record DiskManagerImpl : Type := MkDisk {
  db : File;
  log : File;
  nextPageID : Z;
  numWrites : Z;
  disk_size : Z;
  flush_log : bool;
  numFlushes : Z;
  writes : list file_write
}.

Definition set_db (f : File) (d : DiskManagerImpl) : DiskManagerImpl :=
  MkDisk f (log d) (nextPageID d) (numWrites d) (disk_size d) (flush_log d) (numFlushes d) (writes d).
Definition set_log (f : File) (d : DiskManagerImpl) : DiskManagerImpl :=
  MkDisk (db d) f (nextPageID d) (numWrites d) (disk_size d) (flush_log d) (numFlushes d) (writes d).
Definition set_nextPageID (n : Z) (d : DiskManagerImpl) : DiskManagerImpl :=
  MkDisk (db d) (log d) n (numWrites d) (disk_size d) (flush_log d) (numFlushes d) (writes d).
Definition set_disk_size (n : Z) (d : DiskManagerImpl) : DiskManagerImpl :=
  MkDisk (db d) (log d) (nextPageID d) (numWrites d) n (flush_log d) (numFlushes d) (writes d).
Definition set_flush (b : bool) (n : Z) (d : DiskManagerImpl) : DiskManagerImpl :=
  MkDisk (db d) (log d) (nextPageID d) (numWrites d) (disk_size d) b n (writes d).
Definition note_write (w : file_write) (d : DiskManagerImpl) : DiskManagerImpl :=
  MkDisk (db d) (log d) (nextPageID d) (numWrites d) (disk_size d) (flush_log d) (numFlushes d) (writes d ++ [w]).

Inductive disk_error : Type :=
| ErrBytesWritten | ErrPastEndOfFile | ErrReading.

(** Opening the files with the given contents. *)
Definition NewDiskManagerImpl (db_content log_content : list byte) : DiskManagerImpl :=
  let fileSize := Z.of_nat (length db_content) in
  let nPages := fileSize / PageSize in
  MkDisk (MkFile db_content 0) (MkFile log_content (Z.of_nat (length log_content)))
    (if 0 <? nPages then i32 (nPages + 1) else 0) 0 fileSize false 0 [].

(** The offset of a page: the product is a 32-bit one, then widened. *)
Definition page_offset (pageId : Z) : Z := i32 (pageId * PageSize).

Definition WritePage (pageId : Z) (pageData : list byte) (d : DiskManagerImpl) :
    option disk_error * DiskManagerImpl :=
  let offset := page_offset pageId in
  let bytesWritten := Z.of_nat (length pageData) in
  let d1 := note_write (PageWritten offset pageData) (set_db (Write pageData (Seek offset (db d))) d) in
  if negb (bytesWritten =? PageSize) then (Some ErrBytesWritten, d1)
  else (None, if disk_size d <=? offset then set_disk_size (offset + bytesWritten) d1 else d1).

(** [pageData] is the caller's page-sized buffer: the result is what it holds. *)
Definition ReadPage (pageID : Z) (d : DiskManagerImpl) :
    (disk_error + list byte) * DiskManagerImpl :=
  let offset := page_offset pageID in
  if file_size (db d) <? offset then (inl ErrPastEndOfFile, d)
  else
    let '(r, f) := Read (Z.to_nat PageSize) (Seek offset (db d)) in
    let d1 := set_db f d in
    match r with
    | None => (inl ErrReading, d1)
    | Some bs =>
        if Z.of_nat (length bs) <? PageSize then (inr (zeros (Z.to_nat PageSize)), d1)
        else (inr bs, d1)
    end.

Definition AllocatePage (d : DiskManagerImpl) : Z * DiskManagerImpl :=
  (nextPageID d, set_nextPageID (i32 (nextPageID d + 1)) d).

Definition DeallocatePage (pageID : Z) (d : DiskManagerImpl) : DiskManagerImpl := d.

Definition WriteLog (log_data : list byte) (d : DiskManagerImpl) : DiskManagerImpl :=
  let d1 := set_flush true (numFlushes d + 1) d in
  let d2 := note_write (LogWritten log_data) (set_log (Write log_data (log d1)) d1) in
  set_flush false (numFlushes d2) d2.

Definition GetLogFileSize (d : DiskManagerImpl) : Z := file_size (log d).

(** [ReadLog] fills a prefix of the caller's buffer and sets [*retReadBytes];
    the result is the flag, the buffer and the count. *)
Definition ReadLog (log_data : list byte) (offset : Z) (retReadBytes : Z) (d : DiskManagerImpl) :
    (bool * list byte * Z) * DiskManagerImpl :=
  if GetLogFileSize d <=? offset then ((false, log_data, retReadBytes), d)
  else
    let '(r, f) := Read (length log_data) (Seek offset (log d)) in
    match r with
    | None => ((false, log_data, 0), set_log f d)
    | Some bs => ((true, overwrite 0 bs log_data, Z.of_nat (length bs)), set_log f d)
    end.

(** ** File lemmas *)
Lemma length_write_at p bs c :
  length (write_at p bs c) = ((p + length bs) `max` length c)%nat.
Proof.
  unfold write_at, zeros.
  rewrite !length_app, length_take, length_replicate, length_drop. lia.
Qed.

Lemma write_at_region p bs c : region p (length bs) (write_at p bs c) = bs.
Proof.
  unfold write_at. rewrite app_assoc.
  assert (HL : length (take p c ++ zeros (p - length c)) = p).
  { rewrite length_app, length_take. unfold zeros. rewrite length_replicate. lia. }
  rewrite region_app_r by lia. rewrite HL, Nat.sub_diag.
  rewrite region_app_l by lia. apply region_0_all.
Qed.

Lemma write_at_region_ne p bs c o n :
  (o + n ≤ length c)%nat → (o + n ≤ p ∨ p + length bs ≤ o)%nat →
  region o n (write_at p bs c) = region o n c.
Proof.
  intros H D. apply region_ext; [rewrite length_write_at; lia|lia|].
  intros i Hi. unfold write_at.
  destruct (decide (o + i < p)%nat) as [Hlt|Hge].
  - rewrite lookup_app_l by (rewrite length_take; lia). by rewrite lookup_take_lt by lia.
  - rewrite lookup_app_r by (rewrite length_take; lia). rewrite length_take.
    rewrite lookup_app_r by (unfold zeros; rewrite length_replicate; lia).
    unfold zeros. rewrite length_replicate.
    rewrite lookup_app_r by lia. rewrite lookup_drop. f_equal. lia.
Qed.

Lemma write_at_end bs c : write_at (length c) bs c = c ++ bs.
Proof.
  unfold write_at. rewrite Nat.sub_diag, drop_ge, app_nil_r by lia. simpl.
  by rewrite firstn_all.
Qed.

(** ** Pages on disk *)
Definition page_in_range (pid : Z) : Prop := 0 ≤ pid < 2 ^ 19.

Lemma page_offset_small pid : page_in_range pid → page_offset pid = pid * PageSize.
Proof.
  unfold page_in_range, page_offset, PageSize. intros H. apply i32_small. unfold in_i32. lia.
Qed.

(** The whole page [pid] lies inside the file. *)
Definition page_present (pid : Z) (d : DiskManagerImpl) : Prop :=
  page_in_range pid ∧ pid * PageSize + PageSize ≤ file_size (db d).

Definition page_bytes (pid : Z) (d : DiskManagerImpl) : list byte :=
  region (Z.to_nat (pid * PageSize)) (Z.to_nat PageSize) (content (db d)).

Lemma ReadPage_present pid d :
  page_present pid d →
  ∃ d', ReadPage pid d = (inr (page_bytes pid d), d') ∧ content (db d') = content (db d) ∧
    log d' = log d ∧ nextPageID d' = nextPageID d ∧ disk_size d' = disk_size d.
Proof.
  intros [HR HP]. unfold ReadPage, Read, Seek. rewrite page_offset_small by done.
  unfold page_in_range in HR.
  destruct (Z.ltb_spec (file_size (db d)) (pid * PageSize)); [unfold PageSize in *; lia|].
  destruct (Z.ltb_spec (pid * PageSize) 0); [unfold PageSize in *; lia|].
  simpl. unfold file_size in *. simpl.
  destruct (Z.leb_spec (Z.of_nat (length (content (db d)))) (pid * PageSize));
    [unfold PageSize in *; lia|].
  rewrite length_region by (unfold PageSize in *; lia).
  destruct (Z.ltb_spec (Z.of_nat (Z.to_nat PageSize)) PageSize); [unfold PageSize in *; lia|].
  eexists. by split_and!.
Qed.

Lemma WritePage_ok pid data d :
  page_in_range pid → Z.of_nat (length data) = PageSize →
  ∃ d', WritePage pid data d = (None, d') ∧
    content (db d') = write_at (Z.to_nat (pid * PageSize)) data (content (db d)) ∧
    log d' = log d ∧ nextPageID d' = nextPageID d ∧ writes d' = writes d ++ [PageWritten (pid * PageSize) data].
Proof.
  intros HR HL. unfold WritePage. rewrite HL, Z.eqb_refl. simpl.
  rewrite page_offset_small by done. eexists. split; [done|].
  unfold Write, Seek. unfold page_in_range in HR.
  destruct (Z.ltb_spec (pid * PageSize) 0); [unfold PageSize in *; lia|].
  by destruct (Z.leb_spec (disk_size d) (pid * PageSize)).
Qed.

Lemma WritePage_pages pid data d d' :
  page_in_range pid → Z.of_nat (length data) = PageSize →
  content (db d') = write_at (Z.to_nat (pid * PageSize)) data (content (db d)) →
  (page_present pid d' ∧ page_bytes pid d' = data) ∧
  ∀ pid', pid' ≠ pid → page_present pid' d →
    page_present pid' d' ∧ page_bytes pid' d' = page_bytes pid' d.
Proof.
  unfold page_present, page_bytes, file_size, page_in_range. intros HR HL HC. rewrite HC.
  rewrite length_write_at. split; [split; [unfold PageSize in *; lia|]|].
  - replace (Z.to_nat PageSize) with (length data) by (unfold PageSize in *; lia).
    apply write_at_region.
  - intros pid' Hne [HR' HP]. split; [unfold PageSize in *; lia|].
    apply write_at_region_ne; [unfold PageSize in *; lia|].
    assert (pid' < pid ∨ pid < pid') as [|] by lia; [left|right]; unfold PageSize in *; lia.
Qed.

(** The database file is a store of pages: writing a page of the right
    length succeeds, reading it back gives the bytes written, and every other
    page that was complete in the file reads as before. *)
Theorem disk_is_page_store pid data d :
  page_in_range pid → Z.of_nat (length data) = PageSize →
  ∃ d', WritePage pid data d = (None, d') ∧
    fst (ReadPage pid d') = inr data ∧
    ∀ pid' bs, pid' ≠ pid → page_present pid' d →
      fst (ReadPage pid' d) = inr bs → fst (ReadPage pid' d') = inr bs.
Proof.
  intros HR HL. destruct (WritePage_ok pid data d HR HL) as (d' & HW & HC & _).
  destruct (WritePage_pages pid data d d' HR HL HC) as [[HP HB] HO].
  exists d'. split; [done|]. split.
  - destruct (ReadPage_present pid d' HP) as (d'' & -> & _). by rewrite HB.
  - intros pid' bs Hne HP'. destruct (HO pid' Hne HP') as [HP'' HB''].
    destruct (ReadPage_present pid' d HP') as (? & -> & _).
    destruct (ReadPage_present pid' d' HP'') as (? & -> & _). simpl. by rewrite HB''.
Qed.

Definition example_disk : DiskManagerImpl :=
  NewDiskManagerImpl (zeros (Z.to_nat (2 * PageSize))) [].
Definition example_page : list byte := Byte.x41 :: zeros (Z.to_nat (PageSize - 1)).

Lemma disk_is_page_store_witness :
  ∃ d', WritePage 1 example_page example_disk = (None, d') ∧
    fst (ReadPage 1 d') = inr example_page ∧
    fst (ReadPage 0 d') = inr (zeros (Z.to_nat PageSize)).
Proof.
  destruct (disk_is_page_store 1 example_page example_disk) as (d' & H1 & H2 & H3).
  - unfold page_in_range. lia.
  - vm_compute. reflexivity.
  - exists d'. split; [exact H1|]. split; [exact H2|].
    apply (H3 0 (zeros (Z.to_nat PageSize))).
    + discriminate.
    + vm_compute. repeat split; discriminate.
    + vm_compute. reflexivity.
Defined.

(** The page offset is a 32-bit product, so page ids 2^20 apart name the
    same bytes: writing the one overwrites the other. *)
Theorem page_ids_alias pid data d :
  WritePage (pid + 2 ^ 20) data d = WritePage pid data d ∧
  ReadPage (pid + 2 ^ 20) d = ReadPage pid d.
Proof.
  assert (E : page_offset (pid + 2 ^ 20) = page_offset pid).
  { unfold page_offset, PageSize, i32, swrap. f_equal.
    replace ((pid + 2 ^ 20) * 4096 + 2 ^ (32 - 1))
      with (pid * 4096 + 2 ^ (32 - 1) + 1 * 2 ^ 32) by lia.
    apply Z_mod_plus_full. }
  unfold WritePage, ReadPage. by rewrite E.
Qed.

(** ** The log file *)
Definition log_at_end (d : DiskManagerImpl) : Prop := pos (log d) = file_size (log d).

Lemma WriteLog_appends bs d :
  log_at_end d →
  content (log (WriteLog bs d)) = content (log d) ++ bs ∧ log_at_end (WriteLog bs d) ∧
  db (WriteLog bs d) = db d ∧ nextPageID (WriteLog bs d) = nextPageID d ∧
  disk_size (WriteLog bs d) = disk_size d ∧ writes (WriteLog bs d) = writes d ++ [LogWritten bs].
Proof.
  unfold log_at_end, file_size. intros H. unfold WriteLog, Write. simpl. rewrite H, Nat2Z.id.
  rewrite write_at_end. split_and!; try done. rewrite length_app. lia.
Qed.

(** [WriteLog] writes at the position of the last access: after a
    [ReadLog] that stopped before the end of the file it does not append, it
    overwrites the log record bytes that follow the part read. *)
Theorem write_log_after_read_overwrites buf offset n0 bs d :
  0 ≤ offset → offset + Z.of_nat (length buf) + Z.of_nat (length bs) ≤ GetLogFileSize d →
  (0 < length buf)%nat →
  let d1 := snd (ReadLog buf offset n0 d) in
  let d2 := WriteLog bs d1 in
  GetLogFileSize d2 = GetLogFileSize d ∧
  region (Z.to_nat offset + length buf) (length bs) (content (log d2)) = bs.
Proof.
  intros H0 HB HL d1 d2.
  assert (E1 : log d1 = MkFile (content (log d)) (offset + Z.of_nat (length buf))).
  { subst d1. unfold ReadLog, GetLogFileSize, Read, Seek, file_size in *. simpl in *.
    destruct (Z.leb_spec (Z.of_nat (length (content (log d)))) offset); [lia|].
    destruct (Z.ltb_spec offset 0); [lia|].
    destruct (Nat.eqb_spec (length buf) 0); [lia|]. simpl.
    destruct (Z.leb_spec (Z.of_nat (length (content (log d)))) offset); [lia|]. simpl.
    by rewrite length_region by lia. }
  subst d2. unfold WriteLog, Write, GetLogFileSize, file_size in *. simpl. rewrite E1. simpl.
  replace (Z.to_nat (offset + Z.of_nat (length buf))) with (Z.to_nat offset + length buf)%nat by lia.
  split; [rewrite length_write_at; lia|apply write_at_region].
Qed.

Lemma write_log_after_read_overwrites_witness :
  let d := NewDiskManagerImpl [] (zeros 100) in
  let d2 := WriteLog [Byte.xff] (snd (ReadLog (zeros 40) 10 0 d)) in
  GetLogFileSize d2 = 100 ∧ region (10 + 40) 1 (content (log d2)) = [Byte.xff].
Proof.
  apply (write_log_after_read_overwrites (zeros 40) 10 0 [Byte.xff]
           (NewDiskManagerImpl [] (zeros 100))); [discriminate|vm_compute; discriminate|].
  simpl. lia.
Defined.
