(* ===== verification/ClockReplacer.v ===== *)
(** * Clock replacer ([storage/buffer/circular_list.go], [storage/buffer/clock_replacer.go])

    The circular list is a heap of nodes linked by pointers, and the clock hand
    is a pointer to a pointer: to the list's [head] field or to the [next]
    field of a node, which may already have been unlinked.  The abstract state
    is the ring of (frame, reference bit) entries from the head on, with the
    index the hand stands at; every operation refines one on that state.

    The mutex brackets each operation and is not modelled. *)

From S2P Require Import Prelude.

(** ** The pointer structure *)
Definition loc := nat.

Record node : Type := MkNode { key : Z; value : bool; next : option loc; prev : option loc }.

Record circularList : Type := MkCList {
  nodes : gmap loc node;   (* the Go heap of nodes *)
  fresh : loc;             (* the next address [new] returns *)
  head : option loc;
  tail : option loc;
  csize : Z;
  capacity : Z
}.

Definition set_nodes (h : gmap loc node) (c : circularList) : circularList :=
  MkCList h (fresh c) (head c) (tail c) (csize c) (capacity c).
Definition set_head (p : option loc) (c : circularList) : circularList :=
  MkCList (nodes c) (fresh c) p (tail c) (csize c) (capacity c).
Definition set_tail (p : option loc) (c : circularList) : circularList :=
  MkCList (nodes c) (fresh c) (head c) p (csize c) (capacity c).
Definition set_csize (n : Z) (c : circularList) : circularList :=
  MkCList (nodes c) (fresh c) (head c) (tail c) n (capacity c).

Definition set_next (p : option loc) (nd : node) : node := MkNode (key nd) (value nd) p (prev nd).
Definition set_prev (p : option loc) (nd : node) : node := MkNode (key nd) (value nd) (next nd) p.
Definition set_value (v : bool) (nd : node) : node := MkNode (key nd) v (next nd) (prev nd).

(** [p.field] for a possibly nil pointer [p]. *)
Definition load (h : gmap loc node) (p : option loc) : res node :=
  l ← deref p; deref (h !! l).
(** An assignment [p.field = x]. *)
Definition store (p : option loc) (f : node → node) (h : gmap loc node) : res (gmap loc node) :=
  l ← deref p; nd ← deref (h !! l); Ok (<[l := f nd]> h).

(** ** circularList *)
Definition newCircularList (maxSize : Z) : circularList := MkCList ∅ 0%nat None None 0 maxSize.

Fixpoint find_loop (h : gmap loc node) (k : Z) (n : nat) (ptr : option loc) : res (option loc) :=
  match n with
  | O => Ok None
  | S n' =>
      nd ← load h ptr;
      if key nd =? k then Ok ptr else find_loop h k n' (next nd)
  end.
Definition find (c : circularList) (k : Z) : res (option loc) :=
  find_loop (nodes c) k (Z.to_nat (csize c)) (head c).

Definition hasKey (c : circularList) (k : Z) : res bool :=
  p ← find c k; Ok (bool_decide (is_Some p)).

Inductive list_error : Type := ErrCapacityFull.

Definition insert (k : Z) (v : bool) (c : circularList) : res (option list_error * circularList) :=
  if csize c =? capacity c then Ok (Some ErrCapacityFull, c)
  else
    let new := fresh c in
    let h := <[new := MkNode k v None None]> (nodes c) in
    let c1 := MkCList h (S new) (head c) (tail c) (csize c) (capacity c) in
    if csize c =? 0 then
      h1 ← store (Some new) (set_next (Some new)) h;
      h2 ← store (Some new) (set_prev (Some new)) h1;
      Ok (None, MkCList h2 (S new) (Some new) (Some new) (u32 (csize c + 1)) (capacity c))
    else
      p ← find c1 k;
      match p with
      | Some l =>
          h1 ← store (Some l) (set_value v) h;
          Ok (None, set_nodes h1 c1)
      | None =>
          h1 ← store (Some new) (set_next (head c)) h;
          h2 ← store (Some new) (set_prev (tail c)) h1;
          h3 ← store (tail c) (set_next (Some new)) h2;
          h4 ← (if bool_decide (head c = tail c) then store (head c) (set_next (Some new)) h3
                else Ok h3);
          h5 ← store (head c) (set_prev (Some new)) h4;
          Ok (None, MkCList h5 (S new) (head c) (Some new) (u32 (csize c + 1)) (capacity c))
      end.

Definition remove (k : Z) (c : circularList) : res circularList :=
  p ← find c k;
  match p with
  | None => Ok c
  | Some l =>
      if csize c =? 1 then
        Ok (MkCList (nodes c) (fresh c) None None (u32 (csize c - 1)) (capacity c))
      else
        head' ← (if bool_decide (Some l = head c) then nd ← load (nodes c) (head c); Ok (next nd)
                 else Ok (head c));
        tail' ← (if bool_decide (Some l = tail c) then nd ← load (nodes c) (tail c); Ok (prev nd)
                 else Ok (tail c));
        nd ← load (nodes c) (Some l);
        h1 ← store (next nd) (set_prev (prev nd)) (nodes c);
        nd' ← load h1 (Some l);
        h2 ← store (prev nd') (set_next (next nd')) h1;
        Ok (MkCList h2 (fresh c) head' tail' (u32 (csize c - 1)) (capacity c))
  end.

Definition isFull (c : circularList) : bool := csize c =? capacity c.

(** ** ClockReplacer *)
Inductive hand_ptr : Type :=
| AddrHead               (* &cList.head *)
| AddrNext (l : loc).    (* &node.next *)

Record ClockReplacer : Type := MkClock { cList : circularList; clockHand : hand_ptr }.

(** [*c.clockHand] *)
Definition deref_hand (r : ClockReplacer) : res (option loc) :=
  match clockHand r with
  | AddrHead => Ok (head (cList r))
  | AddrNext l => nd ← load (nodes (cList r)) (Some l); Ok (next nd)
  end.

(** The [for] loop of [Victim]: [currentNode] is the same in every iteration. *)
Fixpoint Victim_loop (fuel : nat) (cur : option loc) (r : ClockReplacer) :
    res (option Z * ClockReplacer) :=
  match fuel with
  | O => OutOfFuel
  | S fuel' =>
      l ← deref cur;
      nd ← load (nodes (cList r)) cur;
      if value nd then
        h ← store cur (set_value false) (nodes (cList r));
        Victim_loop fuel' cur (MkClock (set_nodes h (cList r)) (AddrNext l))
      else
        c' ← remove (key nd) (cList r);
        Ok (Some (key nd), MkClock c' (AddrNext l))
  end.
Definition Victim_fuel : nat := 2.

Definition Victim (r : ClockReplacer) : res (option Z * ClockReplacer) :=
  if csize (cList r) =? 0 then Ok (None, r)
  else cur ← deref_hand r; Victim_loop Victim_fuel cur r.

Definition Unpin (id : Z) (r : ClockReplacer) : res ClockReplacer :=
  b ← hasKey (cList r) id;
  if (b : bool) then Ok r
  else
    p ← insert id true (cList r);
    let c' := snd p in
    Ok (MkClock c' (if csize c' =? 1 then AddrHead else clockHand r)).

Definition Pin (id : Z) (r : ClockReplacer) : res ClockReplacer :=
  p ← find (cList r) id;
  match p with
  | None => Ok r
  | Some l =>
      cur ← deref_hand r;
      hand' ← (if bool_decide (cur = Some l) then
                 l' ← deref cur; _ ← load (nodes (cList r)) cur; Ok (AddrNext l')
               else Ok (clockHand r));
      c' ← remove id (cList r);
      Ok (MkClock c' hand')
  end.

Definition ReplacerSize (r : ClockReplacer) : Z := csize (cList r).

Definition NewClockReplacer (poolSize : Z) : ClockReplacer :=
  MkClock (newCircularList poolSize) AddrHead.

(** ** The abstract clock

    The ring from the head on, with the index the hand stands at. *)
Record ring : Type := MkRing { entries : list (Z * bool); hand : nat }.

Fixpoint key_idx (k : Z) (es : list (Z * bool)) : option nat :=
  match es with
  | [] => None
  | e :: es' => if fst e =? k then Some O else S <$> key_idx k es'
  end.

(** The index the hand has after the entry at [i] is unlinked: a hand on that
    entry moves to its successor, round the end of the list. *)
Definition unlink_hand (n i h : nat) : nat :=
  if decide (i < h)%nat then (h - 1)%nat
  else if decide (i = h) then (if decide (S i < n)%nat then i else O)
  else h.

Definition ring_unlink (i : nat) (r : ring) : ring :=
  MkRing (delete i (entries r)) (unlink_hand (length (entries r)) i (hand r)).

Definition ring_Victim (r : ring) : option Z * ring :=
  match entries r !! hand r with
  | None => (None, r)
  | Some (k, _) => (Some k, ring_unlink (hand r) r)
  end.
Definition ring_Pin (k : Z) (r : ring) : ring :=
  match key_idx k (entries r) with None => r | Some i => ring_unlink i r end.
Definition ring_Unpin (cap : nat) (k : Z) (r : ring) : ring :=
  if decide (is_Some (key_idx k (entries r)) ∨ length (entries r) = cap) then r
  else MkRing (entries r ++ [(k, true)]) (if decide (entries r = []) then O else hand r).

(** The scenario of [clock_replacer_test.go]. *)
Example clock_replacer_test :
  (r ← foldl (λ m i, r ← m; Unpin i r) (Ok (NewClockReplacer 7)) [1; 2; 3; 4; 5; 6; 1];
   p1 ← Victim r; p2 ← Victim (snd p1); p3 ← Victim (snd p2);
   r1 ← Pin 3 (snd p3); r2 ← Pin 4 r1; r3 ← Unpin 4 r2;
   p4 ← Victim r3; p5 ← Victim (snd p4); p6 ← Victim (snd p5);
   Ok (ReplacerSize r, ReplacerSize r2, map fst [p1; p2; p3; p4; p5; p6])) =
  Ok (6, 2, [Some 1; Some 2; Some 3; Some 5; Some 6; Some 4]).
Proof. vm_compute. reflexivity. Qed.

(** ** Representation *)
Local Definition ni (n j : nat) : nat := if decide (S j < n)%nat then S j else O.
Local Definition pi (n j : nat) : nat := if decide (j = O) then (n - 1)%nat else (j - 1)%nat.

(** [c] is the circular doubly linked list of the nodes [ls] carrying [es]. *)
Record list_rep (c : circularList) (ls : list loc) (es : list (Z * bool)) : Prop := {
  rep_len : length ls = length es;
  rep_locs : NoDup ls;
  rep_keys : NoDup es.*1;
  rep_nodes : ∀ j l e, ls !! j = Some l → es !! j = Some e →
    nodes c !! l = Some (MkNode (fst e) (snd e) (ls !! ni (length ls) j) (ls !! pi (length ls) j));
  rep_head : head c = ls !! O;
  rep_tail : tail c = ls !! (length ls - 1)%nat;
  rep_size : csize c = Z.of_nat (length es);
  rep_cap : Z.of_nat (length es) ≤ capacity c < 2 ^ 32;
  rep_fresh : ∀ l, is_Some (nodes c !! l) → (l < fresh c)%nat
}.

(** Where the hand points: to the head field, or to the [next] field of an
    unlinked node that still leads to the ring's node at [h]. *)
Inductive hand_rep (c : circularList) (ls : list loc) : hand_ptr → nat → Prop :=
| hand_empty p : ls = [] → hand_rep c ls p O
| hand_head : hand_rep c ls AddrHead O
| hand_next x nd h : x ∉ ls → nodes c !! x = Some nd → next nd = ls !! h →
    (h < length ls)%nat → hand_rep c ls (AddrNext x) h.

(** The pointer structure [r] represents the abstract ring [a]. *)
Definition clock_rep (r : ClockReplacer) (a : ring) : Prop :=
  ∃ ls, list_rep (cList r) ls (entries a) ∧ hand_rep (cList r) ls (clockHand r) (hand a).

Lemma rep_fresh_notin c ls es : list_rep c ls es → fresh c ∉ ls.
Proof.
  intros R (j & Hj)%list_elem_of_lookup.
  destruct (lookup_lt_is_Some_2 es j) as [e He].
  { rewrite <- (rep_len _ _ _ R). by apply lookup_lt_Some in Hj. }
  pose proof (rep_nodes _ _ _ R j _ e Hj He).
  assert (fresh c < fresh c)%nat; [apply (rep_fresh _ _ _ R); eauto|lia].
Qed.

Lemma rep_node c ls es j l :
  list_rep c ls es → ls !! j = Some l →
  ∃ e, es !! j = Some e ∧
    nodes c !! l = Some (MkNode (fst e) (snd e) (ls !! ni (length ls) j) (ls !! pi (length ls) j)).
Proof.
  intros R Hl. destruct (lookup_lt_is_Some_2 es j) as [e He].
  { rewrite <- (rep_len _ _ _ R). by apply lookup_lt_Some in Hl. }
  exists e. split; [done|]. by apply (rep_nodes _ _ _ R).
Qed.

(** ** find *)
Lemma key_idx_Some k es i : key_idx k es = Some i → ∃ b, es !! i = Some (k, b).
Proof.
  revert i. induction es as [|[k' b] es IH]; intros i H; [done|]. simpl in H.
  destruct (Z.eqb_spec k' k) as [->|]; [simplify_eq; by eexists|].
  destruct (key_idx k es) as [i'|]; simplify_eq/=. by apply IH.
Qed.

Lemma key_idx_lookup k b es i : NoDup es.*1 → es !! i = Some (k, b) → key_idx k es = Some i.
Proof.
  revert i. induction es as [|[k' b'] es IH]; intros i ND H; [done|].
  simpl in *. apply NoDup_cons in ND as [Hni ND]. destruct i as [|i]; simplify_eq/=.
  - by rewrite Z.eqb_refl.
  - destruct (Z.eqb_spec k' k) as [->|].
    + exfalso. apply Hni. apply list_elem_of_fmap. exists (k, b). split; [done|].
      by apply list_elem_of_lookup_2 in H.
    + by rewrite (IH i).
Qed.

Lemma key_idx_None k es : key_idx k es = None ↔ k ∉ es.*1.
Proof.
  induction es as [|[k' b] es IH]; simpl; [split; [by intros _ ?%elem_of_nil|done]|].
  rewrite not_elem_of_cons, <- IH. destruct (Z.eqb_spec k' k) as [->|].
  - split; [done|]. by intros [[] _].
  - rewrite fmap_None. split; [by split; [congruence|]|by intros []].
Qed.

Lemma find_loop_rep c ls es k m j p :
  list_rep c ls es → (j + m)%nat = length ls → ((0 < m)%nat → p = ls !! j) →
  find_loop (nodes c) k m p =
    Ok (match key_idx k (drop j es) with Some i => ls !! (j + i)%nat | None => None end).
Proof.
  intros R. revert j p. induction m as [|m IH]; intros j p Hm Hp.
  - rewrite drop_ge by (rewrite <- (rep_len _ _ _ R); lia). done.
  - destruct (lookup_lt_is_Some_2 ls j) as [l Hl]; [lia|].
    destruct (rep_node _ _ _ _ _ R Hl) as (e & He & Hn).
    rewrite (drop_S _ _ _ He). simpl. rewrite Hp, Hl by lia. unfold load. simpl. rewrite Hn. simpl.
    destruct (fst e =? k); [by rewrite Nat.add_0_r, Hl|].
    rewrite (IH (S j)); [|lia|].
    + destruct (key_idx k (drop (S j) es)); simpl; [f_equal; f_equal; lia|done].
    + intros ?. unfold ni. by rewrite decide_True by lia.
Qed.

Lemma find_rep c ls es k :
  list_rep c ls es →
  find c k = Ok (match key_idx k es with Some i => ls !! i | None => None end).
Proof.
  intros R. unfold find. rewrite (find_loop_rep c ls es k _ 0 _ R).
  - by rewrite drop_0.
  - rewrite (rep_size _ _ _ R), (rep_len _ _ _ R). lia.
  - intros _. apply (rep_head _ _ _ R).
Qed.

Lemma key_idx_loc c ls es k i :
  list_rep c ls es → key_idx k es = Some i → ∃ l b, ls !! i = Some l ∧ es !! i = Some (k, b).
Proof.
  intros R H. destruct (key_idx_Some _ _ _ H) as [b Hb].
  destruct (lookup_lt_is_Some_2 ls i) as [l Hl].
  { rewrite (rep_len _ _ _ R). by apply lookup_lt_Some in Hb. }
  eauto.
Qed.

Lemma hasKey_rep c ls es k :
  list_rep c ls es → hasKey c k = Ok (bool_decide (is_Some (key_idx k es))).
Proof.
  intros R. unfold hasKey. rewrite (find_rep _ _ _ _ R). simpl. f_equal.
  destruct (key_idx k es) as [i|] eqn:E; [|done].
  by destruct (key_idx_loc _ _ _ _ _ R E) as (l & b & -> & _).
Qed.

(** ** insert *)
Lemma store_alter h l f nd :
  h !! l = Some nd → store (Some l) f h = Ok (alter f l h).
Proof.
  intros H. unfold store. simpl. rewrite H. simpl. f_equal.
  apply map_eq. intros i. destruct (decide (i = l)) as [->|].
  - by rewrite lookup_insert_eq, lookup_alter_eq, H.
  - by rewrite lookup_insert_ne, lookup_alter_ne.
Qed.

Lemma load_run h l nd : h !! l = Some nd → load h (Some l) = Ok nd.
Proof. intros H. unfold load. simpl. by rewrite H. Qed.

Lemma alter_is_Some (h : gmap loc node) l l' f :
  is_Some (alter f l' h !! l) ↔ is_Some (h !! l).
Proof.
  destruct (decide (l = l')) as [->|]; [|by rewrite lookup_alter_ne].
  rewrite lookup_alter_eq. apply fmap_is_Some.
Qed.

Lemma NoDup_lookup_ne {A} (l : list A) i j x y :
  NoDup l → l !! i = Some x → l !! j = Some y → i ≠ j → x ≠ y.
Proof. intros ND Hi Hj Hne ->. by apply Hne, (NoDup_lookup l i j y). Qed.

Lemma alter_twice (h : gmap loc node) l f :
  (∀ nd, f (f nd) = f nd) → alter f l (alter f l h) = alter f l h.
Proof.
  intros Hf. apply map_eq. intros i. destruct (decide (i = l)) as [->|].
  - rewrite !lookup_alter_eq. destruct (h !! l); simpl; by rewrite ?Hf.
  - by rewrite !lookup_alter_ne.
Qed.

Lemma list_rep_frame c c' ls es :
  list_rep c ls es → (∀ x, x ∈ ls → nodes c' !! x = nodes c !! x) →
  head c' = head c → tail c' = tail c → csize c' = csize c → capacity c' = capacity c →
  (∀ l, is_Some (nodes c' !! l) → (l < fresh c')%nat) →
  list_rep c' ls es.
Proof.
  intros [] HN Hh Ht Hs Hc HF. split; try congruence; [|done].
  intros j l e Hl He. rewrite HN by (by apply list_elem_of_lookup_2 in Hl). by apply rep_nodes0.
Qed.

(** Linking a fresh node [new] between the tail [tl] and the head [hd]. *)
Definition link_heap (new hd tl : loc) (h : gmap loc node) : gmap loc node :=
  alter (set_prev (Some new)) hd (alter (set_next (Some new)) tl
    (alter (set_prev (Some tl)) new (alter (set_next (Some hd)) new h))).

Lemma insert_run c ls es k v hd tl :
  list_rep c ls es → key_idx k es = None → Z.of_nat (length es) < capacity c →
  head c = Some hd → tail c = Some tl → hd ∈ ls → tl ∈ ls →
  insert k v c = Ok (None, MkCList
    (link_heap (fresh c) hd tl (<[fresh c := MkNode k v None None]> (nodes c)))
    (S (fresh c)) (Some hd) (Some (fresh c)) (csize c + 1) (capacity c)).
Proof.
  intros R Hk Hc Eh Et Hhd Htl. pose proof (rep_fresh_notin _ _ _ R) as HF.
  assert (HI : ∀ l, l ∈ ls → is_Some (<[fresh c:=MkNode k v None None]> (nodes c) !! l)).
  { intros l Hl. apply lookup_insert_is_Some'. right.
    apply list_elem_of_lookup in Hl as [j Hj].
    destruct (rep_node _ _ _ _ _ R Hj) as (e & _ & ->). done. }
  assert (0 < length es)%nat as Hpos.
  { rewrite <- (rep_len _ _ _ R). destruct ls; [by apply elem_of_nil in Hhd|simpl; lia]. }
  pose proof (rep_size _ _ _ R) as Hsz. unfold insert.
  destruct (Z.eqb_spec (csize c) (capacity c)); [lia|].
  destruct (Z.eqb_spec (csize c) 0); [lia|].
  rewrite (find_rep _ ls es).
  2:{ eapply list_rep_frame; [exact R|..]; try done.
      - intros x Hx. simpl. rewrite lookup_insert_ne; [done|]. by intros <-.
      - intros l. simpl. rewrite lookup_insert_is_Some'. intros [->|H]; [lia|].
        apply (rep_fresh _ _ _ R) in H. lia. }
  rewrite Hk. simpl. rewrite Eh, Et.
  set (h := <[fresh c:=_]> (nodes c)) in *.
  destruct (HI hd Hhd) as [ndh Hh]. destruct (HI tl Htl) as [ndt Ht].
  assert (fresh c ≠ hd) by (by intros E; rewrite E in HF).
  assert (fresh c ≠ tl) by (by intros E; rewrite E in HF).
  erewrite store_alter by apply lookup_insert_eq. simpl.
  erewrite store_alter by (by rewrite lookup_alter_eq; subst h; rewrite lookup_insert_eq). simpl.
  erewrite store_alter by (by rewrite !lookup_alter_ne). simpl.
  set (h3 := alter (set_next (Some (fresh c))) tl _).
  assert (is_Some (h3 !! hd)) as [ndh3 Hh3].
  { subst h3. rewrite !alter_is_Some. rewrite Hh. done. }
  rewrite bool_decide_decide. destruct (decide (Some hd = Some tl)) as [E|E].
  - injection E as ->. erewrite store_alter by done. simpl.
    assert (E4 : alter (set_next (Some (fresh c))) tl h3 = h3) by (by apply alter_twice).
    rewrite E4. erewrite store_alter by done. simpl. rewrite u32_small; [done|].
    pose proof (rep_cap _ _ _ R). unfold in_u32. lia.
  - simpl. erewrite store_alter by done. simpl. rewrite u32_small; [done|].
    pose proof (rep_cap _ _ _ R). unfold in_u32. lia.
Qed.

Lemma NoDup_snoc {A} (l : list A) x : NoDup l → x ∉ l → NoDup (l ++ [x]).
Proof.
  intros. apply NoDup_app. split_and!; [done| |apply NoDup_singleton].
  intros y Hy ->%list_elem_of_singleton. done.
Qed.

Lemma link_heap_rep c ls es k v hd tl :
  list_rep c ls es → k ∉ es.*1 → Z.of_nat (length es) < capacity c →
  ls !! O = Some hd → ls !! (length ls - 1)%nat = Some tl →
  list_rep (MkCList
    (link_heap (fresh c) hd tl (<[fresh c := MkNode k v None None]> (nodes c)))
    (S (fresh c)) (Some hd) (Some (fresh c)) (csize c + 1) (capacity c))
    (ls ++ [fresh c]) (es ++ [(k, v)]).
Proof.
  intros R Hk Hc Hhd Htl. pose proof (rep_fresh_notin _ _ _ R) as HF.
  assert (Hpos : (0 < length ls)%nat) by (by apply lookup_lt_Some in Hhd).
  pose proof (list_elem_of_lookup_2 _ _ _ Hhd) as Ihd.
  pose proof (list_elem_of_lookup_2 _ _ _ Htl) as Itl.
  assert (fresh c ≠ hd) by (by intros E; rewrite E in HF).
  assert (fresh c ≠ tl) by (by intros E; rewrite E in HF).
  split; simpl.
  - rewrite !length_app, (rep_len _ _ _ R). done.
  - apply NoDup_snoc; [apply (rep_locs _ _ _ R)|done].
  - rewrite fmap_app. apply NoDup_snoc; [apply (rep_keys _ _ _ R)|done].
  - intros j l e Hl He. unfold link_heap.
    rewrite length_app in *. simpl.
    destruct (decide (j = length ls)) as [->|Hj].
    + rewrite list_lookup_middle in Hl by done.
      rewrite (rep_len _ _ _ R), list_lookup_middle in He by done. simplify_eq.
      rewrite !lookup_alter_ne, !lookup_alter_eq, lookup_insert_eq by done. simpl.
      unfold set_next, set_prev, ni, pi. simpl.
      rewrite decide_False, decide_False by lia.
      rewrite !lookup_app_l by lia. rewrite Hhd.
      replace (length ls + 1 - 1 - 0)%nat with (length ls) by lia. by rewrite Htl.
    + assert (Hlt : (j < length ls)%nat).
      { apply lookup_lt_Some in Hl. rewrite length_app in Hl. simpl in Hl. lia. }
      rewrite lookup_app_l in Hl by done.
      rewrite lookup_app_l in He by (rewrite <- (rep_len _ _ _ R); done).
      pose proof (rep_nodes _ _ _ R j l e Hl He) as Hn.
      assert (l ≠ fresh c) by (intros ->; by apply HF, (list_elem_of_lookup_2 _ _ _ Hl)).
      assert (E0 : l = hd ↔ j = O).
      { split; [intros ->; by eapply NoDup_lookup; [apply (rep_locs _ _ _ R)|..]|].
        intros ->. congruence. }
      assert (E1 : l = tl ↔ j = (length ls - 1)%nat).
      { split; [intros ->; by eapply NoDup_lookup; [apply (rep_locs _ _ _ R)|..]|].
        intros ->. congruence. }
      assert (Hmid : <[fresh c:=MkNode k v None None]> (nodes c) !! l = nodes c !! l)
        by (by rewrite lookup_insert_ne).
      assert (Hnx : (ls ++ [fresh c]) !! ni (length ls + 1) j =
                if decide (l = tl) then Some (fresh c) else ls !! ni (length ls) j).
      { unfold ni. rewrite decide_True by lia. destruct (decide (l = tl)) as [Hd|Hd].
        - apply list_lookup_middle. lia.
        - rewrite decide_True by lia. apply lookup_app_l. lia. }
      assert (Hpv : (ls ++ [fresh c]) !! pi (length ls + 1) j =
                if decide (l = hd) then Some (fresh c) else ls !! pi (length ls) j).
      { unfold pi. destruct (decide (l = hd)) as [Hd|Hd].
        - rewrite decide_True by lia. apply list_lookup_middle. lia.
        - rewrite !decide_False by lia. apply lookup_app_l. lia. }
      rewrite Hnx, Hpv. clear Hnx Hpv.
      rewrite Hn in Hmid.
      destruct (decide (l = hd)) as [<-|], (decide (l = tl)) as [<-|];
        repeat first [rewrite lookup_alter_eq | rewrite lookup_alter_ne by congruence];
        by rewrite Hmid.
  - rewrite lookup_app_l by done. done.
  - rewrite length_app. simpl. rewrite list_lookup_middle by lia. done.
  - rewrite length_app, (rep_size _ _ _ R). simpl. lia.
  - rewrite length_app. simpl. pose proof (rep_cap _ _ _ R). lia.
  - intros l. unfold link_heap. rewrite !alter_is_Some, lookup_insert_is_Some'.
    intros [->|Hl]; [lia|]. apply (rep_fresh _ _ _ R) in Hl. lia.
Qed.

Lemma link_heap_frame new hd tl h x nd :
  x ≠ hd → x ≠ tl → x ≠ new → link_heap new hd tl (<[new:=nd]> h) !! x = h !! x.
Proof. intros. unfold link_heap. by rewrite !lookup_alter_ne, lookup_insert_ne. Qed.

Lemma insert_rep c ls es k v :
  list_rep c ls es → key_idx k es = None → Z.of_nat (length es) < capacity c →
  ∃ c', insert k v c = Ok (None, c') ∧ list_rep c' (ls ++ [fresh c]) (es ++ [(k, v)]) ∧
    capacity c' = capacity c ∧
    ∀ x, x ∉ ls → x ≠ fresh c → nodes c' !! x = nodes c !! x.
Proof.
  intros R Hk Hc. destruct ls as [|l0 ls'] eqn:Els.
  - assert (es = []) as -> by (apply length_zero_iff_nil; by rewrite <- (rep_len _ _ _ R)).
    pose proof (rep_size _ _ _ R) as Hsz. unfold insert. simpl in *.
    destruct (Z.eqb_spec (csize c) (capacity c)); [lia|]. rewrite Hsz. simpl.
    erewrite store_alter by apply lookup_insert_eq. simpl.
    erewrite store_alter by (by rewrite lookup_alter_eq, lookup_insert_eq). simpl.
    eexists. split_and!; [done| |done|].
    + pose proof (rep_cap _ _ _ R) as HC. split; simpl; try done.
      * apply NoDup_singleton.
      * apply NoDup_singleton.
      * intros [|j] l e Hl He; [|by destruct j]. simplify_eq/=.
        by rewrite !lookup_alter_eq, lookup_insert_eq.
      * simpl in HC. lia.
      * intros l. rewrite !alter_is_Some, lookup_insert_is_Some'.
        intros [->|Hl]; [lia|]. apply (rep_fresh _ _ _ R) in Hl. lia.
    + intros x _ Hx. simpl. by rewrite !lookup_alter_ne, lookup_insert_ne.
  - rewrite <- Els in *. assert (Hhd : ls !! O = Some l0) by (by rewrite Els).
    assert (is_Some (ls !! (length ls - 1)%nat)) as [tl Htl].
    { apply lookup_lt_is_Some. rewrite Els. simpl. lia. }
    pose proof (list_elem_of_lookup_2 _ _ _ Hhd) as Ihd.
    pose proof (list_elem_of_lookup_2 _ _ _ Htl) as Itl.
    eexists. split_and!.
    + apply (insert_run c ls es k v l0 tl); try done; [by rewrite (rep_head _ _ _ R)|].
      by rewrite (rep_tail _ _ _ R).
    + apply link_heap_rep; try done. by apply key_idx_None.
    + done.
    + intros x Hx Hf. simpl. apply link_heap_frame; [| |done]; intros ->; done.
Qed.

(** ** remove *)
Local Definition del_idx (i j : nat) : nat := if decide (j < i)%nat then j else S j.

Lemma lookup_del {A} (l : list A) i j : delete i l !! j = l !! del_idx i j.
Proof.
  unfold del_idx. rewrite list_lookup_delete. by destruct (decide (j < i)%nat).
Qed.

Lemma ni_del n i j : (2 ≤ n)%nat → (i < n)%nat → (j < n - 1)%nat →
  del_idx i (ni (n - 1) j) = if decide (del_idx i j = pi n i) then ni n i else ni n (del_idx i j).
Proof. unfold del_idx, ni, pi. intros. repeat case_decide; lia. Qed.

Lemma pi_del n i j : (2 ≤ n)%nat → (i < n)%nat → (j < n - 1)%nat →
  del_idx i (pi (n - 1) j) = if decide (del_idx i j = ni n i) then pi n i else pi n (del_idx i j).
Proof. unfold del_idx, ni, pi. intros. repeat case_decide; lia. Qed.

Lemma ni_lt n i : (i < n)%nat → (ni n i < n)%nat.
Proof. unfold ni. case_decide; lia. Qed.
Lemma pi_lt n i : (i < n)%nat → (pi n i < n)%nat.
Proof. unfold pi. case_decide; lia. Qed.
Lemma ni_ne n i : (2 ≤ n)%nat → (i < n)%nat → ni n i ≠ i.
Proof. unfold ni. case_decide; lia. Qed.
Lemma pi_ne n i : (2 ≤ n)%nat → (i < n)%nat → pi n i ≠ i.
Proof. unfold pi. case_decide; lia. Qed.

(** Unlinking the node between [pv] and [nx]. *)
Definition unlink_heap (pv nx : loc) (h : gmap loc node) : gmap loc node :=
  alter (set_next (Some nx)) pv (alter (set_prev (Some pv)) nx h).

Lemma NoDup_delete {A} (l : list A) i : NoDup l → NoDup (delete i l).
Proof. intros H. eapply sublist_NoDup; [done|]. apply sublist_delete. Qed.

Lemma unlink_heap_nodes c ls es i pv nx j l e :
  list_rep c ls es → (2 ≤ length ls)%nat → (i < length ls)%nat →
  ls !! ni (length ls) i = Some nx → ls !! pi (length ls) i = Some pv →
  delete i ls !! j = Some l → delete i es !! j = Some e →
  unlink_heap pv nx (nodes c) !! l =
    Some (MkNode (fst e) (snd e) (delete i ls !! ni (length ls - 1) j)
                                 (delete i ls !! pi (length ls - 1) j)).
Proof.
  intros R Hn Hi Hnx Hpv Hl He.
  assert (Hj : (j < length ls - 1)%nat).
  { apply lookup_lt_Some in Hl. rewrite length_delete in Hl; [done|].
    by apply lookup_lt_is_Some. }
  rewrite !lookup_del in *.
  pose proof (rep_nodes _ _ _ R _ _ _ Hl He) as Hnd. unfold unlink_heap.
  rewrite ni_del, pi_del by done.
  assert (E0 : pv = l ↔ del_idx i j = pi (length ls) i).
  { split; [intros ->; eapply NoDup_lookup; [apply (rep_locs _ _ _ R)|done..]|congruence]. }
  assert (E1 : nx = l ↔ del_idx i j = ni (length ls) i).
  { split; [intros ->; eapply NoDup_lookup; [apply (rep_locs _ _ _ R)|done..]|congruence]. }
  rewrite (decide_ext _ _ _ _ (iff_sym E0)), (decide_ext _ _ _ _ (iff_sym E1)).
  destruct (decide (pv = l)) as [->|], (decide (nx = l)) as [->|];
    repeat first [rewrite lookup_alter_eq | rewrite lookup_alter_ne by congruence];
    rewrite Hnd; simpl; unfold set_prev, set_next; simpl; congruence.
Qed.

Lemma fmap_delete_list {A B} (f : A → B) (l : list A) i : f <$> delete i l = delete i (f <$> l).
Proof.
  apply list_eq. intros j. by rewrite list_lookup_fmap, !lookup_del, list_lookup_fmap.
Qed.

Lemma unlink_heap_rep c ls es i pv nx n' hd' tl' :
  list_rep c ls es → (2 ≤ length ls)%nat → (i < length ls)%nat →
  ls !! ni (length ls) i = Some nx → ls !! pi (length ls) i = Some pv →
  hd' = delete i ls !! O → tl' = delete i ls !! (length ls - 2)%nat →
  n' = csize c - 1 →
  list_rep (MkCList (unlink_heap pv nx (nodes c)) (fresh c) hd' tl' n' (capacity c))
    (delete i ls) (delete i es).
Proof.
  intros R Hn Hi Hnx Hpv -> -> ->.
  assert (HL : length (delete i ls) = (length ls - 1)%nat).
  { apply length_delete. by apply lookup_lt_is_Some. }
  pose proof (rep_len _ _ _ R) as HE. pose proof (rep_cap _ _ _ R) as HC.
  assert (HLe : length (delete i es) = (length es - 1)%nat).
  { apply length_delete. apply lookup_lt_is_Some. lia. }
  split; simpl.
  - lia.
  - apply NoDup_delete, (rep_locs _ _ _ R).
  - rewrite fmap_delete_list. apply NoDup_delete, (rep_keys _ _ _ R).
  - intros j l e Hl He. rewrite HL. by eapply unlink_heap_nodes.
  - done.
  - rewrite HL. f_equal. lia.
  - rewrite (rep_size _ _ _ R), HLe. lia.
  - lia.
  - intros l. unfold unlink_heap. rewrite !alter_is_Some. apply (rep_fresh _ _ _ R).
Qed.

Lemma remove_rep c ls es k i l :
  list_rep c ls es → key_idx k es = Some i → ls !! i = Some l →
  ∃ c', remove k c = Ok c' ∧ list_rep c' (delete i ls) (delete i es) ∧
    capacity c' = capacity c ∧ nodes c' !! l = nodes c !! l ∧
    ∀ x, x ∉ ls → nodes c' !! x = nodes c !! x.
Proof.
  intros R Hk Hl. pose proof (rep_size _ _ _ R) as Hsz. pose proof (rep_len _ _ _ R) as HE.
  pose proof (rep_cap _ _ _ R) as HC.
  assert (Hi : (i < length ls)%nat) by (by apply lookup_lt_Some in Hl).
  unfold remove. rewrite (find_rep _ _ _ _ R), Hk, Hl. simpl.
  destruct (Z.eqb_spec (csize c) 1) as [E1|E1].
  - eexists. split_and!; [done| |done..].
    destruct ls as [|l0 [|]]; simpl in *; try lia. destruct i; [|lia].
    destruct es as [|e0 [|]]; simpl in *; try lia.
    rewrite u32_small by (unfold in_u32; lia). split; simpl; try done; try lia.
    + apply NoDup_nil_2.
    + apply NoDup_nil_2.
    + apply (rep_fresh _ _ _ R).
  - assert (Hn : (2 ≤ length ls)%nat) by lia.
    destruct (lookup_lt_is_Some_2 ls (ni (length ls) i)) as [nx Hnx]; [by apply ni_lt|].
    destruct (lookup_lt_is_Some_2 ls (pi (length ls) i)) as [pv Hpv]; [by apply pi_lt|].
    destruct (rep_node _ _ _ _ _ R Hl) as (e & He & Hnd).
    destruct (rep_node _ _ _ _ _ R Hnx) as (? & _ & Hndn).
    destruct (rep_node _ _ _ _ _ R Hpv) as (? & _ & Hndp).
    assert (nx ≠ l) by (eapply NoDup_lookup_ne; [apply (rep_locs _ _ _ R)|exact Hnx|exact Hl|by apply ni_ne]).
    assert (pv ≠ l) by (eapply NoDup_lookup_ne; [apply (rep_locs _ _ _ R)|exact Hpv|exact Hl|by apply pi_ne]).
    assert (HH : (if bool_decide (Some l = head c) then nd ← load (nodes c) (head c); Ok (next nd)
                  else Ok (head c)) = Ok (delete i ls !! O)).
    { rewrite (rep_head _ _ _ R), lookup_del. unfold del_idx. case_bool_decide as E.
      - assert (i = O) as -> by (by apply (NoDup_lookup ls _ _ l (rep_locs _ _ _ R))).
        unfold load. rewrite <- E. simpl. rewrite Hnd. simpl. unfold ni. by rewrite decide_True by lia.
      - destruct (decide (0 < i)%nat); [done|]. assert (i = O) as -> by lia. by rewrite Hl in E. }
    assert (HT : (if bool_decide (Some l = tail c) then nd ← load (nodes c) (tail c); Ok (prev nd)
                  else Ok (tail c)) = Ok (delete i ls !! (length ls - 2)%nat)).
    { clear HH. rewrite (rep_tail _ _ _ R), lookup_del. unfold del_idx. case_bool_decide as E.
      - assert (i = (length ls - 1)%nat) as ->
          by (by apply (NoDup_lookup ls _ _ l (rep_locs _ _ _ R))).
        unfold load. rewrite <- E. simpl. rewrite Hnd. simpl. unfold pi.
        rewrite decide_False, decide_True by lia. do 2 f_equal. lia.
      - destruct (decide (length ls - 2 < i)%nat).
        + assert (i = (length ls - 1)%nat) as -> by lia. congruence.
        + do 2 f_equal. lia. }
    rewrite HH. simpl. rewrite HT. simpl. rewrite (load_run _ _ _ Hnd). simpl.
    rewrite Hnx, Hpv. erewrite store_alter by done. simpl.
    erewrite load_run by (by rewrite lookup_alter_ne). simpl. rewrite Hnx, Hpv.
    destruct (alter_is_Some (nodes c) pv nx (set_prev (Some pv))) as [_ Hp].
    destruct Hp as [ndp' Hp]; [by rewrite Hndp|].
    erewrite store_alter by done. simpl. rewrite u32_small by (unfold in_u32; lia).
    eexists. split_and!; [done| |done| |].
    + by apply unlink_heap_rep.
    + simpl. by rewrite !lookup_alter_ne.
    + intros y Hy. simpl. apply list_elem_of_lookup_2 in Hnx, Hpv.
      rewrite !lookup_alter_ne; [done|..]; intros ->; done.
Qed.

(** ** The hand *)
Lemma deref_hand_rep c ls es p h :
  list_rep c ls es → hand_rep c ls p h → (0 < length ls)%nat →
  deref_hand (MkClock c p) = Ok (ls !! h) ∧ (h < length ls)%nat.
Proof.
  intros R H Hn. inversion H as [? E| |x nd ? Hx Hnd Hnext Hlt]; subst; simpl in *.
  - lia.
  - split; [|done]. unfold deref_hand. simpl. f_equal. apply (rep_head _ _ _ R).
  - split; [|done]. unfold deref_hand. simpl. rewrite (load_run _ _ _ Hnd). simpl. by f_equal.
Qed.

(** Unlinking the node at the hand, which moves to the unlinked node's [next]. *)
Lemma hand_unlink_at c c' ls es i l :
  list_rep c ls es → ls !! i = Some l → nodes c' !! l = nodes c !! l →
  hand_rep c' (delete i ls) (AddrNext l) (unlink_hand (length ls) i i).
Proof.
  intros R Hl HN. pose proof (lookup_lt_Some _ _ _ Hl).
  assert (HL : length (delete i ls) = (length ls - 1)%nat) by (by apply length_delete).
  destruct (rep_node _ _ _ _ _ R Hl) as (e & _ & Hnd).
  unfold unlink_hand. rewrite decide_False, decide_True by lia.
  destruct (decide (length ls = 1%nat)) as [E|E].
  - rewrite decide_False by lia. apply hand_empty. apply length_zero_iff_nil. lia.
  - eapply hand_next; [|by rewrite HN| |].
    + intros (j & Hj)%list_elem_of_lookup. rewrite lookup_del in Hj.
      apply (NoDup_lookup ls _ i l (rep_locs _ _ _ R)) in Hj; [|done].
      unfold del_idx in Hj. case_decide; lia.
    + simpl. rewrite lookup_del. f_equal. unfold ni, del_idx. repeat case_decide; lia.
    + rewrite HL. case_decide; lia.
Qed.

(** Unlinking a node the hand does not stand on. *)
Lemma hand_unlink_ne c c' ls es i p h :
  list_rep c ls es → hand_rep c ls p h → i ≠ h → (i < length ls)%nat →
  (∀ x, x ∉ ls → nodes c' !! x = nodes c !! x) →
  hand_rep c' (delete i ls) p (unlink_hand (length ls) i h).
Proof.
  intros R H Hne Hi HN.
  assert (HL : length (delete i ls) = (length ls - 1)%nat).
  { apply length_delete. by apply lookup_lt_is_Some. }
  unfold unlink_hand. rewrite (decide_False (P := i = h)) by done.
  inversion H as [? E| |x nd ? Hx Hnd Hnext Hlt]; subst.
  - simpl in Hi. lia.
  - rewrite decide_False by lia. apply hand_head.
  - eapply hand_next; [|by rewrite HN by done| |].
    + intros (j & Hj)%list_elem_of_lookup. rewrite lookup_del in Hj.
      by apply Hx, (list_elem_of_lookup_2 _ _ _ Hj).
    + rewrite Hnext, lookup_del. f_equal. unfold del_idx. repeat case_decide; lia.
    + rewrite HL. case_decide; lia.
Qed.

(** ** Refinement of the abstract clock *)
Lemma list_rep_set_value c ls es h l k b v :
  list_rep c ls es → ls !! h = Some l → es !! h = Some (k, b) →
  list_rep (set_nodes (alter (set_value v) l (nodes c)) c) ls (<[h := (k, v)]> es).
Proof.
  intros R Hl He. pose proof (rep_len _ _ _ R). pose proof (lookup_lt_Some _ _ _ He).
  split; simpl.
  - by rewrite length_insert.
  - apply (rep_locs _ _ _ R).
  - rewrite list_fmap_insert, list_insert_id; [apply (rep_keys _ _ _ R)|].
    by rewrite list_lookup_fmap, He.
  - intros j l' e Hl' He'. destruct (decide (j = h)) as [->|Hj].
    + rewrite list_lookup_insert_eq in He' by done. simplify_eq.
      rewrite lookup_alter_eq, (rep_nodes _ _ _ R _ _ _ Hl He). done.
    + rewrite list_lookup_insert_ne in He' by done.
      rewrite lookup_alter_ne; [by apply (rep_nodes _ _ _ R)|].
      by eapply (NoDup_lookup_ne ls h j _ _ (rep_locs _ _ _ R)).
  - apply (rep_head _ _ _ R).
  - apply (rep_tail _ _ _ R).
  - by rewrite length_insert, (rep_size _ _ _ R).
  - rewrite length_insert. apply (rep_cap _ _ _ R).
  - intros l'. rewrite alter_is_Some. apply (rep_fresh _ _ _ R).
Qed.

Lemma delete_insert_list {A} (l : list A) i x : delete i (<[i := x]> l) = delete i l.
Proof.
  apply list_eq. intros j. rewrite !lookup_del. apply list_lookup_insert_ne.
  unfold del_idx. case_decide; lia.
Qed.

(** The last iteration of [Victim]: the reference bit is clear. *)
Lemma Victim_clear c ls es h l k p fuel :
  list_rep c ls es → ls !! h = Some l → es !! h = Some (k, false) →
  ∃ r', Victim_loop (S fuel) (Some l) (MkClock c p) = Ok (Some k, r') ∧
    clock_rep r' (MkRing (delete h es) (unlink_hand (length es) h h)) ∧
    capacity (cList r') = capacity c.
Proof.
  intros R Hl He. pose proof (rep_nodes _ _ _ R _ _ _ Hl He) as Hnd.
  pose proof (key_idx_lookup _ _ _ _ (rep_keys _ _ _ R) He) as Hk.
  destruct (remove_rep _ _ _ _ _ _ R Hk Hl) as (c' & Hc' & R' & HC & HN & _).
  simpl. rewrite (load_run _ _ _ Hnd). simpl. rewrite Hc'. simpl.
  eexists. split_and!; [done| |done].
  exists (delete h ls). split; [done|]. simpl. rewrite <- (rep_len _ _ _ R).
  by eapply hand_unlink_at.
Qed.

Lemma Victim_refines r a :
  clock_rep r a →
  ∃ r', Victim r = Ok (fst (ring_Victim a), r') ∧ clock_rep r' (snd (ring_Victim a)) ∧
    capacity (cList r') = capacity (cList r).
Proof.
  destruct r as [c p], a as [es h]. intros (ls & R & H). simpl in *.
  pose proof (rep_size _ _ _ R) as Hsz. pose proof (rep_len _ _ _ R) as HE.
  unfold Victim, ring_Victim. simpl. destruct (Z.eqb_spec (csize c) 0) as [E0|E0].
  - assert (es = []) as -> by (apply length_zero_iff_nil; lia). simpl.
    exists (MkClock c p). split_and!; [done|by exists ls|done].
  - destruct (deref_hand_rep _ _ _ _ _ R H) as [-> Hh]; [lia|].
    destruct (lookup_lt_is_Some_2 ls h Hh) as [l Hl].
    destruct (lookup_lt_is_Some_2 es h) as [[k b] He]; [lia|].
    rewrite Hl, He. cbn [res_mbind mbind res_bind deref fst snd]. destruct b; [|by apply (Victim_clear c ls es h l k p 1)].
    pose proof (rep_nodes _ _ _ R _ _ _ Hl He) as Hnd.
    pose proof (list_rep_set_value _ _ _ _ _ _ _ false R Hl He) as R1.
    destruct (Victim_clear _ ls _ h l k (AddrNext l) 0 R1 Hl) as (r' & Hr' & HR & HC).
    { apply list_lookup_insert_eq. lia. }
    exists r'. rewrite delete_insert_list, length_insert in HR.
    split_and!; [|done|done]. rewrite <- Hr'.
    unfold Victim_fuel. remember 1%nat as fuel eqn:Ef. cbn [Victim_loop deref cList].
    rewrite (load_run _ _ _ Hnd). cbn [mbind res_mbind res_bind value snd]. erewrite store_alter by done. by rewrite Ef.
Qed.

Lemma Pin_refines k r a :
  clock_rep r a →
  ∃ r', Pin k r = Ok r' ∧ clock_rep r' (ring_Pin k a) ∧ capacity (cList r') = capacity (cList r).
Proof.
  destruct r as [c p], a as [es h]. intros (ls & R & H). simpl in *.
  unfold Pin, ring_Pin. simpl. rewrite (find_rep _ _ _ _ R).
  destruct (key_idx k es) as [i|] eqn:Hk; simpl.
  2:{ exists (MkClock c p). split_and!; [done|by exists ls|done]. }
  destruct (key_idx_loc _ _ _ _ _ R Hk) as (l & b & Hl & He). rewrite Hl.
  pose proof (lookup_lt_Some _ _ _ Hl). pose proof (rep_len _ _ _ R) as HE.
  destruct (deref_hand_rep _ _ _ _ _ R H) as [-> Hh]; [lia|]. simpl.
  destruct (remove_rep _ _ _ _ _ _ R Hk Hl) as (c' & Hc' & R' & HC & HN & HF).
  case_bool_decide as E.
  - assert (h = i) as -> by (by apply (NoDup_lookup ls _ _ l (rep_locs _ _ _ R))).
    rewrite E. destruct (rep_node _ _ _ _ _ R Hl) as (e & _ & Hnd). simpl.
    rewrite (load_run _ _ _ Hnd). simpl. rewrite Hc'. simpl.
    eexists. split_and!; [done| |done]. exists (delete i ls). split; [done|]. simpl.
    rewrite <- HE. by eapply hand_unlink_at.
  - rewrite Hc'. simpl. eexists. split_and!; [done| |done]. exists (delete i ls).
    split; [done|]. simpl. rewrite <- HE. eapply hand_unlink_ne; try done. by intros ->.
Qed.

Lemma Unpin_refines k r a :
  clock_rep r a →
  ∃ r', Unpin k r = Ok r' ∧ clock_rep r' (ring_Unpin (Z.to_nat (capacity (cList r))) k a) ∧
    capacity (cList r') = capacity (cList r).
Proof.
  destruct r as [c p], a as [es h]. intros (ls & R & H). simpl in *.
  pose proof (rep_size _ _ _ R) as Hsz. pose proof (rep_len _ _ _ R) as HE.
  pose proof (rep_cap _ _ _ R) as HC.
  unfold Unpin, ring_Unpin. simpl. rewrite (hasKey_rep _ _ _ _ R). simpl.
  destruct (key_idx k es) as [i|] eqn:Hk.
  { rewrite decide_True by eauto. exists (MkClock c p). split_and!; [done|by exists ls|done]. }
  rewrite bool_decide_false by (by intros []).
  destruct (decide (Z.of_nat (length es) = capacity c)) as [Ef|Ef].
  - rewrite decide_True by (right; lia). unfold insert.
    destruct (Z.eqb_spec (csize c) (capacity c)); [|lia]. simpl. eexists.
    split_and!; [done| |done]. exists ls. split; [done|]. simpl.
    destruct (Z.eqb_spec (csize c) 1) as [E1|]; [|done].
    (* a list of one entry that is full: the hand moves to the head *)
    destruct ls as [|l0 [|]]; simpl in *; try lia.
    assert (h = O) as ->; [|apply hand_head].
    inversion H; simplify_eq/=; [done|lia].
  - rewrite decide_False by (intros [[]|]; [done|lia]).
    destruct (insert_rep c ls es k true R Hk) as (c' & -> & R' & HC' & HF); [lia|]. simpl.
    eexists. split_and!; [done| |done]. exists (ls ++ [fresh c]). split; [done|]. simpl.
    rewrite (rep_size _ _ _ R'), length_app. simpl.
    destruct (decide (es = [])) as [->|Hne]; [apply hand_head|].
    assert (0 < length es)%nat by (destruct es; [done|simpl; lia]).
    destruct (Z.eqb_spec (Z.of_nat (length es + 1)) 1); [lia|].
    inversion H as [? E| |x nd ? Hx Hnd Hnext Hlt]; subst.
    + simpl in *; lia.
    + apply hand_head.
    + assert (x ≠ fresh c).
      { intros ->. assert (fresh c < fresh c)%nat; [apply (rep_fresh _ _ _ R); eauto|lia]. }
      eapply hand_next; [|by rewrite HF| |].
      * intros [?|?%list_elem_of_singleton]%elem_of_app; done.
      * by rewrite lookup_app_l.
      * rewrite length_app. lia.
Qed.

(** ** Runs of the replacer *)
Inductive clock_op : Type := OpVictim | OpPin (k : Z) | OpUnpin (k : Z).

Definition run_op (o : clock_op) (r : ClockReplacer) : res (option Z * ClockReplacer) :=
  match o with
  | OpVictim => Victim r
  | OpPin k => r' ← Pin k r; Ok (None, r')
  | OpUnpin k => r' ← Unpin k r; Ok (None, r')
  end.
Definition ring_op (cap : nat) (o : clock_op) (a : ring) : option Z * ring :=
  match o with
  | OpVictim => ring_Victim a
  | OpPin k => (None, ring_Pin k a)
  | OpUnpin k => (None, ring_Unpin cap k a)
  end.

Fixpoint run_ops (os : list clock_op) (r : ClockReplacer) : res (list (option Z) * ClockReplacer) :=
  match os with
  | [] => Ok ([], r)
  | o :: os' =>
      p ← run_op o r; q ← run_ops os' (snd p); Ok (fst p :: fst q, snd q)
  end.
Fixpoint ring_ops (cap : nat) (os : list clock_op) (a : ring) : list (option Z) * ring :=
  match os with
  | [] => ([], a)
  | o :: os' =>
      let p := ring_op cap o a in
      let q := ring_ops cap os' (snd p) in (fst p :: fst q, snd q)
  end.

Lemma run_op_refines o r a :
  clock_rep r a →
  ∃ r', run_op o r = Ok (fst (ring_op (Z.to_nat (capacity (cList r))) o a), r') ∧
    clock_rep r' (snd (ring_op (Z.to_nat (capacity (cList r))) o a)) ∧
    capacity (cList r') = capacity (cList r).
Proof.
  intros H. destruct o as [|k|k]; simpl.
  - by apply Victim_refines.
  - destruct (Pin_refines k r a H) as (r' & -> & HR & HC). by exists r'.
  - destruct (Unpin_refines k r a H) as (r' & -> & HR & HC). by exists r'.
Qed.

Lemma NewClockReplacer_rep n : in_u32 n → clock_rep (NewClockReplacer n) (MkRing [] O).
Proof.
  intros Hn. exists []. split; [|by apply hand_empty].
  split; simpl; try done; try apply NoDup_nil_2.
  intros l [? H]. by rewrite lookup_empty in H.
Qed.

(** C32: the pointer implementation of the clock refines the abstract ring: any
    sequence of [Victim], [Pin] and [Unpin] on a new replacer runs without a
    nil dereference, every [Victim] loop ends within two iterations, and the
    victims are those of the ring, whose entries are at the end again exactly
    what the linked list holds. *)
Theorem clock_refines_ring n os :
  in_u32 n →
  ∃ r', run_ops os (NewClockReplacer n) =
      Ok (fst (ring_ops (Z.to_nat n) os (MkRing [] O)), r') ∧
    clock_rep r' (snd (ring_ops (Z.to_nat n) os (MkRing [] O))) ∧
    ReplacerSize r' = Z.of_nat (length (entries (snd (ring_ops (Z.to_nat n) os (MkRing [] O))))).
Proof.
  intros Hn. pose proof (NewClockReplacer_rep n Hn) as HR.
  assert (HC : capacity (cList (NewClockReplacer n)) = n) by done.
  revert HR HC. generalize (NewClockReplacer n) as r, (MkRing [] O) as a.
  induction os as [|o os IH]; intros r a HR HC; simpl.
  - exists r. split_and!; [done..|]. destruct HR as (ls & R & _). apply (rep_size _ _ _ R).
  - destruct (run_op_refines o r a HR) as (r1 & -> & HR1 & HC1). rewrite HC in HR1 |- *. simpl.
    destruct (IH r1 _ HR1) as (r2 & -> & HR2 & HS); [congruence|]. by exists r2.
Qed.

Lemma clock_refines_ring_witness :
  in_u32 3 ∧
  ∃ r', run_ops [OpUnpin 5; OpUnpin 6; OpUnpin 7; OpUnpin 8; OpPin 6; OpVictim; OpVictim; OpVictim]
          (NewClockReplacer 3) =
        Ok ([None; None; None; None; None; Some 5; Some 7; None], r').
Proof.
  assert (H : in_u32 3) by (unfold in_u32; lia). split; [exact H|].
  destruct (clock_refines_ring 3
    [OpUnpin 5; OpUnpin 6; OpUnpin 7; OpUnpin 8; OpPin 6; OpVictim; OpVictim; OpVictim] H)
    as (r' & E & _).
  exists r'. exact E.
Defined.

(** The ring without its reference bits. *)
Definition strip (a : ring) : list Z * nat := ((entries a).*1, hand a).

Lemma key_idx_strip k es es' : es.*1 = es'.*1 → key_idx k es = key_idx k es'.
Proof.
  revert es'. induction es as [|e es IH]; intros [|e' es'] E; try done.
  injection E as E1 E2. simpl. by rewrite (IH es'), E1.
Qed.

Lemma ring_unlink_strip i a a' : strip a = strip a' → strip (ring_unlink i a) = strip (ring_unlink i a').
Proof.
  unfold strip. simpl. intros [= E1 E2]. rewrite !fmap_delete_list, E1, E2.
  f_equal. f_equal. by rewrite <- (length_fmap fst), E1, length_fmap.
Qed.

Lemma ring_op_strip cap o a a' :
  strip a = strip a' →
  fst (ring_op cap o a) = fst (ring_op cap o a') ∧
  strip (snd (ring_op cap o a)) = strip (snd (ring_op cap o a')).
Proof.
  intros E. pose proof E as E'. unfold strip in E'. injection E' as E1 E2.
  assert (EL : length (entries a) = length (entries a')).
  { by rewrite <- (length_fmap fst), E1, length_fmap. }
  destruct o as [|k|k]; simpl.
  - unfold ring_Victim. rewrite E2.
    assert (EH : fst <$> entries a !! hand a' = fst <$> entries a' !! hand a').
    { by rewrite <- !list_lookup_fmap, E1. }
    destruct (entries a !! hand a') as [[k b]|], (entries a' !! hand a') as [[k' b']|];
      try discriminate EH; [|by split]. injection EH as ->.
    split; [done|]. by apply ring_unlink_strip.
  - split; [done|]. unfold ring_Pin. rewrite (key_idx_strip k _ _ E1).
    destruct (key_idx k (entries a')); [by apply ring_unlink_strip|done].
  - split; [done|]. unfold ring_Unpin. rewrite (key_idx_strip k _ _ E1), EL.
    case_decide; [done|]. unfold strip. simpl. rewrite !fmap_app, E1, E2.
    destruct (entries a), (entries a'); done.
Qed.

(** The reference bits have no influence: from two replacers that hold the
    same frames at the same hand, whatever their reference bits, every sequence
    of operations picks the same victims; no frame gets a second chance. *)
Theorem reference_bits_ignored os r1 r2 a1 a2 :
  clock_rep r1 a1 → clock_rep r2 a2 → strip a1 = strip a2 →
  capacity (cList r1) = capacity (cList r2) →
  ∃ out r1' r2', run_ops os r1 = Ok (out, r1') ∧ run_ops os r2 = Ok (out, r2').
Proof.
  revert r1 r2 a1 a2. induction os as [|o os IH]; intros r1 r2 a1 a2 H1 H2 E EC; simpl.
  { by exists [], r1, r2. }
  destruct (run_op_refines o r1 a1 H1) as (r1' & -> & HR1 & HC1).
  destruct (run_op_refines o r2 a2 H2) as (r2' & -> & HR2 & HC2).
  rewrite EC in *. simpl.
  destruct (ring_op_strip (Z.to_nat (capacity (cList r2))) o a1 a2 E) as [EO ES].
  destruct (IH _ _ _ _ HR1 HR2 ES) as (out & r1'' & r2'' & -> & ->); [congruence|].
  simpl. rewrite EO. eauto.
Qed.

(** A replacer whose first frame's bit has been set, and one where it is clear. *)
Definition two_frames (b : bool) : ClockReplacer :=
  MkClock (MkCList {[0%nat := MkNode 1 b (Some 1%nat) (Some 1%nat);
                     1%nat := MkNode 2 false (Some 0%nat) (Some 0%nat)]}
             2%nat (Some 0%nat) (Some 1%nat) 2 4) AddrHead.

Lemma two_frames_rep b : clock_rep (two_frames b) (MkRing [(1, b); (2, false)] O).
Proof.
  exists [0%nat; 1%nat]. split; [|apply hand_head]. split; simpl; try done; try lia.
  - by apply (bool_decide_unpack _).
  - by apply (bool_decide_unpack _).
  - intros [|[|j]] l e Hl He; simplify_eq/=; done.
  - intros l [nd H]. repeat (apply lookup_insert_Some in H as [[<- _]|[_ H]]; [lia|]).
    apply lookup_singleton_Some in H as [<- _]. lia.
Qed.

Lemma reference_bits_ignored_witness :
  ∃ r1 r2, run_ops [OpVictim] (two_frames true) = Ok ([Some 1], r1) ∧
           run_ops [OpVictim] (two_frames false) = Ok ([Some 1], r2).
Proof.
  destruct (reference_bits_ignored [OpVictim] (two_frames true) (two_frames false)
    (MkRing [(1, true); (2, false)] O) (MkRing [(1, false); (2, false)] O)
    (two_frames_rep true) (two_frames_rep false) eq_refl eq_refl) as (out & r1 & r2 & E1 & E2).
  exists r1, r2.
  assert (out = [Some 1]) as Eo by (clear E2; vm_compute in E1; congruence).
  rewrite Eo in E1, E2. split; [exact E1|exact E2].
Defined.
