(* ===== verification/LogRecord.v ===== *)
(** * Log records ([recovery/log_record.go], and their serialized form in
    [recovery/log_manager.go] and [recovery/log_recovery/log_recovery.go])

    A record is a 20-byte header (size, LSN, transaction, previous LSN, type)
    and a body its type selects.  [encode] is the serialized form; the body is
    written into the log buffer by [write_body] and read back by
    [DeserializeLogRecord], which fills the fields of a record that may already
    hold those of an earlier one.

    The theorems: the constructors compute the length of the serialized form,
    serialized records read back, and the reader relies on the whole record
    being in the bytes it is given. *)

From S2P Require Import Prelude Bytes Types Tuples.

Definition HEADER_SIZE : Z := 20.

(** [LogRecordType] is an int32; a reader can meet any value. *)
Definition INVALID : Z := 0.
Definition INSERT : Z := 1.
Definition MARKDELETE : Z := 2.
Definition APPLYDELETE : Z := 3.
Definition ROLLBACKDELETE : Z := 4.
Definition UPDATE : Z := 5.
Definition BEGIN : Z := 6.
Definition COMMIT : Z := 7.
Definition ABORT : Z := 8.
Definition NEWPAGE : Z := 9.

Definition is_delete (t : Z) : bool :=
  (t =? APPLYDELETE) || (t =? MARKDELETE) || (t =? ROLLBACKDELETE).

Record LogRecord : Type := MkLogRecord {
  Size : Z;
  Lsn : Z;
  Txn_id : Z;
  Prev_lsn : Z;
  Log_record_type : Z;
  Delete_rid : RID;
  Delete_tuple : Tuple;
  Insert_rid : RID;
  Insert_tuple : Tuple;
  Update_rid : RID;
  Old_tuple : Tuple;
  New_tuple : Tuple;
  Prev_page_id : Z
}.

Definition ZeroRID : RID := MkRID 0 0.
(** [new(LogRecord)] *)
Definition ZeroLogRecord : LogRecord :=
  MkLogRecord 0 0 0 0 0 ZeroRID ZeroTuple ZeroRID ZeroTuple ZeroRID ZeroTuple ZeroTuple 0.

Definition set_header (sz lsn txn prev ty : Z) (r : LogRecord) : LogRecord :=
  MkLogRecord sz lsn txn prev ty (Delete_rid r) (Delete_tuple r) (Insert_rid r) (Insert_tuple r)
    (Update_rid r) (Old_tuple r) (New_tuple r) (Prev_page_id r).
Definition set_Lsn (lsn : Z) (r : LogRecord) : LogRecord :=
  set_header (Size r) lsn (Txn_id r) (Prev_lsn r) (Log_record_type r) r.
Definition set_delete (i : RID) (t : Tuple) (r : LogRecord) : LogRecord :=
  MkLogRecord (Size r) (Lsn r) (Txn_id r) (Prev_lsn r) (Log_record_type r) i t
    (Insert_rid r) (Insert_tuple r) (Update_rid r) (Old_tuple r) (New_tuple r) (Prev_page_id r).
Definition set_insert (i : RID) (t : Tuple) (r : LogRecord) : LogRecord :=
  MkLogRecord (Size r) (Lsn r) (Txn_id r) (Prev_lsn r) (Log_record_type r)
    (Delete_rid r) (Delete_tuple r) i t (Update_rid r) (Old_tuple r) (New_tuple r) (Prev_page_id r).
Definition set_update (i : RID) (t1 t2 : Tuple) (r : LogRecord) : LogRecord :=
  MkLogRecord (Size r) (Lsn r) (Txn_id r) (Prev_lsn r) (Log_record_type r)
    (Delete_rid r) (Delete_tuple r) (Insert_rid r) (Insert_tuple r) i t1 t2 (Prev_page_id r).
Definition set_prev_page_id (p : Z) (r : LogRecord) : LogRecord :=
  MkLogRecord (Size r) (Lsn r) (Txn_id r) (Prev_lsn r) (Log_record_type r)
    (Delete_rid r) (Delete_tuple r) (Insert_rid r) (Insert_tuple r)
    (Update_rid r) (Old_tuple r) (New_tuple r) p.

(** ** Constructors *)
Definition NewLogRecordTxn (txn_id prev_lsn ty : Z) : LogRecord :=
  set_header HEADER_SIZE 0 txn_id prev_lsn ty ZeroLogRecord.

Definition NewLogRecordInsertDelete (txn_id prev_lsn ty : Z) (rid : RID) (tuple : Tuple) :
    LogRecord :=
  let sz := u32 (HEADER_SIZE + 8 + 4 + size tuple) in
  let ret := set_header sz 0 txn_id prev_lsn ty ZeroLogRecord in
  if ty =? INSERT then set_insert rid tuple ret else set_delete rid tuple ret.

Definition NewLogRecordUpdate (txn_id prev_lsn ty : Z) (update_rid : RID)
    (old_tuple new_tuple : Tuple) : LogRecord :=
  let sz := u32 (HEADER_SIZE + 8 + size old_tuple + size new_tuple + 2 * 4) in
  set_update update_rid old_tuple new_tuple
    (set_header sz 0 txn_id prev_lsn ty ZeroLogRecord).

Definition NewLogRecordNewPage (txn_id prev_lsn ty page_id : Z) : LogRecord :=
  set_prev_page_id page_id
    (set_header (HEADER_SIZE + 4) 0 txn_id prev_lsn ty ZeroLogRecord).

(** ** Writing *)
(** [binary.Write] of a 32-bit integer and of a [page.RID]. *)
Definition int32_bytes (z : Z) : list byte := le_bytes 4 (u32 z).
Definition rid_bytes (r : RID) : list byte := int32_bytes (PageId r) ++ int32_bytes (SlotNum r).

Definition GetLogHeaderData (r : LogRecord) : list byte :=
  int32_bytes (Size r) ++ int32_bytes (Lsn r) ++ int32_bytes (Txn_id r) ++
  int32_bytes (Prev_lsn r) ++ int32_bytes (Log_record_type r).

(** A call [f(buf[pos:])] that changes the bytes of the slice. *)
Definition in_tail (pos : Z) (f : list byte → res (list byte)) (buf : list byte) :
    res (list byte) :=
  s ← slice_from buf pos; s' ← f s; Ok (take (Z.to_nat pos) buf ++ s').

(** The part of [AppendLogRecord] that writes the body at [pos]. *)
Definition write_body (r : LogRecord) (pos : Z) (buf : list byte) : res (list byte) :=
  let ty := Log_record_type r in
  if ty =? INSERT then
    b1 ← go_copy buf pos (rid_bytes (Insert_rid r));
    in_tail (u32 (pos + 8)) (SerializeTo (Insert_tuple r)) b1
  else if is_delete ty then
    b1 ← go_copy buf pos (rid_bytes (Delete_rid r));
    in_tail (u32 (pos + 8)) (SerializeTo (Delete_tuple r)) b1
  else if ty =? UPDATE then
    b1 ← go_copy buf pos (rid_bytes (Update_rid r));
    let pos1 := u32 (pos + 8) in
    b2 ← in_tail pos1 (SerializeTo (Old_tuple r)) b1;
    let pos2 := u32 (pos1 + (size (Old_tuple r) + TupleSizeOffsetInLogrecord)) in
    in_tail pos2 (SerializeTo (New_tuple r)) b2
  else if ty =? NEWPAGE then go_copy buf pos (int32_bytes (Prev_page_id r))
  else Ok buf.

(** ** Reading *)
(** [binary.Read] of a [page.RID] from a slice of length [len]: when there are
    not eight bytes the error is ignored and the field keeps its value. *)
Definition read_rid (data : list byte) (len : nat) (r : RID) : RID :=
  if (len <? 8)%nat then r
  else MkRID (i32 (read_le 4 data)) (read_le 4 (drop 4 data)).
Definition read_int32 (data : list byte) (len : nat) (z : Z) : Z :=
  if (len <? 4)%nat then z else i32 (read_le 4 data).

(** [data[pos:]] of a slice of length [len], given up to its capacity. *)
Definition tail_from (data : list byte) (len : nat) (pos : Z) : res (list byte * nat) :=
  if (0 <=? pos) && (pos <=? Z.of_nat len)
  then Ok (drop (Z.to_nat pos) data, (len - Z.to_nat pos)%nat) else Panic.

(** The header's five fields. *)
Definition read_header (data : list byte) (r : LogRecord) : LogRecord :=
  set_header (read_le 4 data) (i32 (field 4 data)) (i32 (field 8 data))
    (i32 (field 12 data)) (i32 (field 16 data)) r.

Definition DeserializeLogRecord (data : list byte) (len : nat) (log_record : LogRecord) :
    res (bool * LogRecord) :=
  if (Z.of_nat len <? HEADER_SIZE) then Ok (false, log_record)
  else
    let r := read_header data log_record in
    if Size r <=? 0 then Ok (false, r)
    else
      let ty := Log_record_type r in
      p ← tail_from data len HEADER_SIZE;
      if ty =? INSERT then
        let i := read_rid (fst p) (snd p) (Insert_rid r) in
        q ← tail_from data len (HEADER_SIZE + 8);
        t ← DeserializeFrom (Insert_tuple r) (fst q) (snd q);
        Ok (true, set_insert i t r)
      else if is_delete ty then
        let i := read_rid (fst p) (snd p) (Delete_rid r) in
        q ← tail_from data len (HEADER_SIZE + 8);
        t ← DeserializeFrom (Delete_tuple r) (fst q) (snd q);
        Ok (true, set_delete i t r)
      else if ty =? UPDATE then
        let i := read_rid (fst p) (snd p) (Update_rid r) in
        q ← tail_from data len (HEADER_SIZE + 8);
        t1 ← DeserializeFrom (Old_tuple r) (fst q) (snd q);
        q2 ← tail_from data len
               (u32 (HEADER_SIZE + 8 + (size t1 + TupleSizeOffsetInLogrecord)));
        t2 ← DeserializeFrom (New_tuple r) (fst q2) (snd q2);
        Ok (true, set_update i t1 t2 r)
      else if ty =? NEWPAGE then
        Ok (true, set_prev_page_id (read_int32 (fst p) (snd p) (Prev_page_id r)) r)
      else Ok (true, r).

(** ** The serialized form *)
Definition tuple_bytes (t : Tuple) : list byte := int32_bytes (size t) ++ data t.

Definition body (r : LogRecord) : list byte :=
  let ty := Log_record_type r in
  if ty =? INSERT then rid_bytes (Insert_rid r) ++ tuple_bytes (Insert_tuple r)
  else if is_delete ty then rid_bytes (Delete_rid r) ++ tuple_bytes (Delete_tuple r)
  else if ty =? UPDATE then
    rid_bytes (Update_rid r) ++ tuple_bytes (Old_tuple r) ++ tuple_bytes (New_tuple r)
  else if ty =? NEWPAGE then int32_bytes (Prev_page_id r)
  else [].

Definition encode (r : LogRecord) : list byte := GetLogHeaderData r ++ body r.

(** The tuples a record of its type carries. *)
Definition record_tuples (r : LogRecord) : list Tuple :=
  let ty := Log_record_type r in
  if ty =? INSERT then [Insert_tuple r]
  else if is_delete ty then [Delete_tuple r]
  else if ty =? UPDATE then [Old_tuple r; New_tuple r]
  else [].

Definition tuple_ok (t : Tuple) : Prop := size t = Z.of_nat (length (data t)).

Definition rid_ok (r : RID) : Prop := in_i32 (PageId r) ∧ in_u32 (SlotNum r).

Record record_ok (r : LogRecord) : Prop := {
  ok_size : Size r = Z.of_nat (length (encode r));
  ok_small : Size r < 2 ^ 31;
  ok_tuples : Forall tuple_ok (record_tuples r)
}.

(** What the reader leaves in a record that held [r0] after reading [r]: tuples
    keep the RID pointer they had. *)
Definition reread_tuple (t t0 : Tuple) : Tuple := MkTuple (rid t0) (size t) (data t).
Definition reread (r r0 : LogRecord) : LogRecord :=
  let ty := Log_record_type r in
  let h := set_header (Size r) (Lsn r) (Txn_id r) (Prev_lsn r) ty r0 in
  if ty =? INSERT then
    set_insert (Insert_rid r) (reread_tuple (Insert_tuple r) (Insert_tuple r0)) h
  else if is_delete ty then
    set_delete (Delete_rid r) (reread_tuple (Delete_tuple r) (Delete_tuple r0)) h
  else if ty =? UPDATE then
    set_update (Update_rid r) (reread_tuple (Old_tuple r) (Old_tuple r0))
      (reread_tuple (New_tuple r) (New_tuple r0)) h
  else if ty =? NEWPAGE then set_prev_page_id (Prev_page_id r) h
  else h.

(** The integers of the record fit their Go types. *)
Definition record_ranges (r : LogRecord) : Prop :=
  in_i32 (Lsn r) ∧ in_i32 (Txn_id r) ∧ in_i32 (Prev_lsn r) ∧ in_i32 (Log_record_type r) ∧
  rid_ok (Delete_rid r) ∧ rid_ok (Insert_rid r) ∧ rid_ok (Update_rid r) ∧ in_i32 (Prev_page_id r).

(** ** Writing the body *)
#[global] Arguments int32_bytes : simpl never.
#[global] Arguments rid_bytes : simpl never.
#[global] Arguments tuple_bytes : simpl never.
#[global] Arguments GetLogHeaderData : simpl never.

Lemma length_int32_bytes z : length (int32_bytes z) = 4%nat.
Proof. apply length_le_bytes. Qed.
Lemma length_rid_bytes r : length (rid_bytes r) = 8%nat.
Proof. unfold rid_bytes. by rewrite length_app, !length_int32_bytes. Qed.
Lemma length_tuple_bytes t : length (tuple_bytes t) = (4 + length (data t))%nat.
Proof. unfold tuple_bytes. by rewrite length_app, length_int32_bytes. Qed.
Lemma length_header r : length (GetLogHeaderData r) = 20%nat.
Proof. unfold GetLogHeaderData. by rewrite !length_app, !length_int32_bytes. Qed.
Create Rewrite HintDb lens.
#[export] Hint Rewrite length_int32_bytes length_rid_bytes length_tuple_bytes length_header
  @length_app @length_nil : lens.
Ltac lens := autorewrite with lens in *.

Lemma SerializeTo_ok t s :
  tuple_ok t → size t < 2 ^ 32 → (length (tuple_bytes t) ≤ length s)%nat →
  SerializeTo t s = Ok (overwrite 0 (tuple_bytes t) s).
Proof.
  intros Hok Hs HL. rewrite length_tuple_bytes in HL. unfold tuple_ok in Hok.
  unfold SerializeTo, TupleSizeOffsetInLogrecord.
  rewrite go_copy_Ok by lia. mred. change (Z.to_nat 0) with 0%nat. change (Z.to_nat 4) with 4%nat.
  pose proof (length_le_bytes 4 (size t)) as H4.
  rewrite slice_Ok by (rewrite ?length_overwrite by lia; lia). mred. f_equal.
  unfold tuple_bytes, int32_bytes. rewrite u32_small by (unfold in_u32; lia).
  rewrite take_ge by lia. rewrite <- overwrite_app by (rewrite length_le_bytes; lia).
  by rewrite length_le_bytes.
Qed.

Lemma in_tail_SerializeTo t pos buf :
  tuple_ok t → size t < 2 ^ 32 → 0 ≤ pos →
  pos + Z.of_nat (length (tuple_bytes t)) ≤ Z.of_nat (length buf) →
  in_tail pos (SerializeTo t) buf = Ok (overwrite (Z.to_nat pos) (tuple_bytes t) buf).
Proof.
  intros Hok Hs Hp HL. unfold in_tail. rewrite slice_from_Ok by lia. mred.
  rewrite SerializeTo_ok; [|done..|rewrite length_drop; lia]. mred.
  by rewrite overwrite_tail by lia.
Qed.

Lemma write_rid_tuple i t pos buf :
  tuple_ok t → size t < 2 ^ 31 → 0 ≤ pos →
  pos + Z.of_nat (length (rid_bytes i ++ tuple_bytes t)) ≤ Z.of_nat (length buf) →
  Z.of_nat (length buf) < 2 ^ 31 →
  (b1 ← go_copy buf pos (rid_bytes i); in_tail (u32 (pos + 8)) (SerializeTo t) b1) =
    Ok (overwrite (Z.to_nat pos) (rid_bytes i ++ tuple_bytes t) buf).
Proof.
  intros Hok Hs Hp HL HB. lens. rewrite go_copy_Ok by lia. mred.
  rewrite u32_small by (unfold in_u32; lia).
  rewrite in_tail_SerializeTo;
    [|done|lia..|rewrite length_tuple_bytes, length_overwrite by lia; lia].
  rewrite <- overwrite_app by (lens; lia). lens. do 3 f_equal. lia.
Qed.

Lemma length_encode r : length (encode r) = (20 + length (body r))%nat.
Proof. unfold encode. by rewrite length_app, length_header. Qed.

Lemma write_body_ok r pos buf :
  Forall tuple_ok (record_tuples r) → 0 ≤ pos →
  pos + Z.of_nat (length (body r)) ≤ Z.of_nat (length buf) → Z.of_nat (length buf) < 2 ^ 31 →
  write_body r pos buf = Ok (overwrite (Z.to_nat pos) (body r) buf).
Proof.
  unfold write_body, body, record_tuples. intros HT Hp HL HB.
  destruct (Log_record_type r =? INSERT).
  { rewrite Forall_singleton in HT. unfold tuple_ok in *. apply write_rid_tuple; lens; unfold tuple_ok; lia. }
  destruct (is_delete (Log_record_type r)).
  { rewrite Forall_singleton in HT. unfold tuple_ok in *. apply write_rid_tuple; lens; unfold tuple_ok; lia. }
  destruct (Log_record_type r =? UPDATE).
  { apply Forall_cons in HT as [H1 H2]. rewrite Forall_singleton in H2.
    pose proof H1 as S1. pose proof H2 as S2. unfold tuple_ok in S1, S2. lens.
    pose proof (write_rid_tuple (Update_rid r) (Old_tuple r) pos buf H1) as W. lens.
    rewrite go_copy_Ok in * by lia. cbn [mbind res_mbind res_bind] in *. rewrite W by lia. mred.
    rewrite !u32_small by (unfold in_u32, TupleSizeOffsetInLogrecord; rewrite ?u32_small; unfold in_u32; lia).
    unfold TupleSizeOffsetInLogrecord.
    rewrite in_tail_SerializeTo;
      [|done|lia..|rewrite length_tuple_bytes, length_overwrite by lia; lia].
    rewrite app_assoc.
    rewrite <- (overwrite_app _ (rid_bytes (Update_rid r) ++ tuple_bytes (Old_tuple r)))
      by (lens; lia).
    lens. do 2 f_equal. lia. }
  destruct (Log_record_type r =? NEWPAGE).
  { lens. by rewrite go_copy_Ok by lia. }
  f_equal. symmetry. unfold overwrite. simpl. rewrite Nat.add_0_r, take_nil. simpl.
  apply take_drop.
Qed.

(** ** Reading back *)
Lemma field_skip k z l : field (4 + k) (int32_bytes z ++ l) = field k l.
Proof.
  unfold field. rewrite <- drop_drop. by rewrite (drop_app_length' _ _ 4%nat) by (by lens).
Qed.

Lemma field_0 z l : field 0 (int32_bytes z ++ l) = u32 z.
Proof.
  unfold field, int32_bytes. rewrite drop_0, read_le_app. apply u32_small, u32_range.
Qed.

Lemma i32_field_0 z l : in_i32 z → i32 (field 0 (int32_bytes z ++ l)) = z.
Proof. intros HZ. rewrite field_0, i32_u32. by apply i32_small. Qed.

Lemma read_le_field data : read_le 4 data = field 0 data.
Proof. unfold field. by rewrite drop_0. Qed.

Lemma read_header_encode r r0 rest :
  record_ranges r → in_u32 (Size r) →
  read_header (encode r ++ rest) r0 =
    set_header (Size r) (Lsn r) (Txn_id r) (Prev_lsn r) (Log_record_type r) r0.
Proof.
  intros (H1 & H2 & H3 & H4 & _) H0. unfold read_header, encode, GetLogHeaderData.
  rewrite <- !app_assoc, read_le_field.
  rewrite (field_skip 0), (field_skip 4), (field_skip 0), (field_skip 8), (field_skip 4),
    (field_skip 0), (field_skip 12), (field_skip 8), (field_skip 4), (field_skip 0).
  rewrite field_0, u32_small, !i32_field_0 by done. done.
Qed.

Lemma read_rid_ok i i0 rest len :
  rid_ok i → (8 ≤ len)%nat → read_rid (rid_bytes i ++ rest) len i0 = i.
Proof.
  intros [H1 H2] HL. unfold read_rid, rid_bytes.
  destruct (Nat.ltb_spec len 8); [lia|].
  change (read_le 4 (drop 4 ?d)) with (field 4 d).
  rewrite read_le_field, <- app_assoc, i32_field_0, (field_skip 0), field_0, u32_small by done.
  by destruct i.
Qed.

Lemma DeserializeFrom_ok t t0 rest len :
  tuple_ok t → size t < 2 ^ 32 → (4 ≤ len)%nat →
  DeserializeFrom t0 (tuple_bytes t ++ rest) len = Ok (reread_tuple t t0).
Proof.
  intros Hok Hs HL. unfold DeserializeFrom, TupleSizeOffsetInLogrecord, tuple_bytes.
  destruct (Nat.ltb_spec len 4); [lia|]. unfold tuple_ok in Hok.
  rewrite <- app_assoc, read_le_field, field_0, u32_small by (unfold in_u32; lia).
  rewrite slice_Ok by (lens; lia). mred. unfold reread_tuple. do 2 f_equal.
  change (Z.to_nat 4) with 4%nat. rewrite region_app_r by (lens; lia). lens.
  rewrite region_app_l by lia.
  replace (Z.to_nat (4 + size t - 4)) with (length (data t)) by lia. apply region_0_all.
Qed.

Lemma tail_from_ok (a b : list byte) len pos :
  Z.of_nat (length a) = pos → (length a ≤ len)%nat →
  tail_from (a ++ b) len pos = Ok (b, (len - length a)%nat).
Proof.
  intros Hp HL. unfold tail_from.
  rewrite !(proj2 (Z.leb_le _ _)) by lia. mred.
  replace (Z.to_nat pos) with (length a) by lia. by rewrite drop_app_length.
Qed.

Lemma header_tail r rest len :
  (length (encode r) ≤ len)%nat →
  tail_from (encode r ++ rest) len HEADER_SIZE =
    Ok (body r ++ rest, (len - 20)%nat).
Proof.
  intros H. rewrite length_encode in H. unfold encode. rewrite <- app_assoc.
  rewrite tail_from_ok; rewrite length_header; [done|done|lia].
Qed.

(** The two reads that a body begins with: a RID and a tuple. *)
Lemma read_rid_tuple r i t post i0 t0 rest len :
  body r = rid_bytes i ++ tuple_bytes t ++ post → (length (encode r) ≤ len)%nat →
  rid_ok i → tuple_ok t ∧ size t < 2 ^ 32 →
  read_rid (body r ++ rest) (len - 20) i0 = i ∧
  ∃ q, tail_from (encode r ++ rest) len (HEADER_SIZE + 8) = Ok q ∧
    DeserializeFrom t0 (fst q) (snd q) = Ok (reread_tuple t t0).
Proof.
  intros HB HL Hi [Ht Hs]. rewrite length_encode, HB in HL. lens. split.
  - rewrite HB, <- !app_assoc. apply read_rid_ok; [done|lia].
  - unfold encode. rewrite HB.
    replace ((GetLogHeaderData r ++ rid_bytes i ++ tuple_bytes t ++ post) ++ rest)
      with ((GetLogHeaderData r ++ rid_bytes i) ++ tuple_bytes t ++ post ++ rest)
      by (by rewrite <- !app_assoc).
    eexists. rewrite tail_from_ok; rewrite ?length_app, ?length_header, ?length_rid_bytes;
      [|done|lia].
    split; [done|]. mred. apply DeserializeFrom_ok; [done|lia|lia].
Qed.

Lemma read_second_tuple r i t1 t t0 rest len :
  body r = rid_bytes i ++ tuple_bytes t1 ++ tuple_bytes t → (length (encode r) ≤ len)%nat →
  record_ok r → tuple_ok t1 → tuple_ok t ∧ size t < 2 ^ 32 →
  ∃ q, tail_from (encode r ++ rest) len
         (u32 (HEADER_SIZE + 8 + (size t1 + TupleSizeOffsetInLogrecord))) = Ok q ∧
    DeserializeFrom t0 (fst q) (snd q) = Ok (reread_tuple t t0).
Proof.
  intros HB HL [S1 S2 _] H1 [Ht Hs]. rewrite S1 in S2. unfold tuple_ok in H1.
  rewrite length_encode, HB in HL, S2. lens.
  rewrite u32_small by (unfold in_u32, HEADER_SIZE, TupleSizeOffsetInLogrecord; lia).
  unfold encode. rewrite HB.
  replace ((GetLogHeaderData r ++ rid_bytes i ++ tuple_bytes t1 ++ tuple_bytes t) ++ rest)
    with ((GetLogHeaderData r ++ rid_bytes i ++ tuple_bytes t1) ++ tuple_bytes t ++ rest)
    by (by rewrite <- !app_assoc).
  eexists. rewrite tail_from_ok;
    rewrite ?length_app, ?length_header, ?length_rid_bytes, ?length_tuple_bytes;
    [|unfold HEADER_SIZE, TupleSizeOffsetInLogrecord; lia|lia].
  split; [done|]. mred. apply DeserializeFrom_ok; [done|lia|lia].
Qed.

Lemma record_ok_in_u32 r : record_ok r → in_u32 (Size r).
Proof. intros [H1 H2 _]. unfold in_u32. lia. Qed.

Lemma size_of_tuple r t : record_ok r → t ∈ record_tuples r → tuple_ok t ∧ size t < 2 ^ 32.
Proof.
  intros [H1 H2 H3] Ht. rewrite Forall_forall in H3. pose proof (H3 t Ht) as Hok.
  split; [done|]. rewrite length_encode in H1. unfold tuple_ok in Hok.
  assert (length (data t) ≤ length (body r))%nat; [|lia].
  unfold record_tuples, body in *.
  repeat (case_match; [by (repeat (apply elem_of_cons in Ht as [->|Ht]);
    [lens; lia..|by apply elem_of_nil in Ht])|]).
  by apply elem_of_nil in Ht.
Qed.

(** Reading a whole record back. *)
Lemma deserialize_run r r0 rest len :
  record_ok r → record_ranges r → (length (encode r) ≤ len)%nat →
  DeserializeLogRecord (encode r ++ rest) len r0 = Ok (true, reread r r0).
Proof.
  intros Hok HR HL. pose proof (record_ok_in_u32 r Hok) as Hu. pose proof Hok as [HS _ _].
  pose proof (length_encode r) as HE.
  pose proof (size_of_tuple r) as HT.
  pose proof HR as (_ & _ & _ & _ & Hd & Hi & Hup & Hp).
  unfold DeserializeLogRecord. destruct (Z.ltb_spec (Z.of_nat len) HEADER_SIZE);
    [unfold HEADER_SIZE in *; lia|].
  rewrite read_header_encode by done. cbn [set_header Size Log_record_type].
  destruct (Z.leb_spec (Size r) 0); [lia|]. rewrite header_tail by done. mred.
  unfold reread. destruct (Log_record_type r =? INSERT) eqn:Ei.
  { destruct (read_rid_tuple r (Insert_rid r) (Insert_tuple r) [] (Insert_rid r0)
      (Insert_tuple r0) rest len) as (E1 & q & E2 & E3);
      [unfold body; by rewrite Ei, app_nil_r|done..| |].
    { apply HT; [done|]. unfold record_tuples. rewrite Ei. by left. }
    rewrite E2. mred. cbn [set_header Insert_tuple Insert_rid]. by rewrite E3, E1. }
  destruct (is_delete (Log_record_type r)) eqn:Ed.
  { destruct (read_rid_tuple r (Delete_rid r) (Delete_tuple r) [] (Delete_rid r0)
      (Delete_tuple r0) rest len) as (E1 & q & E2 & E3);
      [unfold body; by rewrite Ei, Ed, app_nil_r|done..| |].
    { apply HT; [done|]. unfold record_tuples. rewrite Ei, Ed. by left. }
    rewrite E2. mred. cbn [set_header Delete_tuple Delete_rid]. by rewrite E3, E1. }
  destruct (Log_record_type r =? UPDATE) eqn:Eu.
  { assert (HB : body r = rid_bytes (Update_rid r) ++ tuple_bytes (Old_tuple r) ++
                          tuple_bytes (New_tuple r)) by (unfold body; by rewrite Ei, Ed, Eu).
    assert (H1 : tuple_ok (Old_tuple r) ∧ size (Old_tuple r) < 2 ^ 32).
    { apply HT; [done|]. unfold record_tuples. rewrite Ei, Ed, Eu. by left. }
    assert (H2 : tuple_ok (New_tuple r) ∧ size (New_tuple r) < 2 ^ 32).
    { apply HT; [done|]. unfold record_tuples. rewrite Ei, Ed, Eu. by right; left. }
    destruct (read_rid_tuple r _ _ _ (Update_rid r0) (Old_tuple r0) rest len HB HL Hup H1)
      as (E1 & q & E2 & E3).
    destruct (read_second_tuple r _ _ _ (New_tuple r0) rest len HB HL Hok (proj1 H1) H2)
      as (q2 & E4 & E5).
    rewrite E2. mred. cbn [set_header Old_tuple New_tuple Update_rid]. rewrite E3. mred.
    cbn [reread_tuple size]. rewrite E4. mred. by rewrite E5, E1. }
  destruct (Log_record_type r =? NEWPAGE) eqn:Ep; [|done].
  assert (HB : body r = int32_bytes (Prev_page_id r)) by (unfold body; by rewrite Ei, Ed, Eu, Ep).
  rewrite HB in HE |- *. lens. unfold read_int32. destruct (Nat.ltb_spec (len - 20) 4); [lia|].
  by rewrite read_le_field, i32_field_0.
Qed.

(** C28: a serialized record reads back: whatever follows it in the buffer and
    whatever the reused record held, [DeserializeLogRecord] succeeds on bytes
    that begin with a whole serialized record and gives its header and the
    fields of its type, tuple contents included. *)
Theorem log_record_roundtrip r r0 rest len :
  record_ok r → record_ranges r → (length (encode r) ≤ len)%nat →
  DeserializeLogRecord (encode r ++ rest) len r0 = Ok (true, reread r r0).
Proof. apply deserialize_run. Qed.

Definition example_rid : RID := MkRID 3 1.
Definition example_tuple : Tuple := MkTuple None 2 [Byte.x61; Byte.x62].
Definition example_record : LogRecord :=
  set_Lsn 7 (NewLogRecordUpdate 5 6 UPDATE example_rid example_tuple example_tuple).

Lemma example_record_ok : record_ok example_record ∧ record_ranges example_record.
Proof.
  split.
  - split; [reflexivity|unfold example_record; simpl; vm_compute; reflexivity|].
    repeat constructor.
  - repeat split; vm_compute; congruence.
Qed.

Lemma log_record_roundtrip_witness :
  DeserializeLogRecord (encode example_record ++ [Byte.xff]) 49 ZeroLogRecord =
    Ok (true, example_record).
Proof.
  destruct example_record_ok as [H1 H2].
  pose proof (log_record_roundtrip example_record ZeroLogRecord [Byte.xff] 49 H1 H2) as H.
  rewrite H; [reflexivity|]. vm_compute. lia.
Defined.

(** ** Sizes *)
Lemma NewLogRecordTxn_ok txn prev ty :
  ty = BEGIN ∨ ty = COMMIT ∨ ty = ABORT → record_ok (NewLogRecordTxn txn prev ty).
Proof. intros H. split; destruct H as [->|[-> | ->]]; done. Qed.

Lemma NewLogRecordInsertDelete_ok txn prev ty i t :
  ty = INSERT ∨ is_delete ty = true → tuple_ok t → size t + 32 < 2 ^ 31 →
  record_ok (NewLogRecordInsertDelete txn prev ty i t).
Proof.
  intros H Ht Hs. unfold NewLogRecordInsertDelete, HEADER_SIZE. unfold tuple_ok in Ht.
  rewrite u32_small by (unfold in_u32; lia).
  destruct (Z.eqb_spec ty INSERT) as [->|Hne].
  - split; [rewrite length_encode; unfold body|simpl; lia|by repeat constructor].
    cbn [set_insert set_header Log_record_type Size Z.eqb INSERT Pos.eqb Insert_tuple Insert_rid].
    lens. lia.
  - destruct H as [|Hd]; [done|]. apply Z.eqb_neq in Hne.
    split; [|cbn [set_delete set_header Size]; lia|
      unfold record_tuples; cbn [set_delete set_header Log_record_type];
      rewrite Hne, Hd; by repeat constructor].
    rewrite length_encode. unfold body. cbn [set_delete Log_record_type set_header Size].
    rewrite Hne, Hd. cbn [set_delete Delete_rid Delete_tuple]. lens. lia.
Qed.

Lemma NewLogRecordUpdate_ok txn prev i t1 t2 :
  tuple_ok t1 → tuple_ok t2 → size t1 + size t2 + 36 < 2 ^ 31 →
  record_ok (NewLogRecordUpdate txn prev UPDATE i t1 t2).
Proof.
  intros H1 H2 Hs. unfold NewLogRecordUpdate, HEADER_SIZE. unfold tuple_ok in H1, H2.
  rewrite u32_small by (unfold in_u32; lia).
  split; [rewrite length_encode; unfold body|simpl; lia|by repeat constructor].
  cbn. lens. lia.
Qed.

Lemma NewLogRecordNewPage_ok txn prev p : record_ok (NewLogRecordNewPage txn prev NEWPAGE p).
Proof. split; [|done|constructor]. rewrite length_encode. reflexivity. Qed.

(** Each constructor computes [Size] as the number of bytes of the
    record's serialized form: of a transaction record, of an insert, mark,
    apply or rollback delete, of an update, and of a new page. *)
Theorem constructors_size txn prev i t1 t2 p :
  tuple_ok t1 → tuple_ok t2 → size t1 + size t2 + 36 < 2 ^ 31 →
  Forall (λ r, Size r = Z.of_nat (length (encode r)))
    [NewLogRecordTxn txn prev BEGIN; NewLogRecordTxn txn prev COMMIT;
     NewLogRecordTxn txn prev ABORT; NewLogRecordInsertDelete txn prev INSERT i t1;
     NewLogRecordInsertDelete txn prev MARKDELETE i t1;
     NewLogRecordInsertDelete txn prev APPLYDELETE i t1;
     NewLogRecordInsertDelete txn prev ROLLBACKDELETE i t1;
     NewLogRecordUpdate txn prev UPDATE i t1 t2; NewLogRecordNewPage txn prev NEWPAGE p].
Proof.
  intros H1 H2 Hs. assert (0 ≤ size t1 ∧ 0 ≤ size t2) by (unfold tuple_ok in *; lia).
  repeat (apply Forall_cons_2; [apply ok_size|]); [..|by apply Forall_nil].
  - apply NewLogRecordTxn_ok. by left.
  - apply NewLogRecordTxn_ok. by right; left.
  - apply NewLogRecordTxn_ok. by right; right.
  - apply NewLogRecordInsertDelete_ok; [by left|done|lia].
  - apply NewLogRecordInsertDelete_ok; [by right|done|lia].
  - apply NewLogRecordInsertDelete_ok; [by right|done|lia].
  - apply NewLogRecordInsertDelete_ok; [by right|done|lia].
  - by apply NewLogRecordUpdate_ok.
  - apply NewLogRecordNewPage_ok.
Qed.

(** The reader does not check [Size] against the bytes it has: on a record
    that carries a RID and of which only the header and less than the RID is
    there, it panics instead of returning false. *)
Theorem truncated_record_panics data len r0 :
  20 ≤ Z.of_nat len < 28 → (len ≤ length data)%nat →
  field 0 data ≠ 0 →
  (let ty := i32 (field 16 data) in ty = INSERT ∨ is_delete ty = true ∨ ty = UPDATE) →
  DeserializeLogRecord data len r0 = Panic.
Proof.
  intros HL HD HS HT. unfold DeserializeLogRecord, HEADER_SIZE.
  destruct (Z.ltb_spec (Z.of_nat len) 20); [lia|].
  unfold read_header. cbn [set_header Size Log_record_type]. rewrite read_le_field.
  pose proof (field_range 0 data) as [? _].
  destruct (Z.leb_spec (field 0 data) 0); [lia|].
  assert (E20 : tail_from data len 20 = Ok (drop 20 data, (len - 20)%nat)).
  { unfold tail_from. by rewrite !(proj2 (Z.leb_le _ _)) by lia. }
  assert (E28 : tail_from data len (20 + 8) = Panic).
  { unfold tail_from. rewrite (proj2 (Z.leb_le _ _)) by lia.
    by rewrite (proj2 (Z.leb_gt _ _)) by lia. }
  rewrite E20, E28. mred. destruct (i32 (field 16 data) =? INSERT) eqn:Ei; [done|].
  destruct (is_delete (i32 (field 16 data))) eqn:Ed; [done|].
  destruct (i32 (field 16 data) =? UPDATE) eqn:Eu; [done|].
  apply Z.eqb_neq in Ei, Eu. cbv zeta in HT. rewrite Ed in HT.
  by destruct HT as [|[|]].
Qed.

Lemma truncated_record_panics_witness :
  DeserializeLogRecord (encode example_record) 24 ZeroLogRecord = Panic.
Proof.
  apply truncated_record_panics.
  - lia.
  - vm_compute. lia.
  - vm_compute. discriminate.
  - cbv zeta. right. right. vm_compute. reflexivity.
Defined.

Lemma constructors_size_witness :
  tuple_ok example_tuple ∧
  Size (NewLogRecordUpdate 5 6 UPDATE example_rid example_tuple example_tuple) = 40.
Proof.
  split; [reflexivity|].
  assert (H : Forall (λ r, Size r = Z.of_nat (length (encode r)))
    [NewLogRecordUpdate 5 6 UPDATE example_rid example_tuple example_tuple]).
  { pose proof (constructors_size 5 6 example_rid example_tuple example_tuple 0
      eq_refl eq_refl eq_refl) as H. rewrite !Forall_cons in H. rewrite Forall_singleton. tauto. }
  rewrite Forall_singleton in H. rewrite H. vm_compute. reflexivity.
Defined.
