(* ===== verification/LogManager.v ===== *)
(** * Log manager ([recovery/log_manager.go])

    Records are serialized into [log_buffer] at [offset]; [Flush] swaps it with
    [flush_buffer] and writes what was collected to the log file.  The log
    manager keeps a pointer to the disk manager, so its operations run on the
    pair of the two.  The latch and the mutex bracket each operation and are
    not modelled.

    [log_stream] is the log as later readers see it: the file followed by what
    is still in the buffer.  The theorems: an append adds exactly the record's
    serialized form to the stream, whether or not it has to flush; the records
    up to [persistent_lsn] are in the file; that bound is wrong before the first
    record. *)

From S2P Require Import Prelude Bytes Types Tuples Disk LogRecord.

Record LogManager : Type := MkLogManager {
  offset : Z;
  log_buffer_lsn : Z;
  next_lsn : Z;
  persistent_lsn : Z;
  log_buffer : list byte;
  flush_buffer : list byte
}.

Definition log_state : Type := LogManager * DiskManagerImpl.

Definition NewLogManager : LogManager :=
  MkLogManager 0 0 0 InvalidLSN (zeros (Z.to_nat LogBufferSize)) (zeros (Z.to_nat LogBufferSize)).

Definition GetNextLSN (lm : LogManager) : Z := next_lsn lm.
Definition GetPersistentLSN (lm : LogManager) : Z := persistent_lsn lm.

Definition Flush : st log_state unit := λ s,
  let '(lm, d) := s in
  let lsn := log_buffer_lsn lm in
  let off := offset lm in
  (* the buffers are swapped *)
  let flush_buffer' := log_buffer lm in
  let log_buffer' := flush_buffer lm in
  data ← slice flush_buffer' 0 off;
  Ok (tt, (MkLogManager 0 lsn (next_lsn lm) lsn log_buffer' flush_buffer', WriteLog data d)).

(** The space left in the buffer, a 32-bit difference. *)
Definition log_space (lm : LogManager) : Z := u32 (LogBufferSize - offset lm).

Definition set_log_buffer (b : list byte) (lm : LogManager) : LogManager :=
  MkLogManager (offset lm) (log_buffer_lsn lm) (next_lsn lm) (persistent_lsn lm) b (flush_buffer lm).

(** [copy(log_buffer[offset:], header)] *)
Definition put_header (r : LogRecord) : st log_state unit := λ s,
  let '(lm, d) := s in
  b ← go_copy (log_buffer lm) (offset lm) (GetLogHeaderData r);
  Ok (tt, (set_log_buffer b lm, d)).

(** The part of [AppendLogRecord] after the header is in the buffer. *)
Definition put_body (r : LogRecord) : st log_state unit := λ s,
  let '(lm, d) := s in
  let pos := u32 (offset lm + HEADER_SIZE) in
  b ← write_body r pos (log_buffer lm);
  Ok (tt, (MkLogManager (u32 (offset lm + Size r)) (Lsn r) (next_lsn lm) (persistent_lsn lm) b
             (flush_buffer lm), d)).

(** [log_record.Lsn = next_lsn; next_lsn += 1] *)
Definition take_lsn : st log_state Z := λ s,
  let '(lm, d) := s in
  Ok (next_lsn lm,
      (MkLogManager (offset lm) (log_buffer_lsn lm) (i32 (next_lsn lm + 1)) (persistent_lsn lm)
         (log_buffer lm) (flush_buffer lm), d)).

(** The end of [AppendLogRecord], from the point where the LSN is taken. *)
Definition append_tail (r : LogRecord) : st log_state unit :=
  _ ← put_header r;
  s1 ← st_get;
  _ ← (if log_space (fst s1) <? Size r then (_ ← Flush; put_header r) else mret tt);
  put_body r.

(** The result is the LSN and the record, whose [Lsn] has been set. *)
Definition AppendLogRecord (log_record : LogRecord) : st log_state (Z * LogRecord) :=
  s ← st_get;
  _ ← (if log_space (fst s) <? HEADER_SIZE then Flush else mret tt);
  lsn ← take_lsn;
  _ ← append_tail (set_Lsn lsn log_record);
  mret (lsn, set_Lsn lsn log_record).

(** ** The log as a stream *)
Definition log_stream (s : log_state) : list byte :=
  content (log (snd s)) ++ take (Z.to_nat (offset (fst s))) (log_buffer (fst s)).

Record log_wf (s : log_state) : Prop := {
  wf_buf : Z.of_nat (length (log_buffer (fst s))) = LogBufferSize;
  wf_fbuf : Z.of_nat (length (flush_buffer (fst s))) = LogBufferSize;
  wf_off : 0 ≤ offset (fst s) ≤ LogBufferSize;
  wf_end : log_at_end (snd s)
}.

Lemma log_space_wf lm d : log_wf (lm, d) → log_space lm = LogBufferSize - offset lm.
Proof.
  intros [_ _ H _]. unfold log_space. apply u32_small. unfold in_u32.
  unfold LogBufferSize, BufferPoolSize, PageSize in *. simpl in H. lia.
Qed.

Lemma Flush_run lm d :
  log_wf (lm, d) →
  ∃ lm' d', Flush (lm, d) = Ok (tt, (lm', d')) ∧ log_wf (lm', d') ∧
    content (log d') = log_stream (lm, d) ∧ offset lm' = 0 ∧ log_stream (lm', d') = log_stream (lm, d) ∧
    next_lsn lm' = next_lsn lm ∧ log_buffer_lsn lm' = log_buffer_lsn lm ∧
    persistent_lsn lm' = log_buffer_lsn lm ∧ db d' = db d ∧ nextPageID d' = nextPageID d.
Proof.
  intros [H1 H2 H3 H4]. simpl in *. unfold Flush. rewrite slice_Ok by lia. mred.
  rewrite Z.sub_0_r. change (Z.to_nat 0) with 0%nat.
  destruct (WriteLog_appends (region 0 (Z.to_nat (offset lm)) (log_buffer lm)) d H4)
    as (E1 & E2 & E3 & E4 & _).
  assert (E : region 0 (Z.to_nat (offset lm)) (log_buffer lm) =
              take (Z.to_nat (offset lm)) (log_buffer lm)) by (unfold region; by rewrite drop_0).
  rewrite E in *. do 2 eexists. split; [done|].
  split; [by split; simpl; unfold LogBufferSize, BufferPoolSize, PageSize in *|].
  unfold log_stream. cbn [fst snd offset log_buffer]. change (Z.to_nat 0) with 0%nat.
  rewrite take_0, app_nil_r. by split_and!.
Qed.

(** [Flush] is one write, of the part of the stream that was not in the file. *)
Lemma Flush_writes lm d lm' d' : log_wf (lm, d) → Flush (lm, d) = Ok (tt, (lm', d')) →
  ∃ bs, log_stream (lm, d) = content (log d) ++ bs ∧ writes d' = writes d ++ [LogWritten bs].
Proof.
  intros [H1 H2 H3 H4] E. cbn [fst snd] in *. unfold Flush in E. rewrite slice_Ok in E by lia.
  rewrite Z.sub_0_r in E. injection E as _ <-. change (Z.to_nat 0) with 0%nat.
  exists (take (Z.to_nat (offset lm)) (log_buffer lm)). split; [done|].
  destruct (WriteLog_appends (region 0 (Z.to_nat (offset lm)) (log_buffer lm)) d H4) as (_ & _ & _ & _ & _ & ->).
  unfold region. by rewrite drop_0.
Qed.

Lemma put_header_body r lm d :
  log_wf (lm, d) → Forall tuple_ok (record_tuples r) → Size r = Z.of_nat (length (encode r)) →
  Size r ≤ LogBufferSize - offset lm →
  ∃ lm', (_ ← put_header r; put_body r) (lm, d) = Ok (tt, (lm', d)) ∧ log_wf (lm', d) ∧
    log_stream (lm', d) = log_stream (lm, d) ++ encode r ∧ next_lsn lm' = next_lsn lm ∧
    log_buffer_lsn lm' = Lsn r ∧ persistent_lsn lm' = persistent_lsn lm.
Proof.
  intros [H1 H2 H3 H4] HT HS HF. cbn [fst snd] in *. rewrite length_encode in HS.
  assert (HB : LogBufferSize < 2 ^ 31) by done.
  unfold mbind, st_mbind, put_header, put_body. rewrite go_copy_Ok by lia. mred.
  cbn [set_log_buffer offset log_buffer next_lsn persistent_lsn flush_buffer].
  pose proof (length_header r) as HH.
  rewrite (u32_small (offset lm + HEADER_SIZE)) by (unfold in_u32, HEADER_SIZE; lia).
  rewrite write_body_ok; [|done|unfold HEADER_SIZE; lia|..];
    rewrite ?length_overwrite by lia; [|unfold HEADER_SIZE; lia|lia].
  mred. rewrite u32_small by (unfold in_u32; lia).
  replace (Z.to_nat (offset lm + HEADER_SIZE)) with (Z.to_nat (offset lm) + length (GetLogHeaderData r))%nat
    by (unfold HEADER_SIZE; lia).
  rewrite overwrite_app by lia. fold (encode r). pose proof (length_encode r) as HE.
  eexists. split; [done|]. split; [split; simpl; rewrite ?length_overwrite by lia; try done; lia|].
  split; [|done]. unfold log_stream. cbn [fst snd offset log_buffer].
  replace (Z.to_nat (offset lm + Size r)) with (Z.to_nat (offset lm) + length (encode r))%nat by lia.
  rewrite take_overwrite by lia. by rewrite app_assoc.
Qed.

Lemma take_overwrite_before off src data :
  (off ≤ length data)%nat → take off (overwrite off src data) = take off data.
Proof.
  intros H. unfold overwrite. rewrite take_app_le by (rewrite length_take; lia).
  rewrite take_take. f_equal. lia.
Qed.

Lemma put_header_run r lm d :
  log_wf (lm, d) →
  ∃ lm', put_header r (lm, d) = Ok (tt, (lm', d)) ∧ log_wf (lm', d) ∧
    log_stream (lm', d) = log_stream (lm, d) ∧ offset lm' = offset lm ∧
    next_lsn lm' = next_lsn lm ∧ log_buffer_lsn lm' = log_buffer_lsn lm ∧
    persistent_lsn lm' = persistent_lsn lm.
Proof.
  intros [H1 H2 H3 H4]. cbn [fst snd] in *. unfold put_header. rewrite go_copy_Ok by lia. mred.
  eexists. split; [done|]. split; [split; simpl; rewrite ?length_overwrite by lia; done|].
  unfold log_stream. simpl. by rewrite take_overwrite_before by lia.
Qed.

(** What an append leaves: everything but whether it flushed. *)
Definition appended (r : LogRecord) (s s' : log_state) : Prop :=
  log_wf s' ∧ log_stream s' = log_stream s ++ encode r ∧
  next_lsn (fst s') = i32 (Lsn r + 1) ∧ log_buffer_lsn (fst s') = Lsn r ∧
  (persistent_lsn (fst s') = persistent_lsn (fst s) ∧
     content (log (snd s')) = content (log (snd s)) ∨
   LogBufferSize - offset (fst s) < Size r ∧ persistent_lsn (fst s') = log_buffer_lsn (fst s) ∧
     content (log (snd s')) = log_stream s) ∧
  db (snd s') = db (snd s) ∧ nextPageID (snd s') = nextPageID (snd s).

Definition appendable (r : LogRecord) : Prop :=
  Forall tuple_ok (record_tuples r) ∧ Size r = Z.of_nat (length (encode r)) ∧
  Size r ≤ LogBufferSize.

Lemma appendable_set_Lsn lsn r : appendable r → appendable (set_Lsn lsn r).
Proof.
  unfold appendable, record_tuples. intros (H1 & H2 & H3).
  split_and!; [done| |done]. rewrite length_encode in *. done.
Qed.

Lemma take_lsn_run lm d :
  log_wf (lm, d) →
  ∃ lm', take_lsn (lm, d) = Ok (next_lsn lm, (lm', d)) ∧ log_wf (lm', d) ∧
    log_stream (lm', d) = log_stream (lm, d) ∧ offset lm' = offset lm ∧
    next_lsn lm' = i32 (next_lsn lm + 1) ∧ log_buffer_lsn lm' = log_buffer_lsn lm ∧
    persistent_lsn lm' = persistent_lsn lm.
Proof. intros [H1 H2 H3 H4]. eexists. split; [done|]. by split; [split|]. Qed.

Lemma append_tail_run r lm d :
  log_wf (lm, d) → appendable r → next_lsn lm = i32 (Lsn r + 1) →
  ∃ s', append_tail r (lm, d) = Ok (tt, s') ∧ appended r (lm, d) s'.
Proof.
  intros W (HT & HS & HL) HN. unfold append_tail.
  destruct (put_header_run r lm d W) as (lm1 & E1 & W1 & S1 & O1 & N1 & B1 & P1).
  rewrite (st_bind_run _ _ _ _ _ E1). unfold st_get at 1.
  rewrite (st_bind_run _ _ _ _ _ eq_refl). cbn [fst]. rewrite (log_space_wf _ _ W1), O1.
  destruct (Z.ltb_spec (LogBufferSize - offset lm) (Size r)) as [HF|HF].
  - destruct (Flush_run lm1 d W1) as (lm2 & d2 & E2 & W2 & C2 & O2 & S2 & N2 & B2 & P2 & D2 & D2').
    destruct (put_header_body r lm2 d2 W2 HT HS) as (lm3 & E3 & W3 & S3 & N3 & B3 & P3);
      [rewrite O2; lia|].
    exists (lm3, d2). split.
    + apply st_bind_Ok in E3 as (? & s3 & E3 & E3').
      apply st_bind_Ok. exists tt, s3. split; [|done].
      apply st_bind_Ok. by exists tt, (lm2, d2); destruct x.
    + unfold appended. cbn [fst snd]. rewrite S3, S2, S1, N3, N2, N1. split_and!; try done.
      right. split; [done|]. split; congruence.
  - destruct (put_header_body r lm d W HT HS) as (lm3 & E3 & W3 & S3 & N3 & B3 & P3); [lia|].
    exists (lm3, d). split.
    + apply st_bind_Ok in E3 as (? & s3 & E3 & E3'). rewrite E1 in E3. injection E3 as <- <-.
      by apply st_bind_Ok; exists tt, (lm1, d).
    + unfold appended. cbn [fst snd]. rewrite S3, N3. split_and!; try done. by left.
Qed.

Lemma AppendLogRecord_run r lm d :
  log_wf (lm, d) → appendable r →
  ∃ s', AppendLogRecord r (lm, d) = Ok ((next_lsn lm, set_Lsn (next_lsn lm) r), s') ∧
    appended (set_Lsn (next_lsn lm) r) (lm, d) s'.
Proof.
  intros W HA. unfold AppendLogRecord. unfold st_get at 1.
  rewrite (st_bind_run _ _ _ _ _ eq_refl). cbn [fst]. rewrite (log_space_wf _ _ W).
  assert (∃ lm1 d1, (if LogBufferSize - offset lm <? HEADER_SIZE then Flush else mret tt) (lm, d) =
      Ok (tt, (lm1, d1)) ∧ log_wf (lm1, d1) ∧ log_stream (lm1, d1) = log_stream (lm, d) ∧
      next_lsn lm1 = next_lsn lm ∧ log_buffer_lsn lm1 = log_buffer_lsn lm ∧
      (persistent_lsn lm1 = persistent_lsn lm ∧ content (log d1) = content (log d) ∨
       LogBufferSize - offset lm < HEADER_SIZE ∧
       persistent_lsn lm1 = log_buffer_lsn lm ∧ content (log d1) = log_stream (lm, d)) ∧
      (offset lm1 = offset lm ∨ LogBufferSize - offset lm < HEADER_SIZE) ∧
      db d1 = db d ∧ nextPageID d1 = nextPageID d)
    as (lm1 & d1 & E1 & W1 & S1 & N1 & B1 & P1 & O1 & D1 & D1').
  { destruct (Z.ltb_spec (LogBufferSize - offset lm) HEADER_SIZE).
    - destruct (Flush_run lm d W) as (lm2 & d2 & E2 & W2 & C2 & O2 & S2 & N2 & B2 & P2 & D2 & D2').
      exists lm2, d2. split_and!; auto.
    - exists lm, d. split_and!; auto. }
  rewrite (st_bind_run _ _ _ _ _ E1).
  destruct (take_lsn_run lm1 d1 W1) as (lm2 & E2 & W2 & S2 & O2 & N2 & B2 & P2).
  rewrite (st_bind_run _ _ _ _ _ E2), N1.
  destruct (append_tail_run (set_Lsn (next_lsn lm) r) lm2 d1 W2) as (s3 & E3 & A3).
  { by apply appendable_set_Lsn. }
  { rewrite N2, N1. done. }
  rewrite (st_bind_run _ _ _ _ _ E3). exists s3. split; [done|].
  destruct A3 as (W3 & S3 & N3 & B3 & P3 & D3 & D3'). cbn [fst snd] in *.
  unfold appended. cbn [fst snd]. split_and!; try done; try congruence.
  assert (HS : HEADER_SIZE ≤ Size r).
  { destruct HA as (_ & -> & _). rewrite length_encode. unfold HEADER_SIZE. lia. }
  cbn [Size set_Lsn set_header] in *. clear - P1 P3 B1 B2 P2 S1 S2 O1 O2 HS.
  destruct P1 as [[P1 C1]|(F1 & P1 & C1)], P3 as [[P3 C3]|(F3 & P3 & C3)]; [left|right..];
    (split; [|try split]); first [congruence | lia].
Qed.

(** ** Runs of the log manager *)
Inductive log_op : Type := OpAppend (r : LogRecord) | OpFlush.

(** The result lists the records appended, with the LSNs they were given. *)
Fixpoint run_log (os : list log_op) : st log_state (list LogRecord) :=
  match os with
  | [] => mret []
  | OpAppend r :: os' => p ← AppendLogRecord r; rs ← run_log os'; mret (snd p :: rs)
  | OpFlush :: os' => _ ← Flush; run_log os'
  end.

Definition op_records (os : list log_op) : list LogRecord :=
  omap (λ o, match o with OpAppend r => Some r | OpFlush => None end) os.

Definition encode_all (rs : list LogRecord) : list byte := mjoin (encode <$> rs).

Lemma encode_all_app l1 l2 : encode_all (l1 ++ l2) = encode_all l1 ++ encode_all l2.
Proof. unfold encode_all. by rewrite fmap_app, join_app. Qed.

Lemma encode_all_single r : encode_all [r] = encode r.
Proof. exact (app_nil_r (encode r)). Qed.

(** [recs] have been appended after the log [base]; the first [k] of them are in
    the file, and [persistent_lsn] is the LSN of the last of those. *)
Record log_inv (base : list byte) (recs : list LogRecord) (k : nat) (s : log_state) : Prop := {
  inv_wf : log_wf s;
  inv_stream : log_stream s = base ++ encode_all recs;
  inv_next : next_lsn (fst s) = Z.of_nat (length recs);
  inv_buf_lsn : log_buffer_lsn (fst s) = Z.of_nat (length recs) - 1;
  inv_k : (k ≤ length recs)%nat;
  inv_file : content (log (snd s)) = base ++ encode_all (take k recs);
  inv_persistent : persistent_lsn (fst s) = Z.of_nat k - 1
}.

Lemma log_inv_flush base recs k s :
  log_inv base recs k s → ∃ s', Flush s = Ok (tt, s') ∧ log_inv base recs (length recs) s'.
Proof.
  intros [W S N B K F P]. destruct s as [lm d].
  destruct (Flush_run lm d W) as (lm2 & d2 & E2 & W2 & C2 & O2 & S2 & N2 & B2 & P2 & D2 & D2').
  exists (lm2, d2). split; [done|]. cbn [fst snd] in *. split; cbn [fst snd]; try congruence; try lia.
  rewrite C2, S. by rewrite take_ge by lia.
Qed.

Lemma log_inv_append base recs k r s :
  log_inv base recs k s → appendable r → Z.of_nat (length recs) + 1 < 2 ^ 31 →
  ∃ s' k', AppendLogRecord r s =
      Ok ((Z.of_nat (length recs), set_Lsn (Z.of_nat (length recs)) r), s') ∧
    log_inv base (recs ++ [set_Lsn (Z.of_nat (length recs)) r]) k' s'.
Proof.
  intros [W S N B K F P] HA HL. destruct s as [lm d]. cbn [fst snd] in *.
  destruct (AppendLogRecord_run r lm d W HA) as (s' & E & W' & S' & N' & B' & P' & _).
  cbn [fst snd] in *. rewrite N in *.
  assert (S1 : log_stream s' = base ++ encode_all (recs ++ [set_Lsn (Z.of_nat (length recs)) r])).
  { by rewrite S', S, encode_all_app, encode_all_single, app_assoc. }
  assert (N1 : next_lsn (fst s') = Z.of_nat (length (recs ++ [set_Lsn (Z.of_nat (length recs)) r]))).
  { rewrite N', length_app. cbn [Lsn set_Lsn set_header length].
    rewrite i32_small by (unfold in_i32; lia). lia. }
  exists s'. destruct P' as [[P1 C1]|(_ & P1 & C1)]; [exists k|exists (length recs)]; (split; [exact E|]);
    (split; try done; try (rewrite length_app; cbn [length]; lia)).
  - rewrite B', length_app. cbn. lia.
  - by rewrite take_app_le, C1, F by lia.
  - congruence.
  - rewrite B', length_app. cbn. lia.
  - rewrite take_app_le, take_ge by lia. congruence.
  - congruence.
Qed.

Lemma run_log_inv os base recs k s :
  log_inv base recs k s → Forall appendable (op_records os) →
  Z.of_nat (length recs + length os) < 2 ^ 31 →
  ∃ s' k',
    run_log os s = Ok (imap (λ i, set_Lsn (Z.of_nat (length recs + i))) (op_records os), s') ∧
    log_inv base (recs ++ imap (λ i, set_Lsn (Z.of_nat (length recs + i))) (op_records os)) k' s'.
Proof.
  revert recs k s. induction os as [|[r|] os IH]; intros recs k s HI HA HL; simpl.
  - exists s, k. split; [done|]. by rewrite app_nil_r.
  - simpl in HA. apply Forall_cons in HA as [Hr HA]. simpl in HL.
    destruct (log_inv_append _ _ _ r _ HI Hr) as (s1 & k1 & E1 & I1); [lia|].
    rewrite (st_bind_run _ _ _ _ _ E1).
    destruct (IH _ _ _ I1 HA) as (s2 & k2 & E2 & I2); [rewrite length_app; simpl; lia|].
    rewrite (st_bind_run _ _ _ _ _ E2). exists s2, k2.
    assert (EI : imap (λ i, set_Lsn (Z.of_nat (length (recs ++
                   [set_Lsn (Z.of_nat (length recs)) r]) + i))) (op_records os) =
                 imap ((λ i, set_Lsn (Z.of_nat (length recs + i))) ∘ S) (op_records os)).
    { apply imap_ext. intros i x _. rewrite length_app. simpl. do 2 f_equal. lia. }
    rewrite EI in *. cbn [snd]. rewrite Nat.add_0_r.
    split; [done|]. rewrite <- app_assoc in I2. exact I2.
  - destruct (log_inv_flush _ _ _ _ HI) as (s1 & E1 & I1).
    rewrite (st_bind_run _ _ _ _ _ E1). simpl in HL.
    destruct (IH _ _ _ I1 HA) as (s2 & k2 & E2 & I2); [lia|]. by exists s2, k2.
Qed.

Lemma NewLogManager_wf d : log_at_end d → log_wf (NewLogManager, d).
Proof.
  assert (HL : Z.of_nat (length (zeros (Z.to_nat LogBufferSize))) = LogBufferSize).
  { unfold zeros. rewrite length_replicate. apply Z2Nat.id. discriminate. }
  intros H. split; cbn [fst snd NewLogManager log_buffer flush_buffer offset];
    [exact HL|exact HL|split; discriminate|exact H].
Qed.

Lemma NewLogManager_stream d : log_stream (NewLogManager, d) = content (log d).
Proof. unfold log_stream. cbn [fst snd NewLogManager offset]. apply app_nil_r. Qed.

Lemma log_inv_first r s d :
  log_at_end d → appendable r → s = (NewLogManager, d) →
  ∃ s1, AppendLogRecord r s = Ok ((0, set_Lsn 0 r), s1) ∧
    log_inv (content (log d)) [set_Lsn 0 r] 0 s1.
Proof.
  intros HE HA ->.
  destruct (AppendLogRecord_run r _ d (NewLogManager_wf d HE) HA) as (s1 & E1 & A1).
  destruct A1 as (W & S & N & B & P & _). rewrite NewLogManager_stream in *.
  assert (P1 : persistent_lsn (fst s1) = -1 ∧ content (log (snd s1)) = content (log d)).
  { destruct P as [P|(F & _)]; [exact P|]. destruct HA as (_ & _ & HL).
    cbn [fst NewLogManager offset Size set_Lsn set_header] in F. lia. }
  destruct P1 as [P1 C1]. exists s1. split; [exact E1|].
  split; [exact W| |exact N|exact B|apply Nat.le_0_l| |exact P1].
  - rewrite encode_all_single. exact S.
  - rewrite C1. symmetry. apply app_nil_r.
Qed.

(** C21: the write-ahead log.  From a new log manager on a log file positioned
    at its end, any sequence of appends and flushes, the first of them an
    append, succeeds; the records get the LSNs 0, 1, 2, ... in order; and at
    the end the file holds, after what it held before, exactly the serialized
    records with an LSN up to [persistent_lsn], in order, and the buffer the
    serialized records after them. *)
Theorem write_ahead_log r os d :
  log_at_end d → Forall appendable (r :: op_records os) → Z.of_nat (length os) + 1 < 2 ^ 31 →
  let recs := imap (λ i, set_Lsn (Z.of_nat i)) (r :: op_records os) in
  ∃ s', run_log (OpAppend r :: os) (NewLogManager, d) = Ok (recs, s') ∧
    let k := Z.to_nat (persistent_lsn (fst s') + 1) in
    content (log (snd s')) = content (log d) ++ encode_all (take k recs) ∧
    take (Z.to_nat (offset (fst s'))) (log_buffer (fst s')) = encode_all (drop k recs).
Proof.
  intros HE HA HL recs. apply Forall_cons in HA as [Hr HA].
  destruct (log_inv_first r _ d HE Hr eq_refl) as (s1 & E1 & I1).
  destruct (run_log_inv os _ _ _ _ I1 HA) as (s' & k & E2 & I2); [simpl; lia|].
  exists s'. split.
  { cbn [run_log]. rewrite (st_bind_run _ _ _ _ _ E1), (st_bind_run _ _ _ _ _ E2). done. }
  cbv zeta. rewrite (inv_persistent _ _ _ _ I2).
  replace (Z.to_nat (Z.of_nat k - 1 + 1)) with k by lia.
  pose proof (inv_file _ _ _ _ I2) as HF. split; [exact HF|].
  pose proof (inv_stream _ _ _ _ I2) as HS. unfold log_stream in HS. rewrite HF in HS.
  rewrite <- app_assoc in HS. apply app_inv_head in HS.
  change ([set_Lsn 0 r] ++ _) with recs in HS.
  rewrite <- (take_drop k recs) in HS at 2. rewrite encode_all_app in HS.
  by apply app_inv_head in HS.
Qed.

Definition empty_disk : DiskManagerImpl := NewDiskManagerImpl [] [].

Lemma write_ahead_log_witness :
  let r := NewLogRecordTxn 1 (-1) BEGIN in
  ∃ s', run_log [OpAppend r; OpFlush; OpAppend r] (NewLogManager, empty_disk) =
      Ok ([set_Lsn 0 r; set_Lsn 1 r], s') ∧
    content (log (snd s')) = encode_all (take (Z.to_nat (persistent_lsn (fst s') + 1))
                                           [set_Lsn 0 r; set_Lsn 1 r]).
Proof.
  intros r.
  destruct (write_ahead_log r [OpFlush; OpAppend r] empty_disk) as (s' & E & C & _).
  - reflexivity.
  - repeat constructor; vm_compute; discriminate.
  - reflexivity.
  - exists s'. split; [exact E|exact C].
Defined.

(** A flush before the first append makes the log manager claim LSN 0 as
    persistent: the record that is then given LSN 0 counts as persistent while
    the log file does not hold it. *)
Theorem early_flush_claims_lsn_0 r d :
  log_at_end d → appendable r →
  ∃ lsn s1 s2, Flush (NewLogManager, d) = Ok (tt, s1) ∧
    AppendLogRecord r s1 = Ok ((lsn, set_Lsn lsn r), s2) ∧
    lsn ≤ GetPersistentLSN (fst s2) ∧ content (log (snd s2)) = content (log d).
Proof.
  intros HE HA.
  destruct (Flush_run _ d (NewLogManager_wf d HE))
    as (lm1 & d1 & E1 & W1 & C1 & O1 & S1 & N1 & B1 & P1 & _).
  destruct (AppendLogRecord_run r lm1 d1 W1 HA) as (s2 & E2 & W2 & S2 & N2 & B2 & P2 & _).
  rewrite NewLogManager_stream in C1.
  exists (next_lsn lm1), (lm1, d1), s2. split_and!; [exact E1|exact E2| |].
  - rewrite N1. unfold GetPersistentLSN. cbn [fst snd] in *.
    destruct P2 as [[-> _]|(F & _)]; [by rewrite P1|].
    destruct HA as (_ & _ & HL). rewrite O1 in F. cbn [Size set_Lsn set_header] in F. lia.
  - cbn [fst snd] in *. destruct P2 as [[_ ->]|(F & _)]; [done|].
    destruct HA as (_ & _ & HL). rewrite O1 in F. cbn [Size set_Lsn set_header] in F. lia.
Qed.

Lemma early_flush_claims_lsn_0_witness :
  ∃ lsn s1 s2, Flush (NewLogManager, empty_disk) = Ok (tt, s1) ∧
    AppendLogRecord (NewLogRecordTxn 1 (-1) BEGIN) s1 =
      Ok ((lsn, set_Lsn lsn (NewLogRecordTxn 1 (-1) BEGIN)), s2) ∧
    lsn ≤ GetPersistentLSN (fst s2) ∧ content (log (snd s2)) = [].
Proof.
  apply (early_flush_claims_lsn_0 (NewLogRecordTxn 1 (-1) BEGIN) empty_disk).
  - reflexivity.
  - repeat constructor; vm_compute; discriminate.
Defined.
