(* ===== verification/Replacer.v ===== *)
(** * The replacement policy as an interface

    The contract the buffer pool relies on: a replacer tracks the set of
    evictable frames.  The class states it with the set as abstract state;
    [storage/buffer/clock_replacer.go] implements it.  The buffer pool's theorems are proved against the class. *)

From S2P Require Import Prelude ClockReplacer.

(** [r_rep r E n]: [r] tracks the evictable frames [E] and has room for [n]. *)
Class Replacer (R : Type) : Type := {
  r_Victim : R → res (option Z * R);
  r_Pin : Z → R → res R;
  r_Unpin : Z → R → res R;
  r_new : Z → R;
  r_rep : R → gset Z → nat → Prop;

  r_new_rep n : in_u32 n → r_rep (r_new n) ∅ (Z.to_nat n);
  r_Victim_rep r E n : r_rep r E n →
    ∃ o r', r_Victim r = Ok (o, r') ∧
      match o with
      | None => E = ∅ ∧ r_rep r' ∅ n
      | Some f => f ∈ E ∧ r_rep r' (E ∖ {[f]}) n
      end;
  r_Pin_rep r E n f : r_rep r E n → ∃ r', r_Pin f r = Ok r' ∧ r_rep r' (E ∖ {[f]}) n;
  r_Unpin_rep r E n f : r_rep r E n → f ∈ E ∨ (size E < n)%nat →
    ∃ r', r_Unpin f r = Ok r' ∧ r_rep r' ({[f]} ∪ E) n
}.

(** The frames of a ring. *)
Definition ring_frames (a : ring) : gset Z := list_to_set (entries a).*1.

Definition clock_tracks (r : ClockReplacer) (E : gset Z) (n : nat) : Prop :=
  ∃ a, clock_rep r a ∧ NoDup (entries a).*1 ∧ ring_frames a = E ∧
    capacity (cList r) = Z.of_nat n.

Lemma clock_rep_keys r a : clock_rep r a → NoDup (entries a).*1.
Proof. intros (ls & R & _). apply (rep_keys _ _ _ R). Qed.

Lemma ring_unlink_frames a i k b :
  NoDup (entries a).*1 → entries a !! i = Some (k, b) →
  ring_frames (ring_unlink i a) = ring_frames a ∖ {[k]}.
Proof.
  intros ND H. unfold ring_frames, ring_unlink. cbn [entries].
  assert (EP : (entries a).*1 ≡ₚ k :: (delete i (entries a)).*1).
  { change (k :: (delete i (entries a)).*1) with (((k, b) :: delete i (entries a)).*1).
    apply fmap_Permutation. by apply delete_Permutation. }
  rewrite EP in ND |- *. apply NoDup_cons in ND as [Hk _]. simpl.
  rewrite difference_union_distr_l_L, difference_diag_L, (left_id_L ∅ (∪)).
  symmetry. apply difference_disjoint_L. apply disjoint_singleton_r.
  by rewrite elem_of_list_to_set.
Qed.

Lemma ring_size a : NoDup (entries a).*1 → size (ring_frames a) = length (entries a).
Proof. intros ND. unfold ring_frames. by rewrite size_list_to_set, length_fmap. Qed.

Lemma clock_Victim_tracks r E n :
  clock_tracks r E n →
  ∃ o r', Victim r = Ok (o, r') ∧
    match o with
    | None => E = ∅ ∧ clock_tracks r' ∅ n
    | Some f => f ∈ E ∧ clock_tracks r' (E ∖ {[f]}) n
    end.
Proof.
  intros (a & HR & ND & HE & HC).
  destruct (Victim_refines r a HR) as (r' & HV & HR' & HC'). rewrite HV.
  eexists _, r'. split; [done|]. pose proof (clock_rep_keys _ _ HR') as ND'.
  unfold ring_Victim in *. destruct (entries a !! hand a) as [[k b]|] eqn:Eh; simpl in *.
  - split.
    + rewrite <- HE. unfold ring_frames. apply elem_of_list_to_set, list_elem_of_fmap.
      exists (k, b). split; [done|]. by apply list_elem_of_lookup_2 in Eh.
    + exists (ring_unlink (hand a) a). split_and!; [done|done| |congruence].
      rewrite <- HE. by eapply ring_unlink_frames.
  - assert (Ea : entries a = []).
    { destruct HR as (ls & R & HH). pose proof (rep_len _ _ _ R) as HL.
      apply lookup_ge_None in Eh. apply length_zero_iff_nil.
      destruct (decide (length (entries a) = 0%nat)) as [|Hn]; [done|].
      destruct (deref_hand_rep _ _ _ _ _ R HH) as [_ Hlt]; lia. }
    assert (E = ∅) as -> by (rewrite <- HE; unfold ring_frames; by rewrite Ea).
    split; [done|]. exists a. split_and!; [done..|congruence].
Qed.

Lemma clock_Pin_tracks r E n f :
  clock_tracks r E n → ∃ r', Pin f r = Ok r' ∧ clock_tracks r' (E ∖ {[f]}) n.
Proof.
  intros (a & HR & ND & HE & HC).
  destruct (Pin_refines f r a HR) as (r' & HV & HR' & HC').
  exists r'. split; [done|]. exists (ring_Pin f a).
  split_and!; [done|by apply clock_rep_keys in HR'| |congruence].
  unfold ring_Pin. destruct (key_idx f (entries a)) as [i|] eqn:Ek.
  - destruct (key_idx_Some _ _ _ Ek) as [b Hb]. rewrite <- HE. by eapply ring_unlink_frames.
  - apply key_idx_None in Ek. rewrite HE.
    assert (f ∉ E) by (rewrite <- HE; unfold ring_frames; by rewrite elem_of_list_to_set).
    set_solver.
Qed.

Lemma clock_Unpin_tracks r E n f :
  clock_tracks r E n → f ∈ E ∨ (size E < n)%nat →
  ∃ r', Unpin f r = Ok r' ∧ clock_tracks r' ({[f]} ∪ E) n.
Proof.
  intros (a & HR & ND & HE & HC) HF.
  destruct (Unpin_refines f r a HR) as (r' & HV & HR' & HC').
  exists r'. split; [done|]. eexists.
  split_and!; [exact HR'|by apply clock_rep_keys in HR'| |congruence].
  unfold ring_Unpin. rewrite HC, Nat2Z.id.
  assert (Hf : f ∈ E ↔ is_Some (key_idx f (entries a))).
  { rewrite <- HE. unfold ring_frames. rewrite elem_of_list_to_set.
    destruct (key_idx f (entries a)) as [i|] eqn:Ek.
    - split; [by eauto|]. intros _. destruct (key_idx_Some _ _ _ Ek) as [b Hb].
      apply list_elem_of_fmap. exists (f, b). split; [done|]. by apply list_elem_of_lookup_2 in Hb.
    - apply key_idx_None in Ek. split; [done|by intros []]. }
  rewrite <- HE, ring_size in HF by done. rewrite HE in HF.
  destruct (decide _) as [[Hk|Hk]|Hk].
  - rewrite HE. apply Hf in Hk. set_solver.
  - destruct HF as [HF|HF]; [|lia]. rewrite HE. set_solver.
  - unfold ring_frames in *. cbn [entries]. rewrite fmap_app, list_to_set_app_L, HE. set_solver.
Qed.

Lemma clock_new_tracks n : in_u32 n → clock_tracks (NewClockReplacer n) ∅ (Z.to_nat n).
Proof.
  intros Hn. exists (MkRing [] O). split_and!; [by apply NewClockReplacer_rep|constructor|done|].
  unfold in_u32 in Hn. simpl. lia.
Qed.

#[global] Instance ClockReplacer_Replacer : Replacer ClockReplacer := {
  r_Victim := Victim;
  r_Pin := Pin;
  r_Unpin := Unpin;
  r_new := NewClockReplacer;
  r_rep := clock_tracks;
  r_new_rep := clock_new_tracks;
  r_Victim_rep := clock_Victim_tracks;
  r_Pin_rep := clock_Pin_tracks;
  r_Unpin_rep := clock_Unpin_tracks
}.
