(* ===== verification/Page.v ===== *)
(** * Pages in memory ([storage/page/page.go], [common/rwlatch.go])

    A page object carries its id, pin count, dirty flag, latch and 4096 bytes.
    Page objects are shared by pointer between the buffer pool and its callers:
    they live in a heap of pages, and operations on a page run on the object the
    pointer names. *)

From S2P Require Import Prelude Bytes Disk.

(** ** Latches

    [sync.RWMutex] as a single goroutine sees it: acquiring a latch somebody
    holds in a conflicting mode blocks, releasing one that is not held is a
    fatal error. *)
Record Latch : Type := MkLatch { readers : Z; writer : bool }.
Definition NewRWLatch : Latch := MkLatch 0 false.

Definition WLock (l : Latch) : res Latch :=
  if writer l || (0 <? readers l) then Blocked else Ok (MkLatch (readers l) true).
Definition WUnlock (l : Latch) : res Latch :=
  if writer l then Ok (MkLatch (readers l) false) else Panic.
Definition RLock (l : Latch) : res Latch :=
  if writer l then Blocked else Ok (MkLatch (readers l + 1) (writer l)).
Definition RUnlock (l : Latch) : res Latch :=
  if 0 <? readers l then Ok (MkLatch (readers l - 1) (writer l)) else Panic.

(** ** Pages *)
Record Page : Type := MkPage {
  id : Z;
  pinCount : Z;
  isDirty : bool;
  pdata : list byte;
  rwlatch_ : Latch
}.

Definition set_pinCount (n : Z) (p : Page) : Page :=
  MkPage (id p) n (isDirty p) (pdata p) (rwlatch_ p).
Definition SetIsDirty (b : bool) (p : Page) : Page :=
  MkPage (id p) (pinCount p) b (pdata p) (rwlatch_ p).
Definition set_pdata (d : list byte) (p : Page) : Page :=
  MkPage (id p) (pinCount p) (isDirty p) d (rwlatch_ p).
Definition set_latch (l : Latch) (p : Page) : Page :=
  MkPage (id p) (pinCount p) (isDirty p) (pdata p) l.

Definition IncPinCount (p : Page) : Page := set_pinCount (u32 (pinCount p + 1)) p.
Definition DecPinCount (p : Page) : Page :=
  if 0 <? pinCount p then set_pinCount (pinCount p - 1) p else p.

(** [New] of a page: pinned once. *)
Definition New_page (pid : Z) (dirty : bool) (data : list byte) : Page :=
  MkPage pid 1 dirty data NewRWLatch.
Definition NewEmpty (pid : Z) : Page :=
  MkPage pid 1 false (zeros (Z.to_nat PageSize)) NewRWLatch.

Definition OffsetLSN : Z := 4.
Definition Page_Copy (offset : Z) (bs : list byte) (p : Page) : res Page :=
  d ← go_copy (pdata p) offset bs; Ok (set_pdata d p).
Definition GetLSN (p : Page) : Z := NewLSNFromBytes (drop (Z.to_nat OffsetLSN) (pdata p)).
Definition SetLSN (lsn : Z) (p : Page) : Page :=
  set_pdata (overwrite (Z.to_nat OffsetLSN) (LSN_Serialize lsn) (pdata p)) p.

Definition on_latch (f : Latch → res Latch) (p : Page) : res Page :=
  l ← f (rwlatch_ p); Ok (set_latch l p).
Definition WLatch : Page → res Page := on_latch WLock.
Definition WUnlatch : Page → res Page := on_latch WUnlock.
Definition RLatch : Page → res Page := on_latch RLock.
Definition RUnlatch : Page → res Page := on_latch RUnlock.

(** ** The heap of pages *)
Abbreviation ptr := nat (only parsing).
Abbreviation page_heap := (gmap nat Page) (only parsing).

Definition unlatched (p : Page) : Prop := rwlatch_ p = NewRWLatch.

Lemma WLatch_WUnlatch p :
  unlatched p → ∃ p', WLatch p = Ok p' ∧ ∀ q, rwlatch_ q = rwlatch_ p' →
    WUnlatch q = Ok (set_latch NewRWLatch q).
Proof.
  intros H. unfold WLatch, on_latch, WLock. rewrite H. simpl.
  eexists. split; [done|]. intros q Hq. unfold WUnlatch, on_latch. by rewrite Hq.
Qed.

Lemma GetLSN_SetLSN lsn p :
  in_i32 lsn → length (pdata p) = Z.to_nat PageSize → GetLSN (SetLSN lsn p) = lsn.
Proof.
  intros Hl HL. unfold GetLSN, SetLSN, NewLSNFromBytes, OffsetLSN. simpl.
  change (Z.to_nat 4) with 4%nat.
  change (read_le 4 (drop 4 ?d)) with (field 4 d). unfold LSN_Serialize.
  rewrite field_overwrite_eq by (rewrite HL; unfold PageSize; lia).
  autorewrite with samehada. by apply i32_small.
Qed.
