(* ===== verification/BufferPool.v ===== *)
(** * Buffer pool manager ([storage/buffer/buffer_pool_manager.go])

    The pool maps page ids to frames and frames to page objects.  Its operations
    run on the whole storage state: the disk manager, the log manager (whose
    buffer an eviction flushes first), the heap of page objects and the pool
    itself.  The replacer is any implementation of [Replacer].

    Each critical section of the Go code is a definition of its own
    ([fetch_cached], [getFrameID], [evict], [fetch_load]), composed by the
    operations as the code composes them; a sequential call runs them one after
    the other, and [fetch_step] interleaves them.

    A map's iteration order is not determined: [FlushAllPages] takes it as an
    argument. *)

From S2P Require Import Prelude Bytes Disk LogManager ClockReplacer Replacer Page.

Record BufferPoolManager (R : Type) : Type := MkBPM {
  pages : list (option ptr);
  replacer : R;
  freeList : list Z;
  pageTable : gmap Z Z
}.
Arguments MkBPM {R}.
Arguments pages {R}.
Arguments replacer {R}.
Arguments freeList {R}.
Arguments pageTable {R}.

Record Store (R : Type) : Type := MkStore {
  diskManager : DiskManagerImpl;
  log_manager : LogManager;
  page_objs : page_heap;
  fresh_ptr : ptr;
  bpm : BufferPoolManager R
}.
Arguments MkStore {R}.
Arguments diskManager {R}.
Arguments log_manager {R}.
Arguments page_objs {R}.
Arguments fresh_ptr {R}.
Arguments bpm {R}.

Section pool.
Context {R : Type} `{Replacer R}.

Definition set_disk (d : DiskManagerImpl) (s : Store R) : Store R :=
  MkStore d (log_manager s) (page_objs s) (fresh_ptr s) (bpm s).
Definition set_objs (h : page_heap) (s : Store R) : Store R :=
  MkStore (diskManager s) (log_manager s) h (fresh_ptr s) (bpm s).
Definition set_bpm (b : BufferPoolManager R) (s : Store R) : Store R :=
  MkStore (diskManager s) (log_manager s) (page_objs s) (fresh_ptr s) b.

(** ** Access to the parts of the state *)
Definition get_log (s : Store R) : log_state := (log_manager s, diskManager s).
Definition set_log_state (l : log_state) (s : Store R) : Store R :=
  MkStore (snd l) (fst l) (page_objs s) (fresh_ptr s) (bpm s).
Definition with_log {A} (m : st log_state A) : st (Store R) A := zoom get_log set_log_state m.

Definition read_page (p : ptr) : st (Store R) Page := λ s,
  pg ← deref (page_objs s !! p); Ok (pg, s).
Definition update_page (p : ptr) (f : Page → res Page) : st (Store R) unit := λ s,
  pg ← deref (page_objs s !! p); pg' ← f pg; Ok (tt, set_objs (<[p := pg']> (page_objs s)) s).
Definition alloc_page (pg : Page) : st (Store R) ptr := λ s,
  let p := fresh_ptr s in
  Ok (p, MkStore (diskManager s) (log_manager s) (<[p := pg]> (page_objs s)) (S p) (bpm s)).

Definition write_disk (pid : Z) (d : list byte) : st (Store R) unit := λ s,
  Ok (tt, set_disk (snd (WritePage pid d (diskManager s))) s).

Definition with_replacer {A} (f : R → res (A * R)) : st (Store R) A := λ s,
  let b := bpm s in
  p ← f (replacer b);
  Ok (fst p, set_bpm (MkBPM (pages b) (snd p) (freeList b) (pageTable b)) s).
Definition replacer_Pin (f : Z) : st (Store R) unit :=
  with_replacer (λ r, r' ← r_Pin f r; Ok (tt, r')).
Definition replacer_Unpin (f : Z) : st (Store R) unit :=
  with_replacer (λ r, r' ← r_Unpin f r; Ok (tt, r')).

Definition set_freeList (l : list Z) : st (Store R) unit := λ s,
  let b := bpm s in
  Ok (tt, set_bpm (MkBPM (pages b) (replacer b) l (pageTable b)) s).
Definition table_insert (pid f : Z) : st (Store R) unit := λ s,
  let b := bpm s in
  Ok (tt, set_bpm (MkBPM (pages b) (replacer b) (freeList b) (<[pid := f]> (pageTable b))) s).
Definition table_delete (pid : Z) : st (Store R) unit := λ s,
  let b := bpm s in
  Ok (tt, set_bpm (MkBPM (pages b) (replacer b) (freeList b) (base.delete pid (pageTable b))) s).

Definition frame_page (f : Z) : st (Store R) (option ptr) := λ s,
  o ← index (pages (bpm s)) f; Ok (o, s).
(** [b.pages[f] = pg] *)
Definition set_frame (f : Z) (p : ptr) : st (Store R) unit := λ s,
  let b := bpm s in
  _ ← index (pages b) f;
  Ok (tt, set_bpm (MkBPM (<[Z.to_nat f := Some p]> (pages b)) (replacer b) (freeList b)
                     (pageTable b)) s).

(** ** The critical sections *)
Definition fetch_cached (pageID : Z) : st (Store R) (option ptr) :=
  s ← st_get;
  match pageTable (bpm s) !! pageID with
  | Some frameID =>
      o ← frame_page frameID;
      p ← st_lift (deref o);
      _ ← update_page p (λ pg, Ok (IncPinCount pg));
      _ ← replacer_Pin frameID;
      mret (Some p)
  | None => mret None
  end.

(** The frame and whether it comes from the free list. *)
Definition getFrameID : st (Store R) (option Z * bool) :=
  s ← st_get;
  match freeList (bpm s) with
  | frameID :: newFreeList => _ ← set_freeList newFreeList; mret (Some frameID, true)
  | [] => o ← with_replacer r_Victim; mret (o, false)
  end.

(** Removing the page a frame holds. *)
Definition evict (frameID : Z) : st (Store R) unit :=
  o ← frame_page frameID;
  match o with
  | None => mret tt
  | Some p =>
      currentPage ← read_page p;
      _ ← (if isDirty currentPage then
             _ ← with_log Flush;
             write_disk (id currentPage) (pdata currentPage)
           else mret tt);
      table_delete (id currentPage)
  end.

Definition fetch_load (pageID frameID : Z) : st (Store R) (option ptr) :=
  s ← st_get;
  let '(r, d) := ReadPage pageID (diskManager s) in
  _ ← st_modify (set_disk d);
  match r with
  | inl _ => mret None
  | inr data =>
      p ← alloc_page (New_page pageID false data);
      _ ← table_insert pageID frameID;
      _ ← set_frame frameID p;
      mret (Some p)
  end.

(** ** The operations *)
Definition FetchPage (pageID : Z) : st (Store R) (option ptr) :=
  o ← fetch_cached pageID;
  match o with
  | Some p => mret (Some p)
  | None =>
      fr ← getFrameID;
      match fst fr with
      | None => mret None
      | Some frameID =>
          _ ← (if snd fr : bool then mret tt else evict frameID);
          fetch_load pageID frameID
      end
  end.

(** [FetchPage] one critical section at a time, as concurrent callers run it. *)
Inductive fetch_pc : Type :=
| FStart (pageID : Z)
| FMiss (pageID : Z)
| FGot (pageID frameID : Z) (isFromFreeList : bool)
| FLoad (pageID frameID : Z)
| FDone (r : option ptr).

Definition fetch_advance (pc : fetch_pc) : st (Store R) fetch_pc :=
  match pc with
  | FStart pageID =>
      o ← fetch_cached pageID;
      mret (match o with Some p => FDone (Some p) | None => FMiss pageID end)
  | FMiss pageID =>
      fr ← getFrameID;
      mret (match fst fr with None => FDone None | Some f => FGot pageID f (snd fr) end)
  | FGot pageID f b =>
      _ ← (if b : bool then mret tt else evict f); mret (FLoad pageID f)
  | FLoad pageID f => o ← fetch_load pageID f; mret (FDone o)
  | FDone r => mret (FDone r)
  end.

(** Goroutines fetching pages: any of them may run its next critical section. *)
Inductive fetch_step : Store R * list fetch_pc → Store R * list fetch_pc → Prop :=
| fetch_step_one i pc pc' s s' pcs :
    pcs !! i = Some pc → fetch_advance pc s = Ok (pc', s') →
    fetch_step (s, pcs) (s', <[i := pc']> pcs).

(** The result tells whether the page was in the pool. *)
Definition UnpinPage (pageID : Z) (dirty : bool) : st (Store R) bool :=
  s ← st_get;
  match pageTable (bpm s) !! pageID with
  | Some frameID =>
      o ← frame_page frameID;
      p ← st_lift (deref o);
      _ ← update_page p (λ pg, Ok (DecPinCount pg));
      pg ← read_page p;
      _ ← (if pinCount pg <=? 0 then replacer_Unpin frameID else mret tt);
      _ ← update_page p (λ pg, Ok (if isDirty pg || dirty then SetIsDirty true pg
                                   else SetIsDirty false pg));
      mret true
  | None => mret false
  end.

Definition FlushPage (pageID : Z) : st (Store R) bool :=
  s ← st_get;
  match pageTable (bpm s) !! pageID with
  | Some frameID =>
      o ← frame_page frameID;
      p ← st_lift (deref o);
      _ ← update_page p WLatch;
      _ ← update_page p (λ pg, Ok (DecPinCount pg));
      pg ← read_page p;
      _ ← write_disk pageID (pdata pg);
      _ ← update_page p (λ pg, Ok (SetIsDirty false pg));
      _ ← update_page p WUnlatch;
      mret true
  | None => mret false
  end.

Definition NewPage : st (Store R) (option ptr) :=
  fr ← getFrameID;
  match fst fr with
  | None => mret None
  | Some frameID =>
      _ ← (if snd fr : bool then mret tt else evict frameID);
      s ← st_get;
      let '(pageID, d) := AllocatePage (diskManager s) in
      _ ← st_modify (set_disk d);
      p ← alloc_page (NewEmpty pageID);
      _ ← table_insert pageID frameID;
      _ ← set_frame frameID p;
      mret (Some p)
  end.

Inductive pool_error : Type := ErrPinCount.

Definition DeletePage (pageID : Z) : st (Store R) (option pool_error) :=
  s ← st_get;
  match pageTable (bpm s) !! pageID with
  | None => mret None
  | Some frameID =>
      o ← frame_page frameID;
      p ← st_lift (deref o);
      _ ← update_page p WLatch;
      pg ← read_page p;
      if 0 <? pinCount pg then
        _ ← update_page p WUnlatch; mret (Some ErrPinCount)
      else
        _ ← table_delete (id pg);
        _ ← replacer_Pin frameID;
        _ ← st_modify (λ s, set_disk (DeallocatePage pageID (diskManager s)) s);
        _ ← update_page p WUnlatch;
        s1 ← st_get;
        _ ← set_freeList (freeList (bpm s1) ++ [frameID]);
        mret None
  end.

Fixpoint FlushPages (pageIDs : list Z) : st (Store R) unit :=
  match pageIDs with
  | [] => mret tt
  | pageID :: l => _ ← FlushPage pageID; FlushPages l
  end.
(** [order] is the order in which the keys of the page table were visited. *)
Definition FlushAllPages (order : list Z) : st (Store R) unit := FlushPages order.

Definition NewBufferPoolManager (poolSize : Z) : BufferPoolManager R :=
  MkBPM (replicate (Z.to_nat poolSize) None) (r_new poolSize)
    (Z.of_nat <$> seq 0 (Z.to_nat poolSize)) ∅.

Definition GetPoolSize (b : BufferPoolManager R) : Z := Z.of_nat (size (pageTable b)).

(** ** Invariants *)

(** Page [pid] is in frame [f], as the object [pg] at [p]. *)
Definition cached (s : Store R) (pid f : Z) (p : ptr) (pg : Page) : Prop :=
  pageTable (bpm s) !! pid = Some f ∧ 0 ≤ f ∧
  pages (bpm s) !! Z.to_nat f = Some (Some p) ∧ page_objs s !! p = Some pg.

(** [E] is a set of evictable frames, [n] the number of frames. *)
Record pool_static (s : Store R) (E : gset Z) (n : nat) : Prop := {
  pi_pages : length (pages (bpm s)) = n;
  pi_free_NoDup : NoDup (freeList (bpm s));
  pi_free_range : ∀ f, f ∈ freeList (bpm s) → 0 ≤ f < Z.of_nat n;
  pi_map : ∀ pid f, pageTable (bpm s) !! pid = Some f →
    (f ∉ freeList (bpm s)) ∧
    ∃ p pg, cached s pid f p pg ∧ id pg = pid ∧
      Z.of_nat (length (pdata pg)) = PageSize ∧ 0 ≤ pinCount pg;
  pi_evictable : ∀ f, f ∈ E → ∃ pid p pg, cached s pid f p pg ∧ pinCount pg = 0;
  pi_fresh : ∀ p, is_Some (page_objs s !! p) → (p < fresh_ptr s)%nat;
  pi_log : log_wf (get_log s)
}.

Definition pool_inv (s : Store R) (E : gset Z) (n : nat) : Prop :=
  pool_static s E n ∧ r_rep (replacer (bpm s)) E n.

(** Unpinned pages that are not dirty agree with the disk. *)
Definition coherent (s : Store R) : Prop :=
  ∀ pid f p pg, cached s pid f p pg →
    page_in_range pid ∧
    (isDirty pg = false → pinCount pg = 0 →
     page_present pid (diskManager s) ∧ page_bytes pid (diskManager s) = pdata pg).

(** The content of page [pid]: that of its page object, or what is on disk. *)
Definition page_has (s : Store R) (pid : Z) (bs : list byte) : Prop :=
  (∃ f p pg, cached s pid f p pg ∧ pdata pg = bs) ∨
  (pageTable (bpm s) !! pid = None ∧ page_present pid (diskManager s) ∧
   page_bytes pid (diskManager s) = bs).

(** Page ids from [nextPageID] on are unused. *)
Definition ids_bound (s : Store R) : Prop :=
  file_size (db (diskManager s)) / PageSize ≤ nextPageID (diskManager s) ∧
  ∀ pid f, pageTable (bpm s) !! pid = Some f → pid < nextPageID (diskManager s).

(** A frame nobody uses. *)
Definition frame_unused (s : Store R) (E : gset Z) (f : Z) : Prop :=
  (f ∉ freeList (bpm s)) ∧ (f ∉ E) ∧ ∀ pid, pageTable (bpm s) !! pid ≠ Some f.

(** Every page that had content keeps it. *)
Definition keeps_pages (s s' : Store R) : Prop := ∀ pid bs, page_has s pid bs → page_has s' pid bs.

(** Every frame but [g], which an operation has in its hands, is free or holds a
    page, and is evictable if that page is not pinned. *)
Definition frames_ok (s : Store R) (E : gset Z) (n : nat) (g : option Z) : Prop :=
  ∀ f, 0 ≤ f < Z.of_nat n → g ≠ Some f → f ∈ freeList (bpm s) ∨
    ∃ pid p pg, cached s pid f p pg ∧ (pinCount pg = 0 → f ∈ E).

(** Pages in the pool other than those in [X] were there before, the same, and
    so was what the disk holds for them. *)
Definition no_new (X : Z → Prop) (s s' : Store R) : Prop :=
  ∀ pid f p pg, (¬ X pid) → cached s' pid f p pg → cached s pid f p pg ∧
    (page_present pid (diskManager s) → page_present pid (diskManager s') ∧
       page_bytes pid (diskManager s') = page_bytes pid (diskManager s)).

(** The log is the same, in memory or on disk; what is on disk stays there. *)
Definition log_same (s s' : Store R) : Prop :=
  log_stream (get_log s') = log_stream (get_log s) ∧
  next_lsn (log_manager s') = next_lsn (log_manager s) ∧
  (offset (log_manager s) = 0 → offset (log_manager s') = 0).

(** Pages other than those in [X] that are pinned stay where they are. *)
Definition keeps_pinned (X : Z → Prop) (s s' : Store R) : Prop :=
  ∀ pid f p pg, (¬ X pid) → cached s pid f p pg → 0 < pinCount pg → cached s' pid f p pg.
End pool.

(** ** Lemmas *)
Ltac step E := rewrite (st_bind_run _ _ _ _ _ E); cbn beta iota delta [fst snd].
Ltac step1 := rewrite (st_bind_run _ _ _ _ _ eq_refl); cbn beta iota delta [fst snd].

Section lemmas.
Context {R : Type} `{Replacer R}.
Implicit Types s : Store R.

Lemma cached_fun s pid f p pg f' p' pg' :
  cached s pid f p pg → cached s pid f' p' pg' → f = f' ∧ p = p' ∧ pg = pg'.
Proof. intros (? & ? & ? & ?) (? & ? & ? & ?). simplify_eq. done. Qed.

Lemma cached_frame_inj s E n pid pid' f p pg p' pg' :
  pool_static s E n → cached s pid f p pg → cached s pid' f p' pg' → pid = pid'.
Proof.
  intros I C C'. destruct (pi_map _ _ _ I pid f) as (_ & q & qg & D & D1 & _); [apply C|].
  destruct (pi_map _ _ _ I pid' f) as (_ & q' & qg' & D' & D1' & _); [apply C'|].
  destruct D as (_ & _ & ? & ?), D' as (_ & _ & ? & ?). simplify_eq. done.
Qed.

Lemma cached_ptr_inj s E n pid pid' f f' p pg pg' :
  pool_static s E n → cached s pid f p pg → cached s pid' f' p pg' → pid = pid' ∧ f = f'.
Proof.
  intros I C C'. destruct (pi_map _ _ _ I pid f) as (_ & q & qg & D & D1 & _); [apply C|].
  destruct (pi_map _ _ _ I pid' f') as (_ & q' & qg' & D' & D1' & _); [apply C'|].
  destruct (cached_fun _ _ _ _ _ _ _ _ C D) as (_ & -> & ->).
  destruct (cached_fun _ _ _ _ _ _ _ _ C' D') as (_ & <- & ->).
  destruct C as (? & _ & _ & ?), C' as (? & _ & _ & ?). simplify_eq. done.
Qed.

Lemma cached_in_range s E n pid f p pg :
  pool_static s E n → cached s pid f p pg → 0 ≤ f < Z.of_nat n.
Proof.
  intros I (_ & H0 & HP & _). apply lookup_lt_Some in HP. rewrite (pi_pages _ _ _ I) in HP. lia.
Qed.

Lemma cached_not_free s E n pid f p pg :
  pool_static s E n → cached s pid f p pg → f ∉ freeList (bpm s).
Proof. intros I (HT & _). by destruct (pi_map _ _ _ I pid f HT). Qed.

Lemma evictable_small s E n : pool_static s E n → E ⊆ list_to_set (seqZ 0 (Z.of_nat n)).
Proof.
  intros I f Hf. destruct (pi_evictable _ _ _ I f Hf) as (pid & p & pg & C & _).
  apply elem_of_list_to_set, elem_of_seqZ. apply (cached_in_range _ _ _ _ _ _ _ I) in C. lia.
Qed.

(** There is room in the replacer for a frame it does not track. *)
Lemma evictable_room s E n pid f p pg :
  pool_static s E n → cached s pid f p pg → f ∈ E ∨ (size E < n)%nat.
Proof.
  intros I C. destruct (decide (f ∈ E)) as [|Hf]; [by left|right].
  pose proof (cached_in_range _ _ _ _ _ _ _ I C).
  assert (HS : {[f]} ∪ E ⊆ list_to_set (seqZ 0 (Z.of_nat n))).
  { apply union_subseteq. split; [|by eapply evictable_small].
    apply singleton_subseteq_l, elem_of_list_to_set, elem_of_seqZ. lia. }
  apply subseteq_size in HS. rewrite size_union, size_singleton in HS by set_solver.
  rewrite size_list_to_set in HS by apply NoDup_seqZ. rewrite length_seqZ in HS. lia.
Qed.

(** *** Runs of the primitives *)
Lemma frame_page_run s pid f p pg :
  cached s pid f p pg → frame_page f s = Ok (Some p, s).
Proof. intros (_ & H0 & HP & _). unfold frame_page. by rewrite (index_Ok _ _ _ H0 HP). Qed.

Lemma read_page_run s p pg : page_objs s !! p = Some pg → read_page p s = Ok (pg, s).
Proof. intros HP. unfold read_page. by rewrite HP. Qed.

Lemma update_page_run s p pg f pg' :
  page_objs s !! p = Some pg → f pg = Ok pg' →
  update_page p f s = Ok (tt, set_objs (<[p := pg']> (page_objs s)) s).
Proof. intros HP HF. unfold update_page. rewrite HP. mred. by rewrite HF. Qed.

(** *** Steps that keep the invariant *)
Lemma static_weaken s E E' n : pool_static s E n → E' ⊆ E → pool_static s E' n.
Proof. intros [] HE. split; try done. intros f Hf. apply pi_evictable0. by apply HE. Qed.

Lemma static_add s E n pid f p pg :
  pool_static s E n → cached s pid f p pg → pinCount pg = 0 → pool_static s ({[f]} ∪ E) n.
Proof.
  intros [] C HP. split; try done.
  intros f' [->%elem_of_singleton|Hf]%elem_of_union; [by exists pid, p, pg|by apply pi_evictable0].
Qed.

Definition upd_obj (p : ptr) (pg : Page) s : Store R := set_objs (<[p := pg]> (page_objs s)) s.

Lemma cached_upd_same s pid f p pg pg' :
  cached s pid f p pg → cached (upd_obj p pg' s) pid f p pg'.
Proof. intros (? & ? & ? & ?). split_and!; try done. apply lookup_insert_eq. Qed.

Lemma cached_upd_other s pid f p' q p pg' :
  cached s pid f p' q → p' ≠ p → cached (upd_obj p pg' s) pid f p' q.
Proof. intros (? & ? & ? & ?) Hne. split_and!; try done. unfold upd_obj. simpl. by rewrite lookup_insert_ne. Qed.

Lemma cached_upd_inv s pid f p pg pg' pid' f' p' q :
  cached s pid f p pg → cached (upd_obj p pg' s) pid' f' p' q →
  (p' = p ∧ q = pg' ∧ cached s pid' f' p pg) ∨ (p' ≠ p ∧ cached s pid' f' p' q).
Proof.
  intros (_ & _ & _ & HP) (H1 & H2 & H3 & H4). simpl in *.
  apply lookup_insert_Some in H4 as [[<- <-]|[Hne H4]]; [left|right]; by split_and!.
Qed.

Lemma static_upd_obj s E n pid f p pg pg' :
  pool_static s E n → cached s pid f p pg → id pg' = id pg →
  length (pdata pg') = length (pdata pg) → 0 ≤ pinCount pg' → (f ∈ E → pinCount pg' = 0) →
  pool_static (upd_obj p pg' s) E n.
Proof.
  intros I C Hid HL HP HE. pose proof I as [].
  split; try done.
  - intros pid' f' HT. destruct (pi_map0 pid' f' HT) as (HF & p' & q & C' & Hid' & HL' & HP').
    split; [done|]. destruct (decide (p' = p)) as [->|Hne].
    + destruct (cached_ptr_inj _ _ _ _ _ _ _ _ _ _ I C C') as [-> ->].
      destruct (cached_fun _ _ _ _ _ _ _ _ C C') as (_ & _ & ->).
      exists p, pg'. split_and!; [by eapply cached_upd_same|congruence..|done].
    + exists p', q. split_and!; [by apply cached_upd_other|done..].
  - intros f' Hf. destruct (pi_evictable0 f' Hf) as (pid' & p' & q & C' & HP').
    destruct (decide (p' = p)) as [->|Hne].
    + destruct (cached_ptr_inj _ _ _ _ _ _ _ _ _ _ I C C') as [-> ->].
      exists pid', p, pg'. split; [by eapply cached_upd_same|auto].
    + exists pid', p', q. split; [by apply cached_upd_other|done].
  - intros q Hq. simpl in Hq. rewrite lookup_insert_is_Some' in Hq.
    destruct Hq as [<-|Hq]; [|by apply pi_fresh0]. apply pi_fresh0.
    destruct C as (_ & _ & _ & ->). done.
Qed.

(** Changes that touch neither the pages in the pool nor what is on disk. *)
Record same_pages s s' : Prop := {
  sp_pages : pages (bpm s') = pages (bpm s);
  sp_table : pageTable (bpm s') = pageTable (bpm s);
  sp_objs : page_objs s' = page_objs s;
  sp_fresh : fresh_ptr s' = fresh_ptr s;
  sp_content : content (db (diskManager s')) = content (db (diskManager s))
}.

Lemma same_pages_cached s s' pid f p pg :
  same_pages s s' → cached s' pid f p pg ↔ cached s pid f p pg.
Proof. intros []. unfold cached. by rewrite sp_pages0, sp_table0, sp_objs0. Qed.

Lemma same_pages_disk s s' pid :
  same_pages s s' →
  (page_present pid (diskManager s') ↔ page_present pid (diskManager s)) ∧
  page_bytes pid (diskManager s') = page_bytes pid (diskManager s).
Proof.
  intros []. unfold page_present, page_bytes, file_size. by rewrite sp_content0.
Qed.

Lemma same_pages_static s s' E n :
  same_pages s s' → freeList (bpm s') = freeList (bpm s) → log_wf (get_log s') →
  pool_static s E n → pool_static s' E n.
Proof.
  intros SP HF HL I. pose proof (λ pid f p pg, same_pages_cached _ _ pid f p pg SP) as HC.
  pose proof SP as []. destruct I. split; rewrite ?HF, ?sp_pages0, ?sp_fresh0; try done.
  - intros pid f HT. rewrite sp_table0 in HT.
    destruct (pi_map0 pid f HT) as (? & p & pg & C & ?). split; [done|].
    exists p, pg. by rewrite HC.
  - intros f Hf. destruct (pi_evictable0 f Hf) as (pid & p & pg & C & ?).
    exists pid, p, pg. by rewrite HC.
  - intros p. rewrite sp_objs0. apply pi_fresh0.
Qed.

Lemma same_pages_coherent s s' : same_pages s s' → coherent s → coherent s'.
Proof.
  intros SP HC pid f p pg C. apply (same_pages_cached _ _ _ _ _ _ SP) in C.
  destruct (same_pages_disk _ _ pid SP) as [HP HB]. rewrite HP, HB. by eapply HC.
Qed.

Lemma same_pages_keeps s s' : same_pages s s' → keeps_pages s s'.
Proof.
  intros SP pid bs. destruct (same_pages_disk _ _ pid SP) as [HP HB].
  unfold page_has. rewrite HP, HB, (sp_table _ _ SP).
  intros [(f & p & pg & C & ?)|?]; [left|by right].
  exists f, p, pg. by rewrite (same_pages_cached _ _ _ _ _ _ SP).
Qed.

Lemma same_pages_pinned X s s' : same_pages s s' → keeps_pinned X s s'.
Proof. intros SP pid f p pg _ C _. by apply (same_pages_cached _ _ _ _ _ _ SP). Qed.

Lemma same_pages_ids s s' :
  same_pages s s' → nextPageID (diskManager s') = nextPageID (diskManager s) →
  ids_bound s → ids_bound s'.
Proof. intros [] HN. unfold ids_bound, file_size. by rewrite HN, sp_table0, sp_content0. Qed.

Lemma keeps_pages_trans s1 s2 s3 : keeps_pages s1 s2 → keeps_pages s2 s3 → keeps_pages s1 s3.
Proof. intros H1 H2 pid bs Hp. by apply H2, H1. Qed.

Lemma with_replacer_run {A} (f : R → res (A * R)) s a r :
  f (replacer (bpm s)) = Ok (a, r) →
  with_replacer f s = Ok (a, set_bpm (MkBPM (pages (bpm s)) r (freeList (bpm s))
                                        (pageTable (bpm s))) s).
Proof. intros E. unfold with_replacer. by rewrite E. Qed.

(** Changing the replacer only. *)
Definition upd_replacer (r : R) s : Store R :=
  set_bpm (MkBPM (pages (bpm s)) r (freeList (bpm s)) (pageTable (bpm s))) s.

Lemma upd_replacer_same r s : same_pages s (upd_replacer r s).
Proof. by split. Qed.

Lemma replacer_Pin_run s E n f :
  pool_static s (E ∖ {[f]}) n → r_rep (replacer (bpm s)) E n →
  ∃ s', replacer_Pin f s = Ok (tt, s') ∧ pool_inv s' (E ∖ {[f]}) n ∧ same_pages s s' ∧
    freeList (bpm s') = freeList (bpm s) ∧ get_log s' = get_log s.
Proof.
  intros I HR. destruct (r_Pin_rep _ _ _ f HR) as (r' & E1 & HR').
  exists (upd_replacer r' s). split.
  { unfold replacer_Pin. apply with_replacer_run. by rewrite E1. }
  split; [|by split; [apply upd_replacer_same|]]. split; [|done].
  eapply same_pages_static; [apply upd_replacer_same|done|apply I|done].
Qed.

Lemma replacer_Unpin_run s E n f pid p pg :
  pool_static s E n → r_rep (replacer (bpm s)) E n →
  cached s pid f p pg → pinCount pg = 0 →
  ∃ s', replacer_Unpin f s = Ok (tt, s') ∧ pool_inv s' ({[f]} ∪ E) n ∧ same_pages s s' ∧
    freeList (bpm s') = freeList (bpm s) ∧ get_log s' = get_log s.
Proof.
  intros I HR C HP.
  destruct (r_Unpin_rep _ _ _ f HR (evictable_room _ _ _ _ _ _ _ I C)) as (r' & E1 & HR').
  exists (upd_replacer r' s). split.
  { unfold replacer_Unpin. apply with_replacer_run. by rewrite E1. }
  split; [|by split; [apply upd_replacer_same|]]. split; [|done].
  eapply same_pages_static; [apply upd_replacer_same|done|apply I|].
  by eapply static_add.
Qed.

Lemma same_pages_no_new X s s' : same_pages s s' → no_new X s s'.
Proof.
  intros SP pid f p pg _ C. split; [by apply (same_pages_cached _ _ _ _ _ _ SP)|].
  destruct (same_pages_disk _ _ pid SP) as [HP HB]. by rewrite HP.
Qed.

Lemma no_new_trans (X Y : Z → Prop) s1 s2 s3 :
  (∀ i, X i → Y i) → no_new X s1 s2 → no_new Y s2 s3 → no_new Y s1 s3.
Proof.
  intros HXY H1 H2 pid f p pg HX C. destruct (H2 _ _ _ _ HX C) as [C2 HD2].
  destruct (H1 pid f p pg) as [C1 HD1]; [naive_solver|done|]. split; [done|].
  intros HP. destruct (HD1 HP) as [HP1 HB1]. destruct (HD2 HP1) as [HP2 HB2].
  split; [done|congruence].
Qed.

Lemma log_same_refl s : log_same s s.
Proof. by split. Qed.

Lemma log_same_trans s1 s2 s3 : log_same s1 s2 → log_same s2 s3 → log_same s1 s3.
Proof. intros (? & ? & ?) (? & ? & ?). split_and!; [congruence|congruence|auto]. Qed.

Lemma log_same_eq s s' : get_log s' = get_log s → log_same s s'.
Proof. intros HG. unfold log_same. rewrite HG. unfold get_log in HG. injection HG as -> _. by split_and!. Qed.

Lemma same_pages_frames s s' E n g :
  same_pages s s' → freeList (bpm s') = freeList (bpm s) → frames_ok s E n g → frames_ok s' E n g.
Proof.
  intros SP HF HA f Hf Hg. rewrite HF. destruct (HA f Hf Hg) as [|(pid & p & pg & C & HE)]; [by left|].
  right. exists pid, p, pg. by rewrite (same_pages_cached _ _ _ _ _ _ SP).
Qed.

(** *** fetch_cached *)
Lemma keeps_pages_upd_obj s E n pid f p pg pg' :
  pool_static s E n → cached s pid f p pg → pdata pg' = pdata pg →
  keeps_pages s (upd_obj p pg' s).
Proof.
  intros I C HD pid' bs [(f' & p' & q & C' & HB)|HB]; [left|by right].
  destruct (decide (p' = p)) as [->|Hne].
  - destruct (cached_ptr_inj _ _ _ _ _ _ _ _ _ _ I C C') as [-> ->].
    destruct (cached_fun _ _ _ _ _ _ _ _ C C') as (_ & _ & ->).
    exists f', p, pg'. split; [by eapply cached_upd_same|congruence].
  - exists f', p', q. split; [by apply cached_upd_other|done].
Qed.

Lemma coherent_upd_obj s E n pid f p pg pg' :
  pool_static s E n → cached s pid f p pg → coherent s →
  (isDirty pg' = false → pinCount pg' = 0 →
     page_present pid (diskManager s) ∧ page_bytes pid (diskManager s) = pdata pg') →
  coherent (upd_obj p pg' s).
Proof.
  intros I C HC HP pid' f' p' q C'.
  destruct (cached_upd_inv _ _ _ _ _ _ _ _ _ _ C C') as [(-> & -> & C'')|[Hne C'']].
  - destruct (cached_ptr_inj _ _ _ _ _ _ _ _ _ _ I C C'') as [-> ->].
    split; [exact (proj1 (HC _ _ _ _ C))|exact HP].
  - by eapply HC.
Qed.

(** Only the object of page [pid] changed. *)
Lemma keeps_pinned_upd_obj s E n pid f p pg pg' :
  pool_static s E n → cached s pid f p pg → keeps_pinned (λ i, i = pid) s (upd_obj p pg' s).
Proof.
  intros I C pid' f' p' q Hne C' _. apply cached_upd_other; [done|]. intros ->.
  by destruct (cached_ptr_inj _ _ _ _ _ _ _ _ _ _ I C C') as [-> _].
Qed.

Lemma no_new_upd_obj s E n pid f p pg pg' :
  pool_static s E n → cached s pid f p pg → no_new (λ i, i = pid) s (upd_obj p pg' s).
Proof.
  intros I C pid' f' p' q Hne C'.
  destruct (cached_upd_inv _ _ _ _ _ _ _ _ _ _ C C') as [(-> & -> & C'')|[_ C'']]; [|by split].
  by destruct (cached_ptr_inj _ _ _ _ _ _ _ _ _ _ I C C'') as [-> _].
Qed.

(** Frame [f] holds the page whose object changes; the others are as they were. *)
Lemma frames_upd_obj s E E' n pid f p pg pg' :
  pool_static s E n → cached s pid f p pg → (pinCount pg' = 0 → f ∈ E') →
  (∀ g, g ≠ f → g ∈ E → g ∈ E') → frames_ok s E n None → frames_ok (upd_obj p pg' s) E' n None.
Proof.
  intros I C HP HE HA g Hg _. destruct (HA g Hg) as [|(pid' & p' & q & C' & HE')]; [done|by left|right].
  destruct (decide (g = f)) as [->|Hne].
  - exists pid, p, pg'. split; [by eapply cached_upd_same|done].
  - exists pid', p', q. split; [|auto]. apply cached_upd_other; [done|]. intros ->.
    destruct (cached_ptr_inj _ _ _ _ _ _ _ _ _ _ I C C') as [_ ?]. congruence.
Qed.

Lemma keeps_pinned_trans X s1 s2 s3 :
  keeps_pinned X s1 s2 → keeps_pinned X s2 s3 → keeps_pinned X s1 s3.
Proof. intros H1 H2 pid f p pg HX C HP. apply H2; [done| |done]. by apply H1. Qed.

Lemma fetch_cached_hit s E n pid f p pg :
  pool_inv s E n → cached s pid f p pg →
  let pg' := IncPinCount pg in
  pinCount pg < 2 ^ 32 - 1 →
  ∃ s', fetch_cached pid s = Ok (Some p, s') ∧ pool_inv s' (E ∖ {[f]}) n ∧
    cached s' pid f p pg' ∧ pageTable (bpm s') = pageTable (bpm s) ∧
    keeps_pages s s' ∧ keeps_pinned (λ i, i = pid) s s' ∧ (coherent s → coherent s') ∧
    (frames_ok s E n None → frames_ok s' (E ∖ {[f]}) n None) ∧ no_new (λ i, i = pid) s s' ∧
    get_log s' = get_log s ∧ (ids_bound s → ids_bound s').
Proof.
  intros [I HR] C pg' HP. pose proof C as (HT & _ & _ & HO).
  destruct (pi_map _ _ _ I _ _ HT) as (_ & p0 & pg0 & C0 & _ & _ & HP0).
  destruct (cached_fun _ _ _ _ _ _ _ _ C C0) as (_ & <- & <-).
  assert (HPc : pinCount pg' = pinCount pg + 1).
  { unfold pg', IncPinCount. simpl. apply u32_small. unfold in_u32. lia. }
  unfold fetch_cached. step1. rewrite HT. step (frame_page_run _ _ _ _ _ C).
  rewrite (st_bind_run _ _ _ _ _ (st_lift_run _ p _ eq_refl)). cbn beta.
  step (update_page_run _ _ _ (λ pg, Ok (IncPinCount pg)) _ HO eq_refl).
  assert (I1 : pool_static (upd_obj p pg' s) (E ∖ {[f]}) n).
  { eapply static_upd_obj; [|done|done|done|lia|set_solver].
    eapply static_weaken; [done|]. set_solver. }
  destruct (replacer_Pin_run (upd_obj p pg' s) E n f I1 HR) as (s' & E1 & I2 & SP & HFl & HG).
  step E1. exists s'. split; [done|]. split; [done|]. split.
  { apply (same_pages_cached _ _ _ _ _ _ SP). by eapply cached_upd_same. }
  split; [apply (sp_table _ _ SP)|]. split; [|split; [|split; [|split; [|split; [|split]]]]].
  - eapply keeps_pages_trans; [|by apply same_pages_keeps]. by eapply keeps_pages_upd_obj.
  - eapply keeps_pinned_trans; [|by apply same_pages_pinned]. by eapply keeps_pinned_upd_obj.
  - intros HC. eapply same_pages_coherent; [done|].
    eapply coherent_upd_obj; [done|done|done|lia].
  - intros HA. apply (same_pages_frames (upd_obj p pg' s)); [done|done|].
    apply (frames_upd_obj s E _ n pid f p pg pg'); try done; [lia|set_solver].
  - apply (no_new_trans (λ i, i = pid) _ _ (upd_obj p pg' s)); [done| |by apply same_pages_no_new].
    by eapply no_new_upd_obj.
  - done.
  - intros HI. apply (same_pages_ids (upd_obj p pg' s)); [done| |done].
    unfold get_log in HG. by injection HG as _ ->.
Qed.

Lemma fetch_cached_miss s pid :
  pageTable (bpm s) !! pid = None → fetch_cached pid s = Ok (None, s).
Proof. intros HT. unfold fetch_cached. step1. by rewrite HT. Qed.

(** *** getFrameID *)

(** From the free list: the first free frame, which leaves the list. *)
Lemma getFrameID_free s E n f l :
  pool_inv s E n → freeList (bpm s) = f :: l →
  ∃ s', getFrameID s = Ok ((Some f, true), s') ∧ pool_inv s' E n ∧ frame_unused s' E f ∧
    0 ≤ f < Z.of_nat n ∧ same_pages s s' ∧ get_log s' = get_log s ∧
    (frames_ok s E n None → frames_ok s' E n (Some f)).
Proof.
  intros [I HR] HF. pose proof I as [].
  set (s' := set_bpm (MkBPM (pages (bpm s)) (replacer (bpm s)) l (pageTable (bpm s))) s).
  assert (SP : same_pages s s') by by split.
  assert (HC : ∀ pid f p pg, cached s' pid f p pg ↔ cached s pid f p pg)
    by (intros; by apply same_pages_cached).
  rewrite HF in *. apply NoDup_cons in pi_free_NoDup0 as [Hfl ND].
  exists s'. split; [unfold getFrameID; step1; by rewrite HF|].
  split; [split; [|done]|].
  - split; try done.
    + intros f' Hf'. apply pi_free_range0. by right.
    + intros pid f' HT. destruct (pi_map0 pid f' HT) as (HN & p & pg & C & ?).
      split; [intros Hf'; apply HN; by right|]. exists p, pg. by rewrite HC.
  - split; [|split; [apply pi_free_range0; by left|split; [done|split; [done|]]]].
    2: { intros HA g Hg Hne. destruct (HA g Hg) as [Hin|(pid & p & pg & C & HE)]; [done| |].
      - rewrite HF in Hin. apply elem_of_cons in Hin as [->|Hin]; [done|by left].
      - right. exists pid, p, pg. by rewrite HC. }
    split; [done|]. split.
    + intros Hf. destruct (pi_evictable0 f Hf) as (pid & p & pg & (HT & _) & _).
      destruct (pi_map0 pid f HT) as [HN _]. apply HN. by left.
    + intros pid HT. destruct (pi_map0 pid f HT) as [HN _]. apply HN. by left.
Qed.

(** From the replacer. *)
Lemma getFrameID_victim s E n :
  pool_inv s E n → freeList (bpm s) = [] →
  ∃ o s', getFrameID s = Ok ((o, false), s') ∧ same_pages s s' ∧
    freeList (bpm s') = freeList (bpm s) ∧ get_log s' = get_log s ∧
    match o with
    | None => E = ∅ ∧ pool_inv s' ∅ n
    | Some f => f ∈ E ∧ pool_inv s' (E ∖ {[f]}) n ∧
        (frames_ok s E n None → frames_ok s' (E ∖ {[f]}) n (Some f))
    end.
Proof.
  intros [I HR] HF. destruct (r_Victim_rep _ _ _ HR) as (o & r' & E1 & Ho).
  exists o, (upd_replacer r' s). split.
  { unfold getFrameID. step1. rewrite HF. by step (with_replacer_run r_Victim s _ _ E1). }
  split; [apply upd_replacer_same|]. split_and!; [done..|].
  assert (I' : pool_static (upd_replacer r' s) E n).
  { eapply same_pages_static; [apply upd_replacer_same|done|apply I|done]. }
  destruct o as [f|]; destruct Ho as [HE Ho]; (split; [done|]); [split|];
    [split; [|done]; eapply static_weaken; [exact I'|set_solver]| |
     split; [|done]; eapply static_weaken; [exact I'|set_solver]].
  intros HA. apply (same_pages_frames s); [apply upd_replacer_same|done|].
  intros g Hg Hne. destruct (HA g Hg) as [|(pid & p & pg & C & HE')]; [done|by left|].
  right. exists pid, p, pg. split; [done|]. intros Hz. apply HE' in Hz. set_solver.
Qed.

(** *** evict *)
Lemma write_disk_run s pid d :
  page_in_range pid → Z.of_nat (length d) = PageSize →
  ∃ dm, write_disk pid d s = Ok (tt, set_disk dm s) ∧
    content (db dm) = write_at (Z.to_nat (pid * PageSize)) d (content (db (diskManager s))) ∧
    log dm = log (diskManager s) ∧ nextPageID dm = nextPageID (diskManager s) ∧
    writes dm = writes (diskManager s) ++ [PageWritten (pid * PageSize) d].
Proof.
  intros HR HL. destruct (WritePage_ok pid d (diskManager s) HR HL) as (dm & E & HC & HG & HN & HW).
  exists dm. unfold write_disk. by rewrite E.
Qed.

(** The disk after a page was written. *)
Lemma written_disk s dm pid d :
  page_in_range pid → Z.of_nat (length d) = PageSize →
  content (db dm) = write_at (Z.to_nat (pid * PageSize)) d (content (db (diskManager s))) →
  (page_present pid dm ∧ page_bytes pid dm = d) ∧
  ∀ pid', pid' ≠ pid → page_present pid' (diskManager s) →
    page_present pid' dm ∧ page_bytes pid' dm = page_bytes pid' (diskManager s).
Proof. intros. by apply (WritePage_pages pid d (diskManager s) dm). Qed.

Lemma coherent_write s dm pid d :
  coherent s → page_in_range pid → Z.of_nat (length d) = PageSize →
  content (db dm) = write_at (Z.to_nat (pid * PageSize)) d (content (db (diskManager s))) →
  (∀ f p pg, cached s pid f p pg → pdata pg = d) →
  coherent (set_disk dm s).
Proof.
  intros HC HR HL HW HD pid' f' p' q C.
  destruct (written_disk s dm pid d HR HL HW) as [[H1 H2] HO].
  change (cached s pid' f' p' q) in C. destruct (HC _ _ _ _ C) as [HR' HC'].
  split; [done|]. intros Hd Hp. destruct (decide (pid' = pid)) as [->|Hne].
  - split; [done|]. cbn [set_disk diskManager]. rewrite H2. symmetry. by eapply HD.
  - destruct (HC' Hd Hp) as [H3 H4]. destruct (HO pid' Hne H3) as [H5 H6].
    split; [done|]. cbn [set_disk diskManager]. congruence.
Qed.

Lemma keeps_pages_write s dm pid f p pg d :
  cached s pid f p pg → page_in_range pid → Z.of_nat (length d) = PageSize →
  content (db dm) = write_at (Z.to_nat (pid * PageSize)) d (content (db (diskManager s))) →
  keeps_pages s (set_disk dm s).
Proof.
  intros C HR HL HW pid' bs [HB|(HT & HP & HB)]; [by left|right].
  destruct (written_disk s dm pid d HR HL HW) as [_ HO].
  assert (Hne : pid' ≠ pid) by (intros ->; destruct C as (HT' & _); congruence).
  destruct (HO pid' Hne HP) as [H1 H2]. split_and!; [done|done|]. cbn. congruence.
Qed.

Lemma ids_bound_write s dm pid f d :
  pageTable (bpm s) !! pid = Some f → page_in_range pid → Z.of_nat (length d) = PageSize →
  content (db dm) = write_at (Z.to_nat (pid * PageSize)) d (content (db (diskManager s))) →
  nextPageID dm = nextPageID (diskManager s) → ids_bound s → ids_bound (set_disk dm s).
Proof.
  intros HT HR HL HW HN [HF HB]. pose proof (HB _ _ HT). split; cbn; rewrite HN; [|done].
  unfold file_size in *. rewrite HW, length_write_at. unfold page_in_range in HR.
  apply Z.lt_succ_r, Z.div_lt_upper_bound; [done|].
  assert (Z.of_nat (length (content (db (diskManager s)))) < PageSize * Z.succ (nextPageID (diskManager s))).
  { pose proof (Z.mul_succ_div_gt (Z.of_nat (length (content (db (diskManager s))))) PageSize).
    unfold PageSize in *. lia. }
  unfold PageSize in *. lia.
Qed.

(** Deleting the entry of a page that is on disk. *)
Definition unmap (pid : Z) s : Store R :=
  set_bpm (MkBPM (pages (bpm s)) (replacer (bpm s)) (freeList (bpm s))
             (base.delete pid (pageTable (bpm s)))) s.

Lemma cached_unmap s pid pid' f p pg :
  cached (unmap pid s) pid' f p pg ↔ pid' ≠ pid ∧ cached s pid' f p pg.
Proof.
  unfold cached, unmap. simpl. rewrite lookup_delete_Some. naive_solver.
Qed.

Lemma static_unmap s E n pid f p pg :
  pool_static s E n → cached s pid f p pg → f ∉ E → pool_static (unmap pid s) E n.
Proof.
  intros I C HE. pose proof I as []. split; try done.
  - intros pid' f' HT. simpl in HT. apply lookup_delete_Some in HT as [Hne HT].
    destruct (pi_map0 pid' f' HT) as (HN & p' & q & C' & ?). split; [done|].
    exists p', q. by rewrite cached_unmap.
  - intros f' Hf. destruct (pi_evictable0 f' Hf) as (pid' & p' & q & C' & ?).
    exists pid', p', q. rewrite cached_unmap. split; [|done]. split; [|done].
    intros ->. by destruct C as (HT & _), C' as (HT' & _); simplify_eq.
Qed.

Lemma ids_bound_unmap s pid : ids_bound s → ids_bound (unmap pid s).
Proof.
  intros [HF HB]. split; [done|]. intros pid' f HT. cbn in HT.
  apply lookup_delete_Some in HT as [_ HT]. exact (HB _ _ HT).
Qed.

Lemma coherent_unmap s pid : coherent s → coherent (unmap pid s).
Proof. intros HC pid' f p pg [_ C]%cached_unmap. exact (HC _ _ _ _ C). Qed.

Lemma keeps_pages_unmap s pid f p pg :
  cached s pid f p pg → page_present pid (diskManager s) →
  page_bytes pid (diskManager s) = pdata pg → keeps_pages s (unmap pid s).
Proof.
  intros C HP HB pid' bs Hp. destruct (decide (pid' = pid)) as [->|Hne].
  - right. split; [apply lookup_delete_eq|]. split; [done|].
    destruct Hp as [(f' & p' & q & C' & <-)|(HT & _)].
    + by destruct (cached_fun _ _ _ _ _ _ _ _ C C') as (_ & _ & <-).
    + destruct C as (HT' & _). congruence.
  - destruct Hp as [(f' & p' & q & C' & HB')|(HT & Hp)]; [left|right].
    + exists f', p', q. by rewrite cached_unmap.
    + split; [|done]. simpl. rewrite lookup_delete_None. by right.
Qed.

Lemma static_set_disk s E n d :
  pool_static s E n → log d = log (diskManager s) → pool_static (set_disk d s) E n.
Proof.
  intros [] HL. split; try done. destruct pi_log0 as [? ? ? HE].
  split; try done. unfold log_at_end in *. simpl in *. by rewrite HL.
Qed.

(** The log is flushed before a dirty page leaves. *)
Lemma flush_run s E n :
  pool_static s E n →
  ∃ s', with_log Flush s = Ok (tt, s') ∧ pool_static s' E n ∧ same_pages s s' ∧
    bpm s' = bpm s ∧ content (log (diskManager s')) = log_stream (get_log s) ∧
    log_stream (get_log s') = log_stream (get_log s) ∧
    nextPageID (diskManager s') = nextPageID (diskManager s) ∧
    next_lsn (log_manager s') = next_lsn (log_manager s) ∧ offset (log_manager s') = 0.
Proof.
  intros I. destruct (Flush_run _ _ (pi_log _ _ _ I))
    as (lm & d & E1 & W & HC & HO0 & HS & HN & _ & _ & HD & HP).
  exists (set_log_state (lm, d) s). split; [by apply zoom_run|].
  assert (SP : same_pages s (set_log_state (lm, d) s)) by (split; try done; simpl; by rewrite HD).
  split; [by eapply same_pages_static|]. by split_and!.
Qed.

Lemma evict_run s E n k f p pg :
  pool_inv s E n → cached s k f p pg → pinCount pg = 0 → f ∉ E → coherent s →
  ∃ s', evict f s = Ok (tt, s') ∧ pool_inv s' E n ∧ coherent s' ∧ frame_unused s' E f ∧
    pageTable (bpm s') = base.delete k (pageTable (bpm s)) ∧
    keeps_pages s s' ∧ keeps_pinned (λ _, False) s s' ∧
    (isDirty pg = true → content (log (diskManager s')) = log_stream (get_log s)) ∧
    log_same s s' ∧
    nextPageID (diskManager s') = nextPageID (diskManager s) ∧ (ids_bound s → ids_bound s') ∧
    (frames_ok s E n (Some f) → frames_ok s' E n (Some f)) ∧ no_new (λ _, False) s s'.
Proof.
  intros [I HR] C HP HE HC. pose proof C as (HT & H0 & HF & HO).
  destruct (pi_map _ _ _ I _ _ HT) as (HN & p0 & pg0 & C0 & Hid & HL & _).
  destruct (cached_fun _ _ _ _ _ _ _ _ C C0) as (_ & <- & <-).
  destruct (HC _ _ _ _ C) as [Hrange Hclean].
  assert (HM : ∃ s1, (if isDirty pg then _ ← with_log Flush; write_disk (id pg) (pdata pg)
                      else mret tt) s = Ok (tt, s1) ∧
      pool_inv s1 E n ∧ coherent s1 ∧ bpm s1 = bpm s ∧ page_objs s1 = page_objs s ∧
      keeps_pages s s1 ∧ page_present k (diskManager s1) ∧
      page_bytes k (diskManager s1) = pdata pg ∧
      (isDirty pg = true → content (log (diskManager s1)) = log_stream (get_log s)) ∧
      log_same s s1 ∧
      nextPageID (diskManager s1) = nextPageID (diskManager s) ∧ (ids_bound s → ids_bound s1) ∧
      ∀ pid, pid ≠ k → page_present pid (diskManager s) → page_present pid (diskManager s1) ∧
        page_bytes pid (diskManager s1) = page_bytes pid (diskManager s)).
  { destruct (isDirty pg) eqn:Hd.
    - destruct (flush_run s E n I) as (s1 & E1 & I1 & SP & HB & HG & HS & HNx & HLn & HO0).
      rewrite Hid. destruct (write_disk_run s1 k (pdata pg) Hrange HL) as (dm & E2 & W & HLg & HNp & _).
      exists (set_disk dm s1). split; [by step E1|].
      assert (C1 : cached s1 k f p pg) by by apply (same_pages_cached _ _ _ _ _ _ SP).
      assert (HC1 : coherent s1) by by eapply same_pages_coherent.
      destruct (written_disk s1 dm k (pdata pg) Hrange HL W) as [[W1 W2] W3].
      split_and!; try done.
      + split; [by apply static_set_disk|]. cbn. by rewrite HB.
      + eapply coherent_write; try done.
        intros f' p' pg' C'. by destruct (cached_fun _ _ _ _ _ _ _ _ C1 C') as (_ & _ & <-).
      + apply (sp_objs _ _ SP).
      + eapply keeps_pages_trans; [by apply same_pages_keeps|by eapply keeps_pages_write].
      + intros _. cbn. by rewrite HLg.
      + split; [|split; [exact HLn|by intros _]]. rewrite <- HS. unfold log_stream. cbn. by rewrite HLg.
      + cbn. congruence.
      + intros HI. eapply ids_bound_write; try done; [apply C1|].
        by eapply same_pages_ids.
      + intros pid Hne HPr. destruct (same_pages_disk _ _ pid SP) as [Hp1 Hb1].
        rewrite <- Hb1. apply W3; [done|by apply Hp1].
    - exists s. destruct (Hclean eq_refl HP). split_and!; try done. by intros ? ?. }
  destruct HM as (s1 & E1 & [I1 HR1] & HC1 & HB1 & HO1 & HK1 & HP1 & HBy1 & HD1 & HS1 & HN1 & HIb1 & HD').
  assert (C1 : cached s1 k f p pg) by (unfold cached in *; by rewrite HB1, HO1).
  exists (unmap k s1). split.
  { unfold evict. step (frame_page_run _ _ _ _ _ C). step (read_page_run _ _ _ HO). step E1.
    by rewrite Hid. }
  split; [split; [by eapply static_unmap|done]|]. split; [by apply coherent_unmap|]. split.
  { split; [cbn; by rewrite HB1|]. split; [done|]. intros pid HT'. cbn in HT'.
    apply lookup_delete_Some in HT' as [Hne HT']. rewrite HB1 in HT'.
    destruct (pi_map _ _ _ I _ _ HT') as (_ & p' & q & C' & _).
    apply Hne. symmetry.
    destruct C' as (H1 & H2 & H3 & H4). assert (p' = p) as -> by congruence.
    assert (q = pg) as -> by congruence.
    eapply (cached_frame_inj s E n pid k f p pg p pg I); [by split_and!|done]. }
  split; [cbn; by rewrite HB1|].
  assert (HC1' : ∀ pid' f' p' q, cached s1 pid' f' p' q ↔ cached s pid' f' p' q)
    by (intros; unfold cached; by rewrite HB1, HO1).
  split; [|split; [|repeat (split; [done|]); split; [|split]]].
  - eapply keeps_pages_trans; [done|by eapply keeps_pages_unmap].
  - intros pid' f' p' q _ C' HP'. apply cached_unmap. split.
    + intros ->. destruct (cached_fun _ _ _ _ _ _ _ _ C C') as (_ & _ & <-). lia.
    + unfold cached in *. by rewrite HB1, HO1.
  - intros HI. by apply ids_bound_unmap, HIb1.
  - intros HA g Hg Hne. destruct (HA g Hg Hne) as [Hin|(pid & p' & q & C' & HE')].
    + left. cbn. by rewrite HB1.
    + right. exists pid, p', q. rewrite cached_unmap, HC1'. split; [|done]. split; [|done].
      intros ->. destruct (cached_fun _ _ _ _ _ _ _ _ C C') as (<- & _). done.
  - intros pid' f' p' q _ [Hne C']%cached_unmap. split; [by apply HC1'|]. by apply HD'.
Qed.

(** The two writes of an eviction, the log's first. *)
Lemma evict_writes s E n k f p pg s' :
  pool_inv s E n → cached s k f p pg → isDirty pg = true → coherent s → evict f s = Ok (tt, s') →
  ∃ bs, log_stream (get_log s) = content (log (diskManager s)) ++ bs ∧
    writes (diskManager s') = writes (diskManager s) ++ [LogWritten bs; PageWritten (k * PageSize) (pdata pg)].
Proof.
  intros [I HR] C Hd HC E'. pose proof C as (HT & _ & _ & HO).
  destruct (pi_map _ _ _ I _ _ HT) as (_ & p0 & pg0 & C0 & Hid & HL & _).
  destruct (cached_fun _ _ _ _ _ _ _ _ C C0) as (_ & <- & <-). destruct (HC _ _ _ _ C) as [Hrange _].
  destruct (Flush_run _ _ (pi_log _ _ _ I)) as (lm & d & E1 & _).
  destruct (Flush_writes _ _ _ _ (pi_log _ _ _ I) E1) as (bs & HS & HW). exists bs. split; [exact HS|].
  set (s1 := set_log_state (lm, d) s). assert (EF : with_log Flush s = Ok (tt, s1)) by by apply zoom_run.
  destruct (write_disk_run s1 k (pdata pg) Hrange HL) as (dm & E2 & _ & _ & _ & HW2).
  assert (EE : evict f s = Ok (tt, unmap k (set_disk dm s1))).
  { unfold evict. step (frame_page_run _ _ _ _ _ C). step (read_page_run _ _ _ HO). rewrite Hd, Hid.
    assert (EM : (_ ← with_log Flush; write_disk k (pdata pg)) s = Ok (tt, set_disk dm s1)) by (by step EF). by step EM. }
  rewrite EE in E'. injection E' as <-. cbn [unmap set_bpm set_disk diskManager]. rewrite HW2.
  cbn [s1 set_log_state diskManager]. cbn [fst snd]. rewrite HW, <- app_assoc. done.
Qed.

(** *** Installing a page in an unused frame *)
Definition install (pid f : Z) (pg : Page) s : Store R :=
  let p := fresh_ptr s in
  let b := bpm s in
  MkStore (diskManager s) (log_manager s) (<[p := pg]> (page_objs s)) (S p)
    (MkBPM (<[Z.to_nat f := Some p]> (pages b)) (replacer b) (freeList b)
       (<[pid := f]> (pageTable b))).

Lemma cached_install s E n pid f pg pid' f' p' q :
  pool_static s E n → frame_unused s E f → 0 ≤ f < Z.of_nat n →
  pageTable (bpm s) !! pid = None →
  cached (install pid f pg s) pid' f' p' q ↔
    (pid' = pid ∧ f' = f ∧ p' = fresh_ptr s ∧ q = pg) ∨ (pid' ≠ pid ∧ cached s pid' f' p' q).
Proof.
  intros I (U1 & U2 & U3) Hf HT. unfold cached, install. cbn [bpm pageTable pages page_objs].
  assert (HL : (Z.to_nat f < length (pages (bpm s)))%nat) by (rewrite (pi_pages _ _ _ I); lia).
  rewrite lookup_insert_Some. split.
  - intros ([[-> ->]|[Hne HT']] & H0 & HP & HO).
    + left. rewrite list_lookup_insert_eq in HP by done. simplify_eq.
      rewrite lookup_insert_eq in HO. by simplify_eq.
    + right. split; [done|]. split; [done|]. split; [done|].
      destruct (pi_map _ _ _ I _ _ HT') as (_ & p1 & q1 & C1 & _).
      destruct C1 as (_ & _ & HP1 & HO1).
      assert (Hff : f' ≠ f) by (intros ->; by apply (U3 pid')).
      rewrite list_lookup_insert_ne in HP by lia. simplify_eq. split; [done|].
      rewrite lookup_insert_ne in HO; [done|].
      intros <-. pose proof (pi_fresh _ _ _ I (fresh_ptr s)) as Hfr.
      rewrite HO1 in Hfr. specialize (Hfr (mk_is_Some _ _ eq_refl)). lia.
  - intros [(-> & -> & -> & ->)|(Hne & HT' & H0 & HP & HO)].
    + split; [by left|]. split; [lia|]. rewrite list_lookup_insert_eq by done.
      by rewrite lookup_insert_eq.
    + split; [right; split; [congruence|done]|]. split; [done|].
      assert (Hff : f' ≠ f) by (intros ->; by apply (U3 pid')).
      rewrite list_lookup_insert_ne by lia. split; [done|].
      rewrite lookup_insert_ne; [done|]. intros <-.
      pose proof (pi_fresh _ _ _ I (fresh_ptr s)) as Hfr.
      rewrite HO in Hfr. specialize (Hfr (mk_is_Some _ _ eq_refl)). lia.
Qed.

Lemma install_inv s E n pid f pg :
  pool_inv s E n → frame_unused s E f → 0 ≤ f < Z.of_nat n →
  pageTable (bpm s) !! pid = None → id pg = pid →
  Z.of_nat (length (pdata pg)) = PageSize → 0 ≤ pinCount pg →
  pool_inv (install pid f pg s) E n.
Proof.
  intros [I HR] U Hf HT Hid HL HP. split; [|done].
  pose proof (λ pid' f' p' q, cached_install s E n pid f pg pid' f' p' q I U Hf HT) as HC.
  pose proof I as []. pose proof U as (U1 & U2 & U3). split; try done.
  - cbn. by rewrite length_insert.
  - intros pid' f' HT'. cbn in HT'. apply lookup_insert_Some in HT' as [[<- <-]|[Hne HT']].
    + split; [done|]. exists (fresh_ptr s), pg. rewrite HC. split; [by left|done].
    + destruct (pi_map0 _ _ HT') as (HN & p' & q & C & ?). split; [done|].
      exists p', q. rewrite HC. split; [right; by split|done].
  - intros f' Hf'. destruct (pi_evictable0 f' Hf') as (pid' & p' & q & C & ?).
    exists pid', p', q. rewrite HC. split; [right; split; [|done]|done].
    intros ->. destruct C as (HT' & _). congruence.
  - intros q Hq. cbn in *. apply lookup_insert_is_Some' in Hq as [<-|Hq]; [lia|].
    apply pi_fresh0 in Hq. lia.
Qed.

Lemma install_coherent s E n pid f pg :
  pool_inv s E n → frame_unused s E f → 0 ≤ f < Z.of_nat n →
  pageTable (bpm s) !! pid = None → coherent s → page_in_range pid → pinCount pg = 1 →
  coherent (install pid f pg s).
Proof.
  intros [I _] U Hf HT HC HR HP pid' f' p' q C.
  apply (cached_install s E n pid f pg pid' f' p' q I U Hf HT) in C
    as [(-> & -> & -> & ->)|[_ C]].
  - split; [done|]. intros _ HP'. lia.
  - exact (HC _ _ _ _ C).
Qed.

Lemma install_keeps s E n pid f pg :
  pool_inv s E n → frame_unused s E f → 0 ≤ f < Z.of_nat n →
  pageTable (bpm s) !! pid = None → (∀ bs, page_has s pid bs → pdata pg = bs) →
  keeps_pages s (install pid f pg s) ∧ keeps_pinned (λ _, False) s (install pid f pg s).
Proof.
  intros [I _] U Hf HT HD.
  pose proof (λ pid' f' p' q, cached_install s E n pid f pg pid' f' p' q I U Hf HT) as HC.
  split.
  - intros pid' bs HB. destruct (decide (pid' = pid)) as [->|Hne].
    + left. exists f, (fresh_ptr s), pg. rewrite HC. split; [by left|by apply HD].
    + destruct HB as [(f' & p' & q & C & HB)|(HT' & HB)].
      * left. exists f', p', q. rewrite HC. split; [right; by split|done].
      * right. split; [|done]. cbn. by rewrite lookup_insert_ne.
  - intros pid' f' p' q _ C _. rewrite HC. right. split; [|done].
    intros ->. destruct C as (HT' & _). congruence.
Qed.

Lemma install_frames s E n pid f pg :
  pool_inv s E n → frame_unused s E f → 0 ≤ f < Z.of_nat n →
  pageTable (bpm s) !! pid = None → pinCount pg = 1 →
  (frames_ok s E n (Some f) → frames_ok (install pid f pg s) E n None) ∧
  no_new (λ i, i = pid) s (install pid f pg s).
Proof.
  intros [I _] U Hf HT HP.
  pose proof (λ pid' f' p' q, cached_install s E n pid f pg pid' f' p' q I U Hf HT) as HC.
  split.
  - intros HA g Hg _. destruct (decide (g = f)) as [->|Hne].
    + right. exists pid, (fresh_ptr s), pg. rewrite HC. split; [by left|lia].
    + destruct (HA g Hg) as [|(pid' & p' & q & C & HE)]; [congruence|by left|right].
      exists pid', p', q. rewrite HC. split; [right; split; [|done]|done].
      intros ->. destruct C as (HT' & _). congruence.
  - intros pid' f' p' q Hne C'. apply HC in C' as [(-> & _)|[_ C']]; [done|by split].
Qed.

Lemma install_ids s pid f pg :
  ids_bound s → pid < nextPageID (diskManager s) → ids_bound (install pid f pg s).
Proof.
  intros [HF HB] HP. split; [done|]. intros pid' f' HT. cbn in HT.
  apply lookup_insert_Some in HT as [[<- <-]|[_ HT]]; [done|exact (HB _ _ HT)].
Qed.

(** A frame for a page that is not in the pool: from the free list, or by
    evicting an unpinned page. *)
Lemma obtain_frame s E n :
  pool_inv s E n → coherent s → freeList (bpm s) ≠ [] ∨ E ≠ ∅ →
  ∃ f (b : bool) s1 s2 E', getFrameID s = Ok ((Some f, b), s1) ∧
    (if b then mret tt else evict f) s1 = Ok (tt, s2) ∧
    pool_inv s2 E' n ∧ coherent s2 ∧ frame_unused s2 E' f ∧ 0 ≤ f < Z.of_nat n ∧
    keeps_pages s s2 ∧ keeps_pinned (λ _, False) s s2 ∧
    (∀ pid, pageTable (bpm s) !! pid = None → pageTable (bpm s2) !! pid = None) ∧
    log_same s s2 ∧
    nextPageID (diskManager s2) = nextPageID (diskManager s) ∧ (ids_bound s → ids_bound s2) ∧
    (frames_ok s E n None → frames_ok s2 E' n (Some f)) ∧ no_new (λ _, False) s s2.
Proof.
  intros I HC HF. destruct (freeList (bpm s)) as [|f l] eqn:EF.
  - destruct HF as [|HE]; [done|].
    destruct (getFrameID_victim s E n I EF) as (o & s1 & E1 & SP & _ & HG & HV).
    destruct o as [f|]; [|by destruct HV].
    destruct HV as (Hf & I1 & HA1). destruct I as [I HR].
    destruct (pi_evictable _ _ _ I f Hf) as (k & p & pg & C & HP).
    pose proof (cached_in_range _ _ _ _ _ _ _ I C).
    apply (same_pages_cached _ _ _ _ _ _ SP) in C.
    destruct (evict_run s1 _ n k f p pg I1 C HP) as
      (s2 & E2 & I2 & HC2 & U2 & HT2 & HK2 & HP2 & _ & HS2 & HN2 & HI2 & HA2 & HW2);
      [set_solver|by eapply same_pages_coherent|].
    pose proof (log_same_eq _ _ HG) as HLs. injection HG as HG1 HG2.
    exists f, false, s1, s2, (E ∖ {[f]}). repeat (split; [done|]). split.
    { eapply keeps_pages_trans; [by apply same_pages_keeps|done]. }
    split; [eapply keeps_pinned_trans; [by apply same_pages_pinned|done]|]. split.
    { intros pid HT. rewrite HT2, (sp_table _ _ SP). apply lookup_delete_None. by right. }
    split; [by eapply log_same_trans|]. split; [by rewrite HN2, HG2|].
    split; [intros HI; apply HI2; eapply same_pages_ids; [done|by rewrite HG2|done]|].
    split; [intros HA; by apply HA2, HA1|].
    apply (no_new_trans (λ _, False) _ _ s1); [done|by apply same_pages_no_new|exact HW2].
  - destruct (getFrameID_free s E n f l I EF) as (s1 & E1 & I1 & U1 & Hf & SP & HG & HA1).
    pose proof (log_same_eq _ _ HG) as HLs. injection HG as HG1 HG2.
    exists f, true, s1, s1, E. repeat (split; [done|]).
    split; [by eapply same_pages_coherent|]. repeat (split; [done|]).
    split; [by apply same_pages_keeps|]. split; [by apply same_pages_pinned|].
    split; [intros pid; by rewrite (sp_table _ _ SP)|].
    split; [done|]. split; [by rewrite HG2|].
    split; [eapply same_pages_ids; [done|by rewrite HG2]|].
    split; [done|by apply same_pages_no_new].
Qed.

(** *** fetch_load *)
Lemma set_frame_run s f p :
  0 ≤ f < Z.of_nat (length (pages (bpm s))) →
  set_frame f p s = Ok (tt, set_bpm (MkBPM (<[Z.to_nat f := Some p]> (pages (bpm s)))
     (replacer (bpm s)) (freeList (bpm s)) (pageTable (bpm s))) s).
Proof.
  intros Hf. unfold set_frame.
  destruct (lookup_lt_is_Some_2 (pages (bpm s)) (Z.to_nat f)) as [o Ho]; [lia|].
  by rewrite (index_Ok _ f o) by (done || lia).
Qed.

(** Allocating an object for the page, entering it in the table and the frame. *)
Lemma install_run s E n pid f pg :
  pool_static s E n → 0 ≤ f < Z.of_nat n →
  (p ← alloc_page pg; _ ← table_insert pid f; _ ← set_frame f p; mret (Some p)) s =
    Ok (Some (fresh_ptr s), install pid f pg s).
Proof.
  intros I Hf. unfold alloc_page. step1. unfold table_insert at 1. step1.
  erewrite st_bind_run by (apply set_frame_run; cbn; rewrite (pi_pages _ _ _ I); lia).
  done.
Qed.

Lemma fetch_load_run s E n pid f :
  pool_static s E n → 0 ≤ f < Z.of_nat n → page_present pid (diskManager s) →
  ∃ d', fetch_load pid f s = Ok (Some (fresh_ptr s),
      install pid f (New_page pid false (page_bytes pid (diskManager s))) (set_disk d' s)) ∧
    same_pages s (set_disk d' s) ∧ pool_static (set_disk d' s) E n ∧
    log_same s (set_disk d' s) ∧ nextPageID d' = nextPageID (diskManager s).
Proof.
  intros I Hf HP.
  destruct (ReadPage_present _ _ HP) as (d' & E1 & HD & HL & HN & _).
  assert (I' : pool_static (set_disk d' s) E n) by (apply static_set_disk; done).
  assert (SP : same_pages s (set_disk d' s)) by (split; done).
  exists d'. split; [|split; [done|split; [done|split; [|done]]]].
  - unfold fetch_load. step1. rewrite E1. step1. exact (install_run _ _ _ _ _ _ I' Hf).
  - split; [|done]. unfold log_stream. cbn. by rewrite HL.
Qed.

Lemma frame_unused_same s s' E f :
  same_pages s s' → freeList (bpm s') = freeList (bpm s) → frame_unused s E f → frame_unused s' E f.
Proof. intros [] HF (U1 & U2 & U3). unfold frame_unused. by rewrite HF, sp_table0. Qed.

(** *** FetchPage *)
Lemma page_has_fun s pid bs bs' : page_has s pid bs → page_has s pid bs' → bs = bs'.
Proof.
  intros [(f & p & q & C & HB)|(HT & _ & HB)] [(f' & p' & q' & C' & HB')|(HT' & _ & HB')].
  - destruct (cached_fun _ _ _ _ _ _ _ _ C C') as (_ & _ & <-). congruence.
  - destruct C as (HT & _). congruence.
  - destruct C' as (HT' & _). congruence.
  - congruence.
Qed.

Lemma FetchPage_hit s E n pid f p pg :
  pool_inv s E n → cached s pid f p pg → pinCount pg < 2 ^ 32 - 1 →
  ∃ s', FetchPage pid s = Ok (Some p, s') ∧ pool_inv s' (E ∖ {[f]}) n ∧
    cached s' pid f p (IncPinCount pg) ∧
    keeps_pages s s' ∧ keeps_pinned (λ i, i = pid) s s' ∧ (coherent s → coherent s') ∧
    (frames_ok s E n None → frames_ok s' (E ∖ {[f]}) n None) ∧ no_new (λ i, i = pid) s s' ∧
    get_log s' = get_log s ∧ (ids_bound s → ids_bound s').
Proof.
  intros I C HP. destruct (fetch_cached_hit s E n pid f p pg I C HP)
    as (s' & E1 & I1 & C1 & _ & HK & HPn & HC & HX).
  exists s'. split; [|done]. unfold FetchPage. by step E1.
Qed.

Lemma FetchPage_miss s E n pid bs :
  pool_inv s E n → coherent s → pageTable (bpm s) !! pid = None → page_has s pid bs →
  freeList (bpm s) ≠ [] ∨ E ≠ ∅ →
  ∃ p s' E' f, FetchPage pid s = Ok (Some p, s') ∧ pool_inv s' E' n ∧
    cached s' pid f p (New_page pid false bs) ∧
    keeps_pages s s' ∧ keeps_pinned (λ _, False) s s' ∧ coherent s' ∧
    log_same s s' ∧ (ids_bound s → ids_bound s') ∧
    nextPageID (diskManager s') = nextPageID (diskManager s) ∧
    (frames_ok s E n None → frames_ok s' E' n None) ∧ no_new (λ i, i = pid) s s' ∧
    page_present pid (diskManager s') ∧ page_bytes pid (diskManager s') = bs.
Proof.
  intros I HC HT HB HF.
  destruct (obtain_frame s E n I HC HF) as
    (f & b & s1 & s2 & E' & E1 & E2 & I2 & HC2 & U2 & Hf & HK2 & HP2 & HT2 & HS2 & HN2 & HI2 &
     HA2 & HW2).
  pose proof (HT2 pid HT) as HTs. apply HK2 in HB.
  destruct HB as [(f' & p' & q & (HT' & _) & _)|(_ & HPr & HBy)]; [congruence|].
  pose proof I2 as [I2s HR2].
  destruct (fetch_load_run s2 E' n pid f I2s Hf HPr) as (d' & E3 & SP & I3 & HS3 & HN3).
  assert (I3' : pool_inv (set_disk d' s2) E' n) by (split; done).
  assert (U3 : frame_unused (set_disk d' s2) E' f) by (by eapply frame_unused_same).
  rewrite HBy in E3.
  assert (HD : ∀ bs', page_has (set_disk d' s2) pid bs' → bs = bs').
  { intros bs' HB'. eapply page_has_fun; [|exact HB']. apply (same_pages_keeps _ _ SP).
    by right. }
  assert (HLen : Z.of_nat (length bs) = PageSize).
  { rewrite <- HBy. unfold page_bytes. destruct HPr as [Hr Hsz].
    unfold page_in_range, file_size in *.
    rewrite length_region; unfold PageSize in *; lia. }
  destruct (install_keeps _ E' n pid f (New_page pid false bs) I3' U3 Hf HTs HD) as [HK4 HP4].
  eexists _, _, E', f. split.
  { unfold FetchPage. step (fetch_cached_miss s pid HT). step E1. step E2. exact E3. }
  split; [by apply install_inv|]. split.
  { eapply (cached_install (set_disk d' s2) E' n); try done. by left. }
  split.
  { eapply keeps_pages_trans; [exact HK2|]. eapply keeps_pages_trans; [|exact HK4].
    by apply same_pages_keeps. }
  split.
  { eapply keeps_pinned_trans; [exact HP2|]. eapply keeps_pinned_trans; [|exact HP4].
    by apply same_pages_pinned. }
  split; [eapply install_coherent; try done; [by eapply same_pages_coherent|apply HPr]|].
  assert (Hfo : frames_ok s E n None → frames_ok (set_disk d' s2) E' n (Some f)).
  { intros HA. by apply (same_pages_frames s2), HA2. }
  split; [exact (log_same_trans _ _ _ HS2 HS3)|].
  destruct (install_frames (set_disk d' s2) E' n pid f (New_page pid false bs) I3' U3 Hf HTs eq_refl)
    as [HA4 HW4].
  split; [|split; [cbn; congruence|]; split; [by intros HA; apply HA4, Hfo|]; split].
  2: { apply (no_new_trans (λ i, i = pid) _ _ (set_disk d' s2)); [done| |exact HW4].
    apply (no_new_trans (λ _, False) _ _ s2); [done|exact HW2|by apply same_pages_no_new]. }
  2: { destruct (same_pages_disk _ _ pid SP) as [Hp1 Hb1]. split; [by apply Hp1|].
    rewrite <- HBy. exact Hb1. }
  intros HI. apply install_ids; [by eapply same_pages_ids; [|cbn; rewrite HN3|apply HI2]|].
  apply HI2 in HI as [HI _]. cbn. rewrite HN3.
  destruct HPr as [_ HPr]. unfold PageSize in *.
  assert (pid + 1 ≤ file_size (db (diskManager s2)) / 4096) by (apply Z.div_le_lower_bound; lia).
  lia.
Qed.

(** *** NewPage *)
Lemma NewPage_run s E n :
  pool_inv s E n → coherent s → ids_bound s → freeList (bpm s) ≠ [] ∨ E ≠ ∅ →
  let pid := nextPageID (diskManager s) in
  page_in_range pid →
  ∃ p s' E' f, NewPage s = Ok (Some p, s') ∧ pool_inv s' E' n ∧
    cached s' pid f p (NewEmpty pid) ∧ keeps_pages s s' ∧
    keeps_pinned (λ _, False) s s' ∧ coherent s' ∧ ids_bound s' ∧
    nextPageID (diskManager s') = pid + 1 ∧ log_same s s' ∧
    (frames_ok s E n None → frames_ok s' E' n None) ∧ no_new (λ i, i = pid) s s'.
Proof.
  intros I HC HI HF pid HR.
  destruct (obtain_frame s E n I HC HF) as
    (f & b & s1 & s2 & E' & E1 & E2 & I2 & HC2 & U2 & Hf & HK2 & HP2 & HT2 & HS2 & HN2 & HI2 &
     HA2 & HW2).
  apply HI2 in HI. clear HI2. subst pid. rewrite <- HN2 in HR |- *.
  set (pid := nextPageID (diskManager s2)) in *. set (s3 := set_disk (snd (AllocatePage (diskManager s2))) s2).
  assert (SP : same_pages s2 s3) by (split; done).
  pose proof I2 as [I2s HR2].
  assert (I3 : pool_inv s3 E' n) by (split; [by apply static_set_disk|done]).
  assert (U3 : frame_unused s3 E' f) by (by eapply frame_unused_same).
  assert (HNp : nextPageID (diskManager s3) = pid + 1).
  { cbn. unfold page_in_range in HR. apply i32_small. unfold in_i32, pid in *. lia. }
  assert (HI3 : ids_bound s3).
  { destruct HI as [H1 H2]. split; rewrite HNp; cbn in *; [lia|].
    intros pid' f' HT. apply H2 in HT. unfold pid. lia. }
  assert (HT3 : pageTable (bpm s3) !! pid = None).
  { destruct (pageTable (bpm s3) !! pid) as [f'|] eqn:HT; [|done].
    destruct HI as [_ HI]. apply HI in HT. unfold pid in HT. lia. }
  assert (HNo : ∀ bs, page_has s3 pid bs → pdata (NewEmpty pid) = bs).
  { intros bs [(f' & p' & q & (HT & _) & _)|(_ & [_ HPr] & _)]; [congruence|].
    destruct HI as [HI _]. exfalso. cbn in HPr.
    assert (pid + 1 ≤ file_size (db (diskManager s2)) / PageSize)
      by (apply Z.div_le_lower_bound; unfold PageSize in *; lia).
    unfold pid in *. lia. }
  destruct (install_keeps _ E' n pid f (NewEmpty pid) I3 U3 Hf HT3 HNo) as [HK4 HP4].
  exists (fresh_ptr s3), (install pid f (NewEmpty pid) s3), E', f. split.
  { unfold NewPage. step E1. step E2. step1. cbn [AllocatePage]. step1. fold pid.
    exact (install_run _ _ _ _ _ _ (proj1 I3) Hf). }
  split; [by apply install_inv|]. split.
  { eapply (cached_install s3 E' n); [apply I3|done..|by left]. }
  split.
  { eapply keeps_pages_trans; [exact HK2|]. eapply keeps_pages_trans; [|exact HK4].
    by apply same_pages_keeps. }
  split.
  { eapply keeps_pinned_trans; [exact HP2|]. eapply keeps_pinned_trans; [|exact HP4].
    by apply same_pages_pinned. }
  split; [eapply install_coherent; try done; by eapply same_pages_coherent|].
  split; [apply install_ids; [done|lia]|]. split; [done|].
  destruct (install_frames s3 E' n pid f (NewEmpty pid) I3 U3 Hf HT3 eq_refl) as [HA4 HW4].
  split; [exact HS2|]. split; [intros HA; by apply HA4, (same_pages_frames s2), HA2|].
  apply (no_new_trans (λ i, i = pid) _ _ s3); [done| |exact HW4].
  apply (no_new_trans (λ _, False) _ _ s2); [done|exact HW2|by apply same_pages_no_new].
Qed.

(** Without a free or an evictable frame both give nil and change no page. *)
Lemma no_frame s n :
  pool_inv s ∅ n → freeList (bpm s) = [] →
  ∃ s', getFrameID s = Ok ((None, false), s') ∧ pool_inv s' ∅ n ∧ same_pages s s'.
Proof.
  intros I HF. destruct (getFrameID_victim s ∅ n I HF) as (o & s' & E1 & SP & _ & _ & HV).
  destruct o as [f|]; [set_solver|]. exists s'. by destruct HV.
Qed.

(** *** UnpinPage *)
Definition unpinned (dirty : bool) (pg : Page) : Page :=
  SetIsDirty (isDirty pg || dirty) (DecPinCount pg).

Lemma SetIsDirty_or (b : bool) pg :
  (if isDirty pg || b then SetIsDirty true pg else SetIsDirty false pg) =
  SetIsDirty (isDirty pg || b) pg.
Proof. by destruct (isDirty pg || b). Qed.

Lemma DecPinCount_range pg : 0 ≤ pinCount pg → 0 ≤ pinCount (DecPinCount pg) ≤ pinCount pg.
Proof. unfold DecPinCount. destruct (Z.ltb_spec 0 (pinCount pg)); simpl; lia. Qed.

Lemma DecPinCount_fields pg :
  id (DecPinCount pg) = id pg ∧ isDirty (DecPinCount pg) = isDirty pg ∧
  pdata (DecPinCount pg) = pdata pg ∧ rwlatch_ (DecPinCount pg) = rwlatch_ pg.
Proof. unfold DecPinCount. by destruct (0 <? pinCount pg). Qed.

Lemma upd_obj_twice s p pg pg' : upd_obj p pg' (upd_obj p pg s) = upd_obj p pg' s.
Proof.
  unfold upd_obj, set_objs. cbn. f_equal. apply insert_insert_eq.
Qed.

Lemma UnpinPage_run s E n pid f p pg dirty :
  pool_inv s E n → cached s pid f p pg → coherent s →
  (isDirty pg || dirty = false → pinCount (DecPinCount pg) = 0 →
     page_present pid (diskManager s) ∧ page_bytes pid (diskManager s) = pdata pg) →
  ∃ s' E', UnpinPage pid dirty s = Ok (true, s') ∧ pool_inv s' E' n ∧
    cached s' pid f p (unpinned dirty pg) ∧ coherent s' ∧ keeps_pages s s' ∧
    keeps_pinned (λ i, i = pid) s s' ∧ (f ∈ E' ↔ f ∈ E ∨ pinCount (DecPinCount pg) = 0) ∧
    freeList (bpm s') = freeList (bpm s) ∧ diskManager s' = diskManager s ∧
    get_log s' = get_log s ∧ pageTable (bpm s') = pageTable (bpm s) ∧
    (frames_ok s E n None → frames_ok s' E' n None) ∧ no_new (λ i, i = pid) s s'.
Proof.
  intros [I HR] C HC HD. pose proof C as (HT & _ & _ & HO).
  destruct (pi_map _ _ _ I _ _ HT) as (_ & p0 & pg0 & C0 & _ & _ & HP0).
  destruct (cached_fun _ _ _ _ _ _ _ _ C C0) as (_ & <- & <-).
  pose proof (DecPinCount_range pg HP0) as HDr.
  pose proof (DecPinCount_fields pg) as (D1 & D2 & D3 & _).
  set (pg1 := DecPinCount pg) in *. set (s1 := upd_obj p pg1 s).
  assert (C1 : cached s1 pid f p pg1) by (by eapply cached_upd_same).
  assert (I1 : pool_static s1 E n).
  { eapply static_upd_obj; try done; [by rewrite D3|lia|]. intros Hf.
    destruct (pi_evictable _ _ _ I f Hf) as (pid' & p' & q & C' & HP').
    rewrite (cached_frame_inj _ _ _ _ _ _ _ _ _ _ I C' C) in C'.
    destruct (cached_fun _ _ _ _ _ _ _ _ C C') as (_ & _ & <-). lia. }
  assert (HM : ∃ s2 E', (if pinCount pg1 <=? 0 then replacer_Unpin f else mret tt) s1 = Ok (tt, s2) ∧
    pool_inv s2 E' n ∧ same_pages s1 s2 ∧ freeList (bpm s2) = freeList (bpm s1) ∧
    get_log s2 = get_log s1 ∧ (f ∈ E' ↔ f ∈ E ∨ pinCount pg1 = 0) ∧
    (f ∈ E' → pinCount pg1 = 0) ∧ (∀ g, g ∈ E → g ∈ E')).
  { destruct (Z.leb_spec (pinCount pg1) 0).
    - destruct (replacer_Unpin_run s1 E n f pid p pg1 I1 HR C1) as (s2 & E2 & I2 & SP & HF & HG);
        [lia|]. exists s2, ({[f]} ∪ E). repeat (split; [done|]).
      rewrite elem_of_union, elem_of_singleton. split; [|split; [lia|set_solver]].
      split; [intros _; right; lia|by left].
    - exists s1, E. split; [done|]. split; [by split|]. split; [by split|].
      split; [done|]. split; [done|]. split; [split; [by left|intros [|]; [done|lia]]|].
      split; [|done]. intros Hf. destruct (pi_evictable _ _ _ I1 f Hf) as (pid' & p' & q & C' & HP').
      rewrite (cached_frame_inj _ _ _ _ _ _ _ _ _ _ I1 C' C1) in C'.
      by destruct (cached_fun _ _ _ _ _ _ _ _ C1 C') as (_ & _ & <-). }
  destruct HM as (s2 & E' & E2 & [I2 HR2] & SP & HF & HG & HE & HEz & HEs).
  assert (C2 : cached s2 pid f p pg1) by (by apply (same_pages_cached _ _ _ _ _ _ SP)).
  assert (HO2 : page_objs s2 !! p = Some pg1) by apply C2.
  set (s3 := upd_obj p (unpinned dirty pg) s2). set (s0 := upd_obj p (unpinned dirty pg) s).
  assert (SP3 : same_pages s0 s3).
  { split; cbn; try apply SP. rewrite (sp_objs _ _ SP). apply insert_insert_eq. }
  assert (HC0 : coherent s0).
  { eapply coherent_upd_obj; try done. cbn. fold pg1. by rewrite D3. }
  exists s3, E'. split.
  { unfold UnpinPage. step1. rewrite HT. step (frame_page_run _ _ _ _ _ C).
    rewrite (st_bind_run _ _ _ _ _ (st_lift_run _ p _ eq_refl)). cbn beta.
    step (update_page_run _ _ _ (λ pg, Ok (DecPinCount pg)) _ HO eq_refl). fold pg1 s1.
    step (read_page_run s1 p pg1 ltac:(apply C1)). step E2.
    step (update_page_run s2 p pg1 (λ pg, Ok (if isDirty pg || dirty then SetIsDirty true pg
       else SetIsDirty false pg)) (unpinned dirty pg) HO2
       ltac:(cbn beta; rewrite SetIsDirty_or, D2; done)). done. }
  split.
  { split; [|done]. eapply static_upd_obj; [exact I2|exact C2|done|done| |exact HEz].
    cbn. fold pg1. lia. }
  split; [by eapply cached_upd_same|]. split; [by eapply same_pages_coherent|].
  split.
  { eapply keeps_pages_trans; [|by apply same_pages_keeps]. by eapply keeps_pages_upd_obj. }
  split.
  { eapply keeps_pinned_trans; [|by apply same_pages_pinned]. by eapply keeps_pinned_upd_obj. }
  split; [exact HE|]. split; [exact HF|]. unfold get_log in HG. injection HG as HG1 HG2.
  split; [exact HG2|]. split; [unfold get_log; cbn; by rewrite HG1, HG2|].
  split; [exact (sp_table _ _ SP)|]. split.
  - intros HA. apply (same_pages_frames s0); [done|exact HF|].
    eapply frames_upd_obj; [exact I|exact C| |intros g _; apply HEs|exact HA].
    cbn. fold pg1. intros Hz. apply HE. by right.
  - apply (no_new_trans (λ i, i = pid) _ _ s0); [done| |by apply same_pages_no_new].
    by eapply no_new_upd_obj.
Qed.

Lemma UnpinPage_missing s pid dirty :
  pageTable (bpm s) !! pid = None → UnpinPage pid dirty s = Ok (false, s).
Proof. intros HT. unfold UnpinPage. step1. by rewrite HT. Qed.

(** *** FlushPage *)
Definition flushed (pg : Page) : Page := SetIsDirty false (DecPinCount pg).

Lemma pdata_flushed pg : pdata (flushed pg) = pdata pg.
Proof. exact (proj1 (proj2 (proj2 (DecPinCount_fields pg)))). Qed.

Lemma FlushPage_run s E n pid f p pg :
  pool_inv s E n → cached s pid f p pg → unlatched pg → coherent s → (f ∈ E → pinCount pg = 0) →
  ∃ s' dm, FlushPage pid s = Ok (true, s') ∧ s' = set_disk dm (upd_obj p (flushed pg) s) ∧
    pool_inv s' E n ∧ coherent s' ∧ keeps_pages s s' ∧ keeps_pinned (λ i, i = pid) s s' ∧
    page_present pid (diskManager s') ∧ page_bytes pid (diskManager s') = pdata pg ∧
    log (diskManager s') = log (diskManager s) ∧
    nextPageID (diskManager s') = nextPageID (diskManager s) ∧ (ids_bound s → ids_bound s').
Proof.
  intros [I HR] C HU HC HE. pose proof C as (HT & _ & _ & HO).
  destruct (pi_map _ _ _ I _ _ HT) as (_ & p0 & pg0 & C0 & _ & HL & HP0).
  destruct (cached_fun _ _ _ _ _ _ _ _ C C0) as (_ & <- & <-).
  pose proof (DecPinCount_range pg HP0) as HDr.
  pose proof (DecPinCount_fields pg) as (D1 & D2 & D3 & D4).
  destruct (HC _ _ _ _ C) as [Hrange _].
  destruct (write_disk_run s pid (pdata pg) Hrange HL) as (dm & EW & W & HLg & HNx & _).
  destruct (written_disk s dm pid (pdata pg) Hrange HL W) as [[W1 W2] _].
  exists (set_disk dm (upd_obj p (flushed pg) s)), dm. split; [|split; [done|]].
  { unfold FlushPage. step1. rewrite HT. step (frame_page_run _ _ _ _ _ C).
    rewrite (st_bind_run _ _ _ _ _ (st_lift_run _ p _ eq_refl)). cbn beta.
    assert (EL : WLatch pg = Ok (set_latch (MkLatch 0 true) pg)).
    { unfold WLatch, on_latch, WLock. by rewrite HU. }
    step (update_page_run s p pg WLatch _ HO EL). fold (upd_obj p (set_latch (MkLatch 0 true) pg) s).
    set (pgl := set_latch (MkLatch 0 true) pg).
    assert (HO1 : page_objs (upd_obj p pgl s) !! p = Some pgl) by apply lookup_insert_eq.
    step (update_page_run _ p pgl (λ pg, Ok (DecPinCount pg)) _ HO1 eq_refl).
    fold (upd_obj p (DecPinCount pgl) (upd_obj p pgl s)). rewrite upd_obj_twice.
    assert (HO2 : page_objs (upd_obj p (DecPinCount pgl) s) !! p = Some (DecPinCount pgl))
      by apply lookup_insert_eq.
    step (read_page_run _ p _ HO2).
    assert (HD : pdata (DecPinCount pgl) = pdata pg).
    { by destruct (DecPinCount_fields pgl) as (_ & _ & -> & _). }
    rewrite HD.
    assert (EW' : write_disk pid (pdata pg) (upd_obj p (DecPinCount pgl) s) =
                  Ok (tt, set_disk dm (upd_obj p (DecPinCount pgl) s))).
    { unfold write_disk in EW |- *. cbn [diskManager upd_obj set_objs set_disk] in *.
      by injection EW as ->. }
    step EW'.
    step (update_page_run (set_disk dm (upd_obj p (DecPinCount pgl) s)) p (DecPinCount pgl)
            (λ pg, Ok (SetIsDirty false pg)) _ HO2 eq_refl).
    assert (EU : WUnlatch (SetIsDirty false (DecPinCount pgl)) = Ok (flushed pg)).
    { unfold WUnlatch, on_latch, WUnlock. cbn [SetIsDirty rwlatch_].
      destruct (DecPinCount_fields pgl) as (_ & _ & _ & ->). cbn. f_equal.
      unfold flushed, DecPinCount, pgl. cbn. unfold unlatched, NewRWLatch in HU.
      destruct (0 <? pinCount pg); cbn; unfold SetIsDirty, set_latch; cbn; by rewrite HU. }
    erewrite st_bind_run; [|eapply update_page_run; [apply lookup_insert_eq|exact EU]].
    cbn. unfold upd_obj, set_objs, set_disk. cbn. by rewrite !insert_insert_eq. }
  assert (C1 : cached (upd_obj p (flushed pg) s) pid f p (flushed pg)) by (by eapply cached_upd_same).
  assert (I1 : pool_static (upd_obj p (flushed pg) s) E n).
  { eapply static_upd_obj; try done; [by rewrite pdata_flushed|change (0 ≤ pinCount (DecPinCount pg)); lia|].
    intros Hf. apply HE in Hf. change (pinCount (DecPinCount pg) = 0). lia. }
  split; [split; [by apply static_set_disk|done]|]. split; [|split; [|split]].
  - assert (HC0 : coherent (set_disk dm s)).
    { eapply coherent_write; try done.
      intros f' p' pg' C'. by destruct (cached_fun _ _ _ _ _ _ _ _ C C') as (_ & _ & <-). }
    assert (I0 : pool_static (set_disk dm s) E n) by (by apply static_set_disk).
    change (coherent (upd_obj p (flushed pg) (set_disk dm s))).
    eapply coherent_upd_obj; [exact I0|exact C|exact HC0|]. intros _ _.
    split; [exact W1|]. cbn [set_disk diskManager]. by rewrite pdata_flushed.
  - eapply keeps_pages_trans;
      [exact (keeps_pages_upd_obj _ _ _ _ _ _ _ (flushed pg) I C (pdata_flushed pg))|].
    by eapply keeps_pages_write.
  - intros pid' f' p' q Hne C' HP.
    exact (keeps_pinned_upd_obj _ _ _ _ _ _ _ (flushed pg) I C pid' f' p' q Hne C' HP).
  - cbn. split_and!; try done. intros HI.
    exact (ids_bound_write s dm pid f (pdata pg) HT Hrange HL W HNx HI).
Qed.

(** *** DeletePage *)
Lemma DeletePage_pinned s E n pid f p pg :
  pool_inv s E n → cached s pid f p pg → unlatched pg → 0 < pinCount pg →
  DeletePage pid s = Ok (Some ErrPinCount, s).
Proof.
  intros [I HR] C HU HP. pose proof C as (HT & _ & _ & HO).
  unfold DeletePage. step1. rewrite HT. step (frame_page_run _ _ _ _ _ C).
  rewrite (st_bind_run _ _ _ _ _ (st_lift_run _ p _ eq_refl)). cbn beta.
  assert (EL : WLatch pg = Ok (set_latch (MkLatch 0 true) pg)).
  { unfold WLatch, on_latch, WLock. by rewrite HU. }
  step (update_page_run s p pg WLatch _ HO EL). fold (upd_obj p (set_latch (MkLatch 0 true) pg) s).
  set (pgl := set_latch (MkLatch 0 true) pg).
  assert (HO1 : page_objs (upd_obj p pgl s) !! p = Some pgl) by apply lookup_insert_eq.
  step (read_page_run _ p _ HO1). cbn [pinCount pgl set_latch].
  rewrite (proj2 (Z.ltb_lt _ _)) by done.
  assert (EU : WUnlatch pgl = Ok pg).
  { unfold WUnlatch, on_latch, WUnlock, pgl. cbn. unfold set_latch, unlatched, NewRWLatch in *.
    destruct pg; cbn in *. by rewrite HU. }
  step (update_page_run _ p pgl WUnlatch _ HO1 EU). unfold mret, st_mret. do 2 f_equal.
  unfold set_objs, upd_obj. cbn. rewrite insert_insert_eq, insert_id by done. by destruct s.
Qed.
End lemmas.

(** ** Properties *)
Section properties.
Context {R : Type} `{Replacer R}.
Implicit Types s : Store R.

(** C19: [FetchPage] of a page that has content, in the pool or on disk, when it
    is in the pool or a frame can be had, returns a pinned object of the pool
    that holds that content; every page keeps its content, every pinned page
    its frame and object, and the pool's invariants hold again. *)
Theorem fetch_page_content s E n pid bs :
  pool_inv s E n → coherent s → page_has s pid bs →
  (∀ f p pg, cached s pid f p pg → pinCount pg < 2 ^ 32 - 1) →
  (pageTable (bpm s) !! pid = None → freeList (bpm s) ≠ [] ∨ E ≠ ∅) →
  ∃ p s' E' f pg, FetchPage pid s = Ok (Some p, s') ∧ pool_inv s' E' n ∧ coherent s' ∧
    cached s' pid f p pg ∧ pdata pg = bs ∧ 0 < pinCount pg ∧
    keeps_pages s s' ∧ keeps_pinned (λ i, i = pid) s s'.
Proof.
  intros I HC HB HP HF. destruct (pageTable (bpm s) !! pid) as [f|] eqn:HT.
  - destruct (pi_map _ _ _ (proj1 I) _ _ HT) as (_ & p & pg & C & _ & _ & HP0).
    destruct (FetchPage_hit s E n pid f p pg I C (HP _ _ _ C)) as (s' & E1 & I1 & C1 & HK & HPn & HC1 & _).
    exists p, s', (E ∖ {[f]}), f, (IncPinCount pg). repeat (split; [done|]).
    split; [by apply HC1|]. split; [done|]. split.
    { assert (HB' : page_has s pid (pdata pg)) by (left; by exists f, p, pg).
      exact (page_has_fun _ _ _ _ HB' HB). }
    split; [|done]. specialize (HP _ _ _ C). cbn. rewrite u32_small by (unfold in_u32; lia). lia.
  - destruct (FetchPage_miss s E n pid bs I HC HT HB (HF eq_refl))
      as (p & s' & E' & f & E1 & I1 & C1 & HK & HPn & HC1 & _).
    exists p, s', E', f, (New_page pid false bs). repeat (split; [done|]).
    intros pid' f' p' q _ C' HP'. by eapply HPn; [intros []| |].
Qed.

(** [NewPage], when a frame can be had, returns a pinned object of the pool
    for the next page id, zeroed; the id is new, other pages keep their content
    and pinned ones their place. *)
Theorem new_page_zeroed s E n :
  pool_inv s E n → coherent s → ids_bound s → freeList (bpm s) ≠ [] ∨ E ≠ ∅ →
  let pid := nextPageID (diskManager s) in
  page_in_range pid →
  ∃ p s' E' f, NewPage s = Ok (Some p, s') ∧ pool_inv s' E' n ∧ coherent s' ∧ ids_bound s' ∧
    cached s' pid f p (NewEmpty pid) ∧ (∀ bs, ¬ page_has s pid bs) ∧
    keeps_pages s s' ∧ keeps_pinned (λ _, False) s s'.
Proof.
  intros I HC HI HF pid HR.
  destruct (NewPage_run s E n I HC HI HF HR) as (p & s' & E' & f & E1 & I1 & C1 & HK & HPn & HC1 & HI1 & _).
  exists p, s', E', f. repeat (split; [done|]). split; [|done].
  intros bs [(f' & p' & q & (HT & _) & _)|(_ & [_ HPr] & _)]; destruct HI as [H1 H2].
  - apply H2 in HT. unfold pid in HT. lia.
  - assert (pid + 1 ≤ file_size (db (diskManager s)) / PageSize)
      by (apply Z.div_le_lower_bound; unfold PageSize in *; lia).
    unfold pid in *. lia.
Qed.

Lemma unpin_page_facts s E n pid f p pg dirty :
  pool_inv s E n → coherent s → cached s pid f p pg → 0 < pinCount pg →
  (isDirty pg || dirty = false → pinCount pg = 1 →
     page_present pid (diskManager s) ∧ page_bytes pid (diskManager s) = pdata pg) →
  ∃ s' E' pg', UnpinPage pid dirty s = Ok (true, s') ∧ pool_inv s' E' n ∧ coherent s' ∧
    cached s' pid f p pg' ∧ pinCount pg' = pinCount pg - 1 ∧
    isDirty pg' = isDirty pg || dirty ∧ pdata pg' = pdata pg ∧
    (f ∈ E' ↔ pinCount pg = 1) ∧ keeps_pages s s' ∧ keeps_pinned (λ i, i = pid) s s'.
Proof.
  intros I HC C HP HD.
  assert (HDec : pinCount (DecPinCount pg) = pinCount pg - 1).
  { unfold DecPinCount. by rewrite (proj2 (Z.ltb_lt _ _)). }
  destruct (UnpinPage_run s E n pid f p pg dirty I C HC)
    as (s' & E' & E1 & I1 & C1 & HC1 & HK & HPn & HE & _); [intros; apply HD; [done|lia]|].
  destruct (DecPinCount_fields pg) as (_ & _ & D3 & _).
  exists s', E', (unpinned dirty pg). repeat (split; [done|]). split; [|done].
  rewrite HE. split; [|right; lia]. intros [Hf|]; [|lia].
  destruct (pi_evictable _ _ _ (proj1 I) f Hf) as (pid' & p' & q & C' & HP').
  rewrite (cached_frame_inj _ _ _ _ _ _ _ _ _ _ (proj1 I) C' C) in C'.
  destruct (cached_fun _ _ _ _ _ _ _ _ C C') as (_ & _ & <-). lia.
Qed.

(** [UnpinPage] releases one pin and adds to the dirty flag; the frame
    becomes evictable exactly when the last pin is gone; the page and every
    other keep their content.  A caller that releases the last pin of a page it
    does not report dirty must have left it as it is on disk. *)
Theorem unpin_page_spec s E n pid f p pg dirty :
  pool_inv s E n → coherent s → cached s pid f p pg → 0 < pinCount pg →
  (isDirty pg || dirty = false → pinCount pg = 1 →
     page_present pid (diskManager s) ∧ page_bytes pid (diskManager s) = pdata pg) →
  ∃ s' E' pg', UnpinPage pid dirty s = Ok (true, s') ∧ pool_inv s' E' n ∧ coherent s' ∧
    cached s' pid f p pg' ∧ pinCount pg' = pinCount pg - 1 ∧
    isDirty pg' = isDirty pg || dirty ∧ pdata pg' = pdata pg ∧
    (f ∈ E' ↔ pinCount pg = 1) ∧ keeps_pages s s' ∧ keeps_pinned (λ i, i = pid) s s'.
Proof. apply unpin_page_facts. Qed.

(** C20: evicting a dirty page is two writes to the disk: first the part of the log that
    the file did not have, with which the file is the whole log stream, and then the page,
    as it was in memory. After them the page can be read back, and no other page lost
    content. *)
Theorem evict_write_ahead s E n k f p pg :
  pool_inv s E n → cached s k f p pg → pinCount pg = 0 → isDirty pg = true → f ∉ E →
  coherent s →
  ∃ s' bs, evict f s = Ok (tt, s') ∧ log_stream (get_log s) = content (log (diskManager s)) ++ bs ∧
    writes (diskManager s') = writes (diskManager s) ++ [LogWritten bs; PageWritten (k * PageSize) (pdata pg)] ∧
    content (log (diskManager s')) = log_stream (get_log s) ∧
    pageTable (bpm s') !! k = None ∧ page_has s' k (pdata pg) ∧ keeps_pages s s' ∧
    pool_inv s' E n.
Proof.
  intros I C HP HD HE HC.
  destruct (evict_run s E n k f p pg I C HP HE HC) as
    (s' & E1 & I1 & HC1 & U1 & HT & HK & HPn & HL & _).
  destruct (evict_writes s E n k f p pg s' I C HD HC E1) as (bs & HS & HW).
  exists s', bs. split; [done|]. split; [done|]. split; [done|]. split; [by apply HL|].
  split; [rewrite HT; apply lookup_delete_eq|]. split; [|done]. apply HK. left. by exists f, p, pg.
Qed.

Lemma flush_page_facts s E n pid f p pg :
  pool_inv s E n → coherent s → cached s pid f p pg → unlatched pg → 0 < pinCount pg →
  ∃ s' pg', FlushPage pid s = Ok (true, s') ∧ pool_inv s' E n ∧ coherent s' ∧
    cached s' pid f p pg' ∧ isDirty pg' = false ∧ pdata pg' = pdata pg ∧
    pinCount pg' = pinCount pg - 1 ∧
    page_present pid (diskManager s') ∧ page_bytes pid (diskManager s') = pdata pg ∧
    log (diskManager s') = log (diskManager s) ∧ keeps_pages s s'.
Proof.
  intros I HC C HU HP.
  assert (HE : f ∈ E → pinCount pg = 0).
  { intros Hf. destruct (pi_evictable _ _ _ (proj1 I) f Hf) as (pid' & p' & q & C' & HP').
    rewrite (cached_frame_inj _ _ _ _ _ _ _ _ _ _ (proj1 I) C' C) in C'.
    by destruct (cached_fun _ _ _ _ _ _ _ _ C C') as (_ & _ & <-). }
  destruct (FlushPage_run s E n pid f p pg I C HU HC HE)
    as (s' & dm & E1 & -> & I1 & HC1 & HK & HPn & H1 & H2 & H3 & _).
  eexists _, (flushed pg). repeat (split; [done|]).
  split; [exact (cached_upd_same s pid f p pg (flushed pg) C)|].
  split; [done|]. split; [apply pdata_flushed|]. split; [|done].
  change (pinCount (DecPinCount pg) = pinCount pg - 1).
  unfold DecPinCount. by rewrite (proj2 (Z.ltb_lt _ _)).
Qed.

(** [FlushPage] puts the page's content on disk, clears the dirty flag, and
    takes a pin away, although the caller did not hand one in; it writes
    nothing to the log file. *)
Theorem flush_page_spec s E n pid f p pg :
  pool_inv s E n → coherent s → cached s pid f p pg → unlatched pg → 0 < pinCount pg →
  ∃ s' pg', FlushPage pid s = Ok (true, s') ∧ pool_inv s' E n ∧ coherent s' ∧
    cached s' pid f p pg' ∧ isDirty pg' = false ∧ pdata pg' = pdata pg ∧
    pinCount pg' = pinCount pg - 1 ∧
    page_present pid (diskManager s') ∧ page_bytes pid (diskManager s') = pdata pg ∧
    log (diskManager s') = log (diskManager s) ∧ keeps_pages s s'.
Proof. apply flush_page_facts. Qed.

(** Two users hold a page; one of them has it flushed and later unpins it:
    the frame is evictable although the other user never unpinned. *)
Theorem flush_steals_a_pin s E n pid f p pg :
  pool_inv s E n → coherent s → cached s pid f p pg → unlatched pg → pinCount pg = 2 →
  ∃ s1 s2 E', FlushPage pid s = Ok (true, s1) ∧ UnpinPage pid false s1 = Ok (true, s2) ∧
    pool_inv s2 E' n ∧ f ∈ E'.
Proof.
  intros I HC C HU HP.
  destruct (flush_page_facts s E n pid f p pg I HC C HU) as
    (s1 & pg1 & E1 & I1 & HC1 & C1 & HD1 & HB1 & HP1 & HPr & HBy & _); [lia|].
  destruct (unpin_page_facts s1 E n pid f p pg1 false I1 HC1 C1) as
    (s2 & E' & pg2 & E2 & I2 & _ & _ & _ & _ & _ & HE & _); [lia| |].
  { intros _ _. by rewrite HB1. }
  exists s1, s2, E'. split; [done|]. split; [done|]. split; [done|]. apply HE. lia.
Qed.

(** Fetching a page past the end of the file returns nil and loses a frame:
    it is no longer free, not evictable and holds no page, so no later call can
    use it. *)
Theorem fetch_past_end_leaks_frame s E n pid f l :
  pool_inv s E n → freeList (bpm s) = f :: l → pageTable (bpm s) !! pid = None →
  page_in_range pid → file_size (db (diskManager s)) < pid * PageSize →
  ∃ s', FetchPage pid s = Ok (None, s') ∧ pool_inv s' E n ∧ freeList (bpm s') = l ∧
    frame_unused s' E f.
Proof.
  intros I HF HT HR HS.
  destruct (getFrameID_free s E n f l I HF) as (s1 & E1 & I1 & U1 & Hf & SP & HG & _).
  assert (HD : diskManager s1 = diskManager s) by (unfold get_log in HG; congruence).
  assert (ER : ReadPage pid (diskManager s1) = (inl ErrPastEndOfFile, diskManager s1)).
  { unfold ReadPage. rewrite page_offset_small by done. rewrite HD.
    by rewrite (proj2 (Z.ltb_lt _ _)). }
  assert (EL : freeList (bpm s1) = l).
  { unfold getFrameID in E1. rewrite (st_bind_run _ _ _ _ _ eq_refl) in E1.
    cbn beta in E1. rewrite HF in E1. by injection E1 as <-. }
  exists s1. split; [|done]. unfold FetchPage. step (fetch_cached_miss s pid HT). step E1.
  unfold fetch_load. step1. step1. rewrite ER. step1.
  unfold mret, st_mret. do 2 f_equal. by destruct s1.
Qed.

(** The three critical sections of [FetchPage] are what a sequential call
    runs, but two goroutines that fetch the same absent page can both miss and
    both load it: each gets an object of its own, pinned, for the same page id,
    and the page table knows only the second; what the first goroutine writes
    to its page is not seen by anyone who fetches the page later. *)
Theorem concurrent_fetch_duplicates s E n pid f1 f2 l :
  pool_inv s E n → freeList (bpm s) = f1 :: f2 :: l → pageTable (bpm s) !! pid = None →
  page_present pid (diskManager s) →
  ∃ s' p1 p2, rtc fetch_step (s, [FStart pid; FStart pid])
      (s', [FDone (Some p1); FDone (Some p2)]) ∧ p1 ≠ p2 ∧
    page_objs s' !! p1 = Some (New_page pid false (page_bytes pid (diskManager s))) ∧
    page_objs s' !! p2 = Some (New_page pid false (page_bytes pid (diskManager s))) ∧
    cached s' pid f2 p2 (New_page pid false (page_bytes pid (diskManager s))) ∧
    ∀ pid' f p pg, cached s' pid' f p pg → p ≠ p1.
Proof.
  intros I HF HT HP.
  destruct (getFrameID_free s E n f1 (f2 :: l) I HF) as (s1 & E1 & I1 & U1 & Hf1 & SP1 & HG1 & _).
  assert (HF1 : freeList (bpm s1) = f2 :: l).
  { unfold getFrameID in E1. rewrite (st_bind_run _ _ _ _ _ eq_refl) in E1.
    cbn beta in E1. rewrite HF in E1. by injection E1 as <-. }
  assert (HT1 : pageTable (bpm s1) !! pid = None) by (by rewrite (sp_table _ _ SP1)).
  destruct (getFrameID_free s1 E n f2 l I1 HF1) as (s2 & E2 & I2 & U2 & Hf2 & SP2 & HG2 & _).
  assert (HT2 : pageTable (bpm s2) !! pid = None) by (by rewrite (sp_table _ _ SP2)).
  assert (HD2 : diskManager s2 = diskManager s).
  { unfold get_log in *. congruence. }
  assert (HP2 : page_present pid (diskManager s2)) by (by rewrite HD2).
  destruct (fetch_load_run s2 E n pid f1 (proj1 I2) Hf1 HP2) as (d1 & E3 & SP3 & I3 & _).
  rewrite HD2 in E3. set (bs := page_bytes pid (diskManager s)) in *.
  set (s3 := set_disk d1 s2) in *. set (s4 := install pid f1 (New_page pid false bs) s3) in *.
  assert (HP4 : page_present pid (diskManager s4)).
  { apply (same_pages_disk _ _ pid SP3) in HP2. exact HP2. }
  assert (HB4 : page_bytes pid (diskManager s4) = bs).
  { change (page_bytes pid (diskManager s3) = bs).
    rewrite (proj2 (same_pages_disk _ _ pid SP3)). unfold bs. by rewrite HD2. }
  assert (HNf : f1 ≠ f2 ∧ f1 ∉ l).
  { pose proof (pi_free_NoDup _ _ _ (proj1 I)) as ND. rewrite HF in ND.
    apply NoDup_cons in ND as [Hf _]. split; [intros ->|intros ?]; apply Hf; [by left|by right]. }
  assert (HF2 : freeList (bpm s2) = l).
  { unfold getFrameID in E2. rewrite (st_bind_run _ _ _ _ _ eq_refl) in E2.
    cbn beta in E2. rewrite HF1 in E2. by injection E2 as <-. }
  assert (U3 : frame_unused s3 E f1).
  { destruct U1 as (_ & U1b & U1c). split; [|split; [done|]].
    - change (f1 ∉ freeList (bpm s2)). rewrite HF2. by destruct HNf.
    - intros pid'. change (pageTable (bpm s2) !! pid' ≠ Some f1). rewrite (sp_table _ _ SP2).
      apply U1c. }
  assert (HLen : Z.of_nat (length bs) = PageSize).
  { unfold bs, page_bytes. destruct HP as [Hr Hsz]. unfold page_in_range, file_size in *.
    rewrite length_region; unfold PageSize in *; lia. }
  assert (I4 : pool_inv s4 E n).
  { apply install_inv; try done. split; [done|exact (proj2 I2)]. }
  destruct (fetch_load_run s4 E n pid f2 (proj1 I4) Hf2 HP4) as (d2 & E4 & SP4 & I5 & _).
  rewrite HB4 in E4. set (s5 := install pid f2 (New_page pid false bs) (set_disk d2 s4)) in *.
  assert (Hfr : fresh_ptr s3 = fresh_ptr s).
  { change (fresh_ptr s2 = fresh_ptr s). by rewrite (sp_fresh _ _ SP2), (sp_fresh _ _ SP1). }
  assert (Hfr4 : fresh_ptr s4 = S (fresh_ptr s3)) by done.
  exists s5, (fresh_ptr s3), (fresh_ptr s4).
  split; [|split; [lia|split; [|split; [|split]]]].
  - eapply rtc_l; [by eapply (fetch_step_one 0); [done|
      cbn [fetch_advance]; step (fetch_cached_miss s pid HT)]|].
    eapply rtc_l; [by eapply (fetch_step_one 1); [done|
      cbn [fetch_advance]; step (fetch_cached_miss s pid HT)]|].
    eapply rtc_l; [by eapply (fetch_step_one 0); [done|cbn [fetch_advance]; step E1]|].
    eapply rtc_l; [by eapply (fetch_step_one 1); [done|cbn [fetch_advance]; step E2]|].
    eapply rtc_l; [by eapply (fetch_step_one 0); [done|cbn [fetch_advance]; step1]|].
    eapply rtc_l; [by eapply (fetch_step_one 1); [done|cbn [fetch_advance]; step1]|].
    eapply rtc_l; [by eapply (fetch_step_one 0); [done|cbn [fetch_advance]; step E3]|].
    eapply rtc_l; [by eapply (fetch_step_one 1); [done|cbn [fetch_advance]; step E4]|].
    apply rtc_refl.
  - change (<[fresh_ptr s4 := New_page pid false bs]> (page_objs s4) !! fresh_ptr s3 =
      Some (New_page pid false bs)).
    rewrite lookup_insert_ne by lia. apply lookup_insert_eq.
  - apply lookup_insert_eq.
  - unfold cached. cbn. split; [apply lookup_insert_eq|]. split; [lia|].
    split; [|apply lookup_insert_eq]. apply list_lookup_insert_eq. rewrite length_insert.
    change (pages (bpm s2)) with (pages (bpm s2)). rewrite (pi_pages _ _ _ (proj1 I2)). lia.
  - intros pid' f p pg (HT5 & H0 & HP5 & _). cbn in HT5, HP5.
    apply lookup_insert_Some in HT5 as [[<- <-]|[Hne HT5]].
    + rewrite list_lookup_insert_eq in HP5; [injection HP5 as <-; cbn; lia|].
      rewrite length_insert. rewrite (pi_pages _ _ _ (proj1 I2)). lia.
    + rewrite lookup_insert_ne in HT5 by done. rewrite (sp_table _ _ SP2) in HT5.
      assert (f ≠ f1) by (intros ->; rewrite (sp_table _ _ SP1) in HT5;
        by apply (proj2 (proj2 U1) pid'); rewrite (sp_table _ _ SP1)).
      assert (f ≠ f2) by (intros ->; by apply (proj2 (proj2 U2) pid'); rewrite (sp_table _ _ SP2)).
      rewrite !list_lookup_insert_ne in HP5 by lia.
      rewrite (sp_pages _ _ SP2), (sp_pages _ _ SP1) in HP5.
      rewrite (sp_table _ _ SP1) in HT5.
      destruct (pi_map _ _ _ (proj1 I) _ _ HT5) as (_ & p' & q & (_ & _ & HP' & HO') & _).
      assert (p' = p) as -> by congruence.
      rewrite Hfr. assert (p < fresh_ptr s)%nat; [|lia]. apply (pi_fresh _ _ _ (proj1 I)). eauto.
Qed.
End properties.

(** ** A new pool, and witnesses *)
Definition new_store {R : Type} `{Replacer R} (poolSize : Z) (d : DiskManagerImpl) : Store R :=
  MkStore d NewLogManager ∅ O (NewBufferPoolManager poolSize).

Lemma new_pool_inv {R : Type} `{Replacer R} n d :
  in_u32 n → log_at_end d →
  pool_inv (new_store (R := R) n d) ∅ (Z.to_nat n) ∧ coherent (new_store (R := R) n d).
Proof.
  intros Hn HL. unfold new_store, NewBufferPoolManager. split.
  - split; [|by apply r_new_rep]. split; cbn.
    + apply length_replicate.
    + apply (NoDup_fmap_2 _). apply NoDup_seq.
    + intros f (i & -> & Hi)%list_elem_of_fmap. apply elem_of_seq in Hi. lia.
    + intros pid f HT. by rewrite lookup_empty in HT.
    + set_solver.
    + intros p [? HT]. by rewrite lookup_empty in HT.
    + by apply NewLogManager_wf.
  - intros pid f p pg (HT & _). cbn in HT. by rewrite lookup_empty in HT.
Qed.

Definition example_store : Store ClockReplacer := new_store 2 example_disk.

Lemma example_store_inv : pool_inv example_store ∅ 2 ∧ coherent example_store.
Proof. apply (new_pool_inv 2 example_disk); [unfold in_u32; lia|done]. Qed.

Lemma example_page_has : page_has example_store 1 (zeros (Z.to_nat PageSize)).
Proof.
  right. split; [done|]. split.
  - vm_compute. repeat split; discriminate.
  - vm_compute. reflexivity.
Qed.

Lemma fetch_page_content_witness :
  ∃ p s' E' f pg, FetchPage 1 example_store = Ok (Some p, s') ∧ pool_inv s' E' 2 ∧
    cached s' 1 f p pg ∧ pdata pg = zeros (Z.to_nat PageSize).
Proof.
  destruct (fetch_page_content example_store ∅ 2 1 _ (proj1 example_store_inv)
    (proj2 example_store_inv) example_page_has) as (p & s' & E' & f & pg & H1 & H2 & _ & H3 & H4 & _).
  - intros f p pg (HT & _). discriminate HT.
  - intros _. left. discriminate.
  - exists p, s', E', f, pg. split; [exact H1|]. split; [exact H2|]. split; [exact H3|exact H4].
Defined.

Lemma new_page_zeroed_witness :
  ∃ p s', NewPage example_store = Ok (Some p, s') ∧ coherent s'.
Proof.
  destruct (new_page_zeroed example_store ∅ 2 (proj1 example_store_inv) (proj2 example_store_inv))
    as (p & s' & E' & f & H1 & _ & H2 & _).
  - split; [vm_compute; discriminate|]. intros pid f HT. discriminate HT.
  - left. discriminate.
  - unfold page_in_range. vm_compute. split; [discriminate|reflexivity].
  - exists p, s'. split; [exact H1|exact H2].
Defined.

(** A store with page 1 in frame 0, pinned [pins] times. *)
Definition pinned_page (dirty : bool) (pins : Z) : Page :=
  MkPage 1 pins dirty (zeros (Z.to_nat PageSize)) NewRWLatch.
Definition pinned_store (dirty : bool) (pins : Z) : Store ClockReplacer :=
  MkStore example_disk NewLogManager {[0%nat := pinned_page dirty pins]} 1%nat
    (MkBPM [Some 0%nat; None] (NewClockReplacer 2) [1] {[1 := 0]}).

Lemma pinned_store_cached dirty pins pid f p pg :
  cached (pinned_store dirty pins) pid f p pg → pid = 1 ∧ f = 0 ∧ p = 0%nat ∧ pg = pinned_page dirty pins.
Proof.
  intros (HT & _ & HP & HO). cbn in HT, HP, HO. apply lookup_singleton_Some in HT as [<- <-].
  injection HP as <-. apply lookup_singleton_Some in HO as [_ <-]. done.
Qed.

Lemma pinned_store_page dirty pins :
  cached (pinned_store dirty pins) 1 0 0%nat (pinned_page dirty pins).
Proof. split; [apply lookup_singleton_eq|]. split; [lia|]. split; [done|apply lookup_singleton_eq]. Qed.

Lemma pinned_store_inv dirty pins :
  0 ≤ pins → pool_inv (pinned_store dirty pins) ∅ 2 ∧ coherent (pinned_store dirty pins).
Proof.
  intros Hp. split; [split; [split|]|].
  - done.
  - apply NoDup_singleton.
  - intros f Hf. apply list_elem_of_singleton in Hf as ->. lia.
  - intros pid f HT. cbn in HT. apply lookup_singleton_Some in HT as [<- <-].
    split; [intros Hf; apply list_elem_of_singleton in Hf; discriminate|].
    exists 0%nat, (pinned_page dirty pins). split; [apply pinned_store_page|]. by split.
  - set_solver.
  - intros p [pg HO]. cbn in HO. apply lookup_singleton_Some in HO as [<- _]. cbn. lia.
  - by apply NewLogManager_wf.
  - exact (clock_new_tracks 2 ltac:(unfold in_u32; lia)).
  - intros pid f p pg C. apply pinned_store_cached in C as (-> & _ & _ & ->).
    split; [unfold page_in_range; lia|]. intros _ _. split; [|vm_compute; reflexivity].
    vm_compute. repeat split; discriminate.
Qed.

Lemma unpin_page_spec_witness :
  ∃ s' (E' : gset Z) pg', UnpinPage 1 false (pinned_store false 1) = Ok (true, s') ∧
    cached s' 1 0 0%nat pg' ∧ pinCount pg' = 0 ∧ 0 ∈ E'.
Proof.
  destruct (pinned_store_inv false 1 ltac:(lia)) as [I C].
  destruct (unpin_page_spec (pinned_store false 1) ∅ 2 1 0 0%nat (pinned_page false 1) false I C
    (pinned_store_page false 1)) as (s' & E' & pg' & H1 & _ & _ & H2 & H3 & _ & _ & H4 & _).
  - reflexivity.
  - intros _ _. split; [|vm_compute; reflexivity]. vm_compute. repeat split; discriminate.
  - exists s', E', pg'. split; [exact H1|]. split; [exact H2|]. split; [exact H3|]. by apply H4.
Defined.

Lemma evict_write_ahead_witness :
  ∃ s', evict 0 (pinned_store true 0) = Ok (tt, s') ∧ content (log (diskManager s')) = [] ∧
    writes (diskManager s') = [LogWritten []; PageWritten 4096 (zeros (Z.to_nat PageSize))] ∧
    page_has s' 1 (zeros (Z.to_nat PageSize)).
Proof.
  destruct (pinned_store_inv true 0 ltac:(lia)) as [I C].
  destruct (evict_write_ahead (pinned_store true 0) ∅ 2 1 0 0%nat (pinned_page true 0) I
    (pinned_store_page true 0) eq_refl eq_refl ltac:(set_solver) C) as (s' & bs & H1 & HS & HW & H2 & _ & H3 & _).
  exists s'. split; [exact H1|]. split; [exact H2|]. assert (bs = []) as -> by (symmetry; exact HS).
  split; [exact HW|exact H3].
Defined.

Lemma flush_page_spec_witness :
  ∃ s' pg', FlushPage 1 (pinned_store true 1) = Ok (true, s') ∧ cached s' 1 0 0%nat pg' ∧
    isDirty pg' = false ∧ pinCount pg' = 0.
Proof.
  destruct (pinned_store_inv true 1 ltac:(lia)) as [I C].
  destruct (flush_page_spec (pinned_store true 1) ∅ 2 1 0 0%nat (pinned_page true 1) I C
    (pinned_store_page true 1) eq_refl eq_refl) as (s' & pg' & H1 & _ & _ & H2 & H3 & _ & H4 & _).
  exists s', pg'. split; [exact H1|]. split; [exact H2|]. split; [exact H3|exact H4].
Defined.

Lemma flush_steals_a_pin_witness :
  ∃ s1 s2 E', FlushPage 1 (pinned_store true 2) = Ok (true, s1) ∧
    UnpinPage 1 false s1 = Ok (true, s2) ∧ pool_inv s2 E' 2 ∧ 0 ∈ E'.
Proof.
  destruct (pinned_store_inv true 2 ltac:(lia)) as [I C].
  apply (flush_steals_a_pin (pinned_store true 2) ∅ 2 1 0 0%nat (pinned_page true 2) I C
    (pinned_store_page true 2) eq_refl eq_refl).
Defined.

Lemma fetch_past_end_leaks_frame_witness :
  ∃ s', FetchPage 5 example_store = Ok (None, s') ∧ freeList (bpm s') = [1].
Proof.
  destruct (fetch_past_end_leaks_frame example_store ∅ 2 5 0 [1] (proj1 example_store_inv))
    as (s' & H1 & _ & H2 & _).
  - reflexivity.
  - reflexivity.
  - unfold page_in_range. lia.
  - vm_compute. reflexivity.
  - exists s'. split; [exact H1|exact H2].
Defined.

Lemma concurrent_fetch_duplicates_witness :
  ∃ s' p1 p2, rtc fetch_step (example_store, [FStart 1; FStart 1])
    (s', [FDone (Some p1); FDone (Some p2)]) ∧ p1 ≠ p2.
Proof.
  destruct (concurrent_fetch_duplicates example_store ∅ 2 1 0 1 [] (proj1 example_store_inv))
    as (s' & p1 & p2 & H1 & H2 & _).
  - reflexivity.
  - reflexivity.
  - vm_compute. repeat split; discriminate.
  - exists s', p1, p2. split; [exact H1|exact H2].
Defined.
