(* ===== verification/PoolView.v ===== *)
(** * What users of the buffer pool see ([storage/buffer/buffer_pool_manager.go])

    The contract of the pool towards the code above it: every page has contents,
    some pages are pinned, and the contents of a page somebody fetched can be
    changed through the page object.  A [View] is that abstract state; [shows]
    relates it to the pool, its frames, the page objects, the replacer and the
    disk.  The lemmas are one step of the pool against one step of the view:
    what the table heap, the transaction manager and the recovery use. *)

From S2P Require Import Prelude Bytes Disk LogManager Replacer Page BufferPool.

(** [vdirty] are the pages changed since they were fetched, which their user has
    to report dirty when he unpins them; [vlatches] are the latches somebody
    holds. *)
Record View : Type := MkView {
  vpages : gmap Z (list byte);
  vpins : gmap Z Z;
  vdirty : gset Z;
  vlatches : gmap Z Latch
}.

Definition vpin_count (pid : Z) (v : View) : Z := default 0 (vpins v !! pid).
Definition vpin (pid : Z) (v : View) : View :=
  MkView (vpages v) (<[pid := vpin_count pid v + 1]> (vpins v)) (vdirty v) (vlatches v).
Definition vunpin (pid : Z) (v : View) : View :=
  MkView (vpages v)
    (if decide (vpin_count pid v ≤ 1) then base.delete pid (vpins v)
     else <[pid := vpin_count pid v - 1]> (vpins v)) (vdirty v ∖ {[pid]}) (vlatches v).
Definition vwrite (pid : Z) (bs : list byte) (v : View) : View :=
  MkView (<[pid := bs]> (vpages v)) (vpins v) ({[pid]} ∪ vdirty v) (vlatches v).
(** A new page, pinned by its creator. *)
Definition vnew (pid : Z) (v : View) : View :=
  MkView (<[pid := zeros (Z.to_nat PageSize)]> (vpages v)) (<[pid := 1]> (vpins v))
    ({[pid]} ∪ vdirty v) (vlatches v).
(** A latch taken, and the last one given back. *)
Definition vlatch_of (pid : Z) (v : View) : Latch := default NewRWLatch (vlatches v !! pid).
Definition vlatch (pid : Z) (l : Latch) (v : View) : View :=
  MkView (vpages v) (vpins v) (vdirty v) (<[pid := l]> (vlatches v)).
Definition vunlatch (pid : Z) (v : View) : View :=
  MkView (vpages v) (vpins v) (vdirty v) (base.delete pid (vlatches v)).

(** While a page may leave the pool, only pinned pages are latched. *)
Definition latches_pinned (v : View) : Prop :=
  ∀ pid, is_Some (vlatches v !! pid) → is_Some (vpins v !! pid).

Section view.
Context {R : Type} `{Replacer R}.
Implicit Types (s : Store R) (v : View).

(** Page [pid] is the object [p] of the pool. *)
Definition held s (pid : Z) (p : ptr) : Prop := ∃ f pg, cached s pid f p pg.

Definition shows_in s (E : gset Z) (n : nat) : Prop :=
  pool_inv s E n ∧ ids_bound s ∧ frames_ok s E n None.

Record shows s (n : nat) v : Prop := {
  sh_pool : ∃ E, shows_in s E n;
  sh_cached : ∀ pid f p pg, cached s pid f p pg →
    page_in_range pid ∧ pinCount pg = vpin_count pid v ∧ rwlatch_ pg = vlatch_of pid v ∧
    (isDirty pg = false → pid ∉ vdirty v →
     page_present pid (diskManager s) ∧ page_bytes pid (diskManager s) = pdata pg);
  sh_pins : ∀ pid k, vpins v !! pid = Some k → 0 < k ∧ ∃ p, held s pid p;
  sh_pages : ∀ pid bs, vpages v !! pid = Some bs → page_has s pid bs;
  sh_dirty : ∀ pid, pid ∈ vdirty v → is_Some (vpins v !! pid)
}.

(** The objects of pinned pages stay theirs. *)
Definition keeps_held s s' v : Prop :=
  ∀ pid p, is_Some (vpins v !! pid) → held s pid p → held s' pid p.

Lemma keeps_held_all s s' v : (∀ i q, held s i q → held s' i q) → keeps_held s s' v.
Proof. intros HK i q _. apply HK. Qed.
Lemma keeps_held_trans s1 s2 s3 v : keeps_held s1 s2 v → keeps_held s2 s3 v → keeps_held s1 s3 v.
Proof. intros H1 H2 i q Hi Hh. by apply H2, H1. Qed.
Lemma keeps_held_fewer s s' v v' : dom (vpins v) ⊆ dom (vpins v') → keeps_held s s' v' → keeps_held s s' v.
Proof. intros HD HK i q Hi. apply HK. apply elem_of_dom, HD. by apply elem_of_dom. Qed.

Lemma shows_coherent s n v : shows s n v → coherent s.
Proof.
  intros S pid f p pg C. destruct (sh_cached _ _ _ S _ _ _ _ C) as (HR & HP & _ & HC).
  split; [done|]. intros Hd Hz. apply HC; [done|]. intros Hin.
  destruct (sh_dirty _ _ _ S _ Hin) as [k Hk]. destruct (sh_pins _ _ _ S _ _ Hk) as [Hk0 _].
  unfold vpin_count in HP. rewrite Hk in HP. cbn in HP. lia.
Qed.

Lemma held_fun s pid p p' : held s pid p → held s pid p' → p = p'.
Proof. intros (f & pg & C) (f' & pg' & C'). by destruct (cached_fun _ _ _ _ _ _ _ _ C C') as (_ & -> & _). Qed.

(** A held page's object has the page's contents. *)
Lemma held_object s n v pid p bs :
  shows s n v → held s pid p → vpages v !! pid = Some bs →
  ∃ f pg, cached s pid f p pg ∧ page_objs s !! p = Some pg ∧ id pg = pid ∧ pdata pg = bs ∧
    rwlatch_ pg = vlatch_of pid v ∧ Z.of_nat (length bs) = PageSize.
Proof.
  intros S (f & pg & C) HB. destruct (sh_pool _ _ _ S) as (E & [I _] & _).
  pose proof (sh_pages _ _ _ S _ _ HB) as HH.
  assert (HB' : page_has s pid (pdata pg)) by (left; by exists f, p, pg).
  pose proof (page_has_fun _ _ _ _ HB' HH) as HD. destruct (sh_cached _ _ _ S _ _ _ _ C) as (_ & _ & HU & _).
  pose proof C as (HT & _ & _ & HO).
  destruct (pi_map _ _ _ I _ _ HT) as (_ & p0 & pg0 & C0 & Hid & HL & _).
  destruct (cached_fun _ _ _ _ _ _ _ _ C C0) as (_ & <- & <-).
  exists f, pg. repeat (split; [done|]). by rewrite <- HD.
Qed.

(** Fewer pinned pages than frames: one can be had. *)
Lemma frame_available s E n v :
  shows_in s E n → (∀ pid f p pg, cached s pid f p pg → pinCount pg = vpin_count pid v) →
  (size (vpins v) < n)%nat → freeList (bpm s) ≠ [] ∨ E ≠ ∅.
Proof.
  intros ([I HR] & _ & HA) HP HS. destruct (decide (freeList (bpm s) = [])) as [HF|]; [|by left].
  destruct (decide (E = ∅)) as [HE|]; [|by right]. exfalso.
  set (g := λ pid, default (-1) (pageTable (bpm s) !! pid)).
  assert (HL : seqZ 0 (Z.of_nat n) ⊆+ (g <$> (map_to_list (vpins v)).*1)).
  { apply NoDup_submseteq; [apply NoDup_seqZ|]. intros f Hf%elem_of_seqZ.
    destruct (HA f) as [Hin|(pid & p & pg & C & Hev)]; [lia|done|rewrite HF in Hin; set_solver|].
    apply list_elem_of_fmap. exists pid. split.
    - destruct C as (HT & _). unfold g. by rewrite HT.
    - pose proof (HP _ _ _ _ C) as Hc. unfold vpin_count in Hc.
      destruct (vpins v !! pid) as [k|] eqn:Hk.
      + apply list_elem_of_fmap. exists (pid, k). split; [done|]. by apply elem_of_map_to_list.
      + cbn in Hc. apply Hev in Hc. set_solver. }
  apply submseteq_length in HL. rewrite length_seqZ, length_fmap, length_fmap in HL.
  rewrite length_map_to_list in HL. lia.
Qed.

(** ** One step of the pool, one step of the view *)
Lemma vpin_count_pin pid pid' v :
  vpin_count pid' (vpin pid v) = if decide (pid' = pid) then vpin_count pid v + 1 else vpin_count pid' v.
Proof.
  unfold vpin_count, vpin. cbn. destruct (decide (pid' = pid)) as [->|Hne].
  - by rewrite lookup_insert_eq.
  - by rewrite lookup_insert_ne.
Qed.

Lemma vpin_count_unpin pid pid' v :
  0 < vpin_count pid v →
  vpin_count pid' (vunpin pid v) =
    if decide (pid' = pid) then vpin_count pid v - 1 else vpin_count pid' v.
Proof.
  intros HP. unfold vunpin. unfold vpin_count at 1. cbn.
  destruct (decide (pid' = pid)) as [->|Hne]; destruct (decide (vpin_count pid v ≤ 1)).
  - rewrite lookup_delete_eq. cbn. lia.
  - by rewrite lookup_insert_eq.
  - by rewrite lookup_delete_ne.
  - by rewrite lookup_insert_ne.
Qed.

Lemma vpin_count_new pid pid' v :
  vpin_count pid' (vnew pid v) = if decide (pid' = pid) then 1 else vpin_count pid' v.
Proof.
  unfold vpin_count, vnew. cbn. destruct (decide (pid' = pid)) as [->|Hne].
  - by rewrite lookup_insert_eq.
  - by rewrite lookup_insert_ne.
Qed.

Lemma pinned_count s n v pid : shows s n v → is_Some (vpins v !! pid) → 0 < vpin_count pid v.
Proof.
  intros S [k Hk]. destruct (sh_pins _ _ _ S _ _ Hk) as [Hk0 _]. unfold vpin_count. by rewrite Hk.
Qed.

Lemma unpinned_count v pid : vpins v !! pid = None → vpin_count pid v = 0.
Proof. intros Hk. unfold vpin_count. by rewrite Hk. Qed.

Lemma unlatched_unpinned v pid :
  latches_pinned v → vpins v !! pid = None → vlatch_of pid v = NewRWLatch.
Proof.
  intros HL HN. unfold vlatch_of. destruct (vlatches v !! pid) eqn:E; [|done].
  destruct (HL pid) as [k Hk]; [by rewrite E|congruence].
Qed.

(** What holds of the objects of the other pages after a step. *)
Lemma sh_cached_other s s' n v pid pid' f p pg :
  shows s n v → no_new (λ i, i = pid) s s' → pid' ≠ pid → cached s' pid' f p pg →
  page_in_range pid' ∧ pinCount pg = vpin_count pid' v ∧ rwlatch_ pg = vlatch_of pid' v ∧
    (isDirty pg = false → pid' ∉ vdirty v →
     page_present pid' (diskManager s') ∧ page_bytes pid' (diskManager s') = pdata pg).
Proof.
  intros S HN Hne C. destruct (HN pid' f p pg Hne C) as [C0 HD].
  destruct (sh_cached _ _ _ S _ _ _ _ C0) as (HR & HP & HU & HC).
  repeat (split; [done|]). intros Hd Hin. destruct (HC Hd Hin) as [HPr HB].
  destruct (HD HPr) as [HPr' HB']. split; [done|congruence].
Qed.

Lemma held_pinned s s' n v (X : Z → Prop) :
  shows s n v → keeps_pinned X s s' →
  ∀ pid p, ¬ X pid → is_Some (vpins v !! pid) → held s pid p → held s' pid p.
Proof.
  intros S HK pid p HX HI (f & pg & C). exists f, pg. apply HK; [done|done|].
  destruct (sh_cached _ _ _ S _ _ _ _ C) as (_ & -> & _). by eapply pinned_count.
Qed.

Lemma keeps_pinned_weaken (X : Z → Prop) s s' : keeps_pinned (λ _, False) s s' → keeps_pinned X s s'.
Proof. intros HK pid f p pg _ C HP. apply HK; [by intros []|done|done]. Qed.

(** A step that touches one page of the pool: what is left to show. *)
Lemma shows_page s s' n v v' pid f p pg E' :
  shows s n v → shows_in s' E' n →
  no_new (λ i, i = pid) s s' → keeps_pinned (λ i, i = pid) s s' →
  cached s' pid f p pg → page_in_range pid → pinCount pg = vpin_count pid v' → rwlatch_ pg = vlatch_of pid v' →
  (isDirty pg = false → pid ∉ vdirty v' →
     page_present pid (diskManager s') ∧ page_bytes pid (diskManager s') = pdata pg) →
  (∀ k, vpins v' !! pid = Some k → 0 < k) →
  (pid ∈ vdirty v' → is_Some (vpins v' !! pid)) →
  (∀ i, i ≠ pid → vpins v' !! i = vpins v !! i ∧ (i ∈ vdirty v' ↔ i ∈ vdirty v) ∧
     vlatch_of i v' = vlatch_of i v) →
  (∀ i bs, vpages v' !! i = Some bs → page_has s' i bs) →
  shows s' n v'.
Proof.
  intros S I HN HK C HR HP HU HC Hk Hd Ho HB. split; [by exists E'| | |done|].
  - intros i f' p' q C'. destruct (decide (i = pid)) as [->|Hne].
    + by destruct (cached_fun _ _ _ _ _ _ _ _ C C') as (_ & _ & <-).
    + destruct (sh_cached_other s s' n v pid i f' p' q S HN Hne C') as (H1 & H2 & H3 & H4).
      destruct (Ho i Hne) as (H5 & H6 & H7). unfold vpin_count. rewrite H5, H7.
      repeat (split; [done|]). intros Hq Hin. apply H4; [done|]. by rewrite <- H6.
  - intros i k Hi. destruct (decide (i = pid)) as [->|Hne]; [split; [by apply Hk|by exists p, f, pg]|].
    rewrite (proj1 (Ho i Hne)) in Hi. destruct (sh_pins _ _ _ S _ _ Hi) as (Hk0 & p' & Hp').
    split; [done|]. exists p'. by eapply held_pinned.
  - intros i Hi. destruct (decide (i = pid)) as [->|Hne]; [by apply Hd|].
    destruct (Ho i Hne) as (-> & H6 & _). apply (sh_dirty _ _ _ S). by apply H6.
Qed.

(** The objects of pinned pages after a step on page [pid]. *)
Lemma keeps_held_page s s' n v pid p :
  shows s n v → keeps_pinned (λ i, i = pid) s s' →
  (is_Some (vpins v !! pid) → held s pid p → held s' pid p) →
  (∀ p', held s pid p' → p' = p) → keeps_held s s' v.
Proof.
  intros S HK Hp Hu i p' Hs Hh. destruct (decide (i = pid)) as [->|Hne].
  - rewrite (Hu p' Hh) in Hh |- *. by apply Hp.
  - by eapply held_pinned.
Qed.

Lemma shows_fetch s n v pid bs :
  shows s n v → vpages v !! pid = Some bs →
  is_Some (vpins v !! pid) ∨ (size (vpins v) < n)%nat → vpin_count pid v < 2 ^ 32 - 1 →
  latches_pinned v →
  ∃ p s', FetchPage pid s = Ok (Some p, s') ∧ shows s' n (vpin pid v) ∧ held s' pid p ∧
    keeps_held s s' v ∧ log_same s s' ∧
    nextPageID (diskManager s') = nextPageID (diskManager s).
Proof.
  intros S HB HF HM HLt. destruct (sh_pool _ _ _ S) as (E & I & HI & HA).
  pose proof (sh_pages _ _ _ S _ _ HB) as HH. pose proof (shows_coherent _ _ _ S) as HC.
  assert (Hk : ∀ k, vpins (vpin pid v) !! pid = Some k → 0 < k).
  { cbn. rewrite lookup_insert_eq. intros k Hk. injection Hk as <-. unfold vpin_count.
    destruct (vpins v !! pid) as [k|] eqn:E0; [|cbn; lia].
    destruct (sh_pins _ _ _ S _ _ E0). cbn. lia. }
  assert (Hd : pid ∈ vdirty (vpin pid v) → is_Some (vpins (vpin pid v) !! pid))
    by (intros _; cbn; by rewrite lookup_insert_eq).
  assert (Ho : ∀ i, i ≠ pid → vpins (vpin pid v) !! i = vpins v !! i ∧
    (i ∈ vdirty (vpin pid v) ↔ i ∈ vdirty v) ∧ vlatch_of i (vpin pid v) = vlatch_of i v) by (intros; cbn; by rewrite lookup_insert_ne).
  assert (Hc : vpin_count pid (vpin pid v) = vpin_count pid v + 1)
    by (rewrite vpin_count_pin; by case_decide).
  destruct (pageTable (bpm s) !! pid) as [f|] eqn:HT.
  - destruct (pi_map _ _ _ (proj1 I) _ _ HT) as (_ & p & pg & C & _ & _ & HP0).
    destruct (sh_cached _ _ _ S _ _ _ _ C) as (HR & HP & HU & HCl).
    assert (HM' : pinCount pg < 2 ^ 32 - 1) by lia.
    destruct (FetchPage_hit s E n pid f p pg I C HM')
      as (s' & E1 & I1 & C1 & HK & HPn & HC1 & HA1 & HN & HG & HI1).
    assert (HD : diskManager s' = diskManager s) by (unfold get_log in HG; congruence).
    assert (Hh : held s' pid p) by (by exists f, (IncPinCount pg)).
    exists p, s'. split; [done|]. split; [|split; [done|]].
    + eapply (shows_page s s' n v _ pid f p); try done; [by split; [|split; [apply HI1|apply HA1]]| | |].
      * cbn [pinCount IncPinCount set_pinCount]. rewrite u32_small by (unfold in_u32; lia). lia.
      * rewrite HD. exact HCl.
      * intros i bs' HB'. by apply HK, (sh_pages _ _ _ S).
    + split; [|split; [by apply log_same_eq|by rewrite HD]].
      eapply (keeps_held_page s s' n v pid p); try done.
      intros p' Hp'. eapply held_fun; [exact Hp'|by exists f, pg].
  - assert (HN0 : vpins v !! pid = None).
    { destruct (vpins v !! pid) as [k|] eqn:Hk0; [|done].
      destruct (sh_pins _ _ _ S _ _ Hk0) as (_ & p & f & pg & HT' & _). congruence. }
    assert (HFr : freeList (bpm s) ≠ [] ∨ E ≠ ∅).
    { eapply (frame_available s E n v); [done|intros; by eapply (sh_cached _ _ _ S)|].
      destruct HF as [[k Hk0]|]; [congruence|done]. }
    destruct (FetchPage_miss s E n pid bs I HC HT HH HFr) as
      (p & s' & E' & f & E1 & I1 & C1 & HK & HPn & HC1 & HL & HI1 & HNx & HA1 & HN & HPr & HBy).
    assert (Hh : held s' pid p) by (by exists f, (New_page pid false bs)).
    exists p, s'. split; [done|]. split; [|split; [done|split; [|done]]].
    + eapply (shows_page s s' n v _ pid f p (New_page pid false bs)); try done;
        [by split; [|split; [apply HI1|apply HA1]]|by apply keeps_pinned_weaken|apply HPr| | |].
      * by rewrite Hc, unpinned_count.
      * symmetry. exact (unlatched_unpinned v pid HLt HN0).
      * intros i bs' HB'. by apply HK, (sh_pages _ _ _ S).
    + eapply (keeps_held_page s s' n v pid p); try done; [by apply keeps_pinned_weaken|].
      intros p' (f' & pg' & HT' & _). congruence.
Qed.

Lemma unused_page s n v pid :
  shows s n v → nextPageID (diskManager s) ≤ pid →
  vpages v !! pid = None ∧ vpins v !! pid = None ∧ ∀ p, ¬ held s pid p.
Proof.
  intros S HN. destruct (sh_pool _ _ _ S) as (E & _ & [HF HB] & _).
  assert (HNo : ∀ p, ¬ held s pid p).
  { intros p (f & pg & HT & _). apply HB in HT. lia. }
  split; [|split; [|done]].
  - destruct (vpages v !! pid) as [bs|] eqn:Hp; [|done].
    destruct (sh_pages _ _ _ S _ _ Hp) as [(f & p & pg & C & _)|(_ & [_ HPr] & _)].
    + exfalso. apply (HNo p). by exists f, pg.
    + assert (pid + 1 ≤ file_size (db (diskManager s)) / PageSize)
        by (apply Z.div_le_lower_bound; unfold PageSize in *; lia). lia.
  - destruct (vpins v !! pid) as [k|] eqn:Hk; [|done].
    destruct (sh_pins _ _ _ S _ _ Hk) as (_ & p & Hp). by apply HNo in Hp.
Qed.

Lemma shows_new s n v :
  shows s n v → (size (vpins v) < n)%nat → latches_pinned v →
  let pid := nextPageID (diskManager s) in
  page_in_range pid →
  ∃ p s', NewPage s = Ok (Some p, s') ∧ shows s' n (vnew pid v) ∧ held s' pid p ∧
    keeps_held s s' v ∧ log_same s s' ∧ nextPageID (diskManager s') = pid + 1 ∧
    page_objs s' !! p = Some (NewEmpty pid).
Proof.
  intros S HF HLt pid HR. destruct (sh_pool _ _ _ S) as (E & I & HI & HA).
  pose proof (shows_coherent _ _ _ S) as HC.
  destruct (unused_page s n v pid S ltac:(lia)) as (HP0 & HN0 & HNo).
  assert (HFr : freeList (bpm s) ≠ [] ∨ E ≠ ∅)
    by (eapply (frame_available s E n v); [done|intros; by eapply (sh_cached _ _ _ S)|done]).
  destruct (NewPage_run s E n I HC HI HFr HR) as
    (p & s' & E' & f & E1 & I1 & C1 & HK & HPn & HC1 & HI1 & HNx & HL & HA1 & HN). fold pid in C1, HNx, HN.
  assert (Hh : held s' pid p) by (by exists f, (NewEmpty pid)).
  exists p, s'. split; [done|]. split; [|split; [done|split; [|split; [done|split; [done|apply C1]]]]].
  - eapply (shows_page s s' n v _ pid f p (NewEmpty pid)); try done;
      [by split; [|split; [|apply HA1]]|by apply keeps_pinned_weaken| | | | | | |].
    + unfold vpin_count. cbn. by rewrite lookup_insert_eq.
    + symmetry. exact (unlatched_unpinned v pid HLt HN0).
    + intros _ Hin. exfalso. apply Hin. cbn. set_solver.
    + intros k. cbn. rewrite lookup_insert_eq. intros [= <-]. lia.
    + intros _. cbn. by rewrite lookup_insert_eq.
    + intros i Hne. cbn. rewrite lookup_insert_ne by done. set_solver.
    + intros i bs HB. cbn in HB. apply lookup_insert_Some in HB as [[<- <-]|[_ HB]].
      * left. by exists f, p, (NewEmpty pid).
      * by apply HK, (sh_pages _ _ _ S).
  - eapply (keeps_held_page s s' n v pid p); try done; [by apply keeps_pinned_weaken|].
    intros p' Hp'. by apply HNo in Hp'.
Qed.

(** A pin given back, with the pages in [D] changed and not yet given back afterwards. *)
Definition vpins_back (pid : Z) (D : gset Z) (v : View) : View :=
  MkView (vpages v)
    (if decide (vpin_count pid v ≤ 1) then base.delete pid (vpins v)
     else <[pid := vpin_count pid v - 1]> (vpins v)) D (vlatches v).

Lemma vpins_back_page pid D v i : i ≠ pid → (i ∈ D ↔ i ∈ vdirty v) →
  vpins (vpins_back pid D v) !! i = vpins v !! i ∧ (i ∈ vdirty (vpins_back pid D v) ↔ i ∈ vdirty v) ∧
  vlatch_of i (vpins_back pid D v) = vlatch_of i v.
Proof.
  intros Hne HD. cbn. split; [|split; [done|done]]. destruct (decide (vpin_count pid v ≤ 1)).
  - by rewrite lookup_delete_ne.
  - by rewrite lookup_insert_ne.
Qed.

(** Who changed a page reports it dirty, or it stays among the changed ones, with another
    pin. *)
Lemma shows_unpin_as s n v pid dirty D :
  shows s n v → is_Some (vpins v !! pid) → (∀ i, i ≠ pid → i ∈ D ↔ i ∈ vdirty v) →
  (pid ∈ D → 1 < vpin_count pid v) → (pid ∉ D → dirty = true ∨ pid ∉ vdirty v) →
  ∃ s', UnpinPage pid dirty s = Ok (true, s') ∧ shows s' n (vpins_back pid D v) ∧
    keeps_held s s' v ∧ log_same s s' ∧ diskManager s' = diskManager s ∧
    pageTable (bpm s') = pageTable (bpm s).
Proof.
  intros S HS HDo HDk HDn. destruct (sh_pool _ _ _ S) as (E & I & HI & HA).
  pose proof (shows_coherent _ _ _ S) as HC. pose proof (pinned_count _ _ _ _ S HS) as HPos.
  destruct HS as [k Hk]. destruct (sh_pins _ _ _ S _ _ Hk) as (Hk0 & p & f & pg & C).
  destruct (sh_cached _ _ _ S _ _ _ _ C) as (HR & HP & HU & HCl).
  assert (HDec : pinCount (DecPinCount pg) = pinCount pg - 1).
  { unfold DecPinCount. rewrite (proj2 (Z.ltb_lt _ _)) by lia. done. }
  destruct (DecPinCount_fields pg) as (D1 & D2 & D3 & D4).
  assert (HCl' : isDirty pg || dirty = false → pid ∉ D →
    page_present pid (diskManager s) ∧ page_bytes pid (diskManager s) = pdata pg).
  { intros Hd Hin. apply orb_false_iff in Hd as [Hd1 Hd2]. apply HCl; [done|]. destruct (HDn Hin); congruence. }
  destruct (UnpinPage_run s E n pid f p pg dirty I C HC) as
    (s' & E' & E1 & I1 & C1 & HC1 & HK & HPn & HE & HF & HDm & HG & HT & HA1 & HN).
  { intros Hd Hz. apply HCl'; [done|]. intros Hin. specialize (HDk Hin). lia. }
  exists s'. split; [done|]. split; [|split; [|split; [by apply log_same_eq|done]]].
  - eapply (shows_page s s' n v _ pid f p (unpinned dirty pg)); try done.
    + split; [done|]. split; [|by apply HA1]. destruct HI as [HI1 HI2].
      split; [by rewrite HDm|]. intros i g. rewrite HT, HDm. apply HI2.
    + change (vpin_count pid (vpins_back pid D v)) with (vpin_count pid (vunpin pid v)).
      rewrite vpin_count_unpin by done. case_decide; [|done]. change (pinCount (DecPinCount pg) = vpin_count pid v - 1). lia.
    + change (rwlatch_ (DecPinCount pg) = vlatch_of pid v). by rewrite D4.
    + intros Hd Hin. rewrite HDm.
      change (pdata (unpinned dirty pg)) with (pdata (DecPinCount pg)). rewrite D3. by apply HCl'.
    + intros k'. cbn. destruct (decide (vpin_count pid v ≤ 1)); [by rewrite lookup_delete_eq|].
      rewrite lookup_insert_eq. intros [= <-]. lia.
    + intros Hin. cbn. specialize (HDk Hin). rewrite decide_False by lia. by rewrite lookup_insert_eq.
    + intros i Hne. apply vpins_back_page; [done|by apply HDo].
    + intros i bs HB. by apply HK, (sh_pages _ _ _ S).
  - eapply (keeps_held_page s s' n v pid p); try done; [by exists f, (unpinned dirty pg)|].
    intros p' Hp'. eapply held_fun; [exact Hp'|by exists f, pg].
Qed.

Lemma shows_unpin s n v pid dirty :
  shows s n v → is_Some (vpins v !! pid) → dirty = true ∨ pid ∉ vdirty v →
  ∃ s', UnpinPage pid dirty s = Ok (true, s') ∧ shows s' n (vunpin pid v) ∧
    keeps_held s s' v ∧ log_same s s' ∧ diskManager s' = diskManager s ∧
    pageTable (bpm s') = pageTable (bpm s).
Proof. intros S HS HD. apply (shows_unpin_as s n v pid dirty (vdirty v ∖ {[pid]})); [done|done|set_solver..]. Qed.

(** Changing the object of a page, by a step that keeps pins. *)
Lemma shows_upd s n v v' pid f p pg pg' :
  shows s n v → cached s pid f p pg →
  id pg' = id pg → pinCount pg' = pinCount pg → length (pdata pg') = length (pdata pg) →
  vpins v' = vpins v → rwlatch_ pg' = vlatch_of pid v' →
  (∀ i, i ≠ pid → (i ∈ vdirty v' ↔ i ∈ vdirty v) ∧ vlatch_of i v' = vlatch_of i v) →
  (pid ∈ vdirty v' → is_Some (vpins v !! pid)) →
  (pid ∉ vdirty v' → isDirty pg' = isDirty pg ∧ pdata pg' = pdata pg ∧ pid ∉ vdirty v) →
  (∀ i bs, vpages v' !! i = Some bs → i = pid ∧ bs = pdata pg' ∨ i ≠ pid ∧ vpages v !! i = Some bs) →
  shows (upd_obj p pg' s) n v' ∧ (∀ i p', held s i p' → held (upd_obj p pg' s) i p') ∧
  cached (upd_obj p pg' s) pid f p pg'.
Proof.
  intros S C Hid HPc HL HVp HVl Ho HVd HVc HVb. destruct (sh_pool _ _ _ S) as (E & I & HI & HA).
  destruct (sh_cached _ _ _ S _ _ _ _ C) as (HR & HP & _ & HCl). pose proof I as [I0 HRp].
  assert (HfE : f ∈ E → pinCount pg = 0).
  { intros Hf. destruct (pi_evictable _ _ _ I0 f Hf) as (pid' & p' & q & C' & HP').
    rewrite (cached_frame_inj _ _ _ _ _ _ _ _ _ _ I0 C' C) in C'.
    by destruct (cached_fun _ _ _ _ _ _ _ _ C C') as (_ & _ & <-). }
  assert (HEf : pinCount pg = 0 → f ∈ E).
  { intros Hz. destruct (HA f) as [Hin|(pid' & p' & q & C' & HE')]; [|done| |].
    - by eapply cached_in_range.
    - by apply (cached_not_free _ _ _ _ _ _ _ I0 C) in Hin.
    - apply HE'. rewrite (cached_frame_inj _ _ _ _ _ _ _ _ _ _ I0 C' C) in C'.
      by destruct (cached_fun _ _ _ _ _ _ _ _ C C') as (_ & _ & <-). }
  assert (HP0 : 0 ≤ pinCount pg).
  { destruct (pi_map _ _ _ I0 _ _ (proj1 C)) as (_ & p0 & pg0 & C0 & _ & _ & HP0).
    by destruct (cached_fun _ _ _ _ _ _ _ _ C C0) as (_ & _ & <-). }
  assert (C1 : cached (upd_obj p pg' s) pid f p pg') by (by eapply cached_upd_same).
  assert (I1 : pool_inv (upd_obj p pg' s) E n).
  { split; [|done]. eapply static_upd_obj; try done; rewrite HPc; done. }
  assert (HPn : keeps_pinned (λ i, i = pid) s (upd_obj p pg' s)) by (by eapply keeps_pinned_upd_obj).
  assert (Hold : ∀ i f' p' q, i ≠ pid → cached s i f' p' q → cached (upd_obj p pg' s) i f' p' q).
  { intros i f' p' q Hne C'. apply cached_upd_other; [done|]. intros ->.
    destruct (cached_ptr_inj _ _ _ _ _ _ _ _ _ _ I0 C C'). congruence. }
  split; [|split; [|done]].
  - eapply (shows_page s _ n v _ pid f p pg'); try done.
    + split; [exact I1|]. split; [exact HI|].
      eapply frames_upd_obj; [exact I0|exact C|by rewrite HPc|done|exact HA].
    + by eapply no_new_upd_obj.
    + unfold vpin_count. rewrite HVp, HPc. exact HP.
    + intros Hd Hin. destruct (HVc Hin) as (H1 & H2 & H3). rewrite H2. apply HCl; [congruence|done].
    + intros k Hk. rewrite HVp in Hk. by destruct (sh_pins _ _ _ S _ _ Hk).
    + rewrite HVp. done.
    + intros i Hne. rewrite HVp. split; [done|]. by apply Ho.
    + intros i bs HB. destruct (HVb i bs HB) as [[-> ->]|[Hne HB']].
      * left. by exists f, p, pg'.
      * destruct (sh_pages _ _ _ S _ _ HB') as [(f' & p' & q & C' & HB'')|HB'']; [left|by right].
        exists f', p', q. split; [by apply Hold|done].
  - intros i p' (f' & q & C'). destruct (decide (i = pid)) as [->|Hne].
    + destruct (cached_fun _ _ _ _ _ _ _ _ C C') as (_ & <- & _). by exists f, pg'.
    + exists f', q. by apply Hold.
Qed.

(** Changing the contents of a pinned page. *)
Lemma shows_write s n v pid f p pg pg' :
  shows s n v → is_Some (vpins v !! pid) → cached s pid f p pg →
  id pg' = id pg → pinCount pg' = pinCount pg → rwlatch_ pg' = rwlatch_ pg →
  length (pdata pg') = length (pdata pg) →
  shows (upd_obj p pg' s) n (vwrite pid (pdata pg') v) ∧
  (∀ i p', held s i p' → held (upd_obj p pg' s) i p') ∧ cached (upd_obj p pg' s) pid f p pg'.
Proof.
  intros S HS C Hid HPc HU HL. destruct (sh_cached _ _ _ S _ _ _ _ C) as (_ & _ & HLt & _).
  eapply (shows_upd s n v (vwrite pid (pdata pg') v) pid f p pg pg'); try done.
  - by rewrite HU, HLt.
  - intros i Hne. cbn. set_solver.
  - cbn. set_solver.
  - intros i bs HB. cbn in HB. apply lookup_insert_Some in HB as [[<- <-]|[Hne HB]]; [by left|by right].
Qed.

(** Changing the latch of a page in the pool. *)
Lemma shows_latch s n v v' pid f p pg l :
  shows s n v → cached s pid f p pg → vpages v' = vpages v → vpins v' = vpins v →
  vdirty v' = vdirty v → vlatch_of pid v' = l →
  (∀ i, i ≠ pid → vlatch_of i v' = vlatch_of i v) →
  shows (upd_obj p (set_latch l pg) s) n v' ∧
  (∀ i p', held s i p' → held (upd_obj p (set_latch l pg) s) i p') ∧
  cached (upd_obj p (set_latch l pg) s) pid f p (set_latch l pg).
Proof.
  intros S C H1 H2 H3 H4 H5.
  eapply (shows_upd s n v v' pid f p pg (set_latch l pg)); try done.
  - intros i Hne. rewrite H3. split; [done|by apply H5].
  - intros Hin. rewrite H3 in Hin. by apply (sh_dirty _ _ _ S).
  - intros Hin. rewrite H3 in Hin. by split.
  - intros i bs HB. rewrite H1 in HB. destruct (decide (i = pid)) as [->|Hne]; [left|by right].
    split; [done|]. cbn. pose proof (sh_pages _ _ _ S _ _ HB) as HH.
    eapply page_has_fun; [exact HH|left; by exists f, p, pg].
Qed.

(** Flushing a page while nothing is pinned: the page is clean afterwards. *)
Lemma shows_flush s n v pid f p pg :
  shows s n v → cached s pid f p pg → vpins v = ∅ → vlatch_of pid v = NewRWLatch →
  ∃ s', FlushPage pid s = Ok (true, s') ∧ shows s' n v ∧ cached s' pid f p (flushed pg) ∧
    (∀ i f' p' q, i ≠ pid → cached s i f' p' q → cached s' i f' p' q) ∧
    pageTable (bpm s') = pageTable (bpm s) ∧ log_same s s' ∧
    nextPageID (diskManager s') = nextPageID (diskManager s).
Proof.
  intros S C HV HL. destruct (sh_pool _ _ _ S) as (E & [I HRp] & HI & HA).
  pose proof (shows_coherent _ _ _ S) as HC. destruct (sh_cached _ _ _ S _ _ _ _ C) as (HR & HP & HU & _).
  assert (HP0 : pinCount pg = 0) by (rewrite HP; unfold vpin_count; by rewrite HV, lookup_empty).
  assert (HPf : pinCount (flushed pg) = 0) by (unfold flushed, DecPinCount; by rewrite HP0).
  destruct (FlushPage_run s E n pid f p pg (conj I HRp) C) as
    (s' & dm & EF & Es & I' & HC' & HK & HKp & HPr & HB & HLg & HN & HIb); [by rewrite HL in HU|done|done|].
  destruct (pi_map _ _ _ I _ _ (proj1 C)) as (_ & p0 & pg0 & C0 & _ & HLn & _).
  destruct (cached_fun _ _ _ _ _ _ _ _ C C0) as (_ & <- & <-).
  assert (Hold : ∀ i f' p' q, i ≠ pid → cached s i f' p' q → cached s' i f' p' q).
  { intros i f' p' q Hne C'. rewrite Es. apply (cached_upd_other s); [done|]. intros ->.
    destruct (cached_ptr_inj _ _ _ _ _ _ _ _ _ _ I C C'). congruence. }
  assert (C1 : cached s' pid f p (flushed pg)) by (rewrite Es; by apply (cached_upd_same s pid f p pg)).
  assert (Hinv : ∀ i f' p' q, i ≠ pid → cached s' i f' p' q → cached s i f' p' q).
  { intros i f' p' q Hne C'. rewrite Es in C'.
    destruct (cached_upd_inv s _ _ _ _ _ _ _ _ _ C C') as [(-> & -> & C'')|[_ C'']]; [|done].
    by destruct (cached_ptr_inj _ _ _ _ _ _ _ _ _ _ I C C''). }
  exists s'. split; [exact EF|]. split; [|split; [exact C1|split; [exact Hold|split; [by rewrite Es|split; [|done]]]]].
  - assert (HZ : ∀ i, vpin_count i v = 0) by (intros i; unfold vpin_count; by rewrite HV, lookup_empty).
    split.
    + exists E. split; [exact I'|]. split.
      * by apply HIb.
      * intros g Hg _. destruct (HA g Hg) as [Hf|(i & p' & q & C' & Hq)]; [done|left; by rewrite Es|right].
        destruct (decide (i = pid)) as [->|Hne].
        -- destruct (cached_fun _ _ _ _ _ _ _ _ C C') as (<- & <- & <-). exists pid, p, (flushed pg). auto.
        -- exists i, p', q. auto.
    + intros i f' p' q C'. destruct (HC' _ _ _ _ C') as [HRi HCi]. split; [done|].
      destruct (decide (i = pid)) as [->|Hne].
      * destruct (cached_fun _ _ _ _ _ _ _ _ C1 C') as (_ & _ & <-). rewrite HZ, HPf. split; [done|].
        split; [|intros Hd _; by apply HCi].
        destruct (DecPinCount_fields pg) as (_ & _ & _ & D4). unfold flushed. cbn. by rewrite D4, HU.
      * pose proof (Hinv _ _ _ _ Hne C') as C2. destruct (sh_cached _ _ _ S _ _ _ _ C2) as (_ & H2 & H3 & _).
        split; [done|]. split; [done|]. intros Hd _. apply HCi; [done|]. by rewrite H2.
    + intros i k Hk. by rewrite HV, lookup_empty in Hk.
    + intros i bs Hbs. by apply HK, (sh_pages _ _ _ S).
    + apply (sh_dirty _ _ _ S).
  - rewrite Es. split; [|done]. unfold get_log, log_stream. cbn. rewrite Es in HLg. cbn in HLg. by rewrite HLg.
Qed.

(** Steps of the log manager do not touch the pages. *)
Lemma shows_same s s' n v :
  shows s n v → same_pages s s' → freeList (bpm s') = freeList (bpm s) →
  replacer (bpm s') = replacer (bpm s) → log_wf (get_log s') →
  nextPageID (diskManager s') = nextPageID (diskManager s) →
  shows s' n v ∧ ∀ pid p, held s pid p ↔ held s' pid p.
Proof.
  intros S SP HF HRp HW HNx. destruct (sh_pool _ _ _ S) as (E & [I HR] & HI & HA).
  assert (HH : ∀ pid p, held s pid p ↔ held s' pid p).
  { intros pid p. unfold held. by setoid_rewrite (same_pages_cached _ _ _ _ _ _ SP). }
  split; [|done]. split.
  - exists E. split; [split; [by eapply same_pages_static|by rewrite HRp]|].
    split; [by eapply same_pages_ids|by eapply same_pages_frames].
  - intros pid f p pg C. apply (same_pages_cached _ _ _ _ _ _ SP) in C.
    destruct (sh_cached _ _ _ S _ _ _ _ C) as (H1 & H2 & H3 & H4). repeat (split; [done|]).
    destruct (same_pages_disk _ _ pid SP) as [-> ->]. done.
  - intros pid k Hk. destruct (sh_pins _ _ _ S _ _ Hk) as (Hk0 & p & Hp). split; [done|].
    exists p. by apply HH.
  - intros pid bs HB. by apply (same_pages_keeps _ _ SP), (sh_pages _ _ _ S).
  - apply (sh_dirty _ _ _ S).
Qed.
End view.

(** A new pool: nothing pinned, the pages those on disk. *)
Lemma new_store_pages {R : Type} `{Replacer R} n d P :
  in_u32 n → log_at_end d → file_size (db d) / PageSize ≤ nextPageID d →
  (∀ pid bs, P !! pid = Some bs → page_present pid d ∧ page_bytes pid d = bs) →
  shows (new_store (R := R) n d) (Z.to_nat n) (MkView P ∅ ∅ ∅).
Proof.
  intros Hn HL HF HD. destruct (new_pool_inv (R := R) n d Hn HL) as [I HC].
  split; cbn [vpages vpins vdirty vlatches].
  - exists ∅. split; [done|]. split; [split; [done|]|].
    + intros pid f HT. cbn in HT. by rewrite lookup_empty in HT.
    + intros f Hf _. left. cbn. apply list_elem_of_fmap. exists (Z.to_nat f). split; [lia|].
      apply elem_of_seq. lia.
  - intros pid f p pg (HT & _). cbn in HT. by rewrite lookup_empty in HT.
  - intros pid k Hk. by rewrite lookup_empty in Hk.
  - intros pid bs HB. right. split; [|by apply HD]. cbn. by rewrite lookup_empty.
  - set_solver.
Qed.

Lemma new_store_shows {R : Type} `{Replacer R} n d :
  in_u32 n → log_at_end d → file_size (db d) / PageSize ≤ nextPageID d →
  shows (new_store (R := R) n d) (Z.to_nat n) (MkView ∅ ∅ ∅ ∅).
Proof. intros Hn HL HF. apply new_store_pages; [done..|]. intros pid bs HB. by rewrite lookup_empty in HB. Qed.
