(* ===== verification/LockManager.v ===== *)
(** * Transactions and the lock manager ([storage/access/transaction.go],
    [storage/access/lock_manager.go])

    The lock manager keeps, per record, the transactions that share it and the
    one that has it exclusively; each transaction keeps the records it locked.
    An operation either grants at once or refuses: nobody waits.  The mutex
    brackets each operation.

    The operations run on the pair of a transaction and the tables.  [lock_step]
    interleaves transactions; its theorems say that the tables and the
    transactions' sets agree in every reachable state, that locks exclude each
    other as long as an upgrade happens only while nobody else shares the
    record, that releasing frees everything, and that the upgrade as written
    breaks exclusion. *)

From S2P Require Import Prelude Disk Tuples.

(** ** Transactions *)
Inductive TransactionState : Type := GROWING | SHRINKING | COMMITTED | ABORTED.

#[global] Instance TransactionState_eq_dec : EqDecision TransactionState.
Proof. solve_decision. Defined.

Inductive WType : Type := WINSERT | WDELETE | WUPDATE.

(** [table] is the first page id of the record's table heap. *)
Record WriteRecord : Type := NewWriteRecord {
  wrid : RID;
  wtype : WType;
  wtuple : Tuple;
  table : Z
}.

Record Transaction : Type := MkTransaction {
  txn_state : TransactionState;
  txn_id : Z;
  write_set : list WriteRecord;
  prev_lsn : Z;
  shared_lock_set : list RID;
  exclusive_lock_set : list RID
}.

Definition NewTransaction (id : Z) : Transaction := MkTransaction GROWING id [] InvalidLSN [] [].

Definition SetState (s : TransactionState) (t : Transaction) : Transaction :=
  MkTransaction s (txn_id t) (write_set t) (prev_lsn t) (shared_lock_set t) (exclusive_lock_set t).
Definition SetWriteSet (w : list WriteRecord) (t : Transaction) : Transaction :=
  MkTransaction (txn_state t) (txn_id t) w (prev_lsn t) (shared_lock_set t) (exclusive_lock_set t).
Definition SetPrevLSN (l : Z) (t : Transaction) : Transaction :=
  MkTransaction (txn_state t) (txn_id t) (write_set t) l (shared_lock_set t) (exclusive_lock_set t).
Definition SetSharedLockSet (l : list RID) (t : Transaction) : Transaction :=
  MkTransaction (txn_state t) (txn_id t) (write_set t) (prev_lsn t) l (exclusive_lock_set t).
Definition SetExclusiveLockSet (l : list RID) (t : Transaction) : Transaction :=
  MkTransaction (txn_state t) (txn_id t) (write_set t) (prev_lsn t) (shared_lock_set t) l.
Definition AddIntoWriteSet (w : WriteRecord) (t : Transaction) : Transaction :=
  SetWriteSet (write_set t ++ [w]) t.

Fixpoint isContainsRID (l : list RID) (r : RID) : bool :=
  match l with
  | [] => false
  | r' :: l' => if decide (r = r') then true else isContainsRID l' r
  end.
Definition IsSharedLocked (t : Transaction) (r : RID) : bool := isContainsRID (shared_lock_set t) r.
Definition IsExclusiveLocked (t : Transaction) (r : RID) : bool :=
  isContainsRID (exclusive_lock_set t) r.

(** ** The lock tables *)
Record LockManager : Type := MkLockManager {
  shared_lock_table : gmap RID (list Z);
  exclusive_lock_table : gmap RID Z
}.

Definition NewLockManager : LockManager := MkLockManager ∅ ∅.

(** The first occurrence is removed. *)
Fixpoint removeRID (l : list RID) (r : RID) : list RID :=
  match l with
  | [] => []
  | r' :: l' => if decide (r' = r) then l' else r' :: removeRID l' r
  end.
Fixpoint removeTxnID (l : list Z) (t : Z) : list Z :=
  match l with
  | [] => []
  | t' :: l' => if t' =? t then l' else t' :: removeTxnID l' t
  end.
Fixpoint isContainTxnID (l : list Z) (t : Z) : bool :=
  match l with
  | [] => false
  | t' :: l' => if t' =? t then true else isContainTxnID l' t
  end.

Definition set_shared (r : RID) (l : list Z) (lm : LockManager) : LockManager :=
  MkLockManager (<[r := l]> (shared_lock_table lm)) (exclusive_lock_table lm).
Definition set_exclusive (r : RID) (t : Z) (lm : LockManager) : LockManager :=
  MkLockManager (shared_lock_table lm) (<[r := t]> (exclusive_lock_table lm)).

Definition LockShared (txn : Transaction) (r : RID) (lm : LockManager) :
    bool * Transaction * LockManager :=
  match exclusive_lock_table lm !! r with
  | Some t => (t =? txn_id txn, txn, lm)
  | None =>
      let txn' := SetSharedLockSet (shared_lock_set txn ++ [r]) txn in
      match shared_lock_table lm !! r with
      | Some arr =>
          if isContainTxnID arr (txn_id txn) then (true, txn, lm)
          else (true, txn', set_shared r (arr ++ [txn_id txn]) lm)
      | None => (true, txn', set_shared r [txn_id txn] lm)
      end
  end.

Definition LockExclusive (txn : Transaction) (r : RID) (lm : LockManager) :
    bool * Transaction * LockManager :=
  match exclusive_lock_table lm !! r with
  | Some t => (t =? txn_id txn, txn, lm)
  | None =>
      let grant := (true, SetExclusiveLockSet (exclusive_lock_set txn ++ [r]) txn,
                    set_exclusive r (txn_id txn) lm) in
      match shared_lock_table lm !! r with
      | Some (_ :: _) => (false, txn, lm)
      | _ => grant
      end
  end.

Definition LockUpgrade (txn : Transaction) (r : RID) (lm : LockManager) :
    res (bool * Transaction * LockManager) :=
  if IsSharedLocked txn r then
    match exclusive_lock_table lm !! r with
    | Some t => Ok (t =? txn_id txn, txn, lm)
    | None =>
        let txn1 := SetExclusiveLockSet (exclusive_lock_set txn ++ [r]) txn in
        Ok (true, SetSharedLockSet (removeRID (shared_lock_set txn) r) txn1,
            set_exclusive r (txn_id txn) lm)
    end
  else Panic.

(** One record of [Unlock]'s list. *)
Definition unlock_one (t : Z) (lm : LockManager) (r : RID) : LockManager :=
  let lm1 := match exclusive_lock_table lm !! r with
             | Some t' => if t' =? t
                          then MkLockManager (shared_lock_table lm)
                                 (base.delete r (exclusive_lock_table lm))
                          else lm
             | None => lm
             end in
  match shared_lock_table lm1 !! r with
  | Some arr => if isContainTxnID arr t then set_shared r (removeTxnID arr t) lm1 else lm1
  | None => lm1
  end.
Definition Unlock (txn : Transaction) (rid_list : list RID) (lm : LockManager) :
    bool * LockManager :=
  (true, foldl (unlock_one (txn_id txn)) lm rid_list).

(** [releaseLocks] of [transaction_manager.go]. *)
Definition releaseLocks (txn : Transaction) (lm : LockManager) : LockManager :=
  snd (Unlock txn (exclusive_lock_set txn ++ shared_lock_set txn) lm).

(** ** The system of transactions *)
Record lock_sys : Type := MkLockSys { txns : gmap Z Transaction; locks : LockManager }.

(** No transaction but [t] shares record [r]. *)
Definition sole_sharer (lm : LockManager) (r : RID) (t : Z) : Prop :=
  ∀ arr t', shared_lock_table lm !! r = Some arr → t' ∈ arr → t' = t.

(** [safe] restricts upgrades to records nobody else shares. *)
Inductive lock_step (safe : bool) : lock_sys → lock_sys → Prop :=
| step_begin s t :
    txns s !! t = None → lock_step safe s (MkLockSys (<[t := NewTransaction t]> (txns s)) (locks s))
| step_shared s t txn r b txn' lm' :
    txns s !! t = Some txn → LockShared txn r (locks s) = (b, txn', lm') →
    lock_step safe s (MkLockSys (<[t := txn']> (txns s)) lm')
| step_exclusive s t txn r b txn' lm' :
    txns s !! t = Some txn → LockExclusive txn r (locks s) = (b, txn', lm') →
    lock_step safe s (MkLockSys (<[t := txn']> (txns s)) lm')
| step_upgrade s t txn r b txn' lm' :
    txns s !! t = Some txn → LockUpgrade txn r (locks s) = Ok (b, txn', lm') →
    (safe = true → sole_sharer (locks s) r t) →
    lock_step safe s (MkLockSys (<[t := txn']> (txns s)) lm')
| step_release s t txn :
    txns s !! t = Some txn →
    lock_step safe s (MkLockSys (base.delete t (txns s)) (releaseLocks txn (locks s))).

Definition lock_init : lock_sys := MkLockSys ∅ NewLockManager.
Definition lock_reachable (safe : bool) : lock_sys → Prop := rtc (lock_step safe) lock_init.

Definition shares (lm : LockManager) (r : RID) (t : Z) : Prop :=
  ∃ arr, shared_lock_table lm !! r = Some arr ∧ t ∈ arr.
Definition owns (lm : LockManager) (r : RID) (t : Z) : Prop := exclusive_lock_table lm !! r = Some t.

(** The tables and the transactions' own sets agree. *)
Record lock_inv (s : lock_sys) : Prop := {
  li_id : ∀ t txn, txns s !! t = Some txn → txn_id txn = t;
  li_nodup : ∀ r arr, shared_lock_table (locks s) !! r = Some arr → NoDup arr;
  li_shared : ∀ r t, shares (locks s) r t →
    ∃ txn, txns s !! t = Some txn ∧ (r ∈ shared_lock_set txn ∨ r ∈ exclusive_lock_set txn);
  li_owned : ∀ r t, owns (locks s) r t → ∃ txn, txns s !! t = Some txn ∧ r ∈ exclusive_lock_set txn;
  li_own_set : ∀ t txn r, txns s !! t = Some txn → r ∈ exclusive_lock_set txn → owns (locks s) r t;
  li_share_set : ∀ t txn r, txns s !! t = Some txn → r ∈ shared_lock_set txn → shares (locks s) r t;
  li_share_nodup : ∀ t txn, txns s !! t = Some txn → NoDup (shared_lock_set txn)
}.

(** Exclusive locks exclude. *)
Definition exclusion (lm : LockManager) : Prop :=
  ∀ r t t', owns lm r t → shares lm r t' → t' = t.

(** ** List helpers *)
Lemma isContainsRID_spec l r : isContainsRID l r = true ↔ r ∈ l.
Proof.
  induction l as [|r' l IH]; simpl; [by rewrite elem_of_nil|].
  rewrite elem_of_cons, <- IH. case_decide as E; subst; naive_solver.
Qed.

Lemma isContainTxnID_spec l t : isContainTxnID l t = true ↔ t ∈ l.
Proof.
  induction l as [|t' l IH]; simpl; [by rewrite elem_of_nil|].
  rewrite elem_of_cons, <- IH. destruct (Z.eqb_spec t' t) as [->|]; naive_solver.
Qed.

Lemma removeTxnID_spec l t t' : NoDup l → t' ∈ removeTxnID l t ↔ t' ∈ l ∧ t' ≠ t.
Proof.
  induction l as [|u l IH]; intros ND; simpl; [by rewrite elem_of_nil; naive_solver|].
  apply NoDup_cons in ND as [Hu ND]. destruct (Z.eqb_spec u t) as [->|Hne].
  - rewrite elem_of_cons. split; [intros Hl; split; [by right|by intros ->]|].
    intros [[->|Hl] ?]; done.
  - rewrite !elem_of_cons, IH by done. naive_solver.
Qed.

Lemma NoDup_removeTxnID l t : NoDup l → NoDup (removeTxnID l t).
Proof.
  induction l as [|u l IH]; intros ND; simpl; [done|]. apply NoDup_cons in ND as [Hu ND].
  destruct (u =? t); [done|]. apply NoDup_cons. split; [|by apply IH].
  rewrite removeTxnID_spec by done. naive_solver.
Qed.

Lemma removeRID_spec l r r' : NoDup l → r' ∈ removeRID l r ↔ r' ∈ l ∧ r' ≠ r.
Proof.
  induction l as [|u l IH]; intros ND; simpl; [by rewrite elem_of_nil; naive_solver|].
  apply NoDup_cons in ND as [Hu ND]. case_decide as E; subst.
  - rewrite elem_of_cons. split; [intros Hl; split; [by right|by intros ->]|].
    intros [[->|Hl] ?]; done.
  - rewrite !elem_of_cons, IH by done. naive_solver.
Qed.

Lemma NoDup_removeRID l r : NoDup l → NoDup (removeRID l r).
Proof.
  induction l as [|u l IH]; intros ND; simpl; [done|]. apply NoDup_cons in ND as [Hu ND].
  case_decide; [done|]. apply NoDup_cons. split; [|by apply IH].
  rewrite removeRID_spec by done. naive_solver.
Qed.

(** ** Table helpers *)
Lemma shares_set_shared lm r l r' t :
  shares (set_shared r l lm) r' t ↔ (r' = r ∧ t ∈ l) ∨ (r' ≠ r ∧ shares lm r' t).
Proof.
  unfold shares. simpl. destruct (decide (r' = r)) as [->|Hne].
  - rewrite lookup_insert_eq. naive_solver.
  - rewrite lookup_insert_ne by done. naive_solver.
Qed.

Lemma owns_set_exclusive lm r t r' t' :
  owns (set_exclusive r t lm) r' t' ↔ (r' = r ∧ t' = t) ∨ (r' ≠ r ∧ owns lm r' t').
Proof. unfold owns. simpl. rewrite lookup_insert_Some. naive_solver. Qed.

Definition tables_nodup (lm : LockManager) : Prop :=
  ∀ r arr, shared_lock_table lm !! r = Some arr → NoDup arr.

Lemma tables_nodup_set_shared lm r l :
  tables_nodup lm → NoDup l → tables_nodup (set_shared r l lm).
Proof.
  intros HN Hl r' arr Ha. simpl in Ha.
  apply lookup_insert_Some in Ha as [[<- <-]|[_ Ha]]; [done|by eapply HN].
Qed.

(** *** Releasing *)
Lemma unlock_one_spec t lm r0 r t' :
  tables_nodup lm →
  (owns (unlock_one t lm r0) r t' ↔ owns lm r t' ∧ ¬ (r = r0 ∧ t' = t)) ∧
  (shares (unlock_one t lm r0) r t' ↔ shares lm r t' ∧ ¬ (r = r0 ∧ t' = t)) ∧
  tables_nodup (unlock_one t lm r0).
Proof.
  intros HN. unfold unlock_one.
  set (lm1 := match exclusive_lock_table lm !! r0 with Some _ => _ | None => _ end).
  assert (H1 : shared_lock_table lm1 = shared_lock_table lm ∧
    (exclusive_lock_table lm1 !! r = Some t' ↔
     exclusive_lock_table lm !! r = Some t' ∧ ¬ (r = r0 ∧ t' = t))).
  { subst lm1. destruct (exclusive_lock_table lm !! r0) as [u|] eqn:E; [|split; [done|naive_solver]].
    destruct (Z.eqb_spec u t) as [->|Hne]; (split; [done|]); simpl.
    - rewrite lookup_delete_Some. destruct (decide (r = r0)) as [->|]; naive_solver.
    - destruct (decide (r = r0)) as [->|]; naive_solver. }
  destruct H1 as [H1 H2]. rewrite H1.
  destruct (shared_lock_table lm !! r0) as [arr|] eqn:E.
  - destruct (isContainTxnID arr t) eqn:EC.
    + split; [exact H2|]. split.
      * rewrite shares_set_shared, removeTxnID_spec by (by eapply HN).
        unfold shares. rewrite H1. destruct (decide (r = r0)) as [->|]; rewrite ?E; naive_solver.
      * apply tables_nodup_set_shared; [unfold tables_nodup; rewrite H1; done|].
        by eapply NoDup_removeTxnID, HN.
    + split; [exact H2|]. unfold shares, tables_nodup. rewrite H1. split; [|done].
      split; [|naive_solver]. intros (a & Ha & Ht). split; [by exists a|].
      intros [-> ->]. simplify_eq. apply isContainTxnID_spec in Ht. congruence.
  - split; [exact H2|]. unfold shares, tables_nodup. rewrite H1. split; [|done].
    split; [|naive_solver]. intros (a & Ha & Ht). split; [by exists a|]. intros [-> ->]. congruence.
Qed.

Lemma Unlock_spec txn l lm r t' :
  tables_nodup lm →
  (owns (snd (Unlock txn l lm)) r t' ↔ owns lm r t' ∧ ¬ (r ∈ l ∧ t' = txn_id txn)) ∧
  (shares (snd (Unlock txn l lm)) r t' ↔ shares lm r t' ∧ ¬ (r ∈ l ∧ t' = txn_id txn)) ∧
  tables_nodup (snd (Unlock txn l lm)).
Proof.
  simpl. revert lm. induction l as [|r0 l IH]; intros lm HN; simpl.
  - split; [|split; [|done]]; (split; [|naive_solver]); intros ?; (split; [done|]);
      intros [[]%elem_of_nil _].
  - destruct (unlock_one_spec (txn_id txn) lm r0 r t' HN) as (O1 & S1 & N1).
    destruct (IH _ N1) as (O2 & S2 & N2). rewrite O2, S2, O1, S1. rewrite elem_of_cons.
    split; [naive_solver|]. split; [naive_solver|done].
Qed.

(** ** What an operation does *)
Definition shared_granted (txn : Transaction) (r : RID) (lm : LockManager)
    (txn' : Transaction) (lm' : LockManager) : Prop :=
  txn' = SetSharedLockSet (shared_lock_set txn ++ [r]) txn ∧
  (∀ t, ¬ owns lm r t) ∧ (¬ shares lm r (txn_id txn)) ∧
  (∀ r' t, owns lm' r' t ↔ owns lm r' t) ∧
  (∀ r' t, shares lm' r' t ↔ shares lm r' t ∨ (r' = r ∧ t = txn_id txn)) ∧
  (tables_nodup lm → tables_nodup lm').

Lemma LockShared_cases txn r lm b txn' lm' :
  LockShared txn r lm = (b, txn', lm') →
  (txn' = txn ∧ lm' = lm ∧ (b = true → owns lm r (txn_id txn) ∨ shares lm r (txn_id txn)) ∧
   (b = false → ∃ t, owns lm r t ∧ t ≠ txn_id txn)) ∨
  (b = true ∧ shared_granted txn r lm txn' lm').
Proof.
  unfold LockShared. destruct (exclusive_lock_table lm !! r) as [t|] eqn:EX.
  { intros [= <- <- <-]. left. split; [done|]. split; [done|].
    destruct (Z.eqb_spec t (txn_id txn)) as [->|]; split; try done; [by left|by exists t]. }
  assert (HO : ∀ t, ¬ owns lm r t) by (intros t; unfold owns; congruence).
  destruct (shared_lock_table lm !! r) as [arr|] eqn:ES.
  - destruct (isContainTxnID arr (txn_id txn)) eqn:EC.
    + intros [= <- <- <-]. left. split; [done|]. split; [done|]. split; [|done].
      intros _. right. exists arr. split; [done|]. by apply isContainTxnID_spec.
    + intros [= <- <- <-]. right. split; [done|].
      assert (HT : txn_id txn ∉ arr) by (rewrite <- isContainTxnID_spec, EC; done).
      assert (HS : ∀ t, shares lm r t ↔ t ∈ arr).
      { intros t. unfold shares. rewrite ES. naive_solver. }
      split; [done|]. split; [done|]. split; [by rewrite HS|]. split; [done|]. split.
      * intros r' t. rewrite shares_set_shared, elem_of_app, list_elem_of_singleton.
        destruct (decide (r' = r)) as [->|]; [rewrite HS|]; naive_solver.
      * intros HN. apply tables_nodup_set_shared; [done|]. apply NoDup_app.
        split; [by eapply HN|]. split; [|apply NoDup_singleton].
        intros t Ht ->%list_elem_of_singleton. done.
  - intros [= <- <- <-]. right. split; [done|].
    assert (HS : ∀ t, ¬ shares lm r t) by (intros t (a & Ha & _); congruence).
    split; [done|]. split; [done|]. split; [done|]. split; [done|]. split.
    + intros r' t. rewrite shares_set_shared, list_elem_of_singleton.
      destruct (decide (r' = r)) as [->|]; naive_solver.
    + intros HN. apply tables_nodup_set_shared; [done|apply NoDup_singleton].
Qed.

(** The record becomes [txn]'s exclusively; an upgrade also drops it from the
    transaction's shared set. *)
Definition exclusive_granted (txn : Transaction) (r : RID) (lm : LockManager)
    (txn' : Transaction) (lm' : LockManager) : Prop :=
  lm' = set_exclusive r (txn_id txn) lm ∧ (∀ t, ¬ owns lm r t) ∧
  txn_id txn' = txn_id txn ∧
  exclusive_lock_set txn' = exclusive_lock_set txn ++ [r] ∧
  (shared_lock_set txn' = shared_lock_set txn ∧ (∀ t, ¬ shares lm r t) ∨
   shared_lock_set txn' = removeRID (shared_lock_set txn) r ∧ r ∈ shared_lock_set txn).

Lemma LockExclusive_cases txn r lm b txn' lm' :
  LockExclusive txn r lm = (b, txn', lm') →
  (txn' = txn ∧ lm' = lm ∧ (b = true → owns lm r (txn_id txn)) ∧
   (b = false → ∃ t, (owns lm r t ∧ t ≠ txn_id txn) ∨ shares lm r t)) ∨
  (b = true ∧ (∀ t, ¬ shares lm r t) ∧ exclusive_granted txn r lm txn' lm').
Proof.
  unfold LockExclusive. destruct (exclusive_lock_table lm !! r) as [t|] eqn:EX.
  { intros [= <- <- <-]. left. split; [done|]. split; [done|].
    destruct (Z.eqb_spec t (txn_id txn)) as [->|]; split; try done. intros _. exists t. by left. }
  assert (HO : ∀ t, ¬ owns lm r t) by (intros t; unfold owns; congruence).
  destruct (shared_lock_table lm !! r) as [[|u arr]|] eqn:ES; intros [= <- <- <-].
  - right. assert (HS : ∀ t, ¬ shares lm r t).
    { intros t (a & Ha & Ht). simplify_eq. by apply elem_of_nil in Ht. }
    split; [done|]. split; [done|]. split_and!; try done. by left.
  - left. split; [done|]. split; [done|]. split; [done|]. intros _. exists u. right.
    exists (u :: arr). split; [done|by left].
  - right. assert (HS : ∀ t, ¬ shares lm r t) by (intros t (a & Ha & _); congruence).
    split; [done|]. split; [done|]. split_and!; try done. by left.
Qed.

Lemma LockUpgrade_cases txn r lm b txn' lm' :
  LockUpgrade txn r lm = Ok (b, txn', lm') →
  r ∈ shared_lock_set txn ∧
  ((txn' = txn ∧ lm' = lm) ∨ (b = true ∧ exclusive_granted txn r lm txn' lm')).
Proof.
  unfold LockUpgrade, IsSharedLocked.
  destruct (isContainsRID (shared_lock_set txn) r) eqn:EC; [|done].
  apply isContainsRID_spec in EC. destruct (exclusive_lock_table lm !! r) as [t|] eqn:EX.
  - intros [= <- <- <-]. split; [done|]. by left.
  - intros [= <- <- <-]. split; [done|]. right. split; [done|].
    split; [done|]. split; [intros t; unfold owns; congruence|].
    split; [done|]. split; [done|]. by right.
Qed.

(** ** The invariant *)
Lemma lock_inv_shared s t txn r txn' lm' :
  lock_inv s → txns s !! t = Some txn → shared_granted txn r (locks s) txn' lm' →
  lock_inv (MkLockSys (<[t := txn']> (txns s)) lm').
Proof.
  intros I Ht (-> & HO & HS & HO' & HS' & HN). pose proof I as [].
  pose proof (li_id0 _ _ Ht) as Hid. rewrite Hid in *.
  split; cbn [txns locks].
  - intros t' u [[<- <-]|[_ Hu]]%lookup_insert_Some; [done|by apply li_id0].
  - exact (HN li_nodup0).
  - intros r' t' [Hsh|[-> ->]]%HS'.
    + destruct (li_shared0 _ _ Hsh) as (u & Hu & Hin). destruct (decide (t' = t)) as [->|Hne].
      * simplify_eq. eexists. split; [apply lookup_insert_eq|]. simpl. rewrite elem_of_app. naive_solver.
      * exists u. by rewrite lookup_insert_ne.
    + eexists. split; [apply lookup_insert_eq|]. left. simpl. apply elem_of_app. right.
      by apply list_elem_of_singleton.
  - intros r' t' Hown. apply HO' in Hown. destruct (li_owned0 _ _ Hown) as (u & Hu & Hin).
    destruct (decide (t' = t)) as [->|Hne].
    + simplify_eq. eexists. split; [apply lookup_insert_eq|done].
    + exists u. by rewrite lookup_insert_ne.
  - intros t' u r' [[<- <-]|[_ Hu]]%lookup_insert_Some Hin; apply HO'; [|by eapply li_own_set0].
    by eapply li_own_set0.
  - intros t' u r' [[<- <-]|[_ Hu]]%lookup_insert_Some Hin; apply HS'; [|left; by eapply li_share_set0].
    simpl in Hin. apply elem_of_app in Hin as [Hin| ->%list_elem_of_singleton]; [|by right].
    left. by eapply li_share_set0.
  - intros t' u [[<- <-]|[_ Hu]]%lookup_insert_Some; [|by eapply li_share_nodup0].
    simpl. apply NoDup_app. split; [by eapply li_share_nodup0|]. split; [|apply NoDup_singleton].
    intros r' Hr' ->%list_elem_of_singleton. apply HS. by eapply li_share_set0.
Qed.

Lemma lock_inv_exclusive s t txn r txn' lm' :
  lock_inv s → txns s !! t = Some txn → exclusive_granted txn r (locks s) txn' lm' →
  lock_inv (MkLockSys (<[t := txn']> (txns s)) lm').
Proof.
  intros I Ht (-> & HO & Hid' & HX & HS). pose proof I as [].
  pose proof (li_id0 _ _ Ht) as Hid. rewrite Hid in *.
  assert (Hsub : ∀ r', r' ∈ shared_lock_set txn' → r' ∈ shared_lock_set txn).
  { intros r'. destruct HS as [[-> _]|[-> _]]; [done|].
    rewrite removeRID_spec by (by eapply li_share_nodup0). naive_solver. }
  assert (Hsup : ∀ r', r' ∈ shared_lock_set txn → r' ∈ shared_lock_set txn' ∨ r' = r).
  { intros r'. destruct HS as [[-> _]|[-> _]]; [by left|].
    rewrite removeRID_spec by (by eapply li_share_nodup0).
    destruct (decide (r' = r)); naive_solver. }
  split; cbn [txns locks].
  - intros t' u [[<- <-]|[_ Hu]]%lookup_insert_Some; [done|by apply li_id0].
  - exact li_nodup0.
  - intros r' t' Hsh. change (shares (locks s) r' t') in Hsh.
    destruct (li_shared0 _ _ Hsh) as (u & Hu & Hin). destruct (decide (t' = t)) as [->|Hne].
    + simplify_eq. eexists. split; [apply lookup_insert_eq|]. rewrite HX, elem_of_app, list_elem_of_singleton.
      destruct Hin as [Hin|Hin]; [|naive_solver]. apply Hsup in Hin. naive_solver.
    + exists u. by rewrite lookup_insert_ne.
  - intros r' t' [[-> ->]|[Hne Hown]]%owns_set_exclusive.
    + eexists. split; [apply lookup_insert_eq|]. rewrite HX. apply elem_of_app. right.
      by apply list_elem_of_singleton.
    + destruct (li_owned0 _ _ Hown) as (u & Hu & Hin). destruct (decide (t' = t)) as [->|Hne'].
      * simplify_eq. eexists. split; [apply lookup_insert_eq|]. rewrite HX, elem_of_app. by left.
      * exists u. by rewrite lookup_insert_ne.
  - intros t' u r' [[<- <-]|[Hne Hu]]%lookup_insert_Some Hin; apply owns_set_exclusive.
    + rewrite HX in Hin. apply elem_of_app in Hin as [Hin| ->%list_elem_of_singleton]; [|by left].
      right. assert (owns (locks s) r' t) as Hown by (by eapply li_own_set0).
      split; [|done]. intros ->. by eapply HO.
    + right. assert (owns (locks s) r' t') as Hown by (by eapply li_own_set0).
      split; [|done]. intros ->. by eapply HO.
  - intros t' u r' [[<- <-]|[Hne Hu]]%lookup_insert_Some Hin; [|by eapply li_share_set0].
    change (shares (locks s) r' t). eapply li_share_set0; [done|]. by apply Hsub.
  - intros t' u [[<- <-]|[_ Hu]]%lookup_insert_Some; [|by eapply li_share_nodup0].
    destruct HS as [[-> _]|[-> _]]; [by eapply li_share_nodup0|].
    by eapply NoDup_removeRID, li_share_nodup0.
Qed.

Lemma lock_inv_same s t txn : lock_inv s → txns s !! t = Some txn →
  lock_inv (MkLockSys (<[t := txn]> (txns s)) (locks s)).
Proof. intros I Ht. rewrite insert_id by done. by destruct s. Qed.

Lemma releaseLocks_spec s t txn r t' :
  lock_inv s → txns s !! t = Some txn →
  (owns (releaseLocks txn (locks s)) r t' ↔ owns (locks s) r t' ∧ t' ≠ t) ∧
  (shares (releaseLocks txn (locks s)) r t' ↔ shares (locks s) r t' ∧ t' ≠ t) ∧
  tables_nodup (releaseLocks txn (locks s)).
Proof.
  intros I Ht. pose proof (li_id _ I _ _ Ht) as Hid. unfold releaseLocks.
  destruct (Unlock_spec txn (exclusive_lock_set txn ++ shared_lock_set txn) (locks s) r t'
    (li_nodup _ I)) as (O & S & N). rewrite Hid in O, S. rewrite O, S. split; [|split; [|done]].
  - split; [|naive_solver]. intros [Hown Hn]. split; [done|]. intros ->. apply Hn. split; [|done].
    destruct (li_owned _ I _ _ Hown) as (u & Hu & Hin). simplify_eq. apply elem_of_app. by left.
  - split; [|naive_solver]. intros [Hsh Hn]. split; [done|]. intros ->. apply Hn. split; [|done].
    destruct (li_shared _ I _ _ Hsh) as (u & Hu & Hin). simplify_eq. apply elem_of_app. naive_solver.
Qed.

Lemma lock_inv_release s t txn :
  lock_inv s → txns s !! t = Some txn →
  lock_inv (MkLockSys (base.delete t (txns s)) (releaseLocks txn (locks s))).
Proof.
  intros I Ht. pose proof (λ r t', releaseLocks_spec s t txn r t' I Ht) as HR.
  destruct I. split; cbn [txns locks].
  - intros t' u [_ Hu]%lookup_delete_Some. by apply li_id0.
  - apply (HR (MkRID 0 0) 0).
  - intros r t' [Hsh Hne]%HR. destruct (li_shared0 _ _ Hsh) as (u & Hu & Hin).
    exists u. by rewrite lookup_delete_ne.
  - intros r t' [Hsh Hne]%HR. destruct (li_owned0 _ _ Hsh) as (u & Hu & Hin).
    exists u. by rewrite lookup_delete_ne.
  - intros t' u r [Hne Hu]%lookup_delete_Some Hin. apply HR. split; [by eapply li_own_set0|done].
  - intros t' u r [Hne Hu]%lookup_delete_Some Hin. apply HR. split; [by eapply li_share_set0|done].
  - intros t' u [_ Hu]%lookup_delete_Some. by eapply li_share_nodup0.
Qed.

Lemma lock_step_inv safe s s' : lock_inv s → lock_step safe s s' → lock_inv s'.
Proof.
  intros I HS. destruct HS as [s t Ht|s t txn r b txn' lm' Ht E|s t txn r b txn' lm' Ht E
    |s t txn r b txn' lm' Ht E _|s t txn Ht].
  - destruct I. split; cbn [txns locks]; try done.
    + intros t' u [[<- <-]|[_ Hu]]%lookup_insert_Some; [done|by apply li_id0].
    + intros r t' Hsh. destruct (li_shared0 _ _ Hsh) as (u & Hu & Hin).
      exists u. rewrite lookup_insert_ne; [done|]. by intros ->; simplify_eq.
    + intros r t' Hsh. destruct (li_owned0 _ _ Hsh) as (u & Hu & Hin).
      exists u. rewrite lookup_insert_ne; [done|]. by intros ->; simplify_eq.
    + intros t' u r [[<- <-]|[_ Hu]]%lookup_insert_Some Hin; [by apply elem_of_nil in Hin|by eapply li_own_set0].
    + intros t' u r [[<- <-]|[_ Hu]]%lookup_insert_Some Hin; [by apply elem_of_nil in Hin|by eapply li_share_set0].
    + intros t' u [[<- <-]|[_ Hu]]%lookup_insert_Some; [apply NoDup_nil_2|by eapply li_share_nodup0].
  - destruct (LockShared_cases _ _ _ _ _ _ E) as [(-> & -> & _)|[_ HG]];
      [by apply lock_inv_same|by eapply lock_inv_shared].
  - destruct (LockExclusive_cases _ _ _ _ _ _ E) as [(-> & -> & _)|(_ & _ & HG)];
      [by apply lock_inv_same|by eapply lock_inv_exclusive].
  - destruct (LockUpgrade_cases _ _ _ _ _ _ E) as [_ [(-> & ->)|[_ HG]]];
      [by apply lock_inv_same|by eapply lock_inv_exclusive].
  - by apply lock_inv_release.
Qed.

Lemma lock_init_inv : lock_inv lock_init.
Proof.
  split; cbn.
  - intros t txn H. by rewrite lookup_empty in H.
  - intros r arr H. by rewrite lookup_empty in H.
  - intros r t (arr & H & _). cbn in H. by rewrite lookup_empty in H.
  - intros r t H. unfold owns in H. cbn in H. by rewrite lookup_empty in H.
  - intros t txn r H. by rewrite lookup_empty in H.
  - intros t txn r H. by rewrite lookup_empty in H.
  - intros t txn H. by rewrite lookup_empty in H.
Qed.

Lemma lock_reachable_inv safe s : lock_reachable safe s → lock_inv s.
Proof.
  apply (rtc_ind_r lock_inv); [apply lock_init_inv|].
  intros s1 s2 _ HS I. by eapply lock_step_inv.
Qed.

(** ** Waiting for the others *)

(** A transaction other than [t] ends, by commit or abort. *)
Definition other_ends (t : Z) (s s' : lock_sys) : Prop :=
  ∃ u txn, u ≠ t ∧ txns s !! u = Some txn ∧ s' = MkLockSys (base.delete u (txns s)) (releaseLocks txn (locks s)).

Lemma other_ends_keeps safe t s s' : other_ends t s s' → lock_step safe s s' ∧ txns s' !! t = txns s !! t.
Proof. intros (u & txn & Hne & Hu & ->). split; [by apply step_release|]. cbn. by rewrite lookup_delete_ne. Qed.
Lemma others_end_keep safe t s s' : rtc (other_ends t) s s' → lock_reachable safe s →
  lock_reachable safe s' ∧ txns s' !! t = txns s !! t.
Proof.
  induction 1 as [|s1 s2 s3 HS _ IH]; [done|]. intros HR. destruct (other_ends_keeps safe _ _ _ HS) as [H1 H2].
  destruct IH as [IH1 IH2]; [by eapply rtc_r|]. split; [done|congruence].
Qed.
Lemma others_end_bound t k s s' : nsteps (other_ends t) k s s' → is_Some (txns s !! t) → (k < base.size (txns s))%nat.
Proof.
  induction 1 as [s|k s1 s2 s3 HS _ IH]; intros Ht.
  - destruct Ht as [txn Ht]. assert (base.size (txns s) ≠ 0%nat); [|lia]. intros HE. apply map_size_empty_inv in HE. by rewrite HE, lookup_empty in Ht.
  - destruct (other_ends_keeps true _ _ _ HS) as [_ HK]. rewrite <- HK in Ht. specialize (IH Ht).
    destruct HS as (u & txn & _ & Hu & ->). cbn in IH. rewrite map_size_delete_Some in IH by eauto. lia.
Qed.

(** With no other transaction left, every lock is granted. *)
Definition gets_shared (r : RID) (txn : Transaction) (lm : LockManager) : Prop := ∃ txn' lm', LockShared txn r lm = (true, txn', lm').
Definition gets_exclusive (r : RID) (txn : Transaction) (lm : LockManager) : Prop :=
  if IsSharedLocked txn r then ∃ txn' lm', LockUpgrade txn r lm = Ok (true, txn', lm')
  else ∃ txn' lm', LockExclusive txn r lm = (true, txn', lm').

Lemma alone_granted s t txn r : lock_inv s → txns s !! t = Some txn → (∀ u, is_Some (txns s !! u) → u = t) →
  gets_shared r txn (locks s) ∧ gets_exclusive r txn (locks s).
Proof.
  intros [I1 _ I3 I4 I5' _ _] Ht HO. pose proof (I1 _ _ Ht) as Hid.
  assert (HX : ∀ u, exclusive_lock_table (locks s) !! r = Some u → (u =? txn_id txn) = true).
  { intros u Hu. destruct (I4 r u Hu) as (txn' & Hu' & _). rewrite (HO u) by eauto. by apply Z.eqb_eq. }
  unfold gets_shared, gets_exclusive, LockShared, LockUpgrade, LockExclusive.
  destruct (exclusive_lock_table (locks s) !! r) as [u|] eqn:EX.
  - rewrite (HX u eq_refl). split; [eauto|]. destruct (IsSharedLocked txn r); eauto.
  - split.
    + destruct (shared_lock_table (locks s) !! r) as [arr|]; [destruct (isContainTxnID arr _)|]; eauto.
    + destruct (IsSharedLocked txn r) eqn:ES; [eauto|].
      destruct (shared_lock_table (locks s) !! r) as [[|u arr]|] eqn:EA; [eauto| |eauto].
      assert (HS : shares (locks s) r u) by (exists (u :: arr); split; [done|by left]).
      destruct (I3 r u HS) as (txn' & Hu & Hin). assert (u = t) as -> by (apply HO; eauto). assert (txn' = txn) as -> by congruence.
      destruct Hin as [Hin|Hin]; exfalso.
      * unfold IsSharedLocked in ES. apply isContainsRID_spec in Hin. congruence.
      * pose proof (I5' t txn r Ht Hin) as Hown. unfold owns in Hown. congruence.
Qed.

(** ** Exclusion *)
Lemma exclusion_step s s' :
  lock_inv s → exclusion (locks s) → lock_step true s s' → exclusion (locks s').
Proof.
  intros I X HS. destruct HS as [s t Ht|s t txn r b txn' lm' Ht E|s t txn r b txn' lm' Ht E
    |s t txn r b txn' lm' Ht E HSole|s t txn Ht]; cbn [locks].
  - exact X.
  - destruct (LockShared_cases _ _ _ _ _ _ E) as [(_ & -> & _)|(_ & _ & HO & _ & HO' & HS' & _)]; [done|].
    intros r' t' u Hown%HO' [Hsh|[-> ->]]%HS'; [by eapply X|]. exfalso. by eapply HO.
  - destruct (LockExclusive_cases _ _ _ _ _ _ E) as [(_ & -> & _)|(_ & HNS & -> & _)]; [done|].
    intros r' t' u [[-> ->]|[_ Hown]]%owns_set_exclusive Hsh; [|by eapply X].
    exfalso. by eapply HNS.
  - destruct (LockUpgrade_cases _ _ _ _ _ _ E) as [_ [(_ & ->)|(_ & -> & _)]]; [done|].
    intros r' t' u [[-> ->]|[_ Hown]]%owns_set_exclusive Hsh; [|by eapply X].
    destruct Hsh as (arr & Ha & Hu). rewrite (li_id _ I _ _ Ht). by eapply (HSole eq_refl).
  - intros r' t' u Hown Hsh. apply (releaseLocks_spec s t txn r' t' I Ht) in Hown as [Hown _].
    apply (releaseLocks_spec s t txn r' u I Ht) in Hsh as [Hsh _]. by eapply X.
Qed.

(** C29: in every state transactions can reach by locking, upgrading and
    releasing in any order, the lock tables and the transactions' own lock sets
    agree: whoever has a record exclusively lists it, whoever lists a record
    holds it in the table, shared holders list it among their locks, and no
    transaction is entered twice. *)
Theorem lock_tables_agree safe s : lock_reachable safe s → lock_inv s.
Proof. exact (lock_reachable_inv safe s). Qed.

(** C31: as long as upgrades happen only while nobody else shares the record,
    locks exclude in every reachable state: of a record one transaction has
    exclusively no other is a shared or an exclusive holder. *)
Theorem locks_exclude s r t t' :
  lock_reachable true s → owns (locks s) r t →
  (owns (locks s) r t' → t' = t) ∧ (shares (locks s) r t' → t' = t).
Proof.
  intros HR Hown. split; [unfold owns in *; congruence|].
  assert (H : lock_inv s ∧ exclusion (locks s)); [|by apply H].
  clear Hown. revert s HR.
  apply (rtc_ind_r (λ s, lock_inv s ∧ exclusion (locks s))).
  - split; [apply lock_init_inv|]. intros r0 t0 u H. unfold owns in H. cbn in H.
    by rewrite lookup_empty in H.
  - intros s1 s2 _ HS [I X]. split; [by eapply lock_step_inv|by eapply exclusion_step].
Qed.

(** C30: a transaction gets every lock in the end: from any reachable state, however the
    other transactions end, one after the other, they have all ended after a bounded
    number of steps, and then this one is granted any record to read and to write. *)
Theorem lock_granted_in_the_end safe s t txn r :
  lock_reachable safe s → txns s !! t = Some txn →
  (∀ k s', nsteps (other_ends t) k s s' → (k < base.size (txns s))%nat) ∧
  ∀ s', rtc (other_ends t) s s' → (∀ s'', ¬ other_ends t s' s'') →
    txns s' !! t = Some txn ∧ gets_shared r txn (locks s') ∧ gets_exclusive r txn (locks s').
Proof.
  intros HR Ht. split; [intros k s' HS; eapply others_end_bound; [exact HS|by eexists]|]. intros s' HS HN.
  destruct (others_end_keep safe t s s' HS HR) as [HR' Ht']. rewrite Ht in Ht'. split; [done|].
  apply (alone_granted s' t txn r (lock_reachable_inv _ _ HR') Ht'). intros u [txn' Hu].
  destruct (decide (u = t)) as [->|Hne]; [done|]. exfalso. eapply HN. by exists u, txn'.
Qed.

(** Releasing a transaction's locks, in any reachable state, frees every
    record it held, shared or exclusive, and takes no lock from anyone else. *)
Theorem release_frees_all safe s t txn :
  lock_reachable safe s → txns s !! t = Some txn →
  ∀ r, (¬ owns (releaseLocks txn (locks s)) r t) ∧ (¬ shares (releaseLocks txn (locks s)) r t) ∧
    ∀ t', t' ≠ t →
      (owns (releaseLocks txn (locks s)) r t' ↔ owns (locks s) r t') ∧
      (shares (releaseLocks txn (locks s)) r t' ↔ shares (locks s) r t').
Proof.
  intros HR Ht r. pose proof (lock_reachable_inv _ _ HR) as I.
  pose proof (λ u, releaseLocks_spec s t txn r u I Ht) as HS.
  split; [intros H%HS; naive_solver|]. split; [intros H%HS; naive_solver|].
  intros t' Hne. destruct (HS t') as (O & S & _). rewrite O, S. naive_solver.
Qed.

(** [LockUpgrade] does not look at the other shared holders: two
    transactions share a record, one of them upgrades, and is granted the
    record exclusively while the other still shares it. *)
Theorem upgrade_breaks_exclusion r :
  ∃ s, lock_reachable false s ∧ owns (locks s) r 1 ∧ shares (locks s) r 2.
Proof.
  set (t1 := SetSharedLockSet [r] (NewTransaction 1)).
  set (t2 := SetSharedLockSet [r] (NewTransaction 2)).
  set (t1' := SetSharedLockSet [] (SetExclusiveLockSet [r] t1)).
  set (m0 := <[2 := NewTransaction 2]> (<[1 := NewTransaction 1]> ∅) : gmap Z Transaction).
  set (m1 := <[1 := t1]> m0). set (m2 := <[2 := t2]> m1). set (m3 := <[1 := t1']> m2).
  set (l1 := set_shared r [1] NewLockManager). set (l2 := set_shared r [1; 2] l1).
  set (l3 := set_exclusive r 1 l2).
  assert (ES1 : shared_lock_table l1 !! r = Some [1]) by apply lookup_insert_eq.
  assert (ES2 : shared_lock_table l2 !! r = Some [1; 2]) by apply lookup_insert_eq.
  exists (MkLockSys m3 l3). split; [|split].
  - eapply rtc_l; [by apply (step_begin _ lock_init 1)|].
    eapply rtc_l; [by apply (step_begin _ _ 2)|]. cbn [txns locks lock_init]. fold m0.
    eapply rtc_l; [apply (step_shared _ _ 1 (NewTransaction 1) r true t1 l1); [done|]|].
    { unfold LockShared. cbn. by rewrite !lookup_empty. }
    cbn [txns]. fold m1.
    eapply rtc_l; [apply (step_shared _ _ 2 (NewTransaction 2) r true t2 l2); [done|]|].
    { unfold LockShared. cbn [locks]. rewrite ES1. cbn. by rewrite lookup_empty. }
    cbn [txns]. fold m2.
    eapply rtc_l; [apply (step_upgrade _ _ 1 t1 r true t1' l3); [done| |done]|apply rtc_refl].
    unfold LockUpgrade, IsSharedLocked. cbn. rewrite !decide_True by done.
    by rewrite lookup_empty.
  - apply lookup_insert_eq.
  - exists [1; 2]. split; [exact ES2|]. right. by left.
Qed.

(** ** Witnesses *)
Definition example_locks : lock_sys :=
  let r := MkRID 0 0 in
  MkLockSys {[1 := SetExclusiveLockSet [r] (NewTransaction 1)]} (set_exclusive r 1 NewLockManager).

Lemma example_locks_reachable safe : lock_reachable safe example_locks.
Proof.
  eapply rtc_l; [by apply (step_begin _ lock_init 1)|].
  eapply rtc_l; [by eapply (step_exclusive _ _ 1 (NewTransaction 1) (MkRID 0 0))|].
  cbn. unfold example_locks. cbn. by rewrite insert_insert_eq.
Qed.

Lemma lock_tables_agree_witness :
  lock_reachable false example_locks ∧ owns (locks example_locks) (MkRID 0 0) 1.
Proof.
  pose proof (lock_tables_agree false example_locks (example_locks_reachable false)) as I.
  split; [exact (example_locks_reachable false)|].
  exact (li_own_set _ I 1 _ (MkRID 0 0) eq_refl (list_elem_of_here _ _)).
Defined.

(** Transaction 1 has the record; transaction 2 gets it once 1 has ended. *)
Lemma lock_granted_in_the_end_witness : let r := MkRID 0 0 in
  let s := MkLockSys (<[2 := NewTransaction 2]> (txns example_locks)) (locks example_locks) in
  fst (fst (LockExclusive (NewTransaction 2) r (locks s))) = false ∧
  ∃ s', rtc (other_ends 2) s s' ∧ gets_exclusive r (NewTransaction 2) (locks s').
Proof.
  intros r s. split; [reflexivity|].
  assert (HR : lock_reachable false s) by (eapply rtc_r; [apply (example_locks_reachable false)|by apply step_begin]).
  set (t1 := SetExclusiveLockSet [r] (NewTransaction 1)).
  set (s' := MkLockSys (base.delete 1 (txns s)) (releaseLocks t1 (locks s))).
  assert (HS : rtc (other_ends 2) s s') by (apply rtc_once; exists 1, t1; by repeat (split; [done|])).
  exists s'. split; [exact HS|].
  destruct (lock_granted_in_the_end false s 2 (NewTransaction 2) r HR eq_refl) as [_ HG]. apply (HG s' HS).
  intros s'' (u & txn & Hne & Hu & _). change (txns s') with (base.delete 1 (txns s)) in Hu.
  apply lookup_delete_Some in Hu as [H1 Hu]. 
  change (txns s) with (<[2 := NewTransaction 2]> ({[1 := t1]} : gmap Z Transaction)) in Hu.
  rewrite lookup_insert_ne, lookup_singleton_ne in Hu by congruence. done.
Defined.

Lemma locks_exclude_witness :
  owns (locks example_locks) (MkRID 0 0) 1 ∧
  (shares (locks example_locks) (MkRID 0 0) 2 → 2 = 1).
Proof.
  split; [reflexivity|].
  apply (locks_exclude example_locks (MkRID 0 0) 1 2 (example_locks_reachable true) eq_refl).
Defined.

Lemma release_frees_all_witness :
  ¬ owns (releaseLocks (SetExclusiveLockSet [MkRID 0 0] (NewTransaction 1)) (locks example_locks))
      (MkRID 0 0) 1.
Proof.
  apply (release_frees_all false example_locks 1 _ (example_locks_reachable false) eq_refl).
Defined.
