(* ===== verification/TablePage.v ===== *)
(** * Table pages ([storage/access/table_page.go])

    A slotted page over the 4096 bytes of a page object: a 24-byte header (page
    id, LSN, previous and next page id, free space pointer, tuple count), eight
    bytes per slot (offset and size of its tuple; the top bit of the size marks
    a deleted tuple, size 0 an empty slot), and the tuples, which grow down from
    the end of the page.

    An operation runs on the page object, the transaction and the lock and log
    managers its caller passes, any of which may be nil; [EnableLogging] is the
    global switch of [common/config.go].  Every field access goes through the
    slice expression of the code, with its 32-bit arithmetic. *)

From S2P Require Import Prelude Bytes Types Tuples Disk LogRecord LogManager LockManager Page.

Definition deleteMask : Z := 2 ^ 31.
Definition sizeTablePageHeader : Z := 24.
Definition sizeTuple : Z := 8.
Definition offSetPrevPageId : Z := 8.
Definition offSetNextPageId : Z := 12.
Definition offsetFreeSpace : Z := 16.
Definition offSetTupleCount : Z := 20.
Definition offsetTupleOffset : Z := 24.
Definition offsetTupleSize : Z := 28.

Inductive tp_error : Type :=
| ErrEmptyTuple | ErrNotEnoughSpace | ErrNoFreeSlot | ErrLockNewTuple.

#[global] Instance tp_error_eq_dec : EqDecision tp_error.
Proof. solve_decision. Defined.

(** ** Deleted flag *)
Definition IsDeleted (tuple_size : Z) : bool :=
  (Z.land tuple_size deleteMask =? deleteMask) || (tuple_size =? 0).
Definition SetDeletedFlag (tuple_size : Z) : Z := Z.lor tuple_size deleteMask.
Definition UnsetDeletedFlag (tuple_size : Z) : Z := Z.ldiff tuple_size deleteMask.

(** ** Fields of the page, on its bytes *)
Definition get_u32 (off : Z) (d : list byte) : res Z :=
  s ← slice_from d off; Ok (NewUInt32FromBytes s).
Definition put_bytes (off : Z) (bs d : list byte) : res (list byte) := go_copy d off bs.
Definition put_u32 (off z : Z) : list byte → res (list byte) := put_bytes off (UInt32_Serialize z).

Definition GetTablePageId (d : list byte) : Z := NewPageIDFromBytes d.
Definition GetNextPageId (d : list byte) : res Z :=
  s ← slice_from d offSetNextPageId; Ok (NewPageIDFromBytes s).
Definition GetTupleCount : list byte → res Z := get_u32 offSetTupleCount.
Definition GetFreeSpacePointer : list byte → res Z := get_u32 offsetFreeSpace.
Definition GetTupleOffsetAtSlot (slot_num : Z) : list byte → res Z :=
  get_u32 (u32 (offsetTupleOffset + u32 (sizeTuple * slot_num))).
Definition GetTupleSize (slot_num : Z) : list byte → res Z :=
  get_u32 (u32 (offsetTupleSize + u32 (sizeTuple * slot_num))).
Definition getFreeSpaceRemaining (d : list byte) : res Z :=
  fsp ← GetFreeSpacePointer d;
  n ← GetTupleCount d;
  Ok (u32 (u32 (fsp - sizeTablePageHeader) - u32 (sizeTuple * n))).

Definition SetPageId (pageId : Z) : list byte → res (list byte) := put_bytes 0 (PageID_Serialize pageId).
Definition SetPrevPageId (pageId : Z) : list byte → res (list byte) :=
  put_bytes offSetPrevPageId (PageID_Serialize pageId).
Definition SetNextPageId (pageId : Z) : list byte → res (list byte) :=
  put_bytes offSetNextPageId (PageID_Serialize pageId).
Definition SetFreeSpacePointer (p : Z) : list byte → res (list byte) := put_u32 offsetFreeSpace p.
Definition SetTupleCount (n : Z) : list byte → res (list byte) := put_u32 offSetTupleCount n.
Definition SetTupleOffsetAtSlot (slot_num offset : Z) : list byte → res (list byte) :=
  put_u32 (u32 (offsetTupleOffset + u32 (sizeTuple * slot_num))) offset.
Definition SetTupleSize (slot_num size : Z) : list byte → res (list byte) :=
  put_u32 (u32 (offsetTupleSize + u32 (sizeTuple * slot_num))) size.

Definition setTuple (slot : Z) (t : Tuple) (d : list byte) : res (list byte) :=
  fsp ← GetFreeSpacePointer d;
  d1 ← put_bytes fsp (data t) d;
  d2 ← put_u32 (u32 (offsetTupleOffset + u32 (sizeTuple * slot))) fsp d1;
  put_u32 (u32 (offsetTupleSize + u32 (sizeTuple * slot))) (size t) d2.

(** The search for a free slot: the first slot of size 0, or the tuple count. *)
Fixpoint find_slot (fuel : nat) (slot : Z) (d : list byte) : res Z :=
  n ← GetTupleCount d;
  if slot <? n then
    sz ← GetTupleSize slot d;
    if sz =? 0 then Ok slot
    else match fuel with
         | O => OutOfFuel
         | S fuel' => find_slot fuel' (slot + 1) d
         end
  else Ok slot.
(** A page has fewer slots than bytes. *)
Definition slot_fuel : nat := Z.to_nat PageSize.

(** The first slot from [ii] on whose size is not 0. *)
Fixpoint next_slot (fuel : nat) (ii tupleCount : Z) (d : list byte) : res (option RID) :=
  if ii <? tupleCount then
    sz ← GetTupleSize ii d;
    if 0 <? sz then Ok (Some (MkRID (GetTablePageId d) ii))
    else match fuel with
         | O => OutOfFuel
         | S fuel' => next_slot fuel' (ii + 1) tupleCount d
         end
  else Ok None.

Definition GetTupleFirstRID (d : list byte) : res (option RID) :=
  n ← GetTupleCount d; next_slot slot_fuel 0 n d.
Definition GetNextTupleRID (curRID : RID) (isNextPage : bool) (d : list byte) : res (option RID) :=
  n ← GetTupleCount d;
  next_slot slot_fuel (if isNextPage then 0 else u32 (SlotNum curRID + 1)) n d.

(** The loop that moves the offsets of the tuples below [bound] by [delta]
    (32-bit), over the slots whose size is not 0. *)
Definition shift_step (bound delta : Z) (d : list byte) (ii : nat) : res (list byte) :=
  off ← GetTupleOffsetAtSlot (Z.of_nat ii) d;
  sz ← GetTupleSize (Z.of_nat ii) d;
  if (0 <? sz) && (off <? bound)
  then SetTupleOffsetAtSlot (Z.of_nat ii) (u32 (off + delta)) d
  else Ok d.
Definition shift_offsets (bound delta : Z) (d : list byte) : res (list byte) :=
  n ← GetTupleCount d; res_foldl (shift_step bound delta) (seq 0 (Z.to_nat n)) d.

(** ** The state of an operation *)
Record TPState : Type := MkTPState {
  EnableLogging : bool;
  tpage : Page;
  ttxn : option Transaction;
  tlocks : option LockManager;
  tlog : option log_state
}.

Definition set_tpage (p : Page) (s : TPState) : TPState :=
  MkTPState (EnableLogging s) p (ttxn s) (tlocks s) (tlog s).
Definition set_ttxn (t : Transaction) (s : TPState) : TPState :=
  MkTPState (EnableLogging s) (tpage s) (Some t) (tlocks s) (tlog s).
Definition set_tlocks (l : LockManager) (s : TPState) : TPState :=
  MkTPState (EnableLogging s) (tpage s) (ttxn s) (Some l) (tlog s).
Definition set_tlog (l : log_state) (s : TPState) : TPState :=
  MkTPState (EnableLogging s) (tpage s) (ttxn s) (tlocks s) (Some l).

(** Reading and changing the bytes. *)
Definition tp_read {A} (f : list byte → res A) : st TPState A := λ s,
  a ← f (pdata (tpage s)); Ok (a, s).
Definition tp_write (f : list byte → res (list byte)) : st TPState unit := λ s,
  d ← f (pdata (tpage s)); Ok (tt, set_tpage (set_pdata d (tpage s)) s).

(** The transaction, the lock manager: nil panics. *)
Definition tp_txn : st TPState Transaction := λ s, t ← deref (ttxn s); Ok (t, s).
Definition tp_set_state (x : TransactionState) : st TPState unit := λ s,
  t ← deref (ttxn s); Ok (tt, set_ttxn (SetState x t) s).
(** [if common.EnableLogging { txn.SetState(ABORTED) }] *)
Definition abort_if_logging : st TPState unit := λ s,
  if EnableLogging s then tp_set_state ABORTED s else Ok (tt, s).

Definition tp_lock (f : Transaction → LockManager → res (bool * Transaction * LockManager)) :
    st TPState bool := λ s,
  lm ← deref (tlocks s);
  t ← deref (ttxn s);
  p ← f t lm;
  let '(b, t', lm') := p in
  Ok (b, set_tlocks lm' (set_ttxn t' s)).
Definition tp_LockExclusive (r : RID) : st TPState bool :=
  tp_lock (λ t lm, Ok (LockExclusive t r lm)).
Definition tp_LockShared (r : RID) : st TPState bool := tp_lock (λ t lm, Ok (LockShared t r lm)).
Definition tp_LockUpgrade (r : RID) : st TPState bool := tp_lock (λ t lm, LockUpgrade t r lm).

(** Upgrading a shared lock or acquiring an exclusive one, unless it is held:
    the condition [UpdateTuple] and [MarkDelete] share. *)
Definition lock_for_write (r : RID) : st TPState bool :=
  t ← tp_txn;
  if IsSharedLocked t r then tp_LockUpgrade r
  else if IsExclusiveLocked t r then mret true
  else tp_LockExclusive r.

(** Append a record made for the transaction, stamp the page with its LSN and
    make it the transaction's last. *)
Definition log_record_for (mk : Z → Z → LogRecord) : st TPState unit := λ s,
  t ← deref (ttxn s);
  l ← deref (tlog s);
  p ← AppendLogRecord (mk (txn_id t) (prev_lsn t)) l;
  let '((lsn, _), l') := p in
  Ok (tt, set_ttxn (SetPrevLSN lsn t) (set_tpage (SetLSN lsn (tpage s)) (set_tlog l' s))).

(** ** Operations *)
(** The result, and the caller's tuple, which gets the new RID. *)
Definition InsertTuple (tuple : Tuple) : st TPState ((tp_error + RID) * Tuple) :=
  if size tuple =? 0 then mret (inl ErrEmptyTuple, tuple)
  else
    free ← tp_read getFreeSpaceRemaining;
    if free <? u32 (size tuple + sizeTuple) then mret (inl ErrNotEnoughSpace, tuple)
    else
      slot ← tp_read (find_slot slot_fuel 0);
      n ← tp_read GetTupleCount;
      free1 ← tp_read getFreeSpaceRemaining;
      if (n =? slot) && (free1 <? u32 (size tuple + sizeTuple))
      then mret (inl ErrNoFreeSlot, tuple)
      else
        s ← st_get;
        let rid := MkRID (GetTablePageId (pdata (tpage s))) slot in
        locked ← (if EnableLogging s then tp_LockExclusive rid else mret true);
        if negb locked then _ ← tp_set_state ABORTED; mret (inl ErrLockNewTuple, tuple)
        else
          let tuple' := SetRID rid tuple in
          fsp ← tp_read GetFreeSpacePointer;
          _ ← tp_write (SetFreeSpacePointer (u32 (fsp - size tuple)));
          _ ← tp_write (setTuple slot tuple');
          n1 ← tp_read GetTupleCount;
          _ ← (if slot =? n1 then tp_write (SetTupleCount (u32 (n1 + 1))) else mret tt);
          _ ← (if EnableLogging s
               then log_record_for (λ t l, NewLogRecordInsertDelete t l INSERT rid tuple')
               else mret tt);
          mret (inr rid, tuple').

(** The tuple an update of some columns writes. *)
Fixpoint merge_values (new_tuple old_tuple : Tuple) (schema : Schema) (idxs : list Z)
    (idx : Z) (n : nat) : res (list Value) :=
  match n with
  | O => Ok []
  | S n' =>
      let matched := match idxs with i :: _ => idx =? i | [] => false end in
      v ← GetValue (if matched then new_tuple else old_tuple) schema idx;
      vs ← merge_values new_tuple old_tuple schema (if matched then tl idxs else idxs) (idx + 1) n';
      Ok (v :: vs)
  end.
Definition make_update_tuple (new_tuple old_tuple : Tuple) (update_col_idxs : option (list Z))
    (schema_ : option Schema) : res Tuple :=
  match update_col_idxs, schema_ with
  | Some idxs, Some sc =>
      vs ← merge_values new_tuple old_tuple sc idxs 0 (length (columns sc));
      NewTupleFromSchema vs sc
  | _, _ => Ok new_tuple
  end.

(** Replacing the [tuple_size] bytes of a tuple at [tuple_offset]. *)
Definition replace_tuple (slot_num tuple_offset tuple_size : Z) (t : Tuple) (d : list byte) :
    res (list byte) :=
  fsp ← GetFreeSpacePointer d;
  _ ← guard_res (fsp <=? tuple_offset);
  moved ← slice d fsp tuple_offset;
  d1 ← put_bytes (u32 (u32 (fsp + tuple_size) - size t)) moved d;
  d2 ← SetFreeSpacePointer (u32 (u32 (fsp + tuple_size) - size t)) d1;
  bs ← slice (data t) 0 (size t);
  d3 ← put_bytes (u32 (u32 (tuple_offset + tuple_size) - size t)) bs d2;
  d4 ← SetTupleSize slot_num (size t) d3;
  shift_offsets (u32 (tuple_offset + tuple_size)) (u32 (tuple_size - size t)) d4.

(** The results: the flag, the error, the tuple to insert elsewhere, and the
    caller's [old_tuple], which gets the old value. *)
Definition UpdateTuple (new_tuple : Tuple) (update_col_idxs : option (list Z))
    (schema_ : option Schema) (old_tuple : Tuple) (rid : RID) :
    st TPState (bool * option tp_error * option Tuple * Tuple) :=
  _ ← st_lift (guard_res (0 <? size new_tuple));
  let slot_num := SlotNum rid in
  n ← tp_read GetTupleCount;
  if n <=? slot_num then _ ← abort_if_logging; mret (false, None, None, old_tuple)
  else
    tuple_size ← tp_read (GetTupleSize slot_num);
    if IsDeleted tuple_size then _ ← abort_if_logging; mret (false, None, None, old_tuple)
    else
      tuple_offset ← tp_read (GetTupleOffsetAtSlot slot_num);
      old_data ← tp_read (λ d, slice d tuple_offset (u32 (tuple_offset + tuple_size)));
      let old' := MkTuple (Some rid) tuple_size old_data in
      update_tuple ← st_lift (make_update_tuple new_tuple old' update_col_idxs schema_);
      free ← tp_read getFreeSpaceRemaining;
      if u32 (free + tuple_size) <? size update_tuple
      then mret (false, Some ErrNotEnoughSpace, Some update_tuple, old')
      else
        s ← st_get;
        locked ← (if EnableLogging s then lock_for_write rid else mret true);
        if negb locked then _ ← tp_set_state ABORTED; mret (false, None, None, old')
        else
          _ ← (if EnableLogging s
               then log_record_for (λ t l, NewLogRecordUpdate t l UPDATE rid old' update_tuple)
               else mret tt);
          _ ← tp_write (replace_tuple slot_num tuple_offset tuple_size update_tuple);
          mret (true, None, None, old').

Definition MarkDelete (rid : RID) : st TPState bool :=
  let slot_num := SlotNum rid in
  n ← tp_read GetTupleCount;
  if n <=? slot_num then _ ← abort_if_logging; mret false
  else
    tuple_size ← tp_read (GetTupleSize slot_num);
    if IsDeleted tuple_size then _ ← abort_if_logging; mret false
    else
      s ← st_get;
      locked ← (if EnableLogging s then lock_for_write rid else mret true);
      if negb locked then _ ← tp_set_state ABORTED; mret false
      else
        _ ← (if EnableLogging s
             then log_record_for (λ t l, NewLogRecordInsertDelete t l MARKDELETE rid ZeroTuple)
             else mret tt);
        _ ← (if 0 <? tuple_size then tp_write (SetTupleSize slot_num (SetDeletedFlag tuple_size))
             else mret tt);
        mret true.

(** [SH_Assert(txn.IsExclusiveLocked(rid), ...)] *)
Definition assert_exclusive (rid : RID) : st TPState unit :=
  t ← tp_txn; st_lift (guard_res (IsExclusiveLocked t rid)).

(** Removing the bytes of a tuple. *)
Definition remove_tuple (slot_num tuple_offset tuple_size : Z) (d : list byte) : res (list byte) :=
  fsp ← GetFreeSpacePointer d;
  _ ← guard_res (fsp <=? tuple_offset);
  moved ← slice d fsp tuple_offset;
  d1 ← put_bytes (u32 (fsp + tuple_size)) moved d;
  d2 ← SetFreeSpacePointer (u32 (fsp + tuple_size)) d1;
  d3 ← SetTupleSize slot_num 0 d2;
  d4 ← SetTupleOffsetAtSlot slot_num 0 d3;
  shift_offsets tuple_offset tuple_size d4.

Definition ApplyDelete (rid : RID) : st TPState unit :=
  let slot_num := SlotNum rid in
  n ← tp_read GetTupleCount;
  _ ← st_lift (guard_res (slot_num <? n));
  tuple_offset ← tp_read (GetTupleOffsetAtSlot slot_num);
  tuple_size0 ← tp_read (GetTupleSize slot_num);
  let tuple_size := if IsDeleted tuple_size0 then UnsetDeletedFlag tuple_size0 else tuple_size0 in
  bs ← tp_read (λ d, slice d tuple_offset (u32 (tuple_offset + tuple_size)));
  let delete_tuple := MkTuple (Some rid) tuple_size bs in
  s ← st_get;
  _ ← (if EnableLogging s then
         _ ← assert_exclusive rid;
         log_record_for (λ t l, NewLogRecordInsertDelete t l APPLYDELETE rid delete_tuple)
       else mret tt);
  tp_write (remove_tuple slot_num tuple_offset tuple_size).

Definition RollbackDelete (rid : RID) : st TPState unit :=
  s ← st_get;
  _ ← (if EnableLogging s then
         _ ← assert_exclusive rid;
         log_record_for (λ t l, NewLogRecordInsertDelete t l ROLLBACKDELETE rid ZeroTuple)
       else mret tt);
  let slot_num := SlotNum rid in
  n ← tp_read GetTupleCount;
  _ ← st_lift (guard_res (slot_num <? n));
  tuple_size ← tp_read (GetTupleSize slot_num);
  if IsDeleted tuple_size
  then tp_write (SetTupleSize slot_num (UnsetDeletedFlag tuple_size))
  else mret tt.

Definition Init (pageId prevPageId : Z) : st TPState unit :=
  s ← st_get;
  _ ← (if EnableLogging s
       then log_record_for (λ t l, NewLogRecordNewPage t l NEWPAGE prevPageId)
       else mret tt);
  _ ← tp_write (SetPageId pageId);
  _ ← tp_write (SetPrevPageId prevPageId);
  _ ← tp_write (SetNextPageId InvalidPageID);
  _ ← tp_write (SetTupleCount 0);
  tp_write (SetFreeSpacePointer PageSize).

Definition GetTuple (rid : RID) : st TPState (option Tuple) :=
  n ← tp_read GetTupleCount;
  if n <=? SlotNum rid then _ ← abort_if_logging; mret None
  else
    let slot := SlotNum rid in
    tupleOffset ← tp_read (GetTupleOffsetAtSlot slot);
    tupleSize ← tp_read (GetTupleSize slot);
    if IsDeleted tupleSize then _ ← abort_if_logging; mret None
    else
      s ← st_get;
      locked ← (if EnableLogging s then
                  t ← tp_txn;
                  if IsSharedLocked t rid then mret true
                  else if IsExclusiveLocked t rid then mret true
                  else tp_LockShared rid
                else mret true);
      if negb locked then _ ← tp_set_state ABORTED; mret None
      else
        src ← tp_read (λ d, slice_from d tupleOffset);
        let tupleData := overwrite 0 src (replicate (Z.to_nat tupleSize) Byte.x00) in
        mret (Some (MkTuple (Some rid) tupleSize tupleData)).

(** ** The fields of a page *)
Definition cnt (d : list byte) : Z := zfield offSetTupleCount d.
Definition fsp (d : list byte) : Z := zfield offsetFreeSpace d.
Definition soff (i : Z) (d : list byte) : Z := zfield (offsetTupleOffset + sizeTuple * i) d.
Definition ssz (i : Z) (d : list byte) : Z := zfield (offsetTupleSize + sizeTuple * i) d.
(** The size of a slot without its deleted flag. *)
Definition slen (i : Z) (d : list byte) : Z := ssz i d mod 2 ^ 31.

(** ** The contents of a page

    A slot is empty, or holds the bytes of a tuple and whether it is marked
    deleted. *)
Definition tuple_at (i : Z) (d : list byte) : option (bool * list byte) :=
  if ssz i d =? 0 then None
  else Some (2 ^ 31 <=? ssz i d, zregion (soff i d) (slen i d) d).
Definition contents (d : list byte) : list (option (bool * list byte)) :=
  (λ i, tuple_at i d) <$> seqZ 0 (cnt d).

Definition weight (o : option (bool * list byte)) : nat :=
  match o with Some (_, bs) => length bs | None => 0%nat end.
Definition total (ls : list (option (bool * list byte))) : Z :=
  Z.of_nat (sum_list_with weight ls).

(** The room between the slots and the tuples. *)
Definition free_space (ls : list (option (bool * list byte))) : Z :=
  PageSize - sizeTablePageHeader - sizeTuple * Z.of_nat (length ls) - total ls.

(** The tuples lie after the slots, apart from each other, and fill the page
    from the free space pointer on. *)
Record page_wf (d : list byte) : Prop := {
  pw_len : zlen d = PageSize;
  pw_cnt : sizeTablePageHeader + sizeTuple * cnt d ≤ fsp d;
  pw_slot : ∀ i, 0 ≤ i < cnt d → ssz i d ≠ 0 →
    0 < slen i d ∧ fsp d ≤ soff i d ∧ soff i d + slen i d ≤ PageSize;
  pw_disj : ∀ i j, 0 ≤ i < cnt d → 0 ≤ j < cnt d → i ≠ j → ssz i d ≠ 0 → ssz j d ≠ 0 →
    soff i d + slen i d ≤ soff j d ∨ soff j d + slen j d ≤ soff i d;
  pw_total : fsp d + total (contents d) = PageSize
}.

(** Writing slot [k], the next one or an existing one. *)
Definition put_slot (k : nat) (x : option (bool * list byte))
    (ls : list (option (bool * list byte))) : list (option (bool * list byte)) :=
  if (k <? length ls)%nat then <[k := x]> ls else ls ++ [x].

(** The slot an insert takes. *)
Fixpoint free_slot (ls : list (option (bool * list byte))) : nat :=
  match ls with
  | [] => 0%nat
  | None :: _ => 0%nat
  | Some _ :: ls' => S (free_slot ls')
  end.

(** The first occupied slot, marked deleted or not. *)
Fixpoint first_occupied (ls : list (option (bool * list byte))) : option nat :=
  match ls with
  | [] => None
  | Some _ :: _ => Some 0%nat
  | None :: ls' => S <$> first_occupied ls'
  end.

(** Constants in arithmetic goals. *)
Ltac zsolve := unfold zlen, in_u32, sizeTablePageHeader, sizeTuple, offSetPrevPageId, offSetNextPageId,
  offsetFreeSpace, offSetTupleCount, offsetTupleOffset, offsetTupleSize, PageSize, OffsetLSN in *; lia.

Lemma zlen_le z : zlen (le_bytes 4 z) = 4.
Proof. reflexivity. Qed.

Lemma put_bytes_run o bs d : 0 ≤ o ≤ zlen d → put_bytes o bs d = Ok (zput o bs d).
Proof. intros H. apply go_copy_Ok. exact H. Qed.

Lemma put_u32_run o z d : 0 ≤ o ≤ zlen d → put_u32 o z d = Ok (zput o (le_bytes 4 (u32 z)) d).
Proof. apply put_bytes_run. Qed.

Lemma get_u32_run o d : 0 ≤ o ≤ zlen d → get_u32 o d = Ok (zfield o d).
Proof. intros H. unfold get_u32. by rewrite slice_from_Ok by exact H. Qed.

Lemma zfield_range o d : in_u32 (zfield o d).
Proof. apply field_range. Qed.
#[export] Hint Resolve zfield_range : samehada.

Lemma u32_u32 z : u32 (u32 z) = u32 z.
Proof. apply Z.mod_mod. lia. Qed.

(** ** Contents and totals *)
Lemma total_app l1 l2 : total (l1 ++ l2) = total l1 + total l2.
Proof. unfold total. rewrite sum_list_with_app. lia. Qed.

Lemma total_single x : total [x] = Z.of_nat (weight x).
Proof. unfold total. simpl. lia. Qed.

Lemma total_insert ls k x y :
  ls !! k = Some y → total (<[k := x]> ls) = total ls + Z.of_nat (weight x) - Z.of_nat (weight y).
Proof.
  intros H. pose proof (lookup_lt_Some _ _ _ H) as HL.
  assert (E : ∀ z, total (take k ls ++ z :: drop (S k) ls) =
                total (take k ls) + Z.of_nat (weight z) + total (drop (S k) ls)).
  { intros z. rewrite total_app. unfold total. simpl. lia. }
  rewrite insert_take_drop, E by done.
  pose proof (E y) as E'. rewrite take_drop_middle in E' by done. lia.
Qed.

Lemma total_put_slot ls k x :
  (k ≤ length ls)%nat →
  total (put_slot k x ls) = total ls + Z.of_nat (weight x) - Z.of_nat (weight (default None (ls !! k))).
Proof.
  intros H. unfold put_slot. destruct (Nat.ltb_spec k (length ls)) as [Hlt|Hge].
  - destruct (lookup_lt_is_Some_2 _ _ Hlt) as [y E]. rewrite E. by apply total_insert.
  - rewrite total_app, total_single, lookup_ge_None_2 by lia. simpl. lia.
Qed.

Lemma length_put_slot ls k x :
  (k ≤ length ls)%nat → length (put_slot k x ls) = Nat.max (length ls) (k + 1).
Proof.
  intros H. unfold put_slot. destruct (Nat.ltb_spec k (length ls)).
  - rewrite length_insert. lia.
  - rewrite length_app. simpl. lia.
Qed.

Lemma cnt_range d : 0 ≤ cnt d.
Proof. apply zfield_range. Qed.
#[export] Hint Resolve cnt_range : samehada.

Lemma contents_length d : Z.of_nat (length (contents d)) = cnt d.
Proof.
  unfold contents. rewrite length_fmap, length_seqZ. pose proof (cnt_range d). lia.
Qed.

Lemma contents_lookup d k :
  contents d !! k = if decide (Z.of_nat k < cnt d) then Some (tuple_at (Z.of_nat k) d) else None.
Proof.
  unfold contents. rewrite list_lookup_fmap. case_decide.
  - by rewrite lookup_seqZ_lt by lia.
  - rewrite lookup_seqZ_ge; [done|]. lia.
Qed.

Lemma contents_lookup_Z d i :
  0 ≤ i < cnt d → contents d !! Z.to_nat i = Some (tuple_at i d).
Proof. intros H. rewrite contents_lookup, decide_True, Z2Nat.id by lia. done. Qed.

Lemma put_slot_lookup ls k x j :
  (k ≤ length ls)%nat → put_slot k x ls !! j = if decide (j = k) then Some x else ls !! j.
Proof.
  intros H. unfold put_slot. destruct (Nat.ltb_spec k (length ls)); case_decide as E; subst.
  - by rewrite list_lookup_insert_eq.
  - by rewrite list_lookup_insert_ne.
  - rewrite lookup_app_r by lia. by replace (k - length ls)%nat with 0%nat by lia.
  - destruct (decide (j < length ls)%nat); [by rewrite lookup_app_l|].
    rewrite !lookup_ge_None_2; [done|lia|rewrite length_app; simpl; lia].
Qed.

(** A page whose slots other than [k] have not changed. *)
Lemma contents_put d d' k :
  0 ≤ k ≤ cnt d → cnt d' = Z.max (cnt d) (k + 1) →
  (∀ i, 0 ≤ i < cnt d → i ≠ k → tuple_at i d' = tuple_at i d) →
  contents d' = put_slot (Z.to_nat k) (tuple_at k d') (contents d).
Proof.
  intros Hk Hc H. pose proof (contents_length d). apply list_eq. intros j.
  rewrite put_slot_lookup by lia. rewrite !contents_lookup.
  repeat case_decide; try lia; subst.
  - by rewrite Z2Nat.id by lia.
  - f_equal. apply H; lia.
  - done.
Qed.

Lemma contents_same d d' :
  cnt d' = cnt d → (∀ i, 0 ≤ i < cnt d → tuple_at i d' = tuple_at i d) → contents d' = contents d.
Proof.
  intros Hc H. unfold contents. rewrite Hc. apply list_fmap_ext. intros j i Hi.
  apply lookup_seqZ in Hi. apply H. lia.
Qed.

Lemma slen_range i d : 0 ≤ slen i d < 2 ^ 31.
Proof. apply Z.mod_pos_bound. lia. Qed.

Lemma weight_tuple_at i d :
  0 ≤ soff i d → soff i d + slen i d ≤ zlen d →
  Z.of_nat (weight (tuple_at i d)) = if ssz i d =? 0 then 0 else slen i d.
Proof.
  intros. unfold tuple_at. destruct (ssz i d =? 0); [done|]. unfold weight.
  pose proof (slen_range i d). fold (zlen (zregion (soff i d) (slen i d) d)).
  apply zlen_region; lia.
Qed.

Lemma weight_slot d i :
  page_wf d → 0 ≤ i < cnt d → Z.of_nat (weight (tuple_at i d)) = if ssz i d =? 0 then 0 else slen i d.
Proof.
  intros W Hi. destruct (Z.eqb_spec (ssz i d) 0) as [E|E].
  - unfold tuple_at. by rewrite E.
  - destruct (pw_slot d W i Hi E) as (H1 & H2 & H3). pose proof (pw_len d W).
    rewrite weight_tuple_at by (rewrite ?pw_len by done; pose proof (zfield_range offsetFreeSpace d);
      unfold fsp, in_u32 in *; lia).
    by apply Z.eqb_neq in E as ->.
Qed.

Lemma fsp_free d : page_wf d → fsp d - sizeTablePageHeader - sizeTuple * cnt d = free_space (contents d).
Proof.
  intros W. unfold free_space. rewrite contents_length. pose proof (pw_total d W). lia.
Qed.

(** The arithmetic facts of a well-formed page. *)
Ltac page_facts d W :=
  pose proof (pw_len d W); pose proof (pw_cnt d W); pose proof (pw_total d W);
  pose proof (cnt_range d); pose proof (zfield_range offsetFreeSpace d);
  assert (0 ≤ total (contents d)) by (unfold total; lia).

(** Two pages that agree from the free space pointer on and on their slots. *)
Lemma page_ext d d' :
  page_wf d → zlen d' = PageSize → cnt d' = cnt d → fsp d' = fsp d →
  (∀ i, 0 ≤ i < cnt d → soff i d' = soff i d ∧ ssz i d' = ssz i d) →
  (∀ p n, fsp d ≤ p → 0 ≤ n → p + n ≤ PageSize → zregion p n d' = zregion p n d) →
  page_wf d' ∧ contents d' = contents d.
Proof.
  intros W HL HC HF HS HR.
  assert (HE : contents d' = contents d).
  { apply contents_same; [done|]. intros i Hi. destruct (HS i Hi) as [E1 E2].
    unfold tuple_at, slen. rewrite E1, E2. destruct (Z.eqb_spec (ssz i d) 0) as [|Hz]; [done|].
    destruct (pw_slot d W i Hi Hz) as (H1 & H2 & H3). do 2 f_equal. apply HR; unfold slen in *; lia. }
  split; [|done]. split; rewrite ?HC, ?HF, ?HE; try done.
  - apply W.
  - intros i Hi. destruct (HS i Hi) as [E1 E2]. unfold slen. rewrite E1, E2. apply (pw_slot d W i Hi).
  - intros i j Hi Hj. destruct (HS i Hi) as [E1 E2], (HS j Hj) as [E3 E4]. unfold slen.
    rewrite E1, E2, E3, E4. apply (pw_disj d W i j Hi Hj).
  - apply W.
Qed.

(** Writing in the first sixteen bytes: page id, LSN, previous and next page. *)
Lemma header_put o bs d :
  page_wf d → 0 ≤ o → o + zlen bs ≤ offsetFreeSpace →
  page_wf (zput o bs d) ∧ contents (zput o bs d) = contents d.
Proof.
  intros W Ho Hn. page_facts d W.
  apply page_ext; [done|rewrite zput_len by zsolve; done|..].
  - apply zfield_put_ne; zsolve.
  - apply zfield_put_ne; zsolve.
  - intros i Hi. split; apply zfield_put_ne; zsolve.
  - intros p n Hp Hn' HP. apply zregion_put_ne; zsolve.
Qed.

(** ** The deleted flag *)
Lemma land_mask z : in_u32 z → Z.land z deleteMask = if 2 ^ 31 <=? z then 2 ^ 31 else 0.
Proof.
  intros H. unfold in_u32, deleteMask in *.
  assert (E : z / 2 ^ 31 = if 2 ^ 31 <=? z then 1 else 0).
  { destruct (Z.leb_spec (2 ^ 31) z).
    - symmetry. apply (Z.div_unique_pos z (2 ^ 31) 1 (z - 2 ^ 31)); lia.
    - apply Z.div_small. lia. }
  assert (ET : Z.testbit z 31 = (2 ^ 31 <=? z)).
  { rewrite Z.testbit_odd, Z.shiftr_div_pow2, E by lia. by destruct (2 ^ 31 <=? z). }
  apply Z.bits_inj'. intros n Hn. rewrite Z.land_spec, Z.pow2_bits_eqb by lia.
  destruct (Z.eqb_spec 31 n) as [<-|Hne].
  - rewrite ET. destruct (2 ^ 31 <=? z); [by rewrite Z.pow2_bits_true|by rewrite Z.bits_0].
  - rewrite andb_false_r. destruct (2 ^ 31 <=? z); [by rewrite Z.pow2_bits_false by lia|by rewrite Z.bits_0].
Qed.

Lemma IsDeleted_spec z : in_u32 z → IsDeleted z = (2 ^ 31 <=? z) || (z =? 0).
Proof.
  intros H. unfold IsDeleted. rewrite land_mask by done. by destruct (2 ^ 31 <=? z).
Qed.

Lemma Unset_spec z : in_u32 z → UnsetDeletedFlag z = z mod 2 ^ 31.
Proof.
  intros H. unfold UnsetDeletedFlag. rewrite Z.ldiff_land.
  pose proof (Z.add_lor_land (Z.land z deleteMask) (Z.land z (Z.lnot deleteMask))) as E.
  rewrite <- Z.land_lor_distr_r, Z.lor_lnot_diag, Z.land_m1_r in E.
  rewrite Z.land_assoc, <- (Z.land_assoc z), (Z.land_comm deleteMask z), Z.land_assoc, Z.land_diag,
    <- Z.land_assoc, Z.land_lnot_diag, Z.land_0_r in E.
  rewrite land_mask in E by done. unfold in_u32 in H.
  destruct (Z.leb_spec (2 ^ 31) z).
  - apply (Z.mod_unique_pos z (2 ^ 31) 1); lia.
  - rewrite Z.mod_small; lia.
Qed.

Lemma Set_spec z : 0 ≤ z < 2 ^ 31 → SetDeletedFlag z = z + 2 ^ 31.
Proof.
  intros H. unfold SetDeletedFlag. pose proof (Z.add_lor_land z deleteMask) as E.
  rewrite land_mask in E by (unfold in_u32; lia).
  destruct (Z.leb_spec (2 ^ 31) z); [lia|]. unfold deleteMask in *. lia.
Qed.

(** A slot refuses access exactly when it is empty or marked. *)
Lemma IsDeleted_tuple_at i d :
  IsDeleted (ssz i d) = match tuple_at i d with Some (false, _) => false | _ => true end.
Proof.
  rewrite IsDeleted_spec by apply zfield_range. unfold tuple_at.
  destruct (Z.eqb_spec (ssz i d) 0) as [->|]; [done|]. by destruct (2 ^ 31 <=? ssz i d).
Qed.

(** ** Slot fields *)
Lemma slot_offset i base : 0 ≤ i → base + sizeTuple * i ≤ PageSize → 0 ≤ base →
  u32 (base + u32 (sizeTuple * i)) = base + sizeTuple * i.
Proof. intros. rewrite (u32_small (sizeTuple * i)) by zsolve. apply u32_small. zsolve. Qed.

Section slots.
Context (d : list byte) (HL : zlen d = PageSize).

Lemma GetTupleCount_run : GetTupleCount d = Ok (cnt d).
Proof using HL. apply get_u32_run. zsolve. Qed.
Lemma GetFreeSpacePointer_run : GetFreeSpacePointer d = Ok (fsp d).
Proof using HL. apply get_u32_run. zsolve. Qed.

Context (i : Z) (Hi : 0 ≤ i) (Hr : sizeTablePageHeader + sizeTuple * (i + 1) ≤ PageSize).

Lemma GetTupleOffsetAtSlot_run : GetTupleOffsetAtSlot i d = Ok (soff i d).
Proof using HL Hi Hr.
  unfold GetTupleOffsetAtSlot. rewrite slot_offset by zsolve. apply get_u32_run. zsolve.
Qed.
Lemma GetTupleSize_run : GetTupleSize i d = Ok (ssz i d).
Proof using HL Hi Hr.
  unfold GetTupleSize. rewrite slot_offset by zsolve. apply get_u32_run. zsolve.
Qed.
Lemma SetTupleOffsetAtSlot_run z : in_u32 z →
  SetTupleOffsetAtSlot i z d = Ok (zput (offsetTupleOffset + sizeTuple * i) (le_bytes 4 z) d).
Proof using HL Hi Hr.
  intros. unfold SetTupleOffsetAtSlot. rewrite slot_offset by zsolve.
  rewrite put_u32_run by zsolve. by rewrite u32_small.
Qed.
Lemma SetTupleSize_run z : in_u32 z →
  SetTupleSize i z d = Ok (zput (offsetTupleSize + sizeTuple * i) (le_bytes 4 z) d).
Proof using HL Hi Hr.
  intros. unfold SetTupleSize. rewrite slot_offset by zsolve.
  rewrite put_u32_run by zsolve. by rewrite u32_small.
Qed.
End slots.

Lemma SetFreeSpacePointer_run d z :
  zlen d = PageSize → in_u32 z → SetFreeSpacePointer z d = Ok (zput offsetFreeSpace (le_bytes 4 z) d).
Proof.
  intros. unfold SetFreeSpacePointer. rewrite put_u32_run by zsolve. by rewrite u32_small.
Qed.
Lemma SetTupleCount_run d z :
  zlen d = PageSize → in_u32 z → SetTupleCount z d = Ok (zput offSetTupleCount (le_bytes 4 z) d).
Proof.
  intros. unfold SetTupleCount. rewrite put_u32_run by zsolve. by rewrite u32_small.
Qed.

(** A slot in use fits. *)
Lemma slot_fits d i : page_wf d → 0 ≤ i < cnt d → sizeTablePageHeader + sizeTuple * (i + 1) ≤ PageSize.
Proof. intros W Hi. page_facts d W. zsolve. Qed.

Ltac slot_ok := first [done | lia | eapply slot_fits; [done|lia]].

Lemma getFreeSpaceRemaining_run d :
  page_wf d → getFreeSpaceRemaining d = Ok (free_space (contents d)).
Proof.
  intros W. page_facts d W. unfold getFreeSpaceRemaining.
  rewrite GetFreeSpacePointer_run, GetTupleCount_run by done. mred.
  rewrite <- fsp_free by done. unfold fsp in *.
  rewrite (u32_small (_ - sizeTablePageHeader)), (u32_small (sizeTuple * _)) by zsolve.
  by rewrite u32_small by zsolve.
Qed.

Lemma free_space_range d : page_wf d → 0 ≤ free_space (contents d) < 2 ^ 31.
Proof. intros W. rewrite <- fsp_free by done. page_facts d W. unfold fsp in *. zsolve. Qed.

(** ** Searches *)
Lemma find_slot_run d k fuel :
  page_wf d → 0 ≤ k ≤ cnt d → (Z.to_nat (cnt d - k) ≤ fuel)%nat →
  find_slot fuel k d = Ok (k + Z.of_nat (free_slot (drop (Z.to_nat k) (contents d)))).
Proof.
  intros W. pose proof (pw_len d W) as HL. pose proof (contents_length d) as HCL.
  revert k. induction fuel as [|fuel IH]; intros k Hk Hf; cbn [find_slot];
    rewrite GetTupleCount_run by done; mred.
  - rewrite (proj2 (Z.ltb_ge _ _)) by lia. rewrite drop_ge by lia. simpl. f_equal. lia.
  - destruct (Z.ltb_spec k (cnt d)) as [Hlt|Hge].
    + rewrite GetTupleSize_run by slot_ok. mred.
      erewrite drop_S by (apply contents_lookup_Z; lia). unfold tuple_at.
      destruct (ssz k d =? 0); [simpl; f_equal; lia|]. rewrite IH by lia.
      replace (Z.to_nat (k + 1)) with (S (Z.to_nat k)) by lia. simpl. f_equal. lia.
    + rewrite drop_ge by lia. simpl. f_equal. lia.
Qed.

Lemma slot_fuel_enough d : page_wf d → (Z.to_nat (cnt d) ≤ slot_fuel)%nat.
Proof. intros W. page_facts d W. unfold slot_fuel. zsolve. Qed.

Lemma next_slot_run d k fuel :
  page_wf d → 0 ≤ k → (Z.to_nat (cnt d - k) ≤ fuel)%nat →
  next_slot fuel k (cnt d) d =
    Ok ((λ j, MkRID (GetTablePageId d) (k + Z.of_nat j)) <$>
          first_occupied (drop (Z.to_nat k) (contents d))).
Proof.
  intros W. pose proof (pw_len d W) as HL. pose proof (contents_length d) as HCL.
  revert k. induction fuel as [|fuel IH]; intros k Hk Hf; cbn [next_slot].
  - rewrite (proj2 (Z.ltb_ge _ _)) by lia. by rewrite drop_ge by lia.
  - destruct (Z.ltb_spec k (cnt d)) as [Hlt|Hge]; [|by rewrite drop_ge by lia].
    rewrite GetTupleSize_run by slot_ok. mred.
    erewrite drop_S by (apply contents_lookup_Z; lia). unfold tuple_at.
    pose proof (zfield_range (offsetTupleSize + sizeTuple * k) d) as [Hz _]. fold (ssz k d) in Hz.
    destruct (Z.eqb_spec (ssz k d) 0) as [E|E].
    + rewrite E. cbn [Z.ltb Z.compare]. rewrite IH by lia.
      replace (Z.to_nat (k + 1)) with (S (Z.to_nat k)) by lia. cbn [first_occupied].
      destruct (first_occupied _); simpl; [|done]. do 3 f_equal. lia.
    + rewrite (proj2 (Z.ltb_lt _ _)) by lia. simpl. do 3 f_equal. lia.
Qed.

Lemma free_slot_le ls : (free_slot ls ≤ length ls)%nat.
Proof. induction ls as [|[?|] ls IH]; simpl; lia. Qed.

Lemma free_slot_spec ls : default None (ls !! free_slot ls) = None.
Proof. induction ls as [|[?|] ls IH]; simpl; done. Qed.

(** ** Reading through a chain of writes

    [rd] reads a field or region of a page that a hypothesis gives as a write
    on another, down to where the write does not matter; the lengths of the
    pages and the bounds are in the context. *)
Ltac consts := cbv [sizeTablePageHeader sizeTuple offSetPrevPageId offSetNextPageId offsetFreeSpace
  offSetTupleCount offsetTupleOffset offsetTupleSize PageSize in_u32] in *.
Ltac rd1 :=
  match goal with
  | |- context [zfield ?o (zput ?o (le_bytes 4 _) _)] => rewrite zfield_put by lia
  | |- context [zfield _ (zput _ _ _)] => rewrite zfield_put_ne by (rewrite ?zlen_le; lia)
  | |- context [zregion _ _ (zput _ _ _)] => rewrite zregion_put_ne by (rewrite ?zlen_le; lia)
  | E : ?x = zput _ _ _ |- context [zfield _ ?x] => rewrite E
  | E : ?x = zput _ _ _ |- context [zregion _ _ ?x] => rewrite E
  end.
Ltac rd := unfold cnt, fsp, soff, ssz in *; consts; repeat rd1.

(** The header fields an operation on tuples leaves alone. *)
Definition same_header (d d' : list byte) : Prop := zregion 0 16 d' = zregion 0 16 d.

(** Giving slot [k] the bytes that end at [B] in place of its [old] bytes there:
    the tuples below move by the difference, the others stay.  Inserting,
    updating and removing a tuple are the three cases. *)
Section rebuild.
Context (d d' : list byte) (k B old new : Z).
Context (W : page_wf d) (L' : zlen d' = PageSize).
Context (Hk : 0 ≤ k ≤ cnt d) (HC' : cnt d' = Z.max (cnt d) (k + 1)).
Context (HF' : fsp d' = fsp d + old - new) (Hfit : sizeTablePageHeader + sizeTuple * cnt d' ≤ fsp d').
Context (Hold : Z.of_nat (weight (default None (contents d !! Z.to_nat k))) = old).
Context (HB : fsp d + old ≤ B ≤ PageSize).
Context (Hothers : ∀ i, 0 ≤ i < cnt d → i ≠ k → ssz i d ≠ 0 →
  soff i d + slen i d ≤ B - old ∨ B ≤ soff i d).
Context (Hi' : ∀ i, 0 ≤ i < cnt d → i ≠ k → ssz i d' = ssz i d ∧
  (ssz i d ≠ 0 → soff i d' = if soff i d <? B then soff i d + old - new else soff i d)).
Context (Hlow : ∀ p n, fsp d ≤ p → 0 ≤ n → p + n ≤ B - old →
  zregion (p + old - new) n d' = zregion p n d).
Context (Hhigh : ∀ p n, B ≤ p → 0 ≤ n → p + n ≤ PageSize → zregion p n d' = zregion p n d).
Context (Hnew : ssz k d' = 0 ∧ new = 0 ∨
  0 < new < 2 ^ 31 ∧ ssz k d' = new ∧ soff k d' = B - new).

Lemma rebuild_contents : contents d' = put_slot (Z.to_nat k) (tuple_at k d') (contents d).
Proof using W Hk HC' Hothers Hi' Hlow Hhigh Hold.
  apply contents_put; [lia|done|]. intros i Hi Hne. destruct (Hi' i Hi Hne) as [E1 E2].
  unfold tuple_at, slen. rewrite E1. destruct (Z.eqb_spec (ssz i d) 0) as [|Hz]; [done|].
  rewrite E2 by done. destruct (pw_slot d W i Hi Hz) as (H1 & H2 & H3).
  pose proof (Hothers i Hi Hne Hz) as HO. do 2 f_equal. unfold slen in *.
  destruct (Z.ltb_spec (soff i d) B); [apply Hlow|apply Hhigh]; lia.
Qed.

(** Where a slot of the new page lies. *)
Lemma rebuild_slot i : 0 ≤ i < cnt d' → ssz i d' ≠ 0 →
  (i = k ∧ 0 < new ∧ slen i d' = new ∧ soff i d' = B - new) ∨
  (i ≠ k ∧ i < cnt d ∧ ssz i d ≠ 0 ∧ slen i d' = slen i d ∧
   (soff i d + slen i d ≤ B - old ∧ soff i d' = soff i d + old - new ∨
    B ≤ soff i d ∧ soff i d' = soff i d)).
Proof using W Hk HC' Hothers Hi' Hold Hnew.
  intros Hi Hz. destruct (decide (i = k)) as [->|Hne].
  - left. destruct Hnew as [[? ?]|(H1 & H2 & H3)]; [done|]. unfold slen. rewrite H2.
    rewrite Z.mod_small by lia. lia.
  - right. destruct (Hi' i) as [E1 E2]; [lia|done|]. rewrite E1 in Hz. unfold slen. rewrite E1.
    split; [done|]. split; [lia|]. split; [done|]. split; [done|].
    pose proof (Hothers i ltac:(lia) Hne Hz) as HO. rewrite E2 by done. unfold slen in *.
    destruct (pw_slot d W i) as (? & ? & ?); [lia|done|]. unfold slen in *.
    destruct (Z.ltb_spec (soff i d) B); lia.
Qed.

Lemma rebuild_wf : page_wf d'.
Proof using All.
  split; [done..| | |].
  - intros i Hi Hz. rewrite HF'. destruct (rebuild_slot i Hi Hz) as [(-> & ? & -> & ->)|H]; [lia|].
    destruct H as (Hne & Hlt & Hz' & -> & HO).
    destruct (pw_slot d W i) as (? & ? & ?); [lia|done|]. lia.
  - intros i j Hi Hj Hne Hzi Hzj.
    destruct (rebuild_slot i Hi Hzi) as [(-> & ? & -> & ->)|(Hik & Hilt & Hiz & -> & HOi)],
      (rebuild_slot j Hj Hzj) as [(-> & ? & -> & ->)|(Hjk & Hjlt & Hjz & -> & HOj)]; [done|lia..|].
    pose proof (pw_disj d W i j ltac:(lia) ltac:(lia) Hne Hiz Hjz). lia.
  - pose proof (contents_length d). pose proof (pw_total d W). pose proof (zfield_range offsetFreeSpace d').
    pose proof (cnt_range d). fold (fsp d') in *.
    rewrite rebuild_contents, total_put_slot, Hold, HF' by lia.
    enough (Z.of_nat (weight (tuple_at k d')) = new) by lia.
    destruct Hnew as [[Hz ->]|(N1 & N2 & N3)].
    + unfold tuple_at. by rewrite Hz.
    + assert (HS : slen k d' = new) by (unfold slen; rewrite N2; apply Z.mod_small; lia).
      rewrite weight_tuple_at, HS, N2 by (rewrite ?HS, ?N3; consts; lia).
      by rewrite (proj2 (Z.eqb_neq _ _)) by lia.
Qed.
End rebuild.

(** Storing a tuple in slot [k]: a free one, or the next one. *)
Lemma insert_bytes d k t :
  page_wf d → 0 ≤ k ≤ cnt d → (k < cnt d → ssz k d = 0) → tuple_ok t → 0 < size t →
  size t + sizeTuple ≤ free_space (contents d) →
  ∃ d1 d2 d3, SetFreeSpacePointer (u32 (fsp d - size t)) d = Ok d1 ∧ setTuple k t d1 = Ok d2 ∧
    zlen d1 = PageSize ∧ zlen d2 = PageSize ∧ cnt d2 = cnt d ∧
    (if k =? cnt d then SetTupleCount (u32 (cnt d + 1)) d2 = Ok d3 else d3 = d2) ∧
    page_wf d3 ∧ contents d3 = put_slot (Z.to_nat k) (Some (false, data t)) (contents d) ∧
    same_header d d3.
Proof.
  intros W Hk Hfree Ht Hs Hsp. rewrite <- fsp_free in Hsp by done. page_facts d W.
  unfold tuple_ok in Ht. fold (zlen (data t)) in Ht.
  assert (Hn : 24 + 8 * (k + 1) ≤ fsp d - size t) by zsolve.
  rewrite (u32_small (fsp d - size t)) by (unfold fsp in *; zsolve).
  set (G := fsp d - size t) in *.
  assert (HG : in_u32 G ∧ 24 + 8 * (k + 1) ≤ G ∧ G + size t = fsp d ∧ fsp d ≤ 4096 ∧ in_u32 (size t))
    by (unfold fsp in *; zsolve).
  clearbody G. destruct HG as (HG & Hn' & HGs & HF & Hsz).
  remember (zput offsetFreeSpace (le_bytes 4 G) d) as d1 eqn:D1.
  remember (zput G (data t) d1) as d2 eqn:D2.
  remember (zput (offsetTupleOffset + sizeTuple * k) (le_bytes 4 G) d2) as d3 eqn:D3.
  remember (zput (offsetTupleSize + sizeTuple * k) (le_bytes 4 (size t)) d3) as d4 eqn:D4.
  remember (zput offSetTupleCount (le_bytes 4 (cnt d + 1)) d4) as d5 eqn:D5.
  assert (L1 : zlen d1 = PageSize) by (rewrite D1, zput_len; rewrite ?zlen_le; zsolve).
  assert (L2 : zlen d2 = PageSize) by (rewrite D2, zput_len; zsolve).
  assert (L3 : zlen d3 = PageSize) by (rewrite D3, zput_len; rewrite ?zlen_le; zsolve).
  assert (L4 : zlen d4 = PageSize) by (rewrite D4, zput_len; rewrite ?zlen_le; zsolve).
  assert (L5 : zlen d5 = PageSize) by (rewrite D5, zput_len; rewrite ?zlen_le; zsolve).
  assert (C4 : cnt d4 = cnt d) by (rd; done).
  assert (ES : setTuple k t d1 = Ok d4).
  { unfold setTuple. rewrite GetFreeSpacePointer_run by done. mred.
    assert (F1 : fsp d1 = G) by (rd; by apply u32_small).
    rewrite F1, put_bytes_run by (consts; lia). mred. rewrite <- D2.
    rewrite !slot_offset by (consts; lia). rewrite put_u32_run by (consts; lia). mred.
    rewrite (u32_small G), <- D3 by done. rewrite put_u32_run by (consts; lia).
    by rewrite u32_small, <- D4 by done. }
  remember (if k =? cnt d then d5 else d4) as d' eqn:D'.
  assert (L' : zlen d' = PageSize) by (rewrite D'; by destruct (k =? cnt d)).
  assert (HR : cnt d' = Z.max (cnt d) (k + 1) ∧ fsp d' = G ∧ soff k d' = G ∧ ssz k d' = size t ∧
    (∀ i, 0 ≤ i < cnt d → i ≠ k → soff i d' = soff i d ∧ ssz i d' = ssz i d) ∧
    (∀ p n, fsp d ≤ p → 0 ≤ n → p + n ≤ PageSize → zregion p n d' = zregion p n d) ∧
    zregion G (zlen (data t)) d' = data t ∧ same_header d d').
  { rewrite D'. unfold same_header. pose proof (zregion_put G (data t) d1) as RG.
    destruct (Z.eqb_spec k (cnt d)); (split_and!; intros; try split; rd; rewrite ?u32_small by zsolve;
      try lia; try done; rewrite ?RG by lia; try done). }
  exists d1, d4, d'. split; [by rewrite SetFreeSpacePointer_run, <- D1|].
  split; [exact ES|]. repeat (split; [done|]).
  split. { rewrite D'. destruct (Z.eqb_spec k (cnt d)); [|done].
    rewrite u32_small by (consts; lia). rewrite SetTupleCount_run by (consts; try done; lia).
    by rewrite <- D5. }
  destruct HR as (HC' & HF' & HO' & HS' & Hi' & HR' & HT' & HH').
  assert (HK : tuple_at k d' = Some (false, data t)).
  { unfold tuple_at, slen. rewrite HS', HO', Z.mod_small by (consts; lia).
    rewrite Ht, HT'. by rewrite (proj2 (Z.eqb_neq _ _)), (proj2 (Z.leb_gt _ _)) by lia. }
  assert (HW : Z.of_nat (weight (default None (contents d !! Z.to_nat k))) = 0).
  { destruct (decide (k < cnt d)) as [Hlt|Hge].
    - rewrite contents_lookup_Z by lia. unfold tuple_at. simpl. by rewrite Hfree.
    - pose proof (contents_length d). by rewrite lookup_ge_None_2 by lia. }
  assert (HI : ∀ i, 0 ≤ i < cnt d → i ≠ k → ssz i d ≠ 0 →
    soff i d + slen i d ≤ fsp d - 0 ∨ fsp d ≤ soff i d).
  { intros i Hi _ Hz. destruct (pw_slot d W i Hi Hz). lia. }
  assert (HI2 : ∀ i, 0 ≤ i < cnt d → i ≠ k → ssz i d' = ssz i d ∧ (ssz i d ≠ 0 → soff i d' =
    if soff i d <? fsp d then soff i d + 0 - size t else soff i d)).
  { intros i Hi Hne. destruct (Hi' i Hi Hne) as [E1 E2]. split; [done|]. intros Hz.
    destruct (pw_slot d W i Hi Hz). rewrite (proj2 (Z.ltb_ge _ _)) by lia. done. }
  assert (HL2 : ∀ p n, fsp d ≤ p → 0 ≤ n → p + n ≤ fsp d - 0 →
    zregion (p + 0 - size t) n d' = zregion p n d).
  { intros p n ???. by replace n with 0 by lia. }
  rewrite <- HK. split; [eapply (rebuild_wf d d' k (fsp d) 0 (size t))|
    split; [eapply (rebuild_contents d d' k (fsp d) 0 (size t))|done]];
    rewrite ?HC', ?HF'; try done; try (consts; lia).
Qed.

Lemma zfield_zregion p d d' : zregion p 4 d' = zregion p 4 d → zfield p d' = zfield p d.
Proof. intros H. unfold zfield. rewrite !field_region. unfold zregion in H.
  change (Z.to_nat 4) with 4%nat in H. by rewrite H. Qed.

(** *** The loop over the offsets *)
Definition shifted (bound delta : Z) (i : Z) (d : list byte) : Z :=
  if (0 <? ssz i d) && (soff i d <? bound) then u32 (soff i d + delta) else soff i d.

(** After the first [j] slots. *)
Record shift_inv (bound delta : Z) (d : list byte) (j : nat) (d' : list byte) : Prop := {
  si_len : zlen d' = PageSize;
  si_slot : ∀ i, 0 ≤ i < cnt d → ssz i d' = ssz i d ∧
    soff i d' = if i <? Z.of_nat j then shifted bound delta i d else soff i d;
  si_low : ∀ p n, 0 ≤ p → 0 ≤ n → p + n ≤ sizeTablePageHeader → zregion p n d' = zregion p n d;
  si_high : ∀ p n, sizeTablePageHeader + sizeTuple * cnt d ≤ p → 0 ≤ n → p + n ≤ PageSize →
    zregion p n d' = zregion p n d
}.

Lemma shift_step_inv bound delta d j d' :
  zlen d = PageSize → sizeTablePageHeader + sizeTuple * cnt d ≤ PageSize →
  Z.of_nat j < cnt d → shift_inv bound delta d j d' →
  ∃ d'', shift_step bound delta d' j = Ok d'' ∧ shift_inv bound delta d (j + 1) d''.
Proof.
  intros HL HC Hj [L' S' Lo Hi]. destruct (S' (Z.of_nat j)) as [E1 E2]; [lia|].
  rewrite Z.ltb_irrefl in E2. unfold shift_step.
  rewrite GetTupleOffsetAtSlot_run, GetTupleSize_run by (try done; consts; lia). mred.
  rewrite E1, E2. pose proof (u32_range (soff (Z.of_nat j) d + delta)) as HU.
  assert (HS : ∀ b, b = shifted bound delta (Z.of_nat j) d →
    ∀ i, (if i <? Z.of_nat (j + 1) then shifted bound delta i d else soff i d) =
      if i =? Z.of_nat j then b else if i <? Z.of_nat j then shifted bound delta i d else soff i d).
  { intros b -> i. destruct (Z.eqb_spec i (Z.of_nat j)) as [->|].
    - by rewrite (proj2 (Z.ltb_lt _ _)) by lia.
    - by destruct (Z.ltb_spec i (Z.of_nat (j + 1))), (Z.ltb_spec i (Z.of_nat j)); try lia. }
  unfold shifted in HS at 1.
  destruct ((0 <? ssz (Z.of_nat j) d) && (soff (Z.of_nat j) d <? bound)).
  - rewrite SetTupleOffsetAtSlot_run by (try done; consts; lia).
    eexists. split; [done|]. remember (zput _ _ d') as d'' eqn:D.
    split; [by rewrite D, zput_len; rewrite ?zlen_le; consts; lia| | |].
    + intros i Hr. rewrite (HS _ eq_refl). destruct (S' i Hr) as [F1 F2].
      rewrite <- F1, <- F2. unfold soff at 1, ssz at 1.
      destruct (Z.eqb_spec i (Z.of_nat j)) as [->|].
      * rewrite <- (u32_small (u32 _)) by done. split; rd; done.
      * split; rd; done.
    + intros p n ???. rewrite <- Lo by done. rd. done.
    + intros p n ???. rewrite <- Hi by done. rd. done.
  - eexists. split; [done|]. split; try done.
    intros i Hr. rewrite (HS _ eq_refl). destruct (S' i Hr) as [F1 F2]. split; [done|].
    rewrite F2. destruct (Z.eqb_spec i (Z.of_nat j)) as [->|]; [by rewrite Z.ltb_irrefl|done].
Qed.

Lemma shift_offsets_run bound delta d :
  zlen d = PageSize → sizeTablePageHeader + sizeTuple * cnt d ≤ PageSize →
  ∃ d', shift_offsets bound delta d = Ok d' ∧ shift_inv bound delta d (Z.to_nat (cnt d)) d'.
Proof.
  intros HL HC. unfold shift_offsets. rewrite GetTupleCount_run by done. mred.
  apply (res_foldl_range (shift_inv bound delta d)).
  - split; try done. intros i Hi. by rewrite (proj2 (Z.ltb_ge _ _)) by lia.
  - intros j s Hj HI. apply shift_step_inv; [done..|lia|done].
Qed.

(** The loop after the bytes have been moved completes a [rebuild]. *)
Section shift_rebuild.
Context (d d4 : list byte) (k B old new bound : Z).
Context (W : page_wf d) (L4 : zlen d4 = PageSize) (Hk : 0 ≤ k < cnt d).
Context (Hz : ssz k d ≠ 0) (Hold : slen k d = old) (HO : soff k d = B - old).
Context (HC4 : cnt d4 = cnt d) (HF4 : fsp d4 = fsp d + old - new).
Context (Hfit : sizeTablePageHeader + sizeTuple * cnt d ≤ fsp d + old - new).
Context (Hi4 : ∀ i, 0 ≤ i < cnt d → i ≠ k → ssz i d4 = ssz i d ∧ soff i d4 = soff i d).
Context (Hbound : B - old ≤ bound ≤ B).
Context (Hlow4 : ∀ p n, fsp d ≤ p → 0 ≤ n → p + n ≤ B - old →
  zregion (p + old - new) n d4 = zregion p n d).
Context (Hhigh4 : ∀ p n, B ≤ p → 0 ≤ n → p + n ≤ PageSize → zregion p n d4 = zregion p n d).
Context (HH4 : same_header d d4).
Context (Hnew4 : ssz k d4 = 0 ∧ new = 0 ∨
  0 < new < 2 ^ 31 ∧ ssz k d4 = new ∧ soff k d4 = B - old ∧ bound = B).

Lemma shift_moved o : 0 ≤ o ≤ PageSize → 0 ≤ o + old - new → u32 (o + u32 (old - new)) = o + old - new.
Proof using W Hfit Hold Hnew4 Hk Hz.
  intros H1 H2. pose proof (slen_range k d). unfold u32 at 2, u32. rewrite Zplus_mod_idemp_r.
  fold (u32 (o + (old - new))). rewrite u32_small; [lia|]. consts. lia.
Qed.

Lemma shift_rebuild_run : ∃ d', shift_offsets bound (u32 (old - new)) d4 = Ok d' ∧ page_wf d' ∧
  contents d' = <[Z.to_nat k := tuple_at k d']> (contents d) ∧ same_header d d' ∧
  tuple_at k d' = if ssz k d4 =? 0 then None else Some (false, zregion (B - new) new d4).
Proof using All.
  page_facts d W. pose proof (contents_length d) as HCL.
  destruct (pw_slot d W k Hk Hz) as (K1 & K2 & K3).
  destruct (shift_offsets_run bound (u32 (old - new)) d4) as (d' & E & [L' S' Lo Hi]);
    [done|consts; lia|].
  exists d'. split; [exact E|]. clear E. rewrite HC4 in S'.
  assert (HC' : cnt d' = cnt d).
  { rewrite <- HC4. apply zfield_zregion, Lo; consts; lia. }
  assert (HF' : fsp d' = fsp d + old - new).
  { rewrite <- HF4. apply zfield_zregion, Lo; consts; lia. }
  assert (HW : Z.of_nat (weight (default None (contents d !! Z.to_nat k))) = old).
  { rewrite contents_lookup_Z by done. simpl. rewrite weight_slot by done.
    by rewrite (proj2 (Z.eqb_neq _ _)) by done. }
  assert (HD : ∀ i, 0 ≤ i < cnt d → i ≠ k → ssz i d ≠ 0 →
    soff i d + slen i d ≤ B - old ∨ B ≤ soff i d).
  { intros i Hi0 Hne Hzi. pose proof (pw_disj d W i k Hi0 Hk Hne Hzi Hz). lia. }
  assert (HS : ∀ i, 0 ≤ i < cnt d → ssz i d' = ssz i d4 ∧ soff i d' = shifted bound (u32 (old - new)) i d4).
  { intros i Hi0. destruct (S' i Hi0) as [-> ->]. by rewrite (proj2 (Z.ltb_lt _ _)) by lia. }
  assert (HI : ∀ i, 0 ≤ i < cnt d → i ≠ k → ssz i d' = ssz i d ∧ (ssz i d ≠ 0 →
    soff i d' = if soff i d <? B then soff i d + old - new else soff i d)).
  { intros i Hi0 Hne. destruct (HS i Hi0) as [-> ->], (Hi4 i Hi0 Hne) as [E1 E2].
    unfold shifted. rewrite E1, E2. split; [done|]. intros Hzi.
    pose proof (HD i Hi0 Hne Hzi). destruct (pw_slot d W i Hi0 Hzi) as (? & ? & ?).
    pose proof (zfield_range (offsetTupleSize + sizeTuple * i) d) as [? _]. fold (ssz i d) in *.
    rewrite (proj2 (Z.ltb_lt 0 _)) by lia. cbn [andb].
    destruct (Z.ltb_spec (soff i d) bound), (Z.ltb_spec (soff i d) B); try lia.
    apply shift_moved; consts; lia. }
  assert (HL : ∀ p n, fsp d ≤ p → 0 ≤ n → p + n ≤ B - old →
    zregion (p + old - new) n d' = zregion p n d).
  { intros p n ???. rewrite Hi by (rewrite ?HC4; consts; lia). by apply Hlow4. }
  assert (HU : ∀ p n, B ≤ p → 0 ≤ n → p + n ≤ PageSize → zregion p n d' = zregion p n d).
  { intros p n ???. rewrite Hi by (rewrite ?HC4; consts; lia). by apply Hhigh4. }
  assert (HN : ssz k d' = 0 ∧ new = 0 ∨ 0 < new < 2 ^ 31 ∧ ssz k d' = new ∧ soff k d' = B - new).
  { destruct (HS k Hk) as [-> ->], Hnew4 as [[? ?]|(N1 & N2 & N3 & N4)]; [by left|right].
    repeat (split; [done|]). unfold shifted. rewrite N2, N3, N4, !(proj2 (Z.ltb_lt _ _)) by lia.
    cbn [andb]. rewrite shift_moved; consts; lia. }
  assert (HK : tuple_at k d' = if ssz k d4 =? 0 then None else Some (false, zregion (B - new) new d4)).
  { destruct (HS k Hk) as [<- _]. unfold tuple_at.
    destruct HN as [[-> ?]|(N1 & N2 & N3)]; [done|]. unfold slen. rewrite N2, N3, Z.mod_small by lia.
    rewrite (proj2 (Z.eqb_neq _ _)), (proj2 (Z.leb_gt _ _)) by lia.
    by rewrite Hi by (rewrite ?HC4; consts; lia). }
  assert (HM : cnt d' = cnt d `max` (k + 1)) by lia.
  split; [|split; [|split; [|exact HK]]].
  - eapply (rebuild_wf d d' k B old new); try done; rewrite ?HC', ?HF'; lia.
  - rewrite (rebuild_contents d d' k B old new); try done; [|lia].
    unfold put_slot. rewrite (proj2 (Nat.ltb_lt _ _)) by lia. done.
  - unfold same_header in *. rewrite Lo by (consts; lia). done.
Qed.
End shift_rebuild.

(** *** Replacing and removing the bytes of a tuple *)
Lemma move_run d off new_off :
  page_wf d → fsp d ≤ off ≤ PageSize → 0 ≤ new_off → new_off + (off - fsp d) ≤ PageSize →
  ∃ d1, (slice d (fsp d) off ≫= (λ moved, put_bytes new_off moved d)) = Ok d1 ∧
    d1 = zput new_off (zregion (fsp d) (off - fsp d) d) d ∧
    zlen (zregion (fsp d) (off - fsp d) d) = off - fsp d ∧ zlen d1 = PageSize.
Proof.
  intros W H1 H2 H3. page_facts d W. fold (fsp d) in *. unfold in_u32, zlen in *.
  rewrite slice_Ok by lia. mred. fold (zregion (fsp d) (off - fsp d) d).
  rewrite put_bytes_run by (unfold zlen; lia). eexists. split; [done|]. split; [done|].
  assert (E : zlen (zregion (fsp d) (off - fsp d) d) = off - fsp d) by (apply zlen_region; unfold zlen; lia).
  split; [exact E|]. fold (zlen (zput new_off (zregion (fsp d) (off - fsp d) d) d)).
  rewrite zput_len; rewrite ?E; unfold zlen; lia.
Qed.

Lemma ssz_small k d : (2 ^ 31 <=? ssz k d) = false → slen k d = ssz k d.
Proof.
  intros H. apply Z.leb_gt in H. unfold slen. apply Z.mod_small.
  pose proof (zfield_range (offsetTupleSize + sizeTuple * k) d) as [? _]. unfold ssz in *. lia.
Qed.

Lemma slice_whole t : tuple_ok t → slice (data t) 0 (size t) = Ok (data t).
Proof.
  unfold tuple_ok. intros ->. rewrite slice_Ok by lia. rewrite Z.sub_0_r, Nat2Z.id.
  by rewrite region_0_all.
Qed.

Lemma replace_bytes d k t :
  page_wf d → 0 ≤ k < cnt d → ssz k d ≠ 0 → slen k d = ssz k d → tuple_ok t → 0 < size t < 2 ^ 31 →
  size t ≤ free_space (contents d) + ssz k d →
  ∃ d', replace_tuple k (soff k d) (ssz k d) t d = Ok d' ∧ page_wf d' ∧
    contents d' = <[Z.to_nat k := Some (false, data t)]> (contents d) ∧ same_header d d'.
Proof.
  intros W Hk Hz Hsl Ht Hs Hsp. rewrite <- fsp_free in Hsp by done. page_facts d W.
  destruct (pw_slot d W k Hk Hz) as (K1 & K2 & K3). rewrite Hsl in *.
  pose proof Ht as HT. unfold tuple_ok in HT. fold (zlen (data t)) in HT.
  set (old := ssz k d) in *. set (new := size t) in *. set (B := soff k d + old).
  assert (HF : u32 (u32 (fsp d + old) - new) = fsp d + old - new).
  { rewrite (u32_small (fsp d + old)); [apply u32_small|]; fold (fsp d) in *; consts; lia. }
  assert (HO : u32 (u32 (soff k d + old) - new) = B - new).
  { rewrite (u32_small (soff k d + old)); [apply u32_small|]; fold (fsp d) in *; consts; lia. }
  destruct (move_run d (soff k d) (fsp d + old - new)) as (d1 & E1 & D1 & Z1 & L1);
    [done|consts; lia..|].
  remember (zput offsetFreeSpace (le_bytes 4 (fsp d + old - new)) d1) as d2 eqn:D2.
  remember (zput (B - new) (data t) d2) as d3 eqn:D3.
  remember (zput (offsetTupleSize + sizeTuple * k) (le_bytes 4 new) d3) as d4 eqn:D4.
  assert (L2 : zlen d2 = PageSize) by (rewrite D2, zput_len; rewrite ?zlen_le; consts; lia).
  assert (L3 : zlen d3 = PageSize) by (rewrite D3, zput_len; consts; lia).
  assert (L4 : zlen d4 = PageSize) by (rewrite D4, zput_len; rewrite ?zlen_le; consts; lia).
  assert (EB : u32 (soff k d + old) = B) by (apply u32_small; consts; lia).
  assert (RF : u32 (fsp d + old - new) = fsp d + old - new) by (apply u32_small; consts; lia).
  assert (RN : u32 new = new) by (apply u32_small; consts; lia).
  destruct (shift_rebuild_run d d4 k B old new B) as (d' & E & W' & C' & H' & T'); try done; try lia.
  - rd. done.
  - rd. lia.
  - intros i Hi Hne. split; rd; done.
  - intros p n P1 P2 P3. replace (p + old - new) with (p - fsp d + (fsp d + old - new)) by lia.
    rd. apply zregion_move; lia.
  - intros p n P1 P2 P3. rd. done.
  - unfold same_header. rd. done.
  - right. repeat (split; [rd; lia|]). done.
  - exists d'. unfold replace_tuple. fold new. rewrite GetFreeSpacePointer_run by done. mred.
    rewrite (proj2 (Z.leb_le _ _)) by lia. mred.
    apply res_bind_Ok in E1 as (m & Em & E1). rewrite Em. mred. rewrite HF, E1. mred.
    rewrite SetFreeSpacePointer_run, <- D2 by (try done; consts; lia). mred.
    pose proof (slice_whole t Ht) as SW. fold new in SW. rewrite SW. mred. rewrite HO, put_bytes_run, <- D3 by (consts; lia). mred.
    rewrite SetTupleSize_run, <- D4 by (try done; consts; lia). mred. rewrite EB.
    split; [exact E|]. split; [done|]. split; [|done]. rewrite C', T'. do 2 f_equal.
    assert (RK : ssz k d4 = new) by (rd; lia). rewrite RK, (proj2 (Z.eqb_neq _ _)) by lia.
    do 2 f_equal. pose proof (zregion_put (B - new) (data t) d2) as RP. rewrite <- HT in RP.
    rd. apply RP; lia.
Qed.

Lemma remove_bytes d k :
  page_wf d → 0 ≤ k < cnt d → ssz k d ≠ 0 →
  ∃ d', remove_tuple k (soff k d) (slen k d) d = Ok d' ∧ page_wf d' ∧
    contents d' = <[Z.to_nat k := None]> (contents d) ∧ same_header d d'.
Proof.
  intros W Hk Hz. page_facts d W. destruct (pw_slot d W k Hk Hz) as (K1 & K2 & K3).
  remember (slen k d) as old eqn:Hold. set (B := soff k d + old).
  assert (HF : u32 (fsp d + old) = fsp d + old) by (apply u32_small; fold (fsp d) in *; consts; lia).
  destruct (move_run d (soff k d) (fsp d + old)) as (d1 & E1 & D1 & Z1 & L1);
    [done|consts; lia..|].
  remember (zput offsetFreeSpace (le_bytes 4 (fsp d + old)) d1) as d2 eqn:D2.
  remember (zput (offsetTupleSize + sizeTuple * k) (le_bytes 4 0) d2) as d3 eqn:D3.
  remember (zput (offsetTupleOffset + sizeTuple * k) (le_bytes 4 0) d3) as d4 eqn:D4.
  assert (L2 : zlen d2 = PageSize) by (rewrite D2, zput_len; rewrite ?zlen_le; consts; lia).
  assert (L3 : zlen d3 = PageSize) by (rewrite D3, zput_len; rewrite ?zlen_le; consts; lia).
  assert (L4 : zlen d4 = PageSize) by (rewrite D4, zput_len; rewrite ?zlen_le; consts; lia).
  assert (RK : ssz k d4 = 0) by (rd; done).
  assert (ED : u32 (old - 0) = old) by (rewrite Z.sub_0_r; apply u32_small; consts; lia).
  destruct (shift_rebuild_run d d4 k B old 0 (soff k d)) as (d' & E & W' & C' & H' & T');
    try done; try lia.
  - rd. done.
  - rd. lia.
  - intros i Hi Hne. split; rd; done.
  - intros p n P1 P2 P3. replace (p + old - 0) with (p - fsp d + (fsp d + old)) by lia.
    rd. apply zregion_move; lia.
  - intros p n P1 P2 P3. rd. done.
  - unfold same_header. rd. done.
  - exists d'. unfold remove_tuple. rewrite GetFreeSpacePointer_run by done. mred.
    rewrite (proj2 (Z.leb_le _ _)) by lia. mred.
    apply res_bind_Ok in E1 as (m & Em & E1). rewrite Em. mred. rewrite HF, E1. mred.
    rewrite SetFreeSpacePointer_run, <- D2 by (try done; consts; lia). mred.
    rewrite SetTupleSize_run, <- D3 by (try done; consts; lia). mred.
    rewrite SetTupleOffsetAtSlot_run, <- D4 by (try done; consts; lia). mred.
    rewrite ED in E. rewrite RK in T'. simpl in T'.
    split; [exact E|]. split; [done|]. split; [|done]. by rewrite C', T'.
Qed.

(** *** Changing the deleted flag *)
Lemma flag_bytes d k z :
  page_wf d → 0 ≤ k < cnt d → ssz k d ≠ 0 → in_u32 z → z mod 2 ^ 31 = slen k d →
  ∃ d', SetTupleSize k z d = Ok d' ∧ page_wf d' ∧
    contents d' = <[Z.to_nat k := Some (2 ^ 31 <=? z, zregion (soff k d) (slen k d) d)]> (contents d) ∧
    same_header d d'.
Proof.
  intros W Hk Hz HZ HM. page_facts d W. pose proof (contents_length d) as HCL.
  destruct (pw_slot d W k Hk Hz) as (K1 & K2 & K3).
  remember (zput (offsetTupleSize + sizeTuple * k) (le_bytes 4 z) d) as d' eqn:D'.
  assert (L' : zlen d' = PageSize) by (rewrite D', zput_len; rewrite ?zlen_le; consts; lia).
  assert (RK : ssz k d' = z) by (rd; by apply u32_small).
  assert (RO : soff k d' = soff k d) by (rd; done).
  assert (RC : cnt d' = cnt d) by (rd; done).
  assert (RF : fsp d' = fsp d) by (rd; done).
  assert (Ri : ∀ i, 0 ≤ i < cnt d → i ≠ k → ssz i d' = ssz i d ∧ soff i d' = soff i d)
    by (intros i Hi Hne; split; rd; done).
  assert (RR : ∀ p n, fsp d ≤ p → 0 ≤ n → p + n ≤ PageSize → zregion p n d' = zregion p n d)
    by (intros p n P1 P2 P3; rd; done).
  assert (RH : same_header d d') by (unfold same_header; rd; done).
  assert (ES : SetTupleSize k z d = Ok d')
    by (rewrite D'; apply SetTupleSize_run; try done; consts; lia).
  clear D'.
  assert (HSL : ∀ i, 0 ≤ i < cnt d → slen i d' = slen i d ∧ soff i d' = soff i d ∧ (ssz i d' ≠ 0 → ssz i d ≠ 0)).
  { intros i Hi. unfold slen at 1. destruct (decide (i = k)) as [->|Hne]; [by rewrite RK|].
    by destruct (Ri i Hi Hne) as [-> ->]. }
  assert (HTK : tuple_at k d' = Some (2 ^ 31 <=? z, zregion (soff k d) (slen k d) d)).
  { destruct (HSL k Hk) as (E1 & E2 & _). unfold tuple_at. rewrite E1, E2, RK.
    rewrite (proj2 (Z.eqb_neq _ _)); [do 2 f_equal; apply RR; lia|].
    intros ->. rewrite Z.mod_0_l in HM by lia. lia. }
  assert (HC : contents d' = <[Z.to_nat k := tuple_at k d']> (contents d)).
  { rewrite (contents_put d d' k); [|lia..|].
    - unfold put_slot. by rewrite (proj2 (Nat.ltb_lt _ _)) by lia.
    - intros i Hi Hne. destruct (Ri i Hi Hne) as [E1 E2]. unfold tuple_at, slen. rewrite E1, E2.
      destruct (Z.eqb_spec (ssz i d) 0) as [|Hzi]; [done|].
      destruct (pw_slot d W i Hi Hzi) as (? & ? & ?). unfold slen in *. do 2 f_equal. apply RR; lia. }
  exists d'. split; [done|]. split; [|by rewrite HC, HTK]. split.
  - done.
  - rewrite RC, RF. done.
  - intros i Hi Hzi. rewrite RC in Hi. destruct (HSL i Hi) as (-> & -> & Hzz). rewrite RF.
    apply (pw_slot d W i Hi). auto.
  - intros i j Hi Hj Hne Hzi Hzj. rewrite RC in Hi, Hj.
    destruct (HSL i Hi) as (-> & -> & ?), (HSL j Hj) as (-> & -> & ?). apply (pw_disj d W); auto.
  - rewrite RF, HC, HTK. erewrite total_insert by (by apply contents_lookup_Z).
    rewrite weight_slot by done. rewrite (proj2 (Z.eqb_neq _ _)) by done. unfold weight.
    fold (zlen (zregion (soff k d) (slen k d) d)). rewrite zlen_region; [lia|consts; lia..].
Qed.

(** ** Operations on the state *)
Definition bytes (s : TPState) : list byte := pdata (tpage s).
Definition set_bytes (d : list byte) (s : TPState) : TPState := set_tpage (set_pdata d (tpage s)) s.

(** The page id and the links of the page. *)
Definition links (d : list byte) : Z * Z * Z := (zfield 0 d, zfield 8 d, zfield 12 d).

Lemma tp_read_run {A} (f : list byte → res A) s a : f (bytes s) = Ok a → tp_read f s = Ok (a, s).
Proof. unfold tp_read, bytes. by intros ->. Qed.
Lemma tp_write_run f s d : f (bytes s) = Ok d → tp_write f s = Ok (tt, set_bytes d s).
Proof. unfold tp_write, bytes. by intros ->. Qed.

(** One step of an operation: a read, a write, a step known by a hypothesis. *)
Ltac step_read E :=
  match goal with |- context [mbind _ (tp_read ?f) ?s] =>
    rewrite (st_bind_run _ _ s _ _ (tp_read_run f s _ E)) end.
Ltac step_write E :=
  match goal with |- context [mbind _ (tp_write ?f) ?s] =>
    rewrite (st_bind_run _ _ s _ _ (tp_write_run f s _ E)) end.
Ltac step E := rewrite (st_bind_run _ _ _ _ _ E).
Ltac step_lift E :=
  match goal with |- context [mbind _ (st_lift ?m) ?s] =>
    rewrite (st_bind_run _ _ s _ _ (st_lift_run m _ s E)) end.
Ltac step_get := unfold st_get at 1; rewrite (st_bind_run _ _ _ _ _ eq_refl).

(** With logging on, the lock an operation asks for is granted and its record
    can be appended. *)
Definition op_ready (lock : Transaction → LockManager → res (bool * Transaction * LockManager))
    (mk : Z → Z → LogRecord) (s : TPState) : Prop :=
  EnableLogging s = true → ∃ t lm t' lm' l, ttxn s = Some t ∧ tlocks s = Some lm ∧
    lock t lm = Ok (true, t', lm') ∧ txn_id t' = txn_id t ∧ prev_lsn t' = prev_lsn t ∧
    tlog s = Some l ∧ log_wf l ∧ appendable (mk (txn_id t) (prev_lsn t)).

(** What the operation then does besides changing its tuple: the record is
    appended with the next LSN, which becomes the page's and the transaction's. *)
Definition op_logged (lock : Transaction → LockManager → res (bool * Transaction * LockManager))
    (mk : Z → Z → LogRecord) (s s' : TPState) : Prop :=
  EnableLogging s' = EnableLogging s ∧
  if EnableLogging s then
    ∃ t lm t' lm' l l', ttxn s = Some t ∧ tlocks s = Some lm ∧ lock t lm = Ok (true, t', lm') ∧
      tlog s = Some l ∧ appended (set_Lsn (next_lsn (fst l)) (mk (txn_id t) (prev_lsn t))) l l' ∧
      tlog s' = Some l' ∧ tlocks s' = Some lm' ∧ ttxn s' = Some (SetPrevLSN (next_lsn (fst l)) t') ∧
      GetLSN (tpage s') = i32 (next_lsn (fst l))
  else ttxn s' = ttxn s ∧ tlocks s' = tlocks s ∧ tlog s' = tlog s ∧ GetLSN (tpage s') = GetLSN (tpage s).

Lemma GetLSN_field p : GetLSN p = i32 (zfield OffsetLSN (pdata p)).
Proof. done. Qed.

Lemma header_field d d' p : same_header d d' → 0 ≤ p → p + 4 ≤ 16 → zfield p d' = zfield p d.
Proof.
  unfold same_header. intros H H1 H2. apply zfield_zregion. apply (f_equal (region (Z.to_nat p) 4)) in H.
  unfold zregion in *. rewrite !region_region in H by lia. exact H.
Qed.

Lemma header_links d d' : same_header d d' → links d' = links d.
Proof. intros H. unfold links. by rewrite !(header_field d d') by (done || lia). Qed.

Lemma header_LSN d d' s : same_header d d' → bytes s = d → GetLSN (tpage (set_bytes d' s)) = GetLSN (tpage s).
Proof. intros H <-. rewrite !GetLSN_field. simpl. by rewrite (header_field _ _ _ H) by done. Qed.

(** Stamping. *)
Definition SetLSN_bytes (lsn : Z) (d : list byte) : list byte := zput OffsetLSN (LSN_Serialize lsn) d.

Lemma stamp_page d lsn :
  page_wf d → page_wf (SetLSN_bytes lsn d) ∧ contents (SetLSN_bytes lsn d) = contents d ∧
    links (SetLSN_bytes lsn d) = links d ∧ zfield OffsetLSN (SetLSN_bytes lsn d) = u32 lsn ∧
    (∀ p, 16 ≤ p → p + 4 ≤ PageSize → zfield p (SetLSN_bytes lsn d) = zfield p d) ∧
    (∀ p n, 16 ≤ p → 0 ≤ n → p + n ≤ PageSize → zregion p n (SetLSN_bytes lsn d) = zregion p n d).
Proof.
  intros W. page_facts d W. unfold SetLSN_bytes, LSN_Serialize.
  destruct (header_put OffsetLSN (le_bytes 4 (u32 lsn)) d W) as [W' C']; [done|by rewrite zlen_le|].
  split; [done|]. split; [done|]. unfold links, OffsetLSN in *. split; [by rd|].
  split; [rd; apply u32_u32|]. split; intros; rd; done.
Qed.

(** What is left of a page by an operation that only writes its LSN. *)
Record restamped (d d' : list byte) : Prop := {
  rs_wf : page_wf d';
  rs_contents : contents d' = contents d;
  rs_links : links d' = links d;
  rs_field : ∀ p, 16 ≤ p → p + 4 ≤ PageSize → zfield p d' = zfield p d;
  rs_region : ∀ p n, 16 ≤ p → 0 ≤ n → p + n ≤ PageSize → zregion p n d' = zregion p n d
}.

Lemma restamped_refl d : page_wf d → restamped d d.
Proof. by split. Qed.

Lemma restamped_stamp d lsn : page_wf d → restamped d (SetLSN_bytes lsn d).
Proof. intros W. destruct (stamp_page d lsn W) as (? & ? & ? & ? & ? & ?). by split. Qed.

Lemma op_logged_set_bytes lock mk s s' d :
  op_logged lock mk s s' → same_header (bytes s') d → op_logged lock mk s (set_bytes d s').
Proof.
  intros [H1 H2] HH. pose proof (header_LSN _ _ s' HH eq_refl) as HL.
  split; [exact H1|]. destruct (EnableLogging s).
  - destruct H2 as (t & lm & t' & lm' & l & l' & H). exists t, lm, t', lm', l, l'.
    rewrite HL. exact H.
  - rewrite HL. exact H2.
Qed.

(** The lock is taken; and, once any change to the tuples of the page has been
    made, the record is appended and the page stamped. *)
Lemma lock_log_run lock mk s :
  op_ready lock mk s →
  ∃ s1, (if EnableLogging s then tp_lock lock else mret true) s = Ok (true, s1) ∧
    tpage s1 = tpage s ∧ EnableLogging s1 = EnableLogging s ∧
    ∀ d, page_wf d → same_header (bytes s) d →
      ∃ s2, (if EnableLogging s then log_record_for mk else mret tt) (set_bytes d s1) = Ok (tt, s2) ∧
        op_logged lock mk s s2 ∧ restamped d (bytes s2).
Proof.
  intros HR. unfold op_ready, op_logged in *. destruct (EnableLogging s) eqn:EL.
  - destruct (HR eq_refl) as (t & lm & t' & lm' & l & Et & Elm & ELk & EI & EP & Elg & Wl & HA).
    exists (set_tlocks lm' (set_ttxn t' s)). unfold tp_lock. rewrite Elm, Et. mred. rewrite ELk. mred.
    repeat (split; [done|]). intros d Wd Hd. destruct l as [lm1 dk].
    destruct (AppendLogRecord_run _ _ _ Wl HA) as (l' & EA & A).
    unfold log_record_for. cbn [ttxn tlog set_tlocks set_ttxn set_bytes set_tpage deref].
    rewrite Elg. mred. rewrite EI, EP, EA. mred.
    eexists. split; [done|]. cbn [fst] in *.
    destruct (stamp_page d (next_lsn lm1) Wd) as (_ & _ & _ & HS & _ & _).
    split; [|by apply restamped_stamp]. split; [done|].
    exists t, lm, t', lm', (lm1, dk), l'. cbn [fst tlog tlocks ttxn set_ttxn set_tpage set_tlog].
    repeat (split; [done|]). rewrite GetLSN_field. cbn [tpage set_ttxn set_tpage SetLSN set_pdata pdata].
    unfold SetLSN_bytes in HS. change (overwrite (Z.to_nat OffsetLSN) ?b ?x) with (zput OffsetLSN b x).
    cbn [set_bytes set_tpage tpage set_pdata pdata]. rewrite HS. by rewrite i32_u32.
  - exists s. repeat (split; [done|]). intros d Wd Hd. exists (set_bytes d s). split; [done|].
    split; [|by apply restamped_refl]. split; [done|]. repeat (split; [done|]).
    by apply header_LSN with (bytes s).
Qed.

(** ** Inserting *)
Definition insert_record (r : RID) (t : Tuple) : Z → Z → LogRecord :=
  λ i l, NewLogRecordInsertDelete i l INSERT r (SetRID r t).
Definition insert_lock (r : RID) (t : Transaction) (lm : LockManager) :
    res (bool * Transaction * LockManager) := Ok (LockExclusive t r lm).

(** The record an insert into a page gets. *)
Definition insert_rid (d : list byte) : RID :=
  MkRID (GetTablePageId d) (Z.of_nat (free_slot (contents d))).

Lemma insert_tuple_run s t :
  page_wf (bytes s) → tuple_ok t → 0 < size t → size t + sizeTuple ≤ free_space (contents (bytes s)) →
  let rid := insert_rid (bytes s) in
  op_ready (insert_lock rid) (insert_record rid t) s →
  ∃ s', InsertTuple t s = Ok ((inr rid, SetRID rid t), s') ∧ page_wf (bytes s') ∧
    contents (bytes s') =
      put_slot (free_slot (contents (bytes s))) (Some (false, data t)) (contents (bytes s)) ∧
    links (bytes s') = links (bytes s) ∧ op_logged (insert_lock rid) (insert_record rid t) s s'.
Proof.
  intros W Ht Hs Hsp rid HR. set (d := bytes s) in *. pose proof (free_space_range d W).
  page_facts d W. pose proof (free_slot_le (contents d)). pose proof (contents_length d).
  set (k := Z.of_nat (free_slot (contents d))) in *.
  assert (Hk : 0 ≤ k ≤ cnt d) by lia.
  assert (Hfree : k < cnt d → ssz k d = 0).
  { intros Hlt. pose proof (free_slot_spec (contents d)) as HF. rewrite <- (Nat2Z.id (free_slot _)) in HF.
    fold k in HF. rewrite contents_lookup_Z in HF by lia. unfold tuple_at in HF. simpl in HF.
    by destruct (Z.eqb_spec (ssz k d) 0). }
  pose proof (pw_len d W) as L0.
  assert (US : u32 (size t + sizeTuple) = size t + sizeTuple) by (apply u32_small; consts; lia).
  destruct (insert_bytes d k t) as (d1 & d2 & d3 & E1 & E2 & L1 & L2 & C2 & E3 & W3 & C3 & HH); try done.
  destruct (lock_log_run _ _ s HR) as (s1 & EL & P1 & EE & HLog).
  destruct (HLog d3 W3 HH) as (s2 & ELog & HO & [R1 R2 R3 _ _]).
  exists s2. rewrite R2, R3, C3, (header_links d d3 HH). split; [|unfold k; by rewrite Nat2Z.id].
  unfold InsertTuple. rewrite (proj2 (Z.eqb_neq _ _)) by lia.
  step_read (getFreeSpaceRemaining_run d W).
  rewrite US, (proj2 (Z.ltb_ge _ _)) by lia.
  assert (EF : find_slot slot_fuel 0 d = Ok k).
  { rewrite find_slot_run; [|done|lia|rewrite Z.sub_0_r; by apply slot_fuel_enough].
    rewrite drop_0. unfold k. f_equal; lia. }
  step_read EF.
  step_read (GetTupleCount_run d (pw_len d W)).
  step_read (getFreeSpaceRemaining_run d W).
  rewrite (proj2 (Z.ltb_ge _ _)), andb_false_r by lia.
  step_get.
  change (MkRID (GetTablePageId (pdata (tpage s))) k) with rid. cbv zeta.
  step EL. cbn [negb]. assert (B1 : bytes s1 = d) by (unfold bytes; by rewrite P1).
  assert (EF1 : GetFreeSpacePointer (bytes s1) = Ok (fsp d)) by (rewrite B1; by apply GetFreeSpacePointer_run).
  assert (E1' : SetFreeSpacePointer (u32 (fsp d - size t)) (bytes s1) = Ok d1) by by rewrite B1.
  step_read EF1. step_write E1'. step_write E2. step_read (GetTupleCount_run d2 L2). rewrite C2.
  assert (EW : (if k =? cnt d then tp_write (SetTupleCount (u32 (cnt d + 1))) else mret tt)
    (set_bytes d2 (set_bytes d1 s1)) = Ok (tt, set_bytes d3 s1)).
  { destruct (k =? _); [exact (tp_write_run _ (set_bytes d2 s1) _ E3)|by rewrite E3]. }
  step EW. step ELog. done.
Qed.

(** C25: inserting a tuple into a page with room stores its bytes in the first
    empty slot, or in a new one, and changes no other tuple, nor the page's id
    and links; with logging on, the exclusive lock on the new record is taken
    and an INSERT record appended, whose LSN the page and the transaction get. *)
Theorem insert_tuple_spec s t :
  page_wf (bytes s) → tuple_ok t → 0 < size t → size t + sizeTuple ≤ free_space (contents (bytes s)) →
  let rid := insert_rid (bytes s) in
  op_ready (insert_lock rid) (insert_record rid t) s →
  ∃ s', InsertTuple t s = Ok ((inr rid, SetRID rid t), s') ∧ page_wf (bytes s') ∧
    contents (bytes s') =
      put_slot (free_slot (contents (bytes s))) (Some (false, data t)) (contents (bytes s)) ∧
    links (bytes s') = links (bytes s) ∧ op_logged (insert_lock rid) (insert_record rid t) s s'.
Proof. intros. by apply insert_tuple_run. Qed.

(** The transaction is aborted, with logging on. *)
Definition aborted (s s' : TPState) : Prop :=
  if EnableLogging s then ∃ t, ttxn s = Some t ∧ s' = set_ttxn (SetState ABORTED t) s else s' = s.

Lemma abort_run s :
  (EnableLogging s = true → is_Some (ttxn s)) → ∃ s', abort_if_logging s = Ok (tt, s') ∧ aborted s s'.
Proof.
  unfold abort_if_logging, tp_set_state, aborted. destruct (EnableLogging s); [|by eauto].
  intros H. destruct H as [t E]; [done|]. rewrite E. mred. eauto.
Qed.

(** The locks of the operations, on the transaction and the tables. *)
Definition write_lock (r : RID) (t : Transaction) (lm : LockManager) :
    res (bool * Transaction * LockManager) :=
  if IsSharedLocked t r then LockUpgrade t r lm
  else if IsExclusiveLocked t r then Ok (true, t, lm) else Ok (LockExclusive t r lm).
Definition read_lock (r : RID) (t : Transaction) (lm : LockManager) :
    res (bool * Transaction * LockManager) :=
  if IsSharedLocked t r then Ok (true, t, lm)
  else if IsExclusiveLocked t r then Ok (true, t, lm) else Ok (LockShared t r lm).
Definition own_lock (r : RID) (t : Transaction) (lm : LockManager) :
    res (bool * Transaction * LockManager) :=
  if IsExclusiveLocked t r then Ok (true, t, lm) else Panic.

Lemma set_same s t lm : ttxn s = Some t → tlocks s = Some lm → set_tlocks lm (set_ttxn t s) = s.
Proof. destruct s. simpl. by intros -> ->. Qed.

Lemma lock_for_write_run r s t lm :
  ttxn s = Some t → tlocks s = Some lm → lock_for_write r s = tp_lock (write_lock r) s.
Proof.
  intros Et El. unfold lock_for_write, tp_txn, tp_LockUpgrade, tp_LockExclusive, tp_lock, write_lock.
  unfold mbind, st_mbind. rewrite Et, El. cbn [deref res_mbind res_bind].
  destruct (IsSharedLocked t r); rewrite ?Et, ?El; [done|].
  destruct (IsExclusiveLocked t r); rewrite ?Et, ?El; [|done].
  cbn. by rewrite (set_same s t lm).
Qed.

(** A check of the exclusive lock before the record. *)
Lemma own_log_run r mk s :
  op_ready (own_lock r) mk s → page_wf (bytes s) →
  ∃ s2, (if EnableLogging s then (_ ← assert_exclusive r; log_record_for mk) else mret tt) s = Ok (tt, s2) ∧
    op_logged (own_lock r) mk s s2 ∧ restamped (bytes s) (bytes s2).
Proof.
  intros HR W. destruct (lock_log_run _ _ s HR) as (s1 & EL & P1 & EE & HLog).
  destruct (HLog (bytes s) W) as (s2 & E2 & HO & HS); [done|]. exists s2. split; [|done].
  unfold op_ready in HR. destruct (EnableLogging s) eqn:EN.
  - destruct (HR eq_refl) as (t & lm & t' & lm' & l & Et & Elm & ELk & _).
    unfold tp_lock in EL. rewrite Et, Elm in EL. cbn in EL. rewrite ELk in EL. cbn in EL.
    injection EL as <-. unfold own_lock in ELk. destruct (IsExclusiveLocked t r) eqn:EX; [|done].
    injection ELk as <- <-. rewrite (set_same s t lm) in * by done.
    unfold assert_exclusive, tp_txn. unfold mbind, st_mbind. rewrite Et. cbn [deref res_mbind res_bind].
    rewrite EX. cbn. rewrite <- E2. f_equal.
  - injection EL as <-. rewrite <- E2. f_equal. by destruct s as [? []].
Qed.

(** A lock for writing before the record. *)
Lemma write_log_run r mk s :
  op_ready (write_lock r) mk s → page_wf (bytes s) →
  ∃ s1 s2, (if EnableLogging s then lock_for_write r else mret true) s = Ok (true, s1) ∧
    (if EnableLogging s then log_record_for mk else mret tt) s1 = Ok (tt, s2) ∧
    op_logged (write_lock r) mk s s2 ∧ restamped (bytes s) (bytes s2).
Proof.
  intros HR W. destruct (lock_log_run _ _ s HR) as (s1 & EL & P1 & EE & HLog).
  destruct (HLog (bytes s) W) as (s2 & E2 & HO & HS); [done|]. exists s1, s2.
  assert (E1 : set_bytes (bytes s) s1 = s1).
  { unfold set_bytes, bytes. rewrite <- P1. by destruct s1 as [? []]. }
  rewrite E1 in E2. split; [|done]. unfold op_ready in HR. destruct (EnableLogging s) eqn:EN; [|done].
  destruct (HR eq_refl) as (t & lm & t' & lm' & l & Et & Elm & ELk & _).
  by rewrite (lock_for_write_run r s t lm).
Qed.

(** *** What the slot of a record says *)
Definition slot_of (r : RID) (d : list byte) : option (option (bool * list byte)) :=
  contents d !! Z.to_nat (SlotNum r).

Lemma slot_of_Some r d x :
  0 ≤ SlotNum r → slot_of r d = Some x → 0 ≤ SlotNum r < cnt d ∧ tuple_at (SlotNum r) d = x.
Proof.
  unfold slot_of. rewrite contents_lookup. intros H. case_decide; [|done].
  rewrite Z2Nat.id in * by done. intros. simplify_eq. done.
Qed.

Lemma tuple_at_Some i d b bs :
  tuple_at i d = Some (b, bs) →
  ssz i d ≠ 0 ∧ bs = zregion (soff i d) (slen i d) d ∧ b = (2 ^ 31 <=? ssz i d).
Proof. unfold tuple_at. destruct (Z.eqb_spec (ssz i d) 0); [done|]. intros. by simplify_eq. Qed.

Lemma tuple_at_live i d bs :
  tuple_at i d = Some (false, bs) → slen i d = ssz i d.
Proof. intros H. apply tuple_at_Some in H as (_ & _ & H). by apply ssz_small. Qed.

Lemma slot_bytes_len d i b bs :
  page_wf d → 0 ≤ i < cnt d → tuple_at i d = Some (b, bs) → zlen bs = slen i d.
Proof.
  intros W Hi HT. destruct (tuple_at_Some _ _ _ _ HT) as (Hz & -> & _).
  destruct (pw_slot d W i Hi Hz) as (? & ? & ?). page_facts d W. unfold fsp in *.
  apply zlen_region; consts; lia.
Qed.

(** What the operations read of an occupied slot. *)
Record occupied (r : RID) (d : list byte) (b : bool) (bs : list byte) : Prop := {
  oc_range : 0 ≤ SlotNum r < cnt d;
  oc_count : GetTupleCount d = Ok (cnt d);
  oc_offset : GetTupleOffsetAtSlot (SlotNum r) d = Ok (soff (SlotNum r) d);
  oc_size : GetTupleSize (SlotNum r) d = Ok (ssz (SlotNum r) d);
  oc_nonzero : ssz (SlotNum r) d ≠ 0;
  oc_flag : (2 ^ 31 <=? ssz (SlotNum r) d) = b;
  oc_len : slen (SlotNum r) d = zlen bs;
  oc_pos : 0 < zlen bs;
  oc_fit : 0 ≤ soff (SlotNum r) d ∧ soff (SlotNum r) d + zlen bs ≤ PageSize;
  oc_bytes : zregion (soff (SlotNum r) d) (zlen bs) d = bs;
  oc_slice : slice d (soff (SlotNum r) d) (u32 (soff (SlotNum r) d + zlen bs)) = Ok bs;
  oc_lookup : contents d !! Z.to_nat (SlotNum r) = Some (Some (b, bs))
}.

Lemma occupied_intro r d b bs :
  page_wf d → 0 ≤ SlotNum r → slot_of r d = Some (Some (b, bs)) → occupied r d b bs.
Proof.
  intros W H0 HS. destruct (slot_of_Some r d _ H0 HS) as [Hr HT].
  destruct (tuple_at_Some _ _ _ _ HT) as (Hz & HB & Hb). pose proof (slot_bytes_len d _ b bs W Hr HT) as HL.
  destruct (pw_slot d W _ Hr Hz) as (K1 & K2 & K3). page_facts d W. unfold fsp in *.
  pose proof (slot_fits d _ W Hr).
  split; try done.
  - by apply GetTupleCount_run.
  - apply GetTupleOffsetAtSlot_run; try done; lia.
  - apply GetTupleSize_run; try done; lia.
  - lia.
  - consts. lia.
  - by rewrite HL.
  - rewrite u32_small by (consts; lia). rewrite slice_Ok by (unfold zlen in *; consts; lia). f_equal.
    rewrite HL at 1. replace (_ + _ - _) with (slen (SlotNum r) d) by lia. by rewrite HB.
Qed.

Lemma oc_deleted r d b bs : occupied r d b bs → IsDeleted (ssz (SlotNum r) d) = b.
Proof.
  intros HO. rewrite IsDeleted_spec by apply zfield_range. rewrite (oc_flag _ _ _ _ HO).
  rewrite (proj2 (Z.eqb_neq _ _)) by apply HO. apply orb_false_r.
Qed.

Definition mark_record (r : RID) : Z → Z → LogRecord :=
  λ i l, NewLogRecordInsertDelete i l MARKDELETE r ZeroTuple.
Definition rollback_record (r : RID) : Z → Z → LogRecord :=
  λ i l, NewLogRecordInsertDelete i l ROLLBACKDELETE r ZeroTuple.
Definition stored_tuple (r : RID) (bs : list byte) : Tuple := MkTuple (Some r) (zlen bs) bs.
Definition apply_record (r : RID) (bs : list byte) : Z → Z → LogRecord :=
  λ i l, NewLogRecordInsertDelete i l APPLYDELETE r (stored_tuple r bs).

(** What a successful operation that changes one slot leaves. *)
Definition slot_changed (r : RID) (x : option (bool * list byte)) (s s' : TPState) : Prop :=
  page_wf (bytes s') ∧ contents (bytes s') = <[Z.to_nat (SlotNum r) := x]> (contents (bytes s)) ∧
  links (bytes s') = links (bytes s).

Lemma restamped_occupied r d d' b bs :
  page_wf d → occupied r d b bs → restamped d d' → occupied r d' b bs ∧
    soff (SlotNum r) d' = soff (SlotNum r) d ∧ ssz (SlotNum r) d' = ssz (SlotNum r) d ∧ cnt d' = cnt d.
Proof.
  intros W HO [W' C' _ RF _]. pose proof (slot_fits d _ W (oc_range _ _ _ _ HO)).
  pose proof (oc_range _ _ _ _ HO). split; [|split_and!; apply RF; consts; lia].
  apply occupied_intro; [done|lia|]. unfold slot_of. rewrite C'. apply HO.
Qed.

(** Flipping the flag after the record has been written. *)
Lemma flip_run r s2 b z bs :
  page_wf (bytes s2) → occupied r (bytes s2) b bs → in_u32 z → z mod 2 ^ 31 = zlen bs →
  ∃ d', SetTupleSize (SlotNum r) z (bytes s2) = Ok d' ∧ same_header (bytes s2) d' ∧
    slot_changed r (Some (2 ^ 31 <=? z, bs)) s2 (set_bytes d' s2).
Proof.
  intros W HO HZ HM.
  destruct (flag_bytes _ _ z W (oc_range _ _ _ _ HO) (oc_nonzero _ _ _ _ HO) HZ) as (d' & E & W' & C' & H').
  { by rewrite HM, (oc_len _ _ _ _ HO). }
  exists d'. split; [done|]. split; [done|]. split; [done|].
  rewrite (oc_len _ _ _ _ HO), (oc_bytes _ _ _ _ HO) in C'. split; [done|]. by apply header_links.
Qed.

Lemma slot_changed_restamped r x s s2 s' :
  restamped (bytes s) (bytes s2) → slot_changed r x s2 s' → slot_changed r x s s'.
Proof. intros [_ C L _ _] (W' & C' & L'). split; [done|]. by rewrite C', L', C, L. Qed.

Lemma mark_delete_run s r bs :
  page_wf (bytes s) → 0 ≤ SlotNum r → slot_of r (bytes s) = Some (Some (false, bs)) →
  op_ready (write_lock r) (mark_record r) s →
  ∃ s', MarkDelete r s = Ok (true, s') ∧ slot_changed r (Some (true, bs)) s s' ∧
    op_logged (write_lock r) (mark_record r) s s'.
Proof.
  intros W H0 HS HR. pose proof (occupied_intro r _ _ _ W H0 HS) as HO.
  destruct (write_log_run r _ s HR W) as (s1 & s2 & E1 & E2 & HL & RS).
  destruct (restamped_occupied r _ _ _ _ W HO RS) as (HO2 & RO & RZ & RC).
  pose proof (oc_flag _ _ _ _ HO) as Hf. pose proof (oc_pos _ _ _ _ HO).
  assert (Hsz : ssz (SlotNum r) (bytes s) = zlen bs) by (rewrite <- (oc_len _ _ _ _ HO); symmetry; by apply ssz_small).
  apply Z.leb_gt in Hf.
  destruct (flip_run r s2 false (zlen bs + 2 ^ 31) bs (rs_wf _ _ RS) HO2) as (d' & E3 & H3 & HC);
    [consts; lia|rewrite <- Z.add_mod_idemp_r, Z.mod_same, Z.add_0_r by lia; apply Z.mod_small; lia|].
  exists (set_bytes d' s2). split; [|split; [|by apply op_logged_set_bytes]].
  - unfold MarkDelete. step_read (oc_count _ _ _ _ HO).
    rewrite (proj2 (Z.leb_gt _ _)) by apply HO. step_read (oc_size _ _ _ _ HO).
    rewrite (oc_deleted _ _ _ _ HO). step_get. step E1. cbn [negb]. step E2.
    rewrite Hsz, (proj2 (Z.ltb_lt _ _)) by lia. rewrite Set_spec by lia. step_write E3. done.
  - rewrite (proj2 (Z.leb_le _ _)) in HC by lia. by eapply slot_changed_restamped.
Qed.

(** Marking a live tuple as deleted sets its flag and changes nothing else
    on the page; with logging on, after the transaction holds the exclusive
    lock, and with a MARKDELETE record. *)
Theorem mark_delete_spec s r bs :
  page_wf (bytes s) → 0 ≤ SlotNum r → slot_of r (bytes s) = Some (Some (false, bs)) →
  op_ready (write_lock r) (mark_record r) s →
  ∃ s', MarkDelete r s = Ok (true, s') ∧ slot_changed r (Some (true, bs)) s s' ∧
    op_logged (write_lock r) (mark_record r) s s'.
Proof. intros. by apply mark_delete_run. Qed.

Lemma rollback_delete_run s r bs :
  page_wf (bytes s) → 0 ≤ SlotNum r → slot_of r (bytes s) = Some (Some (true, bs)) →
  op_ready (own_lock r) (rollback_record r) s →
  ∃ s', RollbackDelete r s = Ok (tt, s') ∧ slot_changed r (Some (false, bs)) s s' ∧
    op_logged (own_lock r) (rollback_record r) s s'.
Proof.
  intros W H0 HS HR. pose proof (occupied_intro r _ _ _ W H0 HS) as HO.
  destruct (own_log_run r _ s HR W) as (s2 & E2 & HL & RS).
  destruct (restamped_occupied r _ _ _ _ W HO RS) as (HO2 & RO & RZ & RC).
  pose proof (slen_range (SlotNum r) (bytes s)) as HN. rewrite (oc_len _ _ _ _ HO) in HN.
  destruct (flip_run r s2 true (zlen bs) bs (rs_wf _ _ RS) HO2) as (d' & E3 & H3 & HC);
    [consts; lia|by apply Z.mod_small|].
  exists (set_bytes d' s2). split; [|split; [|by apply op_logged_set_bytes]].
  - unfold RollbackDelete. step_get. step E2. step_read (oc_count _ _ _ _ HO2).
    rewrite (proj2 (Z.ltb_lt _ _)) by apply HO2. step_lift (eq_refl (Ok tt)).
    step_read (oc_size _ _ _ _ HO2). rewrite (oc_deleted _ _ _ _ HO2).
    rewrite Unset_spec by apply zfield_range. fold (slen (SlotNum r) (bytes s2)).
    rewrite (oc_len _ _ _ _ HO2). by apply tp_write_run.
  - rewrite (proj2 (Z.leb_gt _ _)) in HC by lia. by eapply slot_changed_restamped.
Qed.

(** Rolling a delete back clears the flag: the tuple is live again with
    its bytes, everything else on the page as before. *)
Theorem rollback_delete_spec s r bs :
  page_wf (bytes s) → 0 ≤ SlotNum r → slot_of r (bytes s) = Some (Some (true, bs)) →
  op_ready (own_lock r) (rollback_record r) s →
  ∃ s', RollbackDelete r s = Ok (tt, s') ∧ slot_changed r (Some (false, bs)) s s' ∧
    op_logged (own_lock r) (rollback_record r) s s'.
Proof. intros. by apply rollback_delete_run. Qed.

Lemma apply_delete_run s r b bs :
  page_wf (bytes s) → 0 ≤ SlotNum r → slot_of r (bytes s) = Some (Some (b, bs)) →
  op_ready (own_lock r) (apply_record r bs) s →
  ∃ s', ApplyDelete r s = Ok (tt, s') ∧ slot_changed r None s s' ∧
    free_space (contents (bytes s')) = free_space (contents (bytes s)) + zlen bs ∧
    op_logged (own_lock r) (apply_record r bs) s s'.
Proof.
  intros W H0 HS HR. pose proof (occupied_intro r _ _ _ W H0 HS) as HO.
  destruct (own_log_run r _ s HR W) as (s2 & E2 & HL & RS).
  destruct (restamped_occupied r _ _ _ _ W HO RS) as (HO2 & RO & RZ & RC).
  destruct (remove_bytes (bytes s2) (SlotNum r) (rs_wf _ _ RS)) as (d' & E3 & W' & C' & H'); [apply HO2..|].
  rewrite (oc_len _ _ _ _ HO2) in E3.
  assert (HC : slot_changed r None s (set_bytes d' s2)).
  { eapply slot_changed_restamped; [done|]. split; [done|]. split; [done|]. by apply header_links. }
  exists (set_bytes d' s2). split; [|split; [exact HC|split; [|by apply op_logged_set_bytes]]].
  - unfold ApplyDelete. step_read (oc_count _ _ _ _ HO).
    rewrite (proj2 (Z.ltb_lt _ _)) by apply HO. step_lift (eq_refl (Ok tt)).
    step_read (oc_offset _ _ _ _ HO). step_read (oc_size _ _ _ _ HO). rewrite (oc_deleted _ _ _ _ HO).
    assert (ES : (if b then UnsetDeletedFlag (ssz (SlotNum r) (bytes s)) else ssz (SlotNum r) (bytes s)) = zlen bs).
    { rewrite <- (oc_len _ _ _ _ HO). pose proof (oc_flag _ _ _ _ HO) as Hf. destruct b.
      - apply Unset_spec, zfield_range.
      - symmetry. by apply ssz_small. }
    rewrite ES. cbv zeta. step_read (oc_slice _ _ _ _ HO). step_get.
    change (MkTuple (Some r) (zlen bs) bs) with (stored_tuple r bs). step E2.
    rewrite <- RO. by apply tp_write_run.
  - destruct HC as (_ & -> & _). unfold free_space. rewrite length_insert.
    erewrite total_insert by apply HO. unfold weight, zlen. lia.
Qed.

(** C26: applying a delete, or undoing an insert, removes the tuple's bytes:
    the slot becomes empty, the other tuples keep their bytes though they may
    move, and the page has as much more room as the tuple had bytes. *)
Theorem apply_delete_spec s r b bs :
  page_wf (bytes s) → 0 ≤ SlotNum r → slot_of r (bytes s) = Some (Some (b, bs)) →
  op_ready (own_lock r) (apply_record r bs) s →
  ∃ s', ApplyDelete r s = Ok (tt, s') ∧ slot_changed r None s s' ∧
    free_space (contents (bytes s')) = free_space (contents (bytes s)) + zlen bs ∧
    op_logged (own_lock r) (apply_record r bs) s s'.
Proof. intros. by eapply apply_delete_run. Qed.

Definition update_record (r : RID) (bs : list byte) (u : Tuple) : Z → Z → LogRecord :=
  λ i l, NewLogRecordUpdate i l UPDATE r (stored_tuple r bs) u.

Lemma update_tuple_run s r bs new_tuple idxs schema_ old_tuple u :
  page_wf (bytes s) → 0 ≤ SlotNum r → slot_of r (bytes s) = Some (Some (false, bs)) →
  0 < size new_tuple → make_update_tuple new_tuple (stored_tuple r bs) idxs schema_ = Ok u →
  tuple_ok u → 0 < size u < 2 ^ 31 →
  (size u ≤ free_space (contents (bytes s)) + zlen bs → op_ready (write_lock r) (update_record r bs u) s) →
  if decide (size u ≤ free_space (contents (bytes s)) + zlen bs) then
    ∃ s', UpdateTuple new_tuple idxs schema_ old_tuple r s =
        Ok ((true, None, None, stored_tuple r bs), s') ∧
      slot_changed r (Some (false, data u)) s s' ∧
      op_logged (write_lock r) (update_record r bs u) s s'
  else
    UpdateTuple new_tuple idxs schema_ old_tuple r s =
      Ok ((false, Some ErrNotEnoughSpace, Some u, stored_tuple r bs), s).
Proof.
  intros W H0 HS Hnew Hu Htu Hsu HR. pose proof (occupied_intro r _ _ _ W H0 HS) as HO.
  assert (ES : ssz (SlotNum r) (bytes s) = zlen bs).
  { rewrite <- (oc_len _ _ _ _ HO). symmetry. apply ssz_small, HO. }
  pose proof (free_space_range _ W). pose proof (oc_fit _ _ _ _ HO). pose proof (oc_pos _ _ _ _ HO).
  assert (EF : u32 (free_space (contents (bytes s)) + zlen bs) = free_space (contents (bytes s)) + zlen bs)
    by (apply u32_small; consts; lia).
  (* the part both cases share *)
  assert (EP : ∀ res, (if size u <=? free_space (contents (bytes s)) + zlen bs then
      (locked ← (if EnableLogging s then lock_for_write r else mret true);
       if negb locked then _ ← tp_set_state ABORTED; mret (false, None, None, stored_tuple r bs)
       else
         _ ← (if EnableLogging s then log_record_for (update_record r bs u) else mret tt);
         _ ← tp_write (replace_tuple (SlotNum r) (soff (SlotNum r) (bytes s)) (zlen bs) u);
         mret (true, None, None, stored_tuple r bs)) s
      else Ok ((false, Some ErrNotEnoughSpace, Some u, stored_tuple r bs), s)) = res →
    UpdateTuple new_tuple idxs schema_ old_tuple r s = res).
  { intros res0 <-. unfold UpdateTuple. rewrite (proj2 (Z.ltb_lt _ _)) by lia.
    step_lift (eq_refl (Ok tt)). step_read (oc_count _ _ _ _ HO).
    rewrite (proj2 (Z.leb_gt _ _)) by apply HO. step_read (oc_size _ _ _ _ HO).
    rewrite (oc_deleted _ _ _ _ HO). step_read (oc_offset _ _ _ _ HO). rewrite ES.
    step_read (oc_slice _ _ _ _ HO). cbv zeta. fold (stored_tuple r bs). 
    step_lift Hu. step_read (getFreeSpaceRemaining_run _ W).
    rewrite EF, Z.ltb_antisym. destruct (size u <=? _); [|done]. cbn [negb]. by step_get. }
  case_decide as HD.
  - destruct (write_log_run r _ s (HR HD) W) as (s1 & s2 & E1 & E2 & HL & RS).
    destruct (restamped_occupied r _ _ _ _ W HO RS) as (HO2 & RO & RZ & RC).
    destruct (replace_bytes (bytes s2) (SlotNum r) u (rs_wf _ _ RS)) as (d' & E3 & W' & C' & H'); try apply HO2;
      try done; [by rewrite (oc_len _ _ _ _ HO2), RZ|by rewrite (rs_contents _ _ RS), RZ, ES|].
    exists (set_bytes d' s2). split; [|split; [|by apply op_logged_set_bytes]].
    + apply EP. rewrite (proj2 (Z.leb_le _ _)) by done. step E1. cbn [negb]. step E2.
      rewrite RO, RZ, ES in E3. step_write E3. done.
    + eapply slot_changed_restamped; [done|]. split; [done|]. split; [done|]. by apply header_links.
  - apply EP. by rewrite (proj2 (Z.leb_gt _ _)) by lia.
Qed.

(** Updating a live tuple.  The tuple to write is the new one, or the old
    one with the listed columns of the new one.  If it fits in the room of the
    page and of the old tuple, the slot gets its bytes, the other tuples keep
    theirs, and the caller's [old_tuple] has the old value; if not, nothing
    changes and the tuple is handed back to be inserted elsewhere. *)
Theorem update_tuple_spec s r bs new_tuple idxs schema_ old_tuple u :
  page_wf (bytes s) → 0 ≤ SlotNum r → slot_of r (bytes s) = Some (Some (false, bs)) →
  0 < size new_tuple → make_update_tuple new_tuple (stored_tuple r bs) idxs schema_ = Ok u →
  tuple_ok u → 0 < size u < 2 ^ 31 →
  (size u ≤ free_space (contents (bytes s)) + zlen bs → op_ready (write_lock r) (update_record r bs u) s) →
  if decide (size u ≤ free_space (contents (bytes s)) + zlen bs) then
    ∃ s', UpdateTuple new_tuple idxs schema_ old_tuple r s =
        Ok ((true, None, None, stored_tuple r bs), s') ∧
      slot_changed r (Some (false, data u)) s s' ∧
      op_logged (write_lock r) (update_record r bs u) s s'
  else
    UpdateTuple new_tuple idxs schema_ old_tuple r s =
      Ok ((false, Some ErrNotEnoughSpace, Some u, stored_tuple r bs), s).
Proof. intros. by apply update_tuple_run. Qed.

(** *** Reading *)
Lemma overwrite_prefix (src : list byte) n :
  (n ≤ length src)%nat → overwrite 0 src (replicate n Byte.x00) = take n src.
Proof.
  intros H. unfold overwrite. rewrite take_0, length_replicate, Nat.sub_0_r, Nat.add_0_l.
  rewrite drop_ge by (rewrite length_replicate; lia). apply app_nil_r.
Qed.

Lemma get_tuple_run s r bs :
  page_wf (bytes s) → 0 ≤ SlotNum r → slot_of r (bytes s) = Some (Some (false, bs)) →
  (EnableLogging s = true → ∃ t lm t' lm', ttxn s = Some t ∧ tlocks s = Some lm ∧
    read_lock r t lm = Ok (true, t', lm')) →
  ∃ s', GetTuple r s = Ok (Some (stored_tuple r bs), s') ∧ tpage s' = tpage s ∧
    (EnableLogging s = true → ∃ t lm t' lm', ttxn s = Some t ∧ tlocks s = Some lm ∧
       read_lock r t lm = Ok (true, t', lm') ∧ ttxn s' = Some t' ∧ tlocks s' = Some lm') ∧
    tlog s' = tlog s ∧ EnableLogging s' = EnableLogging s ∧ (EnableLogging s = false → s' = s).
Proof.
  intros W H0 HS HR. pose proof (occupied_intro r _ _ _ W H0 HS) as HO.
  assert (ES : ssz (SlotNum r) (bytes s) = zlen bs).
  { rewrite <- (oc_len _ _ _ _ HO). symmetry. apply ssz_small, HO. }
  assert (EL : ∃ s', (if EnableLogging s then
      t ← tp_txn;
      if IsSharedLocked t r then mret true
      else if IsExclusiveLocked t r then mret true else tp_LockShared r
    else mret true) s = Ok (true, s') ∧ tpage s' = tpage s ∧
    (EnableLogging s = true → ∃ t lm t' lm', ttxn s = Some t ∧ tlocks s = Some lm ∧
       read_lock r t lm = Ok (true, t', lm') ∧ ttxn s' = Some t' ∧ tlocks s' = Some lm') ∧
    tlog s' = tlog s ∧ EnableLogging s' = EnableLogging s ∧ (EnableLogging s = false → s' = s)).
  { destruct (EnableLogging s) eqn:EE; [|by exists s].
    destruct (HR eq_refl) as (t & lm & t' & lm' & Et & El & EK).
    exists (set_tlocks lm' (set_ttxn t' s)). split; [|split; [done|]].
    - unfold tp_txn, tp_LockShared, tp_lock, mbind, st_mbind. rewrite Et. cbn [deref res_mbind res_bind].
      unfold read_lock in EK. destruct (IsSharedLocked t r); [injection EK as <- <-|
        destruct (IsExclusiveLocked t r); [injection EK as <- <-|]].
      1-2: by rewrite (set_same s t lm).
      rewrite El, Et. injection EK as EK. cbn. rewrite EK. done.
    - split; [|by split; [|split; [exact EE|]]]. intros _. exists t, lm, t', lm'. done. }
  destruct EL as (s' & EL & EP & HL). exists s'. split; [|done].
  unfold GetTuple. step_read (oc_count _ _ _ _ HO). rewrite (proj2 (Z.leb_gt _ _)) by apply HO.
  step_read (oc_offset _ _ _ _ HO). step_read (oc_size _ _ _ _ HO). rewrite (oc_deleted _ _ _ _ HO).
  step_get. step EL. cbn [negb]. pose proof (oc_fit _ _ _ _ HO). pose proof (pw_len _ W).
  assert (ER : slice_from (bytes s') (soff (SlotNum r) (bytes s)) =
    Ok (drop (Z.to_nat (soff (SlotNum r) (bytes s))) (bytes s))).
  { unfold bytes in *. rewrite EP. apply slice_from_Ok. unfold zlen in *. lia. }
  step_read ER. rewrite ES, overwrite_prefix by (rewrite length_drop; unfold zlen in *; lia).
  change (take (Z.to_nat (zlen bs)) (drop ?o ?d)) with (region o (Z.to_nat (zlen bs)) d).
  fold (zregion (soff (SlotNum r) (bytes s)) (zlen bs) (bytes s)). by rewrite (oc_bytes _ _ _ _ HO).
Qed.

(** A record that is locked can be locked again, to no effect. *)
Lemma read_lock_again r t lm t' lm' :
  read_lock r t lm = Ok (true, t', lm') → read_lock r t' lm' = Ok (true, t', lm').
Proof.
  unfold read_lock, IsSharedLocked, IsExclusiveLocked. intros E.
  destruct (isContainsRID (shared_lock_set t) r) eqn:ES; [injection E as <- <-; by rewrite ES|].
  destruct (isContainsRID (exclusive_lock_set t) r) eqn:EX; [injection E as <- <-; by rewrite ES, EX|].
  unfold LockShared in E.
  destruct (exclusive_lock_table lm !! r) as [u|] eqn:EO.
  { injection E as Eb <- <-. rewrite ES, EX. unfold LockShared. by rewrite EO, Eb. }
  assert (HS : ∀ l, isContainsRID (l ++ [r]) r = true)
    by (intros l; apply isContainsRID_spec, elem_of_app; right; by left).
  destruct (shared_lock_table lm !! r) as [arr|] eqn:EA.
  - destruct (isContainTxnID arr (txn_id t)) eqn:EC; injection E as <- <-.
    + rewrite ES, EX. unfold LockShared. by rewrite EO, EA, EC.
    + cbn. by rewrite HS.
  - injection E as <- <-. cbn. by rewrite HS.
Qed.

Lemma get_tuple_locked s r bs :
  page_wf (bytes s) → 0 ≤ SlotNum r → slot_of r (bytes s) = Some (Some (false, bs)) →
  (EnableLogging s = true → ∃ t lm, ttxn s = Some t ∧ tlocks s = Some lm ∧
     read_lock r t lm = Ok (true, t, lm)) →
  GetTuple r s = Ok (Some (stored_tuple r bs), s).
Proof.
  intros W H0 HS HR.
  destruct (get_tuple_run s r bs W H0 HS) as (s' & E & HP & HL & Hlg & HE & HF).
  { intros EE. destruct (HR EE) as (t & lm & ? & ? & ?). by exists t, lm, t, lm. }
  rewrite E. do 2 f_equal. destruct (EnableLogging s) eqn:EE; [|by apply HF].
  destruct (HR eq_refl) as (t & lm & Et & Elm & ER).
  destruct (HL eq_refl) as (t2 & lm2 & t' & lm' & Et2 & Elm2 & ER2 & Et' & Elm').
  destruct s, s'. cbn in *. congruence.
Qed.

(** Reading a live tuple returns its bytes and leaves the page alone; with
    logging on the transaction then holds a lock on the record. *)
Theorem get_tuple_spec s r bs :
  page_wf (bytes s) → 0 ≤ SlotNum r → slot_of r (bytes s) = Some (Some (false, bs)) →
  (EnableLogging s = true → ∃ t lm t' lm', ttxn s = Some t ∧ tlocks s = Some lm ∧
    read_lock r t lm = Ok (true, t', lm')) →
  ∃ s', GetTuple r s = Ok (Some (stored_tuple r bs), s') ∧ tpage s' = tpage s ∧
    (EnableLogging s = true → ∃ t lm t' lm', ttxn s = Some t ∧ tlocks s = Some lm ∧
       read_lock r t lm = Ok (true, t', lm') ∧ ttxn s' = Some t' ∧ tlocks s' = Some lm').
Proof.
  intros W H0 HS HR. destruct (get_tuple_run s r bs W H0 HS HR) as (s' & E & HP & HL & _).
  by exists s'.
Qed.

Lemma dead_slot_run s r new_tuple idxs schema_ old_tuple :
  page_wf (bytes s) → 0 ≤ SlotNum r → 0 < size new_tuple →
  (EnableLogging s = true → is_Some (ttxn s)) →
  (∀ bs, slot_of r (bytes s) ≠ Some (Some (false, bs))) →
  ∃ s', aborted s s' ∧ GetTuple r s = Ok (None, s') ∧ MarkDelete r s = Ok (false, s') ∧
    UpdateTuple new_tuple idxs schema_ old_tuple r s = Ok ((false, None, None, old_tuple), s').
Proof.
  intros W H0 Hnew HT HS. pose proof (pw_len _ W) as HL.
  destruct (abort_run s HT) as (s' & EA & HA). exists s'. split; [done|].
  pose proof (GetTupleCount_run _ HL) as EC.
  unfold GetTuple, MarkDelete, UpdateTuple. step_read EC. step_read EC.
  rewrite (proj2 (Z.ltb_lt _ _)) by lia. step_lift (eq_refl (Ok tt)). step_read EC.
  destruct (Z.leb_spec (cnt (bytes s)) (SlotNum r)) as [HO|HO].
  - split_and!; by step EA.
  - pose proof (slot_fits _ (SlotNum r) W ltac:(lia)).
    assert (EO : GetTupleOffsetAtSlot (SlotNum r) (bytes s) = Ok (soff (SlotNum r) (bytes s)))
      by (apply GetTupleOffsetAtSlot_run; done).
    assert (EZ : GetTupleSize (SlotNum r) (bytes s) = Ok (ssz (SlotNum r) (bytes s)))
      by (apply GetTupleSize_run; done).
    assert (ED : IsDeleted (ssz (SlotNum r) (bytes s)) = true).
    { rewrite IsDeleted_tuple_at. specialize (HS (zregion (soff (SlotNum r) (bytes s))
        (slen (SlotNum r) (bytes s)) (bytes s))). unfold slot_of in HS.
      rewrite contents_lookup_Z in HS by lia. unfold tuple_at in *.
      destruct (ssz (SlotNum r) (bytes s) =? 0); [done|]. by destruct (2 ^ 31 <=? _). }
    step_read EO. step_read EZ. step_read EZ. step_read EZ. rewrite ED. split_and!; by step EA.
Qed.

(** An access to an empty slot, to a slot past the last one or (but for a
    read of the flag itself) to a tuple marked deleted is refused: nothing
    changes but the transaction, which is aborted when logging is on. *)
Theorem dead_slot_refused s r new_tuple idxs schema_ old_tuple :
  page_wf (bytes s) → 0 ≤ SlotNum r → 0 < size new_tuple →
  (EnableLogging s = true → is_Some (ttxn s)) →
  (∀ bs, slot_of r (bytes s) ≠ Some (Some (false, bs))) →
  ∃ s', aborted s s' ∧ GetTuple r s = Ok (None, s') ∧ MarkDelete r s = Ok (false, s') ∧
    UpdateTuple new_tuple idxs schema_ old_tuple r s = Ok ((false, None, None, old_tuple), s').
Proof. intros. by apply dead_slot_run. Qed.

Lemma insert_refused_run s t :
  page_wf (bytes s) → 0 ≤ size t → size t + sizeTuple < 2 ^ 32 →
  (size t = 0 → InsertTuple t s = Ok ((inl ErrEmptyTuple, t), s)) ∧
  (size t ≠ 0 → free_space (contents (bytes s)) < size t + sizeTuple →
   InsertTuple t s = Ok ((inl ErrNotEnoughSpace, t), s)) ∧
  (size t ≠ 0 → size t + sizeTuple ≤ free_space (contents (bytes s)) → EnableLogging s = true →
   ∀ tx lm tx' lm', ttxn s = Some tx → tlocks s = Some lm →
     LockExclusive tx (insert_rid (bytes s)) lm = (false, tx', lm') →
   ∃ s', InsertTuple t s = Ok ((inl ErrLockNewTuple, t), s') ∧ tpage s' = tpage s ∧ tlog s' = tlog s ∧
     ttxn s' = Some (SetState ABORTED tx') ∧ tlocks s' = Some lm').
Proof.
  intros W Hs HB. pose proof (pw_len _ W) as HL.
  assert (US : u32 (size t + sizeTuple) = size t + sizeTuple) by (apply u32_small; consts; lia).
  split; [|split].
  - intros E. unfold InsertTuple. by rewrite E.
  - intros Hz HF. unfold InsertTuple. rewrite (proj2 (Z.eqb_neq _ _)) by lia.
    step_read (getFreeSpaceRemaining_run _ W). by rewrite US, (proj2 (Z.ltb_lt _ _)) by lia.
  - intros Hz HF EN tx lm tx' lm' Et El EK.
    eexists. split; [|split; [|split; [|split]]].
    { unfold InsertTuple. rewrite (proj2 (Z.eqb_neq _ _)) by lia.
      step_read (getFreeSpaceRemaining_run _ W). rewrite US, (proj2 (Z.ltb_ge _ _)) by lia.
      pose proof (find_slot_run (bytes s) 0 slot_fuel W) as EF. rewrite drop_0 in EF.
      rewrite Z.sub_0_r in EF. specialize (EF ltac:(pose proof (cnt_range (bytes s)); lia) (slot_fuel_enough _ W)).
      step_read EF. step_read (GetTupleCount_run _ HL). step_read (getFreeSpaceRemaining_run _ W).
      rewrite (proj2 (Z.ltb_ge _ _)), andb_false_r by lia. step_get. rewrite EN.
      unfold tp_LockExclusive, tp_lock, mbind, st_mbind. rewrite El, Et. cbn [deref res_mbind res_bind].
      rewrite Z.add_0_l. fold (bytes s). fold (insert_rid (bytes s)). rewrite EK. cbn. reflexivity. }
    all: done.
Qed.

(** An insert is refused, with the page, the locks and the log as they were,
    if the tuple is empty, if the tuple and a slot do not fit, or if the lock on
    the new record is refused, which aborts the transaction.  The code's third
    error, for want of a slot, is never returned. *)
Theorem insert_refused s t :
  page_wf (bytes s) → 0 ≤ size t → size t + sizeTuple < 2 ^ 32 →
  (size t = 0 → InsertTuple t s = Ok ((inl ErrEmptyTuple, t), s)) ∧
  (size t ≠ 0 → free_space (contents (bytes s)) < size t + sizeTuple →
   InsertTuple t s = Ok ((inl ErrNotEnoughSpace, t), s)) ∧
  (size t ≠ 0 → size t + sizeTuple ≤ free_space (contents (bytes s)) → EnableLogging s = true →
   ∀ tx lm tx' lm', ttxn s = Some tx → tlocks s = Some lm →
     LockExclusive tx (insert_rid (bytes s)) lm = (false, tx', lm') →
   ∃ s', InsertTuple t s = Ok ((inl ErrLockNewTuple, t), s') ∧ tpage s' = tpage s ∧ tlog s' = tlog s ∧
     ttxn s' = Some (SetState ABORTED tx') ∧ tlocks s' = Some lm').
Proof. intros. by apply insert_refused_run. Qed.

(** *** Iteration *)
Lemma first_occupied_spec ls :
  match first_occupied ls with
  | Some j => (∃ x, ls !! j = Some (Some x)) ∧ ∀ i, (i < j)%nat → ls !! i = Some None
  | None => ∀ i x, ls !! i ≠ Some (Some x)
  end.
Proof.
  induction ls as [|[y|] ls IH]; simpl; [done|split; [by exists y|lia]|].
  destruct (first_occupied ls) as [j|]; simpl.
  - destruct IH as [IH1 IH2]. split; [done|]. intros [|i] Hi; [done|]. apply IH2. lia.
  - intros [|i] x; simpl; [done|]. apply IH.
Qed.

Lemma next_rid_run d r (isNextPage : bool) :
  page_wf d → 0 ≤ SlotNum r < PageSize →
  let k := if isNextPage then 0%nat else Z.to_nat (SlotNum r + 1) in
  GetNextTupleRID r isNextPage d =
    Ok ((λ j, MkRID (GetTablePageId d) (Z.of_nat k + Z.of_nat j)) <$>
          first_occupied (drop k (contents d))).
Proof.
  intros W Hr k. pose proof (pw_len _ W) as HL. unfold GetNextTupleRID.
  rewrite GetTupleCount_run by done. mred.
  assert (EK : (if isNextPage then 0 else u32 (SlotNum r + 1)) = Z.of_nat k).
  { subst k. destruct isNextPage; [done|]. rewrite u32_small by (consts; lia). lia. }
  rewrite EK, next_slot_run, Nat2Z.id by (try done; try lia; pose proof (slot_fuel_enough d W); lia).
  done.
Qed.

(** [GetNextTupleRID] returns the first occupied slot after the current one
    ([GetTupleFirstRID], or with [isNextPage], the first of the page), and nil
    when there is none.  A tuple marked deleted counts as occupied. *)
Theorem next_rid_spec d r (isNextPage : bool) :
  page_wf d → 0 ≤ SlotNum r < PageSize →
  let k := if isNextPage then 0%nat else Z.to_nat (SlotNum r + 1) in
  GetTupleFirstRID d = GetNextTupleRID r true d ∧
  match GetNextTupleRID r isNextPage d with
  | Ok (Some r') => PageId r' = GetTablePageId d ∧ (k ≤ Z.to_nat (SlotNum r'))%nat ∧ 0 ≤ SlotNum r' ∧
      (∃ x, slot_of r' d = Some (Some x)) ∧
      ∀ i, (k ≤ i < Z.to_nat (SlotNum r'))%nat → contents d !! i = Some None
  | Ok None => ∀ i x, (k ≤ i)%nat → contents d !! i ≠ Some (Some x)
  | _ => False
  end.
Proof.
  intros W Hr k. split; [done|]. rewrite next_rid_run by done. fold k.
  pose proof (first_occupied_spec (drop k (contents d))) as HF.
  destruct (first_occupied _) as [j|]; simpl.
  - destruct HF as [(x & Hx) HN]. rewrite lookup_drop in Hx. split; [done|]. split; [lia|].
    split; [lia|]. split.
    + exists x. unfold slot_of. simpl. by replace (Z.to_nat (Z.of_nat k + Z.of_nat j)) with (k + j)%nat by lia.
    + intros i Hi. specialize (HN (i - k)%nat ltac:(lia)). rewrite lookup_drop in HN.
      by replace (k + (i - k))%nat with i in HN by lia.
  - intros i x Hi. specialize (HF (i - k)%nat x). rewrite lookup_drop in HF.
    by replace (k + (i - k))%nat with i in HF by lia.
Qed.

(** *** Initialising *)
Lemma field_eq_zput p z d : 0 ≤ p → p + 4 ≤ zlen d → in_i32 z →
  i32 (zfield p (zput p (le_bytes 4 (u32 z)) d)) = z.
Proof. intros. rewrite zfield_put by lia. rewrite u32_u32, i32_u32. by apply i32_small. Qed.

Definition init_writes (pageId prevPageId : Z) (d : list byte) : res (list byte) :=
  d1 ← SetPageId pageId d;
  d2 ← SetPrevPageId prevPageId d1;
  d3 ← SetNextPageId InvalidPageID d2;
  d4 ← SetTupleCount 0 d3;
  SetFreeSpacePointer PageSize d4.

Lemma init_bytes pageId prevPageId d :
  zlen d = PageSize → in_i32 pageId → in_i32 prevPageId →
  ∃ d', init_writes pageId prevPageId d = Ok d' ∧ page_wf d' ∧ contents d' = [] ∧
    GetTablePageId d' = pageId ∧ GetNextPageId d' = Ok InvalidPageID ∧
    i32 (zfield offSetPrevPageId d') = prevPageId ∧ zfield OffsetLSN d' = zfield OffsetLSN d.
Proof.
  intros HL HP HV. unfold init_writes, SetPageId, SetPrevPageId, SetNextPageId, PageID_Serialize.
  remember (zput 0 (le_bytes 4 (u32 pageId)) d) as d1 eqn:D1.
  remember (zput offSetPrevPageId (le_bytes 4 (u32 prevPageId)) d1) as d2 eqn:D2.
  remember (zput offSetNextPageId (le_bytes 4 (u32 InvalidPageID)) d2) as d3 eqn:D3.
  remember (zput offSetTupleCount (le_bytes 4 0) d3) as d4 eqn:D4.
  remember (zput offsetFreeSpace (le_bytes 4 PageSize) d4) as d5 eqn:D5.
  assert (L1 : zlen d1 = PageSize) by (rewrite D1, zput_len; rewrite ?zlen_le; consts; lia).
  assert (L2 : zlen d2 = PageSize) by (rewrite D2, zput_len; rewrite ?zlen_le; consts; lia).
  assert (L3 : zlen d3 = PageSize) by (rewrite D3, zput_len; rewrite ?zlen_le; consts; lia).
  assert (L4 : zlen d4 = PageSize) by (rewrite D4, zput_len; rewrite ?zlen_le; consts; lia).
  assert (L5 : zlen d5 = PageSize) by (rewrite D5, zput_len; rewrite ?zlen_le; consts; lia).
  exists d5. split.
  { rewrite put_bytes_run by (consts; lia). mred. rewrite <- D1.
    rewrite put_bytes_run by (consts; lia). mred. rewrite <- D2.
    rewrite put_bytes_run by (consts; lia). mred. rewrite <- D3.
    rewrite SetTupleCount_run by (try done; consts; lia). mred. rewrite <- D4.
    rewrite SetFreeSpacePointer_run by (try done; consts; lia). by rewrite <- D5. }
  assert (RC : cnt d5 = 0) by (rd; done). assert (RF : fsp d5 = PageSize) by (rd; done).
  assert (EC : contents d5 = []) by (unfold contents; by rewrite RC).
  split; [split; rewrite ?RC, ?RF, ?EC; try done; lia|]. split; [done|].
  change (GetTablePageId d5) with (i32 (zfield 0 d5)).
  assert (EN : GetNextPageId d5 = Ok (i32 (zfield offSetNextPageId d5))).
  { unfold GetNextPageId. rewrite slice_from_Ok by (unfold zlen in *; consts; lia). done. }
  rewrite EN. unfold OffsetLSN.
  assert (R0 : zfield 0 d5 = u32 (u32 pageId)) by (rd; done).
  assert (R8 : zfield offSetPrevPageId d5 = u32 (u32 prevPageId)) by (rd; done).
  assert (R12 : zfield offSetNextPageId d5 = u32 (u32 InvalidPageID)) by (rd; done).
  rewrite R0, R8, R12, !u32_u32, !i32_u32, !i32_small by done.
  repeat (split; [done|]). rd. done.
Qed.

Definition newpage_record (prevPageId : Z) : Z → Z → LogRecord :=
  λ i l, NewLogRecordNewPage i l NEWPAGE prevPageId.

Lemma init_run s pageId prevPageId :
  zlen (bytes s) = PageSize → in_i32 pageId → in_i32 prevPageId →
  (EnableLogging s = true → ∃ t l, ttxn s = Some t ∧ tlog s = Some l ∧ log_wf l) →
  ∃ s', Init pageId prevPageId s = Ok (tt, s') ∧ page_wf (bytes s') ∧ contents (bytes s') = [] ∧
    GetTablePageId (bytes s') = pageId ∧ GetNextPageId (bytes s') = Ok InvalidPageID ∧
    i32 (zfield offSetPrevPageId (bytes s')) = prevPageId ∧
    (EnableLogging s = true → ∃ t l l', ttxn s = Some t ∧ tlog s = Some l ∧ tlog s' = Some l' ∧
       appended (set_Lsn (next_lsn (fst l)) (newpage_record prevPageId (txn_id t) (prev_lsn t))) l l' ∧
       ttxn s' = Some (SetPrevLSN (next_lsn (fst l)) t) ∧ GetLSN (tpage s') = i32 (next_lsn (fst l))) ∧
    tlocks s' = tlocks s ∧ EnableLogging s' = EnableLogging s ∧
    (EnableLogging s = false → ttxn s' = ttxn s ∧ tlog s' = tlog s ∧
       GetLSN (tpage s') = GetLSN (tpage s)).
Proof.
  intros HL HP HV HG.
  assert (EL : ∃ s1, (if EnableLogging s then log_record_for (newpage_record prevPageId) else mret tt) s =
      Ok (tt, s1) ∧ zlen (bytes s1) = PageSize ∧
    (EnableLogging s = true → ∃ t l l', ttxn s = Some t ∧ tlog s = Some l ∧ tlog s1 = Some l' ∧
       appended (set_Lsn (next_lsn (fst l)) (newpage_record prevPageId (txn_id t) (prev_lsn t))) l l' ∧
       ttxn s1 = Some (SetPrevLSN (next_lsn (fst l)) t) ∧
       i32 (zfield OffsetLSN (bytes s1)) = i32 (next_lsn (fst l))) ∧
    tlocks s1 = tlocks s ∧ EnableLogging s1 = EnableLogging s ∧ (EnableLogging s = false → s1 = s)).
  { destruct (EnableLogging s) eqn:EE; [|by exists s].
    destruct (HG eq_refl) as (t & [lm dk] & Et & El & Wl).
    destruct (AppendLogRecord_run (newpage_record prevPageId (txn_id t) (prev_lsn t)) lm dk Wl)
      as (l' & EA & A); [by split; [constructor|split]|].
    unfold log_record_for. rewrite Et, El. mred. rewrite EA. mred. eexists. split; [done|].
    change (bytes _) with (SetLSN_bytes (next_lsn lm) (bytes s)). unfold SetLSN_bytes, OffsetLSN, LSN_Serialize.
    split; [rewrite zput_len; rewrite ?zlen_le; consts; lia|]. split; [|by split; [|split; [exact EE|]]]. intros _.
    exists t, (lm, dk), l'. repeat (split; [done|]).
    rewrite zfield_put by (consts; lia). by rewrite u32_u32, i32_u32. }
  destruct EL as (s1 & E1 & L1 & HG1 & HLk & HE & HF1).
  destruct (init_bytes pageId prevPageId (bytes s1) L1 HP HV) as (d' & EI & W' & C' & P1 & P2 & P3 & P4).
  exists (set_bytes d' s1). split; [|repeat (split; [done|])].
  - unfold Init. step_get. step E1. unfold init_writes in EI.
    apply res_bind_Ok in EI as (d1 & F1 & EI). apply res_bind_Ok in EI as (d2 & F2 & EI).
    apply res_bind_Ok in EI as (d3 & F3 & EI). apply res_bind_Ok in EI as (d4 & F4 & EI).
    step_write F1. step_write F2. step_write F3. step_write F4. exact (tp_write_run _ (set_bytes d4 s1) _ EI).
  - split; [|split; [exact HLk|split; [exact HE|]]].
    2: { intros EN. rewrite (HF1 EN) in *. split; [done|]. split; [done|].
      rewrite !GetLSN_field. change (pdata (tpage (set_bytes d' s))) with d'. by rewrite P4. }
    intros EN. destruct (HG1 EN) as (t & l & l' & ? & ? & ? & ? & ? & HF). exists t, l, l'.
    repeat (split; [done|]). rewrite GetLSN_field. change (pdata _) with d'. by rewrite P4.
Qed.

(** The same in the form the other operations have; there is no lock to take. *)
Definition no_lock (t : Transaction) (lm : LockManager) : res (bool * Transaction * LockManager) :=
  Ok (true, t, lm).

Lemma init_logged s pageId prevPageId :
  zlen (bytes s) = PageSize → in_i32 pageId → in_i32 prevPageId →
  op_ready no_lock (newpage_record prevPageId) s →
  ∃ s', Init pageId prevPageId s = Ok (tt, s') ∧ page_wf (bytes s') ∧ contents (bytes s') = [] ∧
    GetTablePageId (bytes s') = pageId ∧ GetNextPageId (bytes s') = Ok InvalidPageID ∧
    op_logged no_lock (newpage_record prevPageId) s s'.
Proof.
  intros HL HP HV HG.
  destruct (init_run s pageId prevPageId HL HP HV) as (s' & E & W & C & P1 & P2 & P3 & HG' & HLk & HE & HF).
  { intros EN. destruct (HG EN) as (t & lm & t' & lm' & l & ? & ? & ? & ? & ? & ? & ? & _). by exists t, l. }
  exists s'. split; [done|]. split; [done|]. split; [done|]. split; [done|]. split; [done|].
  split; [done|]. unfold op_ready in HG. destruct (EnableLogging s).
  - destruct (HG eq_refl) as (t & lm & t' & lm' & l & Et & Elm & _).
    destruct (HG' eq_refl) as (t2 & l2 & l' & Et2 & El2 & El' & A & Et' & HLSN).
    rewrite Et in Et2. injection Et2 as <-. exists t, lm, t, lm, l2, l'. rewrite HLk, Elm. done.
  - destruct (HF eq_refl) as (H1 & H2 & H3). done.
Qed.

(** Initialising makes any page object an empty table page with the given
    id and previous page and no next page; with logging on, a NEWPAGE record
    is appended, whose LSN the page and the transaction get. *)
Theorem init_spec s pageId prevPageId :
  zlen (bytes s) = PageSize → in_i32 pageId → in_i32 prevPageId →
  (EnableLogging s = true → ∃ t l, ttxn s = Some t ∧ tlog s = Some l ∧ log_wf l) →
  ∃ s', Init pageId prevPageId s = Ok (tt, s') ∧ page_wf (bytes s') ∧ contents (bytes s') = [] ∧
    GetTablePageId (bytes s') = pageId ∧ GetNextPageId (bytes s') = Ok InvalidPageID ∧
    i32 (zfield offSetPrevPageId (bytes s')) = prevPageId ∧
    (EnableLogging s = true → ∃ t l l', ttxn s = Some t ∧ tlog s = Some l ∧ tlog s' = Some l' ∧
       appended (set_Lsn (next_lsn (fst l)) (newpage_record prevPageId (txn_id t) (prev_lsn t))) l l' ∧
       ttxn s' = Some (SetPrevLSN (next_lsn (fst l)) t) ∧ GetLSN (tpage s') = i32 (next_lsn (fst l))).
Proof.
  intros HL HP HV HG. destruct (init_run s pageId prevPageId HL HP HV HG) as (s' & E & W & C & P1 & P2 & P3 & HG' & _).
  by exists s'.
Qed.

(** ** What an operation leaves of the page object

    Only the bytes change: id, pin count, dirty flag and latch are the pool's. *)
Definition keeps_object {A} (m : st TPState A) : Prop :=
  ∀ s a s', m s = Ok (a, s') → tpage s' = set_pdata (bytes s') (tpage s).

Lemma set_pdata_id p : set_pdata (pdata p) p = p.
Proof. by destruct p. Qed.

Lemma keeps_ret {A} (a : A) : keeps_object (mret a).
Proof. intros s a' s' [= <- <-]. symmetry. apply set_pdata_id. Qed.

Lemma keeps_bind {A B} (m : st TPState A) (f : A → st TPState B) :
  keeps_object m → (∀ a, keeps_object (f a)) → keeps_object (m ≫= f).
Proof.
  intros Hm Hf s b s'' E. apply st_bind_Ok in E as (a & s' & E1 & E2).
  rewrite (Hf _ _ _ _ E2), (Hm _ _ _ E1). done.
Qed.

Lemma keeps_same {A} (m : st TPState A) :
  (∀ s a s', m s = Ok (a, s') → tpage s' = tpage s) → keeps_object m.
Proof. intros Hm s a s' E. unfold bytes. rewrite (Hm _ _ _ E). symmetry. apply set_pdata_id. Qed.

Lemma keeps_lift {A} (m : res A) : keeps_object (st_lift m).
Proof. apply keeps_same. by intros s a s' [_ ->]%st_lift_Ok. Qed.

Lemma keeps_get : keeps_object st_get.
Proof. apply keeps_same. by intros s a s' [= _ <-]. Qed.

Lemma keeps_read {A} (f : list byte → res A) : keeps_object (tp_read f).
Proof. apply keeps_same. intros s a s' E. unfold tp_read in E. inv_ok. done. Qed.

Lemma keeps_write f : keeps_object (tp_write f).
Proof. intros s a s' E. unfold tp_write in E. inv_ok. done. Qed.

Lemma keeps_txn : keeps_object tp_txn.
Proof. apply keeps_same. intros s a s' E. unfold tp_txn in E. inv_ok. done. Qed.

Lemma keeps_set_state x : keeps_object (tp_set_state x).
Proof. apply keeps_same. intros s a s' E. unfold tp_set_state in E. inv_ok. done. Qed.

Lemma keeps_abort : keeps_object abort_if_logging.
Proof.
  intros s a s' E. unfold abort_if_logging in E. destruct (EnableLogging s).
  - by apply keeps_set_state in E.
  - injection E as _ <-. symmetry. apply set_pdata_id.
Qed.

Lemma keeps_lock f : keeps_object (tp_lock f).
Proof.
  apply keeps_same. intros s a s' E. unfold tp_lock in E.
  destruct (tlocks s) as [lm|]; [|done]. destruct (ttxn s) as [t|]; [|done]. cbn in E.
  destruct (f t lm) as [[[b t'] lm']| | |]; [|done|done|done]. cbn in E. by injection E as _ <-.
Qed.

Lemma keeps_log mk : keeps_object (log_record_for mk).
Proof.
  intros s a s' E. unfold log_record_for in E.
  destruct (ttxn s) as [t|]; [|done]. destruct (tlog s) as [l|]; [|done]. cbn in E.
  destruct (AppendLogRecord _ l) as [[[lsn r] l']| | |]; [|done|done|done]. cbn in E. by injection E as _ <-.
Qed.

Create HintDb keeps discriminated.
#[export] Hint Resolve keeps_ret keeps_lift keeps_get keeps_read keeps_write keeps_txn keeps_set_state
  keeps_abort keeps_lock keeps_log : keeps.

(** Through the binds and the case analyses of an operation. *)
Ltac keeps := repeat first
  [ solve [auto with keeps nocore]
  | apply keeps_bind; [|intros ?]
  | progress unfold tp_LockUpgrade, tp_LockExclusive, tp_LockShared
  | match goal with |- keeps_object (if ?b then _ else _) => destruct b end
  | match goal with |- keeps_object (match ?x with _ => _ end) => destruct x end ].

Lemma InsertTuple_keeps t : keeps_object (InsertTuple t).
Proof. unfold InsertTuple. keeps. Qed.
Lemma lock_for_write_keeps r : keeps_object (lock_for_write r).
Proof. unfold lock_for_write. keeps. Qed.
#[export] Hint Resolve lock_for_write_keeps : keeps.
Lemma UpdateTuple_keeps t idxs sc o r : keeps_object (UpdateTuple t idxs sc o r).
Proof. unfold UpdateTuple. keeps. Qed.
Lemma MarkDelete_keeps r : keeps_object (MarkDelete r).
Proof. unfold MarkDelete. keeps. Qed.
Lemma ApplyDelete_keeps r : keeps_object (ApplyDelete r).
Proof. unfold ApplyDelete, assert_exclusive. keeps. Qed.
Lemma RollbackDelete_keeps r : keeps_object (RollbackDelete r).
Proof. unfold RollbackDelete, assert_exclusive. keeps. Qed.
Lemma Init_keeps pid prev : keeps_object (Init pid prev).
Proof. unfold Init. keeps. Qed.
Lemma GetTuple_keeps r : keeps_object (GetTuple r).
Proof. unfold GetTuple. keeps. Qed.

(** ** A concrete page

    Page 3 with the tuple "ab" in slot 0; [z] is the size field of the slot. *)
Definition example_table_page (z : Z) : list byte :=
  zput 4094 [Byte.x61; Byte.x62] (zput 28 (le_bytes 4 z) (zput 24 (le_bytes 4 4094)
    (zput 20 (le_bytes 4 1) (zput 16 (le_bytes 4 4094) (zput 0 (le_bytes 4 3)
      (zeros (Z.to_nat PageSize))))))).
Definition slot_0 : RID := MkRID 3 0.
Definition example_txn : Transaction := NewTransaction 7.
Definition example_state (t : Transaction) (d : list byte) : TPState :=
  MkTPState true (New_page 3 false d) (Some t) (Some NewLockManager) (Some (NewLogManager, empty_disk)).

Lemma example_table_page_wf z : z = 2 ∨ z = 2 ^ 31 + 2 → page_wf (example_table_page z).
Proof.
  intros H. assert (E : cnt (example_table_page z) = 1) by (destruct H as [-> | ->]; by vm_compute).
  split.
  - destruct H as [-> | ->]; by vm_compute.
  - destruct H as [-> | ->]; vm_compute; discriminate.
  - intros i Hi _. rewrite E in Hi. replace i with 0 by lia.
    destruct H as [-> | ->]; vm_compute; split_and!; done || discriminate.
  - intros i j Hi Hj. rewrite E in *. lia.
  - destruct H as [-> | ->]; by vm_compute.
Qed.

Lemma example_log_wf : log_wf (NewLogManager, empty_disk).
Proof. by apply NewLogManager_wf. Qed.

Definition owner : Transaction := SetExclusiveLockSet [slot_0] example_txn.

(** [op_ready] at a concrete state. *)
Ltac ready :=
  intros _; do 5 eexists; split; [reflexivity|]; split; [reflexivity|];
  split; [vm_compute; reflexivity|]; split; [reflexivity|]; split; [reflexivity|];
  split; [reflexivity|]; split; [exact example_log_wf|];
  split; [by repeat constructor|]; split; [vm_compute; reflexivity|vm_compute; discriminate].

Lemma insert_tuple_spec_witness :
  ∃ s', InsertTuple example_tuple (example_state example_txn (example_table_page 2)) =
      Ok ((inr (MkRID 3 1), SetRID (MkRID 3 1) example_tuple), s') ∧
    contents (bytes s') =
      [Some (false, [Byte.x61; Byte.x62]); Some (false, [Byte.x61; Byte.x62])].
Proof.
  destruct (insert_tuple_spec (example_state example_txn (example_table_page 2)) example_tuple) as (s' & E & _ & C & _).
  - apply example_table_page_wf. by left.
  - reflexivity.
  - reflexivity.
  - vm_compute. discriminate.
  - ready.
  - exists s'. split; [exact E|]. rewrite C. vm_compute. reflexivity.
Defined.

Lemma insert_refused_witness :
  InsertTuple ZeroTuple (example_state example_txn (example_table_page 2)) =
    Ok ((inl ErrEmptyTuple, ZeroTuple), example_state example_txn (example_table_page 2)).
Proof.
  apply (insert_refused (example_state example_txn (example_table_page 2)) ZeroTuple).
  - apply example_table_page_wf. by left.
  - vm_compute. discriminate.
  - reflexivity.
  - reflexivity.
Defined.

Lemma mark_delete_spec_witness :
  ∃ s', MarkDelete slot_0 (example_state example_txn (example_table_page 2)) = Ok (true, s') ∧
    contents (bytes s') = [Some (true, [Byte.x61; Byte.x62])].
Proof.
  destruct (mark_delete_spec (example_state example_txn (example_table_page 2)) slot_0 [Byte.x61; Byte.x62])
    as (s' & E & (_ & C & _) & _).
  - apply example_table_page_wf. by left.
  - discriminate.
  - vm_compute. reflexivity.
  - ready.
  - exists s'. split; [exact E|]. rewrite C. vm_compute. reflexivity.
Defined.

Lemma rollback_delete_spec_witness :
  ∃ s', RollbackDelete slot_0 (example_state owner (example_table_page (2 ^ 31 + 2))) = Ok (tt, s') ∧
    contents (bytes s') = [Some (false, [Byte.x61; Byte.x62])].
Proof.
  destruct (rollback_delete_spec (example_state owner (example_table_page (2 ^ 31 + 2))) slot_0 [Byte.x61; Byte.x62])
    as (s' & E & (_ & C & _) & _).
  - apply example_table_page_wf. by right.
  - discriminate.
  - vm_compute. reflexivity.
  - ready.
  - exists s'. split; [exact E|]. rewrite C. vm_compute. reflexivity.
Defined.

Lemma apply_delete_spec_witness :
  ∃ s', ApplyDelete slot_0 (example_state owner (example_table_page (2 ^ 31 + 2))) = Ok (tt, s') ∧
    contents (bytes s') = [None] ∧ free_space (contents (bytes s')) = 4064.
Proof.
  destruct (apply_delete_spec (example_state owner (example_table_page (2 ^ 31 + 2))) slot_0 true [Byte.x61; Byte.x62])
    as (s' & E & (_ & C & _) & F & _).
  - apply example_table_page_wf. by right.
  - discriminate.
  - vm_compute. reflexivity.
  - ready.
  - exists s'. split; [exact E|]. split; [rewrite C|rewrite F]; vm_compute; reflexivity.
Defined.

Lemma update_tuple_spec_witness :
  let u := MkTuple None 3 [Byte.x78; Byte.x79; Byte.x7a] in
  ∃ s', UpdateTuple u None None ZeroTuple slot_0 (example_state example_txn (example_table_page 2)) =
      Ok ((true, None, None, stored_tuple slot_0 [Byte.x61; Byte.x62]), s') ∧
    contents (bytes s') = [Some (false, [Byte.x78; Byte.x79; Byte.x7a])].
Proof.
  intros u.
  pose proof (update_tuple_spec (example_state example_txn (example_table_page 2)) slot_0 [Byte.x61; Byte.x62]
    u None None ZeroTuple u) as H.
  destruct (decide _) as [_|HN] in H; [|destruct HN; vm_compute; discriminate].
  destruct H as (s' & E & (_ & C & _) & _).
  - apply example_table_page_wf. by left.
  - discriminate.
  - vm_compute. reflexivity.
  - reflexivity.
  - reflexivity.
  - reflexivity.
  - split; reflexivity.
  - intros _. ready.
  - exists s'. split; [exact E|]. rewrite C. vm_compute. reflexivity.
Defined.

Lemma get_tuple_spec_witness :
  ∃ s', GetTuple slot_0 (example_state example_txn (example_table_page 2)) =
      Ok (Some (stored_tuple slot_0 [Byte.x61; Byte.x62]), s') ∧
    bytes s' = example_table_page 2.
Proof.
  destruct (get_tuple_spec (example_state example_txn (example_table_page 2)) slot_0 [Byte.x61; Byte.x62])
    as (s' & E & P & _).
  - apply example_table_page_wf. by left.
  - discriminate.
  - vm_compute. reflexivity.
  - intros _. do 4 eexists. split; [reflexivity|]. split; [reflexivity|]. vm_compute. reflexivity.
  - exists s'. split; [exact E|]. unfold bytes. by rewrite P.
Defined.

Lemma dead_slot_refused_witness :
  ∃ s', GetTuple slot_0 (example_state example_txn (example_table_page (2 ^ 31 + 2))) = Ok (None, s') ∧
    ttxn s' = Some (SetState ABORTED example_txn).
Proof.
  destruct (dead_slot_refused (example_state example_txn (example_table_page (2 ^ 31 + 2))) slot_0
    example_tuple None None ZeroTuple) as (s' & (t & Et & ->) & E & _).
  - apply example_table_page_wf. by right.
  - discriminate.
  - reflexivity.
  - intros _. by exists example_txn.
  - intros bs. vm_compute. discriminate.
  - eexists. split; [exact E|]. by injection Et as <-.
Defined.

Lemma next_rid_spec_witness :
  GetTupleFirstRID (example_table_page (2 ^ 31 + 2)) = Ok (Some slot_0) ∧
  GetTupleFirstRID (example_table_page (2 ^ 31 + 2)) = GetNextTupleRID slot_0 true (example_table_page (2 ^ 31 + 2)).
Proof.
  split; [vm_compute; reflexivity|].
  pose proof (next_rid_spec (example_table_page (2 ^ 31 + 2)) slot_0 true) as H.
  destruct H as [E _]; [apply example_table_page_wf; by right|by split|exact E].
Defined.

Lemma init_spec_witness :
  ∃ s', Init 3 InvalidPageID (example_state example_txn (zeros (Z.to_nat PageSize))) = Ok (tt, s') ∧
    contents (bytes s') = [] ∧ GetTablePageId (bytes s') = 3.
Proof.
  destruct (init_spec (example_state example_txn (zeros (Z.to_nat PageSize))) 3 InvalidPageID)
    as (s' & E & _ & C & P & _).
  - reflexivity.
  - done.
  - done.
  - intros _. do 2 eexists. split; [reflexivity|]. split; [reflexivity|]. exact example_log_wf.
  - exists s'. split; [exact E|]. split; [exact C|exact P].
Defined.
