(* ===== verification/RecordLocks.v ===== *)
(** * Locks on a record ([storage/access/table_page.go], [lock_manager.go])

    What taking a lock on one record does to the others: a transaction that reads keeps
    its records and what it could still lock for writing, and one that writes a record
    keeps the rest. *)

From S2P Require Import Prelude Bytes Types Tuples Disk LogRecord LogManager LockManager TablePage.

Implicit Types (r : RID) (t : Transaction) (lm : LockManager).

(** The transaction has record [r] to itself. *)
Definition locked_own r t : Prop := IsExclusiveLocked t r = true ∧ IsSharedLocked t r = false.
(** It can get the lock to write [r], and then has the record to itself. *)
Definition writable r t lm : Prop := ∃ t' lm', write_lock r t lm = Ok (true, t', lm') ∧ locked_own r t'.
(** Nobody else has the exclusive lock on the record. *)
Definition unowned r t lm : Prop := ∀ u, exclusive_lock_table lm !! r = Some u → u = txn_id t.

Lemma isContainsRID_false l r : isContainsRID l r = false ↔ r ∉ l.
Proof. rewrite <- isContainsRID_spec. by destruct (isContainsRID l r). Qed.
Lemma isContainsRID_app l r r' : isContainsRID (l ++ [r']) r = isContainsRID l r || bool_decide (r = r').
Proof. apply eq_true_iff_eq. rewrite orb_true_iff, !isContainsRID_spec, bool_decide_eq_true. set_solver. Qed.
Lemma removeRID_absent l r : r ∉ l → removeRID l r = l.
Proof.
  induction l as [|r' l IH]; [done|]. intros [Hne Hl]%not_elem_of_cons. cbn. rewrite decide_False by congruence. by rewrite IH.
Qed.
Lemma removeRID_app l r r' : r ∉ removeRID l r → r' ≠ r ∨ (r ∉ l) → r ∉ removeRID (l ++ [r']) r.
Proof.
  intros HR HO. induction l as [|x l IH]; cbn in *.
  - destruct HO as [Hne|_].
    + rewrite decide_False by done. set_solver.
    + case_decide; [apply not_elem_of_nil|set_solver].
  - case_decide as Hx.
    + destruct HO as [Hne|HO]; [set_solver|]. subst x. exfalso. apply HO. by left.
    + apply not_elem_of_cons in HR as [Hr HR]. apply not_elem_of_cons. split; [done|]. apply IH; [done|]. set_solver.
Qed.

(** When the lock to write can be had: the record is locked so already, nobody has it
    exclusively and this transaction shares it, or nobody has any lock on it. *)
Definition unlocked r lm : Prop := match shared_lock_table lm !! r with Some (_ :: _) => False | _ => True end.
Definition lockable r t lm : Prop :=
  exclusive_lock_table lm !! r = None ∧ (r ∉ removeRID (shared_lock_set t) r) ∧
  (IsSharedLocked t r = true ∨ IsSharedLocked t r = false ∧ IsExclusiveLocked t r = false ∧ unlocked r lm).

Lemma writable_cases r t lm : writable r t lm ↔ locked_own r t ∨ lockable r t lm.
Proof.
  unfold writable, locked_own, lockable, unlocked, write_lock, LockUpgrade, LockExclusive. split.
  - intros (t' & lm' & E & HX & HS). destruct (IsSharedLocked t r) eqn:ES.
    + destruct (exclusive_lock_table lm !! r) eqn:EX; [injection E as E1 <- <-; congruence|injection E as <- <-].
      right. split; [done|]. split; [|by left]. by apply isContainsRID_false.
    + assert (HR : r ∉ removeRID (shared_lock_set t) r)
        by (unfold IsSharedLocked in ES; apply isContainsRID_false in ES; by rewrite removeRID_absent).
      destruct (IsExclusiveLocked t r) eqn:EI; [by left|right].
      destruct (exclusive_lock_table lm !! r) eqn:EX; [injection E as E1 <- <-; congruence|].
      split; [done|]. split; [done|]. right. destruct (shared_lock_table lm !! r) as [[|]|]; try done; by injection E.
  - intros [[HX HS]|(EX & HR & HC)].
    + exists t, lm. by rewrite HX, HS.
    + destruct HC as [HS|(HS & HI & HU)]; rewrite HS; rewrite EX.
      * eexists _, _. split; [done|]. split; [|by apply isContainsRID_false].
        unfold IsExclusiveLocked. cbn. by rewrite isContainsRID_app, bool_decide_true, orb_true_r.
      * rewrite HI. assert (HO : locked_own r (SetExclusiveLockSet (exclusive_lock_set t ++ [r]) t)).
        { split; [|exact HS]. unfold IsExclusiveLocked. cbn. by rewrite isContainsRID_app, bool_decide_true, orb_true_r. }
        destruct (shared_lock_table lm !! r) as [[|]|]; [by eexists _, _|done|by eexists _, _].
Qed.

(** They depend on the lock sets and the id only. *)
Lemma unowned_step t lm t' lm' r : txn_id t' = txn_id t → exclusive_lock_table lm' = exclusive_lock_table lm →
  unowned r t lm → unowned r t' lm'.
Proof. intros HI HX HU u. rewrite HX, HI. apply HU. Qed.
Lemma locked_own_same r t t' : shared_lock_set t' = shared_lock_set t → exclusive_lock_set t' = exclusive_lock_set t →
  locked_own r t → locked_own r t'.
Proof. unfold locked_own, IsExclusiveLocked, IsSharedLocked. by intros -> ->. Qed.
Lemma writable_same r t t' lm : shared_lock_set t' = shared_lock_set t → exclusive_lock_set t' = exclusive_lock_set t →
  writable r t lm → writable r t' lm.
Proof.
  rewrite !writable_cases. unfold lockable, IsSharedLocked, IsExclusiveLocked. intros HS HX [HO|HL];
    [left; by eapply locked_own_same|right; by rewrite HS, HX].
Qed.

(** Reading a record. *)
Lemma read_lock_keeps r t lm t' lm' r0 : unowned r t lm → read_lock r t lm = Ok (true, t', lm') →
  (locked_own r0 t → locked_own r0 t') ∧ (writable r0 t lm → writable r0 t' lm').
Proof.
  intros HU E. unfold read_lock, LockShared in E. destruct (IsSharedLocked t r) eqn:ES; [by injection E as <- <-|].
  destruct (IsExclusiveLocked t r) eqn:EI; [by injection E as <- <-|].
  destruct (exclusive_lock_table lm !! r) as [u|] eqn:EX; [by injection E as _ <- <-|].
  assert (HM : t' = t ∧ lm' = lm ∨ t' = SetSharedLockSet (shared_lock_set t ++ [r]) t ∧ ∃ arr, lm' = set_shared r arr lm).
  { destruct (shared_lock_table lm !! r) as [arr|]; [destruct (isContainTxnID arr _)|]; injection E as <- <-; eauto. }
  destruct HM as [[-> ->]|[-> (arr & ->)]]; [done|].
  assert (HO : locked_own r0 t → locked_own r0 (SetSharedLockSet (shared_lock_set t ++ [r]) t)).
  { intros [HX HS]. split; [exact HX|]. unfold IsSharedLocked in *. cbn. rewrite isContainsRID_app, HS.
    apply bool_decide_eq_false. intros ->. congruence. }
  split; [exact HO|]. rewrite !writable_cases. intros [HW|(HX & HR & HC)]; [left; by apply HO|right].
  split; [exact HX|]. cbn. split.
  - apply removeRID_app; [done|]. destruct (decide (r = r0)) as [->|Hne]; [right|by left].
    by apply isContainsRID_false.
  - unfold IsSharedLocked, unlocked in *. cbn. rewrite isContainsRID_app. destruct HC as [HS|(HS & HI & HN)]; [left; by rewrite HS|].
    destruct (decide (r = r0)) as [->|Hne]; [left; by rewrite bool_decide_true, orb_true_r by done|].
    right. rewrite HS, bool_decide_false by done. by rewrite lookup_insert_ne.
Qed.

(** Writing a record, for the others. *)
Lemma write_lock_keeps r t lm t' lm' r0 : write_lock r t lm = Ok (true, t', lm') →
  (unowned r0 t lm → unowned r0 t' lm') ∧ (r0 ≠ r → (locked_own r0 t → locked_own r0 t') ∧ (writable r0 t lm → writable r0 t' lm')).
Proof.
  intros E.
  assert (HM : t' = t ∧ lm' = lm ∨ lm' = set_exclusive r (txn_id t) lm ∧ txn_id t' = txn_id t ∧ exclusive_lock_set t' = exclusive_lock_set t ++ [r] ∧
    (shared_lock_set t' = shared_lock_set t ∨ shared_lock_set t' = removeRID (shared_lock_set t) r)).
  { unfold write_lock, LockUpgrade, LockExclusive in E. destruct (IsSharedLocked t r).
    - destruct (exclusive_lock_table lm !! r); injection E; intros; subst; auto 6.
    - destruct (IsExclusiveLocked t r); [injection E; intros; subst; auto|].
      destruct (exclusive_lock_table lm !! r); [injection E; intros; subst; auto|].
      destruct (shared_lock_table lm !! r) as [[|]|]; try done; injection E; intros; subst; auto 6. }
  destruct HM as [[-> ->]|(-> & HI & HX & HS)]; [done|]. split.
  { intros HU u. cbn. rewrite HI. destruct (decide (r = r0)) as [->|Hne]; [rewrite lookup_insert_eq; congruence|].
    rewrite lookup_insert_ne by done. apply HU. }
  intros Hne.
  assert (HSh : isContainsRID (shared_lock_set t') r0 = isContainsRID (shared_lock_set t) r0 ∧
    (r0 ∉ removeRID (shared_lock_set t) r0 → r0 ∉ removeRID (shared_lock_set t') r0)).
  { destruct HS as [->| ->]; [done|]. generalize (shared_lock_set t) as l. induction l as [|x l [IH1 IH2]]; [done|]. cbn. split.
    - case_decide as Hx; [subst x; by rewrite decide_False|cbn; by rewrite IH1].
    - destruct (decide (x = r)) as [->|Hx]; [rewrite decide_False by done; set_solver|]. cbn.
      destruct (decide (x = r0)) as [->|Hy]; [|set_solver].
      rewrite <- !isContainsRID_false. by rewrite IH1. }
  destruct HSh as [HSh HRm].
  assert (HEx : IsExclusiveLocked t' r0 = IsExclusiveLocked t r0).
  { unfold IsExclusiveLocked. rewrite HX, isContainsRID_app, bool_decide_false by done. apply orb_false_r. }
  assert (HO : locked_own r0 t → locked_own r0 t') by (unfold locked_own, IsSharedLocked; by rewrite HEx, HSh).
  split; [done|]. rewrite !writable_cases. intros [HW|(HN & HR & HC)]; [left; by apply HO|right].
  unfold lockable, IsSharedLocked, unlocked in *. cbn. rewrite lookup_insert_ne by done. rewrite HSh, HEx. auto.
Qed.

(** What the lock leaves alone. *)
Lemma write_lock_txn r t lm b t' lm' : write_lock r t lm = Ok (b, t', lm') →
  txn_id t' = txn_id t ∧ prev_lsn t' = prev_lsn t ∧ write_set t' = write_set t ∧ txn_state t' = txn_state t.
Proof.
  unfold write_lock, LockUpgrade, LockExclusive. destruct (IsSharedLocked t r).
  - destruct (exclusive_lock_table lm !! r); intros E; by injection E as _ <- _.
  - destruct (IsExclusiveLocked t r); [intros E; by injection E as _ <- _|].
    destruct (exclusive_lock_table lm !! r); [intros E; by injection E as _ <- _|].
    destruct (shared_lock_table lm !! r) as [[|]|]; intros E; by injection E as _ <- _.
Qed.
