(* ===== verification/Engine.v ===== *)
(** * The storage engine under a transaction

    The table heap, the transaction manager and the checkpoint manager all run
    on the same objects: the buffer pool (with the page objects, the disk and
    the log manager), the lock manager, and the transaction that calls them.
    [Engine] is that state, [on_page] runs an operation of a table page on the
    page object a pointer names, and [with_store] an operation of the pool. *)

From S2P Require Import Prelude Bytes Types Tuples Disk LogRecord LogManager Replacer Page BufferPool LockManager PoolView TablePage.

Record Engine (R : Type) : Type := MkEngine {
  estore : Store R;
  elocks : LockManager;
  etxn : Transaction;
  elogging : bool
}.
Arguments MkEngine {R}.
Arguments estore {R}.
Arguments elocks {R}.
Arguments etxn {R}.
Arguments elogging {R}.

Section engine.
Context {R : Type} `{Replacer R}.

Definition set_store (s : Store R) (e : Engine R) : Engine R :=
  MkEngine s (elocks e) (etxn e) (elogging e).
Definition set_locks (l : LockManager) (e : Engine R) : Engine R :=
  MkEngine (estore e) l (etxn e) (elogging e).
Definition set_txn (t : Transaction) (e : Engine R) : Engine R :=
  MkEngine (estore e) (elocks e) t (elogging e).

Definition with_store {A} (m : st (Store R) A) : st (Engine R) A := zoom estore set_store m.

(** [txn.SetState], [txn.AddIntoWriteSet] *)
Definition txn_set_state (x : TransactionState) : st (Engine R) unit :=
  st_modify (λ e, set_txn (SetState x (etxn e)) e).
Definition txn_add_write (w : WriteRecord) : st (Engine R) unit :=
  st_modify (λ e, set_txn (AddIntoWriteSet w (etxn e)) e).

(** The state of a page operation that gets the transaction and both managers. *)
Definition tp_state (e : Engine R) (pg : Page) : TPState :=
  MkTPState (elogging e) pg (Some (etxn e)) (Some (elocks e)) (Some (get_log (estore e))).

Definition on_page {A} (p : ptr) (m : st TPState A) : st (Engine R) A := λ e,
  pg ← deref (page_objs (estore e) !! p);
  r ← m (tp_state e pg);
  let '(a, s') := r in
  t ← deref (ttxn s'); lm ← deref (tlocks s'); l ← deref (tlog s');
  Ok (a, MkEngine (set_log_state l (set_objs (<[p := tpage s']> (page_objs (estore e))) (estore e)))
           lm t (elogging e)).

(** Reading and changing the header of a page, latching it. *)
Definition page_read {A} (p : ptr) (f : list byte → res A) : st (Engine R) A :=
  pg ← with_store (read_page p); st_lift (f (pdata pg)).
Definition page_write (p : ptr) (f : list byte → res (list byte)) : st (Engine R) unit :=
  with_store (update_page p (λ pg, d ← f (pdata pg); Ok (set_pdata d pg))).
Definition page_latch (p : ptr) (f : Page → res Page) : st (Engine R) unit :=
  with_store (update_page p f).

(** [CastPageAsTablePage(bpm.FetchPage(pid))], used at once: nil panics. *)
Definition fetch_table_page (pid : Z) : st (Engine R) ptr :=
  o ← with_store (FetchPage pid); st_lift (deref o).
(** [bpm.UnpinPage(page.GetTablePageId(), dirty)] *)
Definition unpin_table_page (p : ptr) (dirty : bool) : st (Engine R) unit :=
  pid ← page_read p (λ d, Ok (GetTablePageId d));
  _ ← with_store (UnpinPage pid dirty); mret tt.
End engine.

(** ** Steps of the engine *)
Ltac estep E := rewrite (st_bind_run _ _ _ _ _ E); cbn beta iota delta [fst snd negb].

Section lemmas.
Context {R : Type} `{Replacer R}.
Implicit Types (e : Engine R) (v : View).

(** Steps that leave the transaction, the locks and the log alone, and those
    that allocate no page either. *)
Record txn_kept e e' : Prop := {
  tk_locks : elocks e' = elocks e;
  tk_txn : etxn e' = etxn e;
  tk_logging : elogging e' = elogging e;
  tk_log : log_same (estore e) (estore e')
}.
Record same_txn e e' : Prop := {
  st_kept : txn_kept e e';
  st_next : nextPageID (diskManager (estore e')) = nextPageID (diskManager (estore e))
}.

Lemma txn_kept_trans e1 e2 e3 : txn_kept e1 e2 → txn_kept e2 e3 → txn_kept e1 e3.
Proof. intros [] []. split; try congruence. by eapply log_same_trans. Qed.

Lemma same_txn_refl e : same_txn e e.
Proof. split; [split|]; try done; apply log_same_refl. Qed.

Lemma same_txn_trans e1 e2 e3 : same_txn e1 e2 → same_txn e2 e3 → same_txn e1 e3.
Proof. intros [] []. split; [by eapply txn_kept_trans|congruence]. Qed.

Lemma same_txn_store e s' :
  log_same (estore e) s' → nextPageID (diskManager s') = nextPageID (diskManager (estore e)) →
  same_txn e (set_store s' e).
Proof. by split; [split|]. Qed.

Lemma with_store_run {A} (m : st (Store R) A) e a s' :
  m (estore e) = Ok (a, s') → with_store m e = Ok (a, set_store s' e).
Proof. intros E. by apply zoom_run. Qed.

Lemma page_read_run {A} e n v pid p bs (f : list byte → res A) a :
  shows (estore e) n v → held (estore e) pid p → vpages v !! pid = Some bs → f bs = Ok a →
  page_read p f e = Ok (a, e).
Proof.
  intros S Hh HB E. destruct (held_object _ _ _ _ _ _ S Hh HB) as (g & pg & C & HO & _ & <- & _).
  unfold page_read. rewrite (st_bind_run _ _ _ _ _ (with_store_run _ _ _ _ (read_page_run _ _ _ HO))).
  rewrite E. by destruct e.
Qed.

(** A step on the object of a held page. *)
Lemma update_held e pid f p pg pg' (g : Page → res Page) :
  cached (estore e) pid f p pg → g pg = Ok pg' →
  with_store (update_page p g) e = Ok (tt, set_store (upd_obj p pg' (estore e)) e).
Proof.
  intros (_ & _ & _ & HO) E. apply with_store_run. by rewrite (update_page_run _ _ _ _ _ HO E).
Qed.

Lemma page_write_run e n v pid p bs bs' (g : list byte → res (list byte)) :
  shows (estore e) n v → held (estore e) pid p → is_Some (vpins v !! pid) →
  vpages v !! pid = Some bs → g bs = Ok bs' → length bs' = length bs →
  ∃ e', page_write p g e = Ok (tt, e') ∧ shows (estore e') n (vwrite pid bs' v) ∧ same_txn e e' ∧
    (∀ i q, held (estore e) i q → held (estore e') i q).
Proof.
  intros S Hh HS HB E HL. destruct (held_object _ _ _ _ _ _ S Hh HB) as (f & pg & C & HO & _ & <- & HLt & _).
  destruct (shows_write _ _ _ _ _ _ _ (set_pdata bs' pg) S HS C) as (S' & Hk & _); try done.
  exists (set_store (upd_obj p (set_pdata bs' pg) (estore e)) e). split; [|split; [exact S'|split; [by apply same_txn_store|exact Hk]]].
  unfold page_write. apply (update_held e pid f p pg); [done|]. cbn beta. by rewrite E.
Qed.

(** Latches. *)
Lemma page_latch_run e n v v' pid p l (g : Latch → res Latch) :
  shows (estore e) n v → held (estore e) pid p → g (vlatch_of pid v) = Ok l →
  vpages v' = vpages v → vpins v' = vpins v → vdirty v' = vdirty v → vlatch_of pid v' = l →
  (∀ i, i ≠ pid → vlatch_of i v' = vlatch_of i v) →
  ∃ e', page_latch p (on_latch g) e = Ok (tt, e') ∧ shows (estore e') n v' ∧ same_txn e e' ∧
    (∀ i q, held (estore e) i q → held (estore e') i q).
Proof.
  intros S (f & pg & C) E H1 H2 H3 H4 H5.
  destruct (sh_cached _ _ _ S _ _ _ _ C) as (_ & _ & HLt & _).
  destruct (shows_latch _ _ _ v' _ _ _ _ l S C H1 H2 H3 H4 H5) as (S' & Hk & _).
  exists (set_store (upd_obj p (set_latch l pg) (estore e)) e). split; [|split; [exact S'|split; [by apply same_txn_store|exact Hk]]].
  unfold page_latch. apply (update_held e pid f p pg); [done|]. unfold on_latch. by rewrite HLt, E.
Qed.

Lemma vlatch_of_vlatch pid l v : vlatch_of pid (vlatch pid l v) = l.
Proof. unfold vlatch_of, vlatch. cbn. by rewrite lookup_insert_eq. Qed.
Lemma vlatch_of_vlatch_ne pid l v i : i ≠ pid → vlatch_of i (vlatch pid l v) = vlatch_of i v.
Proof. intros Hne. unfold vlatch_of, vlatch. cbn. by rewrite lookup_insert_ne. Qed.
Lemma vlatch_of_vunlatch pid v : vlatch_of pid (vunlatch pid v) = NewRWLatch.
Proof. unfold vlatch_of, vunlatch. cbn. by rewrite lookup_delete_eq. Qed.
Lemma vlatch_of_vunlatch_ne pid v i : i ≠ pid → vlatch_of i (vunlatch pid v) = vlatch_of i v.
Proof. intros Hne. unfold vlatch_of, vunlatch. cbn. by rewrite lookup_delete_ne. Qed.

(** [g] takes a free latch to [l]; [h] gives it back. *)
Lemma page_acquire e n v pid p (g : Latch → res Latch) l :
  shows (estore e) n v → held (estore e) pid p → vlatch_of pid v = NewRWLatch →
  g NewRWLatch = Ok l →
  ∃ e', page_latch p (on_latch g) e = Ok (tt, e') ∧ shows (estore e') n (vlatch pid l v) ∧
    same_txn e e' ∧ (∀ i q, held (estore e) i q → held (estore e') i q).
Proof.
  intros S Hh HL E.
  apply (page_latch_run e n v _ pid p l); try done; [by rewrite HL|apply vlatch_of_vlatch|].
  intros i. apply vlatch_of_vlatch_ne.
Qed.

Lemma page_release e n v pid p (h : Latch → res Latch) l :
  shows (estore e) n v → held (estore e) pid p → vlatch_of pid v = l → h l = Ok NewRWLatch →
  ∃ e', page_latch p (on_latch h) e = Ok (tt, e') ∧ shows (estore e') n (vunlatch pid v) ∧
    same_txn e e' ∧ (∀ i q, held (estore e) i q → held (estore e') i q).
Proof.
  intros S Hh HL E.
  apply (page_latch_run e n v _ pid p NewRWLatch); try done; [by rewrite HL|apply vlatch_of_vunlatch|].
  intros i. apply vlatch_of_vunlatch_ne.
Qed.

(** Fetching and unpinning. *)
Lemma fetch_run e n v pid bs :
  shows (estore e) n v → vpages v !! pid = Some bs →
  is_Some (vpins v !! pid) ∨ (base.size (vpins v) < n)%nat → vpin_count pid v < 2 ^ 32 - 1 →
  latches_pinned v →
  ∃ p e', with_store (FetchPage pid) e = Ok (Some p, e') ∧ fetch_table_page pid e = Ok (p, e') ∧
    shows (estore e') n (vpin pid v) ∧ held (estore e') pid p ∧
    keeps_held (estore e) (estore e') v ∧ same_txn e e'.
Proof.
  intros S HB HF HC HL. destruct (shows_fetch _ _ _ _ _ S HB HF HC HL) as (p & s' & E & S' & Hh & HK & HLg & HN).
  exists p, (set_store s' e). pose proof (with_store_run _ _ _ _ E) as E'. split; [done|].
  split; [|split; [done|split; [done|split; [done|by apply same_txn_store]]]].
  unfold fetch_table_page. by rewrite (st_bind_run _ _ _ _ _ E').
Qed.

Lemma unpin_run e n v pid dirty :
  shows (estore e) n v → is_Some (vpins v !! pid) → dirty = true ∨ pid ∉ vdirty v →
  ∃ e', with_store (UnpinPage pid dirty) e = Ok (true, e') ∧ shows (estore e') n (vunpin pid v) ∧
    keeps_held (estore e) (estore e') v ∧ same_txn e e'.
Proof.
  intros S HS HD. destruct (shows_unpin _ _ _ _ dirty S HS HD) as (s' & E & S' & HK & HL & HDk & _).
  exists (set_store s' e). split; [by apply with_store_run|]. split; [done|]. split; [done|].
  apply same_txn_store; [done|by rewrite HDk].
Qed.

Lemma unpin_table_page_run e n v pid p bs dirty :
  shows (estore e) n v → held (estore e) pid p → vpages v !! pid = Some bs →
  GetTablePageId bs = pid → is_Some (vpins v !! pid) → dirty = true ∨ pid ∉ vdirty v →
  ∃ e', unpin_table_page p dirty e = Ok (tt, e') ∧ shows (estore e') n (vunpin pid v) ∧
    keeps_held (estore e) (estore e') v ∧ same_txn e e'.
Proof.
  intros S Hh HB HP HS HD. destruct (unpin_run e n v pid dirty S HS HD) as (e' & E & X).
  exists e'. split; [|done]. unfold unpin_table_page.
  rewrite (st_bind_run _ _ _ _ _ (page_read_run e n v pid p bs (λ d, Ok (GetTablePageId d)) _ S Hh HB eq_refl)).
  rewrite HP. by rewrite (st_bind_run _ _ _ _ _ E).
Qed.

(** ** Page operations *)

(** With logging on, the lock an operation asks for is granted and its record
    can be appended. *)
Definition ready (lock : Transaction → LockManager → res (bool * Transaction * LockManager))
    (mk : Z → Z → LogRecord) (t : Transaction) (lm : LockManager) (logging : bool) : Prop :=
  logging = true → ∃ t' lm', lock t lm = Ok (true, t', lm') ∧ txn_id t' = txn_id t ∧
    prev_lsn t' = prev_lsn t ∧ appendable (mk (txn_id t) (prev_lsn t)).

(** Record [r] has been appended with the next LSN. *)
Definition log_grew (r : LogRecord) (s s' : Store R) : Prop :=
  log_stream (get_log s') = log_stream (get_log s) ++ encode (set_Lsn (next_lsn (log_manager s)) r) ∧
  next_lsn (log_manager s') = i32 (next_lsn (log_manager s) + 1).

(** The locks taken and the record appended by a page operation. *)
Definition logged (lock : Transaction → LockManager → res (bool * Transaction * LockManager))
    (mk : Z → Z → LogRecord) e e' : Prop :=
  elogging e' = elogging e ∧
  if elogging e then
    ∃ t' lm', lock (etxn e) (elocks e) = Ok (true, t', lm') ∧ elocks e' = lm' ∧
      etxn e' = SetPrevLSN (next_lsn (log_manager (estore e))) t' ∧
      log_grew (mk (txn_id (etxn e)) (prev_lsn (etxn e))) (estore e) (estore e')
  else etxn e' = etxn e ∧ elocks e' = elocks e ∧ log_same (estore e) (estore e').

Lemma shows_log_wf s n v : shows s n v → log_wf (get_log s).
Proof. intros S. destruct (sh_pool _ _ _ S) as (E & [I _] & _). apply I. Qed.

Lemma ready_op lock mk e pg :
  log_wf (get_log (estore e)) → ready lock mk (etxn e) (elocks e) (elogging e) →
  op_ready lock mk (tp_state e pg).
Proof.
  intros W HR HL. destruct (HR HL) as (t' & lm' & E & H1 & H2 & HA).
  by exists (etxn e), (elocks e), t', lm', (get_log (estore e)).
Qed.

Lemma ready_same lock mk e e' :
  txn_kept e e' → ready lock mk (etxn e) (elocks e) (elogging e) →
  ready lock mk (etxn e') (elocks e') (elogging e').
Proof. intros [-> -> -> _]. done. Qed.

(** Running a page operation on a held page. *)
Lemma on_page_run {A} e n v pid f p pg (m : st TPState A) a s' :
  shows (estore e) n v → cached (estore e) pid f p pg → is_Some (vpins v !! pid) →
  m (tp_state e pg) = Ok (a, s') → keeps_object m → length (bytes s') = length (pdata pg) →
  ∀ t lm l, ttxn s' = Some t → tlocks s' = Some lm → tlog s' = Some l → log_wf l →
  db (snd l) = db (diskManager (estore e)) → nextPageID (snd l) = nextPageID (diskManager (estore e)) →
  let st := set_log_state l (upd_obj p (tpage s') (estore e)) in
  on_page p m e = Ok (a, MkEngine st lm t (elogging e)) ∧ shows st n (vwrite pid (bytes s') v) ∧
  (∀ i q, held (estore e) i q → held st i q).
Proof.
  intros S C HS E K HL t lm l Et Elm El HW HD HN. pose proof (K _ _ _ E) as HT. cbn [tpage tp_state] in HT.
  split.
  { destruct C as (_ & _ & _ & HO). unfold on_page. rewrite HO. mred. rewrite E. mred.
    by rewrite Et, Elm, El. }
  destruct (shows_write _ _ _ _ _ _ _ (tpage s') S HS C) as (S' & Hk & _);
    [by rewrite HT..|].
  destruct (shows_same _ (set_log_state l (upd_obj p (tpage s') (estore e))) _ _ S') as [S'' HH]; try done.
  - split; try done. cbn. by rewrite HD.
  - unfold get_log. cbn. by destruct l.
Qed.

(** An operation with its lock and its record. *)
Lemma on_page_logged {A} e n v pid p bs (m : st TPState A) a lock mk :
  shows (estore e) n v → held (estore e) pid p → is_Some (vpins v !! pid) →
  vpages v !! pid = Some bs → keeps_object m →
  (∀ pg, pdata pg = bs → ∃ s', m (tp_state e pg) = Ok (a, s') ∧ zlen (bytes s') = zlen bs ∧
     op_logged lock mk (tp_state e pg) s') →
  ∃ pg s' e', pdata pg = bs ∧ m (tp_state e pg) = Ok (a, s') ∧ on_page p m e = Ok (a, e') ∧
    shows (estore e') n (vwrite pid (bytes s') v) ∧
    (∀ i q, held (estore e) i q → held (estore e') i q) ∧ logged lock mk e e' ∧
    nextPageID (diskManager (estore e')) = nextPageID (diskManager (estore e)).
Proof.
  intros S Hh HS HB K HM. destruct (held_object _ _ _ _ _ _ S Hh HB) as (f & pg & C & HO & _ & Hd & _).
  destruct (HM pg Hd) as (s' & E & HL & HG1 & HG2). exists pg, s'. cbn [EnableLogging tp_state] in HG1, HG2.
  assert (HL' : length (bytes s') = length (pdata pg)) by (rewrite Hd; unfold zlen in HL; lia).
  pose proof (on_page_run e n v pid f p pg m a s' S C HS E K HL') as HP.
  unfold logged. destruct (elogging e) eqn:EL.
  - destruct HG2 as (t & lm & t' & lm' & l & l' & [= <-] & [= <-] & ELk & [= <-] & A1 & El & Elm & Et & _).
    destruct A1 as (W & HS1 & HN1 & _ & _ & HD1 & HN2).
    destruct (HP _ _ _ Et Elm El W HD1 HN2) as (EP & S' & Hk).
    eexists. split; [done|]. split; [done|]. split; [exact EP|]. split; [exact S'|].
    split; [exact Hk|]. split; [|exact HN2]. split; [done|]. exists t', lm'. split; [done|].
    split; [done|]. split; [done|]. split; [|exact HN1].
    unfold get_log at 1. cbn. destruct l'. exact HS1.
  - destruct HG2 as (Et & Elm & El & _).
    destruct (HP _ _ _ Et Elm El (shows_log_wf _ _ _ S) eq_refl eq_refl) as (EP & S' & Hk).
    eexists. split; [done|]. split; [done|]. split; [exact EP|]. split; [exact S'|].
    split; [exact Hk|]. split; [|done]. split; [done|]. repeat (split; [done|]).
    by apply log_same_eq.
Qed.
End lemmas.

(** ** A session on one page

    Fetch, latch, run one operation, unlatch and unpin as dirty: what the heap
    does for one record, and what it leaves of the pool. *)

(** Nobody latches a page or has changed one he holds. *)
Definition quiet (P : gmap Z (list byte)) (pins : gmap Z Z) : View := MkView P pins ∅ ∅.

(** Somebody has changed the pages [D] and not yet given them back. *)
Definition leaky (D : gset Z) (P : gmap Z (list byte)) (pins : gmap Z Z) : View := MkView P pins D ∅.

(** Page [pid] can be pinned once more. *)
Definition room (n : nat) (pins : gmap Z Z) (pid : Z) : Prop :=
  (is_Some (pins !! pid) ∨ (base.size pins < n)%nat) ∧ default 0 (pins !! pid) < 2 ^ 32 - 1.

(** [k] frames that nobody pins, and pin counts that do not overflow. *)
Definition frames_for (k : nat) (n : nat) (pins : gmap Z Z) : Prop :=
  (base.size pins + k ≤ n)%nat ∧ ∀ pid i, pins !! pid = Some i → i < 2 ^ 32 - 2.

Lemma frames_room k n pins pid : (0 < k)%nat → frames_for k n pins → room n pins pid.
Proof.
  intros Hk [HF HC]. split; [right; lia|].
  destruct (pins !! pid) as [i|] eqn:E; cbn; [pose proof (HC _ _ E)|]; lia.
Qed.

Definition pins_pos (pins : gmap Z Z) : Prop := ∀ pid k, pins !! pid = Some k → 0 < k.

Section session.
Context {R : Type} `{Replacer R}.
Implicit Types (e : Engine R) (v : View).

Lemma shows_pins s n v : shows (R := R) s n v → pins_pos (vpins v).
Proof. intros S pid k Hk. by destruct (sh_pins _ _ _ S _ _ Hk). Qed.

Lemma pins_back pid pins k :
  pins_pos pins → k = default 0 (pins !! pid) + 1 →
  (if decide (default 0 (<[pid := k]> pins !! pid) ≤ 1) then base.delete pid (<[pid := k]> pins)
   else <[pid := default 0 (<[pid := k]> pins !! pid) - 1]> (<[pid := k]> pins)) = pins.
Proof.
  intros HP ->. rewrite lookup_insert_eq. cbn [default from_option id]. unfold Datatypes.id.
  destruct (pins !! pid) as [k|] eqn:Hk; cbn.
  - pose proof (HP _ _ Hk). rewrite decide_False by lia. rewrite insert_insert_eq.
    apply insert_id. rewrite Hk. f_equal. lia.
  - rewrite decide_True by lia. by rewrite delete_insert_id.
Qed.

(** Fetched by its only user, page [pid] with contents [D] dirty. *)
Definition vheld (P : gmap Z (list byte)) (pins : gmap Z Z) (D : gset Z) (L : gmap Z Latch)
    (pid : Z) : View :=
  MkView P (<[pid := default 0 (pins !! pid) + 1]> pins) D L.

Lemma vheld_pin P pins pid : vpin pid (quiet P pins) = vheld P pins ∅ ∅ pid.
Proof. done. Qed.

Lemma vheld_pin_leaky D P pins pid : vpin pid (leaky D P pins) = vheld P pins D ∅ pid.
Proof. done. Qed.

Lemma vheld_pinned P pins D L pid : is_Some (vpins (vheld P pins D L pid) !! pid).
Proof. cbn. by rewrite lookup_insert_eq. Qed.

Lemma vunpin_vheld P pins D L pid :
  pins_pos pins → vunpin pid (vheld P pins D L pid) = MkView P pins (D ∖ {[pid]}) L.
Proof.
  intros HP. unfold vunpin, vheld, vpin_count. cbn. f_equal. by apply (pins_back pid pins).
Qed.

Lemma logged_same lock mk e1 e2 e3 e4 :
  txn_kept e1 e2 → logged lock mk e2 e3 → txn_kept e3 e4 → logged (R := R) lock mk e1 e4.
Proof.
  intros [L1 T1 G1 K1] [HG HL] [L2 T2 G2 K2]. unfold logged. rewrite <- G1, <- L1, <- T1, L2, T2, G2.
  split; [done|]. destruct (elogging e2).
  - destruct K1 as (S1 & N1 & _), K2 as (S2 & N2 & _). unfold log_grew in *. rewrite <- S1, <- N1, S2, N2. done.
  - destruct HL as (HT & HK & HS). split; [done|]. split; [done|].
    eapply log_same_trans; [exact K1|]. by eapply log_same_trans.
Qed.

Lemma shows_vheld_pins s n P pins D L pid :
  shows (R := R) s n (vheld P pins D L pid) → pins_pos pins → pins_pos (vpins (vheld P pins D L pid)).
Proof. intros S _. by eapply shows_pins. Qed.

(** Latched for writing by its user. *)
Definition wlatched : Latch := MkLatch 0 true.
Definition rlatched : Latch := MkLatch 1 false.

Lemma open_kept e n P pins D pid bs :
  shows (estore e) n (MkView P pins D ∅) → P !! pid = Some bs → room n pins pid →
  ∃ p e', with_store (FetchPage pid) e = Ok (Some p, e') ∧ fetch_table_page pid e = Ok (p, e') ∧
    shows (estore e') n (vheld P pins D ∅ pid) ∧ held (estore e') pid p ∧
    keeps_held (estore e) (estore e') (MkView P pins D ∅) ∧ same_txn e e'.
Proof.
  intros S HB [HF HC]. apply (fetch_run e n (MkView P pins D ∅) pid bs S HB HF HC).
  intros i [l Hl]. cbn in Hl. by rewrite lookup_empty in Hl.
Qed.

Lemma open_dirty e n P pins D pid bs :
  shows (estore e) n (MkView P pins D ∅) → P !! pid = Some bs → room n pins pid →
  ∃ p e', with_store (FetchPage pid) e = Ok (Some p, e') ∧ fetch_table_page pid e = Ok (p, e') ∧
    shows (estore e') n (vheld P pins D ∅ pid) ∧ held (estore e') pid p ∧ same_txn e e'.
Proof.
  intros S HB HRm. destruct (open_kept e n P pins D pid bs S HB HRm) as (p & e' & E1 & E2 & S' & Hh & _ & ST).
  by exists p, e'.
Qed.

Lemma open_run e n P pins pid bs :
  shows (estore e) n (quiet P pins) → P !! pid = Some bs → room n pins pid →
  ∃ p e', with_store (FetchPage pid) e = Ok (Some p, e') ∧ fetch_table_page pid e = Ok (p, e') ∧
    shows (estore e') n (vheld P pins ∅ ∅ pid) ∧ held (estore e') pid p ∧ same_txn e e'.
Proof. apply open_dirty. Qed.

Lemma close_dirty e n P pins D pid p bs dirty :
  shows (estore e) n (vheld P pins D ∅ pid) → pins_pos pins →
  held (estore e) pid p → P !! pid = Some bs → GetTablePageId bs = pid → dirty = true ∨ pid ∉ D →
  ∃ e', unpin_table_page p dirty e = Ok (tt, e') ∧ with_store (UnpinPage pid dirty) e = Ok (true, e') ∧
    shows (estore e') n (MkView P pins (D ∖ {[pid]}) ∅) ∧ same_txn e e'.
Proof.
  intros S HP Hh HB HG HDt.
  destruct (unpin_run e n _ pid dirty S (vheld_pinned _ _ _ _ _) HDt) as (e' & E & S' & _ & ST).
  rewrite vunpin_vheld in S' by done.
  exists e'. split; [|done]. unfold unpin_table_page.
  rewrite (st_bind_run _ _ _ _ _ (page_read_run e n _ pid p bs (λ d, Ok (GetTablePageId d)) _ S Hh HB eq_refl)).
  rewrite HG. by rewrite (st_bind_run _ _ _ _ _ E).
Qed.

Lemma vheld_dom P pins D L pid D' : dom (vpins (leaky D' P pins)) ⊆ dom (vpins (vheld P pins D L pid)).
Proof. cbn. rewrite dom_insert. set_solver. Qed.

(** A page looked at and given back: it stays changed if somebody has changed it. *)
Lemma look_run e n P pins D pid bs :
  shows (estore e) n (leaky D P pins) → P !! pid = Some bs → room n pins pid →
  ∃ p e1 pg e2, with_store (FetchPage pid) e = Ok (Some p, e1) ∧ with_store (read_page p) e1 = Ok (pg, e1) ∧ pdata pg = bs ∧
    with_store (UnpinPage pid false) e1 = Ok (true, e2) ∧ shows (estore e2) n (leaky D P pins) ∧
    keeps_held (estore e) (estore e2) (leaky D P pins) ∧ same_txn e e2.
Proof.
  intros S HB HRm. pose proof (shows_pins _ _ _ S) as HP. cbn in HP.
  destruct (open_kept e n P pins D pid bs S HB HRm) as (p & e1 & E1 & _ & S1 & Hh1 & HK1 & ST1).
  destruct (held_object _ _ _ _ _ _ S1 Hh1 HB) as (f & pg & _ & HO & _ & Hd & _).
  destruct (shows_unpin_as (estore e1) n _ pid false D S1 (vheld_pinned _ _ _ _ _)) as (s2 & E2 & S2 & HK2 & HL & HD & _).
  { done. }
  { intros Hin. destruct (sh_dirty _ _ _ S pid Hin) as [k Hk]. cbn in Hk. unfold vpin_count. cbn.
    rewrite lookup_insert_eq, Hk. cbn. pose proof (HP _ _ Hk). lia. }
  { intros Hin. by right. }
  exists p, e1, pg, (set_store s2 e1). split; [done|]. split.
  { rewrite (with_store_run _ _ _ _ (read_page_run _ _ _ HO)). by destruct e1. }
  split; [done|]. split; [by apply with_store_run|]. split; [|split].
  - unfold vpins_back, vheld, vpin_count in S2. cbn in S2. by rewrite (pins_back pid pins _ HP eq_refl) in S2.
  - eapply keeps_held_trans; [exact HK1|]. eapply keeps_held_fewer; [apply vheld_dom|exact HK2].
  - eapply same_txn_trans; [exact ST1|]. apply same_txn_store; [done|by rewrite HD].
Qed.

Lemma close_run e n P pins D pid p bs dirty :
  shows (estore e) n (vheld P pins D ∅ pid) → pins_pos pins → D ⊆ {[pid]} →
  held (estore e) pid p → P !! pid = Some bs → GetTablePageId bs = pid → dirty = true ∨ D = ∅ →
  ∃ e', unpin_table_page p dirty e = Ok (tt, e') ∧ with_store (UnpinPage pid dirty) e = Ok (true, e') ∧
    shows (estore e') n (quiet P pins) ∧ same_txn e e'.
Proof.
  intros S HP HD Hh HB HG HDt.
  destruct (close_dirty e n P pins D pid p bs dirty S HP Hh HB HG) as (e' & E1 & E2 & S' & ST);
    [destruct HDt as [|HDe]; [by left|rewrite HDe; right; set_solver]|].
  exists e'. by replace (D ∖ {[pid]}) with (∅ : gset Z) in S' by set_solver.
Qed.

(** A page operation under the write latch. *)
Lemma latched_run {A} e n P pins D pid p bs (m : st TPState A) a lock mk (Q : list byte → Prop) :
  shows (estore e) n (vheld P pins D ∅ pid) → held (estore e) pid p → P !! pid = Some bs →
  keeps_object m →
  (∀ e2 pg, same_txn e e2 → log_wf (get_log (estore e2)) → pdata pg = bs →
     ∃ s', m (tp_state e2 pg) = Ok (a, s') ∧ zlen (bytes s') = zlen bs ∧
       op_logged lock mk (tp_state e2 pg) s' ∧ Q (bytes s')) →
  ∃ e2 e3 e4 bs', page_latch p WLatch e = Ok (tt, e2) ∧ on_page p m e2 = Ok (a, e3) ∧
    page_latch p WUnlatch e3 = Ok (tt, e4) ∧
    shows (estore e3) n (vheld (<[pid := bs']> P) pins ({[pid]} ∪ D) {[pid := wlatched]} pid) ∧
    shows (estore e4) n (vheld (<[pid := bs']> P) pins ({[pid]} ∪ D) ∅ pid) ∧
    held (estore e3) pid p ∧ held (estore e4) pid p ∧ Q bs' ∧ same_txn e e2 ∧ logged lock mk e e4 ∧
    nextPageID (diskManager (estore e4)) = nextPageID (diskManager (estore e)) ∧
    same_txn e3 e4.
Proof.
  intros S Hh HB K HM.
  destruct (page_acquire e n _ pid p WLock wlatched S Hh) as (e2 & E2 & S2 & ST2 & HK2);
    [unfold vlatch_of; cbn; by rewrite lookup_empty|done|].
  assert (HM2 : ∀ pg, pdata pg = bs → ∃ s', m (tp_state e2 pg) = Ok (a, s') ∧
      zlen (bytes s') = zlen bs ∧ op_logged lock mk (tp_state e2 pg) s').
  { intros pg Hp. destruct (HM e2 pg ST2 (shows_log_wf _ _ _ S2) Hp) as (s' & ? & ? & ? & _). by exists s'. }
  destruct (on_page_logged e2 n _ pid p bs m a lock mk S2 (HK2 _ _ Hh) (vheld_pinned _ _ _ _ _) HB K HM2)
    as (pg & s' & e3 & Hp & Em & E3 & S3 & HK3 & HL3 & HN3).
  destruct (HM e2 pg ST2 (shows_log_wf _ _ _ S2) Hp) as (s'' & Em' & _ & _ & HQ).
  rewrite Em in Em'. injection Em' as <-.
  destruct (page_release e3 n _ pid p WUnlock wlatched S3 (HK3 _ _ (HK2 _ _ Hh))) as (e4 & E4 & S4 & ST4 & HK4);
    [unfold vlatch_of; cbn; by rewrite lookup_insert_eq|done|].
  exists e2, e3, e4, (bytes s'). split; [exact E2|]. split; [exact E3|]. split; [exact E4|].
  split; [exact S3|]. split.
  { unfold vunlatch, vwrite, vlatch, vheld in S4 |- *. cbn in S4.
    by rewrite delete_insert_id in S4 by apply lookup_empty. }
  split; [by apply HK3, HK2|]. split; [by apply HK4, HK3, HK2|]. split; [done|]. split; [done|].
  split; [by eapply logged_same; [apply ST2| |apply ST4]|]. split; [|done].
  rewrite (st_next _ _ ST4), HN3. apply ST2.
Qed.

(** An operation that changes nothing. *)
Lemma on_page_same {A} e pid f p pg (m : st TPState A) a :
  cached (estore e) pid f p pg → m (tp_state e pg) = Ok (a, tp_state e pg) → on_page p m e = Ok (a, e).
Proof.
  intros (_ & _ & _ & HO) E. unfold on_page. rewrite HO. mred. rewrite E. mred. cbn.
  rewrite insert_id by done. destruct e as [[] ? ? ?]. done.
Qed.
End session.
