(* ===== verification/TableHeap.v ===== *)
(** * Table heaps ([storage/access/table_heap.go],
    [storage/access/table_heap_iterator.go])

    A table is a chain of table pages, found through the page id of the first.
    The heap holds that id; pages are fetched from the buffer pool, latched,
    worked on through [TablePage]'s operations, and unpinned. *)

From S2P Require Import Prelude Bytes Types Tuples Disk LogRecord LogManager ClockReplacer Replacer Page BufferPool LockManager PoolView TablePage Engine.

(** The pool and the managers of the heap are those of the engine. *)
Record TableHeap : Type := InitTableHeap { firstPageId : Z }.

Section heap.
Context {R : Type} `{Replacer R}.

Definition NewTableHeap : st (Engine R) TableHeap :=
  o ← with_store NewPage;
  p ← st_lift (deref o);
  _ ← page_latch p WLatch;
  pg ← with_store (read_page p);
  _ ← on_page p (Init (id pg) InvalidPageID);
  _ ← page_latch p WUnlatch;
  _ ← with_store (UnpinPage (id pg) true);
  mret (InitTableHeap (id pg)).

(** The loop of [InsertTuple]: the error of an early return, or the page the
    loop ended on, still pinned, with the result of the insert; and the caller's
    tuple. *)
Fixpoint insert_loop (fuel : nat) (currentPage : ptr) (tuple_ : Tuple) :
    st (Engine R) ((tp_error + ptr * (tp_error + RID)) * Tuple) :=
  match fuel with
  | O => st_lift OutOfFuel
  | S fuel' =>
      _ ← page_latch currentPage WLatch;
      rt ← on_page currentPage (TablePage.InsertTuple tuple_);
      let '(r, tuple_) := rt in
      match r with
      | inr _ | inl ErrEmptyTuple =>
          _ ← page_latch currentPage WUnlatch; mret (inr (currentPage, r), tuple_)
      | inl ErrNotEnoughSpace =>
          nextPageId ← page_read currentPage GetNextPageId;
          if IsValid nextPageId then
            _ ← unpin_table_page currentPage false;
            _ ← page_latch currentPage WUnlatch;
            nextPage ← fetch_table_page nextPageId;
            insert_loop fuel' nextPage tuple_
          else
            o ← with_store NewPage;
            p ← st_lift (deref o);
            pg ← with_store (read_page p);
            _ ← page_write currentPage (SetNextPageId (id pg));
            _ ← page_latch currentPage WUnlatch;
            _ ← page_latch currentPage RLatch;
            prev ← page_read currentPage (λ d, Ok (GetTablePageId d));
            _ ← on_page p (Init (id pg) prev);
            _ ← unpin_table_page currentPage true;
            _ ← page_latch currentPage RUnlatch;
            insert_loop fuel' p tuple_
      | inl err => _ ← page_latch currentPage WUnlatch; mret (inl err, tuple_)
      end
  end.

Definition InsertTuple (fuel : nat) (t : TableHeap) (tuple_ : Tuple) :
    st (Engine R) ((tp_error + RID) * Tuple) :=
  currentPage ← fetch_table_page (firstPageId t);
  lt ← insert_loop fuel currentPage tuple_;
  let '(l, tuple_) := lt in
  match l with
  | inl err => mret (inl err, tuple_)
  | inr (currentPage, r) =>
      _ ← unpin_table_page currentPage true;
      match r with
      | inl _ => st_lift Panic   (* the nil rid is dereferenced *)
      | inr rid =>
          _ ← txn_add_write (NewWriteRecord rid WINSERT ZeroTuple (firstPageId t));
          mret (inr rid, tuple_)
      end
  end.

Definition MarkDelete (t : TableHeap) (rid : RID) : st (Engine R) bool :=
  o ← with_store (FetchPage (PageId rid));
  match o with
  | None => _ ← txn_set_state ABORTED; mret false
  | Some page_ =>
      _ ← page_latch page_ WLatch;
      is_marked ← on_page page_ (TablePage.MarkDelete rid);
      _ ← page_latch page_ WUnlatch;
      _ ← unpin_table_page page_ true;
      _ ← (if is_marked : bool
           then txn_add_write (NewWriteRecord rid WDELETE ZeroTuple (firstPageId t))
           else mret tt);
      mret is_marked
  end.

(** [new(tuple.Tuple)] with [SetRID(new(page.RID))] *)
Definition fresh_tuple : Tuple := SetRID (MkRID 0 0) ZeroTuple.

Definition UpdateTuple (fuel : nat) (t : TableHeap) (tuple_ : Tuple)
    (update_col_idxs : option (list Z)) (schema_ : option Schema) (rid : RID) :
    st (Engine R) (bool * option RID) :=
  o ← with_store (FetchPage (PageId rid));
  match o with
  | None => _ ← txn_set_state ABORTED; mret (false, None)
  | Some page_ =>
      _ ← page_latch page_ WLatch;
      r ← on_page page_ (TablePage.UpdateTuple tuple_ update_col_idxs schema_ fresh_tuple rid);
      let '(is_updated, err, need_follow_tuple, old_tuple) := r in
      _ ← page_latch page_ WUnlatch;
      _ ← unpin_table_page page_ is_updated;
      let finish (is_updated : bool) (new_rid : option RID) : st (Engine R) (bool * option RID) :=
        e ← st_get;
        _ ← (if is_updated && bool_decide (txn_state (etxn e) ≠ ABORTED)
             then txn_add_write (NewWriteRecord rid WUPDATE old_tuple (firstPageId t))
             else mret tt);
        mret (is_updated, new_rid) in
      if negb is_updated && bool_decide (err = Some ErrNotEnoughSpace) then
        is_deleted ← MarkDelete t rid;
        if negb is_deleted then _ ← txn_set_state ABORTED; mret (false, None)
        else
          follow ← st_lift (deref need_follow_tuple);
          rt ← InsertTuple fuel t follow;
          match fst rt with
          | inl _ => _ ← txn_set_state ABORTED; mret (false, None)
          | inr new_rid => finish true (Some new_rid)
          end
      else finish is_updated None
  end.

Definition ApplyDelete (t : TableHeap) (rid : RID) : st (Engine R) unit :=
  o ← with_store (FetchPage (PageId rid));
  page_ ← st_lift (deref o);
  _ ← page_latch page_ WLatch;
  _ ← on_page page_ (TablePage.ApplyDelete rid);
  _ ← page_latch page_ WUnlatch;
  unpin_table_page page_ true.

Definition RollbackDelete (t : TableHeap) (rid : RID) : st (Engine R) unit :=
  o ← with_store (FetchPage (PageId rid));
  page_ ← st_lift (deref o);
  _ ← page_latch page_ WLatch;
  _ ← on_page page_ (TablePage.RollbackDelete rid);
  _ ← page_latch page_ WUnlatch;
  unpin_table_page page_ true.

(** [t.lock_manager.LockShared(txn, rid)] *)
Definition lock_shared (rid : RID) : st (Engine R) bool := λ e,
  let '(b, t', lm') := LockShared (etxn e) rid (elocks e) in
  Ok (b, set_locks lm' (set_txn t' e)).

Definition GetTuple (t : TableHeap) (rid : RID) : st (Engine R) (option Tuple) :=
  e ← st_get;
  locked ← (if IsSharedLocked (etxn e) rid then mret true
            else if IsExclusiveLocked (etxn e) rid then mret true
            else lock_shared rid);
  if negb locked then _ ← txn_set_state ABORTED; mret None
  else
    page ← fetch_table_page (PageId rid);
    pg ← with_store (read_page page);
    _ ← page_latch page RLatch;
    ret ← on_page page (TablePage.GetTuple rid);
    _ ← page_latch page RUnlatch;
    _ ← with_store (UnpinPage (id pg) false);
    mret ret.
End heap.

(** ** The chain of pages *)
Abbreviation slots := (list (option (bool * list byte))) (only parsing).

(** Page [d] of a table: its id, its tuples and the page that follows. *)
Record page_is (d : list byte) (q : Z) (ls : slots) (next : Z) : Prop := {
  pg_wf : page_wf d;
  pg_contents : contents d = ls;
  pg_id : GetTablePageId d = q;
  pg_next : GetNextPageId d = Ok next
}.

(** The pages of a table from page [pid] on, with their tuples, in order. *)
Fixpoint chain (P : gmap Z (list byte)) (pid : Z) (c : list (Z * slots)) : Prop :=
  match c with
  | [] => pid = InvalidPageID
  | (q, ls) :: c' => pid = q ∧ page_in_range q ∧
      ∃ d next, P !! q = Some d ∧ page_is d q ls next ∧ chain P next c'
  end.

(** The pages of table [t] are [c]. *)
Record heap_rep (P : gmap Z (list byte)) (t : TableHeap) (c : list (Z * slots)) : Prop := {
  hr_some : c ≠ [];
  hr_nodup : NoDup c.*1;
  hr_chain : chain P (firstPageId t) c
}.

(** Slot [x] in record [r] of the table. *)
Definition heap_slot (c : list (Z * slots)) (r : RID) (x : option (bool * list byte)) : Prop :=
  ∃ i ls, c !! i = Some (PageId r, ls) ∧ ls !! Z.to_nat (SlotNum r) = Some x.
(** The table with record [r] set to [x]. *)
Definition set_slot (r : RID) (x : option (bool * list byte)) (c : list (Z * slots)) :
    list (Z * slots) :=
  (λ p, if decide (p.1 = PageId r) then (p.1, <[Z.to_nat (SlotNum r) := x]> p.2) else p) <$> c.

(** Where an insert goes: the first page with room, or a new one, [new]. *)
Fixpoint heap_insert (new : Z) (bs : list byte) (c : list (Z * slots)) : list (Z * slots) * RID :=
  match c with
  | [] => ([(new, [Some (false, bs)])], MkRID new 0)
  | (q, ls) :: c' =>
      if zlen bs + sizeTuple <=? free_space ls
      then ((q, put_slot (free_slot ls) (Some (false, bs)) ls) :: c',
            MkRID q (Z.of_nat (free_slot ls)))
      else let '(c'', r) := heap_insert new bs c' in ((q, ls) :: c'', r)
  end.

Lemma page_ids d : zlen d = PageSize →
  GetTablePageId d = i32 (zfield 0 d) ∧ GetNextPageId d = Ok (i32 (zfield 12 d)).
Proof.
  intros HL. split; [done|]. unfold GetNextPageId, offSetNextPageId.
  rewrite slice_from_Ok by (unfold zlen, PageSize in *; lia). done.
Qed.

Lemma page_is_links d d' q ls ls' next :
  page_is d q ls next → page_wf d' → contents d' = ls' → links d' = links d → page_is d' q ls' next.
Proof.
  intros [W C I N] W' C' HL. injection HL as L0 _ L12.
  destruct (page_ids d (pw_len _ W)) as [I1 N1]. destruct (page_ids d' (pw_len _ W')) as [I2 N2].
  split; [done|done| |].
  - rewrite <- I, I1, I2. by rewrite L0.
  - rewrite <- N, N1, N2. by rewrite L12.
Qed.

Lemma SetNextPageId_run d q ls next nx :
  page_is d q ls next → in_i32 nx → ∃ d', SetNextPageId nx d = Ok d' ∧ page_is d' q ls nx ∧ length d' = length d.
Proof.
  intros [W C I N] Hn. pose proof (pw_len _ W) as HL.
  assert (HZ : zlen (PageID_Serialize nx) = 4) by apply zlen_le.
  destruct (header_put offSetNextPageId (PageID_Serialize nx) d W) as [W' C'];
    [done|by rewrite HZ|].
  exists (zput offSetNextPageId (PageID_Serialize nx) d). split; [|split].
  - apply put_bytes_run. rewrite HL. done.
  - destruct (page_ids d HL) as [I1 _]. destruct (page_ids _ (pw_len _ W')) as [I2 N2].
    split; [done|congruence| |].
    + rewrite I2, <- I, I1. f_equal. apply zfield_put_ne; zsolve.
    + rewrite N2. unfold offSetNextPageId, PageID_Serialize. rewrite zfield_put by (try rewrite zlen_le; zsolve).
      by rewrite u32_u32, i32_u32, i32_small.
  - pose proof (pw_len _ W'). unfold zlen in *. lia.
Qed.

Section chain.
Implicit Types (P : gmap Z (list byte)) (c : list (Z * slots)).

Lemma in_range_valid q : page_in_range q → IsValid q = true ∧ in_i32 q.
Proof.
  unfold page_in_range, IsValid, in_i32, InvalidPageID. intros HR. split; [|lia].
  apply orb_true_iff. left. apply negb_true_iff, Z.eqb_neq. lia.
Qed.

Lemma chain_page P pid c i q ls :
  chain P pid c → c !! i = Some (q, ls) →
  page_in_range q ∧ ∃ d next, P !! q = Some d ∧ page_is d q ls next ∧ chain P next (drop (S i) c).
Proof.
  revert pid i. induction c as [|[q0 ls0] c IH]; intros pid i HC Hi; [done|].
  destruct HC as (-> & HR & d & next & HP & HI & HC). destruct i as [|i]; cbn in Hi.
  - injection Hi as <- <-. split; [done|]. by exists d, next.
  - exact (IH next i HC Hi).
Qed.

(** Pages outside the chain do not matter. *)
Lemma chain_outside P P' pid c :
  (∀ q, q ∈ c.*1 → P' !! q = P !! q) → chain P pid c → chain P' pid c.
Proof.
  revert pid. induction c as [|[q ls] c IH]; intros pid HO HC; [done|].
  destruct HC as (-> & HR & d & next & HP & HI & HC). split; [done|]. split; [done|].
  exists d, next. rewrite HO by (left; done). split; [done|]. split; [done|].
  apply IH; [|done]. intros q' Hq. apply HO. by right.
Qed.

Lemma chain_insert_outside P pid c q d : q ∉ c.*1 → chain P pid c → chain (<[q := d]> P) pid c.
Proof.
  intros Hq. apply chain_outside. intros q' Hq'. rewrite lookup_insert_ne; [done|]. by intros ->.
Qed.

(** One page changes its tuples. *)
Lemma chain_update P pid c i q ls ls' d d' next :
  NoDup c.*1 → chain P pid c → c !! i = Some (q, ls) → P !! q = Some d → page_is d q ls next →
  page_is d' q ls' next → chain (<[q := d']> P) pid (<[i := (q, ls')]> c).
Proof.
  revert pid i. induction c as [|[q0 ls0] c IH]; intros pid i ND HC Hi HP HI HI'; [done|].
  destruct HC as (-> & HR & d0 & next0 & HP0 & HI0 & HC). apply NoDup_cons in ND as [Hq0 ND].
  destruct i as [|i]; cbn in Hi |- *.
  - injection Hi as -> ->. split; [done|]. split; [done|]. exists d', next.
    rewrite lookup_insert_eq. split; [done|]. split; [done|].
    rewrite HP in HP0. injection HP0 as <-. pose proof (pg_next _ _ _ _ HI0) as HN.
    rewrite (pg_next _ _ _ _ HI) in HN. injection HN as <-. by apply chain_insert_outside.
  - assert (Hne : q0 ≠ q).
    { intros ->. apply Hq0. apply list_elem_of_fmap. exists (q, ls). split; [done|].
      by eapply list_elem_of_lookup_2. }
    split; [done|]. split; [done|]. exists d0, next0. rewrite lookup_insert_ne by done.
    split; [done|]. split; [done|]. by apply (IH next0 i).
Qed.

Lemma set_slot_insert c i r ls x :
  NoDup c.*1 → c !! i = Some (PageId r, ls) →
  set_slot r x c = <[i := (PageId r, <[Z.to_nat (SlotNum r) := x]> ls)]> c.
Proof.
  revert i. induction c as [|[q ls0] c IH]; intros i ND Hi; [done|].
  apply NoDup_cons in ND as [Hq ND]. destruct i as [|i]; cbn in Hi |- *.
  - injection Hi as -> ->. rewrite decide_True by done. f_equal.
    change (set_slot r x c = c). unfold set_slot. rewrite <- (list_fmap_id c) at 2.
    apply list_fmap_ext. intros j [q' ls'] Hj. cbn. rewrite decide_False; [done|].
    intros ->. apply Hq, list_elem_of_fmap. exists (PageId r, ls'). split; [done|].
    by eapply list_elem_of_lookup_2.
  - rewrite decide_False; [f_equal; exact (IH i ND Hi)|]. intros ->. apply Hq, list_elem_of_fmap.
    exists (PageId r, ls). split; [done|]. by eapply list_elem_of_lookup_2.
Qed.

Lemma set_slot_ids r x c : (set_slot r x c).*1 = c.*1.
Proof.
  unfold set_slot. rewrite <- list_fmap_compose. apply list_fmap_ext. intros i [q ls] _.
  cbn. by case_decide.
Qed.

(** Setting a record of the table through its page. *)
Lemma heap_set P t c r x y d d' :
  heap_rep P t c → heap_slot c r x → P !! PageId r = Some d →
  page_wf d' → contents d' = <[Z.to_nat (SlotNum r) := y]> (contents d) → links d' = links d →
  heap_rep (<[PageId r := d']> P) t (set_slot r y c).
Proof.
  intros [HN ND HC] (i & ls & Hi & Hx) HP W' C' HL.
  destruct (chain_page _ _ _ _ _ _ HC Hi) as (HR & d0 & next & HP0 & HI & _).
  rewrite HP in HP0. injection HP0 as <-. split.
  - unfold set_slot. by destruct c.
  - by rewrite set_slot_ids.
  - rewrite (set_slot_insert c i r ls y ND Hi). eapply chain_update; try done.
    eapply page_is_links; [exact HI|exact W'| |exact HL].
    rewrite C'. by rewrite (pg_contents _ _ _ _ HI).
Qed.

Lemma heap_slot_page P t c r x :
  heap_rep P t c → heap_slot c r x →
  page_in_range (PageId r) ∧ ∃ d, P !! PageId r = Some d ∧ page_wf d ∧
    GetTablePageId d = PageId r ∧ slot_of r d = Some x ∧ ∃ i, c !! i = Some (PageId r, contents d).
Proof.
  intros [HN ND HC] (i & ls & Hi & Hx).
  destruct (chain_page _ _ _ _ _ _ HC Hi) as (HR & d & next & HP & [W C I _] & _).
  split; [done|]. exists d. split; [done|]. split; [done|]. split; [done|].
  unfold slot_of. rewrite C. split; [done|by exists i].
Qed.
End chain.

(** ** One record *)
Section records.
Context {R : Type} `{Replacer R}.
Implicit Types (e : Engine R).

(** An operation on record [r], in slot state [x], that leaves it in state [y]:
    the steps of the heap around it, and what they leave. *)
Lemma record_held {A} e n P pins D t c r x y (m : st TPState A) a lock mk :
  shows (estore e) n (MkView P pins D ∅) → heap_rep P t c → heap_slot c r x →
  room n pins (PageId r) → keeps_object m → ready lock mk (etxn e) (elocks e) (elogging e) →
  (∀ s, page_wf (bytes s) → (∃ i, c !! i = Some (PageId r, contents (bytes s))) →
     slot_of r (bytes s) = Some x → op_ready lock mk s →
     ∃ s', m s = Ok (a, s') ∧ slot_changed r y s s' ∧ op_logged lock mk s s') →
  ∃ p e1 e2 e3 e4 bs,
    with_store (FetchPage (PageId r)) e = Ok (Some p, e1) ∧ page_latch p WLatch e1 = Ok (tt, e2) ∧
    on_page p m e2 = Ok (a, e3) ∧ page_latch p WUnlatch e3 = Ok (tt, e4) ∧
    shows (estore e4) n (vheld (<[PageId r := bs]> P) pins ({[PageId r]} ∪ D) ∅ (PageId r)) ∧
    held (estore e4) (PageId r) p ∧ GetTablePageId bs = PageId r ∧
    heap_rep (<[PageId r := bs]> P) t (set_slot r y c) ∧ logged lock mk e e4 ∧
    nextPageID (diskManager (estore e4)) = nextPageID (diskManager (estore e)).
Proof.
  intros S HR HS HRm K HG HM. pose proof (shows_pins _ _ _ S) as HPp. cbn in HPp.
  destruct (heap_slot_page P t c r x HR HS) as (Hin & d & HP & W & HI & HSl & Hci).
  destruct (open_dirty e n P pins D (PageId r) d S HP HRm) as (p & e1 & E1 & _ & S1 & Hh1 & ST1).
  destruct (latched_run e1 n P pins D (PageId r) p d m a lock mk
    (λ bs, page_wf bs ∧ contents bs = <[Z.to_nat (SlotNum r) := y]> (contents d) ∧ links bs = links d)
    S1 Hh1 HP K) as (e2 & e3 & e4 & bs & E2 & E3 & E4 & _ & S4 & _ & Hh4 & (Wb & Cb & Lb) & _ & HL4 & HN4 & _).
  { intros e2 pg ST2 HW2 Hpg. destruct (HM (tp_state e2 pg)) as (s' & Em & (Ws & Cs & Ls) & HO).
    - unfold bytes. cbn. by rewrite Hpg.
    - unfold bytes. cbn. by rewrite Hpg.
    - unfold bytes. cbn. by rewrite Hpg.
    - apply ready_op; [done|]. by apply (ready_same _ _ e), HG; eapply txn_kept_trans; [apply ST1|apply ST2].
    - exists s'. unfold bytes in Cs, Ls |- *. cbn in Cs, Ls. rewrite Hpg in Cs, Ls.
      split; [done|]. split; [|done]. pose proof (pw_len _ Ws). pose proof (pw_len _ W).
      unfold bytes in *. congruence. }
  assert (HIb : GetTablePageId bs = PageId r).
  { destruct (page_ids d (pw_len _ W)) as [I1 _]. destruct (page_ids bs (pw_len _ Wb)) as [I2 _].
    rewrite <- HI, I1, I2. by injection Lb as ->. }
  exists p, e1, e2, e3, e4, bs. repeat (split; [done|]). split; [by eapply heap_set|].
  split; [by eapply logged_same; [apply ST1| |apply same_txn_refl]|].
  rewrite HN4. apply ST1.
Qed.

Lemma record_dirty {A} e n P pins D t c r x y (m : st TPState A) a lock mk :
  shows (estore e) n (MkView P pins D ∅) → heap_rep P t c → heap_slot c r x →
  room n pins (PageId r) → keeps_object m → ready lock mk (etxn e) (elocks e) (elogging e) →
  (∀ s, page_wf (bytes s) → (∃ i, c !! i = Some (PageId r, contents (bytes s))) →
     slot_of r (bytes s) = Some x → op_ready lock mk s →
     ∃ s', m s = Ok (a, s') ∧ slot_changed r y s s' ∧ op_logged lock mk s s') →
  ∃ p e1 e2 e3 e4 e5 bs,
    with_store (FetchPage (PageId r)) e = Ok (Some p, e1) ∧ page_latch p WLatch e1 = Ok (tt, e2) ∧
    on_page p m e2 = Ok (a, e3) ∧ page_latch p WUnlatch e3 = Ok (tt, e4) ∧
    unpin_table_page p true e4 = Ok (tt, e5) ∧
    shows (estore e5) n (MkView (<[PageId r := bs]> P) pins (D ∖ {[PageId r]}) ∅) ∧
    heap_rep (<[PageId r := bs]> P) t (set_slot r y c) ∧ logged lock mk e e5 ∧
    nextPageID (diskManager (estore e5)) = nextPageID (diskManager (estore e)).
Proof.
  intros S HR HS HRm K HG HM. pose proof (shows_pins _ _ _ S) as HPp. cbn in HPp.
  destruct (record_held e n P pins D t c r x y m a lock mk S HR HS HRm K HG HM)
    as (p & e1 & e2 & e3 & e4 & bs & E1 & E2 & E3 & E4 & S4 & Hh4 & HIb & HR4 & HL4 & HN4).
  destruct (close_dirty e4 n (<[PageId r := bs]> P) pins ({[PageId r]} ∪ D) (PageId r) p bs true S4 HPp)
    as (e5 & E5 & _ & S5 & ST5); [done|by rewrite lookup_insert_eq|done|by left|].
  replace (({[PageId r]} ∪ D) ∖ {[PageId r]}) with (D ∖ {[PageId r]}) in S5 by set_solver.
  exists p, e1, e2, e3, e4, e5, bs. repeat (split; [done|]).
  split; [by eapply logged_same; [apply same_txn_refl| |apply ST5]|].
  by rewrite (st_next _ _ ST5).
Qed.

Lemma record_run {A} e n P pins t c r x y (m : st TPState A) a lock mk :
  shows (estore e) n (quiet P pins) → heap_rep P t c → heap_slot c r x →
  room n pins (PageId r) → keeps_object m → ready lock mk (etxn e) (elocks e) (elogging e) →
  (∀ s, page_wf (bytes s) → (∃ i, c !! i = Some (PageId r, contents (bytes s))) →
     slot_of r (bytes s) = Some x → op_ready lock mk s →
     ∃ s', m s = Ok (a, s') ∧ slot_changed r y s s' ∧ op_logged lock mk s s') →
  ∃ p e1 e2 e3 e4 e5 bs,
    with_store (FetchPage (PageId r)) e = Ok (Some p, e1) ∧ page_latch p WLatch e1 = Ok (tt, e2) ∧
    on_page p m e2 = Ok (a, e3) ∧ page_latch p WUnlatch e3 = Ok (tt, e4) ∧
    unpin_table_page p true e4 = Ok (tt, e5) ∧
    shows (estore e5) n (quiet (<[PageId r := bs]> P) pins) ∧
    heap_rep (<[PageId r := bs]> P) t (set_slot r y c) ∧ logged lock mk e e5 ∧
    nextPageID (diskManager (estore e5)) = nextPageID (diskManager (estore e)).
Proof.
  intros S HR HS HRm K HG HM.
  destruct (record_dirty e n P pins ∅ t c r x y m a lock mk S HR HS HRm K HG HM)
    as (p & e1 & e2 & e3 & e4 & e5 & bs & E1 & E2 & E3 & E4 & E5 & S5 & X).
  replace (∅ ∖ {[PageId r]} : gset Z) with (∅ : gset Z) in S5 by set_solver.
  by exists p, e1, e2, e3, e4, e5, bs.
Qed.

(** [MarkDelete], [ApplyDelete] and [RollbackDelete] of a table. *)
Lemma MarkDelete_run e n P pins t c r bs :
  shows (estore e) n (quiet P pins) → heap_rep P t c → heap_slot c r (Some (false, bs)) →
  0 ≤ SlotNum r → room n pins (PageId r) →
  ready (write_lock r) (mark_record r) (etxn e) (elocks e) (elogging e) →
  ∃ e1 e' P', MarkDelete t r e = Ok (true, e') ∧
    e' = set_txn (AddIntoWriteSet (NewWriteRecord r WDELETE ZeroTuple (firstPageId t)) (etxn e1)) e1 ∧
    shows (estore e') n (quiet P' pins) ∧ heap_rep P' t (set_slot r (Some (true, bs)) c) ∧
    (∀ q, q ≠ PageId r → P' !! q = P !! q) ∧
    logged (write_lock r) (mark_record r) e e1 ∧
    nextPageID (diskManager (estore e')) = nextPageID (diskManager (estore e)).
Proof.
  intros S HR HS H0 HRm HG.
  destruct (record_run e n P pins t c r _ (Some (true, bs)) (TablePage.MarkDelete r) true _ _ S HR HS
    HRm (MarkDelete_keeps r) HG) as (p & e1 & e2 & e3 & e4 & e5 & d & E1 & E2 & E3 & E4 & E5 & S5 & HR5 & HL5 & HN5).
  { intros s W _ Hs Hr. by apply mark_delete_run. }
  exists e5. eexists _, (<[PageId r := d]> P). split; [|split; [done|split; [exact S5|split; [exact HR5|]]]].
  - unfold MarkDelete. estep E1. estep E2. estep E3. estep E4. estep E5. done.
  - split; [|done]. intros q Hq. by rewrite lookup_insert_ne.
Qed.

Lemma RollbackDelete_run e n P pins D t c r bs :
  shows (estore e) n (MkView P pins D ∅) → heap_rep P t c → heap_slot c r (Some (true, bs)) →
  0 ≤ SlotNum r → room n pins (PageId r) →
  ready (own_lock r) (rollback_record r) (etxn e) (elocks e) (elogging e) →
  ∃ e' P', RollbackDelete t r e = Ok (tt, e') ∧
    shows (estore e') n (MkView P' pins (D ∖ {[PageId r]}) ∅) ∧ heap_rep P' t (set_slot r (Some (false, bs)) c) ∧
    (∀ q, q ≠ PageId r → P' !! q = P !! q) ∧
    logged (own_lock r) (rollback_record r) e e' ∧
    nextPageID (diskManager (estore e')) = nextPageID (diskManager (estore e)).
Proof.
  intros S HR HS H0 HRm HG.
  destruct (record_dirty e n P pins D t c r _ (Some (false, bs)) (TablePage.RollbackDelete r) tt _ _ S HR HS
    HRm (RollbackDelete_keeps r) HG) as (p & e1 & e2 & e3 & e4 & e5 & d & E1 & E2 & E3 & E4 & E5 & S5 & HR5 & HL5 & HN5).
  { intros s W _ Hs Hr. by apply rollback_delete_run. }
  exists e5, (<[PageId r := d]> P). split; [|split; [done|split; [done|]]].
  - unfold RollbackDelete. estep E1. estep (st_lift_run (deref (Some p)) p e1 eq_refl).
    estep E2. estep E3. estep E4. exact E5.
  - split; [|done]. intros q Hq. by rewrite lookup_insert_ne.
Qed.

Lemma ApplyDelete_run e n P pins t c r b bs :
  shows (estore e) n (quiet P pins) → heap_rep P t c → heap_slot c r (Some (b, bs)) →
  0 ≤ SlotNum r → room n pins (PageId r) →
  ready (own_lock r) (apply_record r bs) (etxn e) (elocks e) (elogging e) →
  ∃ e' P', ApplyDelete t r e = Ok (tt, e') ∧
    shows (estore e') n (quiet P' pins) ∧ heap_rep P' t (set_slot r None c) ∧
    (∀ q, q ≠ PageId r → P' !! q = P !! q) ∧
    logged (own_lock r) (apply_record r bs) e e' ∧
    nextPageID (diskManager (estore e')) = nextPageID (diskManager (estore e)).
Proof.
  intros S HR HS H0 HRm HG.
  destruct (record_run e n P pins t c r _ None (TablePage.ApplyDelete r) tt _ _ S HR HS
    HRm (ApplyDelete_keeps r) HG) as (p & e1 & e2 & e3 & e4 & e5 & d & E1 & E2 & E3 & E4 & E5 & S5 & HR5 & HL5 & HN5).
  { intros s W _ Hs Hr. destruct (apply_delete_run s r b bs W H0 Hs Hr) as (s' & ? & ? & _ & ?).
    by exists s'. }
  exists e5, (<[PageId r := d]> P). split; [|split; [done|split; [done|]]].
  - unfold ApplyDelete. estep E1. estep (st_lift_run (deref (Some p)) p e1 eq_refl).
    estep E2. estep E3. estep E4. exact E5.
  - split; [|done]. intros q Hq. by rewrite lookup_insert_ne.
Qed.
End records.

(** ** Inserting *)
Section insert.
Context {R : Type} `{Replacer R}.
Implicit Types (e : Engine R).

(** The exclusive lock on a record can be had. *)
Definition grantable (r : RID) (t : Transaction) (lm : LockManager) : Prop :=
  match exclusive_lock_table lm !! r with
  | Some u => u = txn_id t
  | None => match shared_lock_table lm !! r with Some (_ :: _) => False | _ => True end
  end.

Lemma grantable_lock r t lm :
  grantable r t lm → ∃ t' lm', LockExclusive t r lm = (true, t', lm').
Proof.
  unfold grantable, LockExclusive. destruct (exclusive_lock_table lm !! r) as [u|].
  - intros ->. rewrite Z.eqb_refl. eauto.
  - destruct (shared_lock_table lm !! r) as [[|]|]; [eauto|done|eauto].
Qed.

(** Locking a record leaves the others as they were. *)
Lemma write_lock_other r r' t lm b t' lm' :
  write_lock r t lm = Ok (b, t', lm') → r' ≠ r → txn_id t' = txn_id t ∧
    (grantable r' t lm → grantable r' t' lm').
Proof.
  intros E Hne. unfold write_lock, LockUpgrade, LockExclusive in E. unfold grantable.
  destruct (IsSharedLocked t r).
  - destruct (exclusive_lock_table lm !! r); injection E as _ <- <-; [done|].
    cbn. by rewrite lookup_insert_ne.
  - destruct (IsExclusiveLocked t r); [by injection E as _ <- <-|].
    destruct (exclusive_lock_table lm !! r); [by injection E as _ <- <-|].
    destruct (shared_lock_table lm !! r) as [[|]|]; injection E as _ <- <-; try done;
      cbn; by rewrite lookup_insert_ne.
Qed.

Lemma LockExclusive_keeps t r lm b t' lm' :
  LockExclusive t r lm = (b, t', lm') → txn_id t' = txn_id t ∧ prev_lsn t' = prev_lsn t.
Proof.
  unfold LockExclusive. intros E. destruct (exclusive_lock_table lm !! r).
  - by injection E as _ <- _.
  - destruct (shared_lock_table lm !! r) as [[|]|]; by injection E as _ <- _.
Qed.

Lemma insert_appendable r t i l :
  tuple_ok t → 0 ≤ size t ≤ PageSize → appendable (insert_record r t i l).
Proof.
  intros Ht Hs. unfold insert_record, PageSize in *.
  destruct (NewLogRecordInsertDelete_ok i l INSERT r (SetRID r t)) as [H1 H2 H3]; [by left|done|cbn; lia|].
  split; [done|]. split; [done|]. cbn. rewrite u32_small by (unfold in_u32, HEADER_SIZE; lia).
  unfold LogBufferSize, BufferPoolSize, HEADER_SIZE, PageSize. lia.
Qed.

Lemma delete_appendable ty r t i l :
  is_delete ty = true → tuple_ok t → 0 ≤ size t ≤ PageSize →
  appendable (NewLogRecordInsertDelete i l ty r t).
Proof.
  intros Hty Ht Hs. unfold PageSize in *.
  destruct (NewLogRecordInsertDelete_ok i l ty r t) as [H1 H2 H3]; [by right|done|lia|].
  split; [done|]. split; [done|]. unfold NewLogRecordInsertDelete.
  destruct (Z.eqb_spec ty INSERT) as [->|]; [done|].
  cbn [set_delete set_header Size]. rewrite u32_small by (unfold in_u32, HEADER_SIZE; lia).
  unfold LogBufferSize, BufferPoolSize, HEADER_SIZE, PageSize. lia.
Qed.

Lemma insert_ready r t e :
  tuple_ok t → 0 ≤ size t ≤ PageSize →
  (elogging e = true → grantable r (etxn e) (elocks e)) →
  ready (insert_lock r) (insert_record r t) (etxn e) (elocks e) (elogging e).
Proof.
  intros Ht Hs HG HL. destruct (grantable_lock _ _ _ (HG HL)) as (t' & lm' & E). exists t', lm'.
  unfold insert_lock. rewrite E. destruct (LockExclusive_keeps _ _ _ _ _ _ E).
  split; [done|]. split; [done|]. split; [done|]. by apply insert_appendable.
Qed.

(** The page with room. *)
Lemma insert_here e n P pins D q p d ls next t fuel :
  shows (estore e) n (vheld P pins D ∅ q) → held (estore e) q p → P !! q = Some d →
  page_is d q ls next → tuple_ok t → 0 < size t → zlen (data t) + sizeTuple ≤ free_space ls →
  let rid := MkRID q (Z.of_nat (free_slot ls)) in
  (elogging e = true → grantable rid (etxn e) (elocks e)) →
  ∃ e' d', insert_loop (S fuel) p t e = Ok ((inr (p, inr rid), SetRID rid t), e') ∧
    shows (estore e') n (vheld (<[q := d']> P) pins ({[q]} ∪ D) ∅ q) ∧ held (estore e') q p ∧
    page_is d' q (put_slot (free_slot ls) (Some (false, data t)) ls) next ∧
    logged (insert_lock rid) (insert_record rid t) e e' ∧
    nextPageID (diskManager (estore e')) = nextPageID (diskManager (estore e)).
Proof.
  intros S Hh HP [W C I N] Ht H0 Hf rid HG.
  assert (Hz : zlen (data t) = size t) by (unfold tuple_ok, zlen in *; lia).
  assert (Hs : 0 ≤ size t ≤ PageSize).
  { pose proof (free_space_range d W) as HF. rewrite C in HF. split; [lia|].
    unfold free_space, total, sizeTablePageHeader, sizeTuple, PageSize in *. lia. }
  destruct (latched_run e n P pins D q p d (TablePage.InsertTuple t) (inr rid, SetRID rid t)
    (insert_lock rid) (insert_record rid t)
    (λ bs, page_wf bs ∧ contents bs = put_slot (free_slot ls) (Some (false, data t)) ls ∧ links bs = links d)
    S Hh HP (InsertTuple_keeps t))
    as (e2 & e3 & e4 & bs & E2 & E3 & E4 & _ & S4 & _ & Hh4 & (Wb & Cb & Lb) & ST2 & HL4 & HN4 & _).
  { intros e2 pg ST2 HW2 Hpg. assert (Hb : bytes (tp_state e2 pg) = d) by done.
    assert (Hr : insert_rid d = rid) by (unfold insert_rid; by rewrite I, C).
    destruct (insert_tuple_run (tp_state e2 pg) t) as (s' & Em & W' & C' & L' & HO);
      rewrite ?Hb, ?C, ?Hr; try done; [lia| |].
    - apply ready_op; [done|]. apply insert_ready; [done|done|].
      rewrite (tk_txn _ _ (st_kept _ _ ST2)), (tk_locks _ _ (st_kept _ _ ST2)),
        (tk_logging _ _ (st_kept _ _ ST2)). done.
    - rewrite Hb, Hr in Em, HO. rewrite Hb in C', L'. rewrite C in C'.
      exists s'. split; [done|]. split; [|done]. by rewrite (pw_len _ W'), (pw_len _ W). }
  exists e4, bs. split.
  { cbn [insert_loop]. estep E2. estep E3. estep E4. done. }
  split; [done|]. split; [done|]. split; [|done].
  by apply (page_is_links d bs q ls _ next).
Qed.

(** The page without room: nothing changes. *)
Lemma insert_full e n P pins q p d ls next t :
  shows (estore e) n (vheld P pins ∅ ∅ q) → held (estore e) q p → P !! q = Some d →
  page_is d q ls next → 0 < size t → zlen (data t) = size t → size t < 2 ^ 31 →
  free_space ls < zlen (data t) + sizeTuple →
  ∃ e2, page_latch p WLatch e = Ok (tt, e2) ∧
    on_page p (TablePage.InsertTuple t) e2 = Ok ((inl ErrNotEnoughSpace, t), e2) ∧
    shows (estore e2) n (vlatch q wlatched (vheld P pins ∅ ∅ q)) ∧ held (estore e2) q p ∧ same_txn e e2.
Proof.
  intros S Hh HP [W C I N] H0 Hz Hs Hf.
  destruct (page_acquire e n _ q p WLock wlatched S Hh) as (e2 & E2 & S2 & ST2 & HK2);
    [unfold vlatch_of; cbn; by rewrite lookup_empty|done|].
  exists e2. split; [done|]. pose proof (HK2 _ _ Hh) as Hh2.
  destruct (held_object _ _ _ _ _ _ S2 Hh2 HP) as (f & pg & Cc & HO & _ & Hd & _).
  split; [|by repeat (split; [done|])]. eapply on_page_same; [exact Cc|].
  assert (Hb : bytes (tp_state e2 pg) = d) by done.
  destruct (insert_refused_run (tp_state e2 pg) t) as (_ & HR & _); rewrite ?Hb; [done|lia|zsolve|].
  apply HR; [lia|]. rewrite Hb, C. lia.
Qed.

(** What an insert does to the locks and the log: NEWPAGE if it made the page
    [new], after the last one of [c], then INSERT. *)
Definition insert_logged (c : list (Z * slots)) (new : Z) (r : RID) (t : Tuple) e e' : Prop :=
  ∃ e1, (if decide (PageId r = new) then ∃ q, last c.*1 = Some q ∧ logged no_lock (newpage_record q) e e1
         else txn_kept e e1) ∧
    logged (insert_lock r) (insert_record r t) e1 e'.

Lemma insert_logged_cons q ls c new r t e e1 e' :
  q ≠ new → c ≠ [] → txn_kept e e1 → insert_logged c new r t e1 e' →
  insert_logged ((q, ls) :: c) new r t e e'.
Proof.
  intros Hq Hc HK (e2 & H1 & H2). unfold insert_logged. case_decide.
  - destruct H1 as (q' & HL & H1). exists e2. split; [|done]. exists q'. split.
    + destruct c; [done|]. exact HL.
    + by eapply logged_same; [done|done|split].
  - exists e2. split; [|done]. by eapply txn_kept_trans.
Qed.

Lemma newpage_ready prev e :
  ready no_lock (newpage_record prev) (etxn e) (elocks e) (elogging e).
Proof.
  intros _. exists (etxn e), (elocks e). split; [done|]. split; [done|]. split; [done|].
  unfold appendable. split; [constructor|]. split; [done|]. vm_compute. discriminate.
Qed.

(** One turn of the loop that goes on to the next page. *)
Lemma insert_next e n P pins q p d ls next d2 t fuel :
  shows (estore e) n (vheld P pins ∅ ∅ q) → pins_pos pins → held (estore e) q p → P !! q = Some d →
  page_is d q ls next → 0 < size t → zlen (data t) = size t → size t < 2 ^ 31 →
  free_space ls < zlen (data t) + sizeTuple → page_in_range next → P !! next = Some d2 →
  room n pins next →
  ∃ p' e', insert_loop (S fuel) p t e = insert_loop fuel p' t e' ∧
    shows (estore e') n (vheld P pins ∅ ∅ next) ∧ held (estore e') next p' ∧ same_txn e e'.
Proof.
  intros S HPp Hh HP HI H0 Hz Hs Hf HRn HP2 HRm.
  destruct (insert_full e n P pins q p d ls next t S Hh HP HI H0 Hz Hs Hf)
    as (e2 & E2 & E3 & S2 & Hh2 & ST2).
  set (v2 := vlatch q wlatched (vheld P pins ∅ ∅ q)) in *.
  pose proof (page_read_run e2 n v2 q p d GetNextPageId next S2 Hh2 HP (pg_next _ _ _ _ HI)) as E4.
  assert (Hpin : is_Some (vpins v2 !! q)) by apply vheld_pinned.
  destruct (unpin_table_page_run e2 n v2 q p d false S2 Hh2 HP (pg_id _ _ _ _ HI) Hpin) as
    (e5 & E5 & S5 & HK5 & ST5); [right; cbn; set_solver|].
  change v2 with (vheld P pins ∅ (<[q := wlatched]> ∅) q) in S5. rewrite vunpin_vheld in S5 by done.
  destruct (page_release e5 n _ q p WUnlock wlatched S5 (HK5 _ _ Hpin Hh2)) as (e6 & E6 & S6 & ST6 & _);
    [unfold vlatch_of; cbn; by rewrite lookup_insert_eq|done|].
  assert (S6' : shows (estore e6) n (quiet P pins)).
  { unfold vunlatch, quiet in S6 |- *. cbn in S6. rewrite delete_insert_id in S6 by apply lookup_empty.
    by replace (∅ ∖ {[q]} : gset Z) with (∅ : gset Z) in S6 by set_solver. }
  destruct (open_run e6 n P pins next d2 S6' HP2 HRm) as (p' & e7 & _ & E7 & S7 & Hh7 & ST7).
  exists p', e7. split; [|split; [done|split; [done|]]].
  - cbn [insert_loop]. estep E2. estep E3. estep E4. rewrite (proj1 (in_range_valid next HRn)).
    estep E5. estep E6. by estep E7.
  - eapply same_txn_trans; [exact ST2|]. eapply same_txn_trans; [exact ST5|].
    by eapply same_txn_trans; [exact ST6|].
Qed.

(** The turn at the last page, full and latched: a new page is made and linked. *)
Lemma link_new e2 n P pins q p d ls :
  let v2 := vlatch q wlatched (vheld P pins ∅ ∅ q) in
  let new := nextPageID (diskManager (estore e2)) in
  shows (estore e2) n v2 → held (estore e2) q p → P !! q = Some d →
  page_is d q ls InvalidPageID → page_in_range new → (base.size (vpins v2) < n)%nat →
  ∃ p' e3 e4 e5 e6 d1 L, with_store NewPage e2 = Ok (Some p', e3) ∧
    with_store (read_page p') e3 = Ok (NewEmpty new, e3) ∧
    page_write p (SetNextPageId new) e3 = Ok (tt, e4) ∧ page_latch p WUnlatch e4 = Ok (tt, e5) ∧
    page_latch p RLatch e5 = Ok (tt, e6) ∧ txn_kept e2 e6 ∧
    nextPageID (diskManager (estore e6)) = new + 1 ∧ new ≠ q ∧ pins !! new = None ∧
    page_is d1 q ls new ∧ held (estore e6) q p ∧ held (estore e6) new p' ∧
    L !! q = Some rlatched ∧ base.delete q L = ∅ ∧
    shows (estore e6) n (vheld (<[q := d1]> (<[new := zeros (Z.to_nat PageSize)]> P))
      (<[new := 1]> pins) ({[q]} ∪ {[new]}) L q).
Proof.
  intros v2 new S2 Hh2 HP HI HRn HSz.
  destruct (unused_page (estore e2) n v2 new S2 ltac:(lia)) as (HPn & Hpn & _).
  cbn in HPn, Hpn. assert (Hne : new ≠ q) by (intros ->; congruence).
  rewrite lookup_insert_ne in Hpn by done.
  assert (Hpin : is_Some (vpins v2 !! q)) by apply vheld_pinned.
  destruct (shows_new (estore e2) n v2 S2 HSz) as (p' & s3 & E5 & S3 & Hh3' & HK3 & HL3 & HN3 & HO3);
    [|exact HRn|].
  { intros i [l Hl]. cbn in Hl. apply lookup_insert_Some in Hl as [[<- _]|[_ Hl]]; [done|].
    by rewrite lookup_empty in Hl. }
  set (e3 := set_store s3 e2). pose proof (with_store_run _ _ _ _ E5) as E5'. fold e3 in E5'.
  pose proof (with_store_run _ e3 _ s3 (read_page_run s3 p' _ HO3)) as E6.
  assert (KT3 : txn_kept e2 e3) by (by split).
  assert (Hh3 : held (estore e3) q p) by (by apply HK3).
  assert (HP3 : vpages (vnew new v2) !! q = Some d) by (cbn; by rewrite lookup_insert_ne).
  assert (Hpin3 : is_Some (vpins (vnew new v2) !! q))
    by (cbn; rewrite lookup_insert_ne by done; by rewrite lookup_insert_eq).
  destruct (SetNextPageId_run d q ls InvalidPageID new HI (proj2 (in_range_valid _ HRn)))
    as (d1 & Ed1 & HI1 & HL1).
  destruct (page_write_run e3 n _ q p d d1 (SetNextPageId new) S3 Hh3 Hpin3 HP3 Ed1 HL1)
    as (e4 & E7 & S4 & ST4 & HK4).
  destruct (page_release e4 n _ q p WUnlock wlatched S4 (HK4 _ _ Hh3)) as (e5 & E8 & S5 & ST5 & HK5);
    [unfold vlatch_of; cbn; by rewrite lookup_insert_eq|done|].
  destruct (page_acquire e5 n _ q p RLock rlatched S5 (HK5 _ _ (HK4 _ _ Hh3))) as (e6 & E9 & S6 & ST6 & HK6);
    [apply vlatch_of_vunlatch|done|].
  eexists p', e3, e4, e5, e6, d1, _. split; [exact E5'|]. split; [exact E6|]. split; [exact E7|].
  split; [exact E8|]. split; [exact E9|]. split.
  { eapply txn_kept_trans; [exact KT3|]. eapply txn_kept_trans; [apply ST4|].
    eapply txn_kept_trans; [apply ST5|apply ST6]. }
  split. { rewrite (st_next _ _ ST6), (st_next _ _ ST5), (st_next _ _ ST4). exact HN3. }
  split; [done|]. split; [done|]. split; [done|]. split; [by apply HK6, HK5, HK4|].
  split; [by apply HK6, HK5, HK4|]. split; [|split]; cycle 2.
  - unfold vheld, vlatch, vunlatch, vwrite, vnew, v2 in S6 |- *. cbn in S6.
    rewrite lookup_insert_ne by done. rewrite (insert_insert_ne pins) by done.
    replace ({[q]} ∪ {[new]} : gset Z) with ({[q]} ∪ ({[new]} ∪ ∅) : gset Z) by set_solver. exact S6.
  - by rewrite lookup_insert_eq.
  - rewrite delete_insert_eq. cbn. rewrite delete_insert_eq, delete_empty. by rewrite delete_empty.
Qed.

(** The new page initialised, the full one given back. *)
Lemma init_new e6 n P pins q p p' new d1 ls L :
  shows (estore e6) n (vheld (<[q := d1]> (<[new := zeros (Z.to_nat PageSize)]> P))
      (<[new := 1]> pins) ({[q]} ∪ {[new]}) L q) →
  pins_pos pins → pins !! new = None → new ≠ q → held (estore e6) q p → held (estore e6) new p' →
  page_is d1 q ls new → page_in_range q → page_in_range new →
  L !! q = Some rlatched → base.delete q L = ∅ →
  ∃ e7 e8 e9 d2, page_read p (λ d, Ok (GetTablePageId d)) e6 = Ok (q, e6) ∧
    on_page p' (Init new q) e6 = Ok (tt, e7) ∧ unpin_table_page p true e7 = Ok (tt, e8) ∧
    page_latch p RUnlatch e8 = Ok (tt, e9) ∧
    shows (estore e9) n (vheld (<[new := d2]> (<[q := d1]> P)) pins {[new]} ∅ new) ∧
    held (estore e9) new p' ∧ page_is d2 new [] InvalidPageID ∧
    logged no_lock (newpage_record q) e6 e9 ∧
    nextPageID (diskManager (estore e9)) = nextPageID (diskManager (estore e6)).
Proof.
  intros S6 HPp Hpn Hne Hh6 Hh6' HI1 HRq HRn HLq HLd. set (v6 := vheld _ _ _ _ _) in S6.
  assert (HP6 : vpages v6 !! q = Some d1) by (cbn; by rewrite lookup_insert_eq).
  pose proof (page_read_run e6 n v6 q p d1 (λ d, Ok (GetTablePageId d)) q S6 Hh6 HP6
    (f_equal Ok (pg_id _ _ _ _ HI1))) as E10.
  assert (HP6' : vpages v6 !! new = Some (zeros (Z.to_nat PageSize)))
    by (cbn; rewrite lookup_insert_ne by done; by rewrite lookup_insert_eq).
  assert (Hpin6 : is_Some (vpins v6 !! new))
    by (cbn; rewrite lookup_insert_ne by done; by rewrite lookup_insert_eq).
  assert (HInit : ∀ pg, pdata pg = zeros (Z.to_nat PageSize) → ∃ s', Init new q (tp_state e6 pg) = Ok (tt, s') ∧
    page_is (bytes s') new [] InvalidPageID ∧ op_logged no_lock (newpage_record q) (tp_state e6 pg) s').
  { intros pg Hpg. destruct (init_logged (tp_state e6 pg) new q) as (s' & Em & W & C & I1 & N1 & HO).
    - unfold bytes. cbn. rewrite Hpg. reflexivity.
    - by apply in_range_valid.
    - by apply in_range_valid.
    - apply ready_op; [by eapply shows_log_wf|apply newpage_ready].
    - by exists s'. }
  destruct (on_page_logged e6 n v6 new p' _ (Init new q) tt no_lock (newpage_record q) S6 Hh6' Hpin6 HP6'
    (Init_keeps new q)) as (pg & s' & e7 & Hpg & Em & E11 & S7 & HK7 & HL7 & HN7).
  { intros pg Hpg. destruct (HInit pg Hpg) as (s' & Em & [W _ _ _] & HO). exists s'.
    split; [done|]. split; [|done]. by rewrite (pw_len _ W). }
  destruct (HInit pg Hpg) as (s'' & Em' & HI2 & _). rewrite Em in Em'. injection Em' as <-.
  set (d2 := bytes s') in *. pose proof (HK7 _ _ Hh6) as Hh7.
  set (v7 := vwrite new d2 v6) in S7.
  assert (HP7 : vpages v7 !! q = Some d1) by (cbn; by rewrite lookup_insert_ne, lookup_insert_eq).
  assert (Hpin7 : is_Some (vpins v7 !! q)) by (apply vheld_pinned).
  destruct (unpin_table_page_run e7 n v7 q p d1 true S7 Hh7 HP7 (pg_id _ _ _ _ HI1) Hpin7 ltac:(by left))
    as (e8 & E12 & S8 & HK8 & ST8).
  assert (Hpin7' : is_Some (vpins v7 !! new)) by exact Hpin6.
  pose proof (HK8 _ _ Hpin7 Hh7) as Hh8. pose proof (HK8 _ _ Hpin7' (HK7 _ _ Hh6')) as Hh8'.
  assert (HPp' : pins_pos (<[new := 1]> pins)).
  { intros i k Hk. apply lookup_insert_Some in Hk as [[_ <-]|[_ Hk]]; [lia|by eapply HPp]. }
  change v7 with (vheld (<[new := d2]> (<[q := d1]> (<[new := zeros (Z.to_nat PageSize)]> P)))
    (<[new := 1]> pins) ({[new]} ∪ ({[q]} ∪ {[new]})) L q) in S8.
  rewrite vunpin_vheld in S8 by done.
  destruct (page_release e8 n _ q p RUnlock rlatched S8 Hh8) as (e9 & E13 & S9 & ST9 & HK9);
    [unfold vlatch_of; cbn; by rewrite HLq|done|].
  exists e7, e8, e9, d2. split; [exact E10|]. split; [exact E11|]. split; [exact E12|].
  split; [exact E13|]. split; [|split; [by apply HK9|split; [done|]]].
  - unfold vunlatch in S9. cbn in S9. rewrite HLd in S9. unfold vheld. rewrite Hpn.
    rewrite (insert_insert_ne P) in S9 by done. rewrite insert_insert_eq in S9.
    replace (({[new]} ∪ ({[q]} ∪ {[new]})) ∖ {[q]} : gset Z) with ({[new]} : gset Z) in S9 by set_solver.
    exact S9.
  - split; [|by rewrite (st_next _ _ ST9), (st_next _ _ ST8)]. eapply logged_same; [apply same_txn_refl|exact HL7|].
    eapply txn_kept_trans; [apply ST8|apply ST9].
Qed.

Lemma insert_grow e n P pins q p d ls t fuel :
  shows (estore e) n (vheld P pins ∅ ∅ q) → pins_pos pins → held (estore e) q p → P !! q = Some d →
  page_in_range q → page_is d q ls InvalidPageID → 0 < size t → zlen (data t) = size t → size t < 2 ^ 31 →
  free_space ls < zlen (data t) + sizeTuple →
  let new := nextPageID (diskManager (estore e)) in
  page_in_range new → (base.size (vpins (vheld P pins ∅ ∅ q)) < n)%nat →
  ∃ p' e' d1 d2, insert_loop (S fuel) p t e = insert_loop fuel p' t e' ∧
    shows (estore e') n (vheld (<[new := d2]> (<[q := d1]> P)) pins {[new]} ∅ new) ∧
    held (estore e') new p' ∧ new ≠ q ∧
    page_is d1 q ls new ∧ page_is d2 new [] InvalidPageID ∧
    logged no_lock (newpage_record q) e e' ∧ nextPageID (diskManager (estore e')) = new + 1.
Proof.
  intros S HPp Hh HP HRq HI H0 Hz Hs Hf new HRn HSz.
  destruct (insert_full e n P pins q p d ls InvalidPageID t S Hh HP HI H0 Hz Hs Hf)
    as (e2 & E2 & E3 & S2 & Hh2 & ST2).
  pose proof (page_read_run e2 n _ q p d GetNextPageId _ S2 Hh2 HP (pg_next _ _ _ _ HI)) as E4.
  assert (HNew : nextPageID (diskManager (estore e2)) = new) by apply ST2.
  destruct (link_new e2 n P pins q p d ls S2 Hh2 HP HI) as
    (p' & e3 & e4 & e5 & e6 & d1 & L & E5 & E6 & E7 & E8 & E9 & KT6 & HN6 & Hne & Hpn & HI1 & Hh6 & Hh6' & HLq & HLd & S6);
    [by rewrite HNew|done|]. rewrite HNew in *.
  destruct (init_new e6 n P pins q p p' new d1 ls L S6 HPp Hpn Hne Hh6 Hh6' HI1 HRq HRn HLq HLd)
    as (e7 & e8 & e9 & d2 & E10 & E11 & E12 & E13 & S9 & Hh9 & HI2 & HL9 & HN9).
  exists p', e9, d1, d2. split; [|do 5 (split; [done|]); split; [|by rewrite HN9]].
  - cbn [insert_loop]. estep E2. estep E3. estep E4. cbn [IsValid InvalidPageID Z.eqb Pos.eqb Z.leb Z.compare negb orb].
    estep E5. estep (st_lift_run (deref (Some p')) p' e3 eq_refl). estep E6. estep E7. estep E8. estep E9.
    estep E10. estep E11. estep E12. by estep E13.
  - eapply logged_same; [|exact HL9|apply same_txn_refl]. eapply txn_kept_trans; [apply ST2|done].
Qed.

Lemma heap_insert_ids new bs c c' r :
  heap_insert new bs c = (c', r) →
  PageId r ∈ c'.*1 ∧ (c'.*1 = c.*1 ∧ PageId r ∈ c.*1 ∨ c'.*1 = c.*1 ++ [new] ∧ PageId r = new).
Proof.
  revert c' r. induction c as [|[q ls] c IH]; intros c' r; cbn.
  - intros [= <- <-]. cbn. split; [by left|by right].
  - case_match; [intros [= <- <-]; cbn; split; [by left|left; split; [done|by left]]|].
    destruct (heap_insert new bs c) as [c'' r''] eqn:E. intros [= <- <-]. cbn.
    destruct (IH _ _ eq_refl) as [H1 [[H2 H3]|[H2 H3]]].
    + split; [by right|left]. split; [by f_equal|by right].
    + split; [by right|right]. split; [by f_equal|done].
Qed.

Lemma chain_ids P pid c q : chain P pid c → q ∈ c.*1 → is_Some (P !! q) ∧ page_in_range q.
Proof.
  intros HC ([q' ls] & -> & Hq)%list_elem_of_fmap. apply list_elem_of_lookup in Hq as [i Hi].
  destruct (chain_page _ _ _ _ _ _ HC Hi) as (HR & d & next & HP & _). cbn. by rewrite HP.
Qed.

Lemma frames_held k n P pins q :
  frames_for (S k) n pins → (base.size (vpins (vheld P pins ∅ ∅ q)) + k ≤ n)%nat.
Proof.
  intros [HF _]. cbn. rewrite map_size_insert. destruct (pins !! q); cbn; lia.
Qed.

(** The loop from a page on. *)
Lemma insert_loop_run e n P pins q p ls c t fuel c' r :
  let new := nextPageID (diskManager (estore e)) in
  shows (estore e) n (vheld P pins ∅ ∅ q) → pins_pos pins → frames_for 2 n pins →
  held (estore e) q p → chain P q ((q, ls) :: c) → NoDup (q :: c.*1) →
  tuple_ok t → 0 < size t → zlen (data t) + sizeTuple ≤ free_space [] → page_in_range new →
  (length c + 2 ≤ fuel)%nat → heap_insert new (data t) ((q, ls) :: c) = (c', r) →
  (elogging e = true → grantable r (etxn e) (elocks e)) →
  ∃ p' e' P' D d', insert_loop fuel p t e = Ok ((inr (p', inr r), SetRID r t), e') ∧
    shows (estore e') n (vheld P' pins D ∅ (PageId r)) ∧ D ⊆ {[PageId r]} ∧
    held (estore e') (PageId r) p' ∧ P' !! PageId r = Some d' ∧ GetTablePageId d' = PageId r ∧
    chain P' q c' ∧ (∀ i, i ∉ c'.*1 → P' !! i = P !! i) ∧
    insert_logged ((q, ls) :: c) new r t e e' ∧
    nextPageID (diskManager (estore e')) - new = Z.of_nat (length c') - Z.of_nat (S (length c)).
Proof.
  intros new. revert e P q p ls c' r fuel new.
  induction c as [|[q2 ls2] c IH]; intros e P q p ls c' r fuel new S HPp HFr Hh HC ND Ht H0 Hf HRn Hfu HI HG.
  all: destruct HC as (_ & HRq & d & next & HP & HIs & HC).
  all: assert (Hz : zlen (data t) = size t) by (unfold tuple_ok, zlen in *; lia).
  all: assert (Hs : size t < 2 ^ 31) by (unfold free_space, total in Hf; cbn in Hf; zsolve).
  all: assert (Hnew : q ≠ new) by (intros ->; destruct (unused_page _ n _ new S ltac:(lia)) as [HN _]; cbn in HN; congruence).
  all: cbn [heap_insert] in HI; destruct (Z.leb_spec (zlen (data t) + sizeTuple) (free_space ls)) as [Hroom|Hfull].
  1,3: injection HI as <- <-; destruct fuel as [|fuel]; [lia|];
    destruct (insert_here e n P pins ∅ q p d ls next t fuel S Hh HP HIs Ht H0 Hroom HG)
      as (e' & d' & E & S' & Hh' & HI' & HL & HN);
    exists p, e', (<[q := d']> P), ({[q]} ∪ ∅), d';
    (split; [exact E|]); (split; [exact S'|]); (split; [set_solver|]); (split; [done|]);
    (split; [by rewrite lookup_insert_eq|]); (split; [apply HI'|]);
    (split; [|split; [|split; [exists e; split; [by rewrite decide_False; [by split|]|done]|cbn [length]; fold new in HN; lia]]]);
    [split; [done|]; split; [done|]; exists d', next; rewrite lookup_insert_eq; split; [done|];
       split; [done|]; apply chain_insert_outside; [by apply NoDup_cons in ND as [? _]|done]
    |intros i Hi; rewrite lookup_insert_ne; [done|]; intros ->; apply Hi; by left].
  - (* a new page *)
    cbn in HI. injection HI as <- <-. destruct fuel as [|[|fuel]]; [cbn in Hfu; lia..|].
    pose proof (frames_held 1 n P pins q HFr).
    cbn in HC. subst next.
    destruct (insert_grow e n P pins q p d ls t (Datatypes.S fuel) S HPp Hh HP HRq HIs H0 Hz Hs Hfull HRn ltac:(lia))
      as (p1 & e1 & d1 & d2 & E1 & S1 & Hh1 & _ & HI1 & HI2 & HL1 & HN1). fold new in S1, Hh1, HI1, HI2, HN1.
    assert (HP2 : <[new:=d2]> (<[q:=d1]> P) !! new = Some d2) by apply lookup_insert_eq.
    assert (HG1 : elogging e1 = true → grantable (MkRID new 0) (etxn e1) (elocks e1)).
    { destruct HL1 as [HE HL1]. rewrite HE. intros HEt. rewrite HEt in HL1.
      destruct HL1 as (t' & lm' & [= <- <-] & -> & -> & _). exact (HG HEt). }
    destruct (insert_here e1 n _ pins {[new]} new p1 d2 [] InvalidPageID t fuel S1 Hh1 HP2 HI2 Ht H0 Hf HG1)
      as (e' & d' & E & S' & Hh' & HI' & HL & HN).
    exists p1, e', (<[new := d']> (<[new := d2]> (<[q := d1]> P))), ({[new]} ∪ {[new]}), d'.
    split; [by rewrite E1|]. split; [exact S'|]. split; [set_solver|]. split; [done|].
    split; [by rewrite lookup_insert_eq|]. split; [apply HI'|]. split; [|split].
    + split; [done|]. split; [done|]. exists d1, new. rewrite !lookup_insert_ne by done.
      rewrite lookup_insert_eq. split; [done|]. split; [done|]. split; [done|]. split; [done|].
      exists d', InvalidPageID. by rewrite lookup_insert_eq.
    + intros i Hi. rewrite !lookup_insert_ne; [done|..]; intros ->; apply Hi; cbn; set_solver.
    + split; [|rewrite HN, HN1; cbn [length]; lia]. exists e1. rewrite decide_True by done. split; [|exact HL]. by exists q.
  - (* the next page *)
    destruct (heap_insert new (data t) ((q2, ls2) :: c)) as [c'' r'] eqn:HI2.
    cbn [heap_insert] in HI2. rewrite HI2 in HI. injection HI as <- <-.
    destruct fuel as [|fuel]; [lia|]. cbn in Hfu. cbn [fmap list_fmap] in ND.
    assert (Hq2 : next = q2) by (by destruct HC). subst next.
    pose proof HC as (_ & HR2 & d2 & next2 & HP2 & _).
    destruct (insert_next e n P pins q p d ls q2 d2 t fuel S HPp Hh HP HIs H0 Hz Hs Hfull HR2 HP2)
      as (p1 & e1 & E1 & S1 & Hh1 & ST1); [by eapply (frames_room 2); [lia|]|].
    assert (HN1 : nextPageID (diskManager (estore e1)) = new) by apply ST1.
    apply NoDup_cons in ND as [Hq ND].
    destruct (IH e1 P q2 p1 ls2 c'' r' fuel S1 HPp HFr Hh1 HC ND Ht H0 Hf)
      as (p' & e' & P' & D & d' & E & S' & HD & Hh' & HP' & HG' & HC' & HO & HL & HNx);
      [by rewrite HN1|lia|by rewrite HN1| |].
    { rewrite (tk_txn _ _ (st_kept _ _ ST1)), (tk_locks _ _ (st_kept _ _ ST1)),
        (tk_logging _ _ (st_kept _ _ ST1)). exact HG. }
    rewrite HN1 in HL, HNx.
    destruct (heap_insert_ids new (data t) ((q2, ls2) :: c) c'' r' HI2) as [_ Hids].
    assert (HqN : q ∉ c''.*1).
    { destruct Hids as [[-> _]|[-> _]]; [exact Hq|]. rewrite elem_of_app, list_elem_of_singleton.
      intros [|]; [done|congruence]. }
    exists p', e', P', D, d'. split; [by rewrite E1|]. split; [exact S'|]. split; [done|]. split; [done|].
    split; [done|]. split; [done|]. split; [|split].
    + split; [done|]. split; [done|]. exists d, q2. by rewrite HO.
    + intros i Hi. apply HO. intros Hin. apply Hi. by right.
    + split; [|cbn [length]; lia]. eapply insert_logged_cons; [done|done|apply ST1|exact HL].
Qed.

Lemma heap_new_id s n P pins t c :
  shows (R := R) s n (quiet P pins) → heap_rep P t c → nextPageID (diskManager s) ∉ c.*1.
Proof.
  intros S [_ _ HC] Hin. destruct (chain_ids _ _ _ _ HC Hin) as [[d Hd] _].
  destruct (unused_page s n _ (nextPageID (diskManager s)) S ltac:(lia)) as [HN _]. cbn in HN. congruence.
Qed.

(** [InsertTuple] of a table, and the pages it makes. *)
Lemma InsertTuple_next e n P pins t c tup fuel c' r :
  let new := nextPageID (diskManager (estore e)) in
  shows (estore e) n (quiet P pins) → heap_rep P t c → frames_for 2 n pins →
  tuple_ok tup → 0 < size tup → zlen (data tup) + sizeTuple ≤ free_space [] → page_in_range new →
  (length c < fuel)%nat → heap_insert new (data tup) c = (c', r) →
  (elogging e = true → grantable r (etxn e) (elocks e)) →
  ∃ e1 e' P', InsertTuple fuel t tup e = Ok ((inr r, SetRID r tup), e') ∧
    e' = set_txn (AddIntoWriteSet (NewWriteRecord r WINSERT ZeroTuple (firstPageId t)) (etxn e1)) e1 ∧
    shows (estore e') n (quiet P' pins) ∧ heap_rep P' t c' ∧
    (∀ i, i ∉ c'.*1 → P' !! i = P !! i) ∧ insert_logged c new r tup e e1 ∧
    nextPageID (diskManager (estore e')) - new = Z.of_nat (length c') - Z.of_nat (length c).
Proof.
  intros new S HR HFr Ht H0 Hf HRn Hfu HI HG. pose proof (heap_new_id _ _ _ _ _ _ S HR) as HNew.
  destruct HR as [HN ND HC]. destruct c as [|[q ls] c]; [done|]. pose proof (shows_pins _ _ _ S) as HPp.
  cbn in HPp. pose proof HC as (Hq & HRq & d & next & HP & _). rewrite Hq in HC.
  destruct (open_run e n P pins q d S HP) as (p & e1 & _ & E1 & S1 & Hh1 & ST1);
    [by eapply (frames_room 2); [lia|]|].
  assert (HN1 : nextPageID (diskManager (estore e1)) = new) by apply ST1.
  destruct (insert_loop_run e1 n P pins q p ls c tup fuel c' r S1 HPp HFr Hh1)
    as (p' & e2 & P' & D & d' & E2 & S2 & HD & Hh2 & HP' & HG' & HC' & HO & HL & HNx); try done.
  { by rewrite HN1. }
  { cbn in Hfu. lia. }
  { by rewrite HN1. }
  { rewrite (tk_txn _ _ (st_kept _ _ ST1)), (tk_locks _ _ (st_kept _ _ ST1)),
      (tk_logging _ _ (st_kept _ _ ST1)). exact HG. }
  rewrite HN1 in HL, HNx.
  destruct (close_run e2 n P' pins D (PageId r) p' d' true S2 HPp HD Hh2 HP' HG') as (e3 & E3 & _ & S3 & ST3);
    [by left|].
  exists e3. eexists _, P'. split; [|split; [reflexivity|split; [exact S3|split; [split|split; [done|]]]]].
  - unfold InsertTuple. rewrite Hq. estep E1. estep E2. estep E3. done.
  - destruct (heap_insert_ids _ _ _ _ _ HI) as [Hin _]. intros ->. by apply elem_of_nil in Hin.
  - destruct (heap_insert_ids _ _ _ _ _ HI) as [_ [[-> _]|[-> _]]]; [done|].
    apply NoDup_app. split; [done|]. split; [|apply NoDup_singleton].
    intros i Hi ->%list_elem_of_singleton. done.
  - by rewrite Hq.
  - split; [|cbn [length] in HNx |- *; cbn [estore set_txn]; by rewrite (st_next _ _ ST3)].
    destruct HL as (e0 & H1 & H2). exists e0. split.
    + case_decide; [|by eapply txn_kept_trans; [apply ST1|]].
      destruct H1 as (q' & HL' & H1). exists q'. split; [done|].
      eapply logged_same; [apply ST1|exact H1|apply same_txn_refl].
    + eapply logged_same; [apply same_txn_refl|exact H2|apply ST3].
Qed.

Lemma InsertTuple_run e n P pins t c tup fuel c' r :
  let new := nextPageID (diskManager (estore e)) in
  shows (estore e) n (quiet P pins) → heap_rep P t c → frames_for 2 n pins →
  tuple_ok tup → 0 < size tup → zlen (data tup) + sizeTuple ≤ free_space [] → page_in_range new →
  (length c < fuel)%nat → heap_insert new (data tup) c = (c', r) →
  (elogging e = true → grantable r (etxn e) (elocks e)) →
  ∃ e1 e' P', InsertTuple fuel t tup e = Ok ((inr r, SetRID r tup), e') ∧
    e' = set_txn (AddIntoWriteSet (NewWriteRecord r WINSERT ZeroTuple (firstPageId t)) (etxn e1)) e1 ∧
    shows (estore e') n (quiet P' pins) ∧ heap_rep P' t c' ∧
    (∀ i, i ∉ c'.*1 → P' !! i = P !! i) ∧ insert_logged c new r tup e e1.
Proof.
  intros new S HR HFr Ht H0 Hf HRn Hfu HI HG.
  destruct (InsertTuple_next e n P pins t c tup fuel c' r S HR HFr Ht H0 Hf HRn Hfu HI HG) as (e1 & e' & P' & E & HE & S' & HR' & HO & HL & _).
  by exists e1, e', P'.
Qed.

(** What an insert does to the table: the record holds the tuple, the others
    are as they were. *)
Lemma heap_slot_cons c q ls r x :
  heap_slot ((q, ls) :: c) r x ↔
    (PageId r = q ∧ ls !! Z.to_nat (SlotNum r) = Some x) ∨ heap_slot c r x.
Proof.
  split.
  - intros ([|i] & ls' & Hi & Hx); cbn in Hi.
    + injection Hi as -> ->. by left.
    + right. by exists i, ls'.
  - intros [[<- Hx]|(i & ls' & Hi & Hx)]; [by exists 0%nat, ls|by exists (Datatypes.S i), ls'].
Qed.

Lemma put_slot_at k x ls : (k ≤ length ls)%nat → put_slot k x ls !! k = Some x.
Proof.
  intros Hk. unfold put_slot. destruct (Nat.ltb_spec k (length ls)).
  - by apply list_lookup_insert_eq.
  - replace k with (length ls) by lia. by rewrite list_lookup_middle.
Qed.

Lemma put_slot_other k x ls j y : j ≠ k → ls !! j = Some y → put_slot k x ls !! j = Some y.
Proof.
  intros Hj Hy. unfold put_slot. destruct (Nat.ltb_spec k (length ls)).
  - by rewrite list_lookup_insert_ne.
  - by rewrite lookup_app_l by (by eapply lookup_lt_Some).
Qed.

Lemma heap_insert_slots new bs c c' r :
  heap_insert new bs c = (c', r) →
  heap_slot c' r (Some (false, bs)) ∧
  ∀ r' x, 0 ≤ SlotNum r' → r' ≠ r → heap_slot c r' x → heap_slot c' r' x.
Proof.
  revert c' r. induction c as [|[q ls] c IH]; intros c' r; cbn.
  - intros [= <- <-]. split; [by exists 0%nat, [Some (false, bs)]|]. intros r' x _ _ (i & ls & Hi & _). done.
  - case_match.
    + intros [= <- <-]. split.
      * apply heap_slot_cons. left. split; [done|]. cbn. rewrite Nat2Z.id.
        apply put_slot_at, free_slot_le.
      * intros r' x Hr' Hne. rewrite !heap_slot_cons. intros [[Hq Hx]|Hx]; [left|by right].
        split; [done|]. apply put_slot_other; [|done]. intros Heq. apply Hne.
        destruct r' as [q' k']. cbn in *. subst q'. f_equal. lia.
    + destruct (heap_insert new bs c) as [c'' r''] eqn:E. intros [= <- <-].
      destruct (IH _ _ eq_refl) as [H1 H2]. split; [apply heap_slot_cons; by right|].
      intros r' x Hr' Hne. rewrite !heap_slot_cons. intros [Hx|Hx]; [by left|right; by apply H2].
Qed.
End insert.

(** ** Updating *)
Section update.
Context {R : Type} `{Replacer R}.
Implicit Types (e : Engine R).

(** The room of record [r]'s page for [size u] bytes in place of [bs]. *)
Definition fits (c : list (Z * slots)) (r : RID) (bs : list byte) (u : Tuple) : Prop :=
  ∀ i ls, c !! i = Some (PageId r, ls) → size u ≤ free_space ls + zlen bs.
Definition overflows (c : list (Z * slots)) (r : RID) (bs : list byte) (u : Tuple) : Prop :=
  ∀ i ls, c !! i = Some (PageId r, ls) → free_space ls + zlen bs < size u.

(** An update adds the old tuple to the write set unless the transaction is
    aborted. *)
Definition update_noted (t : TableHeap) (r : RID) (bs : list byte) e : Engine R :=
  if decide (txn_state (etxn e) = ABORTED) then e
  else set_txn (AddIntoWriteSet (NewWriteRecord r WUPDATE (stored_tuple r bs) (firstPageId t)) (etxn e)) e.

Lemma update_noted_store t r bs e : estore (update_noted t r bs e) = estore e.
Proof. unfold update_noted. by case_decide. Qed.

(** The update fits in the page. *)
Lemma UpdateTuple_run e n P pins D t c r bs tup idxs sc u fuel :
  shows (estore e) n (MkView P pins D ∅) → heap_rep P t c → heap_slot c r (Some (false, bs)) →
  0 ≤ SlotNum r → room n pins (PageId r) → 0 < size tup →
  make_update_tuple tup (stored_tuple r bs) idxs sc = Ok u → tuple_ok u → 0 < size u < 2 ^ 31 →
  fits c r bs u → ready (write_lock r) (update_record r bs u) (etxn e) (elocks e) (elogging e) →
  ∃ e1 P', UpdateTuple fuel t tup idxs sc r e = Ok ((true, None), update_noted t r bs e1) ∧
    shows (estore e1) n (MkView P' pins (D ∖ {[PageId r]}) ∅) ∧ heap_rep P' t (set_slot r (Some (false, data u)) c) ∧
    (∀ q, q ≠ PageId r → P' !! q = P !! q) ∧ logged (write_lock r) (update_record r bs u) e e1 ∧
    nextPageID (diskManager (estore e1)) = nextPageID (diskManager (estore e)).
Proof.
  intros S HR HS H0 HRm Ht Hu Hok Hsz Hfit HG.
  destruct (record_dirty e n P pins D t c r _ (Some (false, data u))
    (TablePage.UpdateTuple tup idxs sc fresh_tuple r) (true, None, None, stored_tuple r bs) _ _ S HR HS
    HRm (UpdateTuple_keeps tup idxs sc fresh_tuple r) HG)
    as (p & e1 & e2 & e3 & e4 & e5 & d & E1 & E2 & E3 & E4 & E5 & S5 & HR5 & HL5 & HN5).
  { intros s W [i Hi] Hs Hr.
    pose proof (update_tuple_run s r bs tup idxs sc fresh_tuple u W H0 Hs Ht Hu Hok Hsz (λ _, Hr)) as HU.
    rewrite decide_True in HU by (by eapply Hfit). exact HU. }
  exists e5, (<[PageId r := d]> P). split; [|split; [exact S5|split; [exact HR5|]]].
  - unfold UpdateTuple. estep E1. estep E2. estep E3. estep E4. estep E5.
    cbv zeta. cbn [andb]. estep (eq_refl : st_get e5 = Ok (e5, e5)). cbn [andb]. unfold update_noted.
    destruct (decide (txn_state (etxn e5) = ABORTED)); [by rewrite bool_decide_false by (intros HF; by apply HF)|].
    by rewrite bool_decide_true.
  - split; [|done]. intros q Hq. by rewrite lookup_insert_ne.
Qed.

(** The first part of an update that does not fit: the page is given back. *)
Lemma update_refused e n P pins t c r bs tup idxs sc u :
  shows (estore e) n (quiet P pins) → heap_rep P t c → heap_slot c r (Some (false, bs)) →
  0 ≤ SlotNum r → room n pins (PageId r) → 0 < size tup →
  make_update_tuple tup (stored_tuple r bs) idxs sc = Ok u → tuple_ok u → 0 < size u < 2 ^ 31 →
  overflows c r bs u →
  ∃ p e1 e2 e4 e5, with_store (FetchPage (PageId r)) e = Ok (Some p, e1) ∧
    page_latch p WLatch e1 = Ok (tt, e2) ∧
    on_page p (TablePage.UpdateTuple tup idxs sc fresh_tuple r) e2 =
      Ok ((false, Some ErrNotEnoughSpace, Some u, stored_tuple r bs), e2) ∧
    page_latch p WUnlatch e2 = Ok (tt, e4) ∧ unpin_table_page p false e4 = Ok (tt, e5) ∧
    shows (estore e5) n (quiet P pins) ∧ same_txn e e5.
Proof.
  intros S HR HS H0 HRm Ht Hu Hok Hsz Hov. pose proof (shows_pins _ _ _ S) as HPp. cbn in HPp.
  destruct (heap_slot_page P t c r _ HR HS) as (Hin & d & HP & W & HI & HSl & i & Hi).
  destruct (open_run e n P pins (PageId r) d S HP HRm) as (p & e1 & E1 & _ & S1 & Hh1 & ST1).
  destruct (page_acquire e1 n _ (PageId r) p WLock wlatched S1 Hh1) as (e2 & E2 & S2 & ST2 & HK2);
    [unfold vlatch_of; cbn; by rewrite lookup_empty|done|].
  destruct (held_object _ _ _ _ _ _ S2 (HK2 _ _ Hh1) HP) as (f & pg & Cc & HO & _ & Hd & _).
  assert (Hb : bytes (tp_state e2 pg) = d) by done.
  destruct (page_release e2 n _ (PageId r) p WUnlock wlatched S2 (HK2 _ _ Hh1)) as (e4 & E4 & S4 & ST4 & HK4);
    [unfold vlatch_of; cbn; by rewrite lookup_insert_eq|done|].
  assert (S4' : shows (estore e4) n (vheld P pins ∅ ∅ (PageId r))).
  { unfold vunlatch, vlatch, vheld in S4 |- *. cbn in S4. by rewrite delete_insert_id in S4 by apply lookup_empty. }
  destruct (close_run e4 n P pins ∅ (PageId r) p d false S4' HPp ltac:(set_solver) (HK4 _ _ (HK2 _ _ Hh1)) HP HI)
    as (e5 & E5 & _ & S5 & ST5); [by right|].
  exists p, e1, e2, e4, e5. split; [done|]. split; [done|]. split.
  { eapply on_page_same; [exact Cc|].
    pose proof (update_tuple_run (tp_state e2 pg) r bs tup idxs sc fresh_tuple u) as HU.
    rewrite Hb in HU. pose proof (Hov _ _ Hi) as Ho.
    rewrite decide_False in HU by lia. apply HU; try done. lia. }
  split; [done|]. split; [done|]. split; [done|].
  eapply same_txn_trans; [exact ST1|]. eapply same_txn_trans; [exact ST2|].
  by eapply same_txn_trans; [exact ST4|].
Qed.

(** An insert does not take an occupied slot. *)
Lemma heap_insert_fresh new bs c c' r x :
  heap_insert new bs c = (c', r) → NoDup c.*1 → new ∉ c.*1 → ¬ heap_slot c r (Some x).
Proof.
  revert c' r. induction c as [|[q ls] c IH]; intros c' r; cbn.
  - intros _ _ _ (i & ls & Hi & _). done.
  - intros E [Hq ND]%NoDup_cons Hn. rewrite not_elem_of_cons in Hn. destruct Hn as [Hn Hn'].
    rewrite heap_slot_cons. case_match.
    + injection E as <- <-. cbn. rewrite Nat2Z.id. intros [[_ Hx]|(i & ls' & Hi & Hx)].
      * pose proof (free_slot_spec ls) as HF. by rewrite Hx in HF.
      * apply Hq, list_elem_of_fmap. exists (q, ls'). split; [done|]. by eapply list_elem_of_lookup_2.
    + destruct (heap_insert new bs c) as [c'' r''] eqn:E'. injection E as <- <-.
      destruct (heap_insert_ids _ _ _ _ _ E') as [_ Hids]. intros [[Hr Hx]|Hx].
      * destruct Hids as [[_ Hin]|[_ Hin]]; congruence.
      * by eapply IH.
Qed.

Lemma heap_slot_set c r x y : NoDup c.*1 → heap_slot c r x → heap_slot (set_slot r y c) r y.
Proof.
  intros ND (i & ls & Hi & Hx). rewrite (set_slot_insert c i r ls y ND Hi).
  exists i, (<[Z.to_nat (SlotNum r) := y]> ls). split.
  - apply list_lookup_insert_eq. by eapply lookup_lt_Some.
  - apply list_lookup_insert_eq. by eapply lookup_lt_Some.
Qed.

Lemma heap_slot_set_other c r r' x y z :
  NoDup c.*1 → heap_slot c r x → r' ≠ r → 0 ≤ SlotNum r → 0 ≤ SlotNum r' →
  heap_slot c r' z → heap_slot (set_slot r y c) r' z.
Proof.
  intros ND (i & ls & Hi & Hx) Hne H0 H0' (j & ls' & Hj & Hz).
  rewrite (set_slot_insert c i r ls y ND Hi). destruct (decide (j = i)) as [->|Hij].
  - rewrite Hi in Hj. injection Hj as Hq <-. exists i, (<[Z.to_nat (SlotNum r) := y]> ls). split.
    + rewrite Hq. apply list_lookup_insert_eq. by eapply lookup_lt_Some.
    + rewrite list_lookup_insert_ne; [done|]. intros Heq. apply Hne.
      destruct r, r'. cbn in *. f_equal; [done|lia].
  - exists j, ls'. split; [|done]. by rewrite list_lookup_insert_ne.
Qed.

(** The update does not fit: the record is marked deleted and the tuple is
    inserted elsewhere. *)
Lemma UpdateTuple_move_run e n P pins t c r bs tup idxs sc u fuel c' r' :
  let new := nextPageID (diskManager (estore e)) in
  let c1 := set_slot r (Some (true, bs)) c in
  shows (estore e) n (quiet P pins) → heap_rep P t c → heap_slot c r (Some (false, bs)) →
  0 ≤ SlotNum r → frames_for 2 n pins → 0 < size tup →
  make_update_tuple tup (stored_tuple r bs) idxs sc = Ok u → tuple_ok u → 0 < size u < 2 ^ 31 →
  overflows c r bs u → zlen (data u) + sizeTuple ≤ free_space [] → page_in_range new →
  (length c < fuel)%nat → heap_insert new (data u) c1 = (c', r') →
  ready (write_lock r) (mark_record r) (etxn e) (elocks e) (elogging e) →
  (elogging e = true → grantable r' (etxn e) (elocks e)) →
  ∃ e1 e2 e3 P', UpdateTuple fuel t tup idxs sc r e = Ok ((true, Some r'), update_noted t r bs e3) ∧
    shows (estore e3) n (quiet P' pins) ∧ heap_rep P' t c' ∧
    logged (write_lock r) (mark_record r) e e1 ∧
    insert_logged c1 new r' u
      (set_txn (AddIntoWriteSet (NewWriteRecord r WDELETE ZeroTuple (firstPageId t)) (etxn e1)) e1) e2 ∧
    e3 = set_txn (AddIntoWriteSet (NewWriteRecord r' WINSERT ZeroTuple (firstPageId t)) (etxn e2)) e2.
Proof.
  intros new c1 S HR HS H0 HFr Ht Hu Hok Hsz Hov Hf HRn Hfu HI HG HGr.
  assert (HRm : room n pins (PageId r)) by (eapply (frames_room 2); [lia|done]).
  pose proof (heap_new_id _ _ _ _ _ _ S HR) as HNew. fold new in HNew.
  destruct (update_refused e n P pins t c r bs tup idxs sc u S HR HS H0 HRm Ht Hu Hok Hsz Hov)
    as (p & f1 & f2 & f4 & f5 & E1 & E2 & E3 & E4 & E5 & S5 & ST5).
  destruct (MarkDelete_run f5 n P pins t c r bs S5 HR HS H0 HRm (ready_same _ _ _ _ (st_kept _ _ ST5) HG))
    as (e1 & e1' & P1 & E6 & He1 & S6 & HR6 & _ & HL6 & HN6).
  assert (HN : nextPageID (diskManager (estore e1')) = new) by (rewrite HN6; apply ST5).
  assert (HGr' : elogging e1' = true → grantable r' (etxn e1') (elocks e1')).
  { rewrite He1. cbn. destruct HL6 as [HE HL6]. rewrite HE, (tk_logging _ _ (st_kept _ _ ST5)).
    intros HEt. rewrite (tk_logging _ _ (st_kept _ _ ST5)), HEt in HL6.
    destruct HL6 as (t' & lm' & EL & -> & Et & _).
    rewrite (tk_txn _ _ (st_kept _ _ ST5)), (tk_locks _ _ (st_kept _ _ ST5)) in EL.
    assert (Hne : r' ≠ r).
    { intros ->. eapply (heap_insert_fresh _ _ _ _ _ (true, bs) HI); [|by unfold c1; rewrite set_slot_ids|].
      - unfold c1. rewrite set_slot_ids. apply HR.
      - eapply heap_slot_set; [apply HR|exact HS]. }
    destruct (write_lock_other _ _ _ _ _ _ _ EL Hne) as [HI' HK].
    specialize (HK (HGr HEt)). rewrite Et. exact HK. }
  destruct (InsertTuple_run e1' n P1 pins t c1 u fuel c' r' S6 HR6 HFr Hok ltac:(lia) Hf)
    as (e2 & e3 & P3 & E7 & He3 & S7 & HR7 & _ & HL7); [by rewrite HN|..|by rewrite HN|exact HGr'|].
  { unfold c1, set_slot. by rewrite length_fmap. }
  exists e1, e2, e3, P3. split; [|split; [exact S7|split; [exact HR7|split; [|split; [|exact He3]]]]].
  - unfold UpdateTuple. estep E1. estep E2. estep E3. estep E4. estep E5. cbv zeta.
    rewrite bool_decide_true by done. cbn [andb]. estep E6.
    estep (st_lift_run (deref (Some u)) u e1' eq_refl). estep E7. cbn [fst snd].
    estep (eq_refl : st_get e3 = Ok (e3, e3)). cbn [andb]. unfold update_noted.
    destruct (decide (txn_state (etxn e3) = ABORTED)); [by rewrite bool_decide_false by (intros HF; by apply HF)|].
    by rewrite bool_decide_true.
  - eapply logged_same; [apply ST5|exact HL6|apply same_txn_refl].
  - rewrite HN in HL7. by rewrite <- He1.
Qed.
End update.

(** ** A new table *)
Section new_table.
Context {R : Type} `{Replacer R}.
Implicit Types (e : Engine R).

Lemma NewTableHeap_run e n P pins :
  let new := nextPageID (diskManager (estore e)) in
  shows (estore e) n (quiet P pins) → (base.size pins < n)%nat → page_in_range new →
  ∃ e' d, NewTableHeap e = Ok (InitTableHeap new, e') ∧
    shows (estore e') n (quiet (<[new := d]> P) pins) ∧
    heap_rep (<[new := d]> P) (InitTableHeap new) [(new, [])] ∧
    logged no_lock (newpage_record InvalidPageID) e e' ∧
    nextPageID (diskManager (estore e')) = new + 1.
Proof.
  intros new S HF HRn. pose proof (shows_pins _ _ _ S) as HPp. cbn in HPp.
  destruct (unused_page (estore e) n _ new S ltac:(lia)) as (_ & Hpn & _). cbn in Hpn.
  destruct (shows_new (estore e) n _ S HF) as (p & s1 & E1 & S1 & Hh1 & _ & HL1 & HN1 & HO1);
    [intros i [l Hl]; cbn in Hl; by rewrite lookup_empty in Hl|exact HRn|].
  set (e1 := set_store s1 e). pose proof (with_store_run _ _ _ _ E1) as E1'. fold e1 in E1'.
  assert (S1' : shows (estore e1) n (vheld (<[new := zeros (Z.to_nat PageSize)]> P) pins ({[new]} ∪ ∅) ∅ new)).
  { unfold vheld. rewrite Hpn. exact S1. }
  assert (HInit : ∀ e2 pg, log_wf (get_log (estore e2)) → pdata pg = zeros (Z.to_nat PageSize) → ∃ s',
    Init new InvalidPageID (tp_state e2 pg) = Ok (tt, s') ∧ zlen (bytes s') = zlen (zeros (Z.to_nat PageSize)) ∧
    op_logged no_lock (newpage_record InvalidPageID) (tp_state e2 pg) s' ∧
    page_is (bytes s') new [] InvalidPageID).
  { intros e2 pg HW Hpg. destruct (init_logged (tp_state e2 pg) new InvalidPageID) as (s' & Em & W & C & I1 & N1 & HO).
    - unfold bytes. cbn. rewrite Hpg. reflexivity.
    - by apply in_range_valid.
    - done.
    - apply ready_op; [done|apply newpage_ready].
    - exists s'. split; [done|]. split; [by rewrite (pw_len _ W)|]. split; [done|by split]. }
  destruct (latched_run e1 n _ pins ({[new]} ∪ ∅) new p (zeros (Z.to_nat PageSize)) (Init new InvalidPageID) tt
    no_lock (newpage_record InvalidPageID) (λ bs, page_is bs new [] InvalidPageID) S1' Hh1)
    as (e2 & e3 & e4 & d & E2 & E3 & E4 & _ & S4 & _ & Hh4 & HI4 & ST2 & HL4 & HN4 & _);
    [by rewrite lookup_insert_eq|apply Init_keeps|intros e2 pg _; apply HInit|].
  rewrite insert_insert_eq in S4.
  destruct (close_run e4 n (<[new := d]> P) pins _ new p d true S4 HPp ltac:(set_solver) Hh4) as (e5 & _ & E5 & S5 & ST5);
    [by rewrite lookup_insert_eq|apply HI4|by left|].
  assert (E6 : with_store (read_page p) e2 = Ok (set_latch wlatched (NewEmpty new), e2)).
  { unfold page_latch in E2. apply with_store_run in E1.
    assert (HC : page_objs (estore e2) !! p = Some (set_latch wlatched (NewEmpty new))).
    { unfold with_store, zoom in E2. cbn in E2. unfold update_page in E2. rewrite HO1 in E2. mred.
      cbn in E2. injection E2 as <-. cbn. by rewrite lookup_insert_eq. }
    rewrite (with_store_run _ _ _ _ (read_page_run _ _ _ HC)). by destruct e2. }
  exists e5, d. split; [|split; [exact S5|split; [split|split]]].
  - unfold NewTableHeap. estep E1'. estep (st_lift_run (deref (Some p)) p e1 eq_refl). estep E2.
    estep E6. cbn [id set_latch NewEmpty]. estep E3. estep E4. by estep E5.
  - done.
  - apply NoDup_singleton.
  - split; [done|]. split; [done|]. exists d, InvalidPageID. by rewrite lookup_insert_eq.
  - eapply (logged_same _ _ _ e1); [by split|exact HL4|apply ST5].
  - rewrite (st_next _ _ ST5), HN4. exact HN1.
Qed.
End new_table.

(** ** Properties *)
Section properties.
Context {R : Type} `{Replacer R}.
Implicit Types (e : Engine R).

(** C13: inserting a tuple into a table, with two frames that nobody pins and a
    turn of the loop per page, stores it in the first page with room, or in a
    new page linked at the end of the chain.  Every other record is as it was,
    every other page untouched, no page stays pinned or latched; with logging
    on, the new record is locked and INSERT is logged, after NEWPAGE if a page
    was made; the transaction's write set gets the record. *)
Theorem heap_insert_spec e n P pins t c tup fuel c' r :
  let new := nextPageID (diskManager (estore e)) in
  shows (estore e) n (quiet P pins) → heap_rep P t c → frames_for 2 n pins →
  tuple_ok tup → 0 < size tup → zlen (data tup) + sizeTuple ≤ free_space [] → page_in_range new →
  (length c < fuel)%nat → heap_insert new (data tup) c = (c', r) →
  (elogging e = true → grantable r (etxn e) (elocks e)) →
  ∃ e1 P', let e' := set_txn (AddIntoWriteSet (NewWriteRecord r WINSERT ZeroTuple (firstPageId t)) (etxn e1)) e1 in
    InsertTuple fuel t tup e = Ok ((inr r, SetRID r tup), e') ∧
    shows (estore e') n (quiet P' pins) ∧ heap_rep P' t c' ∧
    heap_slot c' r (Some (false, data tup)) ∧
    (∀ r' x, 0 ≤ SlotNum r' → r' ≠ r → heap_slot c r' x → heap_slot c' r' x) ∧
    (∀ i, i ∉ c'.*1 → P' !! i = P !! i) ∧ insert_logged c new r tup e e1.
Proof.
  intros new S HR HFr Ht H0 Hf HRn Hfu HI HG. destruct (heap_insert_slots _ _ _ _ _ HI) as [H1 H2].
  destruct (InsertTuple_run e n P pins t c tup fuel c' r S HR HFr Ht H0 Hf HRn Hfu HI HG)
    as (e1 & e' & P' & E & -> & S' & HR' & HO & HL).
  by exists e1, P'.
Qed.

(** C14: updating a live record of a table.  If the tuple fits in its page the
    record gets it, under the lock and with an UPDATE record; if not, the record
    is marked deleted and the tuple inserted elsewhere, with the records of both.
    Either way the old tuple goes to the write set unless the transaction is
    aborted, and no page stays pinned. *)
Theorem heap_update_spec e n P pins t c r bs tup idxs sc u fuel :
  let new := nextPageID (diskManager (estore e)) in
  shows (estore e) n (quiet P pins) → heap_rep P t c → heap_slot c r (Some (false, bs)) →
  0 ≤ SlotNum r → frames_for 2 n pins → 0 < size tup →
  make_update_tuple tup (stored_tuple r bs) idxs sc = Ok u → tuple_ok u → 0 < size u < 2 ^ 31 →
  (fits c r bs u → ready (write_lock r) (update_record r bs u) (etxn e) (elocks e) (elogging e) →
   ∃ e1 P', UpdateTuple fuel t tup idxs sc r e = Ok ((true, None), update_noted t r bs e1) ∧
     shows (estore (update_noted t r bs e1)) n (quiet P' pins) ∧
     heap_rep P' t (set_slot r (Some (false, data u)) c) ∧
     logged (write_lock r) (update_record r bs u) e e1) ∧
  (overflows c r bs u → zlen (data u) + sizeTuple ≤ free_space [] → page_in_range new →
   (length c < fuel)%nat → ∀ c' r',
   heap_insert new (data u) (set_slot r (Some (true, bs)) c) = (c', r') →
   ready (write_lock r) (mark_record r) (etxn e) (elocks e) (elogging e) →
   (elogging e = true → grantable r' (etxn e) (elocks e)) →
   ∃ e1 e2 P',
     let marked := set_txn (AddIntoWriteSet (NewWriteRecord r WDELETE ZeroTuple (firstPageId t)) (etxn e1)) e1 in
     let inserted := set_txn (AddIntoWriteSet (NewWriteRecord r' WINSERT ZeroTuple (firstPageId t)) (etxn e2)) e2 in
     UpdateTuple fuel t tup idxs sc r e = Ok ((true, Some r'), update_noted t r bs inserted) ∧
     shows (estore (update_noted t r bs inserted)) n (quiet P' pins) ∧ heap_rep P' t c' ∧
     logged (write_lock r) (mark_record r) e e1 ∧
     insert_logged (set_slot r (Some (true, bs)) c) new r' u marked e2).
Proof.
  intros new S HR HS H0 HFr Ht Hu Hok Hsz. split.
  - intros Hfit HG.
    destruct (UpdateTuple_run e n P pins ∅ t c r bs tup idxs sc u fuel S HR HS H0) as
      (e1 & P' & E & S1 & HR1 & _ & HL & _); try done; [by eapply (frames_room 2); [lia|]|].
    replace (∅ ∖ {[PageId r]} : gset Z) with (∅ : gset Z) in S1 by set_solver.
    exists e1, P'. by rewrite update_noted_store.
  - intros Hov Hf HRn Hfu c' r' HI HG HGr.
    destruct (UpdateTuple_move_run e n P pins t c r bs tup idxs sc u fuel c' r') as
      (e1 & e2 & e3 & P' & E & S1 & HR1 & HL1 & HL2 & ->); try done.
    exists e1, e2, P'. cbv zeta. rewrite update_noted_store. done.
Qed.

(** The lock a writer gets is in its set. *)
Definition owned_after (r : RID) e : Prop :=
  elogging e = true → ∀ t' lm', write_lock r (etxn e) (elocks e) = Ok (true, t', lm') →
    IsExclusiveLocked t' r = true.

Lemma delete_ready r t e e1 (mk : Z → Z → LogRecord) :
  owned_after r e → logged (write_lock r) (mark_record r) e e1 → (∀ i l, appendable (mk i l)) →
  let e' := set_txn (AddIntoWriteSet (NewWriteRecord r WDELETE ZeroTuple t) (etxn e1)) e1 in
  ready (own_lock r) mk (etxn e') (elocks e') (elogging e').
Proof.
  intros HO [HE HL] HA e' Hlg. cbn in Hlg. rewrite HE in Hlg. rewrite Hlg in HL.
  destruct HL as (t' & lm' & EL & Elm & Et & _). specialize (HO Hlg _ _ EL).
  assert (HI : IsExclusiveLocked (etxn e') r = true) by (unfold e'; cbn; rewrite Et; exact HO).
  exists (etxn e'), (elocks e'). unfold own_lock. rewrite HI. by repeat (split; [done|]).
Qed.

(** C15: deleting a live record of a table marks it and notes it in the write
    set; rolling the delete back then gives the table it was, applying it
    empties the slot.  All three leave no page pinned and log their record under
    the transaction's exclusive lock. *)
Theorem heap_delete_spec e n P pins t c r bs :
  shows (estore e) n (quiet P pins) → heap_rep P t c → heap_slot c r (Some (false, bs)) →
  0 ≤ SlotNum r → room n pins (PageId r) → owned_after r e →
  ready (write_lock r) (mark_record r) (etxn e) (elocks e) (elogging e) →
  ∃ e1 P1, let marked := set_txn (AddIntoWriteSet (NewWriteRecord r WDELETE ZeroTuple (firstPageId t)) (etxn e1)) e1 in
    MarkDelete t r e = Ok (true, marked) ∧
    shows (estore marked) n (quiet P1 pins) ∧ heap_rep P1 t (set_slot r (Some (true, bs)) c) ∧
    logged (write_lock r) (mark_record r) e e1 ∧
    (∃ e2 P2, RollbackDelete t r marked = Ok (tt, e2) ∧ shows (estore e2) n (quiet P2 pins) ∧
       heap_rep P2 t c ∧ logged (own_lock r) (rollback_record r) marked e2) ∧
    (∃ e2 P2, ApplyDelete t r marked = Ok (tt, e2) ∧ shows (estore e2) n (quiet P2 pins) ∧
       heap_rep P2 t (set_slot r None c) ∧ logged (own_lock r) (apply_record r bs) marked e2).
Proof.
  intros S HR HS H0 HRm HO HG. pose proof (hr_nodup _ _ _ HR) as ND.
  destruct (MarkDelete_run e n P pins t c r bs S HR HS H0 HRm HG)
    as (e1 & e1' & P1 & E1 & -> & S1 & HR1 & _ & HL1 & _).
  pose proof (heap_slot_set c r _ (Some (true, bs)) ND HS) as HS1.
  assert (HB : ∀ x, set_slot r x (set_slot r (Some (true, bs)) c) = set_slot r x c).
  { intros x. destruct HS as (i & ls & Hi & Hx). rewrite (set_slot_insert c i r ls _ ND Hi).
    rewrite (set_slot_insert _ i r (<[Z.to_nat (SlotNum r) := Some (true, bs)]> ls)).
    - rewrite list_insert_insert_eq, list_insert_insert_eq.
      by rewrite (set_slot_insert c i r ls _ ND Hi).
    - rewrite <- (set_slot_insert c i r ls _ ND Hi). by rewrite set_slot_ids.
    - apply list_lookup_insert_eq. by eapply lookup_lt_Some. }
  assert (HId : set_slot r (Some (false, bs)) c = c).
  { destruct HS as (i & ls & Hi & Hx). rewrite (set_slot_insert c i r ls _ ND Hi).
    rewrite (list_insert_id ls) by done. by apply list_insert_id. }
  exists e1, P1. cbv zeta. split; [exact E1|]. split; [exact S1|]. split; [exact HR1|].
  split; [exact HL1|]. split.
  - destruct (RollbackDelete_run _ n P1 pins ∅ t _ r bs S1 HR1 HS1 H0 HRm) as (e2 & P2 & E2 & S2 & HR2 & _ & HL2 & _).
    { eapply delete_ready; [done|done|]. intros i l. by apply delete_appendable. }
    replace (∅ ∖ {[PageId r]} : gset Z) with (∅ : gset Z) in S2 by set_solver.
    exists e2, P2. rewrite HB, HId in HR2. done.
  - destruct (ApplyDelete_run _ n P1 pins t _ r true bs S1 HR1 HS1 H0 HRm) as (e2 & P2 & E2 & S2 & HR2 & _ & HL2 & _).
    { eapply delete_ready; [done|done|]. intros i l.
      destruct (heap_slot_page _ _ _ _ _ HR HS) as (_ & d & _ & W & _ & HSl & _).
      destruct (occupied_intro r d false bs W H0 HSl) as []. apply delete_appendable; [done|done|].
      change (0 ≤ zlen bs ≤ PageSize). lia. }
    exists e2, P2. rewrite HB in HR2. done.
Qed.

(** An insert whose lock is refused aborts the transaction, and returns without
    unpinning the page: it stays pinned for good. *)
Theorem refused_insert_leaks_pin e n P pins t q ls c tup fuel tx lm :
  let rid := MkRID q (Z.of_nat (free_slot ls)) in
  shows (estore e) n (quiet P pins) → heap_rep P t ((q, ls) :: c) → room n pins q →
  tuple_ok tup → 0 < size tup → zlen (data tup) + sizeTuple ≤ free_space ls →
  elogging e = true → LockExclusive (etxn e) rid (elocks e) = (false, tx, lm) →
  ∃ e', InsertTuple (S fuel) t tup e = Ok ((inl ErrLockNewTuple, tup), e') ∧
    shows (estore e') n (vheld P pins {[q]} ∅ q) ∧ txn_state (etxn e') = ABORTED.
Proof.
  intros rid S HR HRm Ht H0 Hf HE HL. pose proof (shows_pins _ _ _ S) as HPp. cbn in HPp.
  destruct HR as [_ _ (Hq & HRq & d & next & HP & [W C I N] & _)].
  destruct (open_run e n P pins q d S HP HRm) as (p & e1 & _ & E1 & S1 & Hh1 & ST1).
  destruct (page_acquire e1 n _ q p WLock wlatched S1 Hh1) as (e2 & E2 & S2 & ST2 & HK2);
    [unfold vlatch_of; cbn; by rewrite lookup_empty|done|].
  destruct (held_object _ _ _ _ _ _ S2 (HK2 _ _ Hh1) HP) as (f & pg & Cc & HO & _ & Hd & _).
  assert (Hz : zlen (data tup) = size tup) by (unfold tuple_ok, zlen in *; lia).
  assert (KT : txn_kept e e2) by (eapply txn_kept_trans; [apply ST1|apply ST2]).
  assert (Hb : bytes (tp_state e2 pg) = d) by done.
  assert (Hr : insert_rid d = rid) by (unfold insert_rid; by rewrite I, C).
  assert (HEl : EnableLogging (tp_state e2 pg) = true) by (cbn; by rewrite (tk_logging _ _ KT)).
  destruct (insert_refused_run (tp_state e2 pg) tup) as (_ & _ & HRef);
    [by rewrite Hb|lia|pose proof (free_space_range d W) as HF; rewrite C in HF; zsolve|].
  destruct (HRef ltac:(lia) ltac:(rewrite Hb, C; lia) HEl (etxn e2) (elocks e2) tx lm eq_refl eq_refl) as
    (s' & Em & Hpg & Hlg & Htx & Hlk).
  { rewrite Hb, Hr. by rewrite (tk_txn _ _ KT), (tk_locks _ _ KT). }
  destruct (on_page_run e2 n _ q f p pg _ _ s' S2 Cc (vheld_pinned _ _ _ _ _) Em (InsertTuple_keeps tup)
    ltac:(unfold bytes; by rewrite Hpg) _ _ _ Htx Hlk Hlg (shows_log_wf _ _ _ S2) eq_refl eq_refl) as (E3 & S3 & HK3).
  set (e3 := MkEngine _ _ _ _) in E3.
  destruct (page_release e3 n _ q p WUnlock wlatched S3 (HK3 _ _ (HK2 _ _ Hh1))) as (e4 & E4 & S4 & ST4 & _);
    [unfold vlatch_of; cbn; by rewrite lookup_insert_eq|done|].
  assert (EL : insert_loop (Datatypes.S fuel) p tup e1 = Ok ((inl ErrLockNewTuple, tup), e4))
    by (cbn [insert_loop]; estep E2; estep E3; by estep E4).
  exists e4. split; [|split].
  - unfold InsertTuple. rewrite Hq. estep E1. by estep EL.
  - unfold bytes in S4. rewrite Hpg in S4. change (pdata (tpage (tp_state e2 pg))) with (pdata pg) in S4.
    rewrite Hd in S4. unfold vunlatch, vwrite, vlatch, vheld in S4 |- *. cbn in S4.
    rewrite delete_insert_id, insert_id in S4 by (done || apply lookup_empty).
    by replace ({[q]} ∪ ∅ : gset Z) with ({[q]} : gset Z) in S4 by set_solver.
  - by rewrite (tk_txn _ _ (st_kept _ _ ST4)).
Qed.
End properties.

(** ** A concrete table

    A pool of two frames, transaction 7, logging on; a table with one tuple. *)
Definition start_engine : Engine ClockReplacer :=
  MkEngine (new_store 2 empty_disk) NewLockManager (NewTransaction 7) true.
Definition engine_of {A} (m : st (Engine ClockReplacer) A) (e : Engine ClockReplacer) : Engine ClockReplacer :=
  match m e with Ok (_, e') => e' | _ => e end.
Definition table_engine : Engine ClockReplacer := engine_of NewTableHeap start_engine.
Definition table_0 : TableHeap := InitTableHeap 0.
Definition rid_00 : RID := MkRID 0 0.
Definition tuple_engine : Engine ClockReplacer := engine_of (InsertTuple 2 table_0 example_tuple) table_engine.

Lemma start_engine_shows : shows (estore start_engine) 2 (quiet ∅ ∅).
Proof. apply (new_store_shows 2 empty_disk); [unfold in_u32; lia|done|vm_compute; discriminate]. Qed.

Lemma no_pins_frames : frames_for 2 2 ∅.
Proof. split; [rewrite map_size_empty; lia|]. intros pid i Hi. by rewrite lookup_empty in Hi. Qed.

Lemma table_engine_shows :
  ∃ P, shows (estore table_engine) 2 (quiet P ∅) ∧ heap_rep P table_0 [(0, [])] ∧
    nextPageID (diskManager (estore table_engine)) = 1 ∧ elogging table_engine = true ∧
    etxn table_engine = SetPrevLSN 0 (NewTransaction 7) ∧ elocks table_engine = NewLockManager.
Proof.
  destruct (NewTableHeap_run start_engine 2 ∅ ∅ start_engine_shows) as (e' & d & E & S & HR & [HE HL] & HN).
  - rewrite map_size_empty. lia.
  - unfold page_in_range. vm_compute. split; [discriminate|reflexivity].
  - unfold table_engine, engine_of. rewrite E. exists (<[0 := d]> ∅).
    change (nextPageID (diskManager (estore start_engine))) with 0 in *.
    split; [exact S|]. split; [exact HR|]. split; [exact HN|]. split; [exact HE|].
    destruct HL as (t' & lm' & [= <- <-] & Hl & Ht & _). split; [exact Ht|exact Hl].
Qed.

Lemma table_room : zlen (data example_tuple) + sizeTuple ≤ free_space [].
Proof. vm_compute. discriminate. Qed.

Lemma heap_insert_spec_witness :
  ∃ e' P', InsertTuple 2 table_0 example_tuple table_engine =
      Ok ((inr rid_00, SetRID rid_00 example_tuple), e') ∧
    heap_rep P' table_0 [(0, [Some (false, [Byte.x61; Byte.x62])])].
Proof.
  destruct table_engine_shows as (P & S & HR & HN & HE & HT & HL).
  destruct (heap_insert_spec table_engine 2 P ∅ table_0 [(0, [])] example_tuple 2
    [(0, [Some (false, [Byte.x61; Byte.x62])])] rid_00 S HR no_pins_frames eq_refl eq_refl table_room)
    as (e1 & P' & E & _ & HR' & _).
  - rewrite HN. unfold page_in_range. lia.
  - repeat constructor.
  - rewrite HN. vm_compute. reflexivity.
  - intros _. rewrite HL. vm_compute. exact I.
  - eexists _, P'. split; [exact E|exact HR'].
Defined.

Lemma tuple_engine_shows :
  ∃ P, shows (estore tuple_engine) 2 (quiet P ∅) ∧
    heap_rep P table_0 [(0, [Some (false, [Byte.x61; Byte.x62])])].
Proof.
  destruct table_engine_shows as (P & S & HR & HN & HE & HT & HL).
  destruct (InsertTuple_run table_engine 2 P ∅ table_0 [(0, [])] example_tuple 2
    [(0, [Some (false, [Byte.x61; Byte.x62])])] rid_00 S HR no_pins_frames eq_refl eq_refl table_room)
    as (e1 & e' & P' & E & He & S' & HR' & _).
  - rewrite HN. unfold page_in_range. lia.
  - repeat constructor.
  - rewrite HN. vm_compute. reflexivity.
  - intros _. rewrite HL. vm_compute. exact I.
  - unfold tuple_engine, engine_of. rewrite E. exists P'. split; [exact S'|exact HR'].
Qed.

Lemma tuple_slot : heap_slot [(0, [Some (false, [Byte.x61; Byte.x62])])] rid_00 (Some (false, [Byte.x61; Byte.x62])).
Proof. by exists 0%nat, [Some (false, [Byte.x61; Byte.x62])]. Qed.

(** The same table seen by a transaction that does not log. *)
Definition quiet_engine : Engine ClockReplacer :=
  MkEngine (estore tuple_engine) (elocks tuple_engine) (etxn tuple_engine) false.

Lemma heap_update_spec_witness :
  let u := MkTuple None 3 [Byte.x78; Byte.x79; Byte.x7a] in
  ∃ e' P', UpdateTuple 2 table_0 u None None rid_00 quiet_engine = Ok ((true, None), e') ∧
    heap_rep P' table_0 [(0, [Some (false, [Byte.x78; Byte.x79; Byte.x7a])])].
Proof.
  intros u. destruct tuple_engine_shows as (P & S & HR).
  destruct (heap_update_spec quiet_engine 2 P ∅ table_0 _ rid_00 _ u None None u 2 S HR tuple_slot
    ltac:(done) no_pins_frames eq_refl eq_refl eq_refl ltac:(done)) as [HU _].
  destruct HU as (e1 & P' & E & _ & HR' & _).
  - intros i ls Hi. destruct i as [|i]; [|discriminate]. injection Hi as <-. vm_compute. discriminate.
  - discriminate.
  - eexists _, P'. split; [exact E|exact HR'].
Defined.

Lemma heap_delete_spec_witness :
  ∃ e1 e2 P2, MarkDelete table_0 rid_00 tuple_engine = Ok (true, e1) ∧
    RollbackDelete table_0 rid_00 e1 = Ok (tt, e2) ∧
    heap_rep P2 table_0 [(0, [Some (false, [Byte.x61; Byte.x62])])].
Proof.
  destruct tuple_engine_shows as (P & S & HR).
  destruct (heap_delete_spec tuple_engine 2 P ∅ table_0 _ rid_00 _ S HR tuple_slot ltac:(done))
    as (e1 & P1 & E1 & _ & _ & _ & (e2 & P2 & E2 & _ & HR2 & _) & _).
  - apply (frames_room 2); [lia|apply no_pins_frames].
  - intros _ t' lm' E. vm_compute in E. injection E as <- _. vm_compute. reflexivity.
  - intros _. do 2 eexists. split; [vm_compute; reflexivity|]. split; [reflexivity|].
    split; [reflexivity|]. apply delete_appendable; [done|done|]. vm_compute. split; discriminate.
  - eexists _, e2, P2. split; [exact E1|]. split; [exact E2|exact HR2].
Defined.
