(* ===== verification/TableScan.v ===== *)
(** * Scanning a table ([storage/access/table_heap.go],
    [storage/access/table_heap_iterator.go])

    Finding the first tuple of a table and going from a tuple to the next, page
    by page along the chain. *)

From S2P Require Import Prelude Bytes Types Tuples Disk LogRecord LogManager ClockReplacer Replacer Page BufferPool LockManager PoolView TablePage RecordLocks Engine TableHeap.

Section scan.
Context {R : Type} `{Replacer R}.

(** The loop of [GetFirstTuple]. *)
Fixpoint first_loop (fuel : nat) (pageId : Z) : st (Engine R) (option RID) :=
  if IsValid pageId then
    match fuel with
    | O => st_lift OutOfFuel
    | S fuel' =>
        page ← fetch_table_page pageId;
        _ ← page_latch page RLatch;
        rid ← page_read page GetTupleFirstRID;
        _ ← with_store (UnpinPage pageId false);
        match rid with
        | Some _ => _ ← page_latch page RUnlatch; mret rid
        | None =>
            next ← page_read page GetNextPageId;
            _ ← page_latch page RUnlatch;
            first_loop fuel' next
        end
    end
  else mret None.

Definition GetFirstTuple (fuel : nat) (t : TableHeap) : st (Engine R) (option Tuple) :=
  rid ← first_loop fuel (firstPageId t);
  match rid with None => mret None | Some rid => GetTuple t rid end.

(** ** Iterating *)
Record TableHeapIterator : Type := MkIterator { tableHeap : TableHeap; tuple : option Tuple }.

Definition NewTableHeapIterator (fuel : nat) (t : TableHeap) : st (Engine R) TableHeapIterator :=
  first ← GetFirstTuple fuel t; mret (MkIterator t first).
Definition Current (it : TableHeapIterator) : option Tuple := tuple it.
Definition End (it : TableHeapIterator) : bool := bool_decide (Current it = None).

(** The loop over the pages that follow; the last page is left pinned and
    latched. *)
Fixpoint next_loop (fuel : nat) (currentPage : ptr) (cur : RID) :
    st (Engine R) (ptr * option RID) :=
  next ← page_read currentPage GetNextPageId;
  if IsValid next then
    match fuel with
    | O => st_lift OutOfFuel
    | S fuel' =>
        nextPage ← fetch_table_page next;
        _ ← page_latch currentPage RUnlatch;
        _ ← unpin_table_page currentPage false;
        _ ← page_latch nextPage RLatch;
        r ← page_read nextPage (GetNextTupleRID cur true);
        match r with
        | Some _ => mret (nextPage, r)
        | None => next_loop fuel' nextPage cur
        end
    end
  else mret (currentPage, None).

Definition Next (fuel : nat) (it : TableHeapIterator) : st (Engine R) TableHeapIterator :=
  cur ← st_lift (deref (tuple it));
  rid ← st_lift (deref (Tuples.rid cur));
  currentPage ← fetch_table_page (PageId rid);
  _ ← page_latch currentPage RLatch;
  r ← page_read currentPage (GetNextTupleRID rid false);
  pr ← (match r with
        | Some _ => mret (currentPage, r)
        | None => next_loop fuel currentPage rid
        end);
  let '(currentPage, nextTupleRID) := pr in
  _ ← page_latch currentPage RUnlatch;
  t ← (match nextTupleRID with
       | Some r => if IsValid (PageId r) then GetTuple (tableHeap it) r else mret None
       | None => mret None
       end);
  _ ← unpin_table_page currentPage false;
  mret (MkIterator (tableHeap it) t).

(** The loop every user of the iterator runs: the tuples it sees. *)
Fixpoint collect (fuel pages : nat) (it : TableHeapIterator) : st (Engine R) (list Tuple) :=
  match Current it with
  | None => mret []
  | Some t =>
      match fuel with
      | O => st_lift OutOfFuel
      | S fuel' => it' ← Next pages it; ts ← collect fuel' pages it'; mret (t :: ts)
      end
  end.
End scan.

(** ** The entries of a table, in order

    A record of the chain with whether it is marked deleted, and its bytes. *)
Abbreviation entry := (RID * (bool * list byte))%type (only parsing).

Fixpoint page_entries (q k : Z) (ls : slots) : list entry :=
  match ls with
  | [] => []
  | Some x :: ls' => (MkRID q k, x) :: page_entries q (k + 1) ls'
  | None :: ls' => page_entries q (k + 1) ls'
  end.
Fixpoint heap_entries (c : list (Z * slots)) : list entry :=
  match c with
  | [] => []
  | (q, ls) :: c' => page_entries q 0 ls ++ heap_entries c'
  end.

(** What a scan returns: the tuples up to the first that is marked deleted. *)
Fixpoint scan (l : list entry) : list Tuple :=
  match l with
  | (r, (false, bs)) :: l' => stored_tuple r bs :: scan l'
  | _ => []
  end.

(** Record [r] holds [x], and [l] are the entries that follow. *)
Definition at_entry (c : list (Z * slots)) (r : RID) (x : bool * list byte) (l : list entry) : Prop :=
  ∃ c1 ls c2, c = c1 ++ (PageId r, ls) :: c2 ∧ 0 ≤ SlotNum r < Z.of_nat (length ls) ∧
    ls !! Z.to_nat (SlotNum r) = Some (Some x) ∧
    l = page_entries (PageId r) (SlotNum r + 1) (drop (Z.to_nat (SlotNum r + 1)) ls) ++ heap_entries c2.

Lemma page_entries_first q k ls :
  page_entries q k ls =
    match first_occupied ls with
    | None => []
    | Some j => match ls !! j with
                | Some (Some x) => (MkRID q (k + Z.of_nat j), x) ::
                    page_entries q (k + Z.of_nat j + 1) (drop (S j) ls)
                | _ => []
                end
    end.
Proof.
  revert k. induction ls as [|[x|] ls IH]; intros k; cbn; [done| |].
  - by rewrite ?drop_0, !Z.add_0_r.
  - rewrite IH. destruct (first_occupied ls) as [j|]; cbn; [|done].
    destruct (ls !! j) as [[x|]|]; [|done|done]. f_equal; [f_equal; f_equal; lia|].
    f_equal. lia.
Qed.

(** The record [next_slot] finds from slot [k] on is the first entry from there. *)
Lemma first_entry q k ls :
  0 ≤ k →
  (λ j, MkRID q (k + Z.of_nat j)) <$> first_occupied (drop (Z.to_nat k) ls) =
    fst <$> hd_error (page_entries q k (drop (Z.to_nat k) ls)) ∧
  ∀ r x l, page_entries q k (drop (Z.to_nat k) ls) = (r, x) :: l →
    PageId r = q ∧ k ≤ SlotNum r < Z.of_nat (length ls) ∧ ls !! Z.to_nat (SlotNum r) = Some (Some x) ∧
    l = page_entries q (SlotNum r + 1) (drop (Z.to_nat (SlotNum r + 1)) ls).
Proof.
  intros Hk. rewrite page_entries_first. pose proof (first_occupied_spec (drop (Z.to_nat k) ls)) as HF.
  destruct (first_occupied _) as [j|]; cbn; [|done]. destruct HF as [[x Hx] _]. rewrite Hx. split; [done|].
  intros r x' l [= <- <- <-]. cbn. rewrite lookup_drop in Hx. pose proof (lookup_lt_Some _ _ _ Hx).
  split; [done|]. split; [lia|]. split.
  - by replace (Z.to_nat (k + Z.of_nat j)) with (Z.to_nat k + j)%nat by lia.
  - rewrite drop_drop. do 2 f_equal. lia.
Qed.

Lemma at_entry_slot c r x l : at_entry c r x l → 0 ≤ SlotNum r ∧ heap_slot c r (Some x).
Proof.
  intros (c1 & ls & c2 & -> & H0 & Hx & _). split; [lia|]. exists (length c1), ls.
  by rewrite list_lookup_middle.
Qed.

Lemma at_entry_head c r x l : heap_entries c = (r, x) :: l → at_entry c r x l.
Proof.
  induction c as [|[q ls] c IH]; cbn; [done|]. destruct (page_entries q 0 ls) as [|e0 l0] eqn:EP; cbn.
  - intros Hl. destruct (IH Hl) as (c1 & ls' & c2 & -> & H0). by exists ((q, ls) :: c1), ls', c2.
  - intros [= -> <-]. destruct (proj2 (first_entry q 0 ls ltac:(lia)) r x l0 EP) as (H1 & H2 & H3 & H4).
    exists [], ls, c. rewrite H1. split; [done|]. split; [lia|]. by rewrite H4.
Qed.

Lemma page_count d : page_wf d → Z.of_nat (length (contents d)) < PageSize.
Proof.
  intros W. rewrite contents_length. pose proof (pw_cnt _ W). pose proof (pw_total _ W).
  assert (0 ≤ total (contents d)) by (unfold total; lia). consts. lia.
Qed.

(** The entry after an entry. *)
Lemma at_entry_next c r x r' x' l : at_entry c r x ((r', x') :: l) → at_entry c r' x' l.
Proof.
  intros (c1 & ls & c2 & -> & [H0 HL] & _ & EL).
  destruct (page_entries (PageId r) (SlotNum r + 1) _) as [|[r0 x0] l0] eqn:EP; cbn in EL.
  - destruct (at_entry_head c2 r' x' l (eq_sym EL)) as (d1 & ls' & d2 & -> & HR).
    exists (c1 ++ (PageId r, ls) :: d1), ls', d2. split; [by rewrite <- app_assoc|done].
  - injection EL as -> -> ->. destruct (proj2 (first_entry (PageId r) (SlotNum r + 1) ls ltac:(lia)) _ _ _ EP)
      as (H1 & H2 & H3 & H4). exists c1, ls, c2. rewrite H1. split; [done|]. split; [lia|].
    split; [done|]. by rewrite H4.
Qed.

Lemma heap_entry_slot c r x : (r, x) ∈ heap_entries c → 0 ≤ SlotNum r ∧ heap_slot c r (Some x).
Proof.
  assert (HA : ∀ r x l', heap_entries c = (r, x) :: l' → at_entry c r x l') by (intros r0 x0 l0; apply at_entry_head).
  revert HA. generalize (heap_entries c) as l. induction l as [|[r0 x0] l IH]; intros HA Hin; [by apply elem_of_nil in Hin|].
  apply elem_of_cons in Hin as [[= -> ->]|Hin]; [by eapply at_entry_slot, HA|].
  apply IH; [|done]. intros r1 x1 l1 ->. by eapply at_entry_next, HA.
Qed.

(** ** Reading *)
Section reading.
Context {R : Type} `{Replacer R}.
Implicit Types (e : Engine R).

(** What reading does to the transaction and the lock tables: what is or could be locked
    for writing still is or can be. *)
Record read_step e e' : Prop := {
  rs_id : txn_id (etxn e') = txn_id (etxn e);
  rs_writes : write_set (etxn e') = write_set (etxn e);
  rs_prev : prev_lsn (etxn e') = prev_lsn (etxn e);
  rs_exclusive : exclusive_lock_table (elocks e') = exclusive_lock_table (elocks e);
  rs_logging : elogging e' = elogging e;
  rs_log : log_same (estore e) (estore e');
  rs_next : nextPageID (diskManager (estore e')) = nextPageID (diskManager (estore e));
  rs_own : ∀ r, locked_own r (etxn e) → locked_own r (etxn e');
  rs_writable : ∀ r, writable r (etxn e) (elocks e) → writable r (etxn e') (elocks e')
}.

Lemma read_step_refl e : read_step e e.
Proof. by split. Qed.

Lemma read_step_trans e1 e2 e3 : read_step e1 e2 → read_step e2 e3 → read_step e1 e3.
Proof. intros [] []. split; try congruence; [by eapply log_same_trans|eauto|eauto]. Qed.

Lemma same_txn_read e e' : same_txn e e' → read_step e e'.
Proof. intros [[H1 H2 H3 H4] H5]. split; rewrite ?H1, ?H2; done. Qed.

(** Nobody else has the exclusive lock on the record. *)
Definition readable (r : RID) e : Prop := unowned r (etxn e) (elocks e).

Lemma readable_step r e e' : read_step e e' → readable r e → readable r e'.
Proof. intros []. by apply unowned_step. Qed.

Lemma readable_lock r e :
  readable r e → ∃ t' lm', read_lock r (etxn e) (elocks e) = Ok (true, t', lm') ∧
    txn_id t' = txn_id (etxn e) ∧ write_set t' = write_set (etxn e) ∧ prev_lsn t' = prev_lsn (etxn e) ∧
    txn_state t' = txn_state (etxn e) ∧ exclusive_lock_table lm' = exclusive_lock_table (elocks e).
Proof.
  intros HR. unfold read_lock. destruct (IsSharedLocked _ _); [by eexists _, _|].
  destruct (IsExclusiveLocked _ _); [by eexists _, _|]. unfold LockShared.
  destruct (exclusive_lock_table (elocks e) !! r) as [u|] eqn:EX.
  { rewrite (HR u EX), Z.eqb_refl. by eexists _, _. }
  destruct (shared_lock_table (elocks e) !! r) as [arr|]; [|by eexists _, _].
  destruct (isContainTxnID arr _); by eexists _, _.
Qed.

(** A page operation that only reads. *)
Lemma on_page_reads {A} e pid f p pg (m : st TPState A) a s' tx lm :
  cached (estore e) pid f p pg → m (tp_state e pg) = Ok (a, s') → tpage s' = pg →
  tlog s' = Some (get_log (estore e)) → ttxn s' = Some tx → tlocks s' = Some lm →
  on_page p m e = Ok (a, MkEngine (estore e) lm tx (elogging e)).
Proof.
  intros (_ & _ & _ & HO) E Hp Hl Ht Hlm. unfold on_page. rewrite HO. mred. rewrite E. mred.
  rewrite Ht, Hlm, Hl, Hp. cbn. rewrite insert_id by done. by destruct e as [[] ? ? ?].
Qed.

(** The pages of a table are none of those changed. *)
Definition clean (D : gset Z) (c : list (Z * slots)) : Prop := ∀ q, q ∈ c.*1 → q ∉ D.

Lemma clean_nothing c : clean ∅ c.
Proof. intros q _. apply not_elem_of_empty. Qed.
#[local] Hint Resolve clean_nothing : core.
Lemma clean_slot D c r x : clean D c → heap_slot c r x → PageId r ∉ D.
Proof. intros HD (i & ls & Hi & _). apply HD. apply list_elem_of_fmap. exists (PageId r, ls). split; [done|]. by eapply list_elem_of_lookup_2. Qed.
Lemma clean_tail D x c : clean D (x :: c) → clean D c.
Proof. intros HD q Hq. apply HD. by right. Qed.
Lemma clean_head D q ls c : clean D ((q, ls) :: c) → q ∉ D.
Proof. intros HD. apply HD. by left. Qed.
Lemma without_absent (D : gset Z) q : q ∉ D → D ∖ {[q]} = D.
Proof. set_solver. Qed.

(** Fetch, latch for reading, read, unlatch, unpin. *)
Lemma read_session {A} e n D P pins pid d (m : st TPState A) a tx lm :
  shows (estore e) n (leaky D P pins) → P !! pid = Some d → GetTablePageId d = pid → room n pins pid → pid ∉ D →
  (∀ e2 pg, same_txn e e2 → pdata pg = d → ∃ s', m (tp_state e2 pg) = Ok (a, s') ∧ tpage s' = pg ∧
     tlog s' = Some (get_log (estore e2)) ∧ ttxn s' = Some tx ∧ tlocks s' = Some lm) →
  ∃ p pg e1 e2 e3 e4 e5, fetch_table_page pid e = Ok (p, e1) ∧
    with_store (read_page p) e1 = Ok (pg, e1) ∧ id pg = pid ∧ page_latch p RLatch e1 = Ok (tt, e2) ∧
    on_page p m e2 = Ok (a, e3) ∧ page_latch p RUnlatch e3 = Ok (tt, e4) ∧
    with_store (UnpinPage pid false) e4 = Ok (true, e5) ∧ shows (estore e5) n (leaky D P pins) ∧
    etxn e5 = tx ∧ elocks e5 = lm ∧ elogging e5 = elogging e ∧ log_same (estore e) (estore e5) ∧
    nextPageID (diskManager (estore e5)) = nextPageID (diskManager (estore e)) ∧
    keeps_held (estore e) (estore e5) (leaky D P pins).
Proof.
  intros S HP HI [HRm1 HRm2] HD HM. pose proof (shows_pins _ _ _ S) as HPp. cbn in HPp.
  destruct (fetch_run e n (leaky D P pins) pid d S HP HRm1 HRm2) as (p & e1 & _ & E1 & S1 & Hh1 & HK1 & ST1);
    [intros i [l Hl]; cbn in Hl; by rewrite lookup_empty in Hl|]. rewrite vheld_pin_leaky in S1.
  destruct (held_object _ _ _ _ _ _ S1 Hh1 HP) as (f1 & pg1 & C1 & HO1 & Hid1 & _).
  destruct (page_acquire e1 n _ pid p RLock rlatched S1 Hh1) as (e2 & E2 & S2 & ST2 & HK2);
    [unfold vlatch_of; cbn; by rewrite lookup_empty|done|].
  destruct (held_object _ _ _ _ _ _ S2 (HK2 _ _ Hh1) HP) as (f & pg & C & HO & _ & Hd & _).
  pose proof (same_txn_trans _ _ _ ST1 ST2) as ST12.
  destruct (HM e2 pg ST12 Hd) as (s' & Em & Hpg & Hl & Ht & Hlm).
  pose proof (on_page_reads e2 pid f p pg m a s' tx lm C Em Hpg Hl Ht Hlm) as E3.
  set (e3 := MkEngine (estore e2) lm tx (elogging e2)) in E3.
  destruct (page_release e3 n _ pid p RUnlock rlatched S2 (HK2 _ _ Hh1)) as (e4 & E4 & S4 & ST4 & HK4);
    [unfold vlatch_of; cbn; by rewrite lookup_insert_eq|done|].
  assert (S4' : shows (estore e4) n (vheld P pins D ∅ pid)).
  { unfold vunlatch, vlatch, vheld in S4 |- *. cbn in S4. by rewrite delete_insert_id in S4 by apply lookup_empty. }
  destruct (unpin_run e4 n _ pid false S4' (vheld_pinned _ _ _ _ _)) as (e5 & E5 & S5 & HK5 & ST5);
    [right; cbn; set_solver|]. rewrite vunpin_vheld in S5 by done.
  rewrite (without_absent D pid HD) in S5.
  exists p, pg1, e1, e2, e3, e4, e5. split; [done|]. split.
  { rewrite (with_store_run _ _ _ _ (read_page_run _ _ _ HO1)). by destruct e1. }
  split; [done|]. split; [done|]. split; [done|]. split; [done|]. split; [done|]. split; [done|].
  pose proof (txn_kept_trans _ _ _ (st_kept _ _ ST4) (st_kept _ _ ST5)) as [K1 K2 K3 K4].
  split; [done|]. split; [done|]. split.
  { rewrite K3. apply (tk_logging _ _ (st_kept _ _ ST12)). }
  split; [eapply log_same_trans; [apply (tk_log _ _ (st_kept _ _ ST12))|exact K4]|].
  split; [by rewrite (st_next _ _ ST5), (st_next _ _ ST4); cbn; rewrite (st_next _ _ ST12)|].
  intros i p' [k Hk] Hi. apply HK5; [|by apply HK4, HK2, HK1].
  cbn in Hk |- *. destruct (decide (i = pid)) as [->|Hne];
    [by rewrite lookup_insert_eq|by rewrite lookup_insert_ne by done].
Qed.

(** [GetTuple] of an occupied record. *)
Lemma GetTuple_run e n D P pins t c r b bs :
  shows (estore e) n (leaky D P pins) → heap_rep P t c → heap_slot c r (Some (b, bs)) →
  0 ≤ SlotNum r → room n pins (PageId r) → readable r e → clean D c →
  ∃ e', GetTuple t r e = Ok ((if b then None else Some (stored_tuple r bs)), e') ∧
    shows (estore e') n (leaky D P pins) ∧ read_step e e' ∧
    txn_state (etxn e') = (if b && elogging e then ABORTED else txn_state (etxn e)) ∧
    keeps_held (estore e) (estore e') (leaky D P pins).
Proof.
  intros S HR HS H0 HRm Hrd HCl. destruct (readable_lock r e Hrd) as (t' & lm' & EL & L1 & L2 & L3 & L4 & L5).
  destruct (heap_slot_page P t c r _ HR HS) as (Hin & d & HP & W & HI & HSl & _).
  set (e0 := MkEngine (estore e) lm' t' (elogging e)).
  set (tx := if b && elogging e then SetState ABORTED t' else t').
  destruct (read_session e0 n D P pins (PageId r) d (TablePage.GetTuple r)
    (if b then None else Some (stored_tuple r bs)) tx lm' S HP HI HRm (clean_slot _ _ _ _ HCl HS))
    as (p & pg & e1 & e2 & e3 & e4 & e5 & E1 & E1' & Hid & E2 & E3 & E4 & E5 & S5 & Ht & Hlm & HE & HLg & HNx & HK).
  { intros e2 pg ST Hpg. assert (Hb : bytes (tp_state e2 pg) = d) by done.
    pose proof (tk_txn _ _ (st_kept _ _ ST)) as Kt. pose proof (tk_locks _ _ (st_kept _ _ ST)) as Kl.
    pose proof (tk_logging _ _ (st_kept _ _ ST)) as Kg. cbn in Kt, Kl, Kg. destruct b.
    - destruct (dead_slot_run (tp_state e2 pg) r example_tuple None None ZeroTuple) as (s' & HA & Em & _);
        rewrite ?Hb; [done|done|done|intros _; cbn; by rewrite Kt|by rewrite HSl|].
      exists s'. split; [exact Em|]. unfold aborted in HA. cbn [EnableLogging tp_state] in HA.
      unfold tx. cbn [andb]. rewrite <- Kg. destruct (elogging e2).
      + destruct HA as (t0 & Et0 & ->). injection Et0 as <-. cbn. by rewrite Kt, Kl.
      + rewrite HA. cbn. by rewrite Kt, Kl.
    - exists (tp_state e2 pg). split; [|by cbn; rewrite Kt, Kl].
      apply get_tuple_locked; rewrite ?Hb; [done|done|done|]. intros _.
      exists (etxn e2), (elocks e2). split; [done|]. split; [done|]. rewrite Kt, Kl.
      by eapply read_lock_again. }
  exists e5. split; [|split; [done|split; [|split; [|exact HK]]]].
  - unfold GetTuple. estep (eq_refl : st_get e = Ok (e, e)).
    assert (ELk : (if IsSharedLocked (etxn e) r then mret true
            else if IsExclusiveLocked (etxn e) r then mret true else lock_shared r) e = Ok (true, e0)).
    { unfold read_lock in EL. unfold e0. destruct (IsSharedLocked _ _); [injection EL as <- <-; by destruct e|].
      destruct (IsExclusiveLocked _ _); [injection EL as <- <-; by destruct e|].
      injection EL as EL. unfold lock_shared. by rewrite EL. }
    estep ELk. estep E1. estep E1'. estep E2. estep E3. estep E4. rewrite Hid. by estep E5.
  - assert (Hsets : shared_lock_set (etxn e5) = shared_lock_set t' ∧ exclusive_lock_set (etxn e5) = exclusive_lock_set t')
      by (rewrite Ht; unfold tx; by destruct (b && _)). destruct Hsets as [Hs1 Hs2].
    split; [rewrite Ht; unfold tx; by destruct (b && _)|rewrite Ht; unfold tx; by destruct (b && _)|rewrite Ht; unfold tx; by destruct (b && _)|by rewrite Hlm|done|done|done| |];
      intros r0; destruct (read_lock_keeps r _ _ t' lm' r0 Hrd EL) as [K1 K2].
    + intros Ho. by eapply locked_own_same, K1.
    + intros Hw. rewrite Hlm. by eapply writable_same, K2.
  - rewrite Ht. unfold tx. by destruct (b && _).
Qed.
End reading.

(** ** The loops *)
Section loops.
Context {R : Type} `{Replacer R}.
Implicit Types (e : Engine R).

Lemma chain_cons P pid q ls c :
  chain P pid ((q, ls) :: c) →
  pid = q ∧ page_in_range q ∧ ∃ d next, P !! q = Some d ∧ page_is d q ls next ∧ chain P next c.
Proof. done. Qed.

(** A page has fewer slots than [PageSize]. *)
Lemma page_slots d q ls next : page_is d q ls next → Z.of_nat (length ls) < PageSize.
Proof.
  intros [W C _ _]. pose proof (contents_length d) as HL. rewrite C in HL.
  pose proof (free_space_range d W) as HF. rewrite C in HF. unfold free_space, total in HF. zsolve.
Qed.

Lemma first_rid_run d q ls next :
  page_is d q ls next → GetTupleFirstRID d = Ok (fst <$> hd_error (page_entries q 0 ls)).
Proof.
  intros [W C I N]. change (GetTupleFirstRID d) with (GetNextTupleRID (MkRID 0 0) true d).
  rewrite next_rid_run by (done || (cbn; lia)). rewrite I, C.
  f_equal. exact (proj1 (first_entry q 0 ls ltac:(lia))).
Qed.

Lemma next_rid_first d q ls next r :
  page_is d q ls next → 0 ≤ SlotNum r < PageSize →
  GetNextTupleRID r true d = Ok (fst <$> hd_error (page_entries q 0 ls)).
Proof.
  intros HI Hr. rewrite <- (first_rid_run d q ls next HI). destruct HI as [W C I N].
  change (GetTupleFirstRID d) with (GetNextTupleRID (MkRID 0 0) true d).
  by rewrite !next_rid_run by (done || (cbn; lia)).
Qed.

Lemma next_rid_here d q ls next r :
  page_is d q ls next → 0 ≤ SlotNum r < PageSize →
  GetNextTupleRID r false d =
    Ok (fst <$> hd_error (page_entries q (SlotNum r + 1) (drop (Z.to_nat (SlotNum r + 1)) ls))).
Proof.
  intros [W C I N] Hr. rewrite next_rid_run by done. rewrite I, C.
  rewrite Z2Nat.id by lia. f_equal. exact (proj1 (first_entry q (SlotNum r + 1) ls ltac:(lia))).
Qed.

(** [GetFirstTuple] finds the first entry of the chain. *)
Lemma first_loop_run e n D P pins pid c fuel :
  shows (estore e) n (leaky D P pins) → frames_for 1 n pins → chain P pid c → (length c ≤ fuel)%nat → clean D c →
  ∃ e', first_loop fuel pid e = Ok (fst <$> hd_error (heap_entries c), e') ∧
    shows (estore e') n (leaky D P pins) ∧ same_txn e e'.
Proof.
  revert e pid fuel. induction c as [|[q ls] c IH]; intros e pid fuel S HF HC Hfu HCl.
  { cbn in HC. subst pid. exists e. split; [by destruct fuel|]. split; [done|apply same_txn_refl]. }
  apply chain_cons in HC as (-> & HRq & d & next & HP & HI & HC). destruct fuel as [|fuel]; [cbn in Hfu; lia|].
  pose proof (shows_pins _ _ _ S) as HPp. cbn in HPp.
  destruct (open_dirty e n P pins D q d S HP) as (p & e1 & _ & E1 & S1 & Hh1 & ST1);
    [by eapply (frames_room 1); [lia|]|].
  destruct (page_acquire e1 n _ q p RLock rlatched S1 Hh1) as (e2 & E2 & S2 & ST2 & HK2);
    [unfold vlatch_of; cbn; by rewrite lookup_empty|done|]. pose proof (HK2 _ _ Hh1) as Hh2.
  pose proof (page_read_run e2 n _ q p d GetTupleFirstRID _ S2 Hh2 HP (first_rid_run _ _ _ _ HI)) as E3.
  change (vlatch q rlatched (vheld P pins D ∅ q)) with (vheld P pins D (<[q := rlatched]> ∅) q) in S2.
  destruct (unpin_run e2 n _ q false S2 (vheld_pinned _ _ _ _ _)) as (e4 & E4 & S4 & HK4 & ST4);
    [right; cbn; set_solver|]. rewrite vunpin_vheld in S4 by done.
  pose proof (HK4 _ _ (vheld_pinned _ _ _ _ _) Hh2) as Hh4.
  pose proof (page_read_run e4 n _ q p d GetNextPageId _ S4 Hh4 HP (pg_next _ _ _ _ HI)) as E5.
  destruct (page_release e4 n _ q p RUnlock rlatched S4 Hh4) as (e6 & E6 & S6 & ST6 & _);
    [unfold vlatch_of; cbn; by rewrite lookup_insert_eq|done|].
  assert (S6' : shows (estore e6) n (leaky D P pins)).
  { unfold vunlatch, leaky in S6 |- *. cbn in S6. rewrite delete_insert_id in S6 by apply lookup_empty.
    by rewrite (without_absent D q (clean_head _ _ _ _ HCl)) in S6. }
  assert (ST : same_txn e e6).
  { eapply same_txn_trans; [exact ST1|]. eapply same_txn_trans; [exact ST2|].
    by eapply same_txn_trans; [exact ST4|]. }
  cbn [first_loop]. rewrite (proj1 (in_range_valid q HRq)). cbn [heap_entries].
  destruct (page_entries q 0 ls) as [|[r x] l] eqn:EP; cbn in E3.
  - destruct (IH e6 next fuel S6' HF HC ltac:(cbn in Hfu; lia) (clean_tail _ _ _ HCl)) as (e7 & E7 & S7 & ST7).
    exists e7. split; [|split; [done|by eapply same_txn_trans]].
    estep E1. estep E2. estep E3. estep E4. estep E5. by estep E6.
  - exists e6. split; [|done]. estep E1. estep E2. estep E3. estep E4. by estep E6.
Qed.

(** Going to the next page: it is fetched before the current one is given back. *)
Lemma next_page e n D P pins q p d ls next d2 :
  shows (estore e) n (vlatch q rlatched (vheld P pins D ∅ q)) → held (estore e) q p →
  P !! q = Some d → page_is d q ls next → P !! next = Some d2 → next ≠ q → pins_pos pins →
  frames_for 2 n pins → q ∉ D →
  ∃ p2 e1 e2 e3 e4, fetch_table_page next e = Ok (p2, e1) ∧ page_latch p RUnlatch e1 = Ok (tt, e2) ∧
    unpin_table_page p false e2 = Ok (tt, e3) ∧ page_latch p2 RLatch e3 = Ok (tt, e4) ∧
    shows (estore e4) n (vlatch next rlatched (vheld P pins D ∅ next)) ∧ held (estore e4) next p2 ∧
    same_txn e e4 ∧ keeps_held (estore e) (estore e4) (leaky D P pins).
Proof.
  intros S Hh HP HI HP2 Hne HPp HF HD. set (v := vlatch q rlatched (vheld P pins D ∅ q)) in *.
  assert (Hc : vpin_count next v = default 0 (pins !! next))
    by (unfold vpin_count; cbn; by rewrite lookup_insert_ne).
  destruct (fetch_run e n v next d2 S HP2) as (p2 & e1 & _ & E1 & S1 & Hh1 & HK1 & ST1).
  { right. pose proof (frames_held 1 n P pins q HF) as Hs. cbn in Hs |- *. lia. }
  { rewrite Hc. destruct (pins !! next) as [i|] eqn:Ei; cbn; [|lia].
    destruct HF as [_ HF]. specialize (HF _ _ Ei). lia. }
  { intros i [l Hl]. cbn in Hl. apply lookup_insert_Some in Hl as [[<- _]|[_ Hl]]; [apply vheld_pinned|].
    by rewrite lookup_empty in Hl. }
  pose proof (HK1 _ _ (vheld_pinned _ _ _ _ _) Hh) as Hhq1.
  destruct (page_release e1 n _ q p RUnlock rlatched S1 Hhq1) as (e2 & E2 & S2 & ST2 & HK2);
    [unfold vlatch_of; cbn; by rewrite lookup_insert_eq|done|].
  set (pins' := <[next := default 0 (pins !! next) + 1]> pins).
  assert (S2' : shows (estore e2) n (vheld P pins' D ∅ q)).
  { unfold vunlatch, vpin, vheld in S2 |- *. rewrite Hc in S2. unfold pins'. cbn in S2.
    rewrite delete_insert_id in S2 by apply lookup_empty.
    rewrite lookup_insert_ne by done. by rewrite insert_insert_ne. }
  assert (HPp' : pins_pos pins').
  { intros i k Hk. unfold pins' in Hk. apply lookup_insert_Some in Hk as [[_ <-]|[_ Hk]]; [|by eapply HPp].
    destruct (pins !! next) as [j|] eqn:Ej; cbn; [pose proof (HPp _ _ Ej)|]; lia. }
  destruct (unpin_table_page_run e2 n _ q p d false S2' (HK2 _ _ Hhq1) HP (pg_id _ _ _ _ HI)
    (vheld_pinned _ _ _ _ _)) as (e3 & E3 & S3 & HK3 & ST3); [right; cbn; set_solver|].
  rewrite vunpin_vheld in S3 by done.
  assert (Hp2 : held (estore e3) next p2).
  { apply HK3; [|by apply HK2]. cbn. unfold pins'. rewrite lookup_insert_ne by done.
    by rewrite lookup_insert_eq. }
  assert (S3' : shows (estore e3) n (vheld P pins D ∅ next)).
  { unfold vheld. by rewrite (without_absent D q HD) in S3. }
  destruct (page_acquire e3 n _ next p2 RLock rlatched S3' Hp2) as (e4 & E4 & S4 & ST4 & HK4);
    [unfold vlatch_of; cbn; by rewrite lookup_empty|done|].
  exists p2, e1, e2, e3, e4. repeat (split; [done|]). split; [by apply HK4|]. split.
  - eapply same_txn_trans; [exact ST1|]. eapply same_txn_trans; [exact ST2|].
    by eapply same_txn_trans; [exact ST3|].
  - eapply keeps_held_trans; [eapply keeps_held_fewer; [|exact HK1]; apply vheld_dom|].
    eapply keeps_held_trans; [apply keeps_held_all, HK2|]. eapply keeps_held_trans; [|apply keeps_held_all, HK4].
    eapply keeps_held_fewer; [|exact HK3]. cbn. unfold pins'. rewrite !dom_insert. set_solver.
Qed.

(** The loop of [Next] over the pages that follow. *)
Lemma next_loop_run e n D P pins q p d ls next c r fuel :
  shows (estore e) n (vlatch q rlatched (vheld P pins D ∅ q)) → held (estore e) q p →
  P !! q = Some d → page_is d q ls next → chain P next c → NoDup (q :: c.*1) → pins_pos pins →
  frames_for 2 n pins → 0 ≤ SlotNum r < PageSize → (length c ≤ fuel)%nat → q ∉ D → clean D c →
  ∃ p' e' q' d' ls' next' , next_loop fuel p r e = Ok ((p', fst <$> hd_error (heap_entries c)), e') ∧
    shows (estore e') n (vlatch q' rlatched (vheld P pins D ∅ q')) ∧ held (estore e') q' p' ∧
    P !! q' = Some d' ∧ page_is d' q' ls' next' ∧ same_txn e e' ∧
    (∀ r' x l, heap_entries c = (r', x) :: l → PageId r' = q') ∧ (q' ∉ D) ∧ keeps_held (estore e) (estore e') (leaky D P pins).
Proof.
  revert e q p d ls next fuel.
  induction c as [|[q2 ls2] c IH]; intros e q p d ls next fuel S Hh HP HI HC ND HPp HF Hr Hfu HD HCl.
  { cbn in HC. subst next. exists p, e, q, d, ls, InvalidPageID. split; [|split; [done|]; split; [done|]; split; [done|]; split; [done|]; split; [apply same_txn_refl|]; split; [done|]; split; [done|by apply keeps_held_all]].
    destruct fuel; cbn [next_loop];
      by estep (page_read_run e n _ q p d GetNextPageId _ S Hh HP (pg_next _ _ _ _ HI)). }
  apply chain_cons in HC as (-> & HR2 & d2 & next2 & HP2 & HI2 & HC).
  destruct fuel as [|fuel]; [cbn in Hfu; lia|].
  pose proof ND as [Hq ND2]%NoDup_cons. assert (Hne : q2 ≠ q) by (intros ->; apply Hq; by left).
  destruct (next_page e n D P pins q p d ls q2 d2 S Hh HP HI HP2 Hne HPp HF HD)
    as (p2 & e1 & e2 & e3 & e4 & E1 & E2 & E3 & E4 & S4 & Hh4 & ST4 & HK4).
  pose proof (page_read_run e n _ q p d GetNextPageId _ S Hh HP (pg_next _ _ _ _ HI)) as E0.
  pose proof (page_read_run e4 n _ q2 p2 d2 (GetNextTupleRID r true) _ S4 Hh4 HP2
    (next_rid_first _ _ _ _ r HI2 Hr)) as E5.
  cbn [next_loop]. estep E0. rewrite (proj1 (in_range_valid q2 HR2)). estep E1. estep E2. estep E3. estep E4. estep E5.
  cbn [heap_entries]. destruct (page_entries q2 0 ls2) as [|[r' x] l] eqn:EP; cbn [hd_error fmap option_fmap option_map app fst].
  - destruct (IH e4 q2 p2 d2 ls2 next2 fuel S4 Hh4 HP2 HI2 HC ND2 HPp HF Hr ltac:(cbn in Hfu; lia) (clean_head _ _ _ _ HCl) (clean_tail _ _ _ HCl))
      as (p' & e' & q' & d' & ls' & next' & E & S' & Hh' & HP' & HI' & ST' & HA & HDq & HK').
    exists p', e', q', d', ls', next'. split; [done|]. split; [done|]. split; [done|]. split; [done|].
    split; [done|]. split; [by eapply same_txn_trans|]. split; [exact HA|]. split; [done|by eapply keeps_held_trans].
  - exists p2, e4, q2, d2, ls2, next2. split; [done|]. split; [done|]. split; [done|]. split; [done|].
    split; [done|]. split; [done|]. split; [|split; [by eapply clean_head|done]]. intros r'' x'' l'' [= <- <- <-].
    by destruct (proj2 (first_entry q2 0 ls2 ltac:(lia)) r' x l EP).
Qed.

(** [Next] of an iterator on an entry. *)
Definition shown (l : list entry) : option Tuple :=
  match l with (r, (false, bs)) :: _ => Some (stored_tuple r bs) | _ => None end.
Definition stopped (l : list entry) : bool :=
  match l with (_, (b, _)) :: _ => b | [] => false end.

(** The tail of [Next]: the page of the entry found is still pinned. *)
Lemma next_tail e n D P pins t c q p d ls next l :
  shows (estore e) n (vlatch q rlatched (vheld P pins D ∅ q)) → heap_rep P t c → pins_pos pins →
  frames_for 2 n pins → held (estore e) q p → P !! q = Some d → page_is d q ls next →
  (∀ r x l', l = (r, x) :: l' → PageId r = q ∧ at_entry c r x l' ∧ readable r e) → q ∉ D → clean D c →
  ∃ e1 e2 e3, page_latch p RUnlatch e = Ok (tt, e1) ∧
    (match fst <$> hd_error l with
     | Some r => if IsValid (PageId r) then GetTuple t r else mret None
     | None => mret None
     end) e1 = Ok (shown l, e2) ∧ unpin_table_page p false e2 = Ok (tt, e3) ∧
    shows (estore e3) n (leaky D P pins) ∧ read_step e e3 ∧
    txn_state (etxn e3) = (if stopped l && elogging e then ABORTED else txn_state (etxn e)) ∧
    keeps_held (estore e) (estore e3) (leaky D P pins).
Proof.
  intros S HR HPp HF Hh HP HI HL HD HCl.
  destruct (page_release e n _ q p RUnlock rlatched S Hh) as (e1 & E1 & S1 & ST1 & HK1);
    [unfold vlatch_of; cbn; by rewrite lookup_insert_eq|done|].
  set (pins' := <[q := default 0 (pins !! q) + 1]> pins).
  assert (S1' : shows (estore e1) n (leaky D P pins')).
  { unfold vunlatch, vlatch, vheld, leaky in S1 |- *. cbn in S1. by rewrite delete_insert_id in S1 by apply lookup_empty. }
  assert (HM : ∃ e2, (match fst <$> hd_error l with
     | Some r => if IsValid (PageId r) then GetTuple t r else mret None
     | None => mret None
     end) e1 = Ok (shown l, e2) ∧ shows (estore e2) n (leaky D P pins') ∧ read_step e1 e2 ∧
     txn_state (etxn e2) = (if stopped l && elogging e then ABORTED else txn_state (etxn e)) ∧
     keeps_held (estore e1) (estore e2) (leaky D P pins')).
  { destruct l as [|[r [b bs]] l']; cbn [hd_error fmap option_fmap option_map fst].
    { exists e1. split; [done|]. split; [done|]. split; [apply read_step_refl|]. split; [|by intros i ? _ Hi].
      by rewrite (tk_txn _ _ (st_kept _ _ ST1)). }
    destruct (HL r (b, bs) l' eq_refl) as (Hq & HA & Hrd). destruct (at_entry_slot _ _ _ _ HA) as [H0 HS].
    destruct (heap_slot_page P t c r _ HR HS) as (HRq & _). rewrite (proj1 (in_range_valid _ HRq)).
    destruct (GetTuple_run e1 n D P pins' t c r b bs S1' HR HS H0) as (e2 & E2 & S2 & RS & Hx & HK).
    - rewrite Hq. unfold pins'. split; [left; by rewrite lookup_insert_eq|]. rewrite lookup_insert_eq.
      destruct HF as [_ HF]. destruct (pins !! q) as [k|] eqn:Ek; cbn; [pose proof (HF _ _ Ek)|]; lia.
    - by eapply readable_step; [apply same_txn_read|].
    - done.
    - exists e2. split; [exact E2|]. split; [done|]. split; [done|]. split; [|done].
      rewrite Hx, (tk_logging _ _ (st_kept _ _ ST1)), (tk_txn _ _ (st_kept _ _ ST1)). done. }
  destruct HM as (e2 & E2 & S2 & RS & Hx & HK2).
  assert (Hq' : is_Some (pins' !! q)) by (unfold pins'; by rewrite lookup_insert_eq).
  destruct (unpin_table_page_run e2 n (leaky D P pins') q p d false S2 (HK2 _ _ Hq' (HK1 _ _ Hh)) HP
    (pg_id _ _ _ _ HI) Hq') as (e3 & E3 & S3 & HK3 & ST3); [right; cbn; set_solver|].
  change (leaky D P pins') with (vheld P pins D ∅ q) in S3. rewrite vunpin_vheld in S3 by done.
  rewrite (without_absent D q HD) in S3.
  exists e1, e2, e3. split; [done|]. split; [done|]. split; [done|]. split; [done|]. split.
  - eapply read_step_trans; [by apply same_txn_read|]. eapply read_step_trans; [done|by apply same_txn_read].
  - split; [by rewrite (tk_txn _ _ (st_kept _ _ ST3))|]. eapply keeps_held_trans; [apply keeps_held_all, HK1|].
    apply (keeps_held_fewer _ _ _ (leaky D P pins')); [unfold pins'; cbn; rewrite dom_insert; set_solver|]. by eapply keeps_held_trans.
Qed.

Lemma Next_run e n D P pins t c r b bs l fuel :
  shows (estore e) n (leaky D P pins) → heap_rep P t c → at_entry c r (b, bs) l →
  frames_for 2 n pins → (∀ r' x l', l = (r', x) :: l' → readable r' e) → (length c ≤ fuel)%nat → clean D c →
  ∃ e', Next fuel (MkIterator t (Some (stored_tuple r bs))) e = Ok (MkIterator t (shown l), e') ∧
    shows (estore e') n (leaky D P pins) ∧ read_step e e' ∧
    txn_state (etxn e') = (if stopped l && elogging e then ABORTED else txn_state (etxn e)) ∧
    keeps_held (estore e) (estore e') (leaky D P pins).
Proof.
  intros S HR HA HF HRd Hfu HCl. pose proof HA as (c1 & ls & c2 & Ec & Hk & Hx & El).
  pose proof (shows_pins _ _ _ S) as HPp. cbn in HPp. set (q := PageId r) in *.
  destruct (chain_page P (firstPageId t) c (length c1) q ls (hr_chain _ _ _ HR)) as (HRq & d & next & HP & HI & HC);
    [subst c; by rewrite list_lookup_middle|].
  assert (HC2 : chain P next c2).
  { rewrite Ec, drop_app_ge in HC by lia. by rewrite Nat.sub_succ_l, Nat.sub_diag in HC by lia. }
  assert (Hr : 0 ≤ SlotNum r < PageSize).
  { pose proof (page_count d (pg_wf _ _ _ _ HI)) as HN. rewrite (pg_contents _ _ _ _ HI) in HN. lia. }
  destruct (open_kept e n P pins D q d S HP) as (p & e1 & _ & E1 & S1 & Hh1 & HK1 & ST1);
    [by eapply (frames_room 2); [lia|]|].
  destruct (page_acquire e1 n _ q p RLock rlatched S1 Hh1) as (e2 & E2 & S2 & ST2 & HK2);
    [unfold vlatch_of; cbn; by rewrite lookup_empty|done|]. pose proof (HK2 _ _ Hh1) as Hh2.
  pose proof (page_read_run e2 n _ q p d (GetNextTupleRID r false) _ S2 Hh2 HP
    (next_rid_here _ _ _ _ r HI Hr)) as E3. pose proof (same_txn_trans _ _ _ ST1 ST2) as ST12.
  assert (HDq : (q ∉ D) ∧ clean D c2).
  { split; [|intros q0 Hq0]; apply HCl; rewrite Ec, fmap_app, elem_of_app; right; [by left|by right]. }
  destruct HDq as [HDq HD2].
  assert (HM : ∃ p' e3 q' d' ls' next',
    (match fst <$> hd_error (page_entries q (SlotNum r + 1) (drop (Z.to_nat (SlotNum r + 1)) ls)) with
     | Some r' => mret (p, Some r')
     | None => next_loop fuel p r
     end) e2 = Ok ((p', fst <$> hd_error l), e3) ∧
    shows (estore e3) n (vlatch q' rlatched (vheld P pins D ∅ q')) ∧ held (estore e3) q' p' ∧
    P !! q' = Some d' ∧ page_is d' q' ls' next' ∧ same_txn e2 e3 ∧
    (∀ r' x l', l = (r', x) :: l' → PageId r' = q') ∧ (q' ∉ D) ∧ keeps_held (estore e2) (estore e3) (leaky D P pins)).
  { rewrite El. destruct (page_entries q _ _) as [|[r' x] l0] eqn:EP; cbn [hd_error fmap option_fmap option_map fst app].
    - apply (next_loop_run e2 n D P pins q p d ls next c2 r fuel); try done.
      + pose proof (hr_nodup _ _ _ HR) as ND. rewrite Ec, fmap_app in ND. by apply NoDup_app in ND as (_ & _ & ND).
      + rewrite Ec, length_app in Hfu. cbn in Hfu. lia.
    - exists p, e2, q, d, ls, next. split; [done|]. split; [done|]. split; [done|]. split; [done|].
      split; [done|]. split; [apply same_txn_refl|]. split; [|split; [done|by apply keeps_held_all]]. intros r'' x'' l'' [= <- <- <-].
      by destruct (proj2 (first_entry q (SlotNum r + 1) ls ltac:(lia)) r' x l0 EP). }
  destruct HM as (p' & e3 & q' & d' & ls' & next' & EM & S3 & Hh3 & HP' & HI' & ST3 & HQ & HDq' & HK3).
  pose proof (same_txn_trans _ _ _ ST12 ST3) as ST13.
  destruct (next_tail e3 n D P pins t c q' p' d' ls' next' l S3 HR HPp HF Hh3 HP' HI')
    as (e4 & e5 & e6 & E4 & E5 & E6 & S6 & RS & Hst & HK6).
  { intros r' x l' ->. split; [by eapply HQ|]. split; [by eapply at_entry_next|].
    eapply readable_step; [by apply same_txn_read|]. by eapply HRd. }
  { exact HDq'. }
  { done. }
  exists e6. split; [|split; [done|split]].
  - unfold Next. cbn [tuple tableHeap]. estep (st_lift_run (deref (Some (stored_tuple r bs))) _ e eq_refl).
    estep (st_lift_run (deref (rid (stored_tuple r bs))) r e eq_refl). estep E1. estep E2. estep E3.
    assert (EM' : (match fst <$> hd_error (page_entries q (SlotNum r + 1) (drop (Z.to_nat (SlotNum r + 1)) ls)) with
      | Some _ => mret (p, fst <$> hd_error (page_entries q (SlotNum r + 1) (drop (Z.to_nat (SlotNum r + 1)) ls)))
      | None => next_loop fuel p r
      end) e2 = Ok ((p', fst <$> hd_error l), e3)) by (rewrite <- EM; by destruct (fst <$> _)).
    estep EM'. cbn beta iota. estep E4. estep E5. by estep E6.
  - eapply read_step_trans; [by apply same_txn_read|done].
  - split; [by rewrite Hst, (tk_logging _ _ (st_kept _ _ ST13)), (tk_txn _ _ (st_kept _ _ ST13))|].
    eapply keeps_held_trans; [exact HK1|]. eapply keeps_held_trans; [apply keeps_held_all, HK2|]. by eapply keeps_held_trans.
Qed.

(** Some tuple the scan comes to is marked deleted. *)
Definition marked (l : list entry) : bool := existsb (λ x : entry, fst (snd x)) l.

Lemma readable_read_all l e e' :
  read_step e e' → Forall (λ x : entry, readable (fst x) e) l → Forall (λ x : entry, readable (fst x) e') l.
Proof. intros RS HF. eapply Forall_impl; [exact HF|]. intros x. by apply readable_step. Qed.

Lemma collect_run e0 n D P pins t c pages e l fuel :
  shows (estore e) n (leaky D P pins) → heap_rep P t c → frames_for 2 n pins → clean D c →
  (∀ r x l', l = (r, x) :: l' → at_entry c r x l') → Forall (λ x : entry, readable (fst x) e) l →
  (length c ≤ pages)%nat → (length l ≤ fuel)%nat → read_step e0 e →
  txn_state (etxn e) = (if stopped l && elogging e0 then ABORTED else txn_state (etxn e0)) →
  ∃ e', collect fuel pages (MkIterator t (shown l)) e = Ok (scan l, e') ∧
    shows (estore e') n (leaky D P pins) ∧ read_step e0 e' ∧
    txn_state (etxn e') = if marked l && elogging e0 then ABORTED else txn_state (etxn e0).
Proof.
  intros S HR HF HCl HA HRd Hpg. revert e fuel S HA HRd.
  induction l as [|[r [b bs]] l IH]; intros e fuel S HA HRd Hfu RS0 Hst.
  { exists e. by destruct fuel. }
  cbn [stopped] in Hst. destruct b.
  { exists e. by destruct fuel. }
  destruct fuel as [|fuel]; [cbn in Hfu; lia|]. apply Forall_cons in HRd as [_ HRd].
  destruct (Next_run e n D P pins t c r false bs l pages S HR (HA _ _ _ eq_refl) HF) as (e1 & E1 & S1 & RS1 & Hst1 & _); [|done|done|].
  { intros r' x l' ->. by apply Forall_cons in HRd as [? _]. }
  destruct (IH e1 fuel S1) as (e2 & E2 & S2 & RS2 & Hst2).
  - intros r' x l' ->. eapply at_entry_next, HA, eq_refl.
  - by eapply readable_read_all.
  - cbn in Hfu. lia.
  - by eapply read_step_trans.
  - rewrite Hst1, (rs_logging _ _ RS0), Hst. done.
  - exists e2. split; [|done]. cbn [shown collect Current tuple scan]. estep E1. by estep E2.
Qed.

(** The iterator starts on the first entry. *)
Lemma start_run e n D P pins t c pages :
  shows (estore e) n (leaky D P pins) → heap_rep P t c → frames_for 2 n pins →
  Forall (λ x : entry, readable (fst x) e) (heap_entries c) → (length c ≤ pages)%nat → clean D c →
  ∃ e', NewTableHeapIterator pages t e = Ok (MkIterator t (shown (heap_entries c)), e') ∧
    shows (estore e') n (leaky D P pins) ∧ read_step e e' ∧
    txn_state (etxn e') = if stopped (heap_entries c) && elogging e then ABORTED else txn_state (etxn e).
Proof.
  intros S HR HF HRd Hpg HCl. set (l := heap_entries c) in *.
  destruct (first_loop_run e n D P pins (firstPageId t) c pages S) as (e1 & E1 & S1 & ST1);
    [split; [destruct HF; lia|apply HF]|apply HR|done|done|]. fold l in E1.
  assert (HA : ∀ r x l', l = (r, x) :: l' → at_entry c r x l') by (intros r x l'; apply at_entry_head).
  assert (HG : ∃ e2, (match fst <$> hd_error l with None => mret None | Some r => GetTuple t r end) e1 =
      Ok (shown l, e2) ∧ shows (estore e2) n (leaky D P pins) ∧ read_step e e2 ∧
      txn_state (etxn e2) = if stopped l && elogging e then ABORTED else txn_state (etxn e)).
  { pose proof (tk_txn _ _ (st_kept _ _ ST1)) as Kt. pose proof (tk_logging _ _ (st_kept _ _ ST1)) as Kg.
    destruct l as [|[r [b bs]] l'].
    { exists e1. split; [done|]. split; [done|]. split; [by apply same_txn_read|]. by rewrite Kt. }
    destruct (at_entry_slot _ _ _ _ (HA _ _ _ eq_refl)) as [H0 HS].
    destruct (GetTuple_run e1 n D P pins t c r b bs S1 HR HS H0) as (e2 & E2 & S2 & RS & Hx & _).
    - by eapply (frames_room 2); [lia|].
    - apply Forall_cons in HRd as [Hr _]. by eapply readable_step; [apply same_txn_read|].
    - done.
    - exists e2. split; [exact E2|]. split; [done|]. split; [|by rewrite Hx, Kt, Kg].
      by eapply read_step_trans; [apply same_txn_read|]. }
  destruct HG as (e2 & E2 & S2 & RS2 & Hst2). exists e2. split; [|done].
  assert (EG : GetFirstTuple pages t e = Ok (shown l, e2)) by (unfold GetFirstTuple; estep E1; exact E2).
  unfold NewTableHeapIterator. by estep EG.
Qed.

(** C16: scanning a table: the iterator started on the table and run to its end
    returns the tuples of the table in the order of pages and slots, up to the
    first that is marked deleted; reading that one ends the iteration and, with
    logging on, aborts the transaction.  All records have to be free of other
    transactions' exclusive locks.  The scan takes a turn per page and per tuple,
    changes no page, leaves nothing pinned, logs nothing, and takes shared locks
    only. *)
Theorem scan_spec e n P pins t c fuel pages :
  shows (estore e) n (quiet P pins) → heap_rep P t c → frames_for 2 n pins →
  Forall (λ x : entry, readable (fst x) e) (heap_entries c) →
  (length c ≤ pages)%nat → (length (heap_entries c) ≤ fuel)%nat →
  ∃ e', (it ← NewTableHeapIterator pages t; collect fuel pages it) e = Ok (scan (heap_entries c), e') ∧
    shows (estore e') n (quiet P pins) ∧ read_step e e' ∧
    txn_state (etxn e') =
      if marked (heap_entries c) && elogging e then ABORTED else txn_state (etxn e).
Proof.
  intros S HR HF HRd Hpg Hfu. set (l := heap_entries c) in *.
  destruct (start_run e n ∅ P pins t c pages S HR HF HRd Hpg (clean_nothing c)) as (e2 & EN & S2 & RS2 & Hst2). fold l in EN, Hst2.
  assert (HA : ∀ r x l', l = (r, x) :: l' → at_entry c r x l') by (intros r x l'; apply at_entry_head).
  destruct (collect_run e n ∅ P pins t c pages e2 l fuel S2 HR HF (clean_nothing c) HA) as (e3 & E3 & S3 & RS3 & Hst3); try done.
  { by eapply readable_read_all. }
  exists e3. split; [|done]. by estep EN.
Qed.
End loops.

(** ** Concrete scans *)
Lemma scan_spec_witness :
  ∃ e', (it ← NewTableHeapIterator 1 table_0; collect 1 1 it) tuple_engine =
      Ok ([stored_tuple rid_00 [Byte.x61; Byte.x62]], e') ∧ txn_state (etxn e') = GROWING.
Proof.
  destruct tuple_engine_shows as (P & S & HR).
  destruct (scan_spec tuple_engine 2 P ∅ table_0 _ 1 1 S HR no_pins_frames) as (e' & E & _ & _ & Hst).
  - constructor; [|constructor]. intros u. vm_compute. by intros [= <-].
  - cbn. lia.
  - cbn. lia.
  - exists e'. split; [exact E|]. rewrite Hst. vm_compute. reflexivity.
Defined.

(** Of a table of two tuples, the first deleted by the scanning transaction
    itself, the scan returns none. *)
Definition two_engine : Engine ClockReplacer := engine_of (InsertTuple 2 table_0 example_tuple) tuple_engine.
Definition one_deleted : Engine ClockReplacer := engine_of (MarkDelete table_0 rid_00) two_engine.

Definition value_of {A} (m : st (Engine ClockReplacer) A) (e : Engine ClockReplacer) : option A :=
  match m e with Ok (a, _) => Some a | _ => None end.
Definition scan_0 : st (Engine ClockReplacer) (list Tuple) :=
  it ← NewTableHeapIterator 1 table_0; collect 2 1 it.

Lemma scan_misses_after_marked :
  value_of (MarkDelete table_0 rid_00) two_engine = Some true ∧
  value_of (GetTuple table_0 (MkRID 0 1)) one_deleted =
    Some (Some (stored_tuple (MkRID 0 1) [Byte.x61; Byte.x62])) ∧
  value_of scan_0 one_deleted = Some [] ∧ txn_state (etxn (engine_of scan_0 one_deleted)) = ABORTED.
Proof. split_and!; vm_compute; reflexivity. Qed.
