(* ===== verification/TransactionManager.v ===== *)
(** * Transactions from begin to end ([storage/access/transaction_manager.go])

    The transaction manager hands out transaction ids, writes BEGIN, COMMIT and
    ABORT records, performs the deletes of a transaction that commits and undoes
    the write set of one that aborts, and releases the locks.  Its latch is held
    for reading by every running transaction and for writing by a checkpoint. *)

From S2P Require Import Prelude Bytes Types Tuples Disk LogRecord LogManager ClockReplacer Replacer Page BufferPool LockManager PoolView TablePage Engine TableHeap.

(** [txn_map] maps ids to transaction objects; nobody reads it, so its keys are
    kept. *)
Record TransactionManager : Type := MkTransactionManager {
  next_txn_id : Z;
  global_txn_latch : Latch;
  txn_map : gset Z
}.

(** The manager and the engine of the transaction that calls it. *)
Record System (R : Type) : Type := MkSystem { manager : TransactionManager; engine : Engine R }.
Arguments MkSystem {R}.
Arguments manager {R}.
Arguments engine {R}.

Definition NewTransactionManager : TransactionManager := MkTransactionManager 0 NewRWLatch ∅.

Section manager.
Context {R : Type} `{Replacer R}.

Definition set_manager (m : TransactionManager) (s : System R) : System R := MkSystem m (engine s).
Definition set_engine (e : Engine R) (s : System R) : System R := MkSystem (manager s) e.
Definition with_engine {A} (m : st (Engine R) A) : st (System R) A := zoom engine set_engine m.

(** The global latch. *)
Definition on_global (g : Latch → res Latch) : st (System R) unit := λ s,
  let m := manager s in
  l ← g (global_txn_latch m);
  Ok (tt, set_manager (MkTransactionManager (next_txn_id m) l (txn_map m)) s).

(** A BEGIN, COMMIT or ABORT record of the transaction. *)
Definition log_txn (ty : Z) : st (Engine R) unit :=
  e ← st_get;
  lr ← with_store (with_log (AppendLogRecord (NewLogRecordTxn (txn_id (etxn e)) (prev_lsn (etxn e)) ty)));
  st_modify (λ e, set_txn (SetPrevLSN (fst lr) (etxn e)) e).
Definition log_flush : st (Engine R) unit := with_store (with_log Flush).

Definition fresh_txn : st (System R) Transaction := λ s,
  let m := manager s in
  let i := i32 (next_txn_id m + 1) in
  Ok (NewTransaction i, set_manager (MkTransactionManager i (global_txn_latch m) (txn_map m)) s).

(** The transaction begun is the one that calls from now on. *)
Definition Begin (txn : option Transaction) : st (System R) Transaction :=
  _ ← on_global RLock;
  txn_ret ← match txn with Some t => mret t | None => fresh_txn end;
  _ ← with_engine (st_modify (set_txn txn_ret));
  s ← st_get;
  _ ← (if elogging (engine s) then with_engine (log_txn BEGIN) else mret tt);
  _ ← st_modify (λ s, set_manager (MkTransactionManager (next_txn_id (manager s))
        (global_txn_latch (manager s)) ({[txn_id (etxn (engine s))]} ∪ txn_map (manager s))) s);
  s ← st_get; mret (etxn (engine s)).

(** Removing a tuple as [Commit] and [Abort] do: the page is not unpinned. *)
Definition apply_pinned (rid : RID) : st (Engine R) unit :=
  tpage ← fetch_table_page (PageId rid);
  _ ← page_latch tpage WLatch;
  _ ← on_page tpage (TablePage.ApplyDelete rid);
  page_latch tpage WUnlatch.

(** The loops run from the last write to the first: [items] is the rest of the
    write set, last first. *)
Fixpoint commit_writes (items : list WriteRecord) : st (Engine R) unit :=
  match items with
  | [] => mret tt
  | item :: items' =>
      _ ← match wtype item with WDELETE => apply_pinned (wrid item) | _ => mret tt end;
      commit_writes items'
  end.

Definition abort_write (fuel : nat) (item : WriteRecord) : st (Engine R) unit :=
  match wtype item with
  | WDELETE => RollbackDelete (InitTableHeap (table item)) (wrid item)
  | WINSERT => apply_pinned (wrid item)
  | WUPDATE =>
      _ ← UpdateTuple fuel (InitTableHeap (table item)) (wtuple item) None None (wrid item); mret tt
  end.
Fixpoint abort_writes (fuel : nat) (items : list WriteRecord) : st (Engine R) unit :=
  match items with
  | [] => mret tt
  | item :: items' => _ ← abort_write fuel item; abort_writes fuel items'
  end.

Definition release_all : st (Engine R) unit :=
  st_modify (λ e, set_locks (releaseLocks (etxn e) (elocks e)) e).

Definition end_writes (loop : list WriteRecord → st (Engine R) unit) : st (Engine R) unit :=
  e ← st_get;
  _ ← loop (rev (write_set (etxn e)));
  st_modify (λ e, set_txn (SetWriteSet [] (etxn e)) e).

Definition Commit : st (System R) unit :=
  _ ← with_engine (
    _ ← txn_set_state COMMITTED;
    _ ← end_writes commit_writes;
    e ← st_get;
    _ ← (if elogging e then _ ← log_txn COMMIT; log_flush else mret tt);
    release_all);
  on_global RUnlock.

Definition Abort (fuel : nat) : st (System R) unit :=
  _ ← with_engine (
    _ ← txn_set_state ABORTED;
    _ ← end_writes (abort_writes fuel);
    e ← st_get;
    _ ← (if elogging e then log_txn ABORT else mret tt);
    release_all);
  on_global RUnlock.

Definition BlockAllTransactions : st (System R) unit := on_global WLock.
Definition ResumeTransactions : st (System R) unit := on_global WUnlock.
End manager.

(** ** The records of several steps *)

(** Records one after the other: each gets the next LSN and points to the one
    before. *)
Fixpoint chained (i prev lsn : Z) (mks : list (Z → Z → LogRecord)) : list LogRecord :=
  match mks with
  | [] => []
  | mk :: mks' => set_Lsn lsn (mk i prev) :: chained i lsn (i32 (lsn + 1)) mks'
  end.
Fixpoint prev_after (prev lsn : Z) (mks : list (Z → Z → LogRecord)) : Z :=
  match mks with [] => prev | _ :: mks' => prev_after lsn (i32 (lsn + 1)) mks' end.
Fixpoint lsn_after (lsn : Z) (mks : list (Z → Z → LogRecord)) : Z :=
  match mks with [] => lsn | _ :: mks' => lsn_after (i32 (lsn + 1)) mks' end.

Lemma chained_app i prev lsn l1 l2 :
  chained i prev lsn (l1 ++ l2) = chained i prev lsn l1 ++ chained i (prev_after prev lsn l1) (lsn_after lsn l1) l2.
Proof. revert prev lsn. induction l1 as [|mk l1 IH]; intros prev lsn; [done|]. cbn. by rewrite IH. Qed.
Lemma prev_after_app prev lsn l1 l2 :
  prev_after prev lsn (l1 ++ l2) = prev_after (prev_after prev lsn l1) (lsn_after lsn l1) l2.
Proof. revert prev lsn. induction l1 as [|mk l1 IH]; intros prev lsn; [done|]. cbn. by rewrite IH. Qed.
Lemma lsn_after_app lsn l1 l2 : lsn_after lsn (l1 ++ l2) = lsn_after (lsn_after lsn l1) l2.
Proof. revert lsn. induction l1 as [|mk l1 IH]; intros lsn; [done|]. cbn. by rewrite IH. Qed.

Section runs.
Context {R : Type} `{Replacer R}.
Implicit Types (e : Engine R).

(** Steps that take no lock and append the records [mks], if logging is on. *)
Record log_run (mks : list (Z → Z → LogRecord)) e e' : Prop := {
  lr_logging : elogging e' = elogging e;
  lr_locks : elocks e' = elocks e;
  lr_txn : etxn e' = if elogging e
    then SetPrevLSN (prev_after (prev_lsn (etxn e)) (next_lsn (log_manager (estore e))) mks) (etxn e)
    else etxn e;
  lr_stream : log_stream (get_log (estore e')) = log_stream (get_log (estore e)) ++
    if elogging e then encode_all (chained (txn_id (etxn e)) (prev_lsn (etxn e))
                                     (next_lsn (log_manager (estore e))) mks) else [];
  lr_next : next_lsn (log_manager (estore e')) =
    if elogging e then lsn_after (next_lsn (log_manager (estore e))) mks
    else next_lsn (log_manager (estore e))
}.

Lemma SetPrevLSN_same t : SetPrevLSN (prev_lsn t) t = t.
Proof. by destruct t. Qed.
Lemma SetPrevLSN_twice a b t : SetPrevLSN a (SetPrevLSN b t) = SetPrevLSN a t.
Proof. done. Qed.

Lemma log_run_kept e e' : txn_kept e e' → log_run [] e e'.
Proof.
  intros [L T G (S & N & _)]. split; try done; cbn.
  - rewrite SetPrevLSN_same. by destruct (elogging e).
  - rewrite S. destruct (elogging e); by rewrite app_nil_r.
  - by destruct (elogging e).
Qed.

Lemma log_run_one mk e e' : logged no_lock mk e e' → log_run [mk] e e'.
Proof.
  intros [HE HL]. destruct (elogging e) eqn:EL.
  - destruct HL as (t' & lm' & [= <- <-] & HK & HT & HS & HN). split; try done; rewrite EL; try done.
    cbn [chained]. by rewrite HS, encode_all_single.
  - destruct HL as (HT & HK & HS & HN & _). split; try done; rewrite EL; try done. by rewrite app_nil_r.
Qed.

Lemma log_run_trans l1 l2 e1 e2 e3 : log_run l1 e1 e2 → log_run l2 e2 e3 → log_run (l1 ++ l2) e1 e3.
Proof.
  intros [G1 K1 T1 S1 N1] [G2 K2 T2 S2 N2]. rewrite G1 in *. destruct (elogging e1) eqn:EL.
  - split; rewrite ?EL; try congruence.
    + rewrite T2, T1, N1, SetPrevLSN_twice, prev_after_app. done.
    + rewrite S2, S1, T1, N1, chained_app, encode_all_app, app_assoc. done.
    + by rewrite N2, N1, lsn_after_app.
  - split; rewrite ?EL; try congruence. rewrite S2, S1. by rewrite !app_nil_r.
Qed.

(** The transaction owns the record if locks are taken at all. *)
Definition owner (r : RID) e : Prop :=
  elogging e = true → IsExclusiveLocked (etxn e) r = true ∧ IsSharedLocked (etxn e) r = false.

Lemma owner_step mks r e e' : log_run mks e e' → owner r e → owner r e'.
Proof.
  intros [G _ T _ _] HO. unfold owner. rewrite G. intros HE. rewrite T, HE. exact (HO HE).
Qed.

Lemma own_ready r mk e :
  owner r e → (∀ i l, appendable (mk i l)) → ready (own_lock r) mk (etxn e) (elocks e) (elogging e).
Proof.
  intros HO HA HL. destruct (HO HL) as [HX _]. exists (etxn e), (elocks e). unfold own_lock.
  rewrite HX. by repeat (split; [done|]).
Qed.
Lemma own_write_ready r mk e :
  owner r e → (∀ i l, appendable (mk i l)) → ready (write_lock r) mk (etxn e) (elocks e) (elogging e).
Proof.
  intros HO HA HL. destruct (HO HL) as [HX HS]. exists (etxn e), (elocks e). unfold write_lock.
  rewrite HS, HX. by repeat (split; [done|]).
Qed.

(** An owner's operations take no further lock. *)
Lemma own_logged r mk e e' : owner r e → logged (own_lock r) mk e e' → logged no_lock mk e e'.
Proof.
  intros HO [HE HL]. split; [done|]. destruct (elogging e) eqn:EL; [|done].
  destruct (HO EL) as [HX _]. destruct HL as (t' & lm' & E & X). unfold own_lock in E. rewrite HX in E.
  injection E as <- <-. by exists (etxn e), (elocks e).
Qed.
Lemma own_write_logged r mk e e' : owner r e → logged (write_lock r) mk e e' → logged no_lock mk e e'.
Proof.
  intros HO [HE HL]. split; [done|]. destruct (elogging e) eqn:EL; [|done].
  destruct (HO EL) as [HX HS]. destruct HL as (t' & lm' & E & X). unfold write_lock in E. rewrite HS, HX in E.
  injection E as <- <-. by exists (etxn e), (elocks e).
Qed.
End runs.

(** ** Steps of the manager *)
Section steps.
Context {R : Type} `{Replacer R}.
Implicit Types (e : Engine R).

(** A step of the log manager leaves the pages alone. *)
Lemma log_step_shows e n v l :
  shows (estore e) n v → log_wf l → db (snd l) = db (diskManager (estore e)) →
  nextPageID (snd l) = nextPageID (diskManager (estore e)) → shows (set_log_state l (estore e)) n v.
Proof.
  intros S HW HD HN. apply (shows_same (estore e)); try done.
  - split; try done. cbn. by rewrite HD.
  - unfold get_log. cbn. by destruct l.
Qed.

Lemma log_txn_run e n v ty :
  shows (estore e) n v → ty = BEGIN ∨ ty = COMMIT ∨ ty = ABORT → elogging e = true →
  ∃ e', log_txn ty e = Ok (tt, e') ∧ shows (estore e') n v ∧
    log_run [λ i l, NewLogRecordTxn i l ty] e e' ∧
    nextPageID (diskManager (estore e')) = nextPageID (diskManager (estore e)).
Proof.
  intros S Hty HE. pose proof (shows_log_wf _ _ _ S) as HW.
  set (r := NewLogRecordTxn (txn_id (etxn e)) (prev_lsn (etxn e)) ty).
  destruct (AppendLogRecord_run r (log_manager (estore e)) (diskManager (estore e)) HW) as (l & E & HA).
  { destruct (NewLogRecordTxn_ok (txn_id (etxn e)) (prev_lsn (etxn e)) ty Hty) as [H1 H2 H3].
    split; [done|]. split; [done|]. vm_compute. discriminate. }
  destruct HA as (W' & HS & HN & _ & _ & HD & HNx). cbn [fst snd] in HD, HNx, HN.
  set (s' := set_log_state l (estore e)).
  assert (EL : get_log s' = l) by (unfold get_log, s'; cbn; by destruct l).
  set (e' := set_txn (SetPrevLSN (next_lsn (log_manager (estore e))) (etxn e)) (set_store s' e)).
  exists e'. split; [|split; [by apply log_step_shows|split; [|done]]].
  - unfold log_txn. estep (eq_refl : st_get e = Ok (e, e)).
    assert (EW : with_store (with_log (AppendLogRecord r)) e =
      Ok ((next_lsn (log_manager (estore e)), set_Lsn (next_lsn (log_manager (estore e))) r), set_store s' e)).
    { apply with_store_run. by apply zoom_run. }
    by estep EW.
  - apply log_run_one. split; [done|]. rewrite HE. exists (etxn e), (elocks e).
    split; [done|]. split; [done|]. split; [done|]. split; [|exact HN].
    change (log_stream (get_log (estore e'))) with (log_stream (get_log s')). by rewrite EL.
Qed.

(** After a flush the log file holds the whole log. *)
Lemma log_flush_run e n v :
  shows (estore e) n v →
  ∃ e', log_flush e = Ok (tt, e') ∧ shows (estore e') n v ∧ txn_kept e e' ∧
    content (log (diskManager (estore e'))) = log_stream (get_log (estore e')) ∧
    nextPageID (diskManager (estore e')) = nextPageID (diskManager (estore e)) ∧
    db (diskManager (estore e')) = db (diskManager (estore e)).
Proof.
  intros S. pose proof (shows_log_wf _ _ _ S) as HW.
  destruct (Flush_run _ _ HW) as (lm & d & E & W & HC & HO & HS & HN & _ & _ & HD & HNx).
  exists (set_store (set_log_state (lm, d) (estore e)) e). split.
  { unfold log_flush. apply with_store_run. by apply zoom_run. }
  split; [by apply log_step_shows|]. split; [split; try done; by split_and!|]. split; [|split; [exact HNx|exact HD]].
  unfold get_log at 1. cbn. by rewrite HC, HS.
Qed.

(** Removing a tuple and keeping the page. *)
Lemma apply_pinned_run e n P pins D t c r b bs :
  shows (estore e) n (MkView P pins D ∅) → heap_rep P t c → heap_slot c r (Some (b, bs)) →
  0 ≤ SlotNum r → room n pins (PageId r) → owner r e →
  ∃ e' P', apply_pinned r e = Ok (tt, e') ∧
    shows (estore e') n (vheld P' pins ({[PageId r]} ∪ D) ∅ (PageId r)) ∧
    heap_rep P' t (set_slot r None c) ∧ (∀ q, q ≠ PageId r → P' !! q = P !! q) ∧
    log_run [apply_record r bs] e e' ∧
    nextPageID (diskManager (estore e')) = nextPageID (diskManager (estore e)).
Proof.
  intros S HR HS H0 HRm HO.
  assert (HG : ready (own_lock r) (apply_record r bs) (etxn e) (elocks e) (elogging e)).
  { apply own_ready; [done|]. intros i l. destruct (heap_slot_page _ _ _ _ _ HR HS) as (_ & d & _ & W & _ & HSl & _).
    destruct (occupied_intro r d b bs W H0 HSl) as []. apply delete_appendable; [done|done|].
    change (0 ≤ zlen bs ≤ PageSize). lia. }
  destruct (record_held e n P pins D t c r _ None (TablePage.ApplyDelete r) tt _ _ S HR HS
    HRm (ApplyDelete_keeps r) HG) as (p & e1 & e2 & e3 & e4 & d & E1 & E2 & E3 & E4 & S4 & _ & _ & HR4 & HL4 & HN4).
  { intros s W _ Hs Hr. destruct (apply_delete_run s r b bs W H0 Hs Hr) as (s' & ? & ? & _ & ?).
    by exists s'. }
  exists e4, (<[PageId r := d]> P). split; [|split; [exact S4|split; [exact HR4|split]]].
  - unfold apply_pinned. assert (EF : fetch_table_page (PageId r) e = Ok (p, e1))
      by (unfold fetch_table_page; by rewrite (st_bind_run _ _ _ _ _ E1)).
    estep EF. estep E2. estep E3. exact E4.
  - intros q Hq. by rewrite lookup_insert_ne.
  - split; [|done]. by eapply log_run_one, own_logged.
Qed.
End steps.

(** ** The loops over the write set *)

(** What a loop changes: the pages changed and not reported dirty, the pins, and
    the records of the table. *)
Record work : Type := MkWork {
  wdirty : gset Z;
  wpins : gmap Z Z;
  wslots : list (Z * list (option (bool * list byte)))
}.

Definition pin_page (q : Z) (pins : gmap Z Z) : gmap Z Z := <[q := default 0 (pins !! q) + 1]> pins.

(** A write of a committing transaction: a delete is performed. *)
Inductive commit_step : work → WriteRecord → list (Z → Z → LogRecord) → work → Prop :=
| commit_delete D pins c r b bs x t :
    heap_slot c r (Some (b, bs)) → 0 ≤ SlotNum r →
    commit_step (MkWork D pins c) (NewWriteRecord r WDELETE x t) [apply_record r bs]
      (MkWork ({[PageId r]} ∪ D) (pin_page (PageId r) pins) (set_slot r None c))
| commit_other w x : wtype x ≠ WDELETE → commit_step w x [] w.

(** A write of an aborting transaction: a delete is rolled back, an insert is
    deleted, an update gets the old tuple again if it fits where the new one is.
    The update of a record that moved finds the record deleted and does nothing:
    the moving was a delete and an insert, undone as such. *)
Inductive abort_step : work → WriteRecord → list (Z → Z → LogRecord) → work → Prop :=
| undo_delete D pins c r bs x t :
    heap_slot c r (Some (true, bs)) → 0 ≤ SlotNum r →
    abort_step (MkWork D pins c) (NewWriteRecord r WDELETE x t) [rollback_record r]
      (MkWork (D ∖ {[PageId r]}) pins (set_slot r (Some (false, bs)) c))
| undo_insert D pins c r b bs x t :
    heap_slot c r (Some (b, bs)) → 0 ≤ SlotNum r →
    abort_step (MkWork D pins c) (NewWriteRecord r WINSERT x t) [apply_record r bs]
      (MkWork ({[PageId r]} ∪ D) (pin_page (PageId r) pins) (set_slot r None c))
| undo_update D pins c r bs old t :
    heap_slot c r (Some (false, bs)) → 0 ≤ SlotNum r → tuple_ok old → 0 < size old < 2 ^ 31 →
    fits c r bs old →
    abort_step (MkWork D pins c) (NewWriteRecord r WUPDATE old t) [update_record r bs old]
      (MkWork (D ∖ {[PageId r]}) pins (set_slot r (Some (false, data old)) c))
| undo_moved D pins c r bs old t :
    heap_slot c r (Some (true, bs)) → 0 ≤ SlotNum r → 0 < size old → PageId r ∉ D →
    abort_step (MkWork D pins c) (NewWriteRecord r WUPDATE old t) [] (MkWork D pins c).

Section writes.
Variable step : work → WriteRecord → list (Z → Z → LogRecord) → work → Prop.

Inductive steps : work → list WriteRecord → list (Z → Z → LogRecord) → work → Prop :=
| steps_nil w : steps w [] [] w
| steps_cons w x mks w1 xs mks' w2 :
    step w x mks w1 → steps w1 xs mks' w2 → steps w (x :: xs) (mks ++ mks') w2.
End writes.

(** No step gives a pin back. *)
Lemma frames_pin k n q pins : frames_for k n (pin_page q pins) → frames_for k n pins.
Proof.
  intros [HF HC]. split.
  - unfold pin_page in HF. rewrite map_size_insert in HF. destruct (pins !! q); cbn in HF; lia.
  - intros i j Hi. unfold pin_page in HC. destruct (decide (i = q)) as [->|Hne].
    + specialize (HC q (default 0 (pins !! q) + 1) (lookup_insert_eq _ _ _)). rewrite Hi in HC. cbn in HC. lia.
    + eapply HC. by rewrite lookup_insert_ne by done.
Qed.

Lemma commit_step_frames k n w x mks w' :
  commit_step w x mks w' → frames_for k n (wpins w') → frames_for k n (wpins w).
Proof. intros []; [apply frames_pin|done]. Qed.
Lemma abort_step_frames k n w x mks w' :
  abort_step w x mks w' → frames_for k n (wpins w') → frames_for k n (wpins w).
Proof. intros []; [done|apply frames_pin|done|done]. Qed.

Lemma steps_frames (step : work → WriteRecord → list (Z → Z → LogRecord) → work → Prop) k n w xs mks w' :
  (∀ w x mks w', step w x mks w' → frames_for k n (wpins w') → frames_for k n (wpins w)) →
  steps step w xs mks w' → frames_for k n (wpins w') → frames_for k n (wpins w).
Proof. intros HS. induction 1; eauto. Qed.

Section loops.
Context {R : Type} `{Replacer R}.
Implicit Types (e : Engine R).

(** The engine is at [w], in table [t]. *)
Definition at_work e n (P : gmap Z (list byte)) (t : TableHeap) (w : work) : Prop :=
  shows (estore e) n (MkView P (wpins w) (wdirty w) ∅) ∧ heap_rep P t (wslots w).

(** One step of a loop, from [w] to [w']. *)
Definition step_run n (P : gmap Z (list byte)) t (f : st (Engine R) unit) e mks w w' : Prop :=
  ∃ e' P', f e = Ok (tt, e') ∧ at_work e' n P' t w' ∧ log_run mks e e' ∧
    (∀ q, q ∉ (wslots w).*1 → P' !! q = P !! q) ∧ (wslots w').*1 = (wslots w).*1 ∧
    nextPageID (diskManager (estore e')) = nextPageID (diskManager (estore e)).

Lemma step_run_nothing n P t e w : at_work e n P t w → step_run n P t (mret tt) e [] w w.
Proof. intros HW. exists e, P. split_and!; try done. by apply log_run_kept. Qed.

Lemma step_run_bind n P t f g e mks1 mks2 w w1 w2 :
  step_run n P t f e mks1 w w1 →
  (∀ e1 P1, at_work e1 n P1 t w1 → log_run mks1 e e1 → step_run n P1 t g e1 mks2 w1 w2) →
  step_run n P t (_ ← f; g) e (mks1 ++ mks2) w w2.
Proof.
  intros (e1 & P1 & E1 & W1 & L1 & O1 & I1 & N1) HG.
  destruct (HG e1 P1 W1 L1) as (e2 & P2 & E2 & W2 & L2 & O2 & I2 & N2).
  exists e2, P2. split; [by estep E1|]. split; [done|]. split; [by eapply log_run_trans|].
  split; [|split; congruence]. intros q Hq. rewrite O2 by (by rewrite I1). by apply O1.
Qed.

Lemma apply_step n P t c r b bs D pins e :
  at_work e n P t (MkWork D pins c) → heap_slot c r (Some (b, bs)) → 0 ≤ SlotNum r → owner r e →
  frames_for 1 n (pin_page (PageId r) pins) →
  step_run n P t (apply_pinned r) e [apply_record r bs] (MkWork D pins c)
    (MkWork ({[PageId r]} ∪ D) (pin_page (PageId r) pins) (set_slot r None c)).
Proof.
  intros [S HR] HS H0 HO HF. cbn in S, HR.
  destruct (apply_pinned_run e n P pins D t c r b bs S HR HS H0) as (e' & P' & E & S' & HR' & HP & HL & HN).
  - eapply (frames_room 1); [lia|]. by eapply frames_pin.
  - done.
  - exists e', P'. split; [done|]. split; [by split|]. split; [done|]. split; [|split; [apply set_slot_ids|done]].
    intros q Hq. apply HP. intros ->. apply Hq. destruct HS as (i & ls & Hi & _).
    apply list_elem_of_fmap. exists (PageId r, ls). split; [done|]. by eapply list_elem_of_lookup_2.
Qed.

Lemma commit_write_run n P t e w x mks w' :
  commit_step w x mks w' → at_work e n P t w → owner (wrid x) e → frames_for 1 n (wpins w') →
  step_run n P t (match wtype x with WDELETE => apply_pinned (wrid x) | _ => mret tt end) e mks w w'.
Proof.
  intros HS HW HO HF. destruct HS as [D pins c r b bs x t' HS H0|w x Hx]; cbn in *.
  - by eapply apply_step.
  - destruct (wtype x); [|done|]; by apply step_run_nothing.
Qed.

(** An update of a record marked deleted is refused. *)
Lemma update_dead_run e n P pins D t c r bs old fuel :
  shows (estore e) n (MkView P pins D ∅) → heap_rep P t c → heap_slot c r (Some (true, bs)) →
  0 ≤ SlotNum r → 0 < size old → room n pins (PageId r) → PageId r ∉ D →
  txn_state (etxn e) = ABORTED →
  ∃ e', UpdateTuple fuel t old None None r e = Ok ((false, None), e') ∧
    shows (estore e') n (MkView P pins D ∅) ∧ same_txn e e'.
Proof.
  intros S HR HS H0 Ho HRm HD HA. pose proof (shows_pins _ _ _ S) as HPp. cbn in HPp.
  destruct (heap_slot_page P t c r _ HR HS) as (Hin & d & HP & W & HI & HSl & _).
  destruct (open_dirty e n P pins D (PageId r) d S HP HRm) as (p & e1 & E1 & _ & S1 & Hh1 & ST1).
  destruct (page_acquire e1 n _ (PageId r) p WLock wlatched S1 Hh1) as (e2 & E2 & S2 & ST2 & HK2);
    [unfold vlatch_of; cbn; by rewrite lookup_empty|done|].
  destruct (held_object _ _ _ _ _ _ S2 (HK2 _ _ Hh1) HP) as (f & pg & Cc & HO & _ & Hd & _).
  assert (Hb : bytes (tp_state e2 pg) = d) by done. pose proof (same_txn_trans _ _ _ ST1 ST2) as ST12.
  assert (EU : on_page p (TablePage.UpdateTuple old None None fresh_tuple r) e2 =
    Ok ((false, None, None, fresh_tuple), e2)).
  { eapply on_page_same; [exact Cc|].
    destruct (dead_slot_run (tp_state e2 pg) r old None None fresh_tuple) as (s' & Ha & _ & _ & Em);
      rewrite ?Hb; [done|done|done|done|by rewrite HSl|].
    rewrite Em. do 2 f_equal. unfold aborted in Ha. cbn [EnableLogging tp_state] in Ha.
    destruct (elogging e2); [|done]. destruct Ha as (t0 & [= <-] & ->).
    assert (HA2 : SetState ABORTED (etxn e2) = etxn e2).
    { rewrite (tk_txn _ _ (st_kept _ _ ST12)). destruct (etxn e). cbn in HA. by subst. }
    unfold set_ttxn, tp_state. cbn. by rewrite HA2. }
  destruct (page_release e2 n _ (PageId r) p WUnlock wlatched S2 (HK2 _ _ Hh1)) as (e4 & E4 & S4 & ST4 & HK4);
    [unfold vlatch_of; cbn; by rewrite lookup_insert_eq|done|].
  assert (S4' : shows (estore e4) n (vheld P pins D ∅ (PageId r))).
  { unfold vunlatch, vlatch, vheld in S4 |- *. cbn in S4. by rewrite delete_insert_id in S4 by apply lookup_empty. }
  destruct (close_dirty e4 n P pins D (PageId r) p d false S4' HPp (HK4 _ _ (HK2 _ _ Hh1)) HP HI)
    as (e5 & E5 & _ & S5 & ST5); [by right|].
  replace (D ∖ {[PageId r]}) with D in S5 by set_solver.
  exists e5. split; [|split; [done|]].
  - unfold UpdateTuple. estep E1. estep E2. estep EU. estep E4. estep E5. cbv zeta.
    rewrite bool_decide_false by done. cbn [andb]. by estep (eq_refl : st_get e5 = Ok (e5, e5)).
  - eapply same_txn_trans; [exact ST12|]. by eapply same_txn_trans.
Qed.

Lemma in_pages (c : list (Z * list (option (bool * list byte)))) r x : heap_slot c r x → PageId r ∈ c.*1.
Proof.
  intros (i & ls & Hi & _). apply list_elem_of_fmap. exists (PageId r, ls). split; [done|].
  by eapply list_elem_of_lookup_2.
Qed.

Lemma update_appendable r bs u i l :
  zlen bs ≤ PageSize → tuple_ok u → size u ≤ 2 * PageSize → appendable (update_record r bs u i l).
Proof.
  intros Hb Hu Hs. unfold PageSize in *. assert (0 ≤ size u) by (unfold tuple_ok in Hu; lia).
  assert (0 ≤ zlen bs) by (unfold zlen; lia).
  destruct (NewLogRecordUpdate_ok i l r (stored_tuple r bs) u) as [X1 X2 X3]; [done|done|cbn; lia|].
  split; [done|]. split; [done|]. cbn. rewrite u32_small by (unfold in_u32, HEADER_SIZE; lia).
  unfold LogBufferSize, BufferPoolSize, HEADER_SIZE, PageSize. lia.
Qed.

Lemma abort_write_run n P fuel t e w x mks w' :
  abort_step w x mks w' → at_work e n P t w → table x = firstPageId t → owner (wrid x) e →
  txn_state (etxn e) = ABORTED → frames_for 1 n (wpins w') →
  step_run n P t (abort_write fuel x) e mks w w'.
Proof.
  intros HS HW HT HO HA HF. assert (Et : InitTableHeap (table x) = t) by (rewrite HT; by destruct t).
  destruct HS as [D pins c r bs x t' HS H0|D pins c r b bs x t' HS H0|D pins c r bs old t' HS H0 Hok Hsz Hfit|
    D pins c r bs old t' HS H0 Hsz HD]; unfold abort_write; cbn [wtype wrid wtuple table] in *; rewrite ?Et.
  - destruct HW as [S HR]. cbn in S, HR.
    destruct (RollbackDelete_run e n P pins D t c r bs S HR HS H0) as (e' & P' & E & S' & HR' & HP & HL & HN).
    + eapply (frames_room 1); [lia|done].
    + apply own_ready; [done|]. intros i l. by apply delete_appendable.
    + exists e', P'. split; [done|]. split; [by split|]. split; [by eapply log_run_one, own_logged|].
      split; [|split; [apply set_slot_ids|done]]. intros q Hq. apply HP. intros ->. by eapply Hq, in_pages.
  - by eapply apply_step.
  - destruct HW as [S HR]. cbn in S, HR.
    destruct (heap_slot_page _ _ _ _ _ HR HS) as (_ & d & _ & W & _ & HSl & i & Hi).
    destruct (occupied_intro r d false bs W H0 HSl) as []. pose proof (free_space_range d W) as HFs.
    pose proof (Hfit _ _ Hi) as Hle. 
    destruct (UpdateTuple_run e n P pins D t c r bs old None None old fuel S HR HS H0) as
      (e' & P' & E & S' & HR' & HP & HL & HN); try done.
    + by eapply (frames_room 1); [lia|].
    + lia.
    + apply own_write_ready; [done|]. intros j l. apply update_appendable; [lia|done|].
      unfold free_space, total, sizeTablePageHeader, sizeTuple, PageSize in *. lia.
    + assert (EN : update_noted t r bs e' = e').
      { unfold update_noted. rewrite decide_True; [done|].
        pose proof (log_run_one _ _ _ (own_write_logged _ _ _ _ HO HL)) as [_ _ Ht _ _].
        rewrite Ht. by destruct (elogging e). }
      rewrite EN in E. exists e', P'. split; [by estep E|]. split; [by split|].
      split; [by eapply log_run_one, own_write_logged|].
      split; [|split; [apply set_slot_ids|done]]. intros q Hq. apply HP. intros ->. by eapply Hq, in_pages.
  - destruct HW as [S HR]. cbn in S, HR.
    destruct (update_dead_run e n P pins D t c r bs old fuel S HR HS H0 Hsz) as (e' & E & S' & ST); try done.
    { by eapply (frames_room 1); [lia|]. }
    exists e', P. split; [by estep E|]. split; [by split|]. split; [by apply log_run_kept, ST|].
    split; [done|]. split; [done|apply ST].
Qed.

(** The loops. *)
Lemma commit_writes_run n P t e w xs mks w' :
  steps commit_step w xs mks w' → at_work e n P t w → Forall (λ x, owner (wrid x) e) xs →
  frames_for 1 n (wpins w') → step_run n P t (commit_writes xs) e mks w w'.
Proof.
  intros HS. revert e P. induction HS as [w|w x mks w1 xs mks' w2 H1 HS IH]; intros e P HW HO HF.
  { by apply step_run_nothing. }
  apply Forall_cons in HO as [HOx HO]. cbn [commit_writes].
  pose proof (steps_frames _ _ _ _ _ _ _ (commit_step_frames 1 n) HS HF) as HF1.
  eapply step_run_bind; [by eapply commit_write_run|]. intros e1 P1 W1 L1. apply IH; [done| |done].
  eapply Forall_impl; [exact HO|]. intros y. by eapply owner_step.
Qed.

Lemma abort_writes_run n P fuel t e w xs mks w' :
  steps abort_step w xs mks w' → at_work e n P t w → Forall (λ x, owner (wrid x) e) xs →
  Forall (λ x, table x = firstPageId t) xs → txn_state (etxn e) = ABORTED →
  frames_for 1 n (wpins w') → step_run n P t (abort_writes fuel xs) e mks w w'.
Proof.
  intros HS. revert e P. induction HS as [w|w x mks w1 xs mks' w2 H1 HS IH]; intros e P HW HO HT HA HF.
  { by apply step_run_nothing. }
  apply Forall_cons in HO as [HOx HO]. apply Forall_cons in HT as [HTx HT]. cbn [abort_writes].
  pose proof (steps_frames _ _ _ _ _ _ _ (abort_step_frames 1 n) HS HF) as HF1.
  eapply step_run_bind; [by eapply abort_write_run|]. intros e1 P1 W1 L1. apply IH; [done| |done| |done].
  - eapply Forall_impl; [exact HO|]. intros y. by eapply owner_step.
  - rewrite (lr_txn _ _ _ L1). by destruct (elogging e).
Qed.
End loops.

(** ** What undoing restores *)
Section undo.
Implicit Types (c : list (Z * list (option (bool * list byte)))).

(** What a transaction does to a table, as the heap's operations leave it, and
    the write set they note: inserts, deletes, updates in place, and updates
    that move the record. *)
Inductive did (t : Z) c : list WriteRecord → list (Z * list (option (bool * list byte))) → Prop :=
| did_nothing : did t c [] c
| did_insert ws c1 new bs c2 r :
    did t c ws c1 → new ∉ c1.*1 → heap_insert new bs c1 = (c2, r) →
    did t c (ws ++ [NewWriteRecord r WINSERT ZeroTuple t]) c2
| did_delete ws c1 r bs :
    did t c ws c1 → heap_slot c1 r (Some (false, bs)) → 0 ≤ SlotNum r →
    did t c (ws ++ [NewWriteRecord r WDELETE ZeroTuple t]) (set_slot r (Some (true, bs)) c1)
| did_update ws c1 r bs bs' :
    did t c ws c1 → heap_slot c1 r (Some (false, bs)) → 0 ≤ SlotNum r →
    did t c (ws ++ [NewWriteRecord r WUPDATE (stored_tuple r bs) t]) (set_slot r (Some (false, bs')) c1)
| did_move ws c1 r bs new bs' c2 r' :
    did t c ws c1 → heap_slot c1 r (Some (false, bs)) → 0 ≤ SlotNum r → new ∉ c1.*1 →
    heap_insert new bs' (set_slot r (Some (true, bs)) c1) = (c2, r') →
    did t c (ws ++ [NewWriteRecord r WDELETE ZeroTuple t; NewWriteRecord r' WINSERT ZeroTuple t;
                    NewWriteRecord r WUPDATE (stored_tuple r bs) t]) c2.

(** The same records, whatever the empty slots. *)
Definition same_records c c' : Prop :=
  ∀ r x, 0 ≤ SlotNum r → heap_slot c r (Some x) ↔ heap_slot c' r (Some x).

#[global] Instance same_records_equiv : Equivalence same_records.
Proof.
  split.
  - by intros c r x _.
  - intros c c' Hc r x H0. by rewrite (Hc r x H0).
  - intros c1 c2 c3 H1 H2 r x H0. by rewrite (H1 r x H0), (H2 r x H0).
Qed.

Lemma heap_slot_fun c r x y : NoDup c.*1 → heap_slot c r x → heap_slot c r y → x = y.
Proof.
  intros ND (i & ls & Hi & Hx) (j & ls' & Hj & Hy).
  assert (i = j) as ->.
  { eapply NoDup_lookup; [exact ND| |]; rewrite list_lookup_fmap; [by rewrite Hi|by rewrite Hj]. }
  congruence.
Qed.

Lemma set_slot_slots c r y z r' x :
  NoDup c.*1 → heap_slot c r y → 0 ≤ SlotNum r → 0 ≤ SlotNum r' →
  heap_slot (set_slot r z c) r' x ↔ r' = r ∧ x = z ∨ r' ≠ r ∧ heap_slot c r' x.
Proof.
  intros ND HS H0 H0'. pose proof (heap_slot_set c r y z ND HS) as HZ.
  assert (ND' : NoDup (set_slot r z c).*1) by (by rewrite set_slot_ids).
  destruct (decide (r' = r)) as [->|Hne].
  - split; [|intros [[_ ->]|[? _]]; done]. intros HX. left. split; [done|]. by eapply heap_slot_fun.
  - split; [|intros [[? _]|[_ HX]]; [done|by eapply heap_slot_set_other]].
    intros HX. right. split; [done|].
    assert (HB : set_slot r y (set_slot r z c) = c).
    { destruct HS as (i & ls & Hi & Hy). rewrite (set_slot_insert c i r ls z ND Hi).
      rewrite (set_slot_insert _ i r (<[Z.to_nat (SlotNum r) := z]> ls)).
      - rewrite list_insert_insert_eq, list_insert_insert_eq, (list_insert_id ls) by done.
        by apply list_insert_id.
      - rewrite <- (set_slot_insert c i r ls z ND Hi). done.
      - apply list_lookup_insert_eq. by eapply lookup_lt_Some. }
    rewrite <- HB. by eapply heap_slot_set_other.
Qed.

Lemma put_slot_back k x ls j y :
  put_slot k x ls !! j = Some (Some y) → (k ≤ length ls)%nat → j = k ∧ x = Some y ∨ j ≠ k ∧ ls !! j = Some (Some y).
Proof.
  unfold put_slot. intros Hj Hk. destruct (Nat.ltb_spec k (length ls)).
  - apply list_lookup_insert_Some in Hj as [(-> & -> & _)|(Hne & Hj)]; [by left|right]. by split.
  - apply lookup_app_Some in Hj as [Hj|[Hl Hj]].
    + right. split; [|done]. apply lookup_lt_Some in Hj. lia.
    + left. destruct (j - length ls)%nat as [|m] eqn:Em; [|done]. cbn in Hj. injection Hj as ->. split; [lia|done].
Qed.

Lemma heap_insert_back new bs c c' r r' x :
  heap_insert new bs c = (c', r) → 0 ≤ SlotNum r' → heap_slot c' r' (Some x) →
  r' = r ∧ x = (false, bs) ∨ r' ≠ r ∧ heap_slot c r' (Some x) ∨ r' = r ∧ heap_slot c r' (Some x).
Proof.
  intros E H0. revert c' r E. induction c as [|[q ls] c IH]; intros c' r; cbn.
  - intros [= <- <-] (i & ls & Hi & Hx). apply list_lookup_singleton_Some in Hi as [-> [= Hq <-]].
    apply list_lookup_singleton_Some in Hx as [Hk [= ->]]. left. split; [|done].
    destruct r' as [q k]. cbn in *. subst. f_equal. lia.
  - case_match.
    + intros [= <- <-]. rewrite !heap_slot_cons. intros [[Hq Hx]|Hx].
      * apply put_slot_back in Hx as [[Hk [= ->]]|[Hk Hx]]; [| |apply free_slot_le].
        -- left. split; [|done]. destruct r' as [q' k']. cbn in *. subst. f_equal. lia.
        -- right. left. split; [|by left]. intros ->. cbn in Hk. lia.
      * destruct (decide (r' = MkRID q (Z.of_nat (free_slot ls)))); [right; right|right; left]; auto.
    + destruct (heap_insert new bs c) as [c'' r''] eqn:E. intros [= <- <-].
      rewrite !heap_slot_cons. intros [Hx|Hx].
      * destruct (decide (r' = r'')); [right; right|right; left]; auto.
      * destruct (IH _ _ eq_refl Hx) as [?|[[? ?]|[? ?]]]; [by left|right; left|right; right]; auto.
Qed.

Lemma heap_insert_records new bs c c' r :
  heap_insert new bs c = (c', r) → NoDup c.*1 → new ∉ c.*1 →
  0 ≤ SlotNum r ∧ NoDup c'.*1 ∧ (∀ x, ¬ heap_slot c r (Some x)) ∧
  ∀ r' x, 0 ≤ SlotNum r' →
    heap_slot c' r' (Some x) ↔ r' = r ∧ x = (false, bs) ∨ r' ≠ r ∧ heap_slot c r' (Some x).
Proof.
  intros E ND Hn. destruct (heap_insert_slots _ _ _ _ _ E) as [H1 H2].
  assert (H0 : 0 ≤ SlotNum r).
  { clear - E. revert c' r E. induction c as [|[q ls] c IH]; intros c' r; cbn; [intros [= _ <-]; cbn; lia|].
    case_match; [intros [= _ <-]; cbn; lia|]. destruct (heap_insert new bs c) as [c'' r''].
    intros [= _ <-]. by eapply IH. }
  assert (HF : ∀ x, ¬ heap_slot c r (Some x)) by (intros x; by eapply heap_insert_fresh).
  split; [done|]. split.
  - destruct (heap_insert_ids _ _ _ _ _ E) as [_ [[-> _]|[-> _]]]; [done|].
    apply NoDup_app. split; [done|]. split; [|apply NoDup_singleton]. intros q Hq Hq'.
    apply list_elem_of_singleton in Hq' as ->. done.
  - split; [done|]. intros r' x H0'. split.
    + intros HX. destruct (heap_insert_back _ _ _ _ _ _ _ E H0' HX) as [?|[?|[-> HX']]]; [by left|by right|].
      by destruct (HF x).
    + intros [[-> ->]|[Hne HX]]; [done|by apply H2].
Qed.

Lemma undo_insert_records new bs c1 c2 r y t w mks w1 :
  heap_insert new bs c1 = (c2, r) → NoDup c1.*1 → new ∉ c1.*1 → NoDup (wslots w).*1 →
  same_records (wslots w) c2 → abort_step w (NewWriteRecord r WINSERT y t) mks w1 →
  NoDup (wslots w1).*1 ∧ same_records (wslots w1) c1.
Proof.
  intros E ND Hn NDw HS HA. destruct (heap_insert_records _ _ _ _ _ E ND Hn) as (H0 & _ & HF & HI).
  inversion HA as [|D pins c r0 b bs0 y0 t0 Hx _| |]; subst. cbn in *.
  split; [by rewrite set_slot_ids|]. intros r' x H0'. rewrite (set_slot_slots c r _ None r' _ NDw Hx H0 H0').
  rewrite (HS r' x H0'), (HI r' x H0'). split.
  - naive_solver.
  - intros Hc. assert (r' ≠ r) by (intros ->; by eapply HF). naive_solver.
Qed.

Lemma undo_delete_records bs c1 r y t w mks w1 :
  heap_slot c1 r (Some (false, bs)) → 0 ≤ SlotNum r → NoDup c1.*1 → NoDup (wslots w).*1 →
  same_records (wslots w) (set_slot r (Some (true, bs)) c1) →
  abort_step w (NewWriteRecord r WDELETE y t) mks w1 →
  NoDup (wslots w1).*1 ∧ same_records (wslots w1) c1.
Proof.
  intros Hb H0 ND NDw HS HA. inversion HA as [D pins c r0 bs0 y0 t0 Hx _| | |]; subst. cbn in *.
  assert (bs0 = bs) as ->.
  { apply (HS r _ H0), (set_slot_slots c1 r _ _ r _ ND Hb H0 H0) in Hx. naive_solver. }
  split; [by rewrite set_slot_ids|]. intros r' x H0'.
  rewrite (set_slot_slots c r _ _ r' _ NDw Hx H0 H0'), (HS r' x H0'), (set_slot_slots c1 r _ _ r' _ ND Hb H0 H0').
  split; [intros [[-> [= ->]]|[Hne [[? _]|[_ HX]]]]; done|]. intros HX.
  destruct (decide (r' = r)) as [->|Hne]; [left|right; naive_solver].
  pose proof (heap_slot_fun _ _ _ _ ND HX Hb). naive_solver.
Qed.

Lemma undo_update_records bs bs' c1 r t w mks w1 :
  heap_slot c1 r (Some (false, bs)) → 0 ≤ SlotNum r → NoDup c1.*1 → NoDup (wslots w).*1 →
  same_records (wslots w) (set_slot r (Some (false, bs')) c1) →
  abort_step w (NewWriteRecord r WUPDATE (stored_tuple r bs) t) mks w1 →
  NoDup (wslots w1).*1 ∧ same_records (wslots w1) c1.
Proof.
  intros Hb H0 ND NDw HS HA.
  inversion HA as [| |D pins c r0 bs0 old t0 Hx _ _ _ _|D pins c r0 bs0 old t0 Hx _ _ _]; subst; cbn in *;
    pose proof (proj1 (set_slot_slots c1 r _ _ r _ ND Hb H0 H0) (proj1 (HS r _ H0) Hx)) as HX0.
  - split; [by rewrite set_slot_ids|]. intros r' x H0'.
    rewrite (set_slot_slots c r _ _ r' _ NDw Hx H0 H0'), (HS r' x H0'), (set_slot_slots c1 r _ _ r' _ ND Hb H0 H0').
    split; [intros [[-> [= ->]]|[Hne [[? _]|[_ HX]]]]; done|]. intros HX.
    destruct (decide (r' = r)) as [->|Hne]; [left|right; naive_solver].
    pose proof (heap_slot_fun _ _ _ _ ND HX Hb). naive_solver.
  - naive_solver.
Qed.

Lemma undo_moved_records bs c2 r t w mks w1 :
  NoDup c2.*1 → heap_slot c2 r (Some (true, bs)) → 0 ≤ SlotNum r →
  same_records (wslots w) c2 → abort_step w (NewWriteRecord r WUPDATE (stored_tuple r bs) t) mks w1 → w1 = w.
Proof.
  intros ND Hb H0 HS HA.
  inversion HA as [| |D pins c r0 bs0 old t0 Hx _ _ _ _|]; subst; [|done]. cbn in *.
  apply (HS r _ H0) in Hx. pose proof (heap_slot_fun _ _ _ _ ND Hx Hb). done.
Qed.

(** Undoing the write set, last write first, restores every record. *)
Lemma undo_restores t c0 ws c :
  did t c0 ws c → NoDup c0.*1 →
  NoDup c.*1 ∧ ∀ w mks w', NoDup (wslots w).*1 → same_records (wslots w) c →
    steps abort_step w (rev ws) mks w' → same_records (wslots w') c0.
Proof.
  intros HD ND0. induction HD as [|ws c1 new bs c2 r HD IH Hn E|ws c1 r bs HD IH Hb H0|ws c1 r bs bs' HD IH Hb H0|
    ws c1 r bs new bs' c2 r' HD IH Hb H0 Hn E].
  - split; [done|]. intros w mks w' _ HS HT. by inversion HT; subst.
  - destruct IH as [ND IH]. split; [by apply (heap_insert_records _ _ _ _ _ E ND Hn)|].
    intros w mks w' NDw HS HT. rewrite rev_unit in HT. inversion HT as [|? ? ? w1 ? ? ? HA HT']; subst.
    destruct (undo_insert_records _ _ _ _ _ _ _ _ _ _ E ND Hn NDw HS HA) as [ND1 HS1]. by eapply IH.
  - destruct IH as [ND IH]. split; [by rewrite set_slot_ids|].
    intros w mks w' NDw HS HT. rewrite rev_unit in HT. inversion HT as [|? ? ? w1 ? ? ? HA HT']; subst.
    destruct (undo_delete_records _ _ _ _ _ _ _ _ Hb H0 ND NDw HS HA) as [ND1 HS1]. by eapply IH.
  - destruct IH as [ND IH]. split; [by rewrite set_slot_ids|].
    intros w mks w' NDw HS HT. rewrite rev_unit in HT. inversion HT as [|? ? ? w1 ? ? ? HA HT']; subst.
    destruct (undo_update_records _ _ _ _ _ _ _ _ Hb H0 ND NDw HS HA) as [ND1 HS1]. by eapply IH.
  - destruct IH as [ND IH]. set (c1' := set_slot r (Some (true, bs)) c1) in *.
    assert (ND' : NoDup c1'.*1) by (unfold c1'; by rewrite set_slot_ids).
    assert (Hn' : new ∉ c1'.*1) by (unfold c1'; by rewrite set_slot_ids).
    destruct (heap_insert_records _ _ _ _ _ E ND' Hn') as (H0' & ND2 & HF & HI). split; [done|].
    intros w mks w' NDw HS HT. rewrite rev_app_distr in HT. cbn [rev app] in HT.
    inversion HT as [|? ? ? w1 ? ? ? HA1 HT1]; subst. inversion HT1 as [|? ? ? w2 ? ? ? HA2 HT2]; subst.
    inversion HT2 as [|? ? ? w3 ? ? ? HA3 HT3]; subst.
    assert (Hm : heap_slot c2 r (Some (true, bs))).
    { apply HI; [done|]. right. pose proof (heap_slot_set c1 r _ (Some (true, bs)) ND Hb) as HX.
      split; [intros ->; by eapply HF|done]. }
    rewrite (undo_moved_records bs c2 r _ w _ w1 ND2 Hm H0 HS HA1) in HA2.
    destruct (undo_insert_records _ _ _ _ _ _ _ _ _ _ E ND' Hn' NDw HS HA2) as [NDw2 HS2].
    destruct (undo_delete_records _ _ _ _ _ _ _ _ Hb H0 ND NDw2 HS2 HA3) as [NDw3 HS3].
    by eapply IH.
Qed.
End undo.

(** ** Ending a transaction *)
Section ending.
Context {R : Type} `{Replacer R}.
Implicit Types (e : Engine R) (s : System R).

(** The transaction ended in state [x] with its locks released and its write set
    empty. *)
Record ended (x : TransactionState) e e' : Prop := {
  en_state : txn_state (etxn e') = x;
  en_writes : write_set (etxn e') = [];
  en_id : txn_id (etxn e') = txn_id (etxn e);
  en_locks : elocks e' = releaseLocks (etxn e) (elocks e);
  en_logging : elogging e' = elogging e
}.

(** The records a transaction of [e] appends. *)
Definition txn_records e (mks : list (Z → Z → LogRecord)) : list byte :=
  encode_all (chained (txn_id (etxn e)) (prev_lsn (etxn e)) (next_lsn (log_manager (estore e))) mks).

Lemma releaseLocks_same t t' lm :
  txn_id t' = txn_id t → shared_lock_set t' = shared_lock_set t →
  exclusive_lock_set t' = exclusive_lock_set t → releaseLocks t' lm = releaseLocks t lm.
Proof. unfold releaseLocks, Unlock. by intros -> -> ->. Qed.

(** The loop over the write set, the last record and the release. *)
Definition ends (x : TransactionState) (loop : list WriteRecord → st (Engine R) unit)
    (last : st (Engine R) unit) : st (Engine R) unit :=
  _ ← txn_set_state x;
  _ ← end_writes loop;
  e ← st_get;
  _ ← (if elogging e then last else mret tt);
  release_all.

Lemma ends_run x ty loop last (Q : Store R → Prop) n P t e mks w w' :
  step_run n P t (loop (rev (write_set (etxn e)))) (set_txn (SetState x (etxn e)) e) mks w w' →
  (∀ e1 v, shows (estore e1) n v → elogging e1 = true →
     ∃ e2, last e1 = Ok (tt, e2) ∧ shows (estore e2) n v ∧
       log_run [λ i l, NewLogRecordTxn i l ty] e1 e2 ∧ Q (estore e2)) →
  ∃ e' P', ends x loop last e = Ok (tt, e') ∧ at_work e' n P' t w' ∧ ended x e e' ∧
    (∀ q, q ∉ (wslots w).*1 → P' !! q = P !! q) ∧
    log_stream (get_log (estore e')) = log_stream (get_log (estore e)) ++
      (if elogging e then txn_records e (mks ++ [λ i l, NewLogRecordTxn i l ty]) else []) ∧
    (elogging e = true → Q (estore e')).
Proof.
  intros (e1 & P1 & E1 & [S1 HR1] & L1 & O1 & I1 & N1) HF.
  set (e0 := set_txn (SetState x (etxn e)) e) in *.
  set (e2 := set_txn (SetWriteSet [] (etxn e1)) e1).
  assert (EW : end_writes loop e0 = Ok (tt, e2)).
  { unfold end_writes. estep (eq_refl : st_get e0 = Ok (e0, e0)). by estep E1. }
  destruct L1 as [G1 K1 T1 S1' N1']. cbn in G1, K1, T1, S1', N1'. unfold ends.
  destruct (elogging e) eqn:EL.
  - assert (HL2 : elogging e2 = true) by (cbn; by rewrite G1).
    destruct (HF e2 _ S1 HL2) as (e3 & E3 & S3 & [G3 K3 T3 S3' N3'] & HQ).
    rewrite HL2 in *. cbn in T3, S3', N3', G3, K3.
    set (e' := set_locks (releaseLocks (etxn e3) (elocks e3)) e3).
    exists e', P1. split; [|split; [by split|split; [|split; [exact O1|split; [|done]]]]].
    + estep (eq_refl : txn_set_state x e = Ok (tt, e0)). estep EW. estep (eq_refl : st_get e2 = Ok (e2, e2)).
      rewrite HL2. by estep E3.
    + split; unfold e'; cbn; rewrite ?T3, ?K3, ?G3, ?T1, ?K1, ?EL; done.
    + change (log_stream (get_log (estore e'))) with (log_stream (get_log (estore e3))).
      rewrite S3', S1', <- app_assoc. f_equal. unfold txn_records. rewrite T1. cbn [txn_id prev_lsn].
      rewrite N1', chained_app, encode_all_app. done.
  - assert (HL2 : elogging e2 = false) by (cbn; by rewrite G1).
    set (e' := set_locks (releaseLocks (etxn e2) (elocks e2)) e2).
    exists e', P1. split; [|split; [by split|split; [|split; [exact O1|split; [exact S1'|done]]]]].
    + estep (eq_refl : txn_set_state x e = Ok (tt, e0)). estep EW. estep (eq_refl : st_get e2 = Ok (e2, e2)).
      rewrite HL2. done.
    + split; unfold e'; cbn; rewrite ?T1, ?K1, ?G1, ?EL; done.
Qed.

(** The manager with a reader more or less. *)
Definition with_readers (k : Z) (m : TransactionManager) : TransactionManager :=
  MkTransactionManager (next_txn_id m)
    (MkLatch (readers (global_txn_latch m) + k) (writer (global_txn_latch m))) (txn_map m).

Lemma global_unlock s :
  0 < readers (global_txn_latch (manager s)) →
  on_global RUnlock s = Ok (tt, set_manager (with_readers (-1) (manager s)) s).
Proof. intros HL. unfold on_global, RUnlock. by rewrite (proj2 (Z.ltb_lt _ _) HL). Qed.

Lemma end_transaction (m : st (Engine R) unit) s e' :
  m (engine s) = Ok (tt, e') → 0 < readers (global_txn_latch (manager s)) →
  (_ ← with_engine m; on_global RUnlock) s =
    Ok (tt, MkSystem (with_readers (-1) (manager s)) e').
Proof.
  intros E HL. assert (EE : with_engine m s = Ok (tt, set_engine e' s)) by (by apply zoom_run).
  estep EE. by rewrite global_unlock.
Qed.
End ending.

(** ** Properties *)
Section properties.
Context {R : Type} `{Replacer R}.
Implicit Types (e : Engine R) (s : System R).

(** [Commit]: the loop over the write set, the COMMIT record and the flush. *)
Lemma Commit_run s n P pins t c mks w' :
  let e := engine s in
  shows (estore e) n (quiet P pins) → heap_rep P t c →
  steps commit_step (MkWork ∅ pins c) (rev (write_set (etxn e))) mks w' →
  Forall (λ x, owner (wrid x) e) (write_set (etxn e)) → frames_for 1 n (wpins w') →
  0 < readers (global_txn_latch (manager s)) →
  ∃ e' P', Commit s = Ok (tt, MkSystem (with_readers (-1) (manager s)) e') ∧
    shows (estore e') n (MkView P' (wpins w') (wdirty w') ∅) ∧ heap_rep P' t (wslots w') ∧
    (∀ q, q ∉ c.*1 → P' !! q = P !! q) ∧ ended COMMITTED e e' ∧
    (elogging e = true → content (log (diskManager (estore e'))) =
       log_stream (get_log (estore e)) ++ txn_records e (mks ++ [λ i l, NewLogRecordTxn i l COMMIT])).
Proof.
  intros e S HR HT HO HF HL.
  destruct (ends_run COMMITTED COMMIT commit_writes (_ ← log_txn COMMIT; log_flush)
    (λ a : Store R, content (log (diskManager a)) = log_stream (get_log a)) n P t e mks (MkWork ∅ pins c) w')
    as (e' & P' & E & [S' HR'] & HE & HP & HS & HC).
  - apply commit_writes_run; [done|by split| |done]. by apply Forall_rev.
  - intros e1 v S1 HL1. destruct (log_txn_run e1 n v COMMIT S1) as (e2 & E2 & S2 & L2 & _); [by right; left|done|].
    destruct (log_flush_run e2 n v S2) as (e3 & E3 & S3 & K3 & HC3 & _).
    exists e3. split; [by estep E2|]. split; [done|]. split; [|done].
    exact (log_run_trans _ [] _ _ _ L2 (log_run_kept _ _ K3)).
  - exists e', P'. split; [by apply (end_transaction (ends COMMITTED commit_writes (_ ← log_txn COMMIT; log_flush)))|].
    split; [done|]. split; [done|]. split; [done|]. split; [done|].
    intros HEl. rewrite HEl in HS. rewrite <- HS. by apply HC.
Qed.

(** C3: committing a transaction performs the deletes of its write set on the
    table, from the last to the first, changes no other page, appends an
    APPLYDELETE record for each and COMMIT, each record pointing to the one
    before, and flushes: the log file then holds all of it.  The locks are
    released, the write set is empty, the global latch has a reader less.  The
    pages of the deletes stay pinned. *)
Theorem commit_spec s n P pins t c mks w' :
  let e := engine s in
  shows (estore e) n (quiet P pins) → heap_rep P t c →
  steps commit_step (MkWork ∅ pins c) (rev (write_set (etxn e))) mks w' →
  Forall (λ x, owner (wrid x) e) (write_set (etxn e)) → frames_for 1 n (wpins w') →
  0 < readers (global_txn_latch (manager s)) →
  ∃ e' P', Commit s = Ok (tt, MkSystem (with_readers (-1) (manager s)) e') ∧
    shows (estore e') n (MkView P' (wpins w') (wdirty w') ∅) ∧ heap_rep P' t (wslots w') ∧
    (∀ q, q ∉ c.*1 → P' !! q = P !! q) ∧ ended COMMITTED e e' ∧
    (elogging e = true → content (log (diskManager (estore e'))) =
       log_stream (get_log (estore e)) ++ txn_records e (mks ++ [λ i l, NewLogRecordTxn i l COMMIT])).
Proof. exact (Commit_run s n P pins t c mks w'). Qed.

(** C4: aborting a transaction undoes its write set on the table, from the last
    write to the first, with a log record for each and ABORT, releases its locks,
    empties the write set and gives the global latch back.  If the write set is
    what the table's operations noted since the table was [c0], every record is
    what it was in [c0], whatever the empty slots left behind.

    This holds where each old tuple of an update fits in its place again when its turn comes
    ([fits] in [abort_step]).  Where it does not, because the room the update gave was
    taken, the code marks the record deleted and puts the old tuple on another page
    ([aborted_shrink_moves] in [History] is a run). *)
Theorem abort_spec s n P pins t c mks w' fuel :
  let e := engine s in
  shows (estore e) n (quiet P pins) → heap_rep P t c →
  steps abort_step (MkWork ∅ pins c) (rev (write_set (etxn e))) mks w' →
  Forall (λ x, owner (wrid x) e) (write_set (etxn e)) →
  Forall (λ x, table x = firstPageId t) (write_set (etxn e)) → frames_for 1 n (wpins w') →
  0 < readers (global_txn_latch (manager s)) →
  ∃ e' P', Abort fuel s = Ok (tt, MkSystem (with_readers (-1) (manager s)) e') ∧
    shows (estore e') n (MkView P' (wpins w') (wdirty w') ∅) ∧ heap_rep P' t (wslots w') ∧
    (∀ q, q ∉ c.*1 → P' !! q = P !! q) ∧ ended ABORTED e e' ∧
    (∀ c0, NoDup c0.*1 → did (firstPageId t) c0 (write_set (etxn e)) c → same_records (wslots w') c0) ∧
    log_stream (get_log (estore e')) = log_stream (get_log (estore e)) ++
      (if elogging e then txn_records e (mks ++ [λ i l, NewLogRecordTxn i l ABORT]) else []).
Proof.
  intros e S HR HT HO HTb HF HL.
  destruct (ends_run ABORTED ABORT (abort_writes fuel) (log_txn ABORT) (λ _, True) n P t e mks
    (MkWork ∅ pins c) w') as (e' & P' & E & [S' HR'] & HE & HP & HS & _).
  - apply abort_writes_run; [done|by split| | |done|done]; by apply Forall_rev.
  - intros e1 v S1 HL1. destruct (log_txn_run e1 n v ABORT S1) as (e2 & E2 & S2 & L2 & _); [by right; right|done|].
    by exists e2.
  - exists e', P'. split; [by apply (end_transaction (ends ABORTED (abort_writes fuel) (log_txn ABORT)))|].
    split; [done|]. split; [done|]. split; [done|]. split; [done|]. split; [|done].
    intros c0 ND0 HD. destruct (undo_restores _ _ _ _ HD ND0) as [ND HU].
    eapply (HU (MkWork ∅ pins c)); [exact ND|reflexivity|exact HT].
Qed.

(** Beginning a transaction gives it the next id, state GROWING, no locks and
    an empty write set, logs BEGIN as its first record and counts it as a reader
    of the global latch; while a checkpoint holds the latch it waits. *)
Theorem begin_spec s n v :
  let e := engine s in
  let i := i32 (next_txn_id (manager s) + 1) in
  shows (estore e) n v →
  (writer (global_txn_latch (manager s)) = true → Begin None s = Blocked) ∧
  (writer (global_txn_latch (manager s)) = false →
   ∃ e', Begin None s = Ok (etxn e', MkSystem (MkTransactionManager i
       (MkLatch (readers (global_txn_latch (manager s)) + 1) false) ({[i]} ∪ txn_map (manager s))) e') ∧
     shows (estore e') n v ∧ elocks e' = elocks e ∧ elogging e' = elogging e ∧
     etxn e' = (if elogging e then SetPrevLSN (next_lsn (log_manager (estore e))) (NewTransaction i)
                else NewTransaction i) ∧
     log_stream (get_log (estore e')) = log_stream (get_log (estore e)) ++
       (if elogging e
        then encode (set_Lsn (next_lsn (log_manager (estore e))) (NewLogRecordTxn i InvalidLSN BEGIN))
        else [])).
Proof.
  intros e i S. split; intros HW.
  { assert (EB : on_global RLock s = Blocked) by (unfold on_global, RLock; by rewrite HW).
    unfold Begin, mbind at 1, st_mbind at 1. by rewrite EB. }
  set (m := manager s). set (m1 := MkTransactionManager (next_txn_id m) (MkLatch (readers (global_txn_latch m) + 1) false) (txn_map m)).
  assert (E1 : on_global RLock s = Ok (tt, set_manager m1 s)) by (unfold on_global, RLock; by rewrite HW).
  set (m2 := MkTransactionManager i (global_txn_latch m1) (txn_map m)).
  set (e1 := set_txn (NewTransaction i) e).
  assert (HB : ∃ e2, (if elogging e1 then with_engine (log_txn BEGIN) else mret tt) (MkSystem m2 e1) =
      Ok (tt, MkSystem m2 e2) ∧ shows (estore e2) n v ∧
      log_run (if elogging e1 then [λ i l, NewLogRecordTxn i l BEGIN] else []) e1 e2).
  { destruct (elogging e1) eqn:EL.
    - destruct (log_txn_run e1 n v BEGIN S (or_introl eq_refl) EL) as (e2 & E2 & S2 & L2 & _).
      exists e2. split; [by apply (zoom_run engine set_engine _ (MkSystem m2 e1))|done].
    - exists e1. split; [done|]. split; [done|]. by apply log_run_kept, same_txn_refl. }
  destruct HB as (e2 & E2 & S2 & [G2 K2 T2 L2 N2]).
  change (elogging e1) with (elogging e) in *.
  assert (HI : txn_id (etxn e2) = i) by (rewrite T2; by destruct (elogging e)).
  exists e2. split; [|split; [done|split; [done|split; [done|split]]]].
  - unfold Begin. estep E1. estep (eq_refl : fresh_txn (set_manager m1 s) = Ok (NewTransaction i, MkSystem m2 e)).
    estep (eq_refl : with_engine (st_modify (set_txn (NewTransaction i))) (MkSystem m2 e) = Ok (tt, MkSystem m2 e1)).
    estep (eq_refl : st_get (MkSystem m2 e1) = Ok (MkSystem m2 e1, MkSystem m2 e1)). cbn [engine].
    estep E2. replace ({[i]} : gset Z) with ({[txn_id (etxn e2)]} : gset Z) by (by rewrite HI). done.
  - rewrite T2. by destruct (elogging e).
  - rewrite L2. destruct (elogging e); [|done]. cbn [chained].
    change (log_stream (get_log (estore e1))) with (log_stream (get_log (estore e))). f_equal.
Qed.
End properties.

(** ** A concrete transaction

    Transaction 7 has inserted a record and deleted it. *)
Definition deleted_engine : Engine ClockReplacer := engine_of (MarkDelete table_0 rid_00) tuple_engine.
Definition deleted_system : System ClockReplacer :=
  MkSystem (MkTransactionManager 7 (MkLatch 1 false) {[7]}) deleted_engine.
Definition bytes_00 : list byte := [Byte.x61; Byte.x62].
Definition writes_00 : list WriteRecord :=
  [NewWriteRecord rid_00 WINSERT ZeroTuple 0; NewWriteRecord rid_00 WDELETE ZeroTuple 0].

Lemma deleted_engine_shows :
  ∃ P, shows (estore deleted_engine) 2 (quiet P ∅) ∧ heap_rep P table_0 [(0, [Some (true, bytes_00)])].
Proof.
  destruct tuple_engine_shows as (P & S & HR).
  destruct (MarkDelete_run tuple_engine 2 P ∅ table_0 _ rid_00 _ S HR tuple_slot ltac:(done))
    as (e1 & e' & P1 & E & _ & S1 & HR1 & _).
  - apply (frames_room 2); [lia|apply no_pins_frames].
  - intros _. do 2 eexists. split; [vm_compute; reflexivity|]. split; [reflexivity|].
    split; [reflexivity|]. apply delete_appendable; [done|done|]. vm_compute. split; discriminate.
  - unfold deleted_engine, engine_of. rewrite E. exists P1. by split.
Qed.

Lemma deleted_txn :
  (write_set (etxn deleted_engine), exclusive_lock_set (etxn deleted_engine),
   shared_lock_set (etxn deleted_engine)) = (writes_00, [rid_00], []).
Proof. vm_compute. reflexivity. Qed.
Lemma deleted_writes : write_set (etxn deleted_engine) = writes_00.
Proof. exact (f_equal (λ x, x.1.1) deleted_txn). Qed.
Lemma deleted_owner : Forall (λ x, owner (wrid x) deleted_engine) (write_set (etxn deleted_engine)).
Proof.
  rewrite deleted_writes. pose proof (f_equal (λ x, x.1.2) deleted_txn) as HX.
  pose proof (f_equal snd deleted_txn) as HS. cbn [fst snd] in HX, HS.
  assert (HO : owner rid_00 deleted_engine)
    by (intros _; unfold IsExclusiveLocked, IsSharedLocked; rewrite HX, HS; clear; split; reflexivity).
  clear HX HS. unfold writes_00. rewrite !Forall_cons. split; [exact HO|split; [exact HO|apply Forall_nil_2]].
Qed.
Lemma slot_00 (b : bool) : heap_slot [(0, [Some (b, bytes_00)])] rid_00 (Some (b, bytes_00)).
Proof. by exists 0%nat, [Some (b, bytes_00)]. Qed.
Lemma one_pin_frames : frames_for 1 2 (pin_page 0 ∅).
Proof.
  unfold pin_page. rewrite lookup_empty. split.
  - rewrite map_size_insert_None, map_size_empty by apply lookup_empty. lia.
  - intros i k Hk. apply lookup_insert_Some in Hk as [[_ <-]|[_ Hk]]; [cbn; lia|].
    by rewrite lookup_empty in Hk.
Qed.

Lemma commit_steps_00 :
  steps commit_step (MkWork ∅ ∅ [(0, [Some (true, bytes_00)])]) (rev writes_00)
    [apply_record rid_00 bytes_00] (MkWork ({[0]} ∪ ∅) (pin_page 0 ∅) [(0, [None])]).
Proof.
  apply (steps_cons _ _ _ [apply_record rid_00 bytes_00] (MkWork ({[0]} ∪ ∅) (pin_page 0 ∅) [(0, [None])]) _ []).
  - apply (commit_delete ∅ ∅ [(0, [Some (true, bytes_00)])] rid_00 true bytes_00); [apply slot_00|done].
  - apply (steps_cons _ _ _ [] (MkWork ({[0]} ∪ ∅) (pin_page 0 ∅) [(0, [None])]) _ []); [by apply commit_other|constructor].
Qed.

Lemma commit_spec_witness :
  ∃ e' P', Commit deleted_system = Ok (tt, MkSystem (MkTransactionManager 7 (MkLatch 0 false) {[7]}) e') ∧
    heap_rep P' table_0 [(0, [None])] ∧ txn_state (etxn e') = COMMITTED ∧
    shows (estore e') 2 (MkView P' (pin_page 0 ∅) ({[0]} ∪ ∅) ∅).
Proof.
  destruct deleted_engine_shows as (P & S & HR).
  destruct (commit_spec deleted_system 2 P ∅ table_0 [(0, [Some (true, bytes_00)])]
    [apply_record rid_00 bytes_00] (MkWork ({[0]} ∪ ∅) (pin_page 0 ∅) [(0, [None])]) S HR)
    as (e' & P' & E & S' & HR' & _ & [HX _ _ _ _] & _).
  - cbn [engine deleted_system]. rewrite deleted_writes. apply commit_steps_00.
  - apply deleted_owner.
  - apply one_pin_frames.
  - reflexivity.
  - exists e', P'. split; [exact E|]. split; [exact HR'|]. split; [exact HX|exact S'].
Defined.

Lemma abort_steps_00 :
  steps abort_step (MkWork ∅ ∅ [(0, [Some (true, bytes_00)])]) (rev writes_00)
    [rollback_record rid_00; apply_record rid_00 bytes_00] (MkWork ({[0]} ∪ (∅ ∖ {[0]})) (pin_page 0 ∅) [(0, [None])]).
Proof.
  apply (steps_cons _ _ _ [rollback_record rid_00] (MkWork (∅ ∖ {[0]}) ∅ [(0, [Some (false, bytes_00)])]) _
    [apply_record rid_00 bytes_00]).
  - apply (undo_delete ∅ ∅ [(0, [Some (true, bytes_00)])] rid_00 bytes_00); [apply slot_00|done].
  - apply (steps_cons _ _ _ [apply_record rid_00 bytes_00] (MkWork ({[0]} ∪ (∅ ∖ {[0]})) (pin_page 0 ∅) [(0, [None])]) _ []).
    + apply (undo_insert (∅ ∖ {[0]}) ∅ [(0, [Some (false, bytes_00)])] rid_00 false bytes_00); [apply slot_00|done].
    + constructor.
Qed.

Lemma did_00 : did 0 [(0, [])] writes_00 [(0, [Some (true, bytes_00)])].
Proof.
  apply (did_delete 0 _ [NewWriteRecord rid_00 WINSERT ZeroTuple 0] [(0, [Some (false, bytes_00)])] rid_00 bytes_00);
    [|apply slot_00|done].
  apply (did_insert 0 _ [] [(0, [])] 1 bytes_00); [constructor|set_solver|vm_compute; reflexivity].
Qed.

Lemma abort_spec_witness :
  ∃ e' P', Abort 1 deleted_system = Ok (tt, MkSystem (MkTransactionManager 7 (MkLatch 0 false) {[7]}) e') ∧
    heap_rep P' table_0 [(0, [None])] ∧ same_records [(0, [None])] [(0, [])] ∧
    elocks e' = releaseLocks (etxn deleted_engine) (elocks deleted_engine).
Proof.
  destruct deleted_engine_shows as (P & S & HR).
  destruct (abort_spec deleted_system 2 P ∅ table_0 [(0, [Some (true, bytes_00)])]
    [rollback_record rid_00; apply_record rid_00 bytes_00]
    (MkWork ({[0]} ∪ (∅ ∖ {[0]})) (pin_page 0 ∅) [(0, [None])]) 1 S HR)
    as (e' & P' & E & _ & HR' & _ & [_ _ _ HX _] & HU & _).
  - cbn [engine deleted_system]. rewrite deleted_writes. apply abort_steps_00.
  - apply deleted_owner.
  - cbn [engine deleted_system]. rewrite deleted_writes. repeat constructor.
  - apply one_pin_frames.
  - reflexivity.
  - exists e', P'. split; [exact E|]. split; [exact HR'|]. split; [|exact HX].
    apply HU; [apply NoDup_singleton|]. cbn [engine deleted_system]. rewrite deleted_writes. apply did_00.
Defined.

Lemma begin_spec_witness :
  Begin None (MkSystem (MkTransactionManager 0 (MkLatch 0 true) ∅) table_engine) = Blocked ∧
  ∃ e', Begin None (MkSystem NewTransactionManager table_engine) =
    Ok (etxn e', MkSystem (MkTransactionManager 1 (MkLatch 1 false) ({[1]} ∪ ∅)) e') ∧
    etxn e' = SetPrevLSN 1 (NewTransaction 1).
Proof.
  destruct table_engine_shows as (P & S & _).
  split; [by apply (begin_spec (MkSystem (MkTransactionManager 0 (MkLatch 0 true) ∅) table_engine) 2 _ S)|].
  destruct (proj2 (begin_spec (MkSystem NewTransactionManager table_engine) 2 _ S) eq_refl)
    as (e' & E & _ & _ & _ & HX & _).
  exists e'. split; [exact E|]. rewrite HX. vm_compute. reflexivity.
Defined.
