(* ===== verification/Checkpoint.v ===== *)
(** * Checkpoints ([concurrency/checkpoint_manager.go])

    A checkpoint blocks the transactions with the global latch, writes every
    page of the pool and then the log to disk, and lets the transactions go on. *)

From S2P Require Import Prelude Bytes Types Tuples Disk LogRecord LogManager ClockReplacer Replacer Page BufferPool LockManager PoolView TablePage Engine TableHeap TransactionManager.

Section checkpoint.
Context {R : Type} `{Replacer R}.

(** [order] is the order in which the pages of the pool were visited. *)
Definition BeginCheckpoint (order : list Z) : st (System R) unit :=
  _ ← BlockAllTransactions;
  _ ← with_engine (with_store (FlushAllPages order));
  with_engine log_flush.
Definition EndCheckpoint : st (System R) unit := ResumeTransactions.
End checkpoint.

Section flushing.
Context {R : Type} `{Replacer R}.
Implicit Types (s : Store R).

(** Page [pid] is in the pool and not dirty. *)
Definition clean s (pid : Z) : Prop := ∃ f p pg, cached s pid f p pg ∧ isDirty pg = false.

Lemma FlushPages_run s n P order :
  shows s n (quiet P ∅) → (∀ pid, pid ∈ order → is_Some (pageTable (bpm s) !! pid)) →
  ∃ s', FlushPages order s = Ok (tt, s') ∧ shows s' n (quiet P ∅) ∧
    pageTable (bpm s') = pageTable (bpm s) ∧ log_same s s' ∧
    (∀ pid, pid ∈ order ∨ clean s pid → clean s' pid).
Proof.
  revert s. induction order as [|pid order IH]; intros s S HO.
  { exists s. split; [done|]. split; [done|]. split; [done|]. split; [apply log_same_refl|].
    intros pid [Hp|Hp]; [set_solver|done]. }
  destruct (sh_pool _ _ _ S) as (E & [I _] & _). destruct (HO pid) as [f HT]; [by left|].
  destruct (pi_map _ _ _ I _ _ HT) as (_ & p & pg & C & _).
  destruct (shows_flush s n _ pid f p pg S C eq_refl) as (s1 & E1 & S1 & C1 & Hold & HT1 & L1 & _);
    [unfold vlatch_of; cbn; by rewrite lookup_empty|].
  destruct (IH s1 S1) as (s2 & E2 & S2 & HT2 & L2 & HCl).
  { intros i Hi. rewrite HT1. apply HO. by right. }
  exists s2. split; [|split; [done|split; [congruence|split; [by eapply log_same_trans|]]]].
  - cbn [FlushPages]. by rewrite (st_bind_run _ _ _ _ _ E1).
  - intros i Hi. apply HCl. destruct (decide (i = pid)) as [->|Hne].
    + right. by exists f, p, (flushed pg).
    + destruct Hi as [Hi|(f' & p' & q & C' & Hd)]; [left; set_solver|right].
      exists f', p', q. auto.
Qed.

(** Flushing every page of the pool puts the contents of all pages on disk. *)
Lemma flush_all_run s n P order :
  shows s n (quiet P ∅) → (∀ pid, pid ∈ order ↔ is_Some (pageTable (bpm s) !! pid)) →
  ∃ s', FlushAllPages order s = Ok (tt, s') ∧ shows s' n (quiet P ∅) ∧
    pageTable (bpm s') = pageTable (bpm s) ∧ log_same s s' ∧
    (∀ pid, pid ∈ order → clean s' pid) ∧
    ∀ pid bs, P !! pid = Some bs → page_present pid (diskManager s') ∧ page_bytes pid (diskManager s') = bs.
Proof.
  intros S HO. destruct (FlushPages_run s n P order S) as (s1 & E1 & S1 & HT1 & L1 & HCl);
    [intros pid Hp; by apply HO|].
  exists s1. repeat (split; [done|]). split; [by intros pid Hp; apply HCl; left|]. intros pid bs HP.
  destruct (sh_pages _ _ _ S1 _ _ HP) as [(f & p & pg & C & <-)|(_ & HB & HBb)]; [|by split].
  destruct (HCl pid) as (f' & p' & q & C' & Hd).
  { left. apply HO. rewrite <- HT1. exists f. apply C. }
  destruct (cached_fun _ _ _ _ _ _ _ _ C C') as (_ & _ & ->).
  destruct (sh_cached _ _ _ S1 _ _ _ _ C) as (_ & _ & _ & HCc). apply HCc; [done|cbn; set_solver].
Qed.
End flushing.

Section properties.
Context {R : Type} `{Replacer R}.
Implicit Types (s : System R).

(** C24: a checkpoint begins only when no transaction is running, and with no page
    pinned it puts the contents of every page on disk and the whole log in the
    log file, losing nothing of either; then it holds the global latch, and
    ending it lets the transactions go on. *)
Theorem checkpoint_spec s n P order :
  let e := engine s in
  shows (estore e) n (quiet P ∅) →
  (∀ pid, pid ∈ order ↔ is_Some (pageTable (bpm (estore e)) !! pid)) →
  (global_txn_latch (manager s) ≠ NewRWLatch → 0 ≤ readers (global_txn_latch (manager s)) →
     BeginCheckpoint order s = Blocked) ∧
  (global_txn_latch (manager s) = NewRWLatch →
   ∃ s', BeginCheckpoint order s = Ok (tt, s') ∧ shows (estore (engine s')) n (quiet P ∅) ∧
     (∀ pid bs, P !! pid = Some bs → page_present pid (diskManager (estore (engine s'))) ∧
        page_bytes pid (diskManager (estore (engine s'))) = bs) ∧
     content (log (diskManager (estore (engine s')))) = log_stream (get_log (estore e)) ∧
     etxn (engine s') = etxn e ∧ elocks (engine s') = elocks e ∧
     EndCheckpoint s' = Ok (tt, MkSystem (manager s) (engine s'))).
Proof.
  intros e S HO. split.
  - intros HL H0. unfold BeginCheckpoint, BlockAllTransactions, mbind at 1, st_mbind at 1.
    assert (EB : on_global WLock s = Blocked).
    { unfold on_global, WLock. destruct (global_txn_latch (manager s)) as [k [|]]; [done|]. cbn in H0 |- *.
      rewrite (proj2 (Z.ltb_lt _ _)); [done|]. destruct (decide (k = 0)) as [->|]; [done|lia]. }
    by rewrite EB.
  - intros HL. destruct (flush_all_run (estore e) n P order S HO) as (s1 & E1 & S1 & HT1 & L1 & _ & HD).
    set (e1 := set_store s1 e).
    destruct (log_flush_run e1 n _ S1) as (e2 & E2 & S2 & [K T G (L2 & _)] & HC & _ & HDB).
    set (m := manager s). set (m1 := MkTransactionManager (next_txn_id m) (MkLatch 0 true) (txn_map m)).
    exists (MkSystem m1 e2). split; [|split; [exact S2|split; [|split; [|split; [exact T|split; [exact K|]]]]]].
    + assert (EB : on_global WLock s = Ok (tt, set_manager m1 s)) by (unfold on_global, WLock; by rewrite HL).
      assert (EF : with_engine (with_store (FlushAllPages order)) (set_manager m1 s) = Ok (tt, MkSystem m1 e1))
        by (apply (zoom_run engine set_engine); by apply with_store_run).
      unfold BeginCheckpoint, BlockAllTransactions. estep EB. estep EF.
      exact (zoom_run engine set_engine _ (MkSystem m1 e1) tt e2 E2).
    + intros pid bs HP. cbn [engine]. destruct (HD pid bs HP) as [HPr HBs].
      cbn [e1 set_store estore] in HDB. unfold page_present, page_bytes in *. rewrite HDB. by split.
    + cbn [engine]. rewrite HC, L2. apply L1.
    + unfold EndCheckpoint, ResumeTransactions, on_global. cbn. unfold set_manager, m. cbn. do 3 f_equal.
      destruct (manager s) as [a b c]. cbn in *. by rewrite HL.
Qed.
End properties.

(** ** A concrete checkpoint *)
Definition checkpoint_system : System ClockReplacer := MkSystem NewTransactionManager tuple_engine.

Lemma checkpoint_spec_witness :
  ∃ s' P, BeginCheckpoint [0] checkpoint_system = Ok (tt, s') ∧ heap_rep P table_0 [(0, [Some (false, bytes_00)])] ∧
    (∀ pid bs, P !! pid = Some bs → page_bytes pid (diskManager (estore (engine s'))) = bs) ∧
    EndCheckpoint s' = Ok (tt, MkSystem NewTransactionManager (engine s')).
Proof.
  destruct tuple_engine_shows as (P & S & HR).
  destruct (checkpoint_spec checkpoint_system 2 P [0] S) as [_ HC].
  - intros pid. assert (HT : pageTable (bpm (estore tuple_engine)) = {[0 := 0]}) by (vm_compute; reflexivity).
    cbn [engine checkpoint_system]. rewrite HT. split.
    + intros ->%list_elem_of_singleton. by exists 0.
    + intros [f Hf]. apply lookup_singleton_Some in Hf as [<- _]. by left.
  - destruct (HC eq_refl) as (s' & E & _ & HB & _ & _ & _ & EE). exists s', P.
    split; [exact E|]. split; [exact HR|]. split; [|exact EE]. intros pid bs HP. by apply HB.
Defined.

(** The pages go first: between the two halves of a checkpoint the disk has a
    page that carries the LSN of the insert, and no log record at all. *)
Definition half_checkpoint : Engine ClockReplacer := engine_of (with_store (FlushAllPages [0])) tuple_engine.

Lemma checkpoint_pages_before_log :
  content (log (diskManager (estore half_checkpoint))) = [] ∧
  GetLSN (New_page 0 false (page_bytes 0 (diskManager (estore half_checkpoint)))) = 1 ∧
  next_lsn (log_manager (estore half_checkpoint)) = 2.
Proof. split_and!; vm_compute; reflexivity. Qed.
