(* ===== verification/LogRecovery.v ===== *)
(** * Recovery ([recovery/log_recovery/log_recovery.go])

    After a crash the log is read from its beginning: [Redo] repeats what the
    records say where a page is older than the record, and finds out which
    transactions did not commit; [Undo] follows the records of each of those
    backwards and takes them back.  Both work on pages, through the buffer pool,
    without a transaction, locks or logging. *)

From S2P Require Import Prelude Bytes Types Tuples Disk LogRecord LogManager ClockReplacer Replacer Page BufferPool LockManager PoolView TablePage Engine TableHeap TransactionManager Checkpoint.

(** The disk manager is the one of the pool. *)
Record LogRecovery (R : Type) : Type := MkLogRecovery {
  rstore : Store R;
  active_txn : gmap Z Z;
  lsn_mapping : gmap Z Z;
  rbuffer : list byte;
  rlogging : bool
}.
Arguments MkLogRecovery {R}.
Arguments rstore {R}.
Arguments active_txn {R}.
Arguments lsn_mapping {R}.
Arguments rbuffer {R}.
Arguments rlogging {R}.

Section recovery.
Context {R : Type} `{Replacer R}.

Definition NewLogRecovery (s : Store R) (logging : bool) : LogRecovery R :=
  MkLogRecovery s ∅ ∅ (zeros (Z.to_nat LogBufferSize)) logging.

Definition set_rstore (st : Store R) (s : LogRecovery R) : LogRecovery R :=
  MkLogRecovery st (active_txn s) (lsn_mapping s) (rbuffer s) (rlogging s).
Definition set_tables (a m : gmap Z Z) (s : LogRecovery R) : LogRecovery R :=
  MkLogRecovery (rstore s) a m (rbuffer s) (rlogging s).
Definition set_rbuffer (b : list byte) (s : LogRecovery R) : LogRecovery R :=
  MkLogRecovery (rstore s) (active_txn s) (lsn_mapping s) b (rlogging s).
Definition in_store {A} (m : st (Store R) A) : st (LogRecovery R) A := zoom rstore set_rstore m.

(** [disk_manager.ReadLog(log_buffer, offset, &readBytes)] *)
Definition read_log (offset readBytes : Z) : st (LogRecovery R) (bool * Z) := λ s,
  let '((ok, buf, n), d) := ReadLog (rbuffer s) offset readBytes (diskManager (rstore s)) in
  Ok ((ok, n), set_rbuffer buf (set_rstore (set_disk d (rstore s)) s)).

(** [DeserializeLogRecord(log_buffer[from:upto], &log_record)] *)
Definition read_record (from upto : Z) (r : LogRecord) : st (LogRecovery R) (bool * LogRecord) := λ s,
  if (from <=? upto) && (upto <=? Z.of_nat (length (rbuffer s))) then
    x ← DeserializeLogRecord (drop (Z.to_nat from) (rbuffer s)) (Z.to_nat (upto - from)) r; Ok (x, s)
  else Panic.

(** A page operation with nil for the transaction and both managers. *)
Definition on_page_nil {A} (p : ptr) (m : st TPState A) : st (LogRecovery R) A := λ s,
  pg ← deref (page_objs (rstore s) !! p);
  r ← m (MkTPState (rlogging s) pg None None None);
  let '(a, s') := r in
  Ok (a, set_rstore (set_objs (<[p := tpage s']> (page_objs (rstore s))) (rstore s)) s).

Definition fetch_page (pid : Z) : st (LogRecovery R) ptr :=
  o ← in_store (FetchPage pid); st_lift (deref o).

(** The record and the operation that repeats a log record; the operation returns
    the log record, whose tuples it may change. *)
Definition redo_op (r : LogRecord) : option (RID * st TPState LogRecord) :=
  let ty := Log_record_type r in
  if ty =? INSERT then
    Some (Insert_rid r,
      rt ← TablePage.InsertTuple (SetRID (Insert_rid r) (Insert_tuple r)); mret (set_insert (Insert_rid r) (snd rt) r))
  else if ty =? APPLYDELETE then Some (Delete_rid r, _ ← TablePage.ApplyDelete (Delete_rid r); mret r)
  else if ty =? MARKDELETE then Some (Delete_rid r, _ ← TablePage.MarkDelete (Delete_rid r); mret r)
  else if ty =? ROLLBACKDELETE then Some (Delete_rid r, _ ← TablePage.RollbackDelete (Delete_rid r); mret r)
  else if ty =? UPDATE then
    Some (Update_rid r,
      x ← TablePage.UpdateTuple (New_tuple r) None None (Old_tuple r) (Update_rid r);
      mret (set_update (Update_rid r) (snd x) (New_tuple r) r))
  else None.

(** The operation that takes it back. *)
Definition undo_op (r : LogRecord) : option (RID * st TPState LogRecord) :=
  let ty := Log_record_type r in
  if ty =? INSERT then Some (Insert_rid r, _ ← TablePage.ApplyDelete (Insert_rid r); mret r)
  else if ty =? APPLYDELETE then
    Some (Delete_rid r,
      rt ← TablePage.InsertTuple (SetRID (Delete_rid r) (Delete_tuple r)); mret (set_delete (Delete_rid r) (snd rt) r))
  else if ty =? MARKDELETE then Some (Delete_rid r, _ ← TablePage.RollbackDelete (Delete_rid r); mret r)
  else if ty =? ROLLBACKDELETE then Some (Delete_rid r, _ ← TablePage.MarkDelete (Delete_rid r); mret r)
  else if ty =? UPDATE then
    Some (Update_rid r,
      x ← TablePage.UpdateTuple (Old_tuple r) None None (New_tuple r) (Update_rid r);
      mret (set_update (Update_rid r) (Old_tuple r) (snd x) r))
  else None.

Definition table_step (f : gmap Z Z → gmap Z Z) : st (LogRecovery R) unit :=
  st_modify (λ s, set_tables (f (active_txn s)) (lsn_mapping s) s).

(** A record in [Redo]. *)
Definition redo_record (file_offset buffer_offset : Z) (r : LogRecord) : st (LogRecovery R) LogRecord :=
  _ ← st_modify (λ s, set_tables (<[Txn_id r := Lsn r]> (active_txn s))
        (<[Lsn r := u32 (file_offset + buffer_offset)]> (lsn_mapping s)) s);
  let ty := Log_record_type r in
  match redo_op r with
  | Some (rid, m) =>
      page_ ← fetch_page (PageId rid);
      pg ← in_store (read_page page_);
      r' ← (if GetLSN pg <? Lsn r then
              r' ← on_page_nil page_ m;
              _ ← in_store (update_page page_ (λ pg, Ok (Page.SetLSN (Lsn r') pg)));
              mret r'
            else mret r);
      _ ← in_store (UnpinPage (PageId rid) true);
      mret r'
  | None =>
      if ty =? BEGIN then _ ← table_step (λ a, <[Txn_id r := Lsn r]> a); mret r
      else if ty =? COMMIT then _ ← table_step (base.delete (Txn_id r)); mret r
      else if ty =? NEWPAGE then
        o ← in_store NewPage;
        new_page ← st_lift (deref o);
        pg ← in_store (read_page new_page);
        _ ← on_page_nil new_page (Init (id pg) (Prev_page_id r));
        _ ← in_store (UnpinPage (id pg) true);
        mret r
      else mret r
  end.

(** The records of one chunk of the log, and where the last whole one ends. *)
Fixpoint redo_chunk (fuel : nat) (file_offset buffer_offset readBytes : Z) (r : LogRecord) :
    st (LogRecovery R) Z :=
  match fuel with
  | O => st_lift OutOfFuel
  | S fuel' =>
      x ← read_record buffer_offset readBytes r;
      let '(ok, r) := x in
      if ok : bool then
        r' ← redo_record file_offset buffer_offset r;
        redo_chunk fuel' file_offset (u32 (buffer_offset + Size r')) readBytes r'
      else mret buffer_offset
  end.

Fixpoint redo_loop (fuel : nat) (file_offset readBytes : Z) : st (LogRecovery R) unit :=
  match fuel with
  | O => st_lift OutOfFuel
  | S fuel' =>
      x ← read_log (i32 file_offset) readBytes;
      let '(ok, readBytes) := x in
      if ok : bool then
        buffer_offset ← redo_chunk fuel' file_offset 0 readBytes ZeroLogRecord;
        redo_loop fuel' (u32 (file_offset + buffer_offset)) readBytes
      else mret tt
  end.

Definition Redo (fuel : nat) : st (LogRecovery R) unit :=
  _ ← st_modify (set_rbuffer (zeros (Z.to_nat LogBufferSize)));
  redo_loop fuel 0 0.

(** A record in [Undo]. *)
Definition undo_record (r : LogRecord) : st (LogRecovery R) LogRecord :=
  match undo_op r with
  | Some (rid, m) =>
      page_ ← fetch_page (PageId rid);
      r' ← on_page_nil page_ m;
      _ ← in_store (UnpinPage (PageId rid) true);
      mret r'
  | None => mret r
  end.

(** The records of one transaction, backwards from [lsn]; an LSN that is not in
    the map is at offset 0. *)
Fixpoint undo_chain (fuel : nat) (lsn : Z) (r : LogRecord) : st (LogRecovery R) LogRecord :=
  if lsn =? InvalidLSN then mret r
  else
    match fuel with
    | O => st_lift OutOfFuel
    | S fuel' =>
        s ← st_get;
        x ← read_log (i32 (default 0 (lsn_mapping s !! lsn))) 0;
        y ← read_record 0 (snd x) r;
        r' ← undo_record (snd y);
        undo_chain fuel' (Prev_lsn r') r'
    end.

Fixpoint undo_all (fuel : nat) (lsns : list Z) (r : LogRecord) : st (LogRecovery R) unit :=
  match lsns with
  | [] => mret tt
  | lsn :: lsns' => r' ← undo_chain fuel lsn r; undo_all fuel lsns' r'
  end.

(** [order] is the order in which the transactions of [active_txn] were visited,
    [flush_order] that of the pages at the end. *)
Definition Undo (fuel : nat) (order flush_order : list Z) : st (LogRecovery R) unit :=
  s ← st_get;
  _ ← undo_all fuel ((λ t, default 0 (active_txn s !! t)) <$> order) ZeroLogRecord;
  in_store (FlushAllPages flush_order).
End recovery.

(** ** What a record does to the tuples of its page *)
Abbreviation slots := (list (option (bool * list byte))) (only parsing).
Abbreviation slot_no rid := (Z.to_nat (SlotNum rid)) (only parsing).

Definition insert_slots (t : Tuple) (ls : slots) : option slots :=
  if (0 <? size t) && (size t + sizeTuple <=? free_space ls)
  then Some (put_slot (free_slot ls) (Some (false, data t)) ls) else None.
Definition apply_slots (rid : RID) (ls : slots) : option slots :=
  match ls !! slot_no rid with Some (Some _) => Some (<[slot_no rid := None]> ls) | _ => None end.
Definition mark_slots (rid : RID) (ls : slots) : option slots :=
  match ls !! slot_no rid with
  | Some (Some (false, bs)) => Some (<[slot_no rid := Some (true, bs)]> ls)
  | _ => None
  end.
(** Rolling back a delete that is not there does nothing. *)
Definition unmark_slots (rid : RID) (ls : slots) : option slots :=
  match ls !! slot_no rid with
  | Some (Some (_, bs)) => Some (<[slot_no rid := Some (false, bs)]> ls)
  | _ => None
  end.
Definition update_slots (rid : RID) (t : Tuple) (ls : slots) : option slots :=
  match ls !! slot_no rid with
  | Some (Some (false, bs)) =>
      if (0 <? size t) && (size t <? 2 ^ 31) && (size t <=? free_space ls + zlen bs)
      then Some (<[slot_no rid := Some (false, data t)]> ls) else None
  | _ => None
  end.

(** None where the record does not apply to the page. *)
Definition redo_slots (r : LogRecord) : slots → option slots :=
  let ty := Log_record_type r in
  if ty =? INSERT then insert_slots (Insert_tuple r)
  else if ty =? APPLYDELETE then apply_slots (Delete_rid r)
  else if ty =? MARKDELETE then mark_slots (Delete_rid r)
  else if ty =? ROLLBACKDELETE then unmark_slots (Delete_rid r)
  else if ty =? UPDATE then update_slots (Update_rid r) (New_tuple r)
  else λ _, None.
Definition undo_slots (r : LogRecord) : slots → option slots :=
  let ty := Log_record_type r in
  if ty =? INSERT then apply_slots (Insert_rid r)
  else if ty =? APPLYDELETE then insert_slots (Delete_tuple r)
  else if ty =? MARKDELETE then unmark_slots (Delete_rid r)
  else if ty =? ROLLBACKDELETE then mark_slots (Delete_rid r)
  else if ty =? UPDATE then update_slots (Update_rid r) (Old_tuple r)
  else λ _, None.

(** ** Page operations without a transaction *)
Definition plain_change (ls : slots) (s s' : TPState) : Prop :=
  page_wf (bytes s') ∧ contents (bytes s') = ls ∧ links (bytes s') = links (bytes s) ∧
  GetLSN (tpage s') = GetLSN (tpage s).

Lemma plain_ready lock mk s : EnableLogging s = false → op_ready lock mk s.
Proof. unfold op_ready. by intros -> ?. Qed.

Lemma plain_logged lock mk s s' :
  EnableLogging s = false → op_logged lock mk s s' → GetLSN (tpage s') = GetLSN (tpage s).
Proof. intros HE [_ HL]. rewrite HE in HL. by destruct HL as (_ & _ & _ & HL). Qed.

Lemma slot_of_lookup r d x : contents d !! slot_no r = x → slot_of r d = x.
Proof. done. Qed.

Lemma insert_plain s t rid ls :
  EnableLogging s = false → page_wf (bytes s) → tuple_ok t → insert_slots t (contents (bytes s)) = Some ls →
  ∃ x s', TablePage.InsertTuple (SetRID rid t) s = Ok (x, s') ∧ plain_change ls s s'.
Proof.
  intros HE W Ht HS. unfold insert_slots in HS. destruct (_ && _) eqn:HC; [|done]. injection HS as <-.
  apply andb_true_iff in HC as [H1%Z.ltb_lt H2%Z.leb_le].
  destruct (insert_tuple_run s (SetRID rid t) W Ht H1 H2) as (s' & E & W' & C' & L' & HL); [by apply plain_ready|].
  eexists _, s'. split; [exact E|]. split; [done|]. split; [done|]. split; [done|]. by eapply plain_logged.
Qed.

Lemma apply_plain s rid ls :
  EnableLogging s = false → page_wf (bytes s) → 0 ≤ SlotNum rid → apply_slots rid (contents (bytes s)) = Some ls →
  ∃ s', TablePage.ApplyDelete rid s = Ok (tt, s') ∧ plain_change ls s s'.
Proof.
  intros HE W H0 HS. unfold apply_slots in HS. destruct (contents (bytes s) !! _) as [[[b bs]|]|] eqn:HC; [|done..].
  injection HS as <-. destruct (apply_delete_run s rid b bs W H0 HC) as (s' & E & (W' & C' & L') & _ & HL);
    [by apply plain_ready|].
  exists s'. split; [exact E|]. split; [done|]. split; [done|]. split; [done|]. by eapply plain_logged.
Qed.

Lemma mark_plain s rid ls :
  EnableLogging s = false → page_wf (bytes s) → 0 ≤ SlotNum rid → mark_slots rid (contents (bytes s)) = Some ls →
  ∃ s', TablePage.MarkDelete rid s = Ok (true, s') ∧ plain_change ls s s'.
Proof.
  intros HE W H0 HS. unfold mark_slots in HS. destruct (contents (bytes s) !! _) as [[[[|] bs]|]|] eqn:HC; [done| |done..].
  injection HS as <-. destruct (mark_delete_run s rid bs W H0 HC) as (s' & E & (W' & C' & L') & HL);
    [by apply plain_ready|].
  exists s'. split; [exact E|]. split; [done|]. split; [done|]. split; [done|]. by eapply plain_logged.
Qed.

Lemma rollback_live s rid bs :
  EnableLogging s = false → page_wf (bytes s) → 0 ≤ SlotNum rid → contents (bytes s) !! slot_no rid = Some (Some (false, bs)) →
  TablePage.RollbackDelete rid s = Ok (tt, s).
Proof.
  intros HE W H0 HC. pose proof (occupied_intro rid _ _ _ W H0 HC) as HO. unfold TablePage.RollbackDelete.
  step_get. rewrite HE. step (eq_refl : (mret tt : Prelude.st TPState unit) s = Ok (tt, s)).
  step_read (oc_count _ _ _ _ HO). rewrite (proj2 (Z.ltb_lt _ _)) by apply HO. step_lift (eq_refl (Ok tt)).
  step_read (oc_size _ _ _ _ HO). by rewrite (oc_deleted _ _ _ _ HO).
Qed.

Lemma rollback_plain s rid ls :
  EnableLogging s = false → page_wf (bytes s) → 0 ≤ SlotNum rid → unmark_slots rid (contents (bytes s)) = Some ls →
  ∃ s', TablePage.RollbackDelete rid s = Ok (tt, s') ∧ plain_change ls s s'.
Proof.
  intros HE W H0 HS. unfold unmark_slots in HS. destruct (contents (bytes s) !! _) as [[[[|] bs]|]|] eqn:HC; [| |done..].
  - injection HS as <-. destruct (rollback_delete_run s rid bs W H0 HC) as (s' & E & (W' & C' & L') & HL);
      [by apply plain_ready|].
    exists s'. split; [exact E|]. split; [done|]. split; [done|]. split; [done|]. by eapply plain_logged.
  - injection HS as <-. exists s. split; [by eapply rollback_live|]. rewrite list_insert_id by done. by split.
Qed.

Lemma update_plain s rid t old ls :
  EnableLogging s = false → page_wf (bytes s) → 0 ≤ SlotNum rid → tuple_ok t →
  update_slots rid t (contents (bytes s)) = Some ls →
  ∃ x s', TablePage.UpdateTuple t None None old rid s = Ok (x, s') ∧ plain_change ls s s'.
Proof.
  intros HE W H0 Ht HS. unfold update_slots in HS.
  destruct (contents (bytes s) !! _) as [[[[|] bs]|]|] eqn:HC; [done| |done..].
  destruct (_ && _) eqn:Hc; [|done]. injection HS as <-.
  apply andb_true_iff in Hc as [[H1%Z.ltb_lt H2%Z.ltb_lt]%andb_true_iff H3%Z.leb_le].
  pose proof (update_tuple_run s rid bs t None None old t W H0 HC H1 eq_refl Ht ltac:(lia)
    ltac:(intros _; by apply plain_ready)) as HU. rewrite decide_True in HU by done.
  destruct HU as (s' & E & (W' & C' & L') & HL). eexists _, s'. split; [exact E|].
  split; [done|]. split; [done|]. split; [done|]. by eapply plain_logged.
Qed.

(** The header of a log record is not changed by its page operation. *)
Definition same_head (r r' : LogRecord) : Prop :=
  Size r' = Size r ∧ Lsn r' = Lsn r ∧ Prev_lsn r' = Prev_lsn r.

(** [op] does to the slots of a page what [sl] says. *)
Definition op_does (op : LogRecord → option (RID * st TPState LogRecord)) (sl : LogRecord → slots → option slots)
    (r : LogRecord) : Prop :=
  ∀ rid m, op r = Some (rid, m) → 0 ≤ SlotNum rid → Forall tuple_ok (record_tuples r) →
    keeps_object m ∧
    ∀ s ls, EnableLogging s = false → page_wf (bytes s) → sl r (contents (bytes s)) = Some ls →
      ∃ r' s', m s = Ok (r', s') ∧ plain_change ls s s' ∧ same_head r r'.

Lemma plain_ret {A} (m : st TPState A) (f : A → LogRecord) r s x s' ls :
  m s = Ok (x, s') → plain_change ls s s' → same_head r (f x) →
  ∃ r' s', (y ← m; mret (f y)) s = Ok (r', s') ∧ plain_change ls s s' ∧ same_head r r'.
Proof. intros E HC HH. exists (f x), s'. split; [|done]. by rewrite (st_bind_run _ _ _ _ _ E). Qed.

Lemma record_tuple_ok r t : t ∈ record_tuples r → Forall tuple_ok (record_tuples r) → tuple_ok t.
Proof. intros Hin HF. rewrite Forall_forall in HF. by apply HF. Qed.

(** The type of a record is one of five, or it has no page operation. *)
Ltac record_type r :=
  destruct (Z.eqb_spec (Log_record_type r) INSERT); [|
  destruct (Z.eqb_spec (Log_record_type r) APPLYDELETE); [|
  destruct (Z.eqb_spec (Log_record_type r) MARKDELETE); [|
  destruct (Z.eqb_spec (Log_record_type r) ROLLBACKDELETE); [|
  destruct (Z.eqb_spec (Log_record_type r) UPDATE); [|]]]]].

Ltac op_keeps := first [apply InsertTuple_keeps | apply ApplyDelete_keeps | apply MarkDelete_keeps
  | apply RollbackDelete_keeps | apply UpdateTuple_keeps].

Lemma redo_op_does r : op_does redo_op redo_slots r.
Proof.
  unfold op_does, redo_op, redo_slots. intros rid m E H0 HT.
  assert (HTs : record_tuples r = if Log_record_type r =? INSERT then [Insert_tuple r] else
    if is_delete (Log_record_type r) then [Delete_tuple r] else
    if Log_record_type r =? UPDATE then [Old_tuple r; New_tuple r] else []) by done.
  record_type r; [| | | | |done]; injection E as <- <-;
    (split; [apply keeps_bind; [op_keeps|intros x; apply keeps_ret]|]); intros s ls HE W HS.
  - destruct (insert_plain s (Insert_tuple r) (Insert_rid r) ls HE W) as (x & s' & Em & HC);
      [|done|by eapply (plain_ret _ (λ y, set_insert (Insert_rid r) (snd y) r))].
    eapply record_tuple_ok; [|done]. rewrite HTs, ?e. by left.
  - destruct (apply_plain s (Delete_rid r) ls HE W H0 HS) as (s' & Em & HC).
    by eapply (plain_ret _ (λ _, r)).
  - destruct (mark_plain s (Delete_rid r) ls HE W H0 HS) as (s' & Em & HC).
    by eapply (plain_ret _ (λ _, r)).
  - destruct (rollback_plain s (Delete_rid r) ls HE W H0 HS) as (s' & Em & HC).
    by eapply (plain_ret _ (λ _, r)).
  - destruct (update_plain s (Update_rid r) (New_tuple r) (Old_tuple r) ls HE W H0) as (x & s' & Em & HC);
      [|done|by eapply (plain_ret _ (λ y, set_update (Update_rid r) (snd y) (New_tuple r) r))].
    eapply record_tuple_ok; [|done]. rewrite HTs, ?e. by right; left.
Qed.

Lemma undo_op_does r : op_does undo_op undo_slots r.
Proof.
  unfold op_does, undo_op, undo_slots. intros rid m E H0 HT.
  assert (HTs : record_tuples r = if Log_record_type r =? INSERT then [Insert_tuple r] else
    if is_delete (Log_record_type r) then [Delete_tuple r] else
    if Log_record_type r =? UPDATE then [Old_tuple r; New_tuple r] else []) by done.
  record_type r; [| | | | |done]; injection E as <- <-;
    (split; [apply keeps_bind; [op_keeps|intros x; apply keeps_ret]|]); intros s ls HE W HS.
  - destruct (apply_plain s (Insert_rid r) ls HE W H0 HS) as (s' & Em & HC).
    by eapply (plain_ret _ (λ _, r)).
  - destruct (insert_plain s (Delete_tuple r) (Delete_rid r) ls HE W) as (x & s' & Em & HC);
      [|done|by eapply (plain_ret _ (λ y, set_delete (Delete_rid r) (snd y) r))].
    eapply record_tuple_ok; [|done]. rewrite HTs, ?e. by left.
  - destruct (rollback_plain s (Delete_rid r) ls HE W H0 HS) as (s' & Em & HC).
    by eapply (plain_ret _ (λ _, r)).
  - destruct (mark_plain s (Delete_rid r) ls HE W H0 HS) as (s' & Em & HC).
    by eapply (plain_ret _ (λ _, r)).
  - destruct (update_plain s (Update_rid r) (Old_tuple r) (New_tuple r) ls HE W H0) as (x & s' & Em & HC);
      [|done|by eapply (plain_ret _ (λ y, set_update (Update_rid r) (Old_tuple r) (snd y) r))].
    eapply record_tuple_ok; [|done]. rewrite HTs, ?e. by left.
Qed.

(** ** The pages of the database, abstractly *)
Record apage : Type := MkAPage { alsn : Z; aslots : slots; anext : Z }.

Definition page_lsn (d : list byte) : Z := i32 (zfield OffsetLSN d).

(** [P] has the pages of [A], with their LSN, tuples and next page. *)
Definition pages_are (P : gmap Z (list byte)) (A : gmap Z apage) : Prop :=
  ∀ q a, A !! q = Some a → ∃ d, P !! q = Some d ∧ page_is d q (aslots a) (anext a) ∧
    page_lsn d = alsn a ∧ page_in_range q.

Lemma pages_are_insert P A q a d :
  pages_are P A → page_is d q (aslots a) (anext a) → page_lsn d = alsn a → page_in_range q →
  pages_are (<[q := d]> P) (<[q := a]> A).
Proof.
  intros HA HI HL HR i b Hi. apply lookup_insert_Some in Hi as [[<- <-]|[Hne Hi]].
  - exists d. by rewrite lookup_insert_eq.
  - destruct (HA i b Hi) as (d' & HP & X). exists d'. by rewrite lookup_insert_ne.
Qed.

(** The page of a record. *)
Definition page_of (r : LogRecord) : option Z :=
  let ty := Log_record_type r in
  if ty =? INSERT then Some (PageId (Insert_rid r))
  else if is_delete ty then Some (PageId (Delete_rid r))
  else if ty =? UPDATE then Some (PageId (Update_rid r))
  else None.

(** Redo: a page older than the record gets its change and its LSN; a new page is
    made whatever is there. *)
Definition redo_on (r : LogRecord) (a : apage) : option apage :=
  if alsn a <? Lsn r then ls ← redo_slots r (aslots a); Some (MkAPage (Lsn r) ls (anext a)) else Some a.
Definition redo_step (r : LogRecord) (x : gmap Z apage * Z) : option (gmap Z apage * Z) :=
  let '(A, next) := x in
  match page_of r with
  | Some q => a ← A !! q; a' ← redo_on r a; Some (<[q := a']> A, next)
  | None => if Log_record_type r =? NEWPAGE
            then Some (<[next := MkAPage 0 [] InvalidPageID]> A, next + 1) else Some (A, next)
  end.
Fixpoint redo_steps (rs : list LogRecord) (x : gmap Z apage * Z) : option (gmap Z apage * Z) :=
  match rs with [] => Some x | r :: rs' => x' ← redo_step r x; redo_steps rs' x' end.

(** The transactions that have not committed, with their last LSN, and where each
    record is in the log. *)
Definition active_step (r : LogRecord) (m : gmap Z Z) : gmap Z Z :=
  if Log_record_type r =? COMMIT then base.delete (Txn_id r) m else <[Txn_id r := Lsn r]> m.
Fixpoint active_after (rs : list LogRecord) (m : gmap Z Z) : gmap Z Z :=
  match rs with [] => m | r :: rs' => active_after rs' (active_step r m) end.
Fixpoint offsets (off : Z) (rs : list LogRecord) (m : gmap Z Z) : gmap Z Z :=
  match rs with [] => m | r :: rs' => offsets (off + Size r) rs' (<[Lsn r := off]> m) end.

(** Undo: the change is taken back, the LSN stays. *)
Definition undo_step (r : LogRecord) (A : gmap Z apage) : option (gmap Z apage) :=
  match page_of r with
  | Some q => a ← A !! q; ls ← undo_slots r (aslots a); Some (<[q := MkAPage (alsn a) ls (anext a)]> A)
  | None => Some A
  end.
Fixpoint undo_steps (rs : list LogRecord) (A : gmap Z apage) : option (gmap Z apage) :=
  match rs with [] => Some A | r :: rs' => A' ← undo_step r A; undo_steps rs' A' end.

(** A record that was read is the one that was written, but for the RID pointers
    of its tuples. *)
Record like (r r' : LogRecord) : Prop := {
  lk_size : Size r' = Size r;
  lk_lsn : Lsn r' = Lsn r;
  lk_txn : Txn_id r' = Txn_id r;
  lk_prev : Prev_lsn r' = Prev_lsn r;
  lk_type : Log_record_type r' = Log_record_type r;
  lk_redo : redo_slots r' = redo_slots r;
  lk_undo : undo_slots r' = undo_slots r;
  lk_page : page_of r' = page_of r;
  lk_new : Log_record_type r = NEWPAGE → Prev_page_id r' = Prev_page_id r;
  lk_tuples : Forall tuple_ok (record_tuples r) → Forall tuple_ok (record_tuples r');
  lk_rid : ∀ rid m, redo_op r' = Some (rid, m) ∨ undo_op r' = Some (rid, m) → page_of r' = Some (PageId rid) ∧
    (record_ranges r → 0 ≤ SlotNum rid)
}.

Lemma reread_type r r0 : Log_record_type (reread r r0) = Log_record_type r.
Proof. unfold reread. by repeat case_match. Qed.

Lemma reread_like r r0 : like r (reread r r0).
Proof.
  assert (HP : ∀ rid m, redo_op (reread r r0) = Some (rid, m) ∨ undo_op (reread r r0) = Some (rid, m) →
    page_of (reread r r0) = Some (PageId rid) ∧ (record_ranges r → 0 ≤ SlotNum rid)).
  { intros rid m. unfold redo_op, undo_op, page_of. rewrite reread_type.
    unfold reread, is_delete, record_ranges, rid_ok, in_u32.
    record_type r; rewrite ?e; cbn; intros [E|E]; try discriminate E; injection E as <- _;
      (split; [done|intros HR; lia]). }
  assert (HN : Log_record_type r = NEWPAGE → Prev_page_id (reread r r0) = Prev_page_id r)
    by (intros e; unfold reread; by rewrite e).
  split; try exact HP; try exact HN; try apply reread_type; unfold redo_slots, undo_slots, page_of, record_tuples;
    rewrite ?reread_type; unfold reread, is_delete; record_type r; rewrite ?e; cbn; try done.
  all: try by destruct (Log_record_type r =? NEWPAGE).
  all: rewrite !Forall_cons; tauto.
Qed.

(** ** A page in recovery *)
Section sessions.
Context {R : Type} `{Replacer R}.
Implicit Types (s : LogRecovery R).

(** Recovery runs without logging on [n] frames; the pool has the pages [P], none
    of them pinned, and the log file holds [L]. *)
Record recovering (n : nat) (P : gmap Z (list byte)) (L : list byte) s : Prop := {
  rc_shows : shows (rstore s) n (quiet P ∅);
  rc_logging : rlogging s = false;
  rc_log : content (log (diskManager (rstore s))) = L;
  rc_off : offset (log_manager (rstore s)) = 0
}.

Lemma recovering_step n P P' L s st :
  recovering n P L s → shows st n (quiet P' ∅) → log_same (rstore s) st → recovering n P' L (set_rstore st s).
Proof.
  intros [S HG HL HO] S' (HS & _ & HO'). specialize (HO' HO). split; try done.
  unfold log_stream, get_log in HS. cbn in HS. rewrite HO, HO' in HS.
  change (Z.to_nat 0) with 0%nat in HS. rewrite !take_0, !app_nil_r in HS. cbn. congruence.
Qed.

Lemma recovering_tables n P L s a m : recovering n P L s → recovering n P L (set_tables a m s).
Proof. by intros []. Qed.

Lemma in_store_run {A} (m : st (Store R) A) s a st :
  m (rstore s) = Ok (a, st) → in_store m s = Ok (a, set_rstore st s).
Proof. intros E. by apply zoom_run. Qed.

Lemma set_rstore_same s : set_rstore (rstore s) s = s.
Proof. by destruct s. Qed.

(** Fetch a page, change its object, unpin it as dirty. *)
Lemma page_session n P L s pid d :
  recovering n P L s → P !! pid = Some d → (0 < n)%nat →
  ∃ p pg st, fetch_page pid s = Ok (p, set_rstore st s) ∧ page_objs st !! p = Some pg ∧ pdata pg = d ∧
    ∀ pg', pg' = set_pdata (pdata pg') pg → length (pdata pg') = length d →
      ∃ st', in_store (UnpinPage pid true) (set_rstore (upd_obj p pg' st) s) = Ok (true, set_rstore st' s) ∧
        recovering n (<[pid := pdata pg']> P) L (set_rstore st' s) ∧
        nextPageID (diskManager st') = nextPageID (diskManager (rstore s)).
Proof.
  intros RC HP Hn. pose proof (rc_shows _ _ _ _ RC) as S.
  destruct (shows_fetch (rstore s) n (quiet P ∅) pid d S HP) as (p & st & EF & S1 & Hh & _ & L1 & N1).
  { right. cbn. by rewrite map_size_empty. }
  { unfold vpin_count. cbn. rewrite lookup_empty. cbn. lia. }
  { intros i [l Hl]. cbn in Hl. by rewrite lookup_empty in Hl. }
  destruct (held_object _ _ _ _ _ _ S1 Hh HP) as (f & pg & C & HO & Hid & Hd & HLt & HLn).
  exists p, pg, st. split; [|split; [done|split; [done|]]].
  { unfold fetch_page. by estep (in_store_run _ s _ _ EF). }
  intros pg' Hpg HLen.
  destruct (shows_write st n _ pid f p pg pg' S1) as (S2 & _ & _);
    [cbn; by rewrite lookup_insert_eq|done|by rewrite Hpg..|by rewrite Hd|].
  destruct (shows_unpin _ n _ pid true S2) as (st' & EU & S3 & _ & L3 & D3 & _);
    [cbn; by rewrite lookup_insert_eq|by left|].
  change (vwrite pid (pdata pg') (vpin pid (quiet P ∅)))
    with (vheld (<[pid := pdata pg']> P) ∅ ({[pid]} ∪ ∅) ∅ pid) in S3.
  rewrite vunpin_vheld in S3 by (intros i k Hk; by rewrite lookup_empty in Hk).
  replace (({[pid]} ∪ ∅) ∖ {[pid]} : gset Z) with (∅ : gset Z) in S3 by set_solver.
  exists st'. split; [exact (in_store_run _ (set_rstore (upd_obj p pg' st) s) _ _ EU)|]. split.
  - eapply recovering_step; [exact RC|exact S3|]. by eapply log_same_trans; [exact L1|].
  - rewrite D3. exact N1.
Qed.

(** The LSN of a page, stamped. *)
Lemma SetLSN_page lsn pg : zlen (pdata pg) = PageSize → Page.SetLSN lsn pg = set_pdata (SetLSN_bytes lsn (pdata pg)) pg.
Proof. intros HL. unfold Page.SetLSN, SetLSN_bytes, zput. done. Qed.

Lemma page_is_stamp d q ls next lsn :
  page_is d q ls next → in_i32 lsn →
  page_is (SetLSN_bytes lsn d) q ls next ∧ page_lsn (SetLSN_bytes lsn d) = lsn ∧
  length (SetLSN_bytes lsn d) = length d.
Proof.
  intros HI Hl. pose proof (pg_wf _ _ _ _ HI) as W. destruct (stamp_page d lsn W) as (W' & C' & L' & F' & _).
  split; [|split].
  - eapply page_is_links; [exact HI|done| |done]. by rewrite C', (pg_contents _ _ _ _ HI).
  - unfold page_lsn. by rewrite F', i32_u32, i32_small.
  - pose proof (pw_len _ W). pose proof (pw_len _ W'). unfold zlen in *. lia.
Qed.

(** A page operation of recovery on the object of a page. *)
Lemma on_page_nil_run s st p pg d q ls next op sl r rid m ls' :
  op_does op sl r → op r = Some (rid, m) → 0 ≤ SlotNum rid → Forall tuple_ok (record_tuples r) →
  rlogging s = false → page_objs st !! p = Some pg → pdata pg = d → page_is d q ls next → sl r ls = Some ls' →
  ∃ r' pg', on_page_nil p m (set_rstore st s) = Ok (r', set_rstore (upd_obj p pg' st) s) ∧ same_head r r' ∧
    pg' = set_pdata (pdata pg') pg ∧ length (pdata pg') = length d ∧
    page_is (pdata pg') q ls' next ∧ page_lsn (pdata pg') = page_lsn d.
Proof.
  intros HD E H0 HT HG HO Hd HI HS. destruct (HD rid m E H0 HT) as [HK HR].
  assert (Hb : bytes (MkTPState false pg None None None) = d) by done.
  destruct (HR (MkTPState false pg None None None) ls') as (r' & s' & Em & (W' & C' & L' & HLs) & HH);
    [done|rewrite Hb; apply HI|rewrite Hb; by rewrite (pg_contents _ _ _ _ HI)|].
  pose proof (HK _ _ _ Em) as HT'. cbn [tpage] in HT'.
  exists r', (tpage s'). split; [|split; [done|split; [exact HT'|split; [|split]]]].
  - unfold on_page_nil. cbn [set_rstore rstore rlogging]. rewrite HO. mred. rewrite HG, Em. done.
  - pose proof (pw_len _ W'). pose proof (pw_len _ (pg_wf _ _ _ _ HI)). unfold zlen, bytes in *. lia.
  - rewrite Hb in L'. eapply page_is_links; [exact HI|exact W'|exact C'|exact L'].
  - rewrite !GetLSN_field in HLs. unfold page_lsn. rewrite <- Hd. exact HLs.
Qed.
End sessions.

(** ** Redo *)
Section redo.
Context {R : Type} `{Replacer R}.
Implicit Types (s : LogRecovery R).

Definition record_fine (r : LogRecord) : Prop := record_ok r ∧ record_ranges r.

(** The page part of a record of a page. *)
Definition redo_page (rid : RID) (m : st TPState LogRecord) (r : LogRecord) : st (LogRecovery R) LogRecord :=
  page_ ← fetch_page (PageId rid);
  pg ← in_store (read_page page_);
  r' ← (if GetLSN pg <? Lsn r then
          r' ← on_page_nil page_ m;
          _ ← in_store (update_page page_ (λ pg, Ok (Page.SetLSN (Lsn r') pg)));
          mret r'
        else mret r);
  _ ← in_store (UnpinPage (PageId rid) true);
  mret r'.

Lemma redo_page_run n P A L s r r1 rid m a a' :
  recovering n P L s → pages_are P A → (0 < n)%nat → like r r1 → record_fine r →
  redo_op r1 = Some (rid, m) → A !! PageId rid = Some a → redo_on r a = Some a' →
  ∃ r' P' st, redo_page rid m r1 s = Ok (r', set_rstore st s) ∧ recovering n P' L (set_rstore st s) ∧
    pages_are P' (<[PageId rid := a']> A) ∧ same_head r1 r' ∧
    nextPageID (diskManager st) = nextPageID (diskManager (rstore s)).
Proof.
  intros RC HA Hn LK [HOk HRg] E Ha HR. destruct (HA _ _ Ha) as (d & HP & HI & HL & HRq).
  destruct (lk_rid _ _ LK rid m (or_introl E)) as [_ H0]. specialize (H0 HRg).
  pose proof (lk_tuples _ _ LK (ok_tuples _ HOk)) as HT.
  destruct (page_session n P L s (PageId rid) d RC HP Hn) as (p & pg & st & E1 & HO & Hd & HS).
  assert (E2 : in_store (read_page p) (set_rstore st s) = Ok (pg, set_rstore st s))
    by (exact (in_store_run _ (set_rstore st s) _ _ (read_page_run _ _ _ HO))).
  assert (HG : GetLSN pg = alsn a) by (rewrite GetLSN_field, Hd; exact HL).
  unfold redo_on in HR. unfold redo_page. rewrite <- (lk_lsn _ _ LK) in HR.
  destruct (alsn a <? Lsn r1) eqn:Hlt.
  - destruct (redo_slots r (aslots a)) as [ls'|] eqn:HSl; [|done]. cbn in HR. injection HR as <-.
    destruct (on_page_nil_run s st p pg d (PageId rid) (aslots a) (anext a) redo_op redo_slots r1 rid m ls')
      as (r' & pg' & E3 & HH & Hpg' & HLn & HI' & _); try done; [apply redo_op_does|apply RC|by rewrite (lk_redo _ _ LK)|].
    destruct HH as (HH1 & HH2 & HH3).
    assert (HLp : in_i32 (Lsn r1)) by (rewrite (lk_lsn _ _ LK); apply HRg).
    destruct (page_is_stamp _ _ _ _ (Lsn r1) HI' HLp) as (HI2 & HL2 & HLn2).
    set (pg2 := set_pdata (SetLSN_bytes (Lsn r1) (pdata pg')) pg).
    assert (E4 : in_store (update_page p (λ pg, Ok (Page.SetLSN (Lsn r') pg))) (set_rstore (upd_obj p pg' st) s) =
      Ok (tt, set_rstore (upd_obj p pg2 st) s)).
    { assert (HO' : page_objs (upd_obj p pg' st) !! p = Some pg') by apply lookup_insert_eq.
      pose proof (update_page_run (upd_obj p pg' st) p pg' (λ pg, Ok (Page.SetLSN (Lsn r') pg)) _ HO' eq_refl) as EU.
      fold (upd_obj p (Page.SetLSN (Lsn r') pg') (upd_obj p pg' st)) in EU. rewrite upd_obj_twice in EU.
      assert (HP2 : set_pdata (SetLSN_bytes (Lsn r1) (pdata pg')) pg' = pg2) by (rewrite Hpg' at 2; done).
      rewrite SetLSN_page, HH2, HP2 in EU by apply HI'. rewrite HH2.
      exact (in_store_run _ (set_rstore (upd_obj p pg' st) s) _ _ EU). }
    destruct (HS pg2) as (st' & E5 & RC' & HN); [done|cbn; lia|].
    exists r', (<[PageId rid := pdata pg2]> P), st'. split.
    { estep E1. estep E2. rewrite HG, Hlt.
      assert (E34 : (r' ← on_page_nil p m;
        _ ← in_store (update_page p (λ pg, Ok (Page.SetLSN (Lsn r') pg))); mret r') (set_rstore st s) =
        Ok (r', set_rstore (upd_obj p pg2 st) s)) by (estep E3; by estep E4).
      estep E34. by estep E5. }
    split; [done|]. split; [|done]. apply pages_are_insert; [done|exact HI2|exact HL2|done].
  - injection HR as <-. assert (HOw : upd_obj p pg st = st).
    { unfold upd_obj, set_objs. rewrite insert_id by done. by destruct st. }
    destruct (HS pg) as (st' & E5 & RC' & HN); [by destruct pg|by rewrite Hd|]. rewrite HOw in E5.
    exists r1, (<[PageId rid := pdata pg]> P), st'. split.
    { estep E1. estep E2. rewrite HG, Hlt. estep (eq_refl : (mret r1 : Prelude.st (LogRecovery R) LogRecord) (set_rstore st s) = Ok (r1, set_rstore st s)).
      by estep E5. }
    split; [done|]. split; [|done]. apply pages_are_insert; [done|by rewrite Hd|by rewrite Hd|done].
Qed.

Lemma added_removed (x : Z) : ({[x]} ∪ ({[x]} ∪ ∅)) ∖ {[x]} = (∅ : gset Z).
Proof. set_solver. Qed.

(** A new page. *)
Definition redo_new (r : LogRecord) : st (LogRecovery R) LogRecord :=
  o ← in_store NewPage;
  new_page ← st_lift (deref o);
  pg ← in_store (read_page new_page);
  _ ← on_page_nil new_page (Init (id pg) (Prev_page_id r));
  _ ← in_store (UnpinPage (id pg) true);
  mret r.

Lemma redo_new_run n P A L s r :
  let next := nextPageID (diskManager (rstore s)) in
  recovering n P L s → pages_are P A → (0 < n)%nat → in_i32 (Prev_page_id r) → page_in_range next →
  ∃ P' st, redo_new r s = Ok (r, set_rstore st s) ∧ recovering n P' L (set_rstore st s) ∧
    pages_are P' (<[next := MkAPage 0 [] InvalidPageID]> A) ∧ nextPageID (diskManager st) = next + 1.
Proof.
  intros next RC HA Hn Hr HRn. pose proof (rc_shows _ _ _ _ RC) as S.
  destruct (shows_new (rstore s) n _ S) as (p & st & E1 & S1 & Hh & _ & L1 & N1 & HO);
    [cbn; by rewrite map_size_empty|intros i [l Hl]; cbn in Hl; by rewrite lookup_empty in Hl|done|].
  fold next in S1, Hh, N1, HO.
  destruct (init_run (MkTPState false (NewEmpty next) None None None) next (Prev_page_id r))
    as (s' & Em & W & C & I1 & N2 & _ & _ & _ & _ & HF); [done|by apply in_range_valid|done|done|].
  pose proof (Init_keeps next (Prev_page_id r) _ _ _ Em) as HT. cbn [tpage] in HT.
  destruct (HF eq_refl) as (_ & _ & HLs). set (d := bytes s') in *.
  assert (HI : page_is d next [] InvalidPageID) by by split.
  assert (HC : ∃ f, cached st next f p (NewEmpty next)).
  { destruct Hh as (f & pg & C'). pose proof C' as (_ & _ & _ & HO'). rewrite HO in HO'. injection HO' as <-. by exists f. }
  destruct HC as [f HC].
  destruct (shows_write st n _ next f p (NewEmpty next) (tpage s') S1) as (S2 & _ & _);
    [cbn; by rewrite lookup_insert_eq|done|by rewrite HT..| |].
  { rewrite HT. apply Nat2Z.inj. exact (pw_len _ W). }
  destruct (shows_unpin _ n _ next true S2) as (st' & EU & S3 & _ & L3 & D3 & _);
    [cbn; by rewrite lookup_insert_eq|by left|].
  change (vwrite next (pdata (tpage s')) (vnew next (quiet P ∅)))
    with (MkView (<[next := d]> (<[next := zeros (Z.to_nat PageSize)]> P)) (<[next := 1]> ∅) ({[next]} ∪ ({[next]} ∪ ∅)) ∅) in S3.
  unfold vunpin, vpin_count in S3. cbn in S3. rewrite lookup_insert_eq in S3. cbn in S3.
  rewrite delete_insert_id, insert_insert_eq in S3 by apply lookup_empty.
  rewrite added_removed in S3.
  exists (<[next := d]> P), st'. split; [|split; [|split]].
  - unfold redo_new. estep (in_store_run _ s _ _ E1). estep (eq_refl : st_lift (deref (Some p)) (set_rstore st s) = Ok (p, set_rstore st s)).
    estep (in_store_run _ (set_rstore st s) _ _ (read_page_run _ _ _ HO)). cbn [id NewEmpty].
    assert (E3 : on_page_nil p (Init next (Prev_page_id r)) (set_rstore st s) = Ok (tt, set_rstore (upd_obj p (tpage s') st) s)).
    { unfold on_page_nil. cbn [set_rstore rstore rlogging]. rewrite HO. mred. rewrite (rc_logging _ _ _ _ RC), Em. done. }
    change (set_rstore st (set_rstore st s)) with (set_rstore st s). estep E3.
    estep (in_store_run _ (set_rstore (upd_obj p (tpage s') st) s) _ _ EU). done.
  - eapply recovering_step; [exact RC|exact S3|]. by eapply log_same_trans; [exact L1|].
  - apply pages_are_insert; [done|done| |done]. rewrite !GetLSN_field in HLs. cbn [alsn]. exact HLs.
  - rewrite D3. exact N1.
Qed.

(** A record has a page operation exactly if it has a page. *)
Lemma redo_op_None r : redo_op r = None → page_of r = None.
Proof. unfold redo_op, page_of, is_delete. record_type r; rewrite ?e; done. Qed.
Lemma redo_op_Some r x : redo_op r = Some x →
  Log_record_type r ≠ BEGIN ∧ Log_record_type r ≠ COMMIT ∧ Log_record_type r ≠ NEWPAGE.
Proof. unfold redo_op. record_type r; rewrite ?e; try done; intros _; by split. Qed.

Lemma table_step_run f (r : LogRecord) s :
  (_ ← table_step f; mret r) s = Ok (r, set_tables (f (active_txn s)) (lsn_mapping s) s).
Proof. done. Qed.

(** [redo_record] does [redo_step] and notes the transaction and the offset. *)
Lemma redo_record_run n P A L s r r1 fo bo A' next' :
  let next := nextPageID (diskManager (rstore s)) in
  recovering n P L s → pages_are P A → (0 < n)%nat → like r r1 → record_fine r → in_u32 (fo + bo) →
  (Log_record_type r = NEWPAGE → page_in_range next) → redo_step r (A, next) = Some (A', next') →
  ∃ r' P' st, let s' := set_rstore st (set_tables (active_step r (active_txn s)) (<[Lsn r := fo + bo]> (lsn_mapping s)) s) in
    redo_record fo bo r1 s = Ok (r', s') ∧ recovering n P' L s' ∧ pages_are P' A' ∧
    nextPageID (diskManager st) = next' ∧ Size r' = Size r.
Proof.
  intros next RC HA Hn LK HF Ho HN HS.
  set (s1 := set_tables (<[Txn_id r := Lsn r]> (active_txn s)) (<[Lsn r := fo + bo]> (lsn_mapping s)) s).
  assert (RC1 : recovering n P L s1) by by apply recovering_tables.
  assert (E0 : st_modify (λ s, set_tables (<[Txn_id r1 := Lsn r1]> (active_txn s))
    (<[Lsn r1 := u32 (fo + bo)]> (lsn_mapping s)) s) s = Ok (tt, s1)).
  { unfold s1. by rewrite (lk_txn _ _ LK), (lk_lsn _ _ LK), u32_small. }
  unfold redo_record. cbv zeta. setoid_rewrite (st_bind_run _ _ _ _ _ E0). clear E0.
  unfold redo_step in HS. destruct (redo_op r1) as [[rid m]|] eqn:E.
  - pose proof (redo_op_Some _ _ E) as (_ & HT & _). destruct (lk_rid _ _ LK rid m (or_introl E)) as [HP _].
    rewrite (lk_page _ _ LK) in HP. rewrite HP in HS. destruct (A !! PageId rid) as [a|] eqn:Ha; [|done]. cbn in HS.
    destruct (redo_on r a) as [a'|] eqn:Hr; [|done]. cbn in HS. injection HS as <- <-.
    destruct (redo_page_run n P A L s1 r r1 rid m a a' RC1 HA Hn LK HF E Ha Hr) as (r' & P' & st & Er & RC' & HA' & HH & HN').
    exists r', P', st. unfold active_step. rewrite (lk_type _ _ LK) in HT. apply Z.eqb_neq in HT. rewrite HT.
    split; [exact Er|]. split; [done|]. split; [done|]. split; [done|].
    destruct HH as (HH & _). by rewrite HH, (lk_size _ _ LK).
  - pose proof (redo_op_None _ E) as HP. rewrite (lk_page _ _ LK) in HP. rewrite HP in HS.
    rewrite (lk_type _ _ LK). unfold active_step.
    destruct (Z.eqb_spec (Log_record_type r) BEGIN) as [e|_]; [|
    destruct (Z.eqb_spec (Log_record_type r) COMMIT) as [e|_]; [|
    destruct (Z.eqb_spec (Log_record_type r) NEWPAGE) as [e|_]]].
    + rewrite e in HS |- *. injection HS as <- <-. exists r1, P, (rstore s). split; [|split; [by apply (recovering_tables n P L s)|by split; [|split; [|apply LK]]]].
      rewrite (lk_txn _ _ LK), (lk_lsn _ _ LK), table_step_run. unfold s1, set_tables. cbn [active_txn].
      by rewrite insert_insert_eq.
    + rewrite e in HS. injection HS as <- <-. exists r1, P, (rstore s). split; [|split; [by apply (recovering_tables n P L s)|by split; [|split; [|apply LK]]]].
      rewrite (lk_txn _ _ LK), table_step_run. unfold s1, set_tables. cbn [active_txn].
      by rewrite delete_insert_eq.
    + injection HS as <- <-.
      destruct (redo_new_run n P A L s1 r1 RC1 HA Hn) as (P' & st & Er & RC' & HA' & HN'); [|by apply HN|].
      { rewrite (lk_new _ _ LK e). destruct HF as [_ HR]. apply HR. }
      exists r1, P', st. split; [exact Er|]. split; [done|]. split; [done|]. split; [done|apply LK].
    + injection HS as <- <-. exists r1, P, (rstore s). split; [done|].
      split; [by apply (recovering_tables n P L s)|by split; [|split; [|apply LK]]].
Qed.

(** Reading the log from [off] to its end. *)
Lemma overwrite_prefix_of (bs data : list byte) :
  (length bs ≤ length data)%nat → overwrite 0 bs data = bs ++ drop (length bs) data.
Proof. intros HL. unfold overwrite. rewrite take_0, take_ge by lia. done. Qed.

Lemma read_log_run n P L s off rb :
  recovering n P L s → 0 ≤ off < zlen L → zlen L - off ≤ zlen (rbuffer s) →
  ∃ st, let s' := set_rbuffer (drop (Z.to_nat off) L ++ drop (Z.to_nat (zlen L - off)) (rbuffer s)) (set_rstore st s) in
    read_log off rb s = Ok ((true, zlen L - off), s') ∧ recovering n P L s' ∧
    nextPageID (diskManager st) = nextPageID (diskManager (rstore s)).
Proof.
  intros RC Ho HN. pose proof RC as [S HG HL HO].
  set (bs := drop (Z.to_nat off) L).
  assert (Hbs : length bs = Z.to_nat (zlen L - off)) by (unfold bs, zlen in *; rewrite length_drop; lia).
  set (d := set_log (MkFile L (zlen L)) (diskManager (rstore s))).
  assert (ER : ReadLog (rbuffer s) off rb (diskManager (rstore s)) =
    ((true, bs ++ drop (length bs) (rbuffer s), zlen L - off), d)).
  { unfold ReadLog, GetLogFileSize, file_size. rewrite HL. fold (zlen L).
    destruct (Z.leb_spec (zlen L) off); [lia|]. unfold Seek. destruct (Z.ltb_spec off 0); [lia|].
    unfold Read, file_size. cbn [content pos]. rewrite HL. fold (zlen L).
    destruct (Nat.eqb_spec (length (rbuffer s)) 0); [unfold zlen in *; lia|].
    destruct (Z.leb_spec (zlen L) off); [lia|]. unfold region. fold bs.
    rewrite take_ge by (unfold zlen in *; lia). rewrite overwrite_prefix_of by (unfold zlen in *; lia).
    replace (Z.of_nat (length bs)) with (zlen L - off) by (unfold zlen in *; lia). by replace (off + (zlen L - off)) with (zlen L) by lia. }
  exists (set_disk d (rstore s)). split; [|split; [|done]].
  - unfold read_log. rewrite ER. by rewrite Hbs.
  - split; [|done|done|done]. eapply (shows_same (rstore s)); try done.
    pose proof (shows_log_wf _ _ _ S) as []. by split.
Qed.

(** The end of the log. *)
Lemma read_log_end n P L s off rb :
  recovering n P L s → zlen L ≤ off → read_log off rb s = Ok ((false, rb), s).
Proof.
  intros RC Ho. destruct RC as [_ _ HL _]. unfold read_log, ReadLog, GetLogFileSize, file_size.
  rewrite HL. fold (zlen L). destruct (Z.leb_spec (zlen L) off); [|lia].
  unfold set_rbuffer, set_rstore, set_disk. by destruct s as [[] ? ? ? ?].
Qed.

(** Reading a record at [from]. *)
Lemma read_record_run s (from : list byte) r rest r0 upto :
  rbuffer s = from ++ encode r ++ rest → record_fine r →
  zlen from + zlen (encode r) ≤ upto ≤ zlen (rbuffer s) →
  read_record (zlen from) upto r0 s = Ok ((true, reread r r0), s).
Proof.
  intros HB [Hok HR] HU. unfold read_record.
  replace (zlen from <=? upto) with true by (symmetry; apply Z.leb_le; unfold zlen in *; lia).
  fold (zlen (rbuffer s)). replace (upto <=? zlen (rbuffer s)) with true by (symmetry; apply Z.leb_le; lia).
  cbn [andb]. rewrite HB. replace (Z.to_nat (zlen from)) with (length from) by (unfold zlen; lia).
  rewrite drop_app_length.
  rewrite deserialize_run by (try done; unfold zlen in *; lia). done.
Qed.
(** Less than a record's header. *)
Lemma read_record_end s from upto r0 :
  0 ≤ from ≤ upto → upto ≤ zlen (rbuffer s) → upto - from < HEADER_SIZE →
  read_record from upto r0 s = Ok ((false, r0), s).
Proof.
  intros HF HU HH. unfold read_record. fold (zlen (rbuffer s)).
  rewrite !(proj2 (Z.leb_le _ _)) by lia. cbn [andb]. unfold DeserializeLogRecord.
  by rewrite (proj2 (Z.ltb_lt _ _)) by lia.
Qed.

Lemma redo_step_next r A next A' next' : redo_step r (A, next) = Some (A', next') →
  next ≤ next' ∧ (Log_record_type r = NEWPAGE → next < next').
Proof.
  unfold redo_step. intros E. destruct (page_of r) as [q|] eqn:HP.
  - apply bind_Some in E as (a & _ & (a' & _ & [= <- <-])%bind_Some). split; [lia|].
    intros e. revert HP. unfold page_of. by rewrite e.
  - destruct (Z.eqb_spec (Log_record_type r) NEWPAGE); injection E as <- <-; [lia|split; [lia|done]].
Qed.
Lemma redo_steps_next rs A next A' next' : redo_steps rs (A, next) = Some (A', next') → next ≤ next'.
Proof.
  revert A next. induction rs as [|r rs IH]; intros A next E; [injection E; lia|].
  apply bind_Some in E as ([A1 n1] & E1 & E). apply redo_step_next in E1 as [? _]. apply IH in E. lia.
Qed.

(** The rest of the log from the records [pre] on, up to the last [t] bytes, too few
    for a record. *)
Lemma redo_chunk_run n L t rs : 0 ≤ t < HEADER_SIZE → ∀ pre Z m fuel P A s r0 A' next',
  recovering n P L s → pages_are P A → (0 < n)%nat → rbuffer s = encode_all pre ++ encode_all rs ++ Z → t ≤ zlen Z →
  zlen (encode_all pre) + zlen (encode_all rs) = m → m < 2 ^ 32 → Forall record_fine rs →
  0 ≤ nextPageID (diskManager (rstore s)) → next' ≤ 2 ^ 19 →
  redo_steps rs (A, nextPageID (diskManager (rstore s))) = Some (A', next') → (length rs < fuel)%nat →
  ∃ P' st, let s' := set_rstore st (set_tables (active_after rs (active_txn s))
      (offsets (zlen (encode_all pre)) rs (lsn_mapping s)) s) in
    redo_chunk fuel 0 (zlen (encode_all pre)) (m + t) r0 s = Ok (m, s') ∧ recovering n P' L s' ∧ pages_are P' A' ∧
    nextPageID (diskManager st) = next'.
Proof.
  intros Ht. induction rs as [|r rs IH]; intros pre Z m fuel P A s r0 A' next' RC HA Hn HB HtZ Hm Hm32 HF H0 Hx HS Hf;
    (destruct fuel as [|fuel]; [cbn in Hf; lia|]).
  - injection HS as <- <-. exists P, (rstore s).
    assert (HZ : zlen (rbuffer s) = zlen (encode_all pre) + zlen Z) by (rewrite HB; unfold zlen; rewrite !length_app; cbn; lia).
    assert (Hm' : zlen (encode_all pre) = m) by (rewrite <- Hm; change (encode_all []) with (@nil byte); unfold zlen; cbn; lia).
    split; [|by split; [apply (recovering_tables n P L s)|]]. cbn [redo_chunk]. rewrite Hm'.
    rewrite (st_bind_run _ _ _ _ _ (read_record_end s m (m + t) r0 ltac:(unfold zlen in *; lia)
      ltac:(lia) ltac:(lia))). by destruct s.
  - apply Forall_cons in HF as [Hr HF]. apply bind_Some in HS as ([A1 next1] & HS1 & HS).
    destruct (redo_step_next _ _ _ _ _ HS1) as [Hge Hnp]. pose proof (redo_steps_next _ _ _ _ _ HS) as Hle.
    assert (HE : encode_all (r :: rs) = encode r ++ encode_all rs) by done.
    assert (HZr : Size r = zlen (encode r)) by (destruct Hr as [Ho _]; apply (ok_size _ Ho)).
    rewrite HE in HB, Hm. rewrite <- !app_assoc in HB.
    assert (Hml : m = zlen (encode_all pre) + zlen (encode r) + zlen (encode_all rs)) by (rewrite <- Hm; unfold zlen; rewrite length_app; lia).
    assert (HBl : m + t ≤ zlen (rbuffer s)) by (rewrite HB, Hml; unfold zlen in *; rewrite !length_app; lia).
    assert (Hpos : 0 ≤ zlen (encode_all pre) ∧ 0 ≤ zlen (encode_all rs) ∧ 0 ≤ zlen (encode r)) by (unfold zlen; lia).
    pose proof (read_record_run s (encode_all pre) r _ r0 (m + t) HB Hr ltac:(lia)) as ER.
    destruct (redo_record_run n P A L s r (reread r r0) 0 (zlen (encode_all pre)) A1 next1 RC HA Hn)
      as (r' & P1 & st1 & E1 & RC1 & HA1 & HN1 & HSz); [apply reread_like|done|unfold in_u32; lia| |exact HS1|].
    { intros e. specialize (Hnp e). unfold page_in_range. lia. }
    cbv zeta in E1, RC1. rewrite Z.add_0_l in E1, RC1. set (s1 := set_rstore st1 _) in *.
    assert (HP : zlen (encode_all (pre ++ [r])) = zlen (encode_all pre) + Size r).
    { rewrite encode_all_app, encode_all_single, HZr. unfold zlen. rewrite length_app. lia. }
    destruct (IH (pre ++ [r]) Z m fuel P1 A1 s1 r' A' next') as (P' & st & E' & RC' & HA' & HN'); try done.
    { change (rbuffer s1) with (rbuffer s). by rewrite encode_all_app, encode_all_single, <- !app_assoc. }
    { rewrite HP, HZr. lia. } { change (rstore s1) with st1. rewrite HN1. lia. }
    { change (rstore s1) with st1. by rewrite HN1. } { cbn in Hf. lia. }
    exists P', st. cbn [active_after offsets]. rewrite <- HP. split; [|done].
    cbn [redo_chunk]. rewrite (st_bind_run _ _ _ _ _ ER). cbn iota beta.
    rewrite (st_bind_run _ _ _ _ _ E1), HSz, u32_small, <- HP by (unfold in_u32; lia). exact E'.
Qed.

Lemma zlen_zeros m : 0 ≤ m → zlen (zeros (Z.to_nat m)) = m.
Proof. intros Hm. unfold zlen, zeros. rewrite length_replicate. lia. Qed.

(** [Redo] on a log that fits the buffer. *)
Lemma Redo_run n P A L s rs fuel A' next' :
  let next := nextPageID (diskManager (rstore s)) in
  recovering n P L s → pages_are P A → (0 < n)%nat → L = encode_all rs → zlen L ≤ LogBufferSize →
  Forall record_fine rs → 0 ≤ next → next' ≤ 2 ^ 19 → redo_steps rs (A, next) = Some (A', next') →
  (length rs + 2 ≤ fuel)%nat →
  ∃ P' s', Redo fuel s = Ok (tt, s') ∧ recovering n P' L s' ∧ pages_are P' A' ∧
    nextPageID (diskManager (rstore s')) = next' ∧
    active_txn s' = active_after rs (active_txn s) ∧ lsn_mapping s' = offsets 0 rs (lsn_mapping s) ∧
    zlen (rbuffer s') = LogBufferSize.
Proof.
  intros next RC HA Hn HL HLB HF H0 Hx HS Hf.
  set (s0 := set_rbuffer (zeros (Z.to_nat LogBufferSize)) s).
  assert (RC0 : recovering n P L s0) by by destruct RC.
  assert (HB0 : zlen (rbuffer s0) = LogBufferSize) by by apply zlen_zeros.
  assert (EI : Redo fuel s = redo_loop fuel 0 0 s0) by done. rewrite EI.
  destruct fuel as [|fuel]; [lia|]. cbn [redo_loop]. change (i32 0) with 0.
  destruct (decide (zlen L = 0)) as [Hz|Hz].
  { destruct rs as [|r rs].
    - injection HS as <- <-. exists P, s0.
      rewrite (st_bind_run _ _ _ _ _ (read_log_end n P L s0 0 0 RC0 ltac:(lia))).
      split; [reflexivity|]. split; [exact RC0|]. split; [exact HA|]. do 3 (split; [reflexivity|]). exact HB0.
    - exfalso. assert (HE : encode_all (r :: rs) = encode r ++ encode_all rs) by done.
      rewrite HL, HE in Hz. unfold zlen in Hz. rewrite length_app, length_encode in Hz. lia. }
  assert (Hlen : 0 < zlen L) by (unfold zlen in *; lia).
  destruct (read_log_run n P L s0 0 0 RC0 ltac:(lia) ltac:(lia)) as (st1 & ER & RC1 & HN1).
  rewrite Z.sub_0_r in ER, RC1. change (drop (Z.to_nat 0) L) with L in ER, RC1.
  set (rest := drop (Z.to_nat (zlen L)) (rbuffer s0)) in *.
  assert (Eb : L ++ rest = encode_all [] ++ encode_all rs ++ rest) by (rewrite <- HL; exact eq_refl).
  assert (HR : zlen (L ++ rest) = LogBufferSize).
  { unfold rest. unfold zlen in *. rewrite length_app, length_drop. lia. }
  set (s1 := set_rbuffer (L ++ rest) (set_rstore st1 s0)) in *.
  assert (Ht : 0 ≤ 0 < HEADER_SIZE) by (unfold HEADER_SIZE; lia).
  destruct (redo_chunk_run n L 0 rs Ht [] rest (zlen L) fuel P A s1 ZeroLogRecord A' next' RC1 HA Hn Eb)
    as (P' & st & EC & RC' & HA' & HN').
  - unfold zlen. lia.
  - by rewrite <- HL.
  - assert (LogBufferSize < 2 ^ 32) by reflexivity. lia.
  - exact HF.
  - cbn [s1 set_rbuffer set_rstore rstore]. rewrite HN1. exact H0.
  - exact Hx.
  - cbn [s1 set_rbuffer set_rstore rstore]. rewrite HN1. exact HS.
  - lia.
  - exists P'. eexists. split; [|split; [exact RC'|split; [exact HA'|split; [exact HN'|split; [exact eq_refl|split; [exact eq_refl|exact HR]]]]]].
    rewrite (st_bind_run _ _ _ _ _ ER). cbn iota beta. change (zlen (encode_all [])) with 0 in EC. rewrite Z.add_0_r in EC.
    rewrite (st_bind_run _ _ _ _ _ EC).
    destruct fuel as [|fuel]; [lia|]. cbn [redo_loop]. rewrite Z.add_0_l.
    assert (H32 : LogBufferSize < 2 ^ 31) by reflexivity.
    rewrite u32_small, i32_small by (unfold in_u32, in_i32; lia).
    by rewrite (st_bind_run _ _ _ _ _ (read_log_end n P' L _ (zlen L) (zlen L) RC' ltac:(lia))).
Qed.

(** A rest of the log too short for a record is read again and again. *)
Lemma torn_loop n P L fuel : ∀ s off rb,
  recovering n P L s → 0 ≤ off → 0 < zlen L - off < HEADER_SIZE → zlen L < 2 ^ 31 → HEADER_SIZE ≤ zlen (rbuffer s) →
  redo_loop fuel off rb s = OutOfFuel.
Proof.
  unfold HEADER_SIZE. induction fuel as [|fuel IH]; intros s off rb RC H0 HL H31 HB; [done|]. cbn [redo_loop].
  rewrite i32_small by (unfold in_i32; lia).
  destruct (read_log_run n P L s off rb RC) as (st1 & ER & RC1 & _); [lia|lia|].
  rewrite (st_bind_run _ _ _ _ _ ER). cbn iota beta. set (s1 := set_rbuffer _ _) in *.
  assert (HB1 : zlen (rbuffer s1) = zlen (rbuffer s)).
  { cbn [s1 set_rbuffer rbuffer]. unfold zlen in *. rewrite length_app, !length_drop. lia. }
  destruct fuel as [|fuel]; [done|].
  assert (HF : redo_chunk (S fuel) off 0 (zlen L - off) ZeroLogRecord s1 = Ok (0, s1)).
  { cbn [redo_chunk]. assert (HE : zlen L - off - 0 < HEADER_SIZE) by (unfold HEADER_SIZE; lia).
    by rewrite (st_bind_run _ _ _ _ _ (read_record_end s1 0 (zlen L - off) ZeroLogRecord ltac:(lia) ltac:(lia) HE)). }
  rewrite (st_bind_run _ _ _ _ _ HF), Z.add_0_r, u32_small by (unfold in_u32; lia).
  apply IH; [exact RC1|lia|lia|lia|by rewrite HB1].
Qed.
End redo.

(** ** Undo *)
Section undo.
Context {R : Type} `{Replacer R}.
Implicit Types (s : LogRecovery R).

(** The records of a transaction, from the one with the given LSN backwards. *)
Inductive back_from (rs : list LogRecord) : Z → list LogRecord → Prop :=
  | back_end : back_from rs InvalidLSN []
  | back_record r path : r ∈ rs → Lsn r ≠ InvalidLSN → back_from rs (Prev_lsn r) path →
      back_from rs (Lsn r) (r :: path).

Lemma offsets_lookup_ne rs : ∀ off m l, l ∉ (Lsn <$> rs) → offsets off rs m !! l = m !! l.
Proof.
  induction rs as [|r rs IH]; intros off m l Hl; [done|]. cbn [offsets]. rewrite fmap_cons, not_elem_of_cons in Hl.
  destruct Hl. rewrite IH by done. by rewrite lookup_insert_ne.
Qed.

Lemma offsets_lookup pre r post off m :
  NoDup (Lsn <$> (pre ++ r :: post)) → Forall record_fine (pre ++ r :: post) →
  offsets off (pre ++ r :: post) m !! Lsn r = Some (off + zlen (encode_all pre)).
Proof.
  revert off m. induction pre as [|r' pre IH]; intros off m HN HF.
  - cbn [app offsets]. rewrite offsets_lookup_ne, lookup_insert_eq; [by rewrite Z.add_0_r|].
    cbn [app] in HN. rewrite fmap_cons in HN. by apply NoDup_cons in HN as [? _].
  - cbn [app offsets]. cbn [app] in HN, HF. rewrite fmap_cons in HN. apply NoDup_cons in HN as [_ HN].
    apply Forall_cons in HF as [[Ho _] HF]. rewrite IH by done. f_equal.
    change (encode_all (r' :: pre)) with (encode r' ++ encode_all pre). unfold zlen. rewrite length_app.
    rewrite (ok_size _ Ho). lia.
Qed.

Lemma undo_op_None r : undo_op r = None → page_of r = None.
Proof. unfold undo_op, page_of, is_delete. record_type r; rewrite ?e; done. Qed.

(** [undo_record] does [undo_step]. *)
Lemma undo_record_run n P A L s r r1 A' :
  recovering n P L s → pages_are P A → (0 < n)%nat → like r r1 → record_fine r → undo_step r A = Some A' →
  ∃ r' P' st, undo_record r1 s = Ok (r', set_rstore st s) ∧ recovering n P' L (set_rstore st s) ∧ pages_are P' A' ∧
    Prev_lsn r' = Prev_lsn r ∧ nextPageID (diskManager st) = nextPageID (diskManager (rstore s)).
Proof.
  intros RC HA Hn LK [HOk HRg] HS. unfold undo_step in HS. unfold undo_record.
  destruct (undo_op r1) as [[rid m]|] eqn:E.
  - destruct (lk_rid _ _ LK rid m (or_intror E)) as [HP H0]. specialize (H0 HRg).
    rewrite (lk_page _ _ LK) in HP. rewrite HP in HS. destruct (A !! PageId rid) as [a|] eqn:Ha; [|done]. cbn in HS.
    destruct (undo_slots r (aslots a)) as [ls'|] eqn:HSl; [|done]. injection HS as <-.
    destruct (HA _ _ Ha) as (d & HPd & HI & HL & HRq).
    destruct (page_session n P L s (PageId rid) d RC HPd Hn) as (p & pg & st & E1 & HO & Hd & HS).
    destruct (on_page_nil_run s st p pg d (PageId rid) (aslots a) (anext a) undo_op undo_slots r1 rid m ls')
      as (r' & pg' & E3 & (HH1 & HH2 & HH3) & Hpg' & HLn & HI' & HL'); try done;
      [apply undo_op_does|by apply (lk_tuples _ _ LK), ok_tuples|apply RC|by rewrite (lk_undo _ _ LK)|].
    destruct (HS pg' Hpg' HLn) as (st' & E5 & RC' & HN).
    exists r', (<[PageId rid := pdata pg']> P), st'. split.
    { estep E1. estep E3. by estep E5. }
    split; [done|]. split; [|by rewrite HH3, (lk_prev _ _ LK)].
    apply pages_are_insert; [done|exact HI'|by rewrite HL'|done].
  - pose proof (undo_op_None _ E) as HP. rewrite (lk_page _ _ LK) in HP. rewrite HP in HS. injection HS as <-.
    exists r1, P, (rstore s). rewrite set_rstore_same. by split; [|split; [|split; [|split; [apply LK|]]]].
Qed.

Lemma undo_steps_app rs1 rs2 A : undo_steps (rs1 ++ rs2) A = A' ← undo_steps rs1 A; undo_steps rs2 A'.
Proof.
  revert A. induction rs1 as [|r rs1 IH]; intros A; [done|]. cbn [app undo_steps].
  destruct (undo_step r A); [apply IH|done].
Qed.

(** What undo needs of the state and keeps of it. *)
Record undoing (n : nat) (P : gmap Z (list byte)) (rs : list LogRecord) s : Prop := {
  un_rec : recovering n P (encode_all rs) s;
  un_map : ∃ m, lsn_mapping s = offsets 0 rs m;
  un_buf : zlen (rbuffer s) = LogBufferSize
}.

(** One record of a chain. *)
Lemma undo_chain_step n P A rs s r r0 fuel A1 :
  undoing n P rs s → pages_are P A → (0 < n)%nat → zlen (encode_all rs) ≤ LogBufferSize → Forall record_fine rs →
  NoDup (Lsn <$> rs) → r ∈ rs → Lsn r ≠ InvalidLSN → undo_step r A = Some A1 →
  ∃ r1 P1 s1, undo_chain (S fuel) (Lsn r) r0 s = undo_chain fuel (Prev_lsn r) r1 s1 ∧
    undoing n P1 rs s1 ∧ pages_are P1 A1 ∧ active_txn s1 = active_txn s.
Proof.
  intros [RC [m0 HM] HB] HA Hn HLB HF HND Hr Hv HS.
  apply list_elem_of_split in Hr as (pre & post & ->).
  pose proof (offsets_lookup pre r post 0 m0 HND HF) as HO. rewrite Z.add_0_l in HO.
  pose proof (proj1 (Forall_app _ _ _) HF) as [_ [Hr _]%Forall_cons].
  set (L := encode_all (pre ++ r :: post)) in *.
  assert (HL : L = encode_all pre ++ encode r ++ encode_all post) by (unfold L; by rewrite encode_all_app).
  assert (Hr0 : 0 < zlen (encode r)) by (unfold zlen; rewrite length_encode; lia).
  assert (HZ : zlen L = zlen (encode_all pre) + zlen (encode r) + zlen (encode_all post))
    by (rewrite HL; unfold zlen; rewrite !length_app; lia).
  assert (H0 : 0 ≤ zlen (encode_all pre) ∧ 0 ≤ zlen (encode_all post)) by (unfold zlen; lia).
  assert (H31 : LogBufferSize < 2 ^ 31) by reflexivity.
  destruct (read_log_run n P L s (zlen (encode_all pre)) 0 RC) as (st1 & ER & RC1 & HN1); [lia|lia|].
  assert (HD : drop (Z.to_nat (zlen (encode_all pre))) L = encode r ++ encode_all post).
  { rewrite HL. replace (Z.to_nat (zlen (encode_all pre))) with (length (encode_all pre)) by (unfold zlen; lia).
    apply drop_app_length. }
  rewrite HD in ER, RC1. set (up := zlen L - zlen (encode_all pre)) in *.
  set (rest := drop (Z.to_nat up) (rbuffer s)) in *.
  set (s1 := set_rbuffer ((encode r ++ encode_all post) ++ rest) (set_rstore st1 s)) in *.
  assert (HB1 : zlen (rbuffer s1) = LogBufferSize).
  { change (rbuffer s1) with ((encode r ++ encode_all post) ++ rest). unfold rest, up. clear -HB HZ HLB H0 Hr0.
    unfold zlen in *. rewrite !length_app, length_drop. lia. }
  assert (EB1 : rbuffer s1 = [] ++ encode r ++ (encode_all post ++ rest)) by (cbn; by rewrite <- app_assoc).
  assert (Hup : zlen [] + zlen (encode r) ≤ up ≤ zlen (rbuffer s1)) by (change (zlen []) with 0; unfold up; lia).
  pose proof (read_record_run s1 [] r _ r0 up EB1 Hr Hup) as EC.
  destruct (undo_record_run n P A L s1 r (reread r r0) A1 RC1 HA Hn) as (r2 & P2 & st2 & EU & RC2 & HA2 & HP2 & _);
    [apply reread_like|done|done|].
  exists r2, P2, (set_rstore st2 s1). split; [|split; [split; [exact RC2|by exists m0|exact HB1]|by split]].
  cbn [undo_chain]. rewrite (proj2 (Z.eqb_neq _ _) Hv).
  estep (eq_refl : st_get s = Ok (s, s)). rewrite HM, HO. cbn [from_option Datatypes.id].
  rewrite i32_small by (unfold in_i32; lia). rewrite (st_bind_run _ _ _ _ _ ER). cbn [fst snd].
  change (zlen []) with 0 in EC. rewrite (st_bind_run _ _ _ _ _ EC). cbn [snd].
  rewrite (st_bind_run _ _ _ _ _ EU). by rewrite HP2.
Qed.

Lemma undo_chain_run n rs :
  zlen (encode_all rs) ≤ LogBufferSize → Forall record_fine rs → NoDup (Lsn <$> rs) → (0 < n)%nat →
  ∀ lsn path, back_from rs lsn path → ∀ fuel P A s r0 A', (length path ≤ fuel)%nat →
  undoing n P rs s → pages_are P A → undo_steps path A = Some A' →
  ∃ r1 P1 s1, undo_chain fuel lsn r0 s = Ok (r1, s1) ∧ undoing n P1 rs s1 ∧ pages_are P1 A' ∧
    active_txn s1 = active_txn s.
Proof.
  intros HLB HF HND Hn lsn path HB. induction HB as [|r path Hr Hv HB IH]; intros fuel P A s r0 A' Hf HU HA HS.
  - injection HS as <-. exists r0, P, s. split; [|done]. by destruct fuel.
  - cbn [undo_steps] in HS. apply bind_Some in HS as (A1 & HS1 & HS).
    destruct fuel as [|fuel]; [cbn in Hf; lia|].
    destruct (undo_chain_step n P A rs s r r0 fuel A1) as (r1 & P1 & s1 & E1 & HU1 & HA1 & HT1); try done.
    destruct (IH fuel P1 A1 s1 r1 A') as (r2 & P2 & s2 & E2 & HU2 & HA2 & HT2); try done; [cbn in Hf; lia|].
    exists r2, P2, s2. rewrite E1. split; [done|]. split; [done|]. split; [done|congruence].
Qed.

Lemma undo_all_run n rs fuel :
  zlen (encode_all rs) ≤ LogBufferSize → Forall record_fine rs → NoDup (Lsn <$> rs) → (0 < n)%nat →
  ∀ lsns paths, Forall2 (back_from rs) lsns paths → Forall (λ path, (length path ≤ fuel)%nat) paths →
  ∀ P A s r0 A', undoing n P rs s → pages_are P A → undo_steps (mjoin paths) A = Some A' →
  ∃ P1 s1, undo_all fuel lsns r0 s = Ok (tt, s1) ∧ undoing n P1 rs s1 ∧ pages_are P1 A'.
Proof.
  intros HLB HF HND Hn lsns paths HP. induction HP as [|lsn path lsns paths HB HP IH]; intros Hf P A s r0 A' HU HA HS.
  - injection HS as <-. by exists P, s.
  - apply Forall_cons in Hf as [Hf1 Hf]. change (mjoin (path :: paths)) with (path ++ mjoin paths) in HS.
    rewrite undo_steps_app in HS. apply bind_Some in HS as (A1 & HS1 & HS).
    destruct (undo_chain_run n rs HLB HF HND Hn lsn path HB fuel P A s r0 A1) as (r1 & P1 & s1 & E1 & HU1 & HA1 & _); try done.
    destruct (IH Hf P1 A1 s1 r1 A') as (P2 & s2 & E2 & HU2 & HA2); try done.
    exists P2, s2. split; [|done]. cbn [undo_all]. by rewrite (st_bind_run _ _ _ _ _ E1).
Qed.

Lemma Undo_run s n P A rs order paths fuel A' :
  undoing n P rs s → pages_are P A → (0 < n)%nat → zlen (encode_all rs) ≤ LogBufferSize →
  Forall record_fine rs → NoDup (Lsn <$> rs) →
  Forall2 (λ t path, ∃ lsn, active_txn s !! t = Some lsn ∧ back_from rs lsn path) order paths →
  Forall (λ path, (length path ≤ fuel)%nat) paths →
  undo_steps (mjoin paths) A = Some A' →
  ∃ P' s1, undo_all fuel ((λ t, default 0 (active_txn s !! t)) <$> order) ZeroLogRecord s = Ok (tt, s1) ∧
    undoing n P' rs s1 ∧ pages_are P' A' ∧
    ∀ flush_order, (∀ pid, pid ∈ flush_order ↔ is_Some (pageTable (bpm (rstore s1)) !! pid)) →
    ∃ s', Undo fuel order flush_order s = Ok (tt, s') ∧
      ∀ pid a, A' !! pid = Some a → page_present pid (diskManager (rstore s')) ∧
        let d := page_bytes pid (diskManager (rstore s')) in
        page_is d pid (aslots a) (anext a) ∧ page_lsn d = alsn a.
Proof.
  intros HU HA Hn HLB HF HND HO Hf HS.
  assert (HP : Forall2 (back_from rs) ((λ t, default 0 (active_txn s !! t)) <$> order) paths).
  { apply Forall2_fmap_l. eapply Forall2_impl; [exact HO|]. intros t path (lsn & Hl & HB).
    unfold compose. cbn beta. by rewrite Hl. }
  destruct (undo_all_run n rs fuel HLB HF HND Hn _ paths HP Hf P A s ZeroLogRecord A' HU HA HS) as (P1 & s1 & E1 & HU1 & HA1).
  exists P1, s1. split; [exact E1|]. split; [exact HU1|]. split; [exact HA1|]. intros flush_order HFO.
  destruct (flush_all_run (rstore s1) n P1 flush_order (rc_shows _ _ _ _ (un_rec _ _ _ _ HU1)) HFO)
    as (st & EF & _ & _ & _ & _ & HD).
  exists (set_rstore st s1). split.
  - unfold Undo. estep (eq_refl : st_get s = Ok (s, s)). estep E1. by apply in_store_run.
  - intros pid a Ha. destruct (HA1 pid a Ha) as (d & HPd & HI & HL & _). destruct (HD pid d HPd) as [HPr HB].
    split; [exact HPr|]. cbn [set_rstore rstore]. rewrite HB. by split.
Qed.
End undo.

Section properties.
Context {R : Type} `{Replacer R}.
Implicit Types (s : LogRecovery R).

(** C22: redo, on a log of whole records that fits the log buffer, repeats history:
    it does to the pages what the records say, one after the other, skipping a
    record whose page carries its LSN or a later one; and it finds the transactions
    without a COMMIT, each with its last LSN, and the place of every record in the
    log file.  It ends, within as many rounds as there are records. *)
Theorem redo_spec s n P A rs fuel A' next' :
  let next := nextPageID (diskManager (rstore s)) in
  recovering n P (encode_all rs) s → pages_are P A → (0 < n)%nat → zlen (encode_all rs) ≤ LogBufferSize →
  Forall record_fine rs → 0 ≤ next → next' ≤ 2 ^ 19 → redo_steps rs (A, next) = Some (A', next') →
  (length rs + 2 ≤ fuel)%nat →
  ∃ P' s', Redo fuel s = Ok (tt, s') ∧ undoing n P' rs s' ∧ pages_are P' A' ∧
    nextPageID (diskManager (rstore s')) = next' ∧
    active_txn s' = active_after rs (active_txn s) ∧ lsn_mapping s' = offsets 0 rs (lsn_mapping s).
Proof.
  intros next RC HA Hn HLB HF H0 Hx HS Hf.
  destruct (Redo_run n P A _ s rs fuel A' next' RC HA Hn eq_refl HLB HF H0 Hx HS Hf)
    as (P' & s' & E & RC' & HA' & HN & HT & HM & HB).
  exists P', s'. split; [exact E|]. split; [split; [exact RC'|by exists (lsn_mapping s)|exact HB]|by split_and!].
Qed.

(** C39: redo never ends on a log whose last record was cut off within its header,
    as a crash during a write of the log can leave it: after the whole records it
    reads the same bytes again and again. *)
Theorem torn_log_never_ends s n P A rs tail A' next' fuel :
  let next := nextPageID (diskManager (rstore s)) in
  recovering n P (encode_all rs ++ tail) s → pages_are P A → (0 < n)%nat →
  0 < zlen tail < HEADER_SIZE → zlen (encode_all rs ++ tail) ≤ LogBufferSize →
  Forall record_fine rs → 0 ≤ next → next' ≤ 2 ^ 19 → redo_steps rs (A, next) = Some (A', next') →
  (length rs + 2 ≤ fuel)%nat → Redo fuel s = OutOfFuel.
Proof.
  intros next RC HA Hn Ht HLB HF H0 Hx HS Hf. set (L := encode_all rs ++ tail) in *.
  set (s0 := set_rbuffer (zeros (Z.to_nat LogBufferSize)) s).
  assert (RC0 : recovering n P L s0) by by destruct RC.
  assert (HB0 : zlen (rbuffer s0) = LogBufferSize) by by apply zlen_zeros.
  assert (EI : Redo fuel s = redo_loop fuel 0 0 s0) by done. rewrite EI.
  assert (HL : zlen L = zlen (encode_all rs) + zlen tail) by (unfold L, zlen; rewrite length_app; lia).
  assert (H31 : LogBufferSize < 2 ^ 31) by reflexivity.
  assert (Hrs : 0 ≤ zlen (encode_all rs)) by (unfold zlen; lia).
  destruct fuel as [|fuel]; [lia|]. cbn [redo_loop]. change (i32 0) with 0.
  destruct (read_log_run n P L s0 0 0 RC0) as (st1 & ER & RC1 & HN1); [lia|lia|].
  rewrite Z.sub_0_r in ER, RC1. change (drop (Z.to_nat 0) L) with L in ER, RC1.
  set (rest := drop (Z.to_nat (zlen L)) (rbuffer s0)) in *.
  set (s1 := set_rbuffer (L ++ rest) (set_rstore st1 s0)) in *.
  assert (Eb : rbuffer s1 = encode_all [] ++ encode_all rs ++ tail ++ rest)
    by (cbn [s1 set_rbuffer rbuffer]; unfold L; by rewrite <- app_assoc).
  assert (HR : zlen (rbuffer s1) = LogBufferSize).
  { cbn [s1 set_rbuffer rbuffer]. unfold rest. unfold zlen in *. rewrite length_app, length_drop. lia. }
  assert (Ht' : 0 ≤ zlen tail < HEADER_SIZE) by lia.
  destruct (redo_chunk_run n L (zlen tail) rs Ht' [] (tail ++ rest) (zlen (encode_all rs)) fuel P A s1 ZeroLogRecord A' next'
    RC1 HA Hn Eb) as (P' & st & EC & RC' & _).
  - unfold zlen. rewrite length_app. lia.
  - unfold zlen. cbn [encode_all fmap list_fmap mjoin list_join length]. lia.
  - lia.
  - exact HF.
  - cbn [s1 set_rbuffer set_rstore rstore]. rewrite HN1. exact H0.
  - exact Hx.
  - cbn [s1 set_rbuffer set_rstore rstore]. rewrite HN1. exact HS.
  - lia.
  - rewrite (st_bind_run _ _ _ _ _ ER). cbn iota beta. change (zlen (encode_all [])) with 0 in EC.
    rewrite HL. rewrite (st_bind_run _ _ _ _ _ EC). rewrite Z.add_0_l, u32_small by (unfold in_u32; lia).
    apply (torn_loop n P' L); [exact RC'|lia|lia|lia|].
    cbn [set_rstore set_tables rbuffer]. rewrite HR. unfold HEADER_SIZE. vm_compute. discriminate.
Qed.

(** C23: undo, after redo, takes back the records of every transaction that did not
    commit, each transaction's from its last record to its first, and leaves every
    page in the database file.  The transactions are visited in the order of the
    map; [fuel] bounds the records of one transaction. *)
Theorem undo_spec s n P A rs order paths fuel A' :
  undoing n P rs s → pages_are P A → (0 < n)%nat → zlen (encode_all rs) ≤ LogBufferSize →
  Forall record_fine rs → NoDup (Lsn <$> rs) →
  Forall2 (λ t path, ∃ lsn, active_txn s !! t = Some lsn ∧ back_from rs lsn path) order paths →
  Forall (λ path, (length path ≤ fuel)%nat) paths →
  undo_steps (mjoin paths) A = Some A' →
  ∃ P' s1, undo_all fuel ((λ t, default 0 (active_txn s !! t)) <$> order) ZeroLogRecord s = Ok (tt, s1) ∧
    undoing n P' rs s1 ∧ pages_are P' A' ∧
    ∀ flush_order, (∀ pid, pid ∈ flush_order ↔ is_Some (pageTable (bpm (rstore s1)) !! pid)) →
    ∃ s', Undo fuel order flush_order s = Ok (tt, s') ∧
      ∀ pid a, A' !! pid = Some a → page_present pid (diskManager (rstore s')) ∧
        let d := page_bytes pid (diskManager (rstore s')) in
        page_is d pid (aslots a) (anext a) ∧ page_lsn d = alsn a.
Proof. apply Undo_run. Qed.
End properties.

(** ** A crash and the recovery from it

    The table of the concrete engine is made and gets its tuple, the log reaches
    the disk and no page does; the transaction had not committed. *)
Definition crashed : Engine ClockReplacer := engine_of log_flush tuple_engine.
Definition crash_records : list LogRecord :=
  [set_Lsn 0 (NewLogRecordNewPage 7 InvalidLSN NEWPAGE InvalidPageID);
   set_Lsn 1 (NewLogRecordInsertDelete 7 0 INSERT rid_00 example_tuple)].
Definition restarted : LogRecovery ClockReplacer :=
  NewLogRecovery (new_store 2 (NewDiskManagerImpl [] (content (log (diskManager (estore crashed)))))) false.
Definition lost_page : apage := MkAPage 1 [Some (false, data example_tuple)] InvalidPageID.
Definition undone_page : apage := MkAPage 1 [None] InvalidPageID.

Lemma crash_records_fine : Forall record_fine crash_records.
Proof.
  repeat constructor; try (vm_compute; congruence); try (vm_compute; reflexivity).
Qed.

Lemma restarted_recovering : recovering 2 ∅ (encode_all crash_records) restarted.
Proof.
  split; [|done|vm_compute; reflexivity|vm_compute; reflexivity].
  apply (new_store_shows 2); [unfold in_u32; lia|vm_compute; reflexivity|vm_compute; discriminate].
Qed.

Lemma no_pages : pages_are ∅ ∅.
Proof. intros q a Ha. by rewrite lookup_empty in Ha. Qed.

(** Redo makes the page again, with the tuple, and finds transaction 7 running. *)
Lemma redo_spec_witness :
  ∃ P s', Redo 4 restarted = Ok (tt, s') ∧ undoing 2 P crash_records s' ∧ pages_are P {[0 := lost_page]} ∧
    active_txn s' = {[7 := 1]} ∧ lsn_mapping s' = {[0 := 0; 1 := 24]}.
Proof.
  destruct (redo_spec restarted 2 ∅ ∅ crash_records 4 {[0 := lost_page]} 1 restarted_recovering no_pages)
    as (P & s' & E & HU & HA & _ & HT & HM); [lia|vm_compute; discriminate|apply crash_records_fine|vm_compute; discriminate|lia
    |vm_compute; reflexivity|cbn; lia|].
  exists P, s'. split; [exact E|]. split; [exact HU|]. split; [exact HA|]. rewrite HT, HM. split; vm_compute; reflexivity.
Defined.

Definition end_of {S A : Type} (d : S) (x : res (A * S)) : S := match x with Ok (_, s) => s | _ => d end.
Definition redone : LogRecovery ClockReplacer := end_of restarted (Redo 4 restarted).

Lemma redone_facts :
  ∃ P, undoing 2 P crash_records redone ∧ pages_are P {[0 := lost_page]} ∧ active_txn redone = {[7 := 1]}.
Proof.
  destruct (Redo_run 2 ∅ ∅ (encode_all crash_records) restarted crash_records 4 {[0 := lost_page]} 1
    restarted_recovering no_pages) as (P & s' & E & RC & HA & _ & HT & HM & HB);
    [lia|done|vm_compute; discriminate|apply crash_records_fine|vm_compute; discriminate|lia
    |vm_compute; reflexivity|cbn; lia|].
  exists P. unfold redone. rewrite E. cbn [end_of]. split; [split; [exact RC|by exists (lsn_mapping restarted)|exact HB]|].
  split; [exact HA|]. rewrite HT. vm_compute. reflexivity.
Qed.

Lemma crash_path : back_from crash_records 1 (reverse crash_records).
Proof.
  apply (back_record _ (set_Lsn 1 (NewLogRecordInsertDelete 7 0 INSERT rid_00 example_tuple)));
    [right; left|discriminate|].
  apply (back_record _ (set_Lsn 0 (NewLogRecordNewPage 7 InvalidLSN NEWPAGE InvalidPageID)));
    [left|discriminate|apply back_end].
Qed.

(** Undo takes the tuple back. *)
Lemma undo_spec_witness :
  ∃ P s1, undo_all 2 [1] ZeroLogRecord redone = Ok (tt, s1) ∧ pages_are P {[0 := undone_page]} ∧
    ∀ flush_order, (∀ pid, pid ∈ flush_order ↔ is_Some (pageTable (bpm (rstore s1)) !! pid)) →
    ∃ s', Undo 2 [7] flush_order redone = Ok (tt, s') ∧
      page_is (page_bytes 0 (diskManager (rstore s'))) 0 [None] InvalidPageID.
Proof.
  destruct redone_facts as (P & HU & HA & HT).
  destruct (undo_spec redone 2 P {[0 := lost_page]} crash_records [7] [reverse crash_records] 2 {[0 := undone_page]} HU HA)
    as (P' & s1 & E & _ & HA' & HF); [lia|vm_compute; discriminate|apply crash_records_fine|..].
  - apply (bool_decide_unpack _). vm_compute. exact I.
  - repeat constructor. exists 1. rewrite HT. split; [reflexivity|apply crash_path].
  - repeat constructor.
  - vm_compute. reflexivity.
  - exists P', s1. rewrite HT in E. replace (_ <$> [7]) with [1] in E by reflexivity.
    split; [exact E|]. split; [exact HA'|]. intros fo Hfo.
    destruct (HF fo Hfo) as (s' & EU & HD). exists s'. split; [exact EU|].
    destruct (HD 0 undone_page ltac:(reflexivity)) as (_ & HP & _). exact HP.
Defined.

(** The same log with three bytes of a third record. *)
Definition torn_bytes : list byte := encode_all crash_records ++ [Byte.x14; Byte.x00; Byte.x00].
Definition torn_restart : LogRecovery ClockReplacer := NewLogRecovery (new_store 2 (NewDiskManagerImpl [] torn_bytes)) false.

Lemma torn_log_never_ends_witness : Redo 1000 torn_restart = OutOfFuel.
Proof.
  apply (torn_log_never_ends torn_restart 2 ∅ ∅ crash_records [Byte.x14; Byte.x00; Byte.x00] {[0 := lost_page]} 1).
  - split; [|done|reflexivity|vm_compute; reflexivity].
    apply (new_store_shows 2); [unfold in_u32; lia|vm_compute; reflexivity|vm_compute; discriminate].
  - apply no_pages.
  - lia.
  - split; reflexivity.
  - vm_compute. discriminate.
  - apply crash_records_fine.
  - vm_compute. discriminate.
  - lia.
  - vm_compute. reflexivity.
  - cbn. lia.
Defined.
