(* ===== verification/History.v ===== *)
(** * What recovery achieves

    Theorems on the steps of redo and undo as [LogRecovery] defines them, pages and
    records only: redo brings pages of any age to the same end, undo is the
    inverse of redo, and runs of the program whose recovery does not
    give what it should. *)

From S2P Require Import Prelude Bytes Types Tuples Disk LogRecord LogManager ClockReplacer Replacer Page BufferPool LockManager PoolView TablePage Engine TableHeap TransactionManager Checkpoint LogRecovery.

(** ** Redo, one page at a time *)
Definition page_step (q : Z) (r : LogRecord) (a : apage) : option apage :=
  if decide (page_of r = Some q) then redo_on r a else Some a.
Fixpoint page_steps (q : Z) (rs : list LogRecord) (a : apage) : option apage :=
  match rs with [] => Some a | r :: rs' => a' ← page_step q r a; page_steps q rs' a' end.

(** No record makes a page: redo makes a new one each time it sees such a
    record. *)
Definition no_new_page (rs : list LogRecord) : Prop := Forall (λ r, Log_record_type r ≠ NEWPAGE) rs.

Lemma redo_step_page r q A next A' next' :
  page_of r = Some q → redo_step r (A, next) = Some (A', next') →
  ∃ a a', A !! q = Some a ∧ redo_on r a = Some a' ∧ A' = <[q := a']> A ∧ next' = next.
Proof.
  unfold redo_step. intros -> E. apply bind_Some in E as (a & Ha & (a' & Hr & [= <- <-])%bind_Some).
  by exists a, a'.
Qed.
Lemma redo_step_other r A next :
  page_of r = None → Log_record_type r ≠ NEWPAGE → redo_step r (A, next) = Some (A, next).
Proof. unfold redo_step. intros -> HN. apply Z.eqb_neq in HN. by rewrite HN. Qed.

Lemma page_step_other r q a : page_of r ≠ Some q → page_step q r a = Some a.
Proof. intros HN. unfold page_step. by rewrite decide_False. Qed.
Lemma page_step_own r q a : page_of r = Some q → page_step q r a = redo_on r a.
Proof. intros HN. unfold page_step. by rewrite decide_True. Qed.

(** A record changes its own page only. *)
Lemma redo_steps_pages rs : ∀ A next A' next', no_new_page rs → redo_steps rs (A, next) = Some (A', next') →
  next' = next ∧ (∀ q, A' !! q = a ← A !! q; page_steps q rs a) ∧
  (∀ q, is_Some (A !! q) → is_Some (A' !! q)) ∧
  ∀ r q, r ∈ rs → page_of r = Some q → is_Some (A !! q).
Proof.
  induction rs as [|r rs IH]; intros A next A' next' HN E.
  - injection E as <- <-. split; [done|]. split; [intros q; by destruct (A !! q)|]. split; [done|].
    intros r q Hr. by apply elem_of_nil in Hr.
  - apply Forall_cons in HN as [Hr HN]. apply bind_Some in E as ([A1 next1] & E1 & E).
    destruct (IH _ _ _ _ HN E) as (-> & HP & HS & HT). destruct (page_of r) as [q|] eqn:Hq.
    + destruct (redo_step_page _ _ _ _ _ _ Hq E1) as (a & a' & Ha & Hra & -> & ->). split; [done|]. split; [|split].
      * intros i. rewrite HP. cbn [page_steps]. destruct (decide (i = q)) as [->|Hne].
        -- rewrite lookup_insert_eq, Ha. cbn [mbind option_bind]. by rewrite page_step_own, Hra.
        -- rewrite lookup_insert_ne by done. destruct (A !! i); [|done]. cbn [mbind option_bind].
           by rewrite page_step_other by congruence.
      * intros i Hi. apply HS, lookup_insert_is_Some'. by right.
      * intros r' i [->|Hin]%elem_of_cons Hi; [replace i with q by congruence; by exists a|].
        pose proof (HT r' i Hin Hi) as [<-|?]%lookup_insert_is_Some'; [by exists a|done].
    + rewrite redo_step_other in E1 by done. injection E1 as <- <-. split; [done|]. split; [|split; [exact HS|]].
      * intros i. rewrite HP. destruct (A !! i); [|done]. cbn [mbind option_bind page_steps].
        by rewrite page_step_other by congruence.
      * intros r' i [->|Hin]%elem_of_cons Hi; [congruence|by eapply HT].
Qed.

(** Redo succeeds if it does on each page. *)
Lemma redo_steps_defined rs : ∀ A next, no_new_page rs →
  (∀ r q, r ∈ rs → page_of r = Some q → is_Some (A !! q)) →
  (∀ q a, A !! q = Some a → is_Some (page_steps q rs a)) →
  ∃ A', redo_steps rs (A, next) = Some (A', next).
Proof.
  induction rs as [|r rs IH]; intros A next HN HD HP; [by exists A|].
  apply Forall_cons in HN as [Hr HN]. destruct (page_of r) as [q|] eqn:Hq.
  - destruct (HD r q ltac:(by left) Hq) as [a Ha]. destruct (HP q a Ha) as [b Hb]. cbn [page_steps] in Hb.
    rewrite page_step_own in Hb by done. apply bind_Some in Hb as (a' & Hra & Hb).
    destruct (IH (<[q := a']> A) next HN) as (A' & E).
    + intros r' i Hin Hi. rewrite lookup_insert_is_Some'. right. apply (HD r' i); [by right|done].
    + intros i c Hc. apply lookup_insert_Some in Hc as [[<- <-]|[Hne Hc]]; [by exists b|].
      destruct (HP i c Hc) as [d Hd]. cbn [page_steps] in Hd. rewrite page_step_other in Hd by congruence. by exists d.
    + exists A'. cbn [redo_steps]. unfold redo_step. rewrite Hq, Ha. cbn [mbind option_bind]. by rewrite Hra.
  - destruct (IH A next HN) as (A' & E).
    + intros r' i Hin. apply HD. by right.
    + intros i c Hc. destruct (HP i c Hc) as [d Hd]. cbn [page_steps] in Hd. rewrite page_step_other in Hd by congruence. by exists d.
    + exists A'. cbn [redo_steps]. by rewrite redo_step_other.
Qed.

(** *** The LSN of a page says what it has seen *)
Lemma redo_on_lsn r a a' : redo_on r a = Some a' → Lsn r ≤ alsn a' ∧ alsn a ≤ alsn a'.
Proof.
  unfold redo_on. destruct (Z.ltb_spec (alsn a) (Lsn r)); [|intros [= <-]; lia].
  intros (ls & _ & [= <-])%bind_Some. cbn. lia.
Qed.
Lemma redo_on_seen r a : Lsn r ≤ alsn a → redo_on r a = Some a.
Proof. intros HL. unfold redo_on. by rewrite (proj2 (Z.ltb_ge _ _)). Qed.

Lemma page_steps_lsn q rs : ∀ a a', page_steps q rs a = Some a' →
  alsn a ≤ alsn a' ∧ Forall (λ r, page_of r = Some q → Lsn r ≤ alsn a') rs.
Proof.
  induction rs as [|r rs IH]; intros a a' E; [injection E as <-; split; [lia|done]|].
  apply bind_Some in E as (a1 & E1 & E). destruct (IH _ _ E) as [HL HF].
  assert (HR : alsn a ≤ alsn a1 ∧ (page_of r = Some q → Lsn r ≤ alsn a1)).
  { destruct (decide (page_of r = Some q)) as [Hq|Hq].
    - rewrite page_step_own in E1 by done. apply redo_on_lsn in E1. split; [lia|intros _; lia].
    - rewrite page_step_other in E1 by done. by injection E1 as <-. }
  split; [lia|]. constructor; [intros Hq; destruct HR as [_ HR]; specialize (HR Hq); lia|done].
Qed.
Lemma page_steps_seen q rs a : Forall (λ r, page_of r = Some q → Lsn r ≤ alsn a) rs → page_steps q rs a = Some a.
Proof.
  induction rs as [|r rs IH]; intros HF; [done|]. apply Forall_cons in HF as [Hr HF]. cbn [page_steps].
  destruct (decide (page_of r = Some q)) as [Hq|Hq].
  - rewrite page_step_own, redo_on_seen by auto. by apply IH.
  - rewrite page_step_other by done. by apply IH.
Qed.
Lemma page_steps_app q rs1 rs2 a : page_steps q (rs1 ++ rs2) a = a' ← page_steps q rs1 a; page_steps q rs2 a'.
Proof.
  revert a. induction rs1 as [|r rs1 IH]; intros a; [done|]. cbn [app page_steps].
  destruct (page_step q r a); [apply IH|done].
Qed.

(** A page that has seen the first [k] records ends where one that saw none does. *)
Lemma page_steps_catch_up q rs k a c : page_steps q (take k rs) a = Some c → page_steps q rs c = page_steps q rs a.
Proof.
  intros E. rewrite <- (take_drop k rs) at 1 2. rewrite !page_steps_app, E.
  by rewrite page_steps_seen by apply (page_steps_lsn _ _ _ _ E).
Qed.

Lemma redo_catches_up rs A B C next :
  no_new_page rs → redo_steps rs (A, next) = Some (B, next) → dom C = dom A →
  (∀ q c, C !! q = Some c → ∃ k A', redo_steps (take k rs) (A, next) = Some (A', next) ∧ A' !! q = Some c) →
  redo_steps rs (C, next) = Some (B, next).
Proof.
  intros HN HB HDm HC. destruct (redo_steps_pages _ _ _ _ _ HN HB) as (_ & HP & HS & HT).
  assert (HA : ∀ q c, C !! q = Some c → ∃ a, A !! q = Some a ∧ page_steps q rs c = page_steps q rs a).
  { intros q c Hc. destruct (HC q c Hc) as (k & A' & E & HA').
    destruct (redo_steps_pages (take k rs) _ _ _ _ (Forall_take _ _ _ HN) E) as (_ & HP' & _).
    rewrite HP' in HA'. apply bind_Some in HA' as (a & Ha & Hac). exists a. split; [done|].
    by eapply page_steps_catch_up. }
  destruct (redo_steps_defined rs C next HN) as (B' & E').
  - intros r q Hr Hq. apply elem_of_dom. rewrite HDm. apply elem_of_dom. by eapply HT.
  - intros q c Hc. destruct (HA q c Hc) as (a & Ha & ->). specialize (HP q). rewrite Ha in HP.
    cbn [mbind option_bind] in HP. rewrite <- HP. apply HS. by exists a.
  - destruct (redo_steps_pages _ _ _ _ _ HN E') as (_ & HP' & _). rewrite E'. do 2 f_equal.
    apply map_eq. intros q. rewrite HP', HP. destruct (C !! q) as [c|] eqn:Hc.
    + destruct (HA q c Hc) as (a & Ha & HE). by rewrite Ha.
    + apply not_elem_of_dom in Hc. rewrite HDm in Hc. apply not_elem_of_dom in Hc. by rewrite Hc.
Qed.

(** Redo repeats history. At a crash every page of the database file may be of
    another age: it has seen the first [k] records, some [k] of its own.  Redo
    brings them all to where a run of all the records from the beginning leads. *)
Theorem redo_repeats_history rs A B C next :
  no_new_page rs → redo_steps rs (A, next) = Some (B, next) → dom C = dom A →
  (∀ q c, C !! q = Some c → ∃ k A', redo_steps (take k rs) (A, next) = Some (A', next) ∧ A' !! q = Some c) →
  redo_steps rs (C, next) = Some (B, next).
Proof. apply redo_catches_up. Qed.

(** ** Undo against redo, one tuple at a time *)

(** What a slot holds: nothing, or a tuple with its delete flag. *)
Abbreviation value := (option (bool * list byte)) (only parsing).
Definition slot_val (ls : slots) (k : nat) : value := mjoin (ls !! k).
Definition page_val (A : gmap Z apage) (q : Z) (k : nat) : value := a ← A !! q; slot_val (aslots a) k.

(** The tuple a record is about. *)
Definition rid_of (r : LogRecord) : option RID :=
  let ty := Log_record_type r in
  if ty =? INSERT then Some (Insert_rid r)
  else if is_delete ty then Some (Delete_rid r)
  else if ty =? UPDATE then Some (Update_rid r)
  else None.
Definition touches (q : Z) (k : nat) (r : LogRecord) : bool :=
  match rid_of r with Some i => (PageId i =? q) && (slot_no i =? k)%nat | None => false end.

(** What the record did to its tuple, and what undo does to it. *)
Definition slot_redo (r : LogRecord) (v : value) : option value :=
  let ty := Log_record_type r in
  if ty =? INSERT then match v with None => Some (Some (false, data (Insert_tuple r))) | _ => None end
  else if ty =? APPLYDELETE then match v with Some _ => Some None | _ => None end
  else if ty =? MARKDELETE then match v with Some (false, bs) => Some (Some (true, bs)) | _ => None end
  else if ty =? ROLLBACKDELETE then match v with Some (true, bs) => Some (Some (false, bs)) | _ => None end
  else if ty =? UPDATE then
    match v with
    | Some (false, bs) => if decide (bs = data (Old_tuple r)) then Some (Some (false, data (New_tuple r))) else None
    | _ => None
    end
  else Some v.
Definition slot_undo (r : LogRecord) (v : value) : option value :=
  let ty := Log_record_type r in
  if ty =? INSERT then match v with Some _ => Some None | _ => None end
  else if ty =? MARKDELETE then match v with Some (_, bs) => Some (Some (false, bs)) | _ => None end
  else if ty =? ROLLBACKDELETE then match v with Some (false, bs) => Some (Some (true, bs)) | _ => None end
  else if ty =? UPDATE then match v with Some (false, _) => Some (Some (false, data (Old_tuple r))) | _ => None end
  else Some v.
Fixpoint slot_redos (rs : list LogRecord) (v : value) : option value :=
  match rs with [] => Some v | r :: rs' => v' ← slot_redo r v; slot_redos rs' v' end.
Fixpoint slot_undos (rs : list LogRecord) (v : value) : option value :=
  match rs with [] => Some v | r :: rs' => v' ← slot_undo r v; slot_undos rs' v' end.

(** A record says what happened on its page: the tuple is where the record says it
    is, an inserted one in the first free slot. *)
Definition faithful (r : LogRecord) (ls : slots) : Prop :=
  ∀ i, rid_of r = Some i → is_Some (slot_redo r (slot_val ls (slot_no i))) ∧
    (Log_record_type r = INSERT → slot_no i = free_slot ls).

(** The run that wrote the records, from the pages [A] to the pages [B]. *)
Inductive history : list LogRecord → gmap Z apage → gmap Z apage → Prop :=
  | history_nil A : history [] A A
  | history_page r q rs A B a ls : page_of r = Some q → A !! q = Some a → alsn a < Lsn r →
      faithful r (aslots a) → redo_slots r (aslots a) = Some ls →
      history rs (<[q := MkAPage (Lsn r) ls (anext a)]> A) B → history (r :: rs) A B
  | history_other r rs A B : page_of r = None → Log_record_type r ≠ NEWPAGE →
      history rs A B → history (r :: rs) A B.

Lemma history_redo rs A B next : history rs A B → no_new_page rs ∧ redo_steps rs (A, next) = Some (B, next).
Proof.
  induction 1 as [A|r q rs A B a ls Hq Ha Hl _ HS _ [IH1 IH2]|r rs A B Hq HT _ [IH1 IH2]]; [by split; [constructor|]| |].
  - split; [constructor; [intros e; revert Hq; unfold page_of; by rewrite e|exact IH1]|].
    cbn [redo_steps]. unfold redo_step.
    rewrite Hq, Ha. cbn [mbind option_bind]. unfold redo_on. rewrite (proj2 (Z.ltb_lt _ _) Hl), HS. exact IH2.
  - split; [constructor; [exact HT|exact IH1]|]. cbn [redo_steps]. by rewrite redo_step_other.
Qed.

Lemma page_of_rid r : page_of r = PageId <$> rid_of r.
Proof. unfold page_of, rid_of. by repeat case_match. Qed.

Lemma slot_val_insert ls k k' x : is_Some (ls !! k) →
  slot_val (<[k := x]> ls) k' = if decide (k' = k) then x else slot_val ls k'.
Proof.
  intros Hk%lookup_lt_is_Some. unfold slot_val. destruct (decide (k' = k)) as [->|Hne].
  - by rewrite list_lookup_insert_eq.
  - by rewrite list_lookup_insert_ne.
Qed.

Lemma slot_val_put ls x k' :
  slot_val (put_slot (free_slot ls) x ls) k' = if decide (k' = free_slot ls) then x else slot_val ls k'.
Proof.
  unfold put_slot. destruct (Nat.ltb_spec (free_slot ls) (length ls)) as [HL|HL].
  - apply slot_val_insert. by apply lookup_lt_is_Some.
  - pose proof (free_slot_le ls) as Hle. assert (HE : free_slot ls = length ls) by lia. rewrite HE. unfold slot_val.
    destruct (decide (k' = length ls)) as [->|Hne]; [by rewrite lookup_app_r, Nat.sub_diag by done|].
    destruct (decide (k' < length ls)%nat); [by rewrite lookup_app_l by done|].
    rewrite lookup_app_r by lia. rewrite (lookup_ge_None_2 ls k') by lia.
    rewrite lookup_ge_None_2; [done|cbn; lia].
Qed.

(** A slot that held something is set. *)
Ltac slot_set HL :=
  rewrite slot_val_insert, decide_True by (by rewrite ?HL); unfold slot_val at 1; rewrite HL; cbn [mjoin option_join];
  split; [try done|intros k Hk; by rewrite slot_val_insert, decide_False by (by rewrite ?HL)].

(** A record changes its own slot, as [slot_redo] and [slot_undo] say. *)
Lemma redo_slots_val r ls ls' i :
  rid_of r = Some i → faithful r ls → redo_slots r ls = Some ls' →
  slot_redo r (slot_val ls (slot_no i)) = Some (slot_val ls' (slot_no i)) ∧
  ∀ k, k ≠ slot_no i → slot_val ls' k = slot_val ls k.
Proof.
  intros Hi HF HS. destruct (HF i Hi) as [[v Hv] HI]. revert Hi HS Hv HI. unfold rid_of, redo_slots, slot_redo, is_delete.
  record_type r; rewrite ?e; cbn [Z.eqb orb INSERT APPLYDELETE MARKDELETE ROLLBACKDELETE UPDATE Pos.eqb]; try done;
    intros [= <-] HS Hv HI.
  - specialize (HI eq_refl). unfold insert_slots in HS. destruct (_ && _); [|done]. injection HS as <-.
    rewrite HI in Hv |- *. rewrite slot_val_put, decide_True by done. destruct (slot_val ls _); [done|].
    split; [done|]. intros k Hk. by rewrite slot_val_put, decide_False.
  - unfold apply_slots in HS. destruct (ls !! _) as [[x|]|] eqn:HL; [|done..]. injection HS as <-.
    slot_set HL.
  - unfold mark_slots in HS. destruct (ls !! _) as [[[[|] bs]|]|] eqn:HL; [done| |done..]. injection HS as <-.
    slot_set HL.
  - unfold unmark_slots in HS. destruct (ls !! _) as [[[[|] bs]|]|] eqn:HL; [| |done..]; injection HS as <-;
      [|unfold slot_val in Hv; by rewrite HL in Hv].
    slot_set HL.
  - unfold update_slots in HS. destruct (ls !! _) as [[[[|] bs]|]|] eqn:HL; [done| |done..].
    destruct (_ && _); [|done]. injection HS as <-. unfold slot_val in Hv. rewrite HL in Hv. cbn in Hv.
    destruct (decide (bs = _)) as [Hb|]; [|done]. slot_set HL. by rewrite decide_True.
Qed.

Lemma undo_slots_val r ls ls' i :
  rid_of r = Some i → Log_record_type r ≠ APPLYDELETE → undo_slots r ls = Some ls' →
  slot_undo r (slot_val ls (slot_no i)) = Some (slot_val ls' (slot_no i)) ∧
  ∀ k, k ≠ slot_no i → slot_val ls' k = slot_val ls k.
Proof.
  unfold rid_of, undo_slots, slot_undo, is_delete.
  record_type r; rewrite ?e; cbn [Z.eqb orb INSERT APPLYDELETE MARKDELETE ROLLBACKDELETE UPDATE Pos.eqb]; try done;
    intros [= <-] _ HS; unfold apply_slots, mark_slots, unmark_slots, update_slots in HS;
    destruct (ls !! _) as [[[b bs]|]|] eqn:HL; try done; [| |destruct b|destruct b]; try done;
    try (destruct (_ && _); [|done]); injection HS as <-.
  all: slot_set HL.
Qed.

(** Undo is the inverse of redo. *)
Lemma slot_undo_redo r v w x :
  Log_record_type r ≠ APPLYDELETE → slot_redo r v = Some w → slot_undo r w = Some x → x = v.
Proof.
  unfold slot_redo, slot_undo. intros HT H1 H2.
  record_type r; rewrite ?e in H1, H2; cbn [Z.eqb INSERT APPLYDELETE MARKDELETE ROLLBACKDELETE UPDATE Pos.eqb] in H1, H2; try done;
    destruct v as [[[|] bs]|]; simplify_eq/=; try done.
  destruct (decide _); [|done]. simplify_eq/=. done.
Qed.

Lemma slot_redos_app rs1 rs2 v : slot_redos (rs1 ++ rs2) v = w ← slot_redos rs1 v; slot_redos rs2 w.
Proof.
  revert v. induction rs1 as [|r rs1 IH]; intros v; [done|]. cbn [app slot_redos].
  destruct (slot_redo r v); [apply IH|done].
Qed.

Lemma slot_undos_redos us v w x :
  Forall (λ r, Log_record_type r ≠ APPLYDELETE) us →
  slot_redos (reverse us) v = Some w → slot_undos us w = Some x → x = v.
Proof.
  intros HF. revert w. induction us as [|r us IH]; intros w H1 H2.
  - cbn in H1, H2. congruence.
  - apply Forall_cons in HF as [HT HF]. rewrite reverse_cons, slot_redos_app in H1.
    apply bind_Some in H1 as (u & H1 & (w' & H1' & [= ->])%bind_Some).
    cbn [slot_undos] in H2. apply bind_Some in H2 as (u' & H2 & H3).
    rewrite (slot_undo_redo _ _ _ _ HT H1' H2) in H3. by eapply IH.
Qed.

(** The records of one slot. *)
Definition on (q : Z) (k : nat) (rs : list LogRecord) : list LogRecord := List.filter (touches q k) rs.

Lemma touches_rid r i q k : rid_of r = Some i → touches q k r = true ↔ q = PageId i ∧ k = slot_no i.
Proof.
  intros Hi. unfold touches. rewrite Hi, andb_true_iff, Z.eqb_eq, Nat.eqb_eq. split; intros []; by subst.
Qed.
Lemma touches_none r q k : rid_of r = None → touches q k r = false.
Proof. intros Hi. unfold touches. by rewrite Hi. Qed.

(** A page gets new slots that differ in one. *)
Lemma page_val_insert A q lsn ls next q' k' :
  page_val (<[q := MkAPage lsn ls next]> A) q' k' = if decide (q' = q) then slot_val ls k' else page_val A q' k'.
Proof.
  unfold page_val. destruct (decide (q' = q)) as [->|Hne]; [by rewrite lookup_insert_eq|by rewrite lookup_insert_ne].
Qed.

(** [step] is [slot_redo] or [slot_undo]: what the record does to the slot ([q],
    [k]), if it is about it. *)
Lemma page_val_step (step : LogRecord → value → option value) r i A a ls lsn q k :
  rid_of r = Some i → A !! PageId i = Some a →
  step r (slot_val (aslots a) (slot_no i)) = Some (slot_val ls (slot_no i)) →
  (∀ k, k ≠ slot_no i → slot_val ls k = slot_val (aslots a) k) →
  let A' := <[PageId i := MkAPage lsn ls (anext a)]> A in
  if touches q k r then step r (page_val A q k) = Some (page_val A' q k) else page_val A' q k = page_val A q k.
Proof.
  intros Hi Ha HS HO A'. unfold A'. rewrite page_val_insert by done.
  assert (HA : page_val A (PageId i) = slot_val (aslots a)) by (unfold page_val; by rewrite Ha).
  destruct (touches q k r) eqn:HT.
  - apply (touches_rid _ _ _ _ Hi) in HT as [-> ->]. rewrite decide_True by done. by rewrite HA.
  - destruct (decide (q = PageId i)) as [->|Hne]; [|done]. rewrite HA. apply HO.
    intros ->. assert (touches (PageId i) (slot_no i) r = true) by by eapply touches_rid. congruence.
Qed.

Lemma history_val rs A B q k : history rs A B →
  slot_redos (on q k rs) (page_val A q k) = Some (page_val B q k).
Proof.
  induction 1 as [A|r p rs A B a ls Hq Ha Hl HF HS _ IH|r rs A B Hq HT _ IH]; [done| |].
  - rewrite page_of_rid in Hq. destruct (rid_of r) as [i|] eqn:Hi; [|done]. injection Hq as <-.
    destruct (redo_slots_val r _ _ i Hi HF HS) as [HV HO].
    pose proof (page_val_step slot_redo r i A a ls (Lsn r) q k Hi Ha HV HO) as HP. cbv zeta in HP.
    unfold on. cbn [List.filter]. destruct (touches q k r); [|by rewrite <- HP].
    cbn [slot_redos]. rewrite HP. exact IH.
  - unfold on. cbn [List.filter]. rewrite page_of_rid in Hq. rewrite touches_none by by destruct (rid_of r). exact IH.
Qed.

Lemma undo_steps_val us q k : Forall (λ r, Log_record_type r ≠ APPLYDELETE) us →
  ∀ A A', undo_steps us A = Some A' → slot_undos (on q k us) (page_val A q k) = Some (page_val A' q k).
Proof.
  induction us as [|r us IH]; intros HF A A' E; [by injection E as <-|].
  apply Forall_cons in HF as [HT HF]. apply bind_Some in E as (A1 & E1 & E). specialize (IH HF _ _ E).
  unfold undo_step in E1. rewrite page_of_rid in E1. unfold on. cbn [List.filter].
  destruct (rid_of r) as [i|] eqn:Hi; cbn [fmap option_fmap option_map] in E1.
  - apply bind_Some in E1 as (a & Ha & (ls & HS & [= <-])%bind_Some).
    destruct (undo_slots_val r _ _ i Hi HT HS) as [HV HO].
    pose proof (page_val_step slot_undo r i A a ls (alsn a) q k Hi Ha HV HO) as HP. cbv zeta in HP.
    destruct (touches q k r); [|by rewrite <- HP]. cbn [slot_undos]. rewrite HP. exact IH.
  - injection E1 as <-. by rewrite touches_none.
Qed.

(** What the committed transactions alone made of a tuple is what undo leaves. *)
Lemma winners_run rs A B A' (wins : LogRecord → bool) us :
  history rs A B → Forall (λ r, Log_record_type r ≠ APPLYDELETE) us →
  (∀ q k, on q k rs = on q k (List.filter wins rs) ++ reverse (on q k us)) →
  undo_steps us B = Some A' →
  ∀ q k, slot_redos (on q k (List.filter wins rs)) (page_val A q k) = Some (page_val A' q k).
Proof.
  intros HH HT HO HU q k. pose proof (history_val rs A B q k HH) as HR. rewrite HO, slot_redos_app in HR.
  apply bind_Some in HR as (v & HW & HR). rewrite HW. f_equal. symmetry.
  eapply (slot_undos_redos (on q k us)); [|exact HR|by apply undo_steps_val].
  apply Forall_forall. intros r Hr. rewrite Forall_forall in HT. apply HT.
  unfold on in Hr. apply list_elem_of_In, filter_In in Hr as [Hr _]. by apply list_elem_of_In.
Qed.

(** Pages stay. *)
Lemma undo_steps_dom us : ∀ A A' q, undo_steps us A = Some A' → is_Some (A !! q) → is_Some (A' !! q).
Proof.
  induction us as [|r us IH]; intros A A' q E Hq; [by injection E as <-|].
  apply bind_Some in E as (A1 & E1 & E). apply (IH _ _ q E). unfold undo_step in E1.
  destruct (page_of r); [|by injection E1 as <-]. apply bind_Some in E1 as (a & _ & (ls & _ & [= <-])%bind_Some).
  apply lookup_insert_is_Some'. by right.
Qed.

(** The pages [C] are of mixed ages: each is one of [A] that has seen the first [k]
    records, some [k] of its own. *)
Definition aged (rs : list LogRecord) (next : Z) (A C : gmap Z apage) : Prop :=
  dom C = dom A ∧
  ∀ q c, C !! q = Some c → ∃ k A', redo_steps (take k rs) (A, next) = Some (A', next) ∧ A' !! q = Some c.

Section recovery.
Context {R : Type} `{Replacer R}.
Implicit Types (s : LogRecovery R).

(** C1: recovery keeps what committed transactions did and nothing of the others, where
    the log allows it.  [wins] are the records of the former, [mjoin paths] those of the
    others, in the order undo takes them.  If on every tuple the others came last, as they
    do when a transaction keeps its exclusive locks to its end, and undo reverses their
    order there, then after a crash that left every page of the file at an age of its own,
    redo and undo put pages on disk where every tuple is what the committed transactions
    alone made of it.

    What the log must be like for this: it fits the log buffer; it has no NEWPAGE record,
    for redo makes a page each time it meets one; the others left no APPLYDELETE, as a
    transaction that inserted and aborted does; and each of their records can be taken back
    ([undo_steps]), which an update cannot if the room it gave was taken since.  The last
    two are needed: see [aborted_insert_destroys_committed] and [lost_update_not_undone]. *)
Theorem recovery_keeps_winners s n P C rs A B A' (wins : LogRecord → bool) order paths fuel :
  let next := nextPageID (diskManager (rstore s)) in
  let us := mjoin paths in
  recovering n P (encode_all rs) s → pages_are P C → (0 < n)%nat → zlen (encode_all rs) ≤ LogBufferSize →
  Forall record_fine rs → NoDup (Lsn <$> rs) → 0 ≤ next ≤ 2 ^ 19 → (length rs + 2 ≤ fuel)%nat →
  history rs A B → aged rs next A C →
  Forall2 (λ t path, ∃ lsn, active_after rs (active_txn s) !! t = Some lsn ∧ back_from rs lsn path) order paths →
  Forall (λ path, (length path ≤ fuel)%nat) paths →
  Forall (λ r, Log_record_type r ≠ APPLYDELETE) us →
  (∀ q k, on q k rs = on q k (List.filter wins rs) ++ reverse (on q k us)) →
  undo_steps us B = Some A' →
  ∃ s1 s2, Redo fuel s = Ok (tt, s1) ∧
    undo_all fuel ((λ t, default 0 (active_txn s1 !! t)) <$> order) ZeroLogRecord s1 = Ok (tt, s2) ∧
    ∀ flush_order, (∀ pid, pid ∈ flush_order ↔ is_Some (pageTable (bpm (rstore s2)) !! pid)) →
    ∃ s', Undo fuel order flush_order s1 = Ok (tt, s') ∧
      ∀ q, is_Some (A !! q) → page_present q (diskManager (rstore s')) ∧
        let d := page_bytes q (diskManager (rstore s')) in
        page_wf d ∧ ∀ k, slot_redos (on q k (List.filter wins rs)) (page_val A q k) = Some (slot_val (contents d) k).
Proof.
  intros next us RC HC Hn HLB HF HND H0 Hf HH [HD HA] HO HPf HT HS HU.
  destruct (history_redo rs A B next HH) as [HN HB].
  pose proof (redo_catches_up rs A B C next HN HB HD HA) as HB'.
  destruct (Redo_run n P C _ s rs fuel B next RC HC Hn eq_refl HLB HF) as (P1 & s1 & E1 & RC1 & HP1 & _ & HT1 & HM1 & HB1);
    [lia|lia|exact HB'|exact Hf|].
  assert (HU1 : undoing n P1 rs s1) by (split; [exact RC1|by exists (lsn_mapping s)|exact HB1]).
  rewrite <- HT1 in HO.
  destruct (Undo_run s1 n P1 B rs order paths fuel A' HU1 HP1 Hn HLB HF HND HO HPf HU) as (P2 & s2 & E2 & _ & _ & HFl).
  exists s1, s2. split; [exact E1|]. split; [exact E2|]. intros fo Hfo.
  destruct (HFl fo Hfo) as (s' & EU & HPg). exists s'. split; [exact EU|]. intros q Hq.
  assert (HqB : is_Some (B !! q)) by (destruct (redo_steps_pages _ _ _ _ _ HN HB) as (_ & _ & HX & _); auto).
  destruct (undo_steps_dom _ _ _ q HU HqB) as [a Ha]. destruct (HPg q a Ha) as (HPr & HI & _).
  split; [exact HPr|]. split; [apply (pg_wf _ _ _ _ HI)|]. intros k.
  rewrite (winners_run rs A B A' wins us HH HT HS HU q k), (pg_contents _ _ _ _ HI).
  unfold page_val. by rewrite Ha.
Qed.
End recovery.

(** ** A concrete history

    Transaction 1 inserts a tuple and commits; transaction 2 inserts another and
    marks the first one deleted; then comes the crash. *)
Definition other_tuple : Tuple := MkTuple None 2 [Byte.x63; Byte.x64].
Definition rid_01 : RID := MkRID 0 1.
Definition example_history : list LogRecord :=
  [set_Lsn 2 (NewLogRecordInsertDelete 1 InvalidLSN INSERT rid_00 example_tuple);
   set_Lsn 3 (NewLogRecordInsertDelete 2 InvalidLSN INSERT rid_01 other_tuple);
   set_Lsn 4 (NewLogRecordTxn 1 2 COMMIT);
   set_Lsn 5 (NewLogRecordInsertDelete 2 3 MARKDELETE rid_00 example_tuple)].
Definition example_wins (r : LogRecord) : bool := Txn_id r =? 1.
Definition example_undone : list LogRecord := reverse (List.filter (λ r, negb (example_wins r)) example_history).
Definition one_page (lsn : Z) (ls : slots) : gmap Z apage := {[0 := MkAPage lsn ls InvalidPageID]}.
Definition full_page : slots := [Some (true, data example_tuple); Some (false, data other_tuple)].

Lemma example_runs : history example_history (one_page 1 []) (one_page 5 full_page).
Proof.
  eapply (history_page _ 0); [reflexivity|reflexivity|reflexivity| |reflexivity|].
  { intros i [= <-]. split; [by eexists|reflexivity]. }
  eapply (history_page _ 0); [reflexivity|reflexivity|reflexivity| |reflexivity|].
  { intros i [= <-]. split; [by eexists|reflexivity]. }
  apply history_other; [reflexivity|discriminate|].
  eapply (history_page _ 0); [reflexivity|reflexivity|reflexivity| |reflexivity|].
  { intros i [= <-]. split; [by eexists|discriminate]. }
  apply history_nil.
Qed.

(** The page reached the disk after its first change; redo repeats the others. *)
Lemma redo_repeats_history_witness :
  redo_steps example_history (one_page 2 [Some (false, data example_tuple)], 1) = Some (one_page 5 full_page, 1).
Proof.
  destruct (history_redo _ _ _ 1 example_runs) as [HN HB].
  apply (redo_repeats_history example_history (one_page 1 []) (one_page 5 full_page)); [exact HN|exact HB|vm_compute; reflexivity|].
  intros q c Hc. exists 1%nat, (one_page 2 [Some (false, data example_tuple)]). split; [vm_compute; reflexivity|exact Hc].
Defined.

(** A page of the file that has seen the first record. *)
Lemma aged_page_made : ∃ d, page_is d 0 [Some (false, data example_tuple)] InvalidPageID ∧ page_lsn d = 2.
Proof.
  destruct (init_run (MkTPState false (NewEmpty 0) None None None) 0 InvalidPageID)
    as (s1 & _ & W & C & I1 & N1 & _ & _ & _ & HE & _); [done|by apply in_range_valid|done|done|].
  assert (HI : page_is (bytes s1) 0 [] InvalidPageID) by by split.
  destruct (insert_plain s1 example_tuple rid_00 [Some (false, data example_tuple)]) as (x & s2 & _ & W2 & C2 & L2 & _);
    [exact HE|exact W|done|by rewrite C|].
  assert (HI2 : page_is (bytes s2) 0 [Some (false, data example_tuple)] InvalidPageID)
    by (eapply page_is_links; [exact HI|exact W2|exact C2|exact L2]).
  destruct (page_is_stamp _ _ _ _ 2 HI2) as (HI3 & HL & _); [unfold in_i32; lia|]. by eexists.
Qed.

Definition aged_restart (d : list byte) : LogRecovery ClockReplacer :=
  NewLogRecovery (new_store 2 (NewDiskManagerImpl d (encode_all example_history))) false.

Lemma aged_restart_recovering d ls :
  page_is d 0 ls InvalidPageID → recovering 2 {[0 := d]} (encode_all example_history) (aged_restart d) ∧
  nextPageID (diskManager (rstore (aged_restart d))) = 2.
Proof.
  intros HI. pose proof (pw_len _ (pg_wf _ _ _ _ HI)) as HL. unfold zlen in HL.
  assert (HN : nextPageID (NewDiskManagerImpl d (encode_all example_history)) = 2)
    by (cbn; by rewrite HL).
  split; [|exact HN]. split; [|done|done|vm_compute; reflexivity].
  apply (new_store_pages 2).
  - unfold in_u32. lia.
  - done.
  - rewrite HN. unfold file_size. cbn [db NewDiskManagerImpl content]. rewrite HL. vm_compute. discriminate.
  - intros pid bs [<- <-]%lookup_singleton_Some. split.
    + split; [unfold page_in_range; lia|]. unfold file_size. cbn [db NewDiskManagerImpl content]. rewrite HL. vm_compute. discriminate.
    + unfold page_bytes, region. cbn [db NewDiskManagerImpl content]. change (Z.to_nat (0 * PageSize)) with 0%nat.
      rewrite drop_0, take_ge; [done|lia].
Qed.

Lemma example_history_fine : Forall record_fine example_history.
Proof. repeat constructor; try (vm_compute; congruence); try (vm_compute; reflexivity). Qed.

Lemma example_path : back_from example_history 5 example_undone.
Proof.
  apply (back_record _ (set_Lsn 5 (NewLogRecordInsertDelete 2 3 MARKDELETE rid_00 example_tuple)));
    [do 3 right; left|discriminate|].
  apply (back_record _ (set_Lsn 3 (NewLogRecordInsertDelete 2 InvalidLSN INSERT rid_01 other_tuple)));
    [right; left|discriminate|apply back_end].
Qed.

(** Transaction 1's tuple is on disk and not deleted; transaction 2's is not. *)
Lemma recovery_keeps_winners_witness :
  ∃ d (s1 s2 : LogRecovery ClockReplacer), page_lsn d = 2 ∧ Redo 10 (aged_restart d) = Ok (tt, s1) ∧
    ∀ flush_order, (∀ pid, pid ∈ flush_order ↔ is_Some (pageTable (bpm (rstore s2)) !! pid)) →
    ∃ s', Undo 10 [2] flush_order s1 = Ok (tt, s') ∧
      let ls := contents (page_bytes 0 (diskManager (rstore s'))) in
      slot_val ls 0 = Some (false, data example_tuple) ∧ slot_val ls 1 = None.
Proof.
  destruct aged_page_made as (d & HI & HL). destruct (aged_restart_recovering d _ HI) as [RC HN].
  destruct (recovery_keeps_winners (aged_restart d) 2 {[0 := d]} (one_page 2 [Some (false, data example_tuple)])
    example_history (one_page 1 []) (one_page 5 full_page) (one_page 5 [Some (false, data example_tuple); None])
    example_wins [2] [example_undone] 10 RC) as (s1 & s2 & E1 & _ & HF).
  - intros q a Ha. unfold one_page in Ha; apply lookup_singleton_Some in Ha as [<- <-]. exists d. split; [reflexivity|]. split; [exact HI|]. split; [exact HL|].
    unfold page_in_range. lia.
  - lia.
  - vm_compute. discriminate.
  - apply example_history_fine.
  - apply (bool_decide_unpack _). vm_compute. exact I.
  - rewrite HN. lia.
  - cbn. lia.
  - apply example_runs.
  - split; [vm_compute; reflexivity|]. intros q c Hc. exists 1%nat, (one_page 2 [Some (false, data example_tuple)]).
    rewrite HN. split; [vm_compute; reflexivity|exact Hc].
  - repeat constructor. exists 5. split; [vm_compute; reflexivity|apply example_path].
  - repeat constructor.
  - repeat constructor; discriminate.
  - intros q k. destruct q; [destruct k as [|[|k]]|..]; vm_compute; reflexivity.
  - vm_compute. reflexivity.
  - exists d, s1, s2. split; [exact HL|]. split; [exact E1|]. intros fo Hfo. destruct (HF fo Hfo) as (s' & EU & HP).
    exists s'. split; [exact EU|]. destruct (HP 0 ltac:(by eexists)) as (_ & _ & HK). cbv zeta in HK |- *.
    pose proof (HK 0%nat) as H0. pose proof (HK 1%nat) as H1. clear HK.
    set (ls := contents _) in *.
    change (Some (Some (false, data example_tuple)) = Some (slot_val ls 0)) in H0.
    change (Some (@None (bool * list byte)) = Some (slot_val ls 1)) in H1.
    split; [exact (eq_sym (inj Some _ _ H0))|exact (eq_sym (inj Some _ _ H1))].
Defined.

(** ** An aborted insert destroys a committed one

    Transaction 1 inserts a tuple and aborts, which frees its slot; transaction 2
    gets the slot for its own tuple and commits.  Redo does not take an aborted
    transaction off the list of the running ones, and undo takes back the
    records of its abort, then its insert: the tuple now in the slot goes, and the
    aborted one is put in the next. *)
Definition aborted_then_committed : st (System ClockReplacer) unit :=
  _ ← Begin None;
  _ ← with_engine NewTableHeap;
  _ ← with_engine (TableHeap.InsertTuple 2 table_0 example_tuple);
  _ ← Abort 2;
  _ ← Begin None;
  _ ← with_engine (TableHeap.InsertTuple 2 table_0 other_tuple);
  Commit.

Definition start_system : System ClockReplacer := MkSystem NewTransactionManager start_engine.
Definition succeeds {A} (x : res A) : bool := match x with Ok _ => true | _ => false end.
Definition after_run : System ClockReplacer := end_of start_system (aborted_then_committed start_system).
Definition page_of_run {R A : Type} (pid : Z) (x : res (A * LogRecovery R)) : option (slots * list Z) :=
  match x with
  | Ok (_, s) => Some (contents (page_bytes pid (diskManager (rstore s))), elements (dom (active_txn s)))
  | _ => None
  end.
Definition recover_from (logged : list byte) (order : list Z) : res (unit * LogRecovery ClockReplacer) :=
  (_ ← Redo 10; Undo 10 order [0]) (NewLogRecovery (new_store 2 (NewDiskManagerImpl [] logged)) false).
(** The tuples of page 0, were the pool flushed. *)
Definition page_0_slots (s : System ClockReplacer) : slots :=
  contents (page_bytes 0 (diskManager (estore (engine_of (with_store (FlushAllPages [0])) (engine s))))).

(** Recovery can lose what a committed transaction wrote. The run of
    [aborted_then_committed] ends with transaction 2's tuple in the table and its
    whole log on disk; recovery from that log gives a table without that tuple, and
    with the one of the transaction that aborted. *)
Theorem aborted_insert_destroys_committed :
  succeeds (aborted_then_committed start_system) = true ∧
  page_0_slots after_run = [Some (false, data other_tuple)] ∧
  page_of_run 0 (recover_from (content (log (diskManager (estore (engine after_run))))) [1]) =
    Some ([None; Some (false, data example_tuple)], [1]).
Proof. split; [|split]; vm_compute; reflexivity. Qed.

(** ** What does not fit back

    On a page filled to the last byte a transaction makes a tuple shorter, and in the room
    this gives another tuple is inserted, which takes a slot.  The old tuple then does not
    fit in its place again, even after the other is gone: its slot stays. *)
Definition tuple_of_size (n : nat) : Tuple := MkTuple None (Z.of_nat n) (replicate n Byte.x61).
Definition roomy_start : System ClockReplacer :=
  MkSystem (MkTransactionManager 0 (MkLatch 0 false) ∅)
    (MkEngine (new_store 10 (NewDiskManagerImpl [] [])) NewLockManager (NewTransaction 7) true).
Definition shrunk : st (System ClockReplacer) unit :=
  _ ← Begin None; _ ← with_engine NewTableHeap; _ ← with_engine (TableHeap.InsertTuple 2 table_0 (tuple_of_size 4064)); _ ← Commit;
  _ ← Begin None; _ ← with_engine (TableHeap.UpdateTuple 2 table_0 (tuple_of_size 3964) None None (MkRID 0 0)); mret tt.
Definition insert_small : st (System ClockReplacer) unit :=
  _ ← with_engine (TableHeap.InsertTuple 2 table_0 (tuple_of_size 20)); mret tt.
Definition slot_sizes (l : slots) : list (option (bool * nat)) :=
  fmap (M := option) (λ y : bool * list byte, (fst y, length (snd y))) <$> l.

(** The same transaction inserts and then aborts: the old tuple is put on another page, and
    its record stays marked deleted. *)
Definition shrink_and_abort : st (System ClockReplacer) unit := _ ← shrunk; _ ← insert_small; Abort 2.
Lemma aborted_shrink_moves :
  match shrink_and_abort roomy_start with
  | Ok (_, s) => let d := diskManager (estore (engine_of (with_store (FlushAllPages [0; 1])) (engine s))) in
      slot_sizes (contents (page_bytes 0 d)) = [Some (true, 3964%nat); None] ∧ slot_sizes (contents (page_bytes 1 d)) = [Some (false, 4064%nat)]
  | _ => False
  end.
Proof. vm_compute. split; reflexivity. Qed.

(** Another transaction inserts and commits, and the database stops: recovery cannot undo
    the update, and the short tuple of the transaction that did not commit stays in place
    of the committed one. *)
Definition shrink_and_stop : st (System ClockReplacer) unit := _ ← shrunk; _ ← Begin None; _ ← insert_small; Commit.
Definition stopped : System ClockReplacer := end_of roomy_start (shrink_and_stop roomy_start).
Definition recovered_first_page : option (list (option (bool * nat))) :=
  let logged := content (log (diskManager (estore (engine stopped)))) in
  match (_ ← Redo 20; Undo 20 [2] [0]) (NewLogRecovery (R := ClockReplacer) (new_store 2 (NewDiskManagerImpl [] logged)) false) with
  | Ok (_, s) => Some (slot_sizes (contents (page_bytes 0 (diskManager (rstore s)))))
  | _ => None
  end.
Lemma lost_update_not_undone : recovered_first_page = Some [Some (false, 3964%nat); Some (false, 20%nat)].
Proof. vm_compute. reflexivity. Qed.
