(* ===== verification/HashPage.v ===== *)
(** * The pages of a hash table ([storage/page/hash_table_block_page.go],
    [storage/page/hash_table_header_page.go])

    The source lays Go structs over the 4096 bytes of a page.  Here the bytes are
    read and written where the compiler puts the fields: the header's [pageId] at 0,
    [lsn] (64 bits, aligned) at 8, [nextIndex] at 16, [size] at 24 and
    [blockPageIds] at 32; a block's two bitmaps at 0 and 32 and its pairs at 64. *)

From S2P Require Import Prelude Bytes Disk.

(** ** Block pages *)
Definition sizeOfHashTablePair : Z := 16.
Definition BlockArraySize : Z := 4 * 4096 / (4 * sizeOfHashTablePair + 1).
(** The length of [occuppied] and [readable]. *)
Definition bitmapSize : Z := (BlockArraySize - 1) / 8 + 1.
Definition occuppied : Z := 0.
Definition readable : Z := bitmapSize.
Definition array : Z := 2 * bitmapSize.

Definition pair_at (i : Z) : Z := array + 8 * i.

(** [page.array[index].key] and [.value] *)
Definition KeyAt (i : Z) (d : list byte) : res Z :=
  _ ← guard_res (i <? BlockArraySize); Ok (zfield (pair_at i) d).
Definition ValueAt (i : Z) (d : list byte) : res Z :=
  _ ← guard_res (i <? BlockArraySize); Ok (zfield (pair_at i + 4) d).

(** The byte of a bitmap that [index] is in, and its bit there. *)
Definition map_byte (bm i : Z) (d : list byte) : res Z :=
  _ ← guard_res (i / 8 <? bitmapSize); b ← index d (bm + i / 8); Ok (Z_of_byte b).
Definition mask (i : Z) : Z := u8 (Z.shiftl 1 (i mod 8)).
Definition put_map_byte (bm i z : Z) (d : list byte) : list byte := zput (bm + i / 8) [byte_of_Z z] d.

Definition IsOccupied (i : Z) (d : list byte) : res bool :=
  b ← map_byte occuppied i d; Ok (negb (Z.land b (mask i) =? 0)).
Definition IsReadable (i : Z) (d : list byte) : res bool :=
  b ← map_byte readable i d; Ok (negb (Z.land b (mask i) =? 0)).

Definition block_Insert (i key value : Z) (d : list byte) : res (bool * list byte) :=
  occ ← IsOccupied i d;
  if occ : bool then Ok (false, d)
  else
    _ ← guard_res (i <? BlockArraySize);
    let d1 := zput (pair_at i + 4) (le_bytes 4 value) (zput (pair_at i) (le_bytes 4 key) d) in
    b ← map_byte occuppied i d1;
    let d2 := put_map_byte occuppied i (Z.lor b (mask i)) d1 in
    r ← map_byte readable i d2;
    Ok (true, put_map_byte readable i (Z.lor r (mask i)) d2).

Definition block_Remove (i : Z) (d : list byte) : res (list byte) :=
  r ← IsReadable i d;
  if r : bool then
    b ← map_byte readable i d;
    Ok (put_map_byte readable i (Z.land b (u8 (Z.lnot (mask i)))) d)
  else Ok d.

(** ** Header pages *)
Definition off_pageId : Z := 0.
Definition off_lsn : Z := 8.
Definition off_nextIndex : Z := 16.
Definition off_size : Z := 24.
Definition off_blockPageIds : Z := 32.

(** The array has 1020 entries, the page room for 1016: what lies beyond it is
    memory of somebody else, which the model does not have. *)
Definition id_at (i : Z) : res Z :=
  _ ← guard_res (i <? 1020);
  let o := off_blockPageIds + 4 * i in
  _ ← guard_res (o + 4 <=? PageSize); Ok o.

Definition NumBlocks (d : list byte) : Z := zfield off_nextIndex d.
Definition GetBlockPageId (i : Z) (d : list byte) : res Z := o ← id_at i; Ok (i32 (zfield o d)).
Definition AddBlockPageId (pid : Z) (d : list byte) : res (list byte) :=
  o ← id_at (NumBlocks d);
  let d1 := zput o (le_bytes 4 (u32 pid)) d in
  Ok (zput off_nextIndex (le_bytes 4 (u32 (NumBlocks d1 + 1))) d1).
Definition header_GetPageId (d : list byte) : Z := i32 (zfield off_pageId d).
Definition header_SetPageId (pid : Z) (d : list byte) : list byte := zput off_pageId (le_bytes 4 (u32 pid)) d.
Definition header_SetSize (size : Z) (d : list byte) : list byte := zput off_size (le_bytes 8 size) d.

(** ** The cells of a block *)
Record cell : Type := MkCell { cocc : bool; crd : bool; ckey : Z; cval : Z }.

Definition map_bit (bm i : Z) (d : list byte) : bool :=
  Z.testbit (default 0 (Z_of_byte <$> d !! Z.to_nat (bm + i / 8))) (i mod 8).
Definition cell_at (d : list byte) (i : Z) : cell :=
  MkCell (map_bit occuppied i d) (map_bit readable i d) (zfield (pair_at i) d) (zfield (pair_at i + 4) d).
Definition block_cells (d : list byte) : list cell := cell_at d <$> seqZ 0 BlockArraySize.

Ltac hconsts := unfold pair_at, array, readable, occuppied, bitmapSize, BlockArraySize, sizeOfHashTablePair,
  off_pageId, off_lsn, off_nextIndex, off_size, off_blockPageIds, PageSize in *.
Ltac hlia := hconsts; change (4 * 4096 / (4 * 16 + 1)) with 252 in *; change ((252 - 1) / 8 + 1) with 32 in *; lia.

Lemma mask_pow i : mask i = 2 ^ (i mod 8).
Proof.
  unfold mask, u8. rewrite Z.shiftl_1_l. apply Z.mod_small. pose proof (Z.mod_pos_bound i 8).
  split; [lia|]. apply Z.pow_lt_mono_r; lia.
Qed.

Lemma bit_mask b i : negb (Z.land b (mask i) =? 0) = Z.testbit b (i mod 8).
Proof.
  rewrite mask_pow. pose proof (Z.mod_pos_bound i 8 eq_refl) as Hm. set (k := i mod 8) in *.
  destruct (Z.eqb_spec (Z.land b (2 ^ k)) 0) as [E|E]; cbn [negb].
  - assert (HB : Z.testbit (Z.land b (2 ^ k)) k = false) by (rewrite E; apply Z.bits_0).
    rewrite Z.land_spec, Z.pow2_bits_true, andb_true_r in HB by lia. done.
  - destruct (Z.testbit b k) eqn:HB; [done|]. exfalso. apply E. apply Z.bits_inj'. intros j Hj.
    rewrite Z.land_spec, Z.bits_0. destruct (decide (j = k)) as [->|Hne]; [by rewrite HB|].
    by rewrite Z.pow2_bits_false, andb_false_r.
Qed.

Lemma div8_range i : 0 ≤ i < BlockArraySize → 0 ≤ i / 8 < 32.
Proof. intros Hi. split; [apply Z.div_pos; lia|apply Z.div_lt_upper_bound; hlia]. Qed.

Section block.
Variable d : list byte.
Hypothesis HL : zlen d = PageSize.

Lemma map_byte_run bm i :
  0 ≤ bm ≤ readable → 0 ≤ i < BlockArraySize →
  ∃ b, d !! Z.to_nat (bm + i / 8) = Some b ∧ map_byte bm i d = Ok (Z_of_byte b).
Proof.
  intros Hb Hi. pose proof (div8_range i Hi) as H8.
  assert (HLt : (Z.to_nat (bm + i / 8) < length d)%nat) by (unfold zlen in HL; hlia).
  apply lookup_lt_is_Some in HLt as [b Hb']. exists b. split; [done|]. unfold map_byte.
  rewrite (proj2 (Z.ltb_lt _ _)) by hlia. cbn [guard_res]. mred. rewrite (index_Ok _ _ b) by (done || lia). done.
Qed.

Lemma map_bit_run bm i : 0 ≤ bm ≤ readable → 0 ≤ i < BlockArraySize →
  (b ← map_byte bm i d; Ok (negb (Z.land b (mask i) =? 0))) = Ok (map_bit bm i d).
Proof.
  intros Hb Hi. destruct (map_byte_run bm i Hb Hi) as (b & E & ->). mred. unfold map_bit. rewrite E. cbn.
  by rewrite bit_mask.
Qed.

Lemma IsOccupied_run i : 0 ≤ i < BlockArraySize → IsOccupied i d = Ok (cocc (cell_at d i)).
Proof. intros Hi. apply map_bit_run; [hlia|done]. Qed.
Lemma IsReadable_run i : 0 ≤ i < BlockArraySize → IsReadable i d = Ok (crd (cell_at d i)).
Proof. intros Hi. apply map_bit_run; [hlia|done]. Qed.
Lemma KeyAt_run i : 0 ≤ i < BlockArraySize → KeyAt i d = Ok (ckey (cell_at d i)).
Proof using HL. intros Hi. unfold KeyAt. by rewrite (proj2 (Z.ltb_lt _ _)) by lia. Qed.
Lemma ValueAt_run i : 0 ≤ i < BlockArraySize → ValueAt i d = Ok (cval (cell_at d i)).
Proof using HL. intros Hi. unfold ValueAt. by rewrite (proj2 (Z.ltb_lt _ _)) by lia. Qed.
End block.

(** Writing the byte of one index. *)
Lemma map_bit_put bm bm' i j z d :
  zlen d = PageSize → 0 ≤ bm ≤ readable → 0 ≤ bm' ≤ readable → 0 ≤ i < BlockArraySize → 0 ≤ j < BlockArraySize →
  (bm = bm' ∨ bm + 32 ≤ bm' ∨ bm' + 32 ≤ bm) →
  map_bit bm' j (put_map_byte bm i z d) =
    if decide (bm' = bm ∧ j / 8 = i / 8) then Z.testbit z (j mod 8) else map_bit bm' j d.
Proof.
  intros HL Hb Hb' Hi Hj Hd. unfold map_bit, put_map_byte, zput.
  pose proof (div8_range i Hi) as Hi8.
  pose proof (div8_range j Hj) as Hj8.
  pose proof (Z.mod_pos_bound j 8 eq_refl) as Hm.
  rewrite lookup_overwrite by (unfold zlen in HL; cbn [length]; hlia). cbn [length].
  destruct (decide (bm' = bm ∧ j / 8 = i / 8)) as [[-> E]|Hn].
  - rewrite E. rewrite decide_True by lia. rewrite Nat.sub_diag. cbn.
    rewrite Z_of_byte_of_Z. change 256 with (2 ^ 8). by rewrite Z.mod_pow2_bits_low by lia.
  - rewrite decide_False; [done|]. intros [H1 H2]. apply Hn. hlia.
Qed.

Lemma put_map_byte_len bm i z d :
  zlen d = PageSize → 0 ≤ bm ≤ readable → 0 ≤ i < BlockArraySize → zlen (put_map_byte bm i z d) = PageSize.
Proof.
  intros HL Hb Hi. pose proof (div8_range i Hi) as Hi8.
  unfold put_map_byte. rewrite zput_len; [done|hlia|]. change (zlen [byte_of_Z z]) with 1. hlia.
Qed.

Lemma zfield_put_map bm i z d o :
  zlen d = PageSize → 0 ≤ bm ≤ readable → 0 ≤ i < BlockArraySize → array ≤ o → o + 4 ≤ PageSize →
  zfield o (put_map_byte bm i z d) = zfield o d.
Proof.
  intros HL Hb Hi Ho Ho'.
  pose proof (div8_range i Hi) as Hi8.
  unfold put_map_byte. apply zfield_put_ne; change (zlen [byte_of_Z z]) with 1; hlia.
Qed.

(** Setting and clearing one bit. *)
Lemma bit_put bm bm' i j z d :
  zlen d = PageSize → bm = occuppied ∨ bm = readable → bm' = occuppied ∨ bm' = readable →
  0 ≤ i < BlockArraySize → 0 ≤ j < BlockArraySize →
  (∀ k, k ≠ i mod 8 → 0 ≤ k < 8 → Z.testbit z k = Z.testbit (default 0 (Z_of_byte <$> d !! Z.to_nat (bm + i / 8))) k) →
  map_bit bm' j (put_map_byte bm i z d) =
    if decide (bm' = bm ∧ j = i) then Z.testbit z (i mod 8) else map_bit bm' j d.
Proof.
  intros HL Hb Hb' Hi Hj HZ. pose proof (Z.mod_pos_bound j 8 eq_refl) as Hm.
  rewrite map_bit_put; [|done|destruct Hb as [->| ->]; hlia|destruct Hb' as [->| ->]; hlia|done..
    |destruct Hb as [->| ->], Hb' as [->| ->]; hlia].
  destruct (decide (bm' = bm ∧ j = i)) as [[-> ->]|Hn]; [by rewrite decide_True|].
  destruct (decide (bm' = bm ∧ j / 8 = i / 8)) as [[-> E]|]; [|done].
  rewrite HZ; [unfold map_bit; by rewrite E| |done]. intros E'. apply Hn. split; [done|].
  rewrite (Z.div_mod j 8), (Z.div_mod i 8) by lia. congruence.
Qed.

Lemma testbit_set b i k : 0 ≤ i → 0 ≤ k → Z.testbit (Z.lor b (mask i)) k = Z.testbit b k || (k =? i mod 8).
Proof.
  intros Hi Hk. pose proof (Z.mod_pos_bound i 8 eq_refl). rewrite mask_pow, Z.lor_spec. f_equal.
  rewrite Z.pow2_bits_eqb by lia. apply Z.eqb_sym.
Qed.
Lemma testbit_clear b i k : 0 ≤ i → 0 ≤ k < 8 →
  Z.testbit (Z.land b (u8 (Z.lnot (mask i)))) k = Z.testbit b k && negb (k =? i mod 8).
Proof.
  intros Hi Hk. pose proof (Z.mod_pos_bound i 8 eq_refl). rewrite Z.land_spec. f_equal.
  unfold u8. rewrite Z.mod_pow2_bits_low, Z.lnot_spec by lia. f_equal.
  rewrite mask_pow, Z.pow2_bits_eqb by lia. apply Z.eqb_sym.
Qed.

(** What setting the bit of an index in a bitmap does to every index. *)
Lemma set_bit_run bm i d :
  zlen d = PageSize → bm = occuppied ∨ bm = readable → 0 ≤ i < BlockArraySize →
  ∃ b, map_byte bm i d = Ok b ∧ zlen (put_map_byte bm i (Z.lor b (mask i)) d) = PageSize ∧
    ∀ bm' j, bm' = occuppied ∨ bm' = readable → 0 ≤ j < BlockArraySize →
      map_bit bm' j (put_map_byte bm i (Z.lor b (mask i)) d) =
        if decide (bm' = bm ∧ j = i) then true else map_bit bm' j d.
Proof.
  intros HL Hb Hi. pose proof (Z.mod_pos_bound i 8 eq_refl) as Hm.
  assert (Hr : 0 ≤ bm ≤ readable) by (destruct Hb as [->| ->]; hlia).
  destruct (map_byte_run d HL bm i Hr Hi) as (b & E & E1).
  exists (Z_of_byte b). split; [done|]. split; [by apply put_map_byte_len|]. intros bm' j Hb' Hj.
  rewrite bit_put; [|done..|].
  - case_decide; [|done]. rewrite testbit_set by lia. by rewrite Z.eqb_refl, orb_true_r.
  - intros k Hk Hk8. rewrite E. cbn. rewrite testbit_set by lia. apply Z.eqb_neq in Hk. by rewrite Hk, orb_false_r.
Qed.

Lemma clear_bit_run bm i d :
  zlen d = PageSize → bm = occuppied ∨ bm = readable → 0 ≤ i < BlockArraySize →
  ∃ b, map_byte bm i d = Ok b ∧ zlen (put_map_byte bm i (Z.land b (u8 (Z.lnot (mask i)))) d) = PageSize ∧
    ∀ bm' j, bm' = occuppied ∨ bm' = readable → 0 ≤ j < BlockArraySize →
      map_bit bm' j (put_map_byte bm i (Z.land b (u8 (Z.lnot (mask i)))) d) =
        if decide (bm' = bm ∧ j = i) then false else map_bit bm' j d.
Proof.
  intros HL Hb Hi. pose proof (Z.mod_pos_bound i 8 eq_refl) as Hm.
  assert (Hr : 0 ≤ bm ≤ readable) by (destruct Hb as [->| ->]; hlia).
  destruct (map_byte_run d HL bm i Hr Hi) as (b & E & E1).
  exists (Z_of_byte b). split; [done|]. split; [by apply put_map_byte_len|]. intros bm' j Hb' Hj.
  rewrite bit_put; [|done..|].
  - case_decide; [|done]. rewrite testbit_clear by lia. by rewrite Z.eqb_refl, andb_false_r.
  - intros k Hk Hk8. rewrite E. cbn. rewrite testbit_clear by lia. apply Z.eqb_neq in Hk. by rewrite Hk, andb_true_r.
Qed.

(** ** The operations on the cells *)
Lemma cells_lookup d (i : Z) : 0 ≤ i < BlockArraySize → block_cells d !! Z.to_nat i = Some (cell_at d i).
Proof.
  intros Hi. unfold block_cells. rewrite list_lookup_fmap, lookup_seqZ_lt by lia. cbn. f_equal. f_equal. lia.
Qed.
Lemma length_cells d : length (block_cells d) = Z.to_nat BlockArraySize.
Proof. unfold block_cells. by rewrite length_fmap, length_seqZ. Qed.

Lemma cells_ext d d' (i : Z) c :
  0 ≤ i < BlockArraySize → cell_at d' i = c →
  (∀ j, 0 ≤ j < BlockArraySize → j ≠ i → cell_at d' j = cell_at d j) →
  block_cells d' = <[Z.to_nat i := c]> (block_cells d).
Proof.
  intros Hi Hc Ho. apply list_eq. intros k. destruct (decide (k < Z.to_nat BlockArraySize)%nat) as [Hk|Hk].
  - destruct (decide (k = Z.to_nat i)) as [->|Hne].
    + rewrite list_lookup_insert_eq by (rewrite length_cells; lia). by rewrite cells_lookup, Hc.
    + rewrite list_lookup_insert_ne by done. replace k with (Z.to_nat (Z.of_nat k)) by lia.
      rewrite !cells_lookup by lia. f_equal. apply Ho; lia.
  - rewrite !lookup_ge_None_2; [done|rewrite length_insert, length_cells; lia|rewrite length_cells; lia].
Qed.

Lemma block_Insert_taken i k v d :
  zlen d = PageSize → 0 ≤ i < BlockArraySize → cocc (cell_at d i) = true → block_Insert i k v d = Ok (false, d).
Proof. intros HL Hi HO. unfold block_Insert. rewrite IsOccupied_run by done. mred. by rewrite HO. Qed.

Lemma block_Insert_run i k v d :
  zlen d = PageSize → 0 ≤ i < BlockArraySize → cocc (cell_at d i) = false → in_u32 k → in_u32 v →
  ∃ d', block_Insert i k v d = Ok (true, d') ∧ zlen d' = PageSize ∧
    block_cells d' = <[Z.to_nat i := MkCell true true k v]> (block_cells d).
Proof.
  intros HL Hi HO Hk Hv. unfold block_Insert. rewrite IsOccupied_run, HO by done. mred.
  rewrite (proj2 (Z.ltb_lt _ _)) by lia. cbn [guard_res]. mred.
  set (d0 := zput (pair_at i) (le_bytes 4 k) d). set (d1 := zput (pair_at i + 4) (le_bytes 4 v) d0).
  assert (Hz : ∀ z, zlen (le_bytes 4 z) = 4) by done.
  assert (L0 : zlen d0 = PageSize) by (unfold d0; rewrite zput_len; rewrite ?Hz; hlia).
  assert (L1 : zlen d1 = PageSize) by (unfold d1; rewrite zput_len; rewrite ?Hz; hlia).
  destruct (set_bit_run occuppied i d1 L1 (or_introl eq_refl) Hi) as (b & -> & L2 & M2). mred.
  set (d2 := put_map_byte occuppied i _ d1) in *.
  destruct (set_bit_run readable i d2 L2 (or_intror eq_refl) Hi) as (r & -> & L3 & M3). mred.
  set (d3 := put_map_byte readable i _ d2) in *. exists d3. split; [done|]. split; [done|].
  assert (HF : ∀ o, array ≤ o → o + 4 ≤ PageSize → zfield o d3 = zfield o d1).
  { intros o Ho Ho'. unfold d3. rewrite zfield_put_map by (done || hlia). unfold d2. by rewrite zfield_put_map by (done || hlia). }
  assert (HB : ∀ bm j, bm = occuppied ∨ bm = readable → 0 ≤ j < BlockArraySize → map_bit bm j d1 = map_bit bm j d).
  { intros bm j Hbm Hj. pose proof (div8_range j Hj). unfold map_bit, d1, d0, zput. do 2 f_equal.
    rewrite !lookup_overwrite by (rewrite ?length_overwrite; rewrite ?length_le_bytes; unfold zlen in HL; destruct Hbm as [->| ->]; hlia).
    rewrite !length_le_bytes, !decide_False by (destruct Hbm as [->| ->]; hlia). done. }
  assert (HNe : occuppied ≠ readable) by done.
  apply cells_ext; [done| |].
  - unfold cell_at. f_equal.
    + by rewrite M3, decide_False, M2, decide_True by (tauto || naive_solver).
    + by rewrite M3, decide_True by tauto.
    + rewrite HF by hlia. unfold d1. rewrite zfield_put_ne by (rewrite ?Hz; hlia). unfold d0. rewrite zfield_put by hlia. by apply u32_small.
    + rewrite HF by hlia. unfold d1. rewrite zfield_put by hlia. by apply u32_small.
  - intros j Hj Hne. unfold cell_at. f_equal.
    + rewrite M3, decide_False, M2, decide_False by (tauto || naive_solver). apply HB; tauto.
    + rewrite M3, decide_False, M2, decide_False by (tauto || naive_solver). apply HB; tauto.
    + rewrite HF by hlia. unfold d1, d0. by rewrite !zfield_put_ne by (rewrite ?zput_len; rewrite ?Hz; hlia).
    + rewrite HF by hlia. unfold d1, d0. by rewrite !zfield_put_ne by (rewrite ?zput_len; rewrite ?Hz; hlia).
Qed.

Definition unread (c : cell) : cell := MkCell (cocc c) false (ckey c) (cval c).

Lemma block_Remove_run i d :
  zlen d = PageSize → 0 ≤ i < BlockArraySize →
  ∃ d', block_Remove i d = Ok d' ∧ zlen d' = PageSize ∧
    block_cells d' = <[Z.to_nat i := unread (cell_at d i)]> (block_cells d).
Proof.
  intros HL Hi. unfold block_Remove. rewrite IsReadable_run by done. mred.
  destruct (crd (cell_at d i)) eqn:HR.
  - destruct (clear_bit_run readable i d HL (or_intror eq_refl) Hi) as (b & -> & L1 & M1). mred.
    set (d1 := put_map_byte readable i _ d) in *. exists d1. split; [done|]. split; [done|].
    assert (HNe : occuppied ≠ readable) by done.
    apply cells_ext; [done| |].
    + unfold cell_at, unread. cbn. f_equal.
      * by rewrite M1, decide_False by (tauto || naive_solver).
      * by rewrite M1, decide_True by tauto.
      * apply zfield_put_map; (done || hlia).
      * apply zfield_put_map; (done || hlia).
    + intros j Hj Hne. unfold cell_at. f_equal.
      * by rewrite M1, decide_False by (tauto || naive_solver).
      * by rewrite M1, decide_False by (tauto || naive_solver).
      * apply zfield_put_map; (done || hlia).
      * apply zfield_put_map; (done || hlia).
  - exists d. split; [done|]. split; [done|]. symmetry. apply list_insert_id. rewrite cells_lookup by done.
    f_equal. unfold unread. rewrite <- HR. by destruct (cell_at d i).
Qed.

(** ** The header *)
Record header_is (d : list byte) (hid : Z) (ids : list Z) : Prop := {
  hd_len : zlen d = PageSize;
  hd_id : header_GetPageId d = hid;
  hd_num : NumBlocks d = Z.of_nat (length ids);
  hd_ids : ∀ i pid, ids !! i = Some pid → GetBlockPageId (Z.of_nat i) d = Ok pid;
  hd_room : (length ids ≤ 1016)%nat
}.

Lemma id_at_run i : 0 ≤ i < 1016 → id_at i = Ok (32 + 4 * i).
Proof.
  intros Hi. unfold id_at. rewrite (proj2 (Z.ltb_lt _ _)) by lia. cbn [guard_res]. mred.
  by rewrite (proj2 (Z.leb_le _ _)) by hlia.
Qed.

Lemma AddBlockPageId_run pid d hid ids :
  header_is d hid ids → (length ids < 1016)%nat → in_i32 pid →
  ∃ d', AddBlockPageId pid d = Ok d' ∧ header_is d' hid (ids ++ [pid]).
Proof.
  intros [HL HI HN HD HR] Hl Hp. unfold AddBlockPageId. rewrite HN, id_at_run by lia. mred.
  set (o := 32 + 4 * Z.of_nat (length ids)). assert (Ho : 32 ≤ o ∧ o + 4 ≤ PageSize) by (unfold o; hlia).
  assert (Hz : ∀ z, zlen (le_bytes 4 z) = 4) by done.
  set (d1 := zput o _ d). assert (L1 : zlen d1 = PageSize) by (unfold d1; rewrite zput_len; rewrite ?Hz; hlia).
  assert (N1 : NumBlocks d1 = Z.of_nat (length ids)).
  { unfold NumBlocks, d1. rewrite zfield_put_ne by (rewrite ?Hz; hlia). exact HN. }
  eexists. split; [reflexivity|]. set (d2 := zput _ _ d1).
  assert (HF : ∀ p, 0 ≤ p → p + 4 ≤ PageSize → p + 4 ≤ off_nextIndex ∨ off_nextIndex + 4 ≤ p → p ≠ o → p + 4 ≤ o ∨ o + 4 ≤ p →
    zfield p d2 = zfield p d).
  { intros p H0 H1 H2 H3 H4. unfold d2, d1. by rewrite !zfield_put_ne by (rewrite ?zput_len; rewrite ?Hz; hlia). }
  split.
  - unfold d2. rewrite zput_len; rewrite ?Hz; hlia.
  - unfold header_GetPageId. rewrite HF by hlia. exact HI.
  - unfold NumBlocks, d2. rewrite zfield_put by hlia. rewrite N1, length_app. cbn.
    rewrite !u32_small by (rewrite ?u32_small; unfold in_u32; lia). lia.
  - intros i q Hi. unfold GetBlockPageId. assert (Hlt : (i < length (ids ++ [pid]))%nat) by (by eapply lookup_lt_Some).
    rewrite length_app in Hlt. cbn in Hlt. rewrite id_at_run by lia. mred.
    apply lookup_app_Some in Hi as [Hi|[Hge Hi]].
    + pose proof (lookup_lt_Some _ _ _ Hi). pose proof (HD i q Hi) as HG. unfold GetBlockPageId in HG.
      rewrite id_at_run in HG by lia. cbn in HG. rewrite HF by (unfold o; hlia). exact HG.
    + assert (i = length ids) as -> by lia. rewrite Nat.sub_diag in Hi. injection Hi as ->.
      fold o. unfold d2. rewrite zfield_put_ne by (rewrite ?Hz; hlia). unfold d1. rewrite zfield_put by hlia.
      unfold u32. rewrite Zmod_mod. fold (u32 q). by rewrite i32_u32, i32_small.
  - rewrite length_app. cbn. lia.
Qed.

Lemma header_init hid size :
  in_i32 hid → header_is (header_SetSize size (header_SetPageId hid (zeros (Z.to_nat PageSize)))) hid [].
Proof.
  intros Hh. set (z := zeros (Z.to_nat PageSize)). assert (L0 : zlen z = PageSize) by (vm_compute; reflexivity).
  assert (N0 : zfield off_nextIndex z = 0) by (vm_compute; reflexivity).
  assert (L1 : zlen (header_SetPageId hid z) = PageSize)
    by (unfold header_SetPageId; rewrite zput_len; change (zlen (le_bytes 4 (u32 hid))) with 4; hlia).
  assert (H8 : zlen (le_bytes 8 size) = 8) by done.
  assert (H4 : zlen (le_bytes 4 (u32 hid)) = 4) by done.
  split.
  - unfold header_SetSize. rewrite zput_len; rewrite ?H8; hlia.
  - unfold header_GetPageId, header_SetSize. rewrite zfield_put_ne by (rewrite ?H8; hlia).
    unfold header_SetPageId. rewrite zfield_put by hlia. unfold u32. rewrite Zmod_mod. fold (u32 hid). by rewrite i32_u32, i32_small.
  - unfold NumBlocks, header_SetSize. rewrite zfield_put_ne by (rewrite ?H8; hlia).
    unfold header_SetPageId. rewrite zfield_put_ne by (rewrite ?H4; hlia). exact N0.
  - done.
  - cbn. lia.
Qed.

Lemma zero_cells : Forall (λ c, cocc c = false ∧ crd c = false) (block_cells (zeros (Z.to_nat PageSize))).
Proof.
  apply (bool_decide_unpack _). vm_compute. exact I.
Qed.
