(* ===== verification/Probe.v ===== *)
(** * Linear probing

    A hash table as a ring of cells, before pages come in: a key's probe sequence
    is the ring from the key's first cell on.  The operations of [HashTable] look at
    a probe sequence up to its first cell that was never taken; this file says what
    they find and do there, and that under the invariant of the table it is what a
    multimap does. *)

From S2P Require Import Prelude Bytes HashPage.

(** ** The ring *)
Definition rot {A : Type} (p : nat) (l : list A) : list A := drop p l ++ take p l.

Lemma rot_length {A} p (l : list A) : length (rot p l) = length l.
Proof. unfold rot. rewrite length_app, length_drop, length_take. lia. Qed.
Lemma rot_perm {A} p (l : list A) : rot p l ≡ₚ l.
Proof. unfold rot. rewrite Permutation_app_comm, take_drop. done. Qed.

Lemma ring_mod p i N : (p < N)%nat → (i < N)%nat →
  ((p + i) mod N = if decide (p + i < N) then p + i else p + i - N)%nat.
Proof.
  intros Hp Hi. case_decide; [by apply Nat.mod_small|].
  symmetry. apply (Nat.mod_unique (p + i) N 1); lia.
Qed.
Lemma ring_lt p i N : (0 < N)%nat → ((p + i) mod N < N)%nat.
Proof. intros HN. apply Nat.mod_upper_bound. lia. Qed.

Lemma rot_lookup {A} p i (l : list A) : (p < length l)%nat → (i < length l)%nat →
  rot p l !! i = l !! ((p + i) mod length l)%nat.
Proof.
  intros Hp Hi. unfold rot. rewrite ring_mod by done. case_decide.
  - rewrite lookup_app_l by (rewrite length_drop; lia). by rewrite lookup_drop.
  - rewrite lookup_app_r by (rewrite length_drop; lia). rewrite length_drop, lookup_take_lt by lia. f_equal. lia.
Qed.

Lemma ring_inj p i j N : (p < N)%nat → (i < N)%nat → (j < N)%nat → ((p + i) mod N = (p + j) mod N)%nat → i = j.
Proof. intros Hp Hi Hj. rewrite !ring_mod by done. repeat case_decide; lia. Qed.

Lemma rot_insert {A} p i x (l : list A) : (p < length l)%nat → (i < length l)%nat →
  rot p (<[((p + i) mod length l)%nat := x]> l) = <[i := x]> (rot p l).
Proof.
  intros Hp Hi. apply list_eq. intros j. destruct (decide (j < length l)%nat) as [Hj|Hj].
  - pose proof (ring_lt p i (length l) ltac:(lia)) as Hq.
    rewrite rot_lookup by (rewrite length_insert; lia). rewrite length_insert.
    destruct (decide (j = i)) as [->|Hne].
    + rewrite !list_lookup_insert_eq by (rewrite ?rot_length; lia). done.
    + rewrite !list_lookup_insert_ne; [by rewrite rot_lookup|done|intros E; apply Hne; symmetry; by apply (ring_inj p _ _ (length l))].
  - rewrite !lookup_ge_None_2; [done|rewrite length_insert, rot_length; lia|rewrite rot_length, length_insert; lia].
Qed.

(** ** Probe sequences *)

(** The cells up to the first that was never taken. *)
Fixpoint taken (cs : list cell) : list cell :=
  match cs with c :: cs' => if cocc c then c :: taken cs' else [] | [] => [] end.
Definition matches (k : Z) (c : cell) : bool := crd c && (ckey c =? k).
Definition values_in (k : Z) (cs : list cell) : list Z := cval <$> List.filter (matches k) (taken cs).

(** Where an insert of [v] stops: at a taken cell with this value, whatever its key
    and whether it was removed or not, at a free cell, or nowhere. *)
Inductive stop : Type := Duplicate | Free (i : nat) | Full.
Definition further (s : stop) : stop := match s with Free i => Free (S i) | _ => s end.
Fixpoint probe (v : Z) (cs : list cell) : stop :=
  match cs with
  | [] => Full
  | c :: cs' => if cocc c && (cval c =? v) then Duplicate else if negb (cocc c) then Free 0 else further (probe v cs')
  end.

Definition is_entry (k v : Z) (c : cell) : bool := (ckey c =? k) && (cval c =? v).
Fixpoint removed (k v : Z) (cs : list cell) : list cell :=
  match cs with
  | c :: cs' => if cocc c then (if is_entry k v c then unread c else c) :: removed k v cs' else cs
  | [] => []
  end.

Lemma length_removed k v cs : length (removed k v cs) = length cs.
Proof. induction cs as [|c cs IH]; [done|]. cbn. destruct (cocc c); cbn; [by rewrite IH|done]. Qed.

(** ** The multimap *)
Definition entry_of (c : cell) : option (Z * Z) := if crd c then Some (ckey c, cval c) else None.
Definition entries (cs : list cell) : list (Z * Z) := omap entry_of cs.

(** A readable cell is taken, and so is every cell before it in the probe sequence
    of its key. *)
Record table_ok (start : Z → nat) (cs : list cell) : Prop := {
  ok_start : ∀ k, (start k < length cs)%nat;
  ok_taken : Forall (λ c, crd c = true → cocc c = true) cs;
  ok_probe : ∀ k i c, rot (start k) cs !! i = Some c → crd c = true → ckey c = k →
    ∀ j c', (j < i)%nat → rot (start k) cs !! j = Some c' → cocc c' = true
}.

Lemma taken_all cs : Forall (λ c, cocc c = true) cs → taken cs = cs.
Proof. induction 1 as [|c cs Hc _ IH]; [done|]. cbn. by rewrite Hc, IH. Qed.

(** Up to a cell that is beyond only taken cells. *)
Lemma matching_taken (f : cell → bool) cs :
  (∀ i c, cs !! i = Some c → f c = true → ∀ j c', (j ≤ i)%nat → cs !! j = Some c' → cocc c' = true) →
  List.filter f (taken cs) = List.filter f cs.
Proof.
  induction cs as [|c cs IH]; intros HF; [done|]. cbn [taken]. destruct (cocc c) eqn:Hc.
  - cbn [List.filter]. rewrite IH; [done|]. intros i c1 Hi Hf j c2 Hj Hj2. by eapply (HF (S i) c1 Hi Hf (S j)); [lia|].
  - assert (HN : ∀ c', c' ∈ c :: cs → f c' = false).
    { intros c' [i Hi]%list_elem_of_lookup. destruct (f c') eqn:Hf; [|done].
      specialize (HF i c' Hi Hf 0%nat c ltac:(lia) eq_refl). congruence. }
    symmetry. assert (HG : ∀ l, (∀ c', c' ∈ l → f c' = false) → List.filter f l = []).
    { clear. induction l as [|x l IH]; intros HL; [done|]. cbn. rewrite HL by left. apply IH. intros c' Hin. apply HL. by right. }
    by apply HG.
Qed.

Lemma probe_prefix start cs k : table_ok start cs →
  ∀ i c, rot (start k) cs !! i = Some c → matches k c = true →
  ∀ j c', (j ≤ i)%nat → rot (start k) cs !! j = Some c' → cocc c' = true.
Proof.
  intros [HS HT HP] i c Hi [Hr Hk]%andb_true_iff j c' Hj Hj'. apply Z.eqb_eq in Hk.
  destruct (decide (j = i)) as [->|Hne].
  - assert (c' = c) as -> by congruence. rewrite Forall_forall in HT. apply HT; [|done].
    rewrite <- (rot_perm (start k)). by eapply list_elem_of_lookup_2.
  - by eapply (HP k i c Hi Hr Hk j); [lia|].
Qed.

Lemma entries_perm cs cs' : cs ≡ₚ cs' → entries cs ≡ₚ entries cs'.
Proof. intros HP. unfold entries. by rewrite HP. Qed.

Lemma filter_bool_perm {A} (f : A → bool) l l' : l ≡ₚ l' → List.filter f l ≡ₚ List.filter f l'.
Proof.
  induction 1 as [|x l1 l2 _ IH|x y l|l1 l2 l3 _ IH1 _ IH2]; cbn [List.filter]; [done| | |by etrans].
  - destruct (f x); [by constructor|done].
  - destruct (f x), (f y); try done. by constructor.
Qed.

Lemma values_entries k cs : cval <$> List.filter (matches k) cs = snd <$> List.filter (λ e, fst e =? k) (entries cs).
Proof.
  induction cs as [|c cs IH]; [done|]. cbn [List.filter]. unfold entries, matches, entry_of. cbn [omap list_omap].
  destruct (crd c); cbn [andb]; [|exact IH]. cbn [List.filter fst]. destruct (ckey c =? k); [|exact IH].
  rewrite !fmap_cons. cbn [snd]. f_equal. exact IH.
Qed.

(** Looking a key up finds the values of its entries, each as often as it has one. *)
Lemma values_found start cs k : table_ok start cs →
  values_in k (rot (start k) cs) ≡ₚ snd <$> List.filter (λ e, fst e =? k) (entries cs).
Proof.
  intros HO. unfold values_in. rewrite matching_taken by by apply probe_prefix.
  rewrite values_entries. apply Permutation_map.
  assert (HP : entries (rot (start k) cs) ≡ₚ entries cs) by apply entries_perm, rot_perm.
  by apply filter_bool_perm.
Qed.

Lemma entries_cons c cs : entries (c :: cs) = if crd c then (ckey c, cval c) :: entries cs else entries cs.
Proof. unfold entries, entry_of. cbn. by destruct (crd c). Qed.

(** *** Inserting *)
Lemma probe_free v cs j : probe v cs = Free j →
  (∃ c, cs !! j = Some c ∧ cocc c = false) ∧ ∀ i c, (i < j)%nat → cs !! i = Some c → cocc c = true ∧ cval c ≠ v.
Proof.
  revert j. induction cs as [|c cs IH]; intros j; cbn [probe]; [done|].
  destruct (cocc c) eqn:Hc; cbn [andb negb].
  - destruct (Z.eqb_spec (cval c) v) as [|Hv]; [done|]. destruct (probe v cs) as [|i|] eqn:E; try done.
    intros [= <-]. destruct (IH i eq_refl) as [HF HB]. split; [exact HF|]. intros [|i'] c' Hi Hi'; [by injection Hi' as <-|].
    by eapply (HB i'); [lia|].
  - intros [= <-]. split; [by exists c|]. intros i c' Hi. lia.
Qed.
Lemma probe_full v cs : probe v cs = Full → Forall (λ c, cocc c = true ∧ cval c ≠ v) cs.
Proof.
  induction cs as [|c cs IH]; cbn [probe]; [done|]. destruct (cocc c) eqn:Hc; cbn [andb negb]; [|done].
  destruct (Z.eqb_spec (cval c) v) as [|Hv]; [done|]. destruct (probe v cs); try done. intros _. by constructor; [|apply IH].
Qed.
Lemma probe_duplicate v cs : probe v cs = Duplicate →
  ∃ c, c ∈ cs ∧ cocc c = true ∧ cval c = v.
Proof.
  induction cs as [|c cs IH]; cbn [probe]; [done|]. destruct (cocc c) eqn:Hc; cbn [andb negb]; [|done].
  destruct (Z.eqb_spec (cval c) v) as [Hv|Hv]; [intros _; exists c; by split; [left|]|].
  destruct (probe v cs); try done. intros _. destruct (IH eq_refl) as (c' & Hin & H'). exists c'. by split; [right|].
Qed.

Lemma ring_onto p q N : (p < N)%nat → (q < N)%nat → ∃ i, (i < N)%nat ∧ ((p + i) mod N = q)%nat.
Proof.
  intros Hp Hq. destruct (decide (p ≤ q)%nat).
  - exists (q - p)%nat. split; [lia|]. rewrite ring_mod by lia. rewrite decide_True; lia.
  - exists (q + N - p)%nat. split; [lia|]. rewrite ring_mod by lia. rewrite decide_False; lia.
Qed.

Lemma entries_insert cs q c x : cs !! q = Some c → crd c = false → crd x = true →
  entries (<[q := x]> cs) ≡ₚ (ckey x, cval x) :: entries cs.
Proof.
  intros Hq Hc Hx. apply list_elem_of_split_length in Hq as (l1 & l2 & -> & ->).
  unfold entries. rewrite insert_app_r_alt, Nat.sub_diag by done. rewrite !omap_app.
  assert (Ex : entry_of x = Some (ckey x, cval x)) by (unfold entry_of; by rewrite Hx).
  assert (Ec : entry_of c = None) by (unfold entry_of; by rewrite Hc).
  cbn. rewrite Ex, Ec. by rewrite Permutation_middle.
Qed.

Lemma insert_ok start cs k v j :
  table_ok start cs → probe v (rot (start k) cs) = Free j →
  let cs' := <[((start k + j) mod length cs)%nat := MkCell true true k v]> cs in
  table_ok start cs' ∧ entries cs' ≡ₚ (k, v) :: entries cs.
Proof.
  intros HO HP cs'. destruct HO as [HS HT HB]. destruct (probe_free _ _ _ HP) as [(c & Hj & Hc) HPre].
  assert (HjL : (j < length cs)%nat) by (apply lookup_lt_Some in Hj; by rewrite rot_length in Hj).
  rewrite rot_lookup in Hj by done. set (q := ((start k + j) mod length cs)%nat) in *.
  assert (Hq : (q < length cs)%nat) by (apply ring_lt; lia).
  assert (Hrd : crd c = false).
  { rewrite Forall_forall in HT. destruct (crd c) eqn:E; [|done]. rewrite (HT c) in Hc; [done| |done]. by eapply list_elem_of_lookup_2. }
  split; [|by apply (entries_insert cs q c)].
  assert (HL : length cs' = length cs) by apply length_insert. split.
  - intros k'. by rewrite HL.
  - apply Forall_insert; done.
  - intros k' i x Hi Hx Hk' i' x' Hlt Hi'.
    assert (HiL : (i < length cs)%nat) by (apply lookup_lt_Some in Hi; by rewrite rot_length, HL in Hi).
    rewrite rot_lookup, HL in Hi by (rewrite HL; done). rewrite rot_lookup, HL in Hi' by (rewrite HL; (done || lia)).
    unfold cs' in Hi, Hi'. apply list_lookup_insert_Some in Hi as [(E & <- & _)|[Hne Hi]];
      apply list_lookup_insert_Some in Hi' as [(E' & <- & _)|[Hne' Hi']]; try done.
    + cbn in Hk'. subst k'. assert (i = j) as -> by (by apply (ring_inj (start k) _ _ (length cs))).
      eapply (HPre i'); [done|]. rewrite rot_lookup by (done || lia). done.
    + eapply (HB k' i x); [by rewrite rot_lookup|done|done|exact Hlt|]. by rewrite rot_lookup by (done || lia).
Qed.

(** *** Removing *)
Definition shrunk (c c' : cell) : Prop := c' = c ∨ c' = unread c.

Lemma removed_shrunk k v cs : Forall2 shrunk cs (removed k v cs).
Proof.
  induction cs as [|c cs IH]; [constructor|]. cbn. destruct (cocc c).
  - constructor; [|done]. destruct (is_entry k v c); [by right|by left].
  - clear. generalize (c :: cs). intros l. induction l; constructor; [by left|done].
Qed.

Lemma removed_entries k v cs :
  (∀ i c, cs !! i = Some c → matches k c = true → ∀ j c', (j ≤ i)%nat → cs !! j = Some c' → cocc c' = true) →
  entries (removed k v cs) = List.filter (λ e, negb ((fst e =? k) && (snd e =? v))) (entries cs).
Proof.
  induction cs as [|c cs IH]; intros HF; [done|]. cbn [removed]. destruct (cocc c) eqn:Hc.
  - assert (IH' : entries (removed k v cs) = List.filter (λ e, negb ((fst e =? k) && (snd e =? v))) (entries cs)).
    { apply IH. intros i c1 Hi Hf j c2 Hj Hj2. by eapply (HF (S i) c1 Hi Hf (S j)); [lia|]. }
    rewrite !entries_cons, IH'. unfold is_entry.
    destruct (crd c) eqn:Hr; destruct ((ckey c =? k) && (cval c =? v)) eqn:He; cbn [crd unread ckey cval];
      rewrite ?Hr; cbn [List.filter fst snd]; rewrite ?He; done.
  - symmetry. assert (HN : ∀ c', c' ∈ c :: cs → matches k c' = false).
    { intros c' [i Hi]%list_elem_of_lookup. destruct (matches k c') eqn:Hf; [|done].
      specialize (HF i c' Hi Hf 0%nat c ltac:(lia) eq_refl). congruence. }
    revert HN. generalize (c :: cs). clear. intros l HN. induction l as [|x l IH]; [done|].
    rewrite entries_cons. pose proof (HN x ltac:(by left)) as Hx. unfold matches in Hx. assert (IH' := IH ltac:(intros; apply HN; by right)).
    destruct (crd x); [|exact IH']. cbn [andb] in Hx. cbn [List.filter fst]. rewrite Hx. cbn [andb negb]. by f_equal.
Qed.

Lemma Forall2_rot {A} (R : A → A → Prop) p l l' :
  length l = length l' → (p < length l)%nat → Forall2 R (rot p l) (rot p l') → Forall2 R l l'.
Proof.
  intros HL Hp HF. apply Forall2_same_length_lookup_2; [done|]. intros q x y Hx Hy.
  pose proof (lookup_lt_Some _ _ _ Hx) as Hq. destruct (ring_onto p q (length l) Hp Hq) as (i & Hi & <-).
  rewrite <- rot_lookup in Hx by done. rewrite HL in Hy. rewrite <- rot_lookup in Hy by (rewrite <- ?HL; done).
  by eapply Forall2_lookup_lr.
Qed.

Lemma shrunk_ok start cs cs' : table_ok start cs → Forall2 shrunk cs cs' → table_ok start cs'.
Proof.
  intros [HS HT HB] HF. pose proof (Forall2_length _ _ _ HF) as HL. split.
  - intros k. by rewrite <- HL.
  - clear -HT HF. induction HF as [|c c' cs cs' [-> | ->] HF IH]; [done|..]; apply Forall_cons in HT as [H1 HT];
      (constructor; [|by apply IH]); [done|]. intros Hr. by destruct c.
  - intros k i x Hi Hx Hk j y Hj Hy.
    assert (HiL : (i < length cs)%nat) by (apply lookup_lt_Some in Hi; by rewrite rot_length, <- HL in Hi).
    rewrite rot_lookup, <- HL in Hi by (rewrite <- HL; done). rewrite rot_lookup, <- HL in Hy by (rewrite <- HL; (done || lia)).
    destruct (Forall2_lookup_r _ _ _ _ _ HF Hi) as (x0 & Hx0 & Hs). destruct (Forall2_lookup_r _ _ _ _ _ HF Hy) as (y0 & Hy0 & Ht).
    assert (cocc y = cocc y0) as -> by (by destruct Ht as [->| ->]).
    destruct Hs as [->| ->]; [|done]. eapply (HB k i x0); [by rewrite rot_lookup|done|done|exact Hj|].
    by rewrite rot_lookup by (done || lia).
Qed.

Lemma remove_ok start cs cs' k v :
  table_ok start cs → length cs' = length cs → rot (start k) cs' = removed k v (rot (start k) cs) →
  table_ok start cs' ∧ entries cs' ≡ₚ List.filter (λ e, negb ((fst e =? k) && (snd e =? v))) (entries cs).
Proof.
  intros HO HL HR. pose proof (ok_start _ _ HO k) as Hs. split.
  - eapply shrunk_ok; [exact HO|]. apply (Forall2_rot _ (start k)); [done|done|]. rewrite HR. apply removed_shrunk.
  - rewrite <- (entries_perm _ _ (rot_perm (start k) cs')), HR, removed_entries by by apply probe_prefix.
    assert (HP : entries (rot (start k) cs) ≡ₚ entries cs) by apply entries_perm, rot_perm.
    by apply filter_bool_perm.
Qed.

(** *** The values whose cells are taken: those of the entries and of the removed ones *)
Definition used (cs : list cell) : list Z := cval <$> List.filter cocc cs.

Lemma used_insert cs q c x : cs !! q = Some c → cocc c = false → cocc x = true →
  used (<[q := x]> cs) ≡ₚ cval x :: used cs.
Proof.
  intros Hq Hc Hx. apply list_elem_of_split_length in Hq as (l1 & l2 & -> & ->). unfold used.
  rewrite insert_app_r_alt, Nat.sub_diag by done. rewrite !List.filter_app. cbn. rewrite Hc, Hx.
  rewrite !fmap_app, fmap_cons. by rewrite Permutation_middle.
Qed.
Lemma used_shrunk cs cs' : Forall2 shrunk cs cs' → used cs' = used cs.
Proof. induction 1 as [|c c' cs cs' [->| ->] HF IH]; [done|..]; unfold used in *; cbn; destruct (cocc c); cbn; congruence. Qed.
Lemma used_le cs : (length (used cs) ≤ length cs)%nat.
Proof. unfold used. rewrite length_fmap. apply List.filter_length_le. Qed.
Lemma used_taken c cs : c ∈ cs → cocc c = true → cval c ∈ used cs.
Proof. intros Hin Hc. unfold used. apply list_elem_of_fmap. exists c. split; [done|]. apply list_elem_of_In, List.filter_In. split; [by apply list_elem_of_In|done]. Qed.
Lemma used_all cs : Forall (λ c, cocc c = true) cs → used cs = cval <$> cs.
Proof. intros HF. unfold used. induction HF as [|c cs Hc _ IH]; [done|]. cbn. rewrite Hc. cbn. by rewrite IH. Qed.

(** A table nobody has inserted into. *)
Definition blank (cs : list cell) : Prop := Forall (λ c, cocc c = false ∧ crd c = false) cs.
Lemma blank_ok start cs : blank cs → (∀ k, (start k < length cs)%nat) → table_ok start cs.
Proof.
  intros HB HS. unfold blank in HB. rewrite Forall_forall in HB. split; [done| |].
  - apply Forall_forall. intros c Hc. destruct (HB c Hc) as [_ ->]. done.
  - intros k i c Hi Hr. assert (Hin : c ∈ cs) by (rewrite <- (rot_perm (start k)); by eapply list_elem_of_lookup_2).
    destruct (HB c Hin). congruence.
Qed.
Lemma blank_entries cs : blank cs → entries cs = [].
Proof. induction 1 as [|c cs [Ho Hr] _ IH]; [done|]. by rewrite entries_cons, Hr. Qed.
Lemma blank_used cs : blank cs → used cs = [].
Proof. induction 1 as [|c cs [Ho Hr] _ IH]; [done|]. unfold used in *. cbn. by rewrite Ho. Qed.

(** What an insert that starts in cell [p] does to the cells. *)
Lemma full_used p v cs : probe v (rot p cs) = Full → length (used cs) = length cs ∧ v ∉ used cs.
Proof.
  intros HP. apply probe_full in HP. rewrite rot_perm in HP.
  assert (HU : used cs = cval <$> cs) by (apply used_all; eapply Forall_impl; [exact HP|by intros c []]).
  rewrite HU, length_fmap. split; [done|]. intros (c & -> & Hc)%list_elem_of_fmap.
  rewrite Forall_forall in HP. by destruct (HP c Hc).
Qed.
Lemma duplicate_used p v cs : probe v (rot p cs) = Duplicate → v ∈ used cs.
Proof.
  intros (c & Hin & Ho & <-)%probe_duplicate. apply used_taken; [|done]. by rewrite <- (rot_perm p).
Qed.

(** An insert finds a free cell unless the value is used or no cell is free. *)
Lemma free_probe p v cs : v ∉ used cs → (length (used cs) < length cs)%nat → ∃ j, probe v (rot p cs) = Free j.
Proof.
  intros Hv HL. destruct (probe v (rot p cs)) as [|j|] eqn:E; [|by exists j|].
  - by apply duplicate_used in E.
  - destruct (full_used _ _ _ E). lia.
Qed.

(** The cell of a removed pair stops the next insert of its value. *)
Lemma probe_removed k v cs j :
  probe v cs = Free j → probe v (removed k v (<[j := MkCell true true k v]> cs)) = Duplicate.
Proof.
  revert j. induction cs as [|c cs IH]; intros j; cbn [probe]; [done|]. destruct (cocc c) eqn:Hc; cbn [andb negb].
  - destruct (Z.eqb_spec (cval c) v) as [|Hv]; [done|]. destruct (probe v cs) as [|i|] eqn:E; try done. intros [= <-].
    specialize (IH i eq_refl). change (<[S i := ?x]> (c :: cs)) with (c :: <[i := x]> cs). cbn [removed]. rewrite Hc.
    assert (HN : is_entry k v c = false) by (unfold is_entry; apply Z.eqb_neq in Hv; by rewrite Hv, andb_false_r).
    rewrite HN. cbn [probe]. rewrite Hc. apply Z.eqb_neq in Hv. rewrite Hv. cbn [andb negb]. by rewrite IH.
  - intros [= <-]. cbn. unfold is_entry. cbn. rewrite !Z.eqb_refl. cbn. by rewrite ?Z.eqb_refl.
Qed.
