(* ===== verification/HashTable.v ===== *)
(** * The hash table and the hash index ([container/hash], [storage/index])

    A linear probing hash table over the buffer pool: a header page that lists the
    block pages, and an iterator that walks the cells of the blocks as a ring.  The
    hash function is murmur3's, a third-party package; it is a parameter. *)

From S2P Require Import Prelude Bytes Disk ClockReplacer LogManager Replacer Page BufferPool PoolView Engine HashPage Probe.

(** The table: the pool, the latch of the table and the page of its header. *)
Record LinearProbeHashTable (R : Type) : Type := MkHashTable {
  hstore : Store R;
  table_latch : Latch;
  headerPageId : Z
}.
Arguments MkHashTable {R}.
Arguments hstore {R}.
Arguments table_latch {R}.
Arguments headerPageId {R}.

(** A position in the ring, with the page object of its block. *)
Record hashTableIterator : Type := MkHashIterator {
  headerPage : ptr;
  bucket : Z;
  offset : Z;
  blockId : Z;
  blockPage : ptr
}.

(** [h := murmur3.New128(); h.Write(key); h.Sum(nil)] *)
Section table.
Variable murmur3 : list byte → list byte.
Context {R : Type} `{Replacer R}.

(** [binary.LittleEndian.Uint32] needs four bytes. *)
Definition hash (key : list byte) : res Z :=
  let sum := murmur3 key in
  _ ← guard_res (4 <=? zlen sum); Ok (read_le 4 sum).

Definition on_table {A} (m : st (Store R) A) : st (LinearProbeHashTable R) A :=
  zoom hstore (λ s ht, MkHashTable s (table_latch ht) (headerPageId ht)) m.
Definition on_table_latch (f : Latch → res Latch) : st (LinearProbeHashTable R) unit := λ ht,
  l ← f (table_latch ht); Ok (tt, MkHashTable (hstore ht) l (headerPageId ht)).

(** The bytes of a page, through the object. *)
Definition page_data {A} (p : ptr) (f : list byte → res A) : st (Store R) A :=
  pg ← read_page p; st_lift (f (pdata pg)).
Definition page_put (p : ptr) (f : list byte → res (list byte)) : st (Store R) unit :=
  update_page p (λ pg, d ← f (pdata pg); Ok (set_pdata d pg)).

(** [bpm.FetchPage(id).Data()]; nil has no data. *)
Definition fetch_data (pid : Z) : st (Store R) ptr := o ← FetchPage pid; st_lift (deref o).
Definition new_data : st (Store R) ptr := o ← NewPage; st_lift (deref o).

(** ** The iterator *)
Definition newHashTableIterator (header : ptr) (bucket offset : Z) : st (Store R) hashTableIterator :=
  blockPageId ← page_data header (GetBlockPageId bucket);
  blockPage ← fetch_data blockPageId;
  mret (MkHashIterator header bucket offset blockPageId blockPage).

Definition next (itr : hashTableIterator) : st (Store R) hashTableIterator :=
  let offset := u32 (offset itr + 1) in
  if BlockArraySize <=? offset then
    n ← page_data (headerPage itr) (λ d, Ok (NumBlocks d));
    let b := u32 (bucket itr + 1) in
    let bucket := if n <=? b then 0 else b in
    _ ← UnpinPage (blockId itr) true;
    blockId ← page_data (headerPage itr) (GetBlockPageId bucket);
    blockPage ← fetch_data blockId;
    mret (MkHashIterator (headerPage itr) bucket 0 blockId blockPage)
  else mret (MkHashIterator (headerPage itr) (bucket itr) offset (blockId itr) (blockPage itr)).

(** ** The operations *)
Definition at_cell {A} (itr : hashTableIterator) (f : Z → list byte → res A) : st (Store R) A :=
  page_data (blockPage itr) (f (offset itr)).

(** Back at the first position of the walk. *)
Definition around (b0 o0 : Z) (itr : hashTableIterator) : bool := (bucket itr =? b0) && (offset itr =? o0).

Fixpoint get_walk (fuel : nat) (hash b0 o0 : Z) (itr : hashTableIterator) (result : list Z) :
    st (Store R) (hashTableIterator * list Z) :=
  match fuel with
  | O => st_lift OutOfFuel
  | S fuel' =>
      occ ← at_cell itr IsOccupied;
      if occ : bool then
        r ← at_cell itr IsReadable;
        k ← (if r : bool then at_cell itr KeyAt else mret 0);
        result' ← (if (r : bool) && (k =? hash) then v ← at_cell itr ValueAt; mret (result ++ [v]) else mret result);
        itr' ← next itr;
        if around b0 o0 itr' then mret (itr', result') else get_walk fuel' hash b0 o0 itr' result'
      else mret (itr, result)
  end.

(** True for the error: "duplicated values on the same key are not allowed". *)
Fixpoint insert_walk (fuel : nat) (hash value b0 o0 : Z) (itr : hashTableIterator) :
    st (Store R) (hashTableIterator * bool) :=
  match fuel with
  | O => st_lift OutOfFuel
  | S fuel' =>
      occ ← at_cell itr IsOccupied;
      v ← (if occ : bool then at_cell itr ValueAt else mret 0);
      if (occ : bool) && (v =? value) then mret (itr, true)
      else if negb occ then
        _ ← page_put (blockPage itr) (λ d, x ← block_Insert (offset itr) hash value d; Ok (snd x));
        mret (itr, false)
      else
        itr' ← next itr;
        if around b0 o0 itr' then mret (itr', false) else insert_walk fuel' hash value b0 o0 itr'
  end.

Fixpoint remove_walk (fuel : nat) (hash value b0 o0 : Z) (itr : hashTableIterator) :
    st (Store R) hashTableIterator :=
  match fuel with
  | O => st_lift OutOfFuel
  | S fuel' =>
      occ ← at_cell itr IsOccupied;
      if occ : bool then
        k ← at_cell itr KeyAt;
        v ← at_cell itr ValueAt;
        _ ← (if (k =? hash) && (v =? value) then page_put (blockPage itr) (block_Remove (offset itr)) else mret tt);
        itr' ← next itr;
        if around b0 o0 itr' then mret itr' else remove_walk fuel' hash value b0 o0 itr'
      else mret itr
  end.

(** What the three operations share: the header, the first position of the key, the
    walk, and the pins given back. *)
Definition walk {A} (headerPageId : Z) (key : list byte)
    (loop : Z → Z → Z → hashTableIterator → st (Store R) (hashTableIterator * A)) : st (Store R) A :=
  header ← fetch_data headerPageId;
  hash ← st_lift (hash key);
  n ← page_data header (λ d, Ok (NumBlocks d));
  _ ← st_lift (guard_res (negb (n =? 0)));
  let b0 := hash mod n in
  let o0 := hash mod BlockArraySize in
  iterator ← newHashTableIterator header b0 o0;
  x ← loop hash b0 o0 iterator;
  _ ← UnpinPage (blockId (fst x)) true;
  _ ← UnpinPage headerPageId false;
  mret (snd x).

Definition GetValue (fuel : nat) (key : list byte) : st (LinearProbeHashTable R) (list Z) :=
  _ ← on_table_latch RLock;
  ht ← st_get;
  result ← on_table (walk (headerPageId ht) key (λ h b0 o0 itr, get_walk fuel h b0 o0 itr []));
  _ ← on_table_latch RUnlock;
  mret result.

Definition Insert (fuel : nat) (key : list byte) (value : Z) : st (LinearProbeHashTable R) bool :=
  _ ← on_table_latch WLock;
  ht ← st_get;
  err ← on_table (walk (headerPageId ht) key (λ h b0 o0 itr, insert_walk fuel h value b0 o0 itr));
  _ ← on_table_latch WUnlock;
  mret err.

Definition Remove (fuel : nat) (key : list byte) (value : Z) : st (LinearProbeHashTable R) unit :=
  _ ← on_table_latch WLock;
  ht ← st_get;
  done ← on_table (walk (headerPageId ht) key
           (λ h b0 o0 itr, itr' ← remove_walk fuel h value b0 o0 itr; mret (itr', tt)));
  _ ← on_table_latch WUnlock;
  mret done.

(** [numBuckets] new pages, listed in the header. *)
Fixpoint add_blocks (numBuckets : nat) (header : ptr) : st (Store R) unit :=
  match numBuckets with
  | O => mret tt
  | S n =>
      np ← new_data;
      pg ← read_page np;
      _ ← page_put header (AddBlockPageId (id pg));
      _ ← UnpinPage (id pg) true;
      add_blocks n header
  end.

Definition NewLinearProbeHashTable (numBuckets : nat) : st (Store R) Z :=
  header ← new_data;
  pg ← read_page header;
  _ ← page_put header (λ d, Ok (header_SetPageId (id pg) d));
  _ ← page_put header (λ d, Ok (header_SetSize (Z.of_nat numBuckets * BlockArraySize) d));
  _ ← add_blocks numBuckets header;
  _ ← UnpinPage (id pg) true;
  mret (id pg).
End table.

(** ** The cells of a table *)

(** Blocks of equal size, one after the other. *)
Lemma join_lookup {A} (w : nat) (bss : list (list A)) i o bs :
  Forall (λ bs, length bs = w) bss → bss !! i = Some bs → (o < w)%nat → mjoin bss !! (i * w + o)%nat = bs !! o.
Proof.
  intros HF. revert i. induction HF as [|x bss Hx HF IH]; intros i Hi Ho; [done|].
  change (mjoin (x :: bss)) with (x ++ mjoin bss). destruct i as [|i].
  - injection Hi as ->. cbn. rewrite lookup_app_l by lia. done.
  - rewrite lookup_app_r by (cbn; lia). rewrite <- (IH i Hi Ho). f_equal. cbn. lia.
Qed.
Lemma join_insert {A} (w : nat) (bss : list (list A)) i o bs x :
  Forall (λ bs, length bs = w) bss → bss !! i = Some bs → (o < w)%nat →
  <[(i * w + o)%nat := x]> (mjoin bss) = mjoin (<[i := <[o := x]> bs]> bss).
Proof.
  intros HF. revert i. induction HF as [|y bss Hy HF IH]; intros i Hi Ho; [done|].
  change (mjoin (y :: bss)) with (y ++ mjoin bss). destruct i as [|i].
  - injection Hi as ->. cbn. rewrite insert_app_l by lia. done.
  - rewrite insert_app_r_alt by (cbn; lia). change (<[S i := <[o := x]> bs]> (y :: bss)) with (y :: <[i := <[o := x]> bs]> bss).
    change (mjoin (y :: <[i := <[o := x]> bs]> bss)) with (y ++ mjoin (<[i := <[o := x]> bs]> bss)).
    f_equal. rewrite <- (IH i Hi Ho). f_equal. cbn. lia.
Qed.
Lemma join_length {A} (w : nat) (bss : list (list A)) :
  Forall (λ bs, length bs = w) bss → length (mjoin bss) = (length bss * w)%nat.
Proof.
  induction 1 as [|x bss Hx HF IH]; [done|]. change (mjoin (x :: bss)) with (x ++ mjoin bss).
  rewrite length_app, IH, Hx. cbn. lia.
Qed.

Abbreviation width := (Z.to_nat BlockArraySize) (only parsing).

(** [P] has the table with header [hid], blocks [ids] and cells [cs]. *)
Record table_pages (P : gmap Z (list byte)) (hid : Z) (ids : list Z) (cs : list cell) : Prop := {
  tp_header : ∃ hd, P !! hid = Some hd ∧ header_is hd hid ids;
  tp_ids : ids ≠ [];
  tp_nodup : NoDup (hid :: ids);
  tp_blocks : ∃ bss, cs = mjoin bss ∧
    Forall2 (λ b bs, ∃ d, P !! b = Some d ∧ zlen d = PageSize ∧ block_cells d = bs) ids bss
}.

Lemma blocks_width (P : gmap Z (list byte)) (ids : list Z) (bss : list (list cell)) :
  Forall2 (λ b bs, ∃ d, P !! b = Some d ∧ zlen d = PageSize ∧ block_cells d = bs) ids bss →
  Forall (λ bs, length bs = width) bss.
Proof. induction 1 as [|b bs ids bss (d & _ & _ & <-) _ IH]; constructor; [apply length_cells|done]. Qed.

Lemma table_length P hid ids cs : table_pages P hid ids cs → length cs = (length ids * width)%nat.
Proof.
  intros [_ _ _ (bss & -> & HF)]. rewrite (join_length width) by by eapply blocks_width.
  by rewrite (Forall2_length _ _ _ HF).
Qed.

(** The block of a cell. *)
Lemma table_block P hid ids cs i b :
  table_pages P hid ids cs → ids !! i = Some b →
  ∃ d, P !! b = Some d ∧ zlen d = PageSize ∧
    (∀ o, 0 ≤ o < BlockArraySize → cs !! (i * width + Z.to_nat o)%nat = Some (cell_at d o)) ∧
    ∀ d' o c, zlen d' = PageSize → 0 ≤ o < BlockArraySize → block_cells d' = <[Z.to_nat o := c]> (block_cells d) →
      table_pages (<[b := d']> P) hid ids (<[(i * width + Z.to_nat o)%nat := c]> cs).
Proof.
  intros [(hd & Hh & HH) HN ND (bss & -> & HF)] Hi.
  destruct (Forall2_lookup_l _ _ _ _ _ HF Hi) as (bs & Hbs & d & HP & HL & <-).
  pose proof (blocks_width _ _ _ HF) as HW. exists d. split; [done|]. split; [done|]. split.
  - intros o Ho. rewrite (join_lookup width _ _ _ _ HW Hbs) by lia. by apply cells_lookup.
  - intros d' o c HL' Ho HC. apply NoDup_cons in ND as [Hnin ND].
    assert (Hne : b ≠ hid) by (intros ->; apply Hnin; by eapply list_elem_of_lookup_2). split.
    + exists hd. by rewrite lookup_insert_ne by done.
    + done.
    + by apply NoDup_cons.
    + exists (<[i := block_cells d']> bss). split; [by rewrite HC, (join_insert width _ _ _ _ _ HW Hbs) by lia|].
      apply Forall2_same_length_lookup_2; [rewrite length_insert; by eapply Forall2_length|].
      intros j b' bs' Hj Hj'. destruct (decide (j = i)) as [->|Hji].
      * assert (b' = b) as -> by congruence. rewrite list_lookup_insert_eq in Hj' by by eapply lookup_lt_Some.
        injection Hj' as <-. exists d'. by rewrite lookup_insert_eq.
      * rewrite list_lookup_insert_ne in Hj' by done.
        assert (Hb' : b' ≠ b) by (intros ->; apply Hji; by eapply NoDup_lookup).
        destruct (Forall2_lookup_lr _ _ _ _ _ _ HF Hj Hj') as (d2 & HP2 & HL2 & HC2).
        exists d2. by rewrite lookup_insert_ne.
Qed.

(** ** Walking over the cells *)
Section walking.
Context {R : Type} `{Replacer R}.
Implicit Types (s : Store R).

(** Steps that keep the log and the page ids. *)
Definition calm s s' : Prop :=
  log_same s s' ∧ nextPageID (diskManager s') = nextPageID (diskManager s).
Lemma calm_refl s : calm s s.
Proof. split; [apply log_same_refl|done]. Qed.
Lemma calm_trans s1 s2 s3 : calm s1 s2 → calm s2 s3 → calm s1 s3.
Proof. intros [L1 N1] [L2 N2]. split; [by eapply log_same_trans|congruence]. Qed.

Definition pinned_by (pins : gmap Z Z) (q : Z) : gmap Z Z := <[q := default 0 (pins !! q) + 1]> pins.

(** The iterator is at position [pos]: the header and the block are pinned, the
    block may be changed. *)
Record walking (n : nat) (Dl : gset Z) (P : gmap Z (list byte)) (pins : gmap Z Z) (hid : Z) (ids : list Z) (cs : list cell)
    (itr : hashTableIterator) (pos : nat) s : Prop := {
  wk_table : table_pages P hid ids cs;
  wk_block : 0 ≤ bucket itr ∧ ids !! Z.to_nat (bucket itr) = Some (blockId itr);
  wk_offset : 0 ≤ offset itr < BlockArraySize;
  wk_pos : pos = (Z.to_nat (bucket itr) * width + Z.to_nat (offset itr))%nat;
  wk_shows : ∃ D, D ⊆ {[blockId itr]} ∧
    shows s n (MkView P (pinned_by (pinned_by pins hid) (blockId itr)) (D ∪ Dl) ∅);
  wk_clean : (hid ∉ Dl) ∧ ∀ b, b ∈ ids → b ∉ Dl;
  wk_header : held s hid (headerPage itr);
  wk_held : held s (blockId itr) (blockPage itr)
}.

Lemma page_data_run {A} s n v pid p d (f : list byte → res A) x :
  shows s n v → held s pid p → vpages v !! pid = Some d → f d = Ok x → page_data p f s = Ok (x, s).
Proof.
  intros S Hh HB Hf. destruct (held_object s n v pid p d S Hh HB) as (g & pg & _ & HO & _ & Hd & _).
  unfold page_data, read_page. unfold mbind, st_mbind. rewrite HO. cbn. unfold st_lift. by rewrite Hd, Hf.
Qed.

Lemma at_cell_run {A} n Dl P pins hid ids cs itr pos s (f : Z → list byte → res A) (g : cell → A) c :
  walking n Dl P pins hid ids cs itr pos s → cs !! pos = Some c →
  (∀ d, zlen d = PageSize → ∀ i, 0 ≤ i < BlockArraySize → f i d = Ok (g (cell_at d i))) →
  at_cell itr f s = Ok (g c, s).
Proof.
  intros [T [HB0 HB] HO -> (D & _ & S) _ _ Hh] Hc Hf.
  destruct (table_block _ _ _ _ _ _ T HB) as (d & HP & HL & HC & _). rewrite HC in Hc by done. injection Hc as <-.
  unfold at_cell. eapply page_data_run; [exact S|exact Hh|exact HP|]. by apply Hf.
Qed.

Lemma page_put_run s n P pins' D pid p d f d' :
  shows s n (MkView P pins' D ∅) → is_Some (pins' !! pid) → held s pid p → P !! pid = Some d →
  f d = Ok d' → length d' = length d →
  ∃ s', page_put p f s = Ok (tt, s') ∧ shows s' n (MkView (<[pid := d']> P) pins' ({[pid]} ∪ D) ∅) ∧
    (∀ i q, held s i q → held s' i q) ∧ calm s s'.
Proof.
  intros S Hp Hh HB Hf HLn. destruct (held_object s n _ pid p d S Hh HB) as (g & pg & C & HO & _ & Hd & _).
  destruct (shows_write s n _ pid g p pg (set_pdata d' pg) S) as (S' & HK & _); [done..|by rewrite Hd|].
  exists (upd_obj p (set_pdata d' pg) s). split; [|split; [exact S'|split; [exact HK|]]].
  - unfold page_put, update_page. rewrite HO. mred. by rewrite Hd, Hf.
  - split; [by apply log_same_eq|done].
Qed.

Lemma pinned_pos pins q : pins_pos pins → pins_pos (pinned_by pins q).
Proof.
  intros HP i k. unfold pinned_by. destruct (decide (i = q)) as [->|Hne].
  - rewrite lookup_insert_eq. intros [= <-]. destruct (pins !! q) as [j|] eqn:E; cbn; [pose proof (HP _ _ E); lia|lia].
  - rewrite lookup_insert_ne by done. apply HP.
Qed.
Lemma pinned_room n pins q b : frames_for 2 n pins → pins_pos pins →
  (is_Some (pinned_by pins q !! b) ∨ (base.size (pinned_by pins q) < n)%nat) ∧
  default 0 (pinned_by pins q !! b) < 2 ^ 32 - 1.
Proof.
  intros [HF HC] HP. unfold pinned_by. split.
  - right. rewrite map_size_insert. destruct (pins !! q); cbn; lia.
  - destruct (decide (b = q)) as [->|Hne].
    + rewrite lookup_insert_eq. cbn. destruct (pins !! q) as [j|] eqn:E; cbn; [pose proof (HC _ _ E); lia|lia].
    + rewrite lookup_insert_ne by done. destruct (pins !! b) as [j|] eqn:E; cbn; [pose proof (HC _ _ E); lia|lia].
Qed.

(** Fetch one more page, give one back. *)
Lemma fetch_data_run s n Dl P pins pid d :
  shows s n (MkView P pins Dl ∅) → P !! pid = Some d → room n pins pid →
  ∃ p s', fetch_data pid s = Ok (p, s') ∧ shows s' n (MkView P (pinned_by pins pid) Dl ∅) ∧ held s' pid p ∧
    (∀ i q, is_Some (pins !! i) → held s i q → held s' i q) ∧ calm s s'.
Proof.
  intros S HP [HF HC]. destruct (shows_fetch s n _ pid d S HP HF HC) as (p & s' & E & S' & Hh & HK & L & N).
  { intros i [l Hl]. cbn in Hl. by rewrite lookup_empty in Hl. }
  exists p, s'. split; [unfold fetch_data; by rewrite (st_bind_run _ _ _ _ _ E)|]. split; [exact S'|]. split; [done|].
  split; [intros i q Hi; by apply HK|by split].
Qed.

Lemma unpin_data_run s n Dl P pins D pid dirty :
  shows s n (MkView P (pinned_by pins pid) (D ∪ Dl) ∅) → pins_pos pins → D ⊆ {[pid]} → dirty = true ∨ D = ∅ → pid ∉ Dl →
  ∃ s', UnpinPage pid dirty s = Ok (true, s') ∧ shows s' n (MkView P pins Dl ∅) ∧
    (∀ i q, is_Some (pinned_by pins pid !! i) → held s i q → held s' i q) ∧ calm s s'.
Proof.
  intros S HP HD Hd HE. destruct (shows_unpin s n _ pid dirty S) as (s' & E & S' & HK & L & N & _).
  { cbn. unfold pinned_by. by rewrite lookup_insert_eq. }
  { destruct Hd as [->| ->]; [by left|right; cbn; set_solver]. }
  change (MkView P (pinned_by pins pid) (D ∪ Dl) ∅) with (vheld P pins (D ∪ Dl) ∅ pid) in S'. rewrite vunpin_vheld in S' by done.
  replace ((D ∪ Dl) ∖ {[pid]}) with Dl in S' by set_solver.
  exists s'. split; [done|]. split; [exact S'|]. split; [intros i q Hi; by apply HK|split; [done|by rewrite N]].
Qed.

Lemma pinned_by_hit pins q : is_Some (pinned_by pins q !! q).
Proof. unfold pinned_by. by rewrite lookup_insert_eq. Qed.
Lemma pinned_by_other pins q i : is_Some (pins !! i) → is_Some (pinned_by pins q !! i).
Proof. intros Hi. unfold pinned_by. apply lookup_insert_is_Some'. by right. Qed.

(** One step along the ring. *)
Lemma next_run n Dl P pins hid ids cs itr pos s :
  walking n Dl P pins hid ids cs itr pos s → pins_pos pins → frames_for 2 n pins →
  ∃ itr' s', next itr s = Ok (itr', s') ∧
    walking n Dl P pins hid ids cs itr' ((pos + 1) mod length cs)%nat s' ∧ calm s s'.
Proof.
  intros W HPp HFr. pose proof W as [T [HB0 HB] HO HPos (D & HD & S) [HEh HEb] Hh Hb].
  pose proof (table_length _ _ _ _ T) as HN. pose proof T as [(hd & Hhd & HH) _ _ _].
  pose proof (lookup_lt_Some _ _ _ HB) as HBl. pose proof (hd_room _ _ _ HH) as HR.
  assert (HW : width = 252%nat) by reflexivity. assert (HBA : BlockArraySize = 252) by reflexivity.
  unfold next. rewrite u32_small by (unfold in_u32; lia).
  destruct (Z.leb_spec BlockArraySize (offset itr + 1)) as [Hlast|Hin].
  - assert (HNb : page_data (headerPage itr) (λ d, Ok (NumBlocks d)) s = Ok (Z.of_nat (length ids), s)).
    { eapply page_data_run; [exact S|exact Hh|exact Hhd|]. by rewrite (hd_num _ _ _ HH). }
    rewrite (st_bind_run _ _ _ _ _ HNb). rewrite u32_small by (unfold in_u32; lia).
    destruct (unpin_data_run s n Dl P (pinned_by pins hid) D (blockId itr) true S) as (s1 & E1 & S1 & HK1 & C1);
      [by apply pinned_pos|done|by left|by eapply HEb, list_elem_of_lookup_2|]. rewrite (st_bind_run _ _ _ _ _ E1).
    assert (Hh1 : held s1 hid (headerPage itr)) by (apply HK1; [apply pinned_by_other, pinned_by_hit|done]).
    set (b' := if Z.of_nat (length ids) <=? bucket itr + 1 then 0 else bucket itr + 1).
    assert (Hb' : 0 ≤ b' ∧ (Z.to_nat b' < length ids)%nat ∧ Z.to_nat b' = ((Z.to_nat (bucket itr) + 1) mod length ids)%nat).
    { unfold b'. destruct (Z.leb_spec (Z.of_nat (length ids)) (bucket itr + 1)) as [Hge|Hlt].
      - replace (Z.to_nat (bucket itr) + 1)%nat with (length ids) by lia. rewrite Nat.Div0.mod_same. lia.
      - rewrite Nat.mod_small; lia. }
    destruct Hb' as (Hb0 & Hbl & Hbm). destruct (lookup_lt_is_Some_2 ids (Z.to_nat b') Hbl) as [bid Hbid].
    assert (HG : page_data (headerPage itr) (GetBlockPageId b') s1 = Ok (bid, s1)).
    { eapply page_data_run; [exact S1|exact Hh1|exact Hhd|]. rewrite <- (Z2Nat.id b') by done. by apply (hd_ids _ _ _ HH). }
    rewrite (st_bind_run _ _ _ _ _ HG).
    destruct (table_block _ _ _ _ _ _ T Hbid) as (d & HPd & _).
    destruct (fetch_data_run s1 n Dl P (pinned_by pins hid) bid d S1 HPd) as (p & s2 & E2 & S2 & Hp & HK2 & C2);
      [by apply pinned_room|]. rewrite (st_bind_run _ _ _ _ _ E2).
    eexists _, s2. split; [reflexivity|]. split; [|by eapply calm_trans].
    split; cbn [headerPage bucket offset blockId blockPage]; try done.
    + rewrite HPos, HN, HW. assert (Ho : Z.to_nat (offset itr) = 251%nat) by lia. rewrite Ho.
      replace (Z.to_nat (bucket itr) * 252 + 251 + 1)%nat with ((Z.to_nat (bucket itr) + 1) * 252)%nat by lia.
      rewrite Nat.Div0.mul_mod_distr_r, <- Hbm. cbn. lia.
    + exists ∅. rewrite (left_id_L ∅ _). split; [set_solver|exact S2].
    + apply HK2; [apply pinned_by_hit|done].
  - eexists _, s. split; [reflexivity|]. split; [|apply calm_refl].
    split; cbn [headerPage bucket offset blockId blockPage]; try done.
    + lia.
    + rewrite HPos, HN, HW. rewrite Nat.mod_small; [lia|]. nia.
    + by exists D.
Qed.

(** Changing the current cell. *)
Lemma put_cell_run n Dl P pins hid ids cs itr pos s (f : Z → list byte → res (list byte)) c c' :
  walking n Dl P pins hid ids cs itr pos s → cs !! pos = Some c →
  (∀ d, zlen d = PageSize → cell_at d (offset itr) = c → ∃ d', f (offset itr) d = Ok d' ∧ zlen d' = PageSize ∧
     block_cells d' = <[Z.to_nat (offset itr) := c']> (block_cells d)) →
  ∃ P' s', page_put (blockPage itr) (f (offset itr)) s = Ok (tt, s') ∧
    walking n Dl P' pins hid ids (<[pos := c']> cs) itr pos s' ∧ calm s s' ∧
    ∀ i, i ∉ ids → P' !! i = P !! i.
Proof.
  intros [T [HB0 HB] HO HPos (D & HD & S) [HEh HEb] Hh Hb] Hc Hf.
  destruct (table_block _ _ _ _ _ _ T HB) as (d & HP & HL & HC & HU). rewrite HPos, HC in Hc by done. injection Hc as Hc.
  destruct (Hf d HL Hc) as (d' & Ef & HL' & HC').
  destruct (page_put_run s n P (pinned_by (pinned_by pins hid) (blockId itr)) (D ∪ Dl) (blockId itr) (blockPage itr) d
    (f (offset itr)) d' S (pinned_by_hit _ _) Hb HP Ef) as (s' & E & S' & HK & C).
  { unfold zlen in *. lia. }
  exists (<[blockId itr := d']> P), s'. split; [done|]. split; [|split; [done|]].
  - split; try done.
    + rewrite HPos. by apply HU.
    + exists ({[blockId itr]} ∪ D). rewrite <- (assoc_L _). split; [set_solver|exact S'].
    + by apply HK.
    + by apply HK.
  - intros i Hi. apply lookup_insert_ne. intros <-. apply Hi. by eapply list_elem_of_lookup_2.
Qed.
End walking.

(** ** The loops, along a probe sequence *)
Section loops.
Context {R : Type} `{Replacer R}.
Implicit Types (s : Store R).
Variables (n : nat) (Dl : gset Z) (pins : gmap Z Z) (hid : Z) (ids : list Z) (b0 o0 : Z) (p0 : nat).
Hypothesis HPp : pins_pos pins.
Hypothesis HFr : frames_for 2 n pins.
Hypothesis Hb0 : 0 ≤ b0.
Hypothesis Ho0 : 0 ≤ o0 < BlockArraySize.
Hypothesis Hp0 : p0 = (Z.to_nat b0 * width + Z.to_nat o0)%nat.

Lemma around_run P cs itr pos s :
  walking n Dl P pins hid ids cs itr pos s → around b0 o0 itr = bool_decide (pos = p0).
Proof.
  intros [_ [HB0 _] HO -> _ _ _ _]. unfold around. assert (HBA : BlockArraySize = 252) by reflexivity.
  assert (HW : width = 252%nat) by reflexivity. rewrite Hp0, HW.
  destruct (Z.eqb_spec (bucket itr) b0) as [->|Hb]; destruct (Z.eqb_spec (offset itr) o0) as [->|Ho]; cbn [andb];
    symmetry; rewrite ?bool_decide_eq_true, ?bool_decide_eq_false; lia.
Qed.

(** The cell the iterator is at, and whether the next is where the walk began. *)
Lemma here_run P cs pre c rest itr s :
  walking n Dl P pins hid ids cs itr ((p0 + length pre) mod length cs)%nat s → (p0 < length cs)%nat →
  rot p0 cs = pre ++ c :: rest → cs !! ((p0 + length pre) mod length cs)%nat = Some c.
Proof.
  intros W Hp HR. assert (HL : length (rot p0 cs) = length cs) by apply rot_length. rewrite HR, length_app in HL. cbn in HL.
  rewrite <- rot_lookup by lia. rewrite HR, lookup_app_r, Nat.sub_diag by lia. done.
Qed.

Lemma step_run P cs pre c rest itr s :
  walking n Dl P pins hid ids cs itr ((p0 + length pre) mod length cs)%nat s → (p0 < length cs)%nat →
  rot p0 cs = pre ++ c :: rest →
  ∃ itr' s', next itr s = Ok (itr', s') ∧ calm s s' ∧
    walking n Dl P pins hid ids cs itr' ((p0 + length (pre ++ [c])) mod length cs)%nat s' ∧
    around b0 o0 itr' = bool_decide (rest = []).
Proof.
  intros W Hp HR. assert (HL : length (rot p0 cs) = length cs) by apply rot_length. rewrite HR, length_app in HL. cbn in HL.
  destruct (next_run _ _ _ _ _ _ _ _ _ _ W HPp HFr) as (itr' & s' & E & W' & C).
  exists itr', s'. split; [done|]. split; [done|].
  assert (HE : (((p0 + length pre) mod length cs + 1) mod length cs = (p0 + length (pre ++ [c])) mod length cs)%nat).
  { rewrite length_app. cbn. rewrite Nat.Div0.add_mod_idemp_l. f_equal. lia. }
  rewrite HE in W'. split; [exact W'|]. rewrite (around_run _ _ _ _ _ W'). apply bool_decide_ext.
  rewrite length_app. cbn. split.
  - intros Hq. destruct rest as [|c' rest]; [done|]. exfalso. cbn in HL.
    rewrite ring_mod in Hq by lia. case_decide; lia.
  - intros ->. cbn in HL. replace (p0 + (length pre + 1))%nat with (p0 + 1 * length cs)%nat by lia.
    rewrite Nat.Div0.mod_add. by apply Nat.mod_small.
Qed.

Lemma get_walk_run h P cs rest : ∀ pre fuel itr acc s,
  walking n Dl P pins hid ids cs itr ((p0 + length pre) mod length cs)%nat s → (p0 < length cs)%nat →
  rot p0 cs = pre ++ rest → rest ≠ [] → (length rest ≤ fuel)%nat →
  ∃ itr' pos s', get_walk fuel h b0 o0 itr acc s = Ok ((itr', acc ++ values_in h rest), s') ∧
    walking n Dl P pins hid ids cs itr' pos s' ∧ calm s s'.
Proof.
  induction rest as [|c rest IH]; intros pre fuel itr acc s W Hp HR Hne Hf; [done|].
  destruct fuel as [|fuel]; [cbn in Hf; lia|]. cbn [get_walk].
  pose proof (here_run _ _ _ _ _ _ _ W Hp HR) as Hc.
  rewrite (st_bind_run _ _ _ _ _ (at_cell_run _ _ _ _ _ _ _ _ _ _ IsOccupied cocc c W Hc IsOccupied_run)).
  unfold values_in. cbn [taken]. destruct (cocc c) eqn:Hoc.
  2: { exists itr, ((p0 + length pre) mod length cs)%nat, s. cbn. rewrite app_nil_r. split; [done|]. split; [exact W|apply calm_refl]. }
  rewrite (st_bind_run _ _ _ _ _ (at_cell_run _ _ _ _ _ _ _ _ _ _ IsReadable crd c W Hc IsReadable_run)).
  assert (EK : (if crd c then at_cell itr KeyAt else mret 0) s = Ok (if crd c then ckey c else 0, s)).
  { destruct (crd c); [|done]. exact (at_cell_run _ _ _ _ _ _ _ _ _ _ KeyAt ckey c W Hc KeyAt_run). }
  rewrite (st_bind_run _ _ _ _ _ EK).
  set (acc' := acc ++ (if matches h c then [cval c] else [])).
  assert (EV : (if crd c && ((if crd c then ckey c else 0) =? h)
    then v ← at_cell itr ValueAt; mret (acc ++ [v]) else mret acc) s = Ok (acc', s)).
  { unfold acc', matches. destruct (crd c); cbn [andb]; [|by rewrite app_nil_r]. destruct (ckey c =? h); [|by rewrite app_nil_r].
    by rewrite (st_bind_run _ _ _ _ _ (at_cell_run _ _ _ _ _ _ _ _ _ _ ValueAt cval c W Hc ValueAt_run)). }
  rewrite (st_bind_run _ _ _ _ _ EV). destruct (step_run _ _ _ _ _ _ _ W Hp HR) as (itr' & s' & E & C & W' & HA).
  rewrite (st_bind_run _ _ _ _ _ E), HA. cbn [List.filter].
  assert (Hacc : ∀ l, acc' ++ (cval <$> l) = acc ++ (cval <$> (if matches h c then c :: l else l))).
  { intros l. unfold acc'. rewrite <- app_assoc. by destruct (matches h c). }
  rewrite <- Hacc. case_bool_decide as Hr.
  - subst rest. exists itr', ((p0 + length (pre ++ [c])) mod length cs)%nat, s'. cbn. rewrite app_nil_r. done.
  - destruct (IH (pre ++ [c]) fuel itr' acc' s' W' Hp) as (itr2 & pos2 & s2 & E2 & W2 & C2);
      [by rewrite <- app_assoc|done|cbn in Hf; lia|].
    exists itr2, pos2, s2. split; [exact E2|]. split; [done|]. by eapply calm_trans.
Qed.

(** What an insert does to the cells. *)
Definition inserted (h v : Z) (x : stop) (i : nat) (cs : list cell) : list cell :=
  match x with Free j => <[((p0 + (i + j)) mod length cs)%nat := MkCell true true h v]> cs | _ => cs end.
Definition refused (x : stop) : bool := match x with Duplicate => true | _ => false end.

Lemma insert_walk_run h v P cs rest : ∀ pre fuel itr s,
  walking n Dl P pins hid ids cs itr ((p0 + length pre) mod length cs)%nat s → (p0 < length cs)%nat →
  rot p0 cs = pre ++ rest → rest ≠ [] → (length rest ≤ fuel)%nat → in_u32 h → in_u32 v →
  ∃ itr' pos P' s', insert_walk fuel h v b0 o0 itr s = Ok ((itr', refused (probe v rest)), s') ∧
    walking n Dl P' pins hid ids (inserted h v (probe v rest) (length pre) cs) itr' pos s' ∧ calm s s' ∧
    ∀ i, i ∉ ids → P' !! i = P !! i.
Proof.
  induction rest as [|c rest IH]; intros pre fuel itr s W Hp HR Hne Hf Hh Hv; [done|].
  destruct fuel as [|fuel]; [cbn in Hf; lia|]. cbn [insert_walk].
  pose proof (here_run _ _ _ _ _ _ _ W Hp HR) as Hc.
  rewrite (st_bind_run _ _ _ _ _ (at_cell_run _ _ _ _ _ _ _ _ _ _ IsOccupied cocc c W Hc IsOccupied_run)).
  assert (EV : (if cocc c then at_cell itr ValueAt else mret 0) s = Ok (if cocc c then cval c else 0, s)).
  { destruct (cocc c); [|done]. exact (at_cell_run _ _ _ _ _ _ _ _ _ _ ValueAt cval c W Hc ValueAt_run). }
  rewrite (st_bind_run _ _ _ _ _ EV). cbn [probe]. destruct (cocc c) eqn:Hoc; cbn [andb negb].
  - destruct (Z.eqb_spec (cval c) v) as [Hcv|Hcv].
    { exists itr, ((p0 + length pre) mod length cs)%nat, P, s. split; [done|]. split; [exact W|]. split; [apply calm_refl|done]. }
    destruct (step_run _ _ _ _ _ _ _ W Hp HR) as (itr' & s' & E & C & W' & HA).
    rewrite (st_bind_run _ _ _ _ _ E), HA. case_bool_decide as Hr.
    + subst rest. exists itr', ((p0 + length (pre ++ [c])) mod length cs)%nat, P, s'. by split.
    + destruct (IH (pre ++ [c]) fuel itr' s' W' Hp) as (itr2 & pos2 & P2 & s2 & E2 & W2 & C2 & H2);
        [by rewrite <- app_assoc|done|cbn in Hf; lia|done|done|].
      exists itr2, pos2, P2, s2. rewrite E2. split; [by destruct (probe v rest)|]. split; [|by split; [eapply calm_trans|]].
      destruct (probe v rest) as [|j|]; try exact W2. cbn [inserted further] in W2 |- *.
      replace (length pre + S j)%nat with (length (pre ++ [c]) + j)%nat by (rewrite length_app; cbn; lia). exact W2.
  - destruct (put_cell_run _ _ _ _ _ _ _ _ _ _ (λ o d, x ← block_Insert o h v d; Ok (snd x)) c (MkCell true true h v) W Hc)
      as (P' & s' & E & W' & C & HO).
    { intros d HL Hd. destruct (block_Insert_run (offset itr) h v d HL) as (d' & Ed & HL' & HC');
        [apply W|by rewrite Hd|done|done|]. exists d'. by rewrite Ed. }
    rewrite (st_bind_run _ _ _ _ _ E).
    exists itr, ((p0 + length pre) mod length cs)%nat, P', s'. split; [done|]. split; [|by split].
    cbn [inserted]. by rewrite Nat.add_0_r.
Qed.

Lemma remove_walk_run h v rest : ∀ P cs pre fuel itr s,
  walking n Dl P pins hid ids cs itr ((p0 + length pre) mod length cs)%nat s → (p0 < length cs)%nat →
  rot p0 cs = pre ++ rest → rest ≠ [] → (length rest ≤ fuel)%nat →
  ∃ itr' pos P' cs' s', remove_walk fuel h v b0 o0 itr s = Ok (itr', s') ∧
    walking n Dl P' pins hid ids cs' itr' pos s' ∧ calm s s' ∧ length cs' = length cs ∧
    rot p0 cs' = pre ++ removed h v rest ∧ ∀ i, i ∉ ids → P' !! i = P !! i.
Proof.
  induction rest as [|c rest IH]; intros P cs pre fuel itr s W Hp HR Hne Hf; [done|].
  destruct fuel as [|fuel]; [cbn in Hf; lia|]. cbn [remove_walk].
  pose proof (here_run _ _ _ _ _ _ _ W Hp HR) as Hc.
  assert (HLr : (length pre < length cs)%nat) by (rewrite <- (rot_length p0 cs), HR, length_app; cbn; lia).
  rewrite (st_bind_run _ _ _ _ _ (at_cell_run _ _ _ _ _ _ _ _ _ _ IsOccupied cocc c W Hc IsOccupied_run)).
  cbn [removed]. destruct (cocc c) eqn:Hoc.
  2: { exists itr, ((p0 + length pre) mod length cs)%nat, P, cs, s. split; [done|]. split; [exact W|]. split; [apply calm_refl|done]. }
  rewrite (st_bind_run _ _ _ _ _ (at_cell_run _ _ _ _ _ _ _ _ _ _ KeyAt ckey c W Hc KeyAt_run)).
  rewrite (st_bind_run _ _ _ _ _ (at_cell_run _ _ _ _ _ _ _ _ _ _ ValueAt cval c W Hc ValueAt_run)).
  set (c' := if is_entry h v c then unread c else c). set (q := ((p0 + length pre) mod length cs)%nat) in *.
  assert (EP : ∃ P1 s1, (if (ckey c =? h) && (cval c =? v) then page_put (blockPage itr) (block_Remove (offset itr)) else mret tt) s = Ok (tt, s1) ∧
    walking n Dl P1 pins hid ids (<[q := c']> cs) itr q s1 ∧ calm s s1 ∧ ∀ i, i ∉ ids → P1 !! i = P !! i).
  { unfold c', is_entry. destruct (_ && _).
    - apply (put_cell_run _ _ _ _ _ _ _ _ _ _ block_Remove c (unread c) W Hc). intros d HL Hd. rewrite <- Hd.
      apply block_Remove_run; [done|apply W].
    - exists P, s. rewrite list_insert_id by done. split; [done|]. split; [exact W|]. by split; [apply calm_refl|]. }
  destruct EP as (P1 & s1 & E1 & W1 & C1 & H1). rewrite (st_bind_run _ _ _ _ _ E1).
  assert (HL1 : length (<[q := c']> cs) = length cs) by apply length_insert.
  assert (HR1 : rot p0 (<[q := c']> cs) = pre ++ c' :: rest).
  { unfold q. rewrite rot_insert, HR by lia. rewrite insert_app_r_alt, Nat.sub_diag by done. done. }
  set (cs1 := <[q := c']> cs) in *. assert (Hq : q = ((p0 + length pre) mod length cs1)%nat) by (by rewrite HL1).
  rewrite Hq in W1. destruct (step_run _ _ _ _ _ _ _ W1 ltac:(rewrite HL1; done) HR1) as (itr' & s' & E & C & W' & HA).
  rewrite (st_bind_run _ _ _ _ _ E), HA. case_bool_decide as Hr.
  - subst rest. eexists itr', _, P1, cs1, s'. split; [done|]. split; [exact W'|]. split; [by eapply calm_trans|].
    split; [done|]. by split.
  - destruct (IH P1 cs1 (pre ++ [c']) fuel itr' s') as (itr2 & pos2 & P2 & cs2 & s2 & E2 & W2 & C2 & HL2 & HR2 & H2).
    + rewrite length_app in W' |- *. exact W'.
    + by rewrite HL1.
    + by rewrite <- app_assoc.
    + done.
    + cbn in Hf; lia.
    + exists itr2, pos2, P2, cs2, s2. split; [exact E2|]. split; [done|]. split; [by eapply calm_trans; [|eapply calm_trans]|].
      split; [by rewrite HL2|]. split; [by rewrite HR2, <- app_assoc|]. intros i Hi. by rewrite H2, H1.
Qed.
End loops.

(** ** The operations *)

(** A key's first cell, in a table of [n] blocks. *)
Definition start_of (n : nat) (h : Z) : nat :=
  (Z.to_nat (h mod Z.of_nat n) * width + Z.to_nat (h mod BlockArraySize))%nat.

Lemma start_lt n h : (0 < n)%nat → (start_of n h < n * width)%nat.
Proof.
  intros Hn. unfold start_of. assert (HW : width = 252%nat) by reflexivity. assert (HBA : BlockArraySize = 252) by reflexivity.
  pose proof (Z.mod_pos_bound h (Z.of_nat n)). pose proof (Z.mod_pos_bound h BlockArraySize).
  assert (Z.to_nat (h mod Z.of_nat n) < n)%nat by lia. rewrite HW. nia.
Qed.

Section operations.
Variable murmur3 : list byte → list byte.
Context {R : Type} `{Replacer R}.
Implicit Types (s : Store R) (ht : LinearProbeHashTable R).

Lemma hash_run key : 4 ≤ zlen (murmur3 key) → ∃ h, hash murmur3 key = Ok h ∧ in_u32 h.
Proof.
  intros Hk. unfold hash. exists (read_le 4 (murmur3 key)). rewrite (proj2 (Z.leb_le _ _)) by done. split; [done|].
  exact (read_le_range 4 _).
Qed.

(** What the operations share: the loop runs at the key's first cell, the pins are
    given back. *)
Lemma walk_run {A} (loop : Z → Z → Z → hashTableIterator → Prelude.st (Store R) (hashTableIterator * A))
    (Q : gmap Z (list byte) → list cell → A → Prop) n Dl P pins hid ids cs key h s :
  hash murmur3 key = Ok h → shows s n (MkView P pins Dl ∅) → table_pages P hid ids cs →
  pins_pos pins → frames_for 2 n pins → (hid ∉ Dl) ∧ (∀ b, b ∈ ids → b ∉ Dl) →
  (∀ itr s1, let p0 := start_of (length ids) h in
     walking n Dl P pins hid ids cs itr ((p0 + length ([] : list cell)) mod length cs)%nat s1 → (p0 < length cs)%nat →
     ∃ itr' pos P' cs' x s2, loop h (h mod Z.of_nat (length ids)) (h mod BlockArraySize) itr s1 = Ok ((itr', x), s2) ∧
       walking n Dl P' pins hid ids cs' itr' pos s2 ∧ calm s1 s2 ∧ Q P' cs' x) →
  ∃ P' cs' x s', walk murmur3 hid key loop s = Ok (x, s') ∧ shows s' n (MkView P' pins Dl ∅) ∧
    table_pages P' hid ids cs' ∧ calm s s' ∧ Q P' cs' x.
Proof.
  intros Hk S T HPp HFr HCl HLoop. pose proof (table_length _ _ _ _ T) as HN. pose proof T as [(hd & Hhd & HH) Hne _ _].
  assert (HN0 : (0 < length ids)%nat) by (destruct ids; [done|cbn; lia]).
  pose proof (start_lt (length ids) h HN0) as Hst. rewrite <- HN in Hst.
  assert (HBA : 0 ≤ h mod BlockArraySize < BlockArraySize) by (by apply Z.mod_pos_bound).
  assert (Hmod : 0 ≤ h mod Z.of_nat (length ids) < Z.of_nat (length ids)) by (apply Z.mod_pos_bound; lia).
  unfold walk. destruct (fetch_data_run s n Dl P pins hid hd S Hhd) as (ph & s1 & E1 & S1 & Hh1 & HK1 & C1);
    [by apply (frames_room 2); [lia|]|]. rewrite (st_bind_run _ _ _ _ _ E1).
  assert (EH : st_lift (hash murmur3 key) s1 = Ok (h, s1)) by (unfold st_lift; by rewrite Hk).
  rewrite (st_bind_run _ _ _ _ _ EH).
  assert (EN : page_data ph (λ d, Ok (NumBlocks d)) s1 = Ok (Z.of_nat (length ids), s1)).
  { eapply page_data_run; [exact S1|exact Hh1|exact Hhd|]. by rewrite (hd_num _ _ _ HH). }
  rewrite (st_bind_run _ _ _ _ _ EN).
  assert (EG : st_lift (guard_res (negb (Z.of_nat (length ids) =? 0))) s1 = Ok (tt, s1))
    by (rewrite (proj2 (Z.eqb_neq _ _)) by lia; done).
  rewrite (st_bind_run _ _ _ _ _ EG).
  destruct (lookup_lt_is_Some_2 ids (Z.to_nat (h mod Z.of_nat (length ids))) ltac:(lia)) as [bid Hbid].
  assert (EB : page_data ph (GetBlockPageId (h mod Z.of_nat (length ids))) s1 = Ok (bid, s1)).
  { eapply page_data_run; [exact S1|exact Hh1|exact Hhd|].
    rewrite <- (Z2Nat.id (h mod Z.of_nat (length ids))) by lia. by apply (hd_ids _ _ _ HH). }
  destruct (table_block _ _ _ _ _ _ T Hbid) as (d & HPd & _).
  destruct (fetch_data_run s1 n Dl P (pinned_by pins hid) bid d S1 HPd) as (pb & s2 & E2 & S2 & Hb2 & HK2 & C2);
    [by apply pinned_room|].
  set (itr := MkHashIterator ph (h mod Z.of_nat (length ids)) (h mod BlockArraySize) bid pb).
  assert (EI : newHashTableIterator ph (h mod Z.of_nat (length ids)) (h mod BlockArraySize) s1 = Ok (itr, s2)).
  { unfold newHashTableIterator. rewrite (st_bind_run _ _ _ _ _ EB). by rewrite (st_bind_run _ _ _ _ _ E2). }
  rewrite (st_bind_run _ _ _ _ _ EI).
  destruct (HLoop itr s2) as (itr' & pos & P' & cs' & x & s3 & E3 & W3 & C3 & HQ); [|done|].
  { split; cbn [headerPage bucket offset blockId blockPage itr]; try done.
    - split; [lia|done].
    - cbn [length]. rewrite Nat.add_0_r, Nat.mod_small by done. done.
    - exists ∅. rewrite (left_id_L ∅ _). split; [set_solver|exact S2].
    - apply HK2; [apply pinned_by_hit|done]. }
  rewrite (st_bind_run _ _ _ _ _ E3). cbn [fst snd]. destruct W3 as [T3 [_ HB3] _ _ (D & HD & S3) [HEh HEb] _ _].
  destruct (unpin_data_run s3 n Dl P' (pinned_by pins hid) D (blockId itr') true S3) as (s4 & E4 & S4 & _ & C4);
    [by apply pinned_pos|done|by left|by eapply HEb, list_elem_of_lookup_2|]. rewrite (st_bind_run _ _ _ _ _ E4).
  destruct (unpin_data_run s4 n Dl P' pins ∅ hid false) as (s5 & E5 & S5 & _ & C5); [by rewrite (left_id_L ∅ _)|done|set_solver|by right|done|].
  rewrite (st_bind_run _ _ _ _ _ E5).
  exists P', cs', x, s5. split; [done|]. split; [done|]. split; [done|]. split; [|done].
  eapply calm_trans; [exact C1|]. eapply calm_trans; [exact C2|]. eapply calm_trans; [exact C3|].
  by eapply calm_trans.
Qed.

(** *** The table as a multimap *)

(** The table shows the cells [cs] of its pages, its latch is free. *)
Record table_is ht (n : nat) (P : gmap Z (list byte)) (pins : gmap Z Z) (ids : list Z) (cs : list cell) : Prop := {
  ti_shows : shows (hstore ht) n (MkView P pins ∅ ∅);
  ti_pages : table_pages P (headerPageId ht) ids cs;
  ti_ok : table_ok (start_of (length ids)) cs;
  ti_latch : table_latch ht = NewRWLatch;
  ti_pins : pins_pos pins;
  ti_frames : frames_for 2 n pins
}.

(** Nothing outside the blocks has changed. *)
Definition only_blocks (ids : list Z) (P P' : gmap Z (list byte)) : Prop := ∀ i, i ∉ ids → P' !! i = P !! i.

Lemma table_latched_run {A} (lock unlock : Latch → res Latch) (m : Z → Prelude.st (Store R) A) l s hid x s' :
  lock NewRWLatch = Ok l → unlock l = Ok NewRWLatch → m hid s = Ok (x, s') →
  (_ ← on_table_latch lock; ht ← st_get; r ← on_table (m (headerPageId ht)); _ ← on_table_latch unlock; mret r)
    (MkHashTable s NewRWLatch hid) = Ok (x, MkHashTable s' NewRWLatch hid).
Proof.
  intros EL EU E. unfold on_table_latch, on_table, zoom, st_get, mbind, st_mbind. cbn. rewrite EL. cbn. rewrite E. cbn. by rewrite EU.
Qed.

Lemma first_cell P hid ids cs h : table_pages P hid ids cs → (0 < length cs)%nat →
  0 ≤ h mod Z.of_nat (length ids) ∧ 0 ≤ h mod BlockArraySize < BlockArraySize ∧ rot (start_of (length ids) h) cs ≠ [].
Proof.
  intros [_ Hne _ _] HL. split; [apply Z.mod_pos_bound; destruct ids; [done|cbn; lia]|].
  split; [by apply Z.mod_pos_bound|]. intros E. apply (f_equal length) in E. rewrite rot_length in E. cbn in E. lia.
Qed.

Lemma nothing_clean hid (ids : list Z) : (hid ∉ (∅ : gset Z)) ∧ ∀ b, b ∈ ids → b ∉ (∅ : gset Z).
Proof. split; [|intros b _]; apply not_elem_of_empty. Qed.

(** A lookup changes nothing, also where others have pages they have changed. *)
Lemma GetValue_leaky s n Dl P pins hid ids cs key h fuel :
  shows s n (MkView P pins Dl ∅) → table_pages P hid ids cs → table_ok (start_of (length ids)) cs →
  pins_pos pins → frames_for 2 n pins → (hid ∉ Dl) ∧ (∀ b, b ∈ ids → b ∉ Dl) →
  hash murmur3 key = Ok h → (length cs ≤ fuel)%nat →
  ∃ s', GetValue murmur3 fuel key (MkHashTable s NewRWLatch hid) =
      Ok (values_in h (rot (start_of (length ids) h) cs), MkHashTable s' NewRWLatch hid) ∧
    shows s' n (MkView P pins Dl ∅) ∧ calm s s'.
Proof.
  intros S T HO HPp HFr HCl Hk Hf. assert (Hl : (0 < length cs)%nat) by (pose proof (ok_start _ _ HO h); lia).
  destruct (first_cell _ _ _ _ h T Hl) as (Hb & Ho & Hne).
  destruct (walk_run (λ h b0 o0 itr, get_walk fuel h b0 o0 itr [])
    (λ P' cs' x, P' = P ∧ cs' = cs ∧ x = values_in h (rot (start_of (length ids) h) cs)) n Dl P pins hid ids cs key h s Hk S T HPp HFr HCl)
    as (P' & cs' & x & s' & E & S' & T' & C & -> & -> & ->).
  { intros itr s1 p0 W Hp.
    destruct (get_walk_run n Dl pins hid ids _ _ p0 HPp HFr Hb Ho eq_refl h P cs (rot p0 cs) [] fuel itr [] s1 W Hp)
      as (itr' & pos & s2 & E & W2 & C); [done|done|by rewrite rot_length|].
    exists itr', pos, P, cs, (values_in h (rot p0 cs)), s2. done. }
  exists s'. split; [|done]. apply (table_latched_run RLock RUnlock (λ hid, walk murmur3 hid key _) _ _ _ _ _ eq_refl eq_refl E).
Qed.

Lemma GetValue_run ht n P pins ids cs key h fuel :
  table_is ht n P pins ids cs → hash murmur3 key = Ok h → (length cs ≤ fuel)%nat →
  ∃ ht', GetValue murmur3 fuel key ht = Ok (values_in h (rot (start_of (length ids) h) cs), ht') ∧
    table_is ht' n P pins ids cs ∧ headerPageId ht' = headerPageId ht ∧ calm (hstore ht) (hstore ht').
Proof.
  intros [S T HO HLt HPp HFr] Hk Hf. destruct ht as [s l hid]. cbn in S, T, HLt. subst l.
  destruct (GetValue_leaky s n ∅ P pins hid ids cs key h fuel S T HO HPp HFr (nothing_clean _ _) Hk Hf) as (s' & E & S' & C).
  exists (MkHashTable s' NewRWLatch hid). by split; [|split; [split|]].
Qed.

Lemma Insert_run ht n P pins ids cs key h v fuel :
  table_is ht n P pins ids cs → hash murmur3 key = Ok h → in_u32 h → in_u32 v → (length cs ≤ fuel)%nat →
  let x := probe v (rot (start_of (length ids) h) cs) in
  let cs' := inserted (start_of (length ids) h) h v x 0 cs in
  ∃ P' ht', Insert murmur3 fuel key v ht = Ok (refused x, ht') ∧
    table_is ht' n P' pins ids cs' ∧ headerPageId ht' = headerPageId ht ∧ calm (hstore ht) (hstore ht') ∧ only_blocks ids P P'.
Proof.
  intros [S T HO HLt HPp HFr] Hk Hh Hv Hf x cs'. destruct ht as [s l hid]. cbn in S, T, HLt. subst l.
  assert (Hl : (0 < length cs)%nat) by (pose proof (ok_start _ _ HO h); lia).
  destruct (first_cell _ _ _ _ h T Hl) as (Hb & Ho & Hne).
  destruct (walk_run (λ h b0 o0 itr, insert_walk fuel h v b0 o0 itr)
    (λ P' c b, only_blocks ids P P' ∧ c = cs' ∧ b = refused x) n ∅ P pins hid ids cs key h s Hk S T HPp HFr (nothing_clean _ _))
    as (P' & c & b & s' & E & S' & T' & C & HB & -> & ->).
  { intros itr s1 p0 W Hp.
    destruct (insert_walk_run n ∅ pins hid ids _ _ p0 HPp HFr Hb Ho eq_refl h v P cs (rot p0 cs) [] fuel itr s1 W Hp)
      as (itr' & pos & P' & s2 & E & W2 & C & HB); [done|done|by rewrite rot_length|done|done|].
    exists itr', pos, P', cs', (refused x), s2. done. }
  exists P', (MkHashTable s' NewRWLatch hid). split.
  - apply (table_latched_run WLock WUnlock (λ hid, walk murmur3 hid key _) _ _ _ _ _ eq_refl eq_refl E).
  - split; [|by split; [|split]]. split; try done.
    unfold cs', x. destruct (probe v _) as [|j|] eqn:Ex; try done. cbn [inserted]. rewrite Nat.add_0_l.
    by apply insert_ok.
Qed.

Lemma Remove_run ht n P pins ids cs key h v fuel :
  table_is ht n P pins ids cs → hash murmur3 key = Ok h → (length cs ≤ fuel)%nat →
  ∃ P' cs' ht', Remove murmur3 fuel key v ht = Ok (tt, ht') ∧
    table_is ht' n P' pins ids cs' ∧ headerPageId ht' = headerPageId ht ∧ calm (hstore ht) (hstore ht') ∧ only_blocks ids P P' ∧
    length cs' = length cs ∧ rot (start_of (length ids) h) cs' = removed h v (rot (start_of (length ids) h) cs).
Proof.
  intros [S T HO HLt HPp HFr] Hk Hf. destruct ht as [s l hid]. cbn in S, T, HLt. subst l.
  assert (Hl : (0 < length cs)%nat) by (pose proof (ok_start _ _ HO h); lia).
  destruct (first_cell _ _ _ _ h T Hl) as (Hb & Ho & Hne).
  destruct (walk_run (λ h b0 o0 itr, itr' ← remove_walk fuel h v b0 o0 itr; mret (itr', tt))
    (λ P' c _, only_blocks ids P P' ∧ length c = length cs ∧
       rot (start_of (length ids) h) c = removed h v (rot (start_of (length ids) h) cs)) n ∅ P pins hid ids cs key h s Hk S T HPp HFr (nothing_clean _ _))
    as (P' & c & [] & s' & E & S' & T' & C & HB & HL & HR).
  { intros itr s1 p0 W Hp.
    destruct (remove_walk_run n ∅ pins hid ids _ _ p0 HPp HFr Hb Ho eq_refl h v (rot p0 cs) P cs [] fuel itr s1 W Hp)
      as (itr' & pos & P' & c & s2 & E & W2 & C & HL & HR & HB); [done|done|by rewrite rot_length|].
    exists itr', pos, P', c, tt, s2. rewrite (st_bind_run _ _ _ _ _ E). done. }
  exists P', c, (MkHashTable s' NewRWLatch hid). split.
  - apply (table_latched_run WLock WUnlock (λ hid, walk murmur3 hid key _) _ _ _ _ _ eq_refl eq_refl E).
  - split; [|done]. split; try done. by apply (remove_ok _ cs c h v HO).
Qed.

(** *** The table as a multimap *)

(** What a table is to its users: the values under each hash, and the values whose
    cells are taken, those of removed entries included. *)
Record Multimap : Type := MkMultimap { mm_entries : list (Z * Z); mm_used : list Z }.

Inductive table_op : Type :=
  | OpGet (key : list byte)
  | OpInsert (key : list byte) (value : Z)
  | OpRemove (key : list byte) (value : Z).
Inductive answer : Type := Values (vs : list Z) | Refused (err : bool) | Removed.

Definition values_of (h : Z) (es : list (Z * Z)) : list Z := snd <$> List.filter (λ e, fst e =? h) es.
Definition without (h v : Z) (es : list (Z * Z)) : list (Z * Z) :=
  List.filter (λ e, negb ((fst e =? h) && (snd e =? v))) es.

(** One operation on a multimap of [cap] cells, with the hash of its key: an insert
    adds an entry, or is refused because the value has been inserted before, or is
    lost because no cell is free. *)
Inductive mm_step (cap : nat) : table_op → Z → Multimap → answer → Multimap → Prop :=
  | mm_get key h M vs : vs ≡ₚ values_of h (mm_entries M) → mm_step cap (OpGet key) h M (Values vs) M
  | mm_add key v h M : (length (mm_used M) < cap)%nat →
      mm_step cap (OpInsert key v) h M (Refused false) (MkMultimap ((h, v) :: mm_entries M) (v :: mm_used M))
  | mm_refuse key v h M : v ∈ mm_used M → mm_step cap (OpInsert key v) h M (Refused true) M
  | mm_lose key v h M : length (mm_used M) = cap → v ∉ mm_used M → mm_step cap (OpInsert key v) h M (Refused false) M
  | mm_remove key v h M :
      mm_step cap (OpRemove key v) h M Removed (MkMultimap (without h v (mm_entries M)) (mm_used M)).

Definition op_key (op : table_op) : list byte :=
  match op with OpGet k | OpInsert k _ | OpRemove k _ => k end.
Definition op_ok (op : table_op) : Prop := match op with OpInsert _ v => in_u32 v | _ => True end.

Definition do_op (fuel : nat) (op : table_op) : Prelude.st (LinearProbeHashTable R) answer :=
  match op with
  | OpGet k => vs ← GetValue murmur3 fuel k; mret (Values vs)
  | OpInsert k v => b ← Insert murmur3 fuel k v; mret (Refused b)
  | OpRemove k v => _ ← Remove murmur3 fuel k v; mret Removed
  end.
Fixpoint do_ops (fuel : nat) (ops : list table_op) : Prelude.st (LinearProbeHashTable R) (list answer) :=
  match ops with
  | [] => mret []
  | op :: ops' => a ← do_op fuel op; rest ← do_ops fuel ops'; mret (a :: rest)
  end.
Inductive mm_run (cap : nat) : list table_op → Multimap → list answer → Multimap → Prop :=
  | mm_nil M : mm_run cap [] M [] M
  | mm_cons op ops h M a M1 as' M2 : hash murmur3 (op_key op) = Ok h →
      mm_step cap op h M a M1 → mm_run cap ops M1 as' M2 → mm_run cap (op :: ops) M (a :: as') M2.

(** The table holds the multimap. *)
Record holds ht (n : nat) (P : gmap Z (list byte)) (pins : gmap Z Z) (ids : list Z) (M : Multimap) : Prop := {
  ho_cells : ∃ cs, table_is ht n P pins ids cs ∧ entries cs ≡ₚ mm_entries M ∧ used cs ≡ₚ mm_used M
}.
Definition capacity (ids : list Z) : nat := (length ids * width)%nat.

Lemma perm_values h es es' : es ≡ₚ es' → values_of h es ≡ₚ values_of h es'.
Proof. intros HP. unfold values_of. by apply Permutation_map, filter_bool_perm. Qed.

Hypothesis murmur3_size : ∀ key, zlen (murmur3 key) = 16.

Lemma do_op_refines op ht n P pins ids M fuel :
  holds ht n P pins ids M → op_ok op → (capacity ids ≤ fuel)%nat →
  ∃ h a M' P' ht', hash murmur3 (op_key op) = Ok h ∧ do_op fuel op ht = Ok (a, ht') ∧
    mm_step (capacity ids) op h M a M' ∧ holds ht' n P' pins ids M' ∧
    headerPageId ht' = headerPageId ht ∧ calm (hstore ht) (hstore ht') ∧ only_blocks ids P P'.
Proof.
  intros [(cs & HT & HE & HU)] Hop Hf.
  assert (HL : length cs = capacity ids) by (eapply table_length, (ti_pages _ _ _ _ _ _ HT)).
  destruct (hash_run (op_key op)) as (h & Hk & Hh); [rewrite murmur3_size; lia|]. exists h. rewrite <- HL in Hf |- *.
  assert (HO := ti_ok _ _ _ _ _ _ HT). destruct op as [key|key v|key v]; cbn [op_key op_ok do_op] in *.
  - destruct (GetValue_run ht n P pins ids cs key h fuel HT Hk Hf) as (ht' & E & HT' & HI & HC).
    exists (Values (values_in h (rot (start_of (length ids) h) cs))), M, P, ht'.
    rewrite (st_bind_run _ _ _ _ _ E). split; [done|]. split; [done|]. split; [|split; [by constructor; exists cs|done]].
    constructor. rewrite (values_found (start_of (length ids))) by done. by apply perm_values.
  - destruct (Insert_run ht n P pins ids cs key h v fuel HT Hk Hh Hop Hf) as (P' & ht' & E & HT' & HI & HC & HB).
    set (x := probe v _) in *. exists (Refused (refused x)). rewrite (st_bind_run _ _ _ _ _ E).
    destruct x as [|j|] eqn:Ex; cbn [refused inserted] in *.
    + exists M, P', ht'. split; [done|]. split; [done|]. split; [|split; [by constructor; exists cs|done]].
      constructor. rewrite <- HU. by eapply duplicate_used.
    + exists (MkMultimap ((h, v) :: mm_entries M) (v :: mm_used M)), P', ht'. split; [done|]. split; [done|].
      destruct (insert_ok _ _ h v j HO Ex) as [_ HE']. destruct (probe_free _ _ _ Ex) as [(c & Hj & Hc) _].
      assert (HjL : (j < length cs)%nat) by (apply lookup_lt_Some in Hj; by rewrite rot_length in Hj).
      rewrite rot_lookup in Hj by (done || apply HO). rewrite Nat.add_0_l in HT'.
      pose proof (used_insert cs _ c (MkCell true true h v) Hj Hc eq_refl) as HU'.
      split.
      * constructor. rewrite <- HU. pose proof (used_le (<[((start_of (length ids) h + j) mod length cs)%nat := MkCell true true h v]> cs)) as HLe.
        rewrite HU', length_insert in HLe. cbn in HLe. lia.
      * split; [|done]. constructor. eexists. split; [exact HT'|]. cbn. by rewrite HE', HE, HU', HU.
    + exists M, P', ht'. split; [done|]. split; [done|]. split; [|split; [by constructor; exists cs|done]].
      destruct (full_used _ _ _ Ex). by constructor; rewrite <- HU.
  - destruct (Remove_run ht n P pins ids cs key h v fuel HT Hk Hf) as (P' & cs' & ht' & E & HT' & HI & HC & HB & HL' & HR).
    exists Removed, (MkMultimap (without h v (mm_entries M)) (mm_used M)), P', ht'.
    rewrite (st_bind_run _ _ _ _ _ E). split; [done|]. split; [done|]. split; [constructor|]. split; [|done].
    constructor. exists cs'. split; [exact HT'|]. destruct (remove_ok _ cs cs' h v HO HL' HR) as [_ HE'].
    assert (HS : Forall2 shrunk cs cs') by (apply (Forall2_rot _ (start_of (length ids) h)); [done|apply HO|rewrite HR; apply removed_shrunk]).
    cbn. rewrite HE', (used_shrunk _ _ HS). split; [|done]. by apply filter_bool_perm.
Qed.

Lemma do_ops_refines fuel ops : ∀ ht n P pins ids M,
  holds ht n P pins ids M → Forall op_ok ops → (capacity ids ≤ fuel)%nat →
  ∃ answers M' P' ht', do_ops fuel ops ht = Ok (answers, ht') ∧
    mm_run (capacity ids) ops M answers M' ∧ holds ht' n P' pins ids M' ∧ only_blocks ids P P'.
Proof.
  induction ops as [|op ops IH]; intros ht n P pins ids M HM HF Hf.
  - exists [], M, P, ht. split; [done|]. split; [constructor|]. by split.
  - apply Forall_cons in HF as [Hop HF].
    destruct (do_op_refines op ht n P pins ids M fuel HM Hop Hf) as (h & a & M1 & P1 & ht1 & Hk & E & HS & HM1 & _ & _ & HB).
    destruct (IH ht1 n P1 pins ids M1 HM1 HF Hf) as (as' & M2 & P2 & ht2 & E2 & HR & HM2 & HB2).
    exists (a :: as'), M2, P2, ht2. cbn [do_ops]. rewrite (st_bind_run _ _ _ _ _ E), (st_bind_run _ _ _ _ _ E2).
    split; [done|]. split; [by econstructor|]. split; [done|]. intros i Hi. by rewrite HB2, HB.
Qed.
End operations.

(** ** A new table *)
Section creation.
Context {R : Type} `{Replacer R}.
Implicit Types (s : Store R).

Abbreviation zero_page := (zeros (Z.to_nat PageSize)).

Lemma dirty_once (x : Z) : ({[x]} ∪ ({[x]} ∪ ({[x]} ∪ ∅)) : gset Z) = {[x]}.
Proof. set_solver. Qed.
Lemma dirty_left (x y : Z) : y ≠ x → (({[x]} ∪ ({[y]} ∪ {[x]})) ∖ {[y]} : gset Z) = {[x]}.
Proof. set_solver. Qed.
Lemma dirty_none (x : Z) : ({[x]} ∖ {[x]} : gset Z) = ∅.
Proof. set_solver. Qed.

Lemma fresh_unpin n P pins D pid s :
  shows s n (MkView P (<[pid := 1]> pins) D ∅) → pins !! pid = None →
  ∃ s', UnpinPage pid true s = Ok (true, s') ∧ shows s' n (MkView P pins (D ∖ {[pid]}) ∅) ∧
    (∀ i q, is_Some (pins !! i) → held s i q → held s' i q) ∧ calm s s'.
Proof.
  intros S HN. destruct (shows_unpin s n _ pid true S) as (s' & E & S' & HK & L & N & _).
  { cbn. by rewrite lookup_insert_eq. }
  { by left. }
  exists s'. split; [done|]. split; [|split; [|split; [done|by rewrite N]]].
  - unfold vunpin, vpin_count in S'. cbn in S'. rewrite lookup_insert_eq in S'. cbn in S'.
    rewrite delete_insert_id in S' by done. exact S'.
  - intros i q Hi. apply HK. cbn. apply lookup_insert_is_Some'. by right.
Qed.

(** The blocks made so far, behind the pinned header. *)
Record making (n : nat) (P0 P : gmap Z (list byte)) (pins : gmap Z Z) (hid : Z) (ids : list Z) (header : ptr) s : Prop := {
  mk_shows : shows s n (MkView P (<[hid := 1]> pins) {[hid]} ∅);
  mk_free : pins !! hid = None;
  mk_held : held s hid header;
  mk_header : ∃ hd, P !! hid = Some hd ∧ header_is hd hid ids;
  mk_nodup : NoDup (hid :: ids);
  mk_next : nextPageID (diskManager s) = hid + 1 + Z.of_nat (length ids);
  mk_blocks : Forall (λ b, P !! b = Some zero_page) ids;
  mk_kept : ∀ i d, P0 !! i = Some d → P !! i = Some d;
  mk_fresh : Forall (λ b, P0 !! b = None) ids
}.

Lemma add_blocks_run n P0 pins hid header k : ∀ s P ids,
  making n P0 P pins hid ids header s → (base.size pins + 2 ≤ n)%nat → (length ids + k ≤ 1016)%nat →
  (∀ i, hid ≤ i ≤ hid + Z.of_nat (length ids + k) → page_in_range i ∧ in_i32 i) → (∀ i, P0 !! hid = Some i → False) →
  ∃ s' P' ids', add_blocks k header s = Ok (tt, s') ∧ making n P0 P' pins hid ids' header s' ∧
    length ids' = (length ids + k)%nat ∧ log_same s s'.
Proof.
  induction k as [|k IH]; intros s P ids [S HF Hh (hd & Hhd & HH) ND HNx HB HK HFr] HS HL HR H0.
  { exists s, P, ids. split; [done|]. split; [by split; try done; exists hd|]. split; [lia|apply log_same_refl]. }
  set (np := nextPageID (diskManager s)) in *. assert (Hnp : np = hid + 1 + Z.of_nat (length ids)) by done.
  destruct (HR np) as [HRn HIn]; [lia|]. cbn [add_blocks].
  destruct (unused_page s n _ np S) as (HPn & HPin & _); [done|]. cbn in HPn, HPin.
  assert (Hne : np ≠ hid) by lia. rewrite lookup_insert_ne in HPin by done.
  destruct (shows_new s n _ S) as (p & s1 & E1 & S1 & Hp1 & HK1 & L1 & N1 & HO1); [|by intros i [l Hl]; cbn in Hl; rewrite lookup_empty in Hl|done|].
  { cbn. rewrite map_size_insert_None by done. lia. }
  fold np in S1, Hp1, N1, HO1. unfold new_data.
  assert (ED : (o ← NewPage; st_lift (deref o)) s = Ok (p, s1)) by (rewrite (st_bind_run _ _ _ _ _ E1); done).
  rewrite (st_bind_run _ _ _ _ _ ED).
  rewrite (st_bind_run _ _ _ _ _ (read_page_run _ _ _ HO1)). cbn [id NewEmpty].
  assert (Hh1 : held s1 hid header) by (apply HK1; [cbn; by rewrite lookup_insert_eq|done]).
  destruct (AddBlockPageId_run np hd hid ids HH ltac:(lia) HIn) as (hd' & EA & HH').
  unfold vnew in S1. cbn [vpages vpins vdirty vlatches] in S1.
  destruct (page_put_run s1 n _ _ _ hid header hd (AddBlockPageId np) hd' S1) as (s2 & E2 & S2 & HK2 & C2);
    [rewrite lookup_insert_ne by done; by rewrite lookup_insert_eq|done|by rewrite lookup_insert_ne by done|done| |].
  { pose proof (hd_len _ _ _ HH). pose proof (hd_len _ _ _ HH'). unfold zlen in *. lia. }
  rewrite (st_bind_run _ _ _ _ _ E2).
  destruct (fresh_unpin n _ _ _ np s2 S2) as (s3 & E3 & S3 & HK3 & C3); [by rewrite lookup_insert_ne by done|].
  rewrite (st_bind_run _ _ _ _ _ E3).
  rewrite (dirty_left hid np Hne) in S3.
  set (P1 := <[hid := hd']> (<[np := zero_page]> P)) in *.
  assert (Hni : np ∉ hid :: ids).
  { intros Hin. apply elem_of_cons in Hin as [Hin|Hin]; [done|]. rewrite Forall_forall in HB. rewrite (HB _ Hin) in HPn. done. }
  destruct (IH s3 P1 (ids ++ [np])) as (s' & P' & ids' & E' & M' & HL' & LS').
  - split; try done.
    + apply HK3; [by rewrite lookup_insert_eq|]. by apply HK2.
    + exists hd'. split; [|done]. unfold P1. by rewrite lookup_insert_eq.
    + rewrite app_comm_cons. apply NoDup_app. split; [done|]. split; [|apply NoDup_singleton].
      intros x Hx Hx'. apply list_elem_of_singleton in Hx' as ->. done.
    + destruct C2 as [_ C2], C3 as [_ C3]. rewrite C3, C2, N1, length_app. cbn. lia.
    + apply NoDup_cons in ND as [Hnin _]. apply Forall_app. split.
      * eapply Forall_impl; [apply Forall_and; split; [exact HB|apply (list.Forall_forall (λ b, b ∈ ids) ids); by intros]|].
        cbn. intros b [Hb Hbin]. unfold P1. rewrite lookup_insert_ne by (by intros ->). by rewrite lookup_insert_ne by congruence.
      * constructor; [|done]. unfold P1. rewrite lookup_insert_ne by done. by rewrite lookup_insert_eq.
    + intros i d Hi. unfold P1. rewrite lookup_insert_ne by (intros <-; by eapply H0). rewrite lookup_insert_ne; [by apply HK|].
      intros <-. rewrite (HK _ _ Hi) in HPn. done.
    + apply Forall_app. split; [done|]. constructor; [|done]. destruct (P0 !! np) as [d|] eqn:E0; [|done].
      rewrite (HK _ _ E0) in HPn. done.
  - done.
  - rewrite length_app. cbn. lia.
  - rewrite length_app. cbn. intros i Hi. apply HR. lia.
  - done.
  - exists s', P', ids'. split; [done|]. split; [done|]. split; [rewrite HL', length_app; cbn; lia|].
    eapply log_same_trans; [exact L1|]. eapply log_same_trans; [apply C2|]. eapply log_same_trans; [apply C3|done].
Qed.

(** The header page that [NewLinearProbeHashTable] starts from. *)
Lemma new_header_run s n P pins k :
  shows s n (MkView P pins ∅ ∅) → (base.size pins + 2 ≤ n)%nat →
  let hid := nextPageID (diskManager s) in page_in_range hid → in_i32 hid →
  ∃ header s1 s3 P1, new_data s = Ok (header, s1) ∧ (pg ← read_page header; mret (id pg)) s1 = Ok (hid, s1) ∧
    (_ ← page_put header (λ d, Ok (header_SetPageId hid d)); page_put header (λ d, Ok (header_SetSize k d))) s1 = Ok (tt, s3) ∧
    making n P P1 pins hid [] header s3 ∧ log_same s s3.
Proof.
  intros S HS hid HR HI. destruct (unused_page s n _ hid S) as (HPn & HPin & _); [done|]. cbn in HPn, HPin.
  destruct (shows_new s n _ S) as (p & s1 & E1 & S1 & Hp1 & HK1 & L1 & N1 & HO1); [cbn; lia|by intros i [l Hl]; cbn in Hl; rewrite lookup_empty in Hl|done|].
  fold hid in S1, Hp1, N1, HO1. unfold vnew in S1. cbn [vpages vpins vdirty vlatches] in S1.
  set (d0 := zero_page) in *. pose proof (header_init hid k HI) as HH. fold d0 in HH.
  assert (L0 : zlen d0 = PageSize) by (vm_compute; reflexivity).
  assert (LA : length (header_SetPageId hid d0) = length d0).
  { assert (zlen (header_SetPageId hid d0) = zlen d0); [|unfold zlen in *; lia].
    unfold header_SetPageId. rewrite zput_len; [done|hlia|]. change (zlen (le_bytes 4 (u32 hid))) with 4. hlia. }
  destruct (page_put_run s1 n _ _ _ hid p d0 (λ d, Ok (header_SetPageId hid d)) (header_SetPageId hid d0) S1)
    as (s2 & E2 & S2 & HK2 & C2); [by rewrite lookup_insert_eq|done|by rewrite lookup_insert_eq|done|done|].
  destruct (page_put_run s2 n _ _ _ hid p (header_SetPageId hid d0) (λ d, Ok (header_SetSize k d)) (header_SetSize k (header_SetPageId hid d0)) S2)
    as (s3 & E3 & S3 & HK3 & C3); [by rewrite lookup_insert_eq|by apply HK2|by rewrite lookup_insert_eq|done| |].
  { pose proof (hd_len _ _ _ HH). unfold zlen in *. rewrite LA. lia. }
  rewrite dirty_once in S3.
  exists p, s1, s3. eexists. split; [unfold new_data; by rewrite (st_bind_run _ _ _ _ _ E1)|].
  split; [by rewrite (st_bind_run _ _ _ _ _ (read_page_run _ _ _ HO1))|].
  split; [by rewrite (st_bind_run _ _ _ _ _ E2)|]. split.
  - split; [exact S3|done|by apply HK3, HK2| |apply NoDup_singleton| |constructor| |constructor].
    + exists (header_SetSize k (header_SetPageId hid d0)). split; [by rewrite lookup_insert_eq|exact HH].
    + destruct C2 as [_ C2], C3 as [_ C3]. rewrite C3, C2, N1. cbn. lia.
    + intros i d Hi. rewrite !lookup_insert_ne by (intros <-; congruence). done.
  - eapply log_same_trans; [exact L1|]. eapply log_same_trans; [apply C2|apply C3].
Qed.

Lemma blank_page : blank (block_cells zero_page).
Proof. exact zero_cells. Qed.

Lemma join_blank (bss : list (list cell)) : Forall blank bss → blank (mjoin bss).
Proof.
  induction 1 as [|bs bss Hb _ IH]; [constructor|]. change (mjoin (bs :: bss)) with (bs ++ mjoin bss).
  apply Forall_app. by split.
Qed.

Lemma NewLinearProbeHashTable_run s n P pins k :
  shows s n (MkView P pins ∅ ∅) → pins_pos pins → frames_for 2 n pins → (0 < k ≤ 1016)%nat →
  let hid := nextPageID (diskManager s) in
  (∀ i, hid ≤ i ≤ hid + Z.of_nat k → page_in_range i ∧ in_i32 i) →
  ∃ s' P' ids, NewLinearProbeHashTable k s = Ok (hid, s') ∧ length ids = k ∧ log_same s s' ∧
    holds (MkHashTable s' NewRWLatch hid) n P' pins ids (MkMultimap [] []) ∧
    (∀ i d, P !! i = Some d → P' !! i = Some d) ∧ Forall (λ b, P !! b = None) ids.
Proof.
  intros S HPp HFr Hk hid HR.
  destruct (unused_page s n _ hid S) as (HPn & HPin & _); [done|]. cbn in HPn, HPin.
  destruct (new_header_run s n P pins (Z.of_nat k * BlockArraySize) S) as (p & s1 & s3 & P1 & E1 & E2 & E3 & M3 & L3);
    [apply HFr|apply HR; lia|apply HR; lia|]. fold hid in E2, E3, M3.
  destruct (add_blocks_run n P pins hid p k s3 P1 [] M3) as (s4 & P4 & ids & E4 & [S4 HF4 Hh4 (hd & Hhd & HH) ND4 HN4 HB4 HK4 HFr4] & HL4 & L4);
    [apply HFr|cbn; lia|done|congruence|].
  destruct (fresh_unpin n _ _ _ hid s4 S4 HF4) as (s5 & E5 & S5 & HK5 & C5).
  rewrite dirty_none in S5.
  exists s5, P4, ids. cbn in HL4. split; [|split; [done|split; [|split; [|done]]]].
  - unfold NewLinearProbeHashTable. rewrite (st_bind_run _ _ _ _ _ E1).
    unfold mbind, st_mbind in E2, E3. unfold mbind at 1, st_mbind at 1.
    destruct (read_page p s1) as [[pg s1']| | |] eqn:ER; try done. cbn in E2. injection E2 as EI ->. rewrite EI.
    unfold mbind at 1, st_mbind at 1. destruct (page_put p _ s1) as [[[] s2]| | |] eqn:EP; try done.
    rewrite (st_bind_run _ _ _ _ _ E3), (st_bind_run _ _ _ _ _ E4), (st_bind_run _ _ _ _ _ E5). done.
  - eapply log_same_trans; [exact L3|]. by eapply log_same_trans; [|apply C5].
  - set (bss := replicate k (block_cells zero_page)).
    assert (HBl : blank (mjoin bss)).
    { apply join_blank, Forall_replicate, blank_page. }
    assert (HF2 : Forall2 (λ b bs, ∃ d, P4 !! b = Some d ∧ zlen d = PageSize ∧ block_cells d = bs) ids bss).
    { apply Forall2_same_length_lookup_2; [unfold bss; by rewrite length_replicate|]. intros i b bs Hi Hb.
      apply lookup_replicate in Hb as [-> _]. exists zero_page. split; [|split; [vm_compute; reflexivity|done]].
      rewrite Forall_forall in HB4. apply HB4. by eapply list_elem_of_lookup_2. }
    assert (HT : table_pages P4 hid ids (mjoin bss)).
    { split; [by exists hd|intros ->; cbn in HL4; lia|done|by exists bss]. }
    constructor. exists (mjoin bss). split; [|cbn; by rewrite blank_entries, blank_used by done].
    split; try done. apply blank_ok; [done|]. intros h. rewrite (table_length _ _ _ _ HT). apply start_lt. lia.
Qed.
End creation.

(** ** The theorems *)

Lemma fresh_blocks_kept (P P1 P2 : gmap Z (list byte)) ids :
  (∀ i d, P !! i = Some d → P1 !! i = Some d) → Forall (λ b, P !! b = None) ids → only_blocks ids P1 P2 →
  ∀ i d, P !! i = Some d → P2 !! i = Some d.
Proof.
  intros HK HF HB i d Hi. rewrite HB; [by apply HK|]. intros Hin. rewrite Forall_forall in HF. by rewrite HF in Hi.
Qed.

(** C17: A hash table is a multimap. A new table of [k] blocks and any sequence of lookups,
    inserts and removals on it run to the end, each walk within [252 * k] cells; the
    answers are those of a multimap that starts empty: a lookup finds the values
    under the hash of the key, each as often as it was added; an insert adds its
    pair unless its value was inserted before or no cell is free; a removal takes
    all copies of its pair.  Other pages keep their bytes, and every pin is given
    back. *)
Theorem hash_table_is_multimap (murmur3 : list byte → list byte) {R : Type} `{Replacer R} (s : Store R) n P pins k ops fuel :
  (∀ key, zlen (murmur3 key) = 16) →
  shows s n (quiet P pins) → pins_pos pins → frames_for 2 n pins → (0 < k ≤ 1016)%nat →
  (∀ i, nextPageID (diskManager s) ≤ i ≤ nextPageID (diskManager s) + Z.of_nat k → page_in_range i ∧ in_i32 i) →
  Forall op_ok ops → (k * 252 ≤ fuel)%nat →
  ∃ hid s1 answers M ht P', NewLinearProbeHashTable k s = Ok (hid, s1) ∧
    do_ops murmur3 fuel ops (MkHashTable s1 NewRWLatch hid) = Ok (answers, ht) ∧
    mm_run murmur3 (k * 252) ops (MkMultimap [] []) answers M ∧
    shows (hstore ht) n (quiet P' pins) ∧ table_latch ht = NewRWLatch ∧
    ∀ i d, P !! i = Some d → P' !! i = Some d.
Proof.
  intros Hm S HPp HFr Hk HR HF Hf.
  destruct (NewLinearProbeHashTable_run s n P pins k S HPp HFr Hk HR) as (s1 & P1 & ids & E & HL & L & HM & HK & HFresh).
  assert (HC : capacity ids = (k * 252)%nat) by (unfold capacity; by rewrite HL). rewrite <- HC in Hf |- *.
  destruct (do_ops_refines murmur3 Hm fuel ops _ n P1 pins ids _ HM HF Hf) as (answers & M & P2 & ht & E2 & HRun & [(cs & HT & _)] & HB).
  exists (nextPageID (diskManager s)), s1, answers, M, ht, P2. split; [done|]. split; [done|]. split; [done|].
  split; [apply HT|]. split; [apply HT|]. by eapply fresh_blocks_kept.
Qed.

(** A store with an empty disk, and 16 bytes made of a key. *)
Definition example_murmur3 (key : list byte) : list byte := take 16 (key ++ zeros 16).
Definition blank_store : Store ClockReplacer := new_store 2 (NewDiskManagerImpl [] []).
Definition example_key : list byte := [Byte.x0a; Byte.x0b].

Lemma example_murmur3_size key : zlen (example_murmur3 key) = 16.
Proof. unfold example_murmur3, zlen. rewrite length_take, length_app. change (length (zeros 16)) with 16%nat. lia. Qed.
Lemma blank_store_shows : shows blank_store 2 (quiet ∅ ∅).
Proof. apply (new_store_shows 2); [unfold in_u32; lia|vm_compute; reflexivity|vm_compute; discriminate]. Qed.
Lemma no_pins_room : pins_pos ∅ ∧ frames_for 2 2 ∅.
Proof. split; [done|]. split; [rewrite map_size_empty; lia|done]. Qed.
Lemma example_ids k : (k ≤ 1016)%nat →
  let p := nextPageID (diskManager blank_store) in ∀ i, p ≤ i ≤ p + Z.of_nat k → page_in_range i ∧ in_i32 i.
Proof. intros Hk p i. change p with 0. unfold page_in_range, in_i32. lia. Qed.

Lemma hash_table_is_multimap_witness :
  ∃ hid s1 ht M, NewLinearProbeHashTable 2 blank_store = Ok (hid, s1) ∧ 
    ∃ answers, do_ops example_murmur3 504 [OpInsert example_key 7; OpGet example_key] (MkHashTable s1 NewRWLatch hid) = Ok (answers, ht) ∧
      mm_run example_murmur3 504 [OpInsert example_key 7; OpGet example_key] (MkMultimap [] []) answers M.
Proof.
  destruct no_pins_room as [HP HF].
  destruct (hash_table_is_multimap example_murmur3 blank_store 2 ∅ ∅ 2 [OpInsert example_key 7; OpGet example_key] 504
    example_murmur3_size blank_store_shows HP HF) as (hid & s1 & answers & M & ht & P' & E & E2 & HR & _).
  - lia.
  - apply (example_ids 2). lia.
  - constructor; [unfold op_ok, in_u32; lia|]. constructor; [exact I|constructor].
  - lia.
  - exists hid, s1, ht, M. split; [exact E|]. exists answers. split; [exact E2|exact HR].
Defined.

(** C38: A pair that was removed cannot come back. In a table with a free cell, a value that
    was never inserted is inserted, removed, and inserted again under the same key:
    the second insert fails with the error for duplicates, and the lookup after
    it does not find the value. *)
Theorem removed_pair_is_refused (murmur3 : list byte → list byte) {R : Type} `{Replacer R} (ht : LinearProbeHashTable R)
    n P pins ids M key v fuel :
  (∀ key, zlen (murmur3 key) = 16) → holds ht n P pins ids M → in_u32 v → v ∉ mm_used M →
  (length (mm_used M) < capacity ids)%nat → (capacity ids ≤ fuel)%nat →
  ∃ vs ht', do_ops murmur3 fuel [OpInsert key v; OpRemove key v; OpInsert key v; OpGet key] ht =
      Ok ([Refused false; Removed; Refused true; Values vs], ht') ∧ v ∉ vs.
Proof.
  intros Hm [(cs & HT & HE & HU)] Hv Hnew HFree Hf.
  assert (HL : length cs = capacity ids) by (eapply table_length, (ti_pages _ _ _ _ _ _ HT)). rewrite <- HL in Hf, HFree.
  destruct (hash_run murmur3 key) as (h & Hk & Hh); [rewrite Hm; lia|]. set (p0 := start_of (length ids) h) in *.
  destruct (free_probe p0 v cs) as [j Hj]; [by rewrite HU|by rewrite HU|].
  assert (HO := ti_ok _ _ _ _ _ _ HT). assert (Hp := ok_start _ _ HO h). fold p0 in Hp.
  destruct (probe_free _ _ _ Hj) as [(c & Hjc & _) HPre]. apply lookup_lt_Some in Hjc. rewrite rot_length in Hjc.
  destruct (Insert_run murmur3 ht n P pins ids cs key h v fuel HT Hk Hh Hv Hf) as (P1 & ht1 & E1 & HT1 & _).
  fold p0 in E1, HT1. rewrite Hj in E1, HT1. cbn [refused inserted] in E1, HT1. rewrite Nat.add_0_l in HT1.
  set (cs1 := <[_ := _]> cs) in HT1. assert (HL1 : length cs1 = length cs) by apply length_insert.
  destruct (Remove_run murmur3 ht1 n P1 pins ids cs1 key h v fuel HT1 Hk ltac:(by rewrite HL1))
    as (P2 & cs2 & ht2 & E2 & HT2 & _ & _ & _ & HL2 & HR2). fold p0 in HR2.
  unfold cs1 in HR2. rewrite rot_insert in HR2 by done.
  assert (Hd : probe v (rot p0 cs2) = Duplicate) by (rewrite HR2; by apply probe_removed).
  destruct (Insert_run murmur3 ht2 n P2 pins ids cs2 key h v fuel HT2 Hk Hh Hv ltac:(by rewrite HL2, HL1)) as (P3 & ht3 & E3 & HT3 & _).
  fold p0 in E3, HT3. rewrite Hd in E3, HT3. cbn [refused inserted] in E3, HT3.
  destruct (GetValue_run murmur3 ht3 n P3 pins ids cs2 key h fuel HT3 Hk ltac:(by rewrite HL2, HL1)) as (ht4 & E4 & _).
  exists (values_in h (rot p0 cs2)), ht4. split.
  - cbn [do_ops do_op]. unfold mbind, st_mbind, mret, st_mret. by rewrite E1, E2, E3, E4.
  - assert (HO2 := ti_ok _ _ _ _ _ _ HT2).
    pose proof (values_found (start_of (length ids)) cs2 h HO2) as HV. fold p0 in HV. rewrite HV.
    destruct (remove_ok _ cs1 cs2 h v (ti_ok _ _ _ _ _ _ HT1) HL2 ltac:(fold p0; unfold cs1; rewrite rot_insert by done; exact HR2)) as [_ HE2].
    change (v ∉ values_of h (entries cs2)). rewrite (perm_values h _ _ HE2).
    intros ([k' v'] & -> & Hin)%list_elem_of_fmap. apply list_elem_of_In, List.filter_In in Hin as [Hin Hk'].
    apply List.filter_In in Hin as [_ Hn]. cbn in *. by rewrite Hk', Z.eqb_refl in Hn.
Qed.

Lemma removed_pair_is_refused_witness :
  ∃ (ht : LinearProbeHashTable ClockReplacer) vs ht',
    do_ops example_murmur3 252 [OpInsert example_key 7; OpRemove example_key 7; OpInsert example_key 7; OpGet example_key] ht =
      Ok ([Refused false; Removed; Refused true; Values vs], ht') ∧ 7 ∉ vs.
Proof.
  destruct no_pins_room as [HP HF].
  destruct (NewLinearProbeHashTable_run blank_store 2 ∅ ∅ 1 blank_store_shows HP HF ltac:(lia) (example_ids 1 ltac:(lia)))
    as (s1 & P1 & ids & _ & HL & _ & HM & _ & _).
  assert (HC : capacity ids = 252%nat) by (unfold capacity; rewrite HL; reflexivity).
  eexists. destruct (removed_pair_is_refused example_murmur3 _ 2 P1 ∅ ids _ example_key 7 252 example_murmur3_size HM)
    as (vs & ht' & E & Hv).
  - unfold in_u32; lia.
  - apply not_elem_of_nil.
  - rewrite HC. cbn. lia.
  - rewrite HC. lia.
  - exists vs, ht'. split; [exact E|exact Hv].
Defined.
