(* ===== verification/HashIndex.v ===== *)
(** * The hash index ([storage/index], [container/hash/hash_util.go])

    An index maps the bytes of one column of a tuple to the RIDs of the tuples that
    have them, packed in 32 bits, by a hash table.  What the table promises to the
    index is the multimap of [HashTable]. *)

From S2P Require Import Prelude Bytes Types Disk Tuples LogManager Replacer Page BufferPool PoolView Engine ClockReplacer HashPage Probe HashTable.

(** ** Packed RIDs *)
Definition PackRIDtoUint32 (value : RID) : Z :=
  let pageIdInBytes := le_bytes 4 (u32 (PageId value)) in
  let slotNumInBytes := le_bytes 4 (SlotNum value) in
  read_le 4 (take 2 pageIdInBytes ++ take 2 slotNumInBytes).

Definition UnpackUint32toRID (value : Z) : RID :=
  let packedDataInBytes := le_bytes 4 value in
  let zero := le_bytes 4 0 in
  let buf := take 2 packedDataInBytes ++ drop 2 zero in
  let buf' := take 2 (drop 2 packedDataInBytes) ++ drop 2 buf in
  MkRID (i32 (read_le 4 buf)) (read_le 4 buf').

(** ** Hash values *)
Section hashing.
Variable murmur3 : list byte → list byte.

Definition GenHashMurMur (key : list byte) : res Z := hash murmur3 key.
(** Only the three types of columns that have a hash are. *)
Definition HashValue (val : Value) : res Z :=
  match valueType val with
  | Integer | Float | Varchar => raw ← Serialize val; GenHashMurMur raw
  | _ => Panic
  end.
End hashing.

(** ** Index metadata *)
Record IndexMetadata : Type := MkIndexMetadata {
  im_name : list byte;
  im_table_name : list byte;
  key_attrs : list Z;
  tuple_schema : Schema
}.
Definition NewIndexMetadata (index_name table_name : list byte) (schema : Schema) (attrs : list Z) : IndexMetadata :=
  MkIndexMetadata index_name table_name attrs schema.
Definition GetIndexColumnCount (im : IndexMetadata) : Z := u32 (Z.of_nat (length (key_attrs im))).

(** ** The index *)
Record LinearProbeHashTableIndex (R : Type) : Type := MkIndex {
  container : LinearProbeHashTable R;
  metadata : IndexMetadata;
  col_idx : Z
}.
Arguments MkIndex {R}.
Arguments container {R}.
Arguments metadata {R}.
Arguments col_idx {R}.

Section index.
Variable murmur3 : list byte → list byte.
Context {R : Type} `{Replacer R}.

Definition NewLinearProbeHashTableIndex (md : IndexMetadata) (column : Z) (num_buckets : nat) (s : Store R) :
    res (LinearProbeHashTableIndex R) :=
  x ← NewLinearProbeHashTable num_buckets s;
  Ok (MkIndex (MkHashTable (snd x) NewRWLatch (fst x)) md column).

Definition on_container {A} (m : st (LinearProbeHashTable R) A) : st (LinearProbeHashTableIndex R) A :=
  zoom container (λ c idx, MkIndex c (metadata idx) (col_idx idx)) m.
Definition key_bytes (key : Tuple) : st (LinearProbeHashTableIndex R) (list byte) :=
  idx ← st_get; st_lift (GetValueInBytes key (tuple_schema (metadata idx)) (col_idx idx)).

(** The error of the table's [Insert] is dropped. *)
Definition InsertEntry (fuel : nat) (key : Tuple) (rid : RID) : st (LinearProbeHashTableIndex R) unit :=
  keyDataInBytes ← key_bytes key;
  _ ← on_container (HashTable.Insert murmur3 fuel keyDataInBytes (PackRIDtoUint32 rid));
  mret tt.
Definition DeleteEntry (fuel : nat) (key : Tuple) (rid : RID) : st (LinearProbeHashTableIndex R) unit :=
  keyDataInBytes ← key_bytes key;
  on_container (HashTable.Remove murmur3 fuel keyDataInBytes (PackRIDtoUint32 rid)).
Definition ScanKey (fuel : nat) (key : Tuple) : st (LinearProbeHashTableIndex R) (list RID) :=
  keyDataInBytes ← key_bytes key;
  packed_values ← on_container (HashTable.GetValue murmur3 fuel keyDataInBytes);
  mret (UnpackUint32toRID <$> packed_values).
End index.

(** ** Packing and unpacking *)
Lemma le_bytes4 z : le_bytes 4 z = [byte_of_Z z; byte_of_Z (z / 256); byte_of_Z (z / 256 / 256); byte_of_Z (z / 256 / 256 / 256)].
Proof. reflexivity. Qed.
Lemma read_le4 a b c d :
  read_le 4 [a; b; c; d] = Z_of_byte a + 256 * (Z_of_byte b + 256 * (Z_of_byte c + 256 * (Z_of_byte d + 256 * 0))).
Proof. reflexivity. Qed.
Lemma low_bytes z : z mod 256 + 256 * ((z / 256) mod 256) = u16 z.
Proof. unfold u16. change (2 ^ 16) with (256 * 256). rewrite (Z.rem_mul_r z 256 256) by lia. lia. Qed.
Lemma u16_u32 z : u16 (u32 z) = u16 z.
Proof.
  unfold u16, u32. change (2 ^ 32) with (2 ^ 16 * 2 ^ 16). rewrite (Z.rem_mul_r z (2 ^ 16) (2 ^ 16)) by lia.
  rewrite (Z.mul_comm (2 ^ 16)), Z.mod_add by lia. apply Z.mod_mod. lia.
Qed.

Lemma pack_value r : PackRIDtoUint32 r = u16 (PageId r) + 2 ^ 16 * u16 (SlotNum r).
Proof.
  unfold PackRIDtoUint32. rewrite !le_bytes4. cbn [firstn app]. rewrite read_le4.
  rewrite !Z_of_byte_of_Z. rewrite <- (u16_u32 (PageId r)), <- !low_bytes. lia.
Qed.
Lemma pack_range r : in_u32 (PackRIDtoUint32 r).
Proof. exact (read_le_range 4 _). Qed.

Lemma unpack_value z : in_u32 z → UnpackUint32toRID z = MkRID (u16 z) (z / 2 ^ 16).
Proof.
  intros Hz. unfold UnpackUint32toRID. rewrite !le_bytes4. cbn [firstn skipn app]. rewrite !read_le4, !Z_of_byte_of_Z.
  change (0 / 256 / 256 / 256 mod 256) with 0. change (0 / 256 / 256 mod 256) with 0.
  assert (HD : z / 256 / 256 = z / 2 ^ 16) by (rewrite Z.div_div by lia; done).
  assert (HP : 0 ≤ z / 2 ^ 16 < 2 ^ 16) by (unfold in_u32 in Hz; split; [apply Z.div_pos; lia|apply Z.div_lt_upper_bound; lia]).
  assert (HM : 0 ≤ u16 z < 2 ^ 16) by (apply Z.mod_pos_bound; lia).
  f_equal.
  - rewrite <- (low_bytes z) in HM |- *. rewrite i32_small; [lia|]. unfold in_i32. lia.
  - rewrite HD. pose proof (low_bytes (z / 2 ^ 16)) as HL. unfold u16 in HL. rewrite (Z.mod_small (z / 2 ^ 16) (2 ^ 16)) in HL by lia. lia.
Qed.

Lemma unpack_of_pack r : UnpackUint32toRID (PackRIDtoUint32 r) = MkRID (u16 (PageId r)) (u16 (SlotNum r)).
Proof.
  rewrite unpack_value by apply pack_range. rewrite pack_value.
  pose proof (Z.mod_pos_bound (PageId r) (2 ^ 16) eq_refl) as HP. fold (u16 (PageId r)) in HP.
  pose proof (Z.mod_pos_bound (SlotNum r) (2 ^ 16) eq_refl) as HS. fold (u16 (SlotNum r)) in HS.
  rewrite (Z.mul_comm (2 ^ 16)). f_equal.
  - unfold u16 at 1. rewrite Z.mod_add by lia. apply Z.mod_small. done.
  - rewrite Z.div_add, Z.div_small by lia. lia.
Qed.

(** C37: A RID survives packing exactly when its page id and its slot number fit in 16
    bits; of any other, packing keeps the low 16 bits of both, which is the RID of
    another record. *)
Theorem pack_unpack r :
  (UnpackUint32toRID (PackRIDtoUint32 r) = r ↔ 0 ≤ PageId r < 2 ^ 16 ∧ 0 ≤ SlotNum r < 2 ^ 16) ∧
  UnpackUint32toRID (PackRIDtoUint32 r) = MkRID (u16 (PageId r)) (u16 (SlotNum r)) ∧
  in_u32 (PackRIDtoUint32 r).
Proof.
  pose proof (unpack_of_pack r) as HE.
  split; [|split; [done|apply pack_range]]. rewrite HE. destruct r as [p q]. cbn [PageId SlotNum]. unfold u16. split.
  - intros [= Hp Hq]. rewrite <- Hp, <- Hq. split; apply Z.mod_pos_bound; lia.
  - intros [Hp Hq]. by rewrite !Z.mod_small.
Qed.

Lemma unpack_inj z z' : in_u32 z → in_u32 z' → UnpackUint32toRID z = UnpackUint32toRID z' → z = z'.
Proof.
  intros Hz Hz' E. rewrite !unpack_value in E by done. injection E as E1 E2. unfold u16 in E1.
  rewrite (Z.div_mod z (2 ^ 16)), (Z.div_mod z' (2 ^ 16)) by lia. congruence.
Qed.
Lemma unpack_pack r : 0 ≤ PageId r < 2 ^ 16 → 0 ≤ SlotNum r < 2 ^ 16 → UnpackUint32toRID (PackRIDtoUint32 r) = r.
Proof. intros Hp Hs. rewrite unpack_of_pack. unfold u16. rewrite !Z.mod_small by done. by destruct r. Qed.

(** ** The index over the multimap *)
Section entries.
Variable murmur3 : list byte → list byte.
Hypothesis murmur3_size : ∀ key, zlen (murmur3 key) = 16.
Context {R : Type} `{Replacer R}.
Implicit Types (idx : LinearProbeHashTableIndex R).

(** The bytes the index makes of a tuple. *)
Definition key_of idx (key : Tuple) : res (list byte) := GetValueInBytes key (tuple_schema (metadata idx)) (col_idx idx).

Lemma key_bytes_run idx key kb : key_of idx key = Ok kb → key_bytes key idx = Ok (kb, idx).
Proof. intros E. unfold key_bytes, key_of in *. unfold mbind, st_mbind, st_get. cbn. unfold st_lift. by rewrite E. Qed.
Lemma on_container_run {A} (m : Prelude.st (LinearProbeHashTable R) A) idx a c :
  m (container idx) = Ok (a, c) → on_container m idx = Ok (a, MkIndex c (metadata idx) (col_idx idx)).
Proof. intros E. unfold on_container. by rewrite (zoom_run _ _ _ _ _ _ E). Qed.

Lemma InsertEntry_run idx n P pins ids M key kb rid fuel :
  key_of idx key = Ok kb → holds (container idx) n P pins ids M → (capacity ids ≤ fuel)%nat →
  ∃ h b M' P' c, hash murmur3 kb = Ok h ∧ InsertEntry murmur3 fuel key rid idx = Ok (tt, MkIndex c (metadata idx) (col_idx idx)) ∧
    mm_step (capacity ids) (OpInsert kb (PackRIDtoUint32 rid)) h M (Refused b) M' ∧ holds c n P' pins ids M' ∧ only_blocks ids P P' ∧
    headerPageId c = headerPageId (container idx) ∧ calm (hstore (container idx)) (hstore c).
Proof.
  intros Hk HM Hf. destruct (do_op_refines murmur3 murmur3_size (OpInsert kb (PackRIDtoUint32 rid)) _ n P pins ids M fuel HM (pack_range rid) Hf)
    as (h & a & M' & P' & c & Hh & E & HS & HM' & HHd & HCa & HB). cbn [do_op op_key] in E, Hh.
  unfold mbind, st_mbind in E. destruct (HashTable.Insert _ _ _ _ _) as [[b c']| | |] eqn:EI; try done. injection E as <- ->.
  exists h, b, M', P', c. split; [done|]. split; [|done]. unfold InsertEntry.
  rewrite (st_bind_run _ _ _ _ _ (key_bytes_run _ _ _ Hk)), (st_bind_run _ _ _ _ _ (on_container_run _ _ _ _ EI)). done.
Qed.
Lemma DeleteEntry_run idx n P pins ids M key kb rid fuel :
  key_of idx key = Ok kb → holds (container idx) n P pins ids M → (capacity ids ≤ fuel)%nat →
  ∃ h P' c, hash murmur3 kb = Ok h ∧ DeleteEntry murmur3 fuel key rid idx = Ok (tt, MkIndex c (metadata idx) (col_idx idx)) ∧
    holds c n P' pins ids (MkMultimap (without h (PackRIDtoUint32 rid) (mm_entries M)) (mm_used M)) ∧ only_blocks ids P P' ∧
    headerPageId c = headerPageId (container idx) ∧ calm (hstore (container idx)) (hstore c).
Proof.
  intros Hk HM Hf. destruct (do_op_refines murmur3 murmur3_size (OpRemove kb (PackRIDtoUint32 rid)) _ n P pins ids M fuel HM I Hf)
    as (h & a & M' & P' & c & Hh & E & HS & HM' & HHd & HCa & HB). cbn [do_op op_key] in E, Hh.
  unfold mbind, st_mbind in E. destruct (HashTable.Remove _ _ _ _ _) as [[[] c']| | |] eqn:EI; try done. injection E as <- ->.
  inversion HS; subst. exists h, P', c. split; [done|]. split; [|done]. unfold DeleteEntry.
  rewrite (st_bind_run _ _ _ _ _ (key_bytes_run _ _ _ Hk)), (on_container_run _ _ _ _ EI). done.
Qed.
Lemma ScanKey_run idx n P pins ids M key kb fuel :
  key_of idx key = Ok kb → holds (container idx) n P pins ids M → (capacity ids ≤ fuel)%nat →
  ∃ h vs P' c, hash murmur3 kb = Ok h ∧ ScanKey murmur3 fuel key idx = Ok (UnpackUint32toRID <$> vs, MkIndex c (metadata idx) (col_idx idx)) ∧
    vs ≡ₚ values_of h (mm_entries M) ∧ holds c n P' pins ids M ∧ only_blocks ids P P' ∧
    headerPageId c = headerPageId (container idx) ∧ calm (hstore (container idx)) (hstore c).
Proof.
  intros Hk HM Hf. destruct (do_op_refines murmur3 murmur3_size (OpGet kb) _ n P pins ids M fuel HM I Hf)
    as (h & a & M' & P' & c & Hh & E & HS & HM' & HHd & HCa & HB). cbn [do_op op_key] in E, Hh.
  unfold mbind, st_mbind in E. destruct (HashTable.GetValue _ _ _ _) as [[vs c']| | |] eqn:EI; try done. injection E as <- ->.
  inversion HS; subst. exists h, vs, P', c. split; [done|]. split; [|done]. unfold ScanKey.
  rewrite (st_bind_run _ _ _ _ _ (key_bytes_run _ _ _ Hk)), (st_bind_run _ _ _ _ _ (on_container_run _ _ _ _ EI)). done.
Qed.
End entries.

Lemma elem_values h v es : v ∈ values_of h es ↔ (h, v) ∈ es.
Proof.
  unfold values_of. rewrite list_elem_of_fmap. split.
  - intros ([k x] & -> & Hin). apply list_elem_of_In, List.filter_In in Hin as [Hin Hk]. cbn in Hk. apply Z.eqb_eq in Hk as ->.
    by apply list_elem_of_In.
  - intros Hin. exists (h, v). split; [done|]. apply list_elem_of_In, List.filter_In. split; [by apply list_elem_of_In|]. apply Z.eqb_refl.
Qed.
Lemma elem_without h v h' v' es : (h', v') ∈ without h v es ↔ (h', v') ∈ es ∧ ¬ (h' = h ∧ v' = v).
Proof.
  unfold without. rewrite list_elem_of_In, List.filter_In, <- list_elem_of_In. cbn.
  destruct (Z.eqb_spec h' h), (Z.eqb_spec v' v); cbn; naive_solver.
Qed.

(** C18: An index entry from its insertion to its deletion. In an index with a free cell, let
    the RID's packed value be new and both its numbers fit in 16 bits. After
    [InsertEntry], [ScanKey] returns the RID, and returns only RIDs of entries with the
    same hash; after [DeleteEntry] it does not return it any more, and still
    returns every other RID it returned before. *)
Theorem index_entry_lifecycle (murmur3 : list byte → list byte) {R : Type} `{Replacer R} (idx : LinearProbeHashTableIndex R)
    n P pins ids M key kb rid fuel :
  (∀ k, zlen (murmur3 k) = 16) → holds (container idx) n P pins ids M → key_of idx key = Ok kb →
  Forall (λ e, in_u32 (snd e)) (mm_entries M) → PackRIDtoUint32 rid ∉ mm_used M → (length (mm_used M) < capacity ids)%nat →
  0 ≤ PageId rid < 2 ^ 16 → 0 ≤ SlotNum rid < 2 ^ 16 → (capacity ids ≤ fuel)%nat →
  ∃ h idx1 idx2 idx3 idx4 found later, hash murmur3 kb = Ok h ∧
    InsertEntry murmur3 fuel key rid idx = Ok (tt, idx1) ∧ ScanKey murmur3 fuel key idx1 = Ok (found, idx2) ∧
    rid ∈ found ∧ (∀ r, r ∈ found → r ≠ rid → ∃ v, (h, v) ∈ mm_entries M ∧ r = UnpackUint32toRID v) ∧
    DeleteEntry murmur3 fuel key rid idx2 = Ok (tt, idx3) ∧ ScanKey murmur3 fuel key idx3 = Ok (later, idx4) ∧
    (rid ∉ later) ∧ ∀ r, r ∈ found → r ≠ rid → r ∈ later.
Proof.
  intros Hm HM Hk HU Hnew HF Hp Hs Hf. set (v := PackRIDtoUint32 rid) in *. pose proof (pack_range rid : in_u32 v) as Hv.
  destruct (InsertEntry_run murmur3 Hm idx n P pins ids M key kb rid fuel Hk HM Hf) as (h & b & M1 & P1 & c1 & Hh & E1 & HS & HM1 & _).
  fold v in HS. assert (HM1' : M1 = MkMultimap ((h, v) :: mm_entries M) (v :: mm_used M)) by (inversion HS; subst; [done|done|lia]).
  subst M1. clear HS. set (idx1 := MkIndex c1 _ _) in E1.
  destruct (ScanKey_run murmur3 Hm idx1 n P1 pins ids _ key kb fuel Hk HM1 Hf) as (h2 & vs & P2 & c2 & Hh2 & E2 & HV & HM2 & _).
  assert (h2 = h) as -> by congruence. set (idx2 := MkIndex c2 _ _) in E2. cbn [mm_entries] in HV.
  destruct (DeleteEntry_run murmur3 Hm idx2 n P2 pins ids _ key kb rid fuel Hk HM2 Hf) as (h3 & P3 & c3 & Hh3 & E3 & HM3 & _).
  assert (h3 = h) as -> by congruence. set (idx3 := MkIndex c3 _ _) in E3. fold v in HM3. cbn [mm_entries mm_used] in HM3.
  destruct (ScanKey_run murmur3 Hm idx3 n P3 pins ids _ key kb fuel Hk HM3 Hf) as (h4 & ws & P4 & c4 & Hh4 & E4 & HW & _).
  assert (h4 = h) as -> by congruence. cbn [mm_entries] in HW.
  exists h, idx1, idx2, idx3, (MkIndex c4 (metadata idx3) (col_idx idx3)), (UnpackUint32toRID <$> vs), (UnpackUint32toRID <$> ws).
  assert (Hvs : ∀ x, x ∈ vs ↔ x = v ∨ (h, x) ∈ mm_entries M).
  { intros x. rewrite HV, elem_values, elem_of_cons. naive_solver. }
  assert (Hws : ∀ x, x ∈ ws ↔ x ∈ vs ∧ x ≠ v).
  { intros x. rewrite Hvs, HW, elem_values, elem_without, elem_of_cons. naive_solver. }
  assert (Hr : UnpackUint32toRID v = rid) by (by apply unpack_pack).
  assert (Hin : ∀ x, x ∈ vs → in_u32 x).
  { intros x [->|Hx]%Hvs; [done|]. rewrite Forall_forall in HU. exact (HU _ Hx). }
  split; [done|]. split; [done|]. split; [done|]. split; [|split; [|split; [done|split; [done|split]]]].
  - apply list_elem_of_fmap. exists v. split; [done|]. apply Hvs. by left.
  - intros r (x & -> & Hx)%list_elem_of_fmap Hne. exists x. split; [|done].
    apply Hvs in Hx as [->|Hx]; [done|exact Hx].
  - intros (x & Ex & Hx)%list_elem_of_fmap. apply Hws in Hx as [Hx Hne]. apply Hne, unpack_inj; [by apply Hin|done|congruence].
  - intros r (x & -> & Hx)%list_elem_of_fmap Hne. apply list_elem_of_fmap. exists x. split; [done|]. apply Hws. split; [done|congruence].
Qed.

(** A table of one block, an index on the second column of the example schema. *)
Definition example_metadata : IndexMetadata :=
  NewIndexMetadata [Byte.x69] [Byte.x74] (NewSchema example_columns) [1].
Definition example_index : LinearProbeHashTableIndex ClockReplacer :=
  match NewLinearProbeHashTableIndex example_metadata 1 1 blank_store with
  | Ok idx => idx
  | _ => MkIndex (MkHashTable blank_store NewRWLatch 0) example_metadata 1
  end.
Definition indexed_tuple : Tuple :=
  match NewTupleFromSchema example_row (NewSchema example_columns) with Ok t => t | _ => ZeroTuple end.
Definition example_bytes : list byte := [Byte.x00; Byte.x02; Byte.x00; Byte.x68; Byte.x69].

Lemma example_index_holds : ∃ P ids, holds (container example_index) 2 P ∅ ids (MkMultimap [] []) ∧ capacity ids = 252%nat.
Proof.
  destruct no_pins_room as [HP HF].
  destruct (NewLinearProbeHashTable_run blank_store 2 ∅ ∅ 1 blank_store_shows HP HF ltac:(lia) (example_ids 1 ltac:(lia)))
    as (s1 & P1 & ids & E & HL & _ & HM & _ & _).
  exists P1, ids. split; [|unfold capacity; by rewrite HL].
  unfold example_index, NewLinearProbeHashTableIndex. rewrite E. exact HM.
Qed.

Lemma index_entry_lifecycle_witness :
  ∃ idx1 idx2 found, InsertEntry example_murmur3 252 indexed_tuple (MkRID 55 1027) example_index = Ok (tt, idx1) ∧
    ScanKey example_murmur3 252 indexed_tuple idx1 = Ok (found, idx2) ∧ MkRID 55 1027 ∈ found.
Proof.
  destruct example_index_holds as (P & ids & HM & HC).
  destruct (index_entry_lifecycle example_murmur3 example_index 2 P ∅ ids _ indexed_tuple example_bytes (MkRID 55 1027) 252
    example_murmur3_size HM) as (h & idx1 & idx2 & idx3 & idx4 & found & later & _ & E1 & E2 & Hin & _).
  - vm_compute. reflexivity.
  - constructor.
  - apply not_elem_of_nil.
  - rewrite HC. cbn. lia.
  - cbn. lia.
  - cbn. lia.
  - rewrite HC. lia.
  - exists idx1, idx2, found. split; [exact E1|]. split; [exact E2|exact Hin].
Defined.
