(* ===== verification/Expressions.v ===== *)
(** * Expressions ([execution/expression])

    Expression trees and their three evaluations: on a tuple, on a pair of tuples
    and on the terms of an aggregation.  An expression is well typed under the
    types of the columns when [typeof] gives it a type; then it evaluates without
    a panic, to a value of that type. *)

From S2P Require Import Prelude Bytes Types Tuples.

(** ** The tree *)
Inductive ComparisonType : Type :=
  | Equal | NotEqual | GreaterThan | GreaterThanOrEqual | LessThan | LessThanOrEqual.
Inductive LogicalOpType : Type := AND | OR | NOT.
#[global] Instance LogicalOpType_eq_dec : EqDecision LogicalOpType.
Proof. solve_decision. Defined.

(** The five structs that implement [Expression]; the right child of a NOT is nil. *)
#[warnings="-register-all"]
Inductive Expression : Type :=
  | Comparison (left right : Expression) (comparisonType : ComparisonType) (ret_type : TypeID)
  | LogicalOp (left : Expression) (right : option Expression) (logicalOpType : LogicalOpType) (ret_type : TypeID)
  | ConstantValue (value : Value) (ret_type : TypeID)
  | ColumnValue (tupleIndexForJoin colIndex : Z) (ret_type : TypeID)
  | AggregateValueExpression (is_group_by_term : bool) (term_idx : Z) (ret_type : TypeID).

Definition performComparison (t : ComparisonType) (lhs rhs : Value) : res bool :=
  match t with
  | Equal => CompareEquals lhs rhs
  | NotEqual => CompareNotEquals lhs rhs
  | GreaterThan => CompareGreaterThan lhs rhs
  | GreaterThanOrEqual => CompareGreaterThanOrEqual lhs rhs
  | LessThan => CompareLessThan lhs rhs
  | LessThanOrEqual => CompareLessThanOrEqual lhs rhs
  end.

(** [&&] and [||] do not look at the right value when the left one decides. *)
Definition performLogicalOp (t : LogicalOpType) (lhs rhs : Value) : res bool :=
  match t with
  | AND => l ← ToBoolean lhs; if l : bool then ToBoolean rhs else Ok false
  | OR => l ← ToBoolean lhs; if l : bool then Ok true else ToBoolean rhs
  | NOT => Panic
  end.

(** *** The evaluations, over how a leaf is read *)

(** What the three methods share: [left] evaluates in the left child, [right] in
    the right one; a nil child panics. *)
Definition compare_with (t : ComparisonType) (left right : res Value) : res Value :=
  lhs ← left; rhs ← right; b ← performComparison t lhs rhs; Ok (NewBoolean b).
Definition logical_with (t : LogicalOpType) (left : res Value) (right : res Value) : res Value :=
  match t with
  | NOT => lhs ← left; b ← ToBoolean lhs; Ok (NewBoolean (negb b))
  | _ => lhs ← left; rhs ← right; b ← performLogicalOp t lhs rhs; Ok (NewBoolean b)
  end.

(** The tuple may be nil, as in an index lookup. *)
Fixpoint Evaluate (e : Expression) (tuple_ : option Tuple) (schema_ : Schema) : res Value :=
  match e with
  | Comparison l r t _ => compare_with t (Evaluate l tuple_ schema_) (Evaluate r tuple_ schema_)
  | LogicalOp l r t _ =>
      logical_with t (Evaluate l tuple_ schema_)
        (match r with Some r => Evaluate r tuple_ schema_ | None => Panic end)
  | ConstantValue v _ => Ok v
  | ColumnValue _ i _ => t ← deref tuple_; GetValue t schema_ i
  | AggregateValueExpression _ _ _ => Panic
  end.

(** The left child of a comparison or a logical operation gets the left schema for
    the right tuple too. *)
Fixpoint EvaluateJoin (e : Expression) (left_tuple : Tuple) (left_schema : Schema)
    (right_tuple : Tuple) (right_schema : Schema) : res Value :=
  match e with
  | Comparison l r t _ =>
      compare_with t (EvaluateJoin l left_tuple left_schema right_tuple left_schema)
        (EvaluateJoin r left_tuple left_schema right_tuple right_schema)
  | LogicalOp l r t _ =>
      logical_with t (EvaluateJoin l left_tuple left_schema right_tuple left_schema)
        (match r with Some r => EvaluateJoin r left_tuple left_schema right_tuple right_schema | None => Panic end)
  | ConstantValue v _ => Ok v
  | ColumnValue side i _ =>
      if side =? 0 then GetValue left_tuple left_schema i else GetValue right_tuple right_schema i
  | AggregateValueExpression _ _ _ => Panic
  end.

Fixpoint EvaluateAggregate (e : Expression) (group_bys aggregates : list Value) : res Value :=
  match e with
  | Comparison l r t _ =>
      compare_with t (EvaluateAggregate l group_bys aggregates) (EvaluateAggregate r group_bys aggregates)
  | LogicalOp l r t _ =>
      logical_with t (EvaluateAggregate l group_bys aggregates)
        (match r with Some r => EvaluateAggregate r group_bys aggregates | None => Panic end)
  | ConstantValue v _ => Ok v
  | ColumnValue _ _ _ => Panic
  | AggregateValueExpression g i _ => index (if g : bool then group_bys else aggregates) i
  end.

(** [GetLeftSideColIdx] of a comparison: the left child has to be a column. *)
Definition GetLeftSideColIdx (e : Expression) : res Z :=
  match e with Comparison (ColumnValue _ i _) _ _ _ => Ok i | _ => Panic end.
Definition GetRightSideValue (e : Expression) (tuple_ : option Tuple) (schema_ : Schema) : res Value :=
  match e with Comparison _ r _ _ => Evaluate r tuple_ schema_ | _ => Panic end.
(** The two children, nil for a leaf. *)
Definition GetChildAt (e : Expression) (child_idx : Z) : res (option Expression) :=
  index (match e with
         | Comparison l r _ _ => [Some l; Some r]
         | LogicalOp l r _ _ => [Some l; r]
         | _ => [None; None]
         end) child_idx.

(** ** Evaluation on rows *)

(** Evaluation with a column's value taken from the row. *)
Fixpoint eval_row (e : Expression) (row : list Value) : res Value :=
  match e with
  | Comparison l r t _ => compare_with t (eval_row l row) (eval_row r row)
  | LogicalOp l r t _ =>
      logical_with t (eval_row l row) (match r with Some r => eval_row r row | None => Panic end)
  | ConstantValue v _ => Ok v
  | ColumnValue _ i _ => index row i
  | AggregateValueExpression _ _ _ => Panic
  end.

Section induction.
Variable Q : Expression → Prop.
Hypothesis HC : ∀ l r t ty, Q l → Q r → Q (Comparison l r t ty).
Hypothesis HL : ∀ l r t ty, Q l → (∀ r', r = Some r' → Q r') → Q (LogicalOp l r t ty).
Hypothesis HK : ∀ v ty, Q (ConstantValue v ty).
Hypothesis HV : ∀ s i ty, Q (ColumnValue s i ty).
Hypothesis HA : ∀ g i ty, Q (AggregateValueExpression g i ty).

(** Induction that reaches the right child of a logical operation. *)
Fixpoint expression_induction (e : Expression) : Q e.
Proof.
  destruct e as [l r t ty|l r t ty|v ty|s i ty|g i ty].
  - apply HC; apply expression_induction.
  - apply HL; [apply expression_induction|]. intros r' E. destruct r as [r0|]; [|discriminate].
    injection E as <-. apply expression_induction.
  - apply HK.
  - apply HV.
  - apply HA.
Defined.
End induction.

Lemma Evaluate_row e t s row : holds_row t s row → Evaluate e (Some t) s = eval_row e row.
Proof.
  intros HR. induction e as [l r c ty IHl IHr|l r c ty IHl IHr|v ty|sd i ty|g i ty] using expression_induction; cbn [Evaluate eval_row].
  - by rewrite IHl, IHr.
  - rewrite IHl. destruct r as [r|]; [|done]. by rewrite (IHr r eq_refl).
  - done.
  - cbn. by apply holds_row_GetValue.
  - done.
Qed.

(** *** Joins *)
Fixpoint eval_rows (e : Expression) (left right : list Value) : res Value :=
  match e with
  | Comparison l r t _ => compare_with t (eval_rows l left right) (eval_rows r left right)
  | LogicalOp l r t _ =>
      logical_with t (eval_rows l left right) (match r with Some r => eval_rows r left right | None => Panic end)
  | ConstantValue v _ => Ok v
  | ColumnValue side i _ => index (if side =? 0 then left else right) i
  | AggregateValueExpression _ _ _ => Panic
  end.

(** Columns of the right tuple only where the right schema comes along. *)
Fixpoint join_safe (own : bool) (e : Expression) : bool :=
  match e with
  | Comparison l r _ _ => join_safe false l && join_safe own r
  | LogicalOp l r _ _ => join_safe false l && match r with Some r => join_safe own r | None => true end
  | ColumnValue side _ _ => (side =? 0) || own
  | _ => true
  end.

Lemma EvaluateJoin_rows e lt ls lrow rt rs rrow :
  holds_row lt ls lrow → holds_row rt rs rrow → join_safe true e = true →
  EvaluateJoin e lt ls rt rs = eval_rows e lrow rrow.
Proof.
  intros HLr HRr HS.
  assert (HG : ∀ own rs', (own = true → rs' = rs) → join_safe own e = true → EvaluateJoin e lt ls rt rs' = eval_rows e lrow rrow).
  { clear HS. induction e as [l r c ty IHl IHr|l r c ty IHl IHr|v ty|sd i ty|g i ty] using expression_induction;
      intros own rs' Ho; cbn [EvaluateJoin eval_rows join_safe]; try done.
    - intros [Hl Hr]%andb_true_iff. by rewrite (IHl false ls), (IHr own rs').
    - intros [Hl Hr]%andb_true_iff. rewrite (IHl false ls) by done. destruct r as [r|]; [|done].
      by rewrite (IHr r eq_refl own rs').
    - destruct (Z.eqb_spec sd 0); cbn [orb]; intros Hsd; [by apply holds_row_GetValue|].
      rewrite (Ho Hsd). by apply holds_row_GetValue. }
  by apply (HG true).
Qed.

(** ** Types *)
Definition comparable (ty : TypeID) : bool :=
  match ty with Integer | Float | Varchar | Boolean => true | _ => false end.

(** A value of a type, with its payload; NULLs have one too. *)
Definition has_type (v : Value) (ty : TypeID) : bool :=
  bool_decide (valueType v = ty) &&
  match ty with
  | Integer => bool_decide (is_Some (integer v))
  | Float => bool_decide (is_Some (float v))
  | Varchar => bool_decide (is_Some (varchar v))
  | Boolean => bool_decide (is_Some (boolean v))
  | _ => false
  end.

Fixpoint typeof (tys : list TypeID) (e : Expression) : option TypeID :=
  match e with
  | Comparison l r _ _ =>
      match typeof tys l, typeof tys r with
      | Some a, Some b => if bool_decide (a = b) && comparable a then Some Boolean else None
      | _, _ => None
      end
  | LogicalOp l _ NOT _ =>
      match typeof tys l with Some Boolean => Some Boolean | _ => None end
  | LogicalOp l (Some r) _ _ =>
      match typeof tys l, typeof tys r with
      | Some Boolean, Some Boolean => Some Boolean
      | _, _ => None
      end
  | LogicalOp _ None _ _ => None
  | ConstantValue v _ => if has_type v (valueType v) then Some (valueType v) else None
  | ColumnValue _ i _ => if 0 <=? i then tys !! Z.to_nat i else None
  | AggregateValueExpression _ _ _ => None
  end.

Lemma comparison_total t v w ty :
  comparable ty = true → has_type v ty = true → has_type w ty = true → ∃ b, performComparison t v w = Ok b.
Proof.
  intros HC [Hv Pv]%andb_true_iff [Hw Pw]%andb_true_iff. apply bool_decide_eq_true in Hv. apply bool_decide_eq_true in Hw.
  destruct v as [tv nv iv bv sv fv], w as [tw nw iw bw sw fw]. cbn in Hv, Hw. subst tv tw.
  destruct ty; try discriminate; apply bool_decide_eq_true in Pv as [x Hx]; apply bool_decide_eq_true in Pw as [y Hy];
    cbn in Hx, Hy; subst;
    destruct t; cbn; unfold CompareEquals, CompareNotEquals, CompareGreaterThan, CompareGreaterThanOrEqual,
      CompareLessThan, CompareLessThanOrEqual, IsNull; cbn; destruct nv, nw; by eexists.
Qed.

Lemma boolean_typed v : has_type v Boolean = true → ∃ b, ToBoolean v = Ok b.
Proof.
  intros [_ [b Hb]%bool_decide_eq_true]%andb_true_iff. exists b. unfold ToBoolean. by rewrite Hb.
Qed.

Lemma logical_typed c v w :
  c ≠ NOT → has_type v Boolean = true → has_type w Boolean = true →
  ∃ x, logical_with c (Ok v) (Ok w) = Ok x ∧ has_type x Boolean = true.
Proof.
  intros Hc Tv Tw. destruct (boolean_typed v Tv) as [x Hx], (boolean_typed w Tw) as [y Hy].
  unfold logical_with, performLogicalOp. destruct c; [| |done]; mred; rewrite Hx; mred; destruct x; rewrite ?Hy; by eexists.
Qed.

Lemma eval_row_typed tys row e ty :
  typeof tys e = Some ty → Forall2 (λ v t, has_type v t = true) row tys →
  ∃ v, eval_row e row = Ok v ∧ has_type v ty = true.
Proof.
  intros HT HR. revert ty HT.
  induction e as [l r c rt IHl IHr|l r c rt IHl IHr|v rt|sd i rt|g i rt] using expression_induction; intros ty; cbn [typeof eval_row].
  - destruct (typeof tys l) as [a|]; [|done]. destruct (typeof tys r) as [b|]; [|done].
    destruct (bool_decide (a = b)) eqn:Eab; [|done]. apply bool_decide_eq_true in Eab as <-.
    destruct (comparable a) eqn:Ec; [|done]. intros [= <-].
    destruct (IHl a eq_refl) as (v & Ev & Tv), (IHr a eq_refl) as (w & Ew & Tw).
    destruct (comparison_total c v w a Ec Tv Tw) as [x Ex]. unfold compare_with. rewrite Ev. mred. rewrite Ew. mred. rewrite Ex.
    by eexists.
  - destruct (decide (c = NOT)) as [->|Hc].
    + intros HT. assert (HB : typeof tys l = Some Boolean ∧ ty = Boolean).
      { destruct r, (typeof tys l) as [[]|]; try done; by injection HT as <-. }
      destruct HB as [Hl ->]. destruct (IHl Boolean Hl) as (v & Ev & Tv).
      destruct (boolean_typed v Tv) as [x Hx]. unfold logical_with. rewrite Ev. mred. rewrite Hx. by eexists.
    + destruct r as [r|]; [|by destruct c]. intros HT.
      assert (HB : typeof tys l = Some Boolean ∧ typeof tys r = Some Boolean ∧ ty = Boolean).
      { destruct c; [| |done]; destruct (typeof tys l) as [[]|]; try done; destruct (typeof tys r) as [[]|]; try done;
          by injection HT as <-. }
      destruct HB as (Hl & Hr & ->). destruct (IHl _ Hl) as (v & Ev & Tv), (IHr r eq_refl _ Hr) as (w & Ew & Tw).
      rewrite Ev, Ew. by apply logical_typed.
  - destruct (has_type v (valueType v)) eqn:Ev; [|done]. intros [= <-]. by exists v.
  - destruct (Z.leb_spec 0 i); [|done]. intros Hi. destruct (Forall2_lookup_r _ _ _ _ _ HR Hi) as (v & Hv & Tv).
    exists v. split; [|done]. by apply index_Ok.
  - done.
Qed.

(** C35: expressions are type safe. An expression that type checks against the types of the
    columns evaluates on every tuple that holds a row of these types, without a panic,
    to a value of the type it was given; comparisons, AND, OR and NOT give a
    Boolean. *)
Theorem expression_type_sound tys row t s e ty :
  typeof tys e = Some ty → Forall2 (λ v t, has_type v t = true) row tys → holds_row t s row →
  ∃ v, Evaluate e (Some t) s = Ok v ∧ has_type v ty = true ∧ eval_row e row = Ok v.
Proof.
  intros HT HR HH. destruct (eval_row_typed tys row e ty HT HR) as (v & Ev & Tv).
  exists v. by rewrite (Evaluate_row e t s row HH).
Qed.

(** [a = -20 AND NOT (b > 'hi')] *)
Definition example_predicate : Expression :=
  LogicalOp (Comparison (ColumnValue 0 0 Integer) (ConstantValue (NewInteger (-20)) Integer) Equal Boolean)
    (Some (LogicalOp (Comparison (ColumnValue 0 1 Varchar) (ConstantValue (NewVarchar [Byte.x68; Byte.x69]) Varchar) GreaterThan Boolean)
             None NOT Boolean)) AND Boolean.

Lemma expression_type_sound_witness :
  ∃ t v, NewTupleFromSchema example_row (NewSchema example_columns) = Ok t ∧
    Evaluate example_predicate (Some t) (NewSchema example_columns) = Ok v ∧ has_type v Boolean = true.
Proof.
  destruct (tuple_holds_row example_columns example_row example_row_ok) as (t & E & HH & _); [reflexivity|reflexivity|].
  destruct (expression_type_sound [Integer; Varchar; Boolean; Varchar; Float] example_row t (NewSchema example_columns) example_predicate Boolean) as (v & Ev & Tv & _).
  - vm_compute. reflexivity.
  - repeat constructor.
  - exact HH.
  - exists t, v. split; [exact E|]. split; [exact Ev|exact Tv].
Defined.
