(* ===== verification/Plans.v ===== *)
(** * Plans ([execution/plans])

    A plan is a tree of nodes with the parameters of their executors. *)

From S2P Require Import Prelude Bytes Types Tuples Expressions.

Inductive OrderbyType : Type := ASC | DESC.
Inductive AggregationType : Type := COUNT_AGGREGATE | SUM_AGGREGATE | MIN_AGGREGATE | MAX_AGGREGATE.
Inductive PlanType : Type :=
  | SeqScan | Insert | Delete | Limit | HashScanIndex | HashJoin | Aggregation | Orderby.

#[global] Instance OrderbyType_eq_dec : EqDecision OrderbyType.
Proof. solve_decision. Defined.
#[global] Instance AggregationType_eq_dec : EqDecision AggregationType.
Proof. solve_decision. Defined.

(** The nodes, with the output schema where the constructor takes one; those of the
    others is nil.  An aggregation's output columns carry the expressions
    [output_exprs], which the source keeps in the columns of the schema. *)
Inductive Plan : Type :=
  | SeqScanPlanNode (outputSchema : Schema) (predicate : option Expression) (tableOID : Z)
  | InsertPlanNode (rawValues : list (list Value)) (tableOID : Z)
  | DeletePlanNode (predicate : option Expression) (tableOID : Z)
  | UpdatePlanNode (rawValues : list Value) (update_col_idxs : option (list Z)) (predicate : option Expression) (tableOID : Z)
  | LimitPlanNode (child : Plan) (limit offset : Z)
  | HashScanIndexPlanNode (outputSchema : Schema) (predicate : Expression) (tableOID : Z)
  | HashJoinPlanNode (outputSchema : Schema) (left right : Plan) (predicate : Expression)
  | AggregationPlanNode (outputSchema : Schema) (output_exprs : list Expression) (child : Plan)
      (having : option Expression) (group_bys aggregates : list Expression) (agg_types : list AggregationType)
  | OrderbyPlanNode (child_schema : option Schema) (child : Plan) (col_idxs : list Z) (orderby_types : list OrderbyType).

Definition OutputSchema (p : Plan) : option Schema :=
  match p with
  | SeqScanPlanNode s _ _ | HashScanIndexPlanNode s _ _ | HashJoinPlanNode s _ _ _
  | AggregationPlanNode s _ _ _ _ _ _ => Some s
  | OrderbyPlanNode s _ _ _ => s
  | _ => None
  end.

(** An update says it is a delete. *)
Definition GetType (p : Plan) : PlanType :=
  match p with
  | SeqScanPlanNode _ _ _ => SeqScan
  | InsertPlanNode _ _ => Insert
  | DeletePlanNode _ _ | UpdatePlanNode _ _ _ _ => Delete
  | LimitPlanNode _ _ _ => Limit
  | HashScanIndexPlanNode _ _ _ => HashScanIndex
  | HashJoinPlanNode _ _ _ _ => HashJoin
  | AggregationPlanNode _ _ _ _ _ _ _ => Aggregation
  | OrderbyPlanNode _ _ _ _ => Orderby
  end.

Definition GetChildren (p : Plan) : list Plan :=
  match p with
  | LimitPlanNode c _ _ | AggregationPlanNode _ _ c _ _ _ _ | OrderbyPlanNode _ c _ _ => [c]
  | HashJoinPlanNode _ l r _ => [l; r]
  | _ => []
  end.

(** How deep the tree is. *)
Fixpoint height (p : Plan) : nat :=
  match p with
  | LimitPlanNode c _ _ | AggregationPlanNode _ _ c _ _ _ _ | OrderbyPlanNode _ c _ _ => S (height c)
  | HashJoinPlanNode _ l r _ => S (height l `max` height r)
  | _ => 1%nat
  end.
