(* ===== verification/Catalog.v ===== *)
(** * The catalog ([catalog])

    The tables the database knows, by id and by name.  A table's metadata holds its
    schema, its heap and, for each column with an index, the index.  The catalog
    itself is written to two tables, of tables and of columns, from which it is
    read back. *)

From Stdlib Require Import Strings.String Strings.Byte.
From S2P Require Import Prelude Bytes Types Tuples Disk LogRecord LogManager Replacer ClockReplacer Page BufferPool LockManager PoolView TablePage Engine TableHeap TableScan HashTable HashIndex.

(** ** Indexes of a table

    An index over the engine's pool: what [LinearProbeHashTableIndex] holds besides
    the pool.  Its latch is free whenever no operation of the index runs. *)
Record IndexHandle : Type := MkIndexHandle {
  ix_header : Z;
  ix_metadata : IndexMetadata;
  ix_col : Z
}.

Section handles.
Context {R : Type} `{Replacer R}.

Definition with_index {A} (ix : IndexHandle) (m : st (LinearProbeHashTableIndex R) A) : st (Engine R) A := λ e,
  r ← m (MkIndex (MkHashTable (estore e) NewRWLatch (ix_header ix)) (ix_metadata ix) (ix_col ix));
  Ok (fst r, set_store (hstore (container (snd r))) e).
End handles.

(** ** Table metadata *)
Record TableMetadata : Type := MkTableMetadata {
  schema : Schema;
  name : list byte;
  table : TableHeap;
  indexes : list (option IndexHandle);
  oid : Z
}.


Definition GetIndex (t : TableMetadata) (colIndex : Z) : res (option IndexHandle) := index (indexes t) colIndex.
Definition GetColumnNum (t : TableMetadata) : Z := GetColumnCount (schema t).

Section metadata.
Context {R : Type} `{Replacer R}.

(** The loop of [NewTableMetadata] over the columns, from column [idx] on. *)
Fixpoint new_indexes (schema_ : Schema) (name_ : list byte) (idx : Z) (cols : list Column) :
    st (Engine R) (list (option IndexHandle)) :=
  match cols with
  | [] => mret []
  | column_ :: cols' =>
      ix ← (if hasIndex column_ then
              let im := NewIndexMetadata (columnName column_ ++ text "_index") name_ schema_ [idx] in
              header ← with_store (NewLinearProbeHashTable (Z.to_nat BucketSize));
              mret (Some (MkIndexHandle header im idx))
            else mret None);
      rest ← new_indexes schema_ name_ (idx + 1) cols';
      mret (ix :: rest)
  end.

Definition NewTableMetadata (schema_ : Schema) (name_ : list byte) (table_ : TableHeap) (oid_ : Z) :
    st (Engine R) TableMetadata :=
  ixs ← new_indexes schema_ name_ 0 (columns schema_);
  mret (MkTableMetadata schema_ name_ table_ ixs oid_).
End metadata.

(** ** The catalog's own schemas *)
Definition plain_column (n : string) (t : TypeID) : Column := NewColumn (text n) t false.
Definition TableCatalogSchema : Schema :=
  NewSchema [plain_column "oid" Integer; plain_column "name" Varchar; plain_column "first_page" Integer].
Definition ColumnsCatalogSchema : Schema :=
  NewSchema [plain_column "table_oid" Integer; plain_column "type" Integer; plain_column "name" Varchar;
             plain_column "fixed_length" Integer; plain_column "variable_length" Integer;
             plain_column "offset" Integer; plain_column "has_index" Integer].

(** ** The catalog *)
#[global] Instance byte_countable : Countable byte.
Proof. apply (inj_countable Byte.to_N Byte.of_N). apply Byte.of_to_N. Defined.

Record Catalog : Type := MkCatalog {
  tableIds : gmap Z TableMetadata;
  tableNames : gmap (list byte) TableMetadata;
  nextTableId : Z;
  tableHeap : TableHeap
}.

Definition TableCatalogPageId : Z := 0.
Definition ColumnsCatalogPageId : Z := 1.
Definition ColumnsCatalogOID : Z := 0.

Definition GetTableByName (c : Catalog) (n : list byte) : option TableMetadata := tableNames c !! n.
Definition GetTableByOID (c : Catalog) (o : Z) : option TableMetadata := tableIds c !! o.

Definition boolToInt32 (b : bool) : Z := if b then 1 else 0.
Definition Int32toBool (z : Z) : bool := z =? 1.

(** The number [types.TypeID] gives a type.  A number without a constant is of no use
    to any switch of the source, as [Invalid] is. *)
Definition type_numbers : list TypeID :=
  [Invalid; Boolean; Tinyint; Smallint; Integer; BigInt; Decimal; Float; Varchar; Timestamp; Null].
Definition type_number (t : TypeID) : Z :=
  match t with
  | Invalid => 0 | Boolean => 1 | Tinyint => 2 | Smallint => 3 | Integer => 4 | BigInt => 5
  | Decimal => 6 | Float => 7 | Varchar => 8 | Timestamp => 9 | Null => 10
  end.
Definition number_type (z : Z) : TypeID :=
  if z <? 0 then Invalid else default Invalid (type_numbers !! Z.to_nat z).

Section catalog.
Context {R : Type} `{Replacer R}.

(** The rows [insertTable] writes for a table and for one of its columns. *)
Definition table_row (t : TableMetadata) : list Value :=
  [NewInteger (i32 (oid t)); NewVarchar (name t); NewInteger (i32 (firstPageId (table t)))].
Definition column_row (t : TableMetadata) (c : Column) : list Value :=
  [NewInteger (i32 (oid t)); NewInteger (i32 (type_number (columnType c))); NewVarchar (columnName c);
   NewInteger (i32 (fixedLength c)); NewInteger (i32 (variableLength c)); NewInteger (i32 (columnOffset c));
   NewInteger (boolToInt32 (hasIndex c))].

(** The results of the inserts are not looked at. *)
Fixpoint insert_columns (fuel : nat) (columns_table : TableHeap) (t : TableMetadata) (cols : list Column) :
    st (Engine R) unit :=
  match cols with
  | [] => mret tt
  | c :: cols' =>
      new_tuple ← st_lift (NewTupleFromSchema (column_row t c) ColumnsCatalogSchema);
      _ ← TableHeap.InsertTuple fuel columns_table new_tuple;
      insert_columns fuel columns_table t cols'
  end.

Definition insertTable (fuel : nat) (c : Catalog) (t : TableMetadata) : st (Engine R) unit :=
  first_tuple ← st_lift (NewTupleFromSchema (table_row t) TableCatalogSchema);
  _ ← TableHeap.InsertTuple fuel (tableHeap c) first_tuple;
  _ ← (match columns (schema t) with
       | [] => mret tt
       | cols =>
           columns_table ← st_lift (deref (tableIds c !! ColumnsCatalogOID));
           insert_columns fuel (table columns_table) t cols
       end);
  _ ← with_store (FlushPage TableCatalogPageId);
  _ ← with_store (FlushPage ColumnsCatalogPageId);
  mret tt.

Definition CreateTable (fuel : nat) (c : Catalog) (name_ : list byte) (schema_ : Schema) :
    st (Engine R) (Catalog * TableMetadata) :=
  let oid_ := nextTableId c in
  heap ← NewTableHeap;
  t ← NewTableMetadata schema_ name_ heap oid_;
  let c' := MkCatalog (<[oid_ := t]> (tableIds c)) (<[name_ := t]> (tableNames c)) (u32 (oid_ + 1)) (tableHeap c) in
  _ ← insertTable fuel c' t;
  mret (c', t).

Definition BootstrapCatalog (fuel : nat) : st (Engine R) Catalog :=
  tableCatalogHeap ← NewTableHeap;
  r ← CreateTable fuel (MkCatalog ∅ ∅ 0 tableCatalogHeap) (text "columns_catalog") ColumnsCatalogSchema;
  mret (fst r).

(** *** Reading the catalog back *)

(** [tuple.GetValue(schema, schema.GetColIndex(name))] *)
Definition named_value (s : Schema) (n : string) (t : Tuple) : res Value :=
  i ← GetColIndex s (text n); Tuples.GetValue t s i.
Definition named_integer (s : Schema) (n : string) (t : Tuple) : res Z := v ← named_value s n t; ToInteger v.
Definition named_varchar (s : Schema) (n : string) (t : Tuple) : res (list byte) := v ← named_value s n t; ToVarchar v.

(** The column a tuple of the columns catalog describes, if it is of table [oid]. *)
Definition read_column (oid_ : Z) (t : Tuple) : res (option Column) :=
  let s := ColumnsCatalogSchema in
  tableOid ← named_integer s "table_oid" t;
  if negb (tableOid =? oid_) then Ok None
  else
    columnType ← named_integer s "type" t;
    columnName ← named_varchar s "name" t;
    fixedLength ← named_integer s "fixed_length" t;
    variableLength ← named_integer s "variable_length" t;
    columnOffset ← named_integer s "offset" t;
    hasIndex ← named_integer s "has_index" t;
    let column_ := NewColumn columnName (number_type columnType) false in
    Ok (Some (SetHasIndex (Int32toBool hasIndex) (SetOffset (u32 columnOffset)
          (SetVariableLength (u32 variableLength) (SetFixedLength (u32 fixedLength) column_))))).

Fixpoint read_columns (fuel pages : nat) (oid_ : Z) (it : TableHeapIterator) : st (Engine R) (list Column) :=
  match Current it with
  | None => mret []
  | Some t =>
      match fuel with
      | O => st_lift OutOfFuel
      | S fuel' =>
          column_ ← st_lift (read_column oid_ t);
          it' ← Next pages it;
          rest ← read_columns fuel' pages oid_ it';
          mret (match column_ with Some c => c :: rest | None => rest end)
      end
  end.

Fixpoint read_tables (fuel pages : nat) (it : TableHeapIterator) (ids : gmap Z TableMetadata)
    (names : gmap (list byte) TableMetadata) :
    st (Engine R) (gmap Z TableMetadata * gmap (list byte) TableMetadata) :=
  match Current it with
  | None => mret (ids, names)
  | Some t =>
      match fuel with
      | O => st_lift OutOfFuel
      | S fuel' =>
          let s := TableCatalogSchema in
          oid_ ← st_lift (named_integer s "oid" t);
          name_ ← st_lift (named_varchar s "name" t);
          firstPage ← st_lift (named_integer s "first_page" t);
          columnsIt ← NewTableHeapIterator pages (InitTableHeap ColumnsCatalogPageId);
          columns_ ← read_columns fuel pages oid_ columnsIt;
          t ← NewTableMetadata (NewSchema columns_) name_ (InitTableHeap firstPage) (u32 oid_);
          it' ← Next pages it;
          read_tables fuel' pages it' (<[u32 oid_ := t]> ids) (<[name_ := t]> names)
      end
  end.

(** The next table id is 1, whatever the ids read. *)
Definition RecoveryCatalogFromCatalogPage (fuel pages : nat) : st (Engine R) Catalog :=
  it ← NewTableHeapIterator pages (InitTableHeap TableCatalogPageId);
  maps ← read_tables fuel pages it ∅ ∅;
  mret (MkCatalog (fst maps) (snd maps) 1 (InitTableHeap 0)).
End catalog.
