(* ===== verification/TmpTuples.v ===== *)
(** * Temporary tuple pages ([container/hash/tmp_tuple.go],
    [container/hash/tmp_tuple_page.go])

    The pages a hash join keeps the tuples of its left side in: a page id at 0, a free
    space pointer at 16, and the tuples with their sizes from the end of the page
    down. *)

From S2P Require Import Prelude Bytes Tuples Disk.

(** A tuple's place: its page and its offset there. *)
Record TmpTuple : Type := MkTmpTuple { tmp_page_id : Z; tmp_offset : Z }.

Definition offsetFreeSpace : Z := 16.

Definition tmp_SetPageId (page_id : Z) (d : list byte) : res (list byte) := go_copy d 0 (PageID_Serialize page_id).
Definition tmp_GetPageId (d : list byte) : Z := NewPageIDFromBytes (take 4 d).
Definition tmp_GetFreeSpacePointer (d : list byte) : Z := NewUInt32FromBytes (drop (Z.to_nat offsetFreeSpace) d).
Definition tmp_SetFreeSpacePointer (size : Z) (d : list byte) : res (list byte) := go_copy d offsetFreeSpace (le_bytes 4 size).

Definition tmp_Init (page_id page_size : Z) (d : list byte) : res (list byte) :=
  d1 ← tmp_SetPageId page_id d; tmp_SetFreeSpacePointer page_size d1.

(** The page and the place of the tuple, if there was room.  The subtraction of the
    check is of unsigned numbers. *)
Definition tmp_Insert (t : Tuple) (d : list byte) : res (option TmpTuple * list byte) :=
  let free_offset := tmp_GetFreeSpacePointer d in
  let need_size := u32 (4 + size t) in
  if u32 (free_offset - need_size) <? offsetFreeSpace + 4 then Ok (None, d)
  else
    let free_offset := u32 (free_offset - need_size) in
    d1 ← tmp_SetFreeSpacePointer free_offset d;
    let addr := tmp_GetFreeSpacePointer d1 in
    d2 ← go_copy d1 addr (le_bytes 4 (size t));
    bytes ← slice (data t) 0 (size t);
    d3 ← go_copy d2 (addr + 4) bytes;
    Ok (Some (MkTmpTuple (tmp_GetPageId d3) (tmp_GetFreeSpacePointer d3)), d3).

(** Reading into the zero tuple. *)
Definition tmp_Get (offset : Z) (d : list byte) : res Tuple :=
  storage ← slice_from d offset;
  DeserializeFrom ZeroTuple storage (length storage).

(** ** What a page holds *)

(** The page [pid] with the free space below [f]. *)
Record tmp_page (d : list byte) (pid f : Z) : Prop := {
  tmp_len : zlen d = PageSize;
  tmp_pid : tmp_GetPageId d = pid;
  tmp_free : tmp_GetFreeSpacePointer d = f;
  tmp_bounds : offsetFreeSpace + 4 ≤ f ≤ PageSize
}.

(** A tuple as the operators make it. *)
Record plain (t : Tuple) : Prop := { pl_rid : rid t = None; pl_size : size t = zlen (data t) }.

Lemma tmp_GetPageId_field d : tmp_GetPageId d = i32 (zfield 0 d).
Proof. unfold tmp_GetPageId, NewPageIDFromBytes, zfield, field. by rewrite read_le_take. Qed.
Lemma tmp_free_field d : tmp_GetFreeSpacePointer d = zfield offsetFreeSpace d.
Proof. done. Qed.
Lemma zput_run o bs d : 0 ≤ o ≤ zlen d → go_copy d o bs = Ok (zput o bs d).
Proof. apply go_copy_Ok. Qed.
Lemma zlen_word z : zlen (le_bytes 4 z) = 4.
Proof. done. Qed.

Ltac tlia := repeat first [rewrite zput_len | rewrite zlen_word]; unfold offsetFreeSpace, PageSize in *; lia.

Lemma tmp_Init_run pid d : zlen d = PageSize → in_i32 pid →
  ∃ d', tmp_Init pid PageSize d = Ok d' ∧ tmp_page d' pid PageSize.
Proof.
  intros HL Hp. unfold tmp_Init, tmp_SetPageId, tmp_SetFreeSpacePointer, PageID_Serialize.
  rewrite zput_run by tlia. mred. rewrite zput_run by tlia. eexists. split; [done|]. split.
  - tlia.
  - rewrite tmp_GetPageId_field, zfield_put_ne by tlia. rewrite zfield_put by tlia. autorewrite with samehada. by apply i32_small.
  - rewrite tmp_free_field, zfield_put by tlia. done.
  - tlia.
Qed.

Lemma drop_put o off bs d : 0 ≤ off → off + zlen bs ≤ zlen d → off + zlen bs ≤ o → o ≤ zlen d →
  drop (Z.to_nat o) (zput off bs d) = drop (Z.to_nat o) d.
Proof.
  unfold zput, zlen, overwrite. intros. rewrite (take_ge bs) by lia.
  rewrite app_assoc, drop_app_ge by (rewrite length_app, length_take; lia). rewrite drop_drop. f_equal.
  rewrite length_app, length_take. lia.
Qed.

Lemma tmp_Get_fields o d : zlen d = PageSize → 0 ≤ o → o + 4 ≤ PageSize →
  tmp_Get o d = if o + 4 + zfield o d <=? PageSize then Ok (MkTuple None (zfield o d) (zregion (o + 4) (zfield o d) d)) else Panic.
Proof.
  intros HL H0 H4. unfold tmp_Get. rewrite slice_from_Ok by (fold (zlen d); lia). mred. unfold DeserializeFrom.
  assert (Hl : length (drop (Z.to_nat o) d) = Z.to_nat (PageSize - o)) by (rewrite length_drop; unfold zlen in HL; lia).
  destruct (Nat.ltb_spec (length (drop (Z.to_nat o) d)) 4); [lia|]. fold (zfield o d).
  change (read_le 4 (drop (Z.to_nat o) d)) with (zfield o d). pose proof (field_range (Z.to_nat o) d) as HR. fold (zfield o d) in HR.
  unfold slice, TupleSizeOffsetInLogrecord. destruct (Z.leb_spec (o + 4 + zfield o d) PageSize) as [Hs|Hs].
  - rewrite !(proj2 (Z.leb_le _ _)) by (unfold in_u32 in *; lia). cbn [andb]. mred. do 2 f_equal. unfold zregion, region.
    rewrite drop_drop. f_equal; [lia|f_equal; lia].
  - rewrite (proj2 (Z.leb_gt _ (Z.of_nat (length _)))) by lia. by rewrite andb_false_r.
Qed.

(** Room for the tuple: it is written under the others and read back, and they stay. *)
Lemma tmp_Insert_fits t d pid f : tmp_page d pid f → plain t → offsetFreeSpace + 4 ≤ f - (4 + size t) →
  ∃ d', tmp_Insert t d = Ok (Some (MkTmpTuple pid (f - (4 + size t))), d') ∧ tmp_page d' pid (f - (4 + size t)) ∧
    tmp_Get (f - (4 + size t)) d' = Ok t ∧ ∀ o, f ≤ o → tmp_Get o d' = tmp_Get o d.
Proof.
  intros [HL HP HF HB] [HR HS] HFit. set (f' := f - (4 + size t)) in *.
  assert (H0 : 0 ≤ size t) by (rewrite HS; unfold zlen; lia).
  assert (HN : u32 (4 + size t) = 4 + size t) by (apply u32_small; unfold in_u32; tlia).
  assert (Hf : u32 (f - (4 + size t)) = f') by (apply u32_small; unfold in_u32; tlia).
  assert (Hz : zlen (zput offsetFreeSpace (le_bytes 4 f') d) = PageSize) by tlia.
  assert (Hg : tmp_GetFreeSpacePointer (zput offsetFreeSpace (le_bytes 4 f') d) = f').
  { rewrite tmp_free_field, zfield_put by tlia. apply u32_small. unfold in_u32. tlia. }
  assert (Hb : slice (data t) 0 (size t) = Ok (data t)).
  { rewrite slice_Ok by (rewrite HS; unfold zlen; lia). f_equal. rewrite HS, Z.sub_0_r. unfold zlen. rewrite Nat2Z.id. apply region_0_all. }
  unfold tmp_Insert. rewrite HF, HN, Hf. rewrite (proj2 (Z.ltb_ge _ _)) by lia.
  unfold tmp_SetFreeSpacePointer. rewrite zput_run by tlia. mred. rewrite Hg. rewrite zput_run by tlia. mred. rewrite Hb. mred.
  rewrite zput_run by tlia. mred.
  set (d' := zput (f' + 4) (data t) (zput f' (le_bytes 4 (size t)) (zput offsetFreeSpace (le_bytes 4 f') d))).
  assert (HL' : zlen d' = PageSize) by (unfold d'; tlia).
  assert (HF' : tmp_GetFreeSpacePointer d' = f').
  { rewrite tmp_free_field. unfold d'. rewrite !zfield_put_ne by tlia. by rewrite <- tmp_free_field. }
  assert (HP' : tmp_GetPageId d' = pid).
  { rewrite tmp_GetPageId_field in HP |- *. unfold d'. by rewrite !zfield_put_ne by tlia. }
  exists d'. rewrite HF', HP'. split; [done|]. split; [by split; [| | |tlia]|]. split.
  - rewrite (tmp_Get_fields f' d') by tlia.
    assert (Hs : zfield f' d' = size t).
    { unfold d'. rewrite zfield_put_ne by tlia. rewrite zfield_put by tlia. apply u32_small. unfold in_u32. tlia. }
    rewrite Hs. rewrite (proj2 (Z.leb_le _ _)) by tlia. destruct t as [r z bs]. cbn in *. subst r z. do 2 f_equal.
    unfold d'. apply zregion_put; tlia.
  - intros o Ho. unfold tmp_Get, slice_from. fold (zlen d') (zlen d). rewrite HL', HL.
    destruct (_ && _) eqn:Eo; [|done]. apply andb_true_iff in Eo as [_ Eo%Z.leb_le]. unfold d'. by rewrite !drop_put by tlia.
Qed.


(** Almost full: the tuple is refused. *)
Lemma tmp_Insert_full t d pid f : tmp_page d pid f → plain t → 0 ≤ f - (4 + size t) < offsetFreeSpace + 4 →
  tmp_Insert t d = Ok (None, d).
Proof.
  intros [HL HP HF HB] [HR HS] HFull. assert (H0 : 0 ≤ size t) by (rewrite HS; unfold zlen; lia).
  unfold tmp_Insert. rewrite HF, (u32_small (4 + size t)) by (unfold in_u32; tlia). rewrite u32_small by (unfold in_u32; tlia).
  by rewrite (proj2 (Z.ltb_lt _ _)) by lia.
Qed.

(** A tuple larger than what is left: the unsigned subtraction wraps around, and the write
    is out of range. *)
Lemma tmp_Insert_overflow t d pid f : tmp_page d pid f → plain t → f < 4 + size t → size t < 2 ^ 31 →
  tmp_Insert t d = Panic.
Proof.
  intros [HL HP HF HB] [HR HS] HO HT. assert (H0 : 0 ≤ size t) by (rewrite HS; unfold zlen; lia).
  unfold tmp_Insert. rewrite HF, (u32_small (4 + size t)) by (unfold in_u32; lia).
  assert (Hu : u32 (f - (4 + size t)) = 2 ^ 32 + f - (4 + size t)).
  { unfold u32. rewrite <- (Z.mod_add _ 1) by lia. rewrite Z.mod_small; tlia. }
  rewrite Hu. rewrite (proj2 (Z.ltb_ge _ _)) by tlia. unfold tmp_SetFreeSpacePointer. rewrite zput_run by tlia. mred.
  rewrite tmp_free_field, zfield_put, u32_small by (unfold in_u32; tlia).
  set (d1 := zput offsetFreeSpace _ d). assert (HL1 : zlen d1 = PageSize) by (unfold d1; tlia).
  assert (E : ∀ bs, go_copy d1 (2 ^ 32 + f - (4 + size t)) bs = Panic); [|by rewrite E].
  intros bs. unfold go_copy. fold (zlen d1). rewrite (proj2 (Z.leb_gt _ (zlen d1))) by tlia. by rewrite andb_false_r.
Qed.
