(* ===== verification/Executors.v ===== *)
(** * Executors ([execution/executors])

    The volcano-style operators over the engine: [Init] prepares an executor, [Next]
    gives its next tuple.  An executor is a value with its children inside; each
    step returns the executor it has become.  Executors of other tables or plans
    share nothing but the engine. *)

From Stdlib Require Import Sorting.Sorted.
From S2P Require Import Prelude Bytes Types Tuples Disk LogRecord LogManager Replacer ClockReplacer Page BufferPool LockManager PoolView TablePage Engine TableHeap TableScan HashTable HashIndex Expressions Plans Catalog TmpTuples.

(** ** What the language leaves open *)

(** [sort.Slice]: with a strict weak order it arranges the elements so that none is
    before one less than it; equal ones may change places. *)
Class SliceSort : Type := {
  slice_sort : ∀ {A : Type}, (A → A → res bool) → list A → res (list A);
  slice_sort_spec : ∀ {A} (less : A → A → res bool) (f : A → A → bool) (l : list A),
    (∀ x y, x ∈ l → y ∈ l → less x y = Ok (f x y)) →
    (∀ x y, x ∈ l → y ∈ l → f x y = true → f y x = false) →
    (∀ x y z, x ∈ l → y ∈ l → z ∈ l → f x y = false → f y z = false → f x z = false) →
    ∃ l', slice_sort less l = Ok l' ∧ l' ≡ₚ l ∧ StronglySorted (λ x y, f y x = false) l'
}.

(** The order in which [range] visits the keys of a map. *)
Class MapRange : Type := {
  range_keys : ∀ {A : Type}, gmap Z A → list Z;
  range_keys_spec : ∀ {A} (m : gmap Z A), range_keys m ≡ₚ (map_to_list m).*1
}.

(** ** Aggregation tables *)

(** Maps from the hash of a group's key to its aggregates and to its key. *)
Record SimpleAggregationHashTable : Type := MkAHT {
  ht_val : gmap Z (list Value);
  ht_key : gmap Z (list Value)
}.
Definition NewSimpleAggregationHashTable : SimpleAggregationHashTable := MkAHT ∅ ∅.

Record AggregateHTIterator : Type := MkHTIterator {
  it_keys : list (list Value);
  it_values : list (list Value);
  it_index : Z
}.
Definition it_len (it : AggregateHTIterator) : Z := i32 (Z.of_nat (length (it_keys it))).
Definition it_next (it : AggregateHTIterator) : AggregateHTIterator :=
  MkHTIterator (it_keys it) (it_values it) (i32 (it_index it + 1)).
Definition IsEnd (it : AggregateHTIterator) : bool := it_len it <=? it_index it.
Definition IsNextEnd (it : AggregateHTIterator) : bool := it_len it <=? i32 (it_index it + 1).
(** [Key] and [Val]: the nil they return past the end panics when it is used. *)
Definition it_key (it : AggregateHTIterator) : res (list Value) := index (it_keys it) (it_index it).
Definition it_val (it : AggregateHTIterator) : res (list Value) := index (it_values it) (it_index it).

Definition GenerateInitialAggregateValue (agg_types : list AggregationType) : list Value :=
  (λ t, match t with
        | COUNT_AGGREGATE | SUM_AGGREGATE => NewInteger 0
        | MIN_AGGREGATE => NewInteger (2 ^ 31 - 1)
        | MAX_AGGREGATE => NewInteger (- 2 ^ 31)
        end) <$> agg_types.

Definition combine_one (agg_type : AggregationType) (result : Value) (input : res Value) : res Value :=
  match agg_type with
  | COUNT_AGGREGATE => Add result (NewInteger 1)
  | SUM_AGGREGATE => i ← input; Add result i
  | MIN_AGGREGATE => i ← input; Min result i
  | MAX_AGGREGATE => i ← input; Max result i
  end.
(** The loop over the [n] aggregates. *)
Definition CombineAggregateValues (n : nat) (agg_types : list AggregationType) (result input : list Value) : res (list Value) :=
  res_foldl (λ result i,
    t ← index agg_types (Z.of_nat i);
    r ← index result (Z.of_nat i);
    v ← combine_one t r (index input (Z.of_nat i));
    Ok (<[i := v]> result)) (seq 0 n) result.

(** ** Hash join tables *)
Definition jht_Insert (h : Z) (t : TmpTuple) (m : gmap Z (list TmpTuple)) : gmap Z (list TmpTuple) :=
  <[h := default [] (m !! h) ++ [t]]> m.
Definition jht_GetValue (h : Z) (m : gmap Z (list TmpTuple)) : list TmpTuple := default [] (m !! h).

Record JoinState : Type := MkJoin {
  jht : gmap Z (list TmpTuple);
  tmp_tuples : list TmpTuple;
  index_ : Z;
  output_exprs_ : list Expression;
  tmp_page_ids : list Z;
  right_tuple : Tuple;
  left_expr : option Expression;
  right_expr : option Expression
}.
Definition fresh_join : JoinState := MkJoin ∅ [] 0 [] [] ZeroTuple None None.

(** ** The executors

    What each takes of its plan, its table or children, and its state. *)
Inductive Executor : Type :=
  | SeqScanExecutor (outputSchema : Schema) (predicate : option Expression) (tm : option TableMetadata)
      (it : option TableHeapIterator)
  | InsertExecutor (rawValues : list (list Value)) (tm : option TableMetadata)
  | DeleteExecutor (predicate : option Expression) (tm : option TableMetadata) (it : option TableHeapIterator)
  | UpdateExecutor (rawValues : list Value) (update_col_idxs : option (list Z)) (predicate : option Expression)
      (tm : option TableMetadata) (it : option TableHeapIterator)
  | HashScanIndexExecutor (outputSchema : Schema) (predicate : Expression) (tm : option TableMetadata)
      (foundTuples : list Tuple)
  | LimitExecutor (limit offset : Z) (child : Executor) (emitted skipped : Z)
  | OrderbyExecutor (child_schema : option Schema) (col_idxs : list Z) (orderby_types : list OrderbyType)
      (child : Executor) (sort_tuples : list Tuple) (cur_idx : nat)
  | AggregationExecutor (outputSchema : Schema) (output_exprs : list Expression) (having : option Expression)
      (group_bys aggregates : list Expression) (agg_types : list AggregationType) (child : Executor)
      (aht : SimpleAggregationHashTable) (aht_iterator : option AggregateHTIterator)
  | HashJoinExecutor (outputSchema : Schema) (left_schema right_schema : option Schema) (predicate : Expression)
      (left right : Executor) (state : JoinState).

Fixpoint CreateExecutor (c : Catalog) (p : Plan) : Executor :=
  match p with
  | SeqScanPlanNode s pr o => SeqScanExecutor s pr (GetTableByOID c o) None
  | InsertPlanNode vs o => InsertExecutor vs (GetTableByOID c o)
  | DeletePlanNode pr o => DeleteExecutor pr (GetTableByOID c o) None
  | UpdatePlanNode vs cols pr o => UpdateExecutor vs cols pr (GetTableByOID c o) None
  | LimitPlanNode ch l o => LimitExecutor l o (CreateExecutor c ch) 0 0
  | HashScanIndexPlanNode s pr o => HashScanIndexExecutor s pr (GetTableByOID c o) []
  | HashJoinPlanNode s l r pr =>
      HashJoinExecutor s (OutputSchema l) (OutputSchema r) pr (CreateExecutor c l) (CreateExecutor c r) fresh_join
  | AggregationPlanNode s exprs ch hv gb ag ts =>
      AggregationExecutor s exprs hv gb ag ts (CreateExecutor c ch) NewSimpleAggregationHashTable None
  | OrderbyPlanNode s ch cols ts => OrderbyExecutor s cols ts (CreateExecutor c ch) [] 0
  end.

(** The output schema of the plan of an executor; nil for some. *)
Definition GetOutputSchema (x : Executor) : option Schema :=
  match x with
  | SeqScanExecutor s _ _ _ | HashScanIndexExecutor s _ _ _ | AggregationExecutor s _ _ _ _ _ _ _ _
  | HashJoinExecutor s _ _ _ _ _ _ => Some s
  | OrderbyExecutor s _ _ _ _ _ => s
  | _ => None
  end.

(** What a call of [Next] returns besides the executor. *)
Record Result : Type := MkResult { res_tuple : option Tuple; res_done : bool; res_err : bool }.
Definition got (t : Tuple) : Result := MkResult (Some t) false false.
Definition nothing_yet : Result := MkResult None false false.
Definition finished : Result := MkResult None true false.
Definition failed (done : bool) : Result := MkResult None done true.

Section executors.
Variable murmur3 : list byte → list byte.
Context {R : Type} `{Replacer R} `{SliceSort} `{MapRange}.

(** ** Scans *)

(** [selects]: nil selects everything. *)
Definition selects (tm : TableMetadata) (predicate : option Expression) (t : Tuple) : res bool :=
  match predicate with
  | None => Ok true
  | Some p => v ← Evaluate p (Some t) (schema tm); ToBoolean v
  end.

(** [projects]: the columns of the output schema, found by name. *)
Definition projects (out : Schema) (tm : TableMetadata) (t : Tuple) : res Tuple :=
  values ← mapM (λ c, i ← GetColIndex (schema tm) (columnName c); Tuples.GetValue t (schema tm) i) (columns out);
  NewTupleFromSchema values out.

(** The loop of the three scans: on to the next tuple that is selected.  A tuple that
    is nil ends the iterator, so the error for one is never returned. *)
Fixpoint scan_to (turns fuel : nat) (sel : Tuple → res bool) (it : TableHeapIterator) : st (Engine R) TableHeapIterator :=
  match Current it with
  | None => mret it
  | Some t =>
      b ← st_lift (sel t);
      if b : bool then mret it
      else
        match turns with
        | O => st_lift OutOfFuel
        | S turns' => it' ← TableScan.Next fuel it; scan_to turns' fuel sel it'
        end
  end.

Definition start_scan (fuel : nat) (tm : option TableMetadata) : st (Engine R) (option TableHeapIterator) :=
  t ← st_lift (deref tm); it ← NewTableHeapIterator fuel (table t); mret (Some it).

(** *** Indexes of a row *)

(** The loop over the columns, for those with an index. *)
Fixpoint over_indexes (n : nat) (i : Z) (tm : TableMetadata) (f : IndexHandle → st (Engine R) unit) : st (Engine R) unit :=
  match n with
  | O => mret tt
  | S n' =>
      ret ← st_lift (GetIndex tm i);
      _ ← (match ret with Some ix => f ix | None => mret tt end);
      over_indexes n' (i + 1) tm f
  end.
Definition each_index (tm : TableMetadata) (f : IndexHandle → st (Engine R) unit) : st (Engine R) unit :=
  over_indexes (Z.to_nat (GetColumnNum tm)) 0 tm f.

Definition enter (fuel : nat) (key : Tuple) (r : RID) (ix : IndexHandle) : st (Engine R) unit :=
  with_index ix (InsertEntry murmur3 fuel key r).
Definition withdraw (fuel : nat) (key : Tuple) (r : RID) (ix : IndexHandle) : st (Engine R) unit :=
  with_index ix (DeleteEntry murmur3 fuel key r).

(** *** Inserting *)

(** The loop over the rows: whether an insert failed. *)
Fixpoint insert_rows (fuel : nat) (tm : TableMetadata) (rows : list (list Value)) : st (Engine R) bool :=
  match rows with
  | [] => mret false
  | values :: rows' =>
      tuple_ ← st_lift (NewTupleFromSchema values (schema tm));
      r ← TableHeap.InsertTuple fuel (table tm) tuple_;
      match fst r with
      | inl _ => mret true
      | inr rid => _ ← each_index tm (enter fuel (snd r) rid); insert_rows fuel tm rows'
      end
  end.

(** *** Deleting and updating

    At a selected tuple; the iterator is moved on when the step is over. *)
Definition delete_at (fuel : nat) (tm : TableMetadata) (t : Tuple) : st (Engine R) Result :=
  rid ← st_lift (deref (Tuples.rid t));
  is_marked ← TableHeap.MarkDelete (table tm) rid;
  if negb (is_marked : bool) then mret (failed false)
  else _ ← each_index tm (withdraw fuel t rid); mret (got t).

Definition update_at (fuel : nat) (tm : TableMetadata) (values : list Value) (cols : option (list Z)) (t : Tuple) :
    st (Engine R) Result :=
  rid ← st_lift (deref (Tuples.rid t));
  new_tuple ← st_lift (NewTupleFromSchema values (schema tm));
  r ← TableHeap.UpdateTuple fuel (table tm) new_tuple cols
        (match cols with None => None | Some _ => Some (schema tm) end) rid;
  let '(is_updated, new_rid) := r in
  if negb (is_updated : bool) then mret (failed false)
  else
    _ ← each_index tm (λ ix,
          _ ← withdraw fuel t rid ix;
          enter fuel new_tuple (default rid new_rid) ix);
    mret (got new_tuple).

Definition scan_step (fuel : nat) (tm : option TableMetadata) (it : option TableHeapIterator) (predicate : option Expression)
    (at_tuple : TableMetadata → Tuple → st (Engine R) Result) : st (Engine R) (option TableHeapIterator * Result) :=
  tm ← st_lift (deref tm);
  it ← st_lift (deref it);
  it ← scan_to fuel fuel (selects tm predicate) it;
  match Current it with
  | None => mret (Some it, finished)
  | Some t =>
      r ← at_tuple tm t;
      it ← TableScan.Next fuel it;
      mret (Some it, r)
  end.

(** *** Index scans *)

(** The search for the index of the predicate's column, in the order of the columns. *)
Fixpoint find_index (col : Z) (i : Z) (ixs : list (option IndexHandle)) : res IndexHandle :=
  match ixs with
  | [] => Panic
  | Some ix :: ixs' => if col =? i then Ok ix else find_index col (i + 1) ixs'
  | None :: ixs' => find_index col (i + 1) ixs'
  end.

(** The tuples of the RIDs; none at all when one of them cannot be read. *)
Fixpoint fetch_all (t : TableHeap) (rids : list RID) (found : list Tuple) : st (Engine R) (list Tuple) :=
  match rids with
  | [] => mret found
  | rid :: rids' =>
      o ← TableHeap.GetTuple t rid;
      match o with None => mret [] | Some tuple_ => fetch_all t rids' (found ++ [tuple_]) end
  end.

Definition index_lookup (fuel : nat) (predicate : Expression) (tm : TableMetadata) : st (Engine R) (list Tuple) :=
  colIdxOfPred ← st_lift (GetLeftSideColIdx predicate);
  index_ ← st_lift (find_index colIdxOfPred 0 (take (Z.to_nat (GetColumnNum tm)) (indexes tm)));
  key ← st_lift (GetRightSideValue predicate None (schema tm));
  dummyTuple ← st_lift (GenTupleForHashIndexSearch (schema tm) colIdxOfPred key);
  rids ← with_index index_ (ScanKey murmur3 fuel dummyTuple);
  fetch_all (table tm) rids [].

(** The tuples found, one at a time. *)
Definition next_found (out : Schema) (tm : option TableMetadata) (found : list Tuple) : res (list Tuple * Result) :=
  match found with
  | [] => Ok ([], finished)
  | t :: found' => tm' ← deref tm; o ← projects out tm' t; Ok (found', got o)
  end.

(** A schema that may be nil: to look a column up in it panics, as in the empty one. *)
Definition schema_of (s : option Schema) : Schema := default EmptySchema s.

(** ** Sorting *)

(** One turn of [Init]'s loop: the tuple is kept, and with the values of the sort
    columns the number of turns before. *)
Definition sort_row (child_schema : option Schema) (col_idxs : list Z) (cnt : Z) (t : Tuple) : res (list Value) :=
  vals ← mapM (λ i, Tuples.GetValue t (schema_of child_schema) (u32 i)) col_idxs;
  Ok (vals ++ [NewInteger cnt]).

(** The function given to [sort.Slice], from column [idx] on. *)
Fixpoint row_less (orderby_types : list OrderbyType) (n : nat) (idx : Z) (x y : list Value) : res bool :=
  match n with
  | O => Ok false
  | S n' =>
      order_type ← index orderby_types idx;
      a ← index x idx;
      b ← index y idx;
      eq ← CompareEquals a b;
      if eq : bool then row_less orderby_types n' (idx + 1) x y
      else
        lt ← CompareLessThan a b;
        Ok (if decide (order_type = ASC) then lt else negb lt)
  end.

(** The tuples in the order of the sorted rows. *)
Definition arrange (tuples : list Tuple) (n : nat) (rows : list (list Value)) : res (list Tuple) :=
  mapM (λ row, v ← index row (Z.of_nat n); i ← ToInteger v; index tuples i) rows.

Definition sort_tuples_ (orderby_types : list OrderbyType) (n : nat) (tuples : list Tuple) (rows : list (list Value)) : res (list Tuple) :=
  sorted ← slice_sort (row_less orderby_types n 0) rows; arrange tuples n sorted.

(** The sorted tuples, one at a time. *)
Definition next_sorted (tuples : list Tuple) (cur_idx : nat) : nat * Result :=
  match tuples !! cur_idx with
  | Some t => (S cur_idx, got t)
  | None => (cur_idx, finished)
  end.

(** ** Aggregating *)
Definition HashValuesOnAggregateKey (key : list Value) : res Z :=
  bytes ← mapM Serialize key; GenHashMurMur murmur3 (mjoin bytes).

Definition InsertCombine (n : nat) (agg_types : list AggregationType) (agg_key agg_val : list Value)
    (aht : SimpleAggregationHashTable) : res SimpleAggregationHashTable :=
  h ← HashValuesOnAggregateKey agg_key;
  let cur_val := default (GenerateInitialAggregateValue agg_types) (ht_val aht !! h) in
  combined ← CombineAggregateValues n agg_types cur_val agg_val;
  Ok (MkAHT (<[h := combined]> (ht_val aht)) (<[h := default agg_key (ht_key aht !! h)]> (ht_key aht))).

(** [Begin]: the entries in the order [range] finds them. *)
Definition aht_Begin (aht : SimpleAggregationHashTable) : AggregateHTIterator :=
  let hs := range_keys (ht_val aht) in
  MkHTIterator ((λ h, default [] (ht_key aht !! h)) <$> hs) ((λ h, default [] (ht_val aht !! h)) <$> hs) 0.

(** [Init]'s type assertion on the expressions of the output columns. *)
Definition agg_expr (e : Expression) : res Expression :=
  match e with AggregateValueExpression _ _ _ => Ok e | _ => Panic end.

(** The values of the grouping or aggregated expressions in a tuple of the child. *)
Definition evaluate_all (exprs : list Expression) (child_schema : option Schema) (t : Tuple) : res (list Value) :=
  mapM (λ e, Evaluate e (Some t) (schema_of child_schema)) exprs.

(** The loop of [Next] that skips groups: it never looks at the last one. *)
Fixpoint skip_groups (fuel : nat) (having : option Expression) (it : AggregateHTIterator) : res AggregateHTIterator :=
  if IsNextEnd it then Ok it
  else
    match having with
    | None => Ok it
    | Some hv =>
        k ← it_key it; v ← it_val it;
        x ← EvaluateAggregate hv k v;
        b ← ToBoolean x;
        if b : bool then Ok it
        else match fuel with O => OutOfFuel | S fuel' => skip_groups fuel' having (it_next it) end
    end.

Definition aggregate_step (fuel : nat) (out : Schema) (exprs : list Expression) (having : option Expression)
    (it : AggregateHTIterator) : res (AggregateHTIterator * Result) :=
  it ← skip_groups fuel having it;
  if IsEnd it then Ok (it, finished)
  else
    k ← it_key it; v ← it_val it;
    values ← mapM (λ e, EvaluateAggregate e k v) exprs;
    t ← NewTupleFromSchema values out;
    Ok (it_next it, got t).

(** ** Limiting *)
Definition limit_step (limit offset emitted skipped : Z) (r : Result) : Z * Z * Result :=
  if res_err r then (emitted, skipped, failed (res_done r))
  else
    match res_tuple r with
    | None => (emitted, skipped, failed true)
    | Some t =>
        if skipped <? offset then (emitted, u32 (skipped + 1), nothing_yet)
        else
          let emitted := u32 (emitted + 1) in
          if limit <? emitted then (emitted, skipped, finished) else (emitted, skipped, got t)
    end.

(** ** Joining *)

(** The expressions of the output columns. *)
Definition join_exprs (out left_schema right_schema : Schema) : res (list Expression) :=
  mapM (λ c,
    if isLeft c then i ← GetColIndex left_schema (columnName c); Ok (ColumnValue 0 i Invalid)
    else i ← GetColIndex right_schema (columnName c); Ok (ColumnValue 1 i Invalid)) (columns out).

Definition on_tmp_page {A} (p : ptr) (f : list byte → res (A * list byte)) : st (Engine R) A := with_store (λ s,
  pg ← deref (page_objs s !! p);
  r ← f (pdata pg);
  Ok (fst r, upd_obj p (set_pdata (snd r) pg) s)).

(** The loop that builds the table keeps the page it fills, and the place of the last
    tuple. *)
Record Building : Type := MkBuilding { b_page : option ptr; b_page_id : Z; b_tmp : TmpTuple }.
Definition building_0 : Building := MkBuilding None InvalidPageID (MkTmpTuple 0 0).

Definition insert_tmp (p : ptr) (t : Tuple) (tmp : TmpTuple) : st (Engine R) (bool * TmpTuple) :=
  o ← on_tmp_page p (tmp_Insert t);
  mret (match o with Some tmp' => (true, tmp') | None => (false, tmp) end).

(** A new page, with the tuple; whether it fits there is not looked at. *)
Definition new_tmp_page (b : Building) (t : Tuple) : st (Engine R) Building :=
  _ ← (if b_page_id b =? InvalidPageID then mret true else with_store (UnpinPage (b_page_id b) true));
  o ← with_store NewPage;
  p ← st_lift (deref o);
  pg ← with_store (read_page p);
  _ ← on_tmp_page p (λ d, d' ← tmp_Init (id pg) PageSize d; Ok (tt, d'));
  r ← insert_tmp p t (b_tmp b);
  mret (MkBuilding (Some p) (id pg) (snd r)).

Definition store_tmp (b : Building) (t : Tuple) (pids : list Z) : st (Engine R) (Building * list Z) :=
  r ← (match b_page b with
       | None => mret (false, b_tmp b)
       | Some p => insert_tmp p t (b_tmp b)
       end);
  if fst r : bool then mret (MkBuilding (b_page b) (b_page_id b) (snd r), pids)
  else b' ← new_tmp_page b t; mret (b', pids ++ [b_page_id b']).

Definition note_left (left_expr : option Expression) (left_schema : option Schema) (t : Tuple) (tmp : TmpTuple)
    (m : gmap Z (list TmpTuple)) : res (gmap Z (list TmpTuple)) :=
  expr ← deref left_expr;
  valueAsKey ← Evaluate expr (Some t) (schema_of left_schema);
  if IsNull valueAsKey then Ok m
  else h ← HashValue murmur3 valueAsKey; Ok (jht_Insert h tmp m).

Fixpoint build_join (fuel : nat) (next : Executor → st (Engine R) (Executor * Result)) (left_expr : option Expression)
    (left : Executor) (b : Building) (m : gmap Z (list TmpTuple)) (pids : list Z) :
    st (Engine R) (Executor * gmap Z (list TmpTuple) * list Z) :=
  match fuel with
  | O => st_lift OutOfFuel
  | S fuel' =>
      x ← next left;
      let '(lx, r) := x in
      if res_done r then mret (lx, m, pids)
      else
        match res_tuple r with
        | None => mret (lx, m, pids)
        | Some t =>
            y ← store_tmp b t pids;
            let '(b, pids) := y in
            m ← st_lift (note_left left_expr (GetOutputSchema lx) t (b_tmp b) m);
            build_join fuel' next left_expr lx b m pids
        end
  end.

(** [FetchTupleFromTmpTuplePage] *)
Definition fetch_tmp (tmp : TmpTuple) : st (Engine R) Tuple :=
  o ← with_store (FetchPage (tmp_page_id tmp));
  p ← st_lift (deref o);
  pg ← with_store (read_page p);
  t ← st_lift (tmp_Get (tmp_offset tmp) (pdata pg));
  _ ← with_store (UnpinPage (tmp_page_id tmp) false);
  mret t.

(** [IsValidCombination] and [MakeOutputTuple] *)
Definition valid_pair (predicate : Expression) (ls rs : option Schema) (left right : Tuple) : res bool :=
  v ← EvaluateJoin predicate left (schema_of ls) right (schema_of rs); ToBoolean v.
Definition joined (out : Schema) (exprs : list Expression) (ls rs : option Schema) (left right : Tuple) : res Tuple :=
  values ← mapM (λ e, EvaluateJoin e left (schema_of ls) right (schema_of rs)) exprs;
  NewTupleFromSchema values out.

(** The loop over the left tuples of a right tuple, from [tmps] on: the number of
    tuples passed, and the first that fits. *)
Fixpoint find_pair (predicate : Expression) (ls rs : option Schema) (right : Tuple) (tmps : list TmpTuple) (k : Z) :
    st (Engine R) (Z * option Tuple) :=
  match tmps with
  | [] => mret (k, None)
  | tmp :: tmps' =>
      lt ← fetch_tmp tmp;
      b ← st_lift (valid_pair predicate ls rs lt right);
      if b : bool then mret (k, Some lt) else find_pair predicate ls rs right tmps' (k + 1)
  end.

(** The next right tuple: its hash selects the left tuples to try; one with a NULL key
    selects none. *)
Definition take_right (right_schema : option Schema) (t : Tuple) (j : JoinState) : res JoinState :=
  expr ← deref (right_expr j);
  value ← Evaluate expr (Some t) (schema_of right_schema);
  tmps ← (if IsNull value then Ok [] else h ← HashValue murmur3 value; Ok (jht_GetValue h (jht j)));
  Ok (MkJoin (jht j) tmps 0 (output_exprs_ j) (tmp_page_ids j) t (left_expr j) (right_expr j)).

Fixpoint delete_pages (pids : list Z) : st (Engine R) unit :=
  match pids with
  | [] => mret tt
  | pid :: pids' => _ ← with_store (DeletePage pid); delete_pages pids'
  end.

(** One turn of [Next]'s loops: the left tuples of the right one are exhausted, or
    one is looked for. *)
Fixpoint join_next (fuel : nat) (next : Executor → st (Engine R) (Executor * Result)) (out : Schema)
    (predicate : Expression) (left right : Executor) (j : JoinState) :
    st (Engine R) (Executor * JoinState * Result) :=
  match fuel with
  | O => st_lift OutOfFuel
  | S fuel' =>
      if index_ j =? Z.of_nat (length (tmp_tuples j)) then
        x ← next right;
        let '(rx, r) := x in
        let j := MkJoin (jht j) [] 0 (output_exprs_ j) (tmp_page_ids j) (right_tuple j) (left_expr j) (right_expr j) in
        if res_done r then
          match res_tuple r with
          | None => mret (rx, j, failed false)
          | Some t => _ ← delete_pages (tmp_page_ids j); mret (rx, j, MkResult (Some t) true false)
          end
        else
          t ← st_lift (deref (res_tuple r));
          j ← st_lift (take_right (GetOutputSchema rx) t j);
          join_next fuel' next out predicate left rx j
      else
        y ← find_pair predicate (GetOutputSchema left) (GetOutputSchema right) (right_tuple j)
              (drop (Z.to_nat (index_ j)) (tmp_tuples j)) (index_ j);
        let '(k, found) := y in
        match found with
        | Some lt =>
            t ← st_lift (joined out (output_exprs_ j) (GetOutputSchema left) (GetOutputSchema right) lt (right_tuple j));
            mret (right, MkJoin (jht j) (tmp_tuples j) (i32 (k + 1)) (output_exprs_ j) (tmp_page_ids j) (right_tuple j)
                           (left_expr j) (right_expr j), got t)
        | None =>
            join_next fuel' next out predicate left right
              (MkJoin (jht j) (tmp_tuples j) (i32 k) (output_exprs_ j) (tmp_page_ids j) (right_tuple j)
                 (left_expr j) (right_expr j))
        end
  end.

(** ** Init and Next

    [depth] bounds the height of the tree, [fuel] the turns of the loops. *)
Fixpoint Next (depth fuel : nat) (x : Executor) : st (Engine R) (Executor * Result) :=
  match depth with
  | O => st_lift OutOfFuel
  | S depth' =>
      match x with
      | SeqScanExecutor s pr tm it =>
          r ← scan_step fuel tm it pr (λ tm t, out ← st_lift (projects s tm t); mret (got out));
          mret (SeqScanExecutor s pr tm (fst r), snd r)
      | InsertExecutor vs tm =>
          m ← st_lift (match vs with [] => Ok None | _ => t ← deref tm; Ok (Some t) end);
          err ← (match m with None => mret false | Some t => insert_rows fuel t vs end);
          mret (InsertExecutor vs tm, if err : bool then failed true else finished)
      | DeleteExecutor pr tm it =>
          r ← scan_step fuel tm it pr (delete_at fuel);
          mret (DeleteExecutor pr tm (fst r), snd r)
      | UpdateExecutor vs cols pr tm it =>
          r ← scan_step fuel tm it pr (λ tm, update_at fuel tm vs cols);
          mret (UpdateExecutor vs cols pr tm (fst r), snd r)
      | HashScanIndexExecutor s pr tm found =>
          r ← st_lift (next_found s tm found);
          mret (HashScanIndexExecutor s pr tm (fst r), snd r)
      | LimitExecutor l o c em sk =>
          cr ← Next depth' fuel c;
          let '(em, sk, r) := limit_step l o em sk (snd cr) in
          mret (LimitExecutor l o (fst cr) em sk, r)
      | OrderbyExecutor s cols ts c tuples cur =>
          let '(cur, r) := next_sorted tuples cur in
          mret (OrderbyExecutor s cols ts c tuples cur, r)
      | AggregationExecutor s exprs hv gb ag ts c aht it =>
          r ← st_lift (i ← deref it; aggregate_step fuel s exprs hv i);
          mret (AggregationExecutor s exprs hv gb ag ts c aht (Some (fst r)), snd r)
      | HashJoinExecutor s ls rs pr lx rx j =>
          r ← join_next fuel (Next depth' fuel) s pr lx rx j;
          let '(rx, j, r) := r in
          mret (HashJoinExecutor s ls rs pr lx rx j, r)
      end
  end.

(** The loops of [Init] over a child: every tuple goes to [f], until the child is done or
    fails; a turn without a tuple counts, and no more. *)
Fixpoint drain {A} (turns depth fuel : nat) (f : Z → Tuple → A → res A) (cnt : Z) (x : Executor) (acc : A) :
    st (Engine R) (Executor * A) :=
  match turns with
  | O => st_lift OutOfFuel
  | S turns' =>
      y ← Next depth fuel x;
      let '(x, r) := y in
      if res_err r || res_done r then mret (x, acc)
      else
        acc ← st_lift (match res_tuple r with Some t => f cnt t acc | None => Ok acc end);
        drain turns' depth fuel f (i32 (cnt + 1)) x acc
  end.

Fixpoint Init (depth fuel : nat) (x : Executor) : st (Engine R) Executor :=
  match depth with
  | O => st_lift OutOfFuel
  | S depth' =>
      match x with
      | SeqScanExecutor s pr tm it => it ← start_scan fuel tm; mret (SeqScanExecutor s pr tm it)
      | InsertExecutor _ _ => mret x
      | DeleteExecutor pr tm it => it ← start_scan fuel tm; mret (DeleteExecutor pr tm it)
      | UpdateExecutor vs cols pr tm it => it ← start_scan fuel tm; mret (UpdateExecutor vs cols pr tm it)
      | HashScanIndexExecutor s pr tm _ =>
          t ← st_lift (deref tm);
          found ← index_lookup fuel pr t;
          mret (HashScanIndexExecutor s pr tm found)
      | LimitExecutor l o c em sk => c ← Init depth' fuel c; mret (LimitExecutor l o c em sk)
      | OrderbyExecutor s cols ts c tuples cur =>
          c ← Init depth' fuel c;
          let cs := GetOutputSchema c in
          y ← drain fuel depth' fuel (λ cnt t acc,
                row ← sort_row cs cols cnt t; Ok (fst acc ++ [t], snd acc ++ [row])) 0 c (tuples, []);
          sorted ← st_lift (sort_tuples_ ts (length cols) (fst (snd y)) (snd (snd y)));
          mret (OrderbyExecutor s cols ts (fst y) sorted cur)
      | AggregationExecutor s exprs hv gb ag ts c aht it =>
          c ← Init depth' fuel c;
          exprs ← st_lift (mapM agg_expr exprs);
          let cs := GetOutputSchema c in
          y ← drain fuel depth' fuel (λ _ t aht,
                k ← evaluate_all gb cs t; v ← evaluate_all ag cs t; InsertCombine (length ag) ts k v aht) 0 c aht;
          mret (AggregationExecutor s exprs hv gb ag ts (fst y) (snd y) (Some (aht_Begin (snd y))))
      | HashJoinExecutor s ls rs pr lx rx j =>
          exprs ← st_lift (join_exprs s (schema_of ls) (schema_of rs));
          lx ← Init depth' fuel lx;
          rx ← Init depth' fuel rx;
          le ← st_lift (GetChildAt pr 0);
          re ← st_lift (GetChildAt pr 1);
          y ← build_join fuel (Next depth' fuel) le lx building_0 (jht j) (tmp_page_ids j);
          let '(lx, m, pids) := y in
          mret (HashJoinExecutor s ls rs pr lx rx
                  (MkJoin m (tmp_tuples j) (index_ j) (output_exprs_ j ++ exprs) pids (right_tuple j) le re))
      end
  end.

(** ** The engine's loop *)
Fixpoint run_executor (turns depth fuel : nat) (x : Executor) : st (Engine R) (list Tuple) :=
  match turns with
  | O => st_lift OutOfFuel
  | S turns' =>
      y ← Next depth fuel x;
      let '(x, r) := y in
      if res_err r || res_done r then mret []
      else
        rest ← run_executor turns' depth fuel x;
        mret (match res_tuple r with Some t => t :: rest | None => rest end)
  end.

Definition Execute (fuel : nat) (c : Catalog) (p : Plan) : st (Engine R) (list Tuple) :=
  x ← Init (height p) fuel (CreateExecutor c p);
  run_executor fuel (height p) fuel x.
End executors.
