(* ===== verification/Ordering.v ===== *)
(** * Sorting rows ([execution/executors/orderby_executor.go])

    The order of ORDER BY: rows are compared column by column, each ascending or
    descending.  On columns without NULLs it is a total order of the rows, and the
    executor's comparison function is its strict part. *)

From Stdlib Require Import Sorting.Sorted.
From S2P Require Import Prelude Bytes Types Tuples Plans Executors.

(** ** Comparable values *)
Lemma compare_runs v w c : value_compare v w = Some c →
  CompareEquals v w = Ok (is_eq c) ∧ CompareLessThan v w = Ok (is_lt c).
Proof.
  intros (N1 & N2 & [(a & b & T1 & T2 & E1 & E2 & ->)|(a & b & T1 & T2 & E1 & E2 & ->)])%value_compare_inv;
    unfold CompareEquals, CompareLessThan, IsNull; rewrite N1, ?N2, T1; unfold deref2, bytes_eqb, bytes_ltb;
    rewrite E1, E2; cbn -[Z.eqb Z.ltb]; rewrite ?Z.eqb_compare; unfold Z.ltb; split; f_equal;
    first [by destruct (a ?= b) | by destruct (bytes_compare a b)].
Qed.

Lemma value_compare_eq v w : value_compare v w = Some Eq → ∀ x, value_compare v x = value_compare w x.
Proof.
  intros (N1 & N2 & [(a & b & T1 & T2 & E1 & E2 & C)|(a & b & T1 & T2 & E1 & E2 & C)])%value_compare_inv x;
    unfold value_compare, IsNull; rewrite N1, N2, T1, T2, E1, E2.
  - symmetry in C. apply Z.compare_eq in C as ->. done.
  - symmetry in C. apply bytes_compare_eq in C as ->. done.
Qed.

(** ** The order of rows *)
Fixpoint lex (orders : list OrderbyType) (x y : list Value) : comparison :=
  match orders, x, y with
  | o :: orders', a :: x', b :: y' =>
      match value_compare a b with
      | Some Eq => lex orders' x' y'
      | Some c => if decide (o = ASC) then c else CompOpp c
      | None => Eq
      end
  | _, _, _ => Eq
  end.

Definition comparable_keys (x y : list Value) : Prop := Forall2 (λ a b, is_Some (value_compare a b)) x y.

Lemma lex_antisym orders x y : comparable_keys x y → lex orders y x = CompOpp (lex orders x y).
Proof.
  intros HC. revert orders. induction HC as [|a b x y [c Hc] _ IH]; intros [|o orders]; try done.
  cbn [lex]. rewrite Hc, (value_compare_antisym _ _ _ Hc). destruct c; cbn [CompOpp]; [apply IH|..]; case_decide; done.
Qed.

Lemma lex_ge_trans orders x y z :
  comparable_keys x y → comparable_keys y z → comparable_keys x z →
  lex orders x y ≠ Lt → lex orders y z ≠ Lt → lex orders x z ≠ Lt.
Proof.
  intros Hxy. revert orders z. induction Hxy as [|a b x y [c Hc] _ IH]; intros orders z Hyz Hxz; [by destruct orders|].
  inversion Hyz as [|? d ? z' [c' Hc'] Hyz']; subst. inversion Hxz as [|? ? ? ? [c'' Hc''] Hxz']; subst.
  destruct orders as [|o orders]; [done|]. cbn [lex]. rewrite Hc, Hc'.
  destruct c.
  - rewrite (value_compare_eq _ _ Hc), Hc'. destruct c'; [by apply IH|done..].
  - destruct c'; [|rewrite (value_compare_same _ _ _ _ Hc Hc'); by case_decide|by case_decide].
    pose proof (value_compare_antisym _ _ _ Hc') as Hd. cbn in Hd.
    pose proof (value_compare_eq _ _ Hd a) as Ha. pose proof (value_compare_antisym _ _ _ Hc) as Hba.
    rewrite Hba in Ha. apply value_compare_antisym in Ha. rewrite Ha. cbn [CompOpp]. by case_decide.
  - destruct c'; [|by case_decide|rewrite (value_compare_same _ _ _ _ Hc Hc'); by case_decide].
    pose proof (value_compare_antisym _ _ _ Hc') as Hd. cbn in Hd.
    pose proof (value_compare_eq _ _ Hd a) as Ha. pose proof (value_compare_antisym _ _ _ Hc) as Hba.
    rewrite Hba in Ha. apply value_compare_antisym in Ha. rewrite Ha. cbn [CompOpp]. by case_decide.
Qed.

(** ** The comparison function *)
Lemma index_app {A} (pre : list A) a post : index (pre ++ a :: post) (Z.of_nat (length pre)) = Ok a.
Proof. apply index_Ok; [lia|]. rewrite Nat2Z.id. by apply list_lookup_middle. Qed.

Lemma row_less_run x y : comparable_keys x y → ∀ preo orders prex prey postx posty,
  length prex = length preo → length prey = length preo → (length x ≤ length orders)%nat →
  row_less (preo ++ orders) (length x) (Z.of_nat (length preo)) (prex ++ x ++ postx) (prey ++ y ++ posty) =
    Ok (is_lt (lex orders x y)).
Proof.
  intros HC. induction HC as [|a b x y [c Hc] _ IH]; intros preo orders prex prey postx posty Lx Ly HL; [by destruct orders|].
  destruct orders as [|o orders]; [cbn in HL; lia|]. cbn [row_less length]. cbn [app].
  rewrite index_app. mred. rewrite <- Lx at 1. rewrite index_app. mred. rewrite <- Ly at 1. rewrite index_app. mred.
  destruct (compare_runs _ _ _ Hc) as [-> ->]. mred. cbn [lex]. rewrite Hc.
  destruct c; cbn [is_eq is_lt]; [|by case_decide..].
  rewrite (cons_middle o), (cons_middle a), (cons_middle b), !app_assoc, <- (app_assoc _ x), <- (app_assoc _ y).
  replace (Z.of_nat (length preo) + 1) with (Z.of_nat (length (preo ++ [o]))) by (rewrite length_app; cbn; lia).
  apply IH; rewrite ?length_app; cbn in *; lia.
Qed.

(** ** Sorting *)
Definition key_sorted (orders : list OrderbyType) (key : Tuple → res (list Value)) : list Tuple → Prop :=
  StronglySorted (λ t u, ∃ kt ku, key t = Ok kt ∧ key u = Ok ku ∧ lex orders ku kt ≠ Lt).

(** The rows of the executor: the keys, and the places the tuples came in. *)
Definition keyed (keys : list (list Value)) : list (list Value) :=
  imap (λ i k, k ++ [NewInteger (Z.of_nat i)]) keys.

Section sorting.
Context `{SliceSort}.
Variables (orders : list OrderbyType) (ts : list Tuple) (keys : list (list Value)) (width : nat).
Hypothesis Hlen : length keys = length ts.
Hypothesis Hwidth : Forall (λ k, length k = width) keys.
Hypothesis Horders : (width ≤ length orders)%nat.
Hypothesis Hcomp : ∀ x y, x ∈ keys → y ∈ keys → comparable_keys x y.

Definition key_part (row : list Value) : list Value := take width row.
Definition tuple_of (row : list Value) : res Tuple :=
  v ← index row (Z.of_nat width); i ← ToInteger v; index ts i.

Lemma keyed_row row : row ∈ keyed keys → ∃ i k t, keys !! i = Some k ∧ ts !! i = Some t ∧
  row = k ++ [NewInteger (Z.of_nat i)] ∧ key_part row = k ∧ tuple_of row = Ok t.
Proof.
  intros [i Hi]%list_elem_of_lookup. unfold keyed in Hi. rewrite list_lookup_imap in Hi.
  destruct (keys !! i) as [k|] eqn:Hk; [|done]. cbn in Hi. injection Hi as <-.
  destruct (lookup_lt_is_Some_2 ts i) as [t Ht]; [rewrite <- Hlen; by eapply lookup_lt_Some|].
  rewrite Forall_forall in Hwidth. pose proof (Hwidth k ltac:(by eapply list_elem_of_lookup_2)) as HW.
  exists i, k, t. split; [done|]. split; [done|]. split; [done|]. split.
  - unfold key_part. by rewrite <- HW, take_app_length.
  - unfold tuple_of. rewrite <- HW, index_app. mred. cbn. by apply index_nat.
Qed.

Lemma sorted_rows : ∃ rows, slice_sort (row_less orders width 0) (keyed keys) = Ok rows ∧ rows ≡ₚ keyed keys ∧
  StronglySorted (λ x y, lex orders (key_part y) (key_part x) ≠ Lt) rows.
Proof.
  destruct (slice_sort_spec (row_less orders width 0) (λ x y, is_lt (lex orders (key_part x) (key_part y))) (keyed keys))
    as (rows & E & HP & HS).
  - intros x y Hx Hy. destruct (keyed_row x Hx) as (i & kx & tx & Kx & _ & -> & Px & _).
    destruct (keyed_row y Hy) as (j & ky & ty & Ky & _ & -> & Py & _). rewrite Px, Py.
    apply list_elem_of_lookup_2 in Kx. apply list_elem_of_lookup_2 in Ky.
    pose proof Hwidth as HW. rewrite Forall_forall in HW. rewrite <- (HW kx Kx).
    apply (row_less_run kx ky (Hcomp _ _ Kx Ky) [] orders [] [] _ _ eq_refl eq_refl). rewrite (HW kx Kx). done.
  - intros x y Hx Hy HL. destruct (keyed_row x Hx) as (i & kx & tx & Kx & _ & _ & Px & _).
    destruct (keyed_row y Hy) as (j & ky & ty & Ky & _ & _ & Py & _). rewrite Px, Py in *.
    apply list_elem_of_lookup_2 in Kx. apply list_elem_of_lookup_2 in Ky.
    rewrite (lex_antisym _ _ _ (Hcomp _ _ Kx Ky)). by destruct (lex orders kx ky).
  - intros x y z Hx Hy Hz H1 H2. destruct (keyed_row x Hx) as (i & kx & tx & Kx & _ & _ & Px & _).
    destruct (keyed_row y Hy) as (j & ky & ty & Ky & _ & _ & Py & _).
    destruct (keyed_row z Hz) as (m & kz & tz & Kz & _ & _ & Pz & _). rewrite Px, Py, Pz in *.
    apply list_elem_of_lookup_2 in Kx. apply list_elem_of_lookup_2 in Ky. apply list_elem_of_lookup_2 in Kz.
    assert (HN : lex orders kx kz ≠ Lt).
    { apply (lex_ge_trans orders kx ky kz); [by apply Hcomp..| |]; [intros E0; by rewrite E0 in H1|intros E0; by rewrite E0 in H2]. }
    by destruct (lex orders kx kz).
  - exists rows. split; [done|]. split; [done|]. clear -HS. induction HS as [|x rows _ IH HF]; constructor; [done|].
    eapply Forall_impl; [exact HF|]. cbn. intros y Hy E. by rewrite E in Hy.
Qed.

Lemma arranged rows : (∀ row, row ∈ rows → row ∈ keyed keys) →
  ∃ us, mapM tuple_of rows = Ok us ∧ Forall2 (λ row u, tuple_of row = Ok u) rows us.
Proof.
  induction rows as [|row rows IH]; intros HR; [by exists []|].
  destruct (keyed_row row (HR row ltac:(by left))) as (i & k & t & _ & _ & _ & _ & Ht).
  destruct IH as (us & E & HF); [intros r Hr; apply HR; by right|]. exists (t :: us). split; [|by constructor].
  cbn. rewrite Ht. mred. by rewrite E.
Qed.

Definition tuple_or_zero (row : list Value) : Tuple := match tuple_of row with Ok t => t | _ => ZeroTuple end.

Lemma arranged_fmap rows us : Forall2 (λ row u, tuple_of row = Ok u) rows us → us = tuple_or_zero <$> rows.
Proof.
  induction 1 as [|row u rows us E _ IH]; [done|]. cbn [fmap list_fmap]. unfold tuple_or_zero at 1. by rewrite E, IH.
Qed.

Lemma original_order : tuple_or_zero <$> keyed keys = ts.
Proof.
  apply list_eq. intros i. rewrite list_lookup_fmap. unfold keyed. rewrite list_lookup_imap.
  destruct (keys !! i) as [k|] eqn:Hk; cbn.
  - destruct (keyed_row (k ++ [NewInteger (Z.of_nat i)])) as (i' & k' & t & Hk' & Ht & E & _ & Et).
    { apply (list_elem_of_lookup_2 _ i). unfold keyed. by rewrite list_lookup_imap, Hk. }
    apply app_inj_2 in E as [-> E]; [|done]. injection E as E. apply Nat2Z.inj in E as <-.
    unfold tuple_or_zero. by rewrite Et, Ht.
  - apply lookup_ge_None in Hk. symmetry. apply lookup_ge_None. lia.
Qed.

(** Sorting the rows arranges the tuples by their keys. *)
Lemma sort_tuples_run (key : Tuple → res (list Value)) : Forall2 (λ k t, key t = Ok k) keys ts →
  ∃ sorted, sort_tuples_ orders width ts (keyed keys) = Ok sorted ∧ sorted ≡ₚ ts ∧ key_sorted orders key sorted.
Proof.
  intros HK. destruct sorted_rows as (rows & E & HP & HS).
  assert (HR : ∀ row, row ∈ rows → row ∈ keyed keys) by (intros row Hr; by rewrite <- HP).
  destruct (arranged rows HR) as (us & Eu & HF). exists us. split; [|split].
  - unfold sort_tuples_. rewrite E. mred. exact Eu.
  - rewrite (arranged_fmap _ _ HF), <- original_order at 1. by apply fmap_Permutation.
  - assert (HKR : ∀ row u, row ∈ rows → tuple_of row = Ok u → key u = Ok (key_part row)).
    { intros row u Hr Hu. destruct (keyed_row row (HR row Hr)) as (i & k & t & Hk & Ht & _ & <- & Et).
      rewrite Hu in Et. injection Et as ->. destruct (Forall2_lookup_lr _ _ _ _ _ _ HK Hk Ht). done. }
    unfold key_sorted. clear E HP Eu HR. induction HF as [|row u rows us Eu HF IH]; [constructor|].
    apply StronglySorted_inv in HS as [HS HA]. constructor.
    + apply IH; [done|]. intros r v Hr. apply HKR. by right.
    + pose proof (HKR row u ltac:(by left) Eu) as Ku.
      assert (HKR' : ∀ r v, r ∈ rows → tuple_of r = Ok v → key v = Ok (key_part r)) by (intros r v Hr; apply HKR; by right).
      clear IH HS HKR. induction HF as [|r v rows us Ev HF IH]; constructor.
      * apply Forall_cons in HA as [Hx _]. exists (key_part row), (key_part r).
        split; [done|]. split; [apply HKR'; [by left|done]|done].
      * apply Forall_cons in HA as [_ HA]. apply IH; [done|]. intros r' v' Hr. apply HKR'. by right.
Qed.
End sorting.

(** The loop that gathers tuples and rows, from [acc] on. *)
Definition gather (child_schema : option Schema) (col_idxs : list Z) (acc : list Tuple * list (list Value)) (p : Z * Tuple) :
    res (list Tuple * list (list Value)) :=
  row ← sort_row child_schema col_idxs (fst p) (snd p); Ok (fst acc ++ [snd p], snd acc ++ [row]).

Definition sort_key (child_schema : option Schema) (col_idxs : list Z) (t : Tuple) : res (list Value) :=
  mapM (λ i, Tuples.GetValue t (schema_of child_schema) (u32 i)) col_idxs.

Lemma gather_one cs cols k t i acc : sort_key cs cols t = Ok k →
  gather cs cols acc (i, t) = Ok (fst acc ++ [t], snd acc ++ [k ++ [NewInteger i]]).
Proof. unfold gather, sort_row, sort_key. cbn [fst snd]. intros E. by rewrite E. Qed.

Lemma gather_run cs cols ts keys : Forall2 (λ k t, sort_key cs cols t = Ok k) keys ts → ∀ i acc,
  res_foldl (gather cs cols) (imap (λ j t, (Z.of_nat (i + j), t)) ts) acc =
    Ok (fst acc ++ ts, snd acc ++ imap (λ j k, k ++ [NewInteger (Z.of_nat (i + j))]) keys).
Proof.
  induction 1 as [|k t keys ts E _ IH]; intros i [a r].
  - cbn. by rewrite !app_nil_r.
  - cbn [imap res_foldl]. rewrite (gather_one _ _ _ _ _ _ E). mred.
    rewrite (imap_ext _ (λ j t, (Z.of_nat (S i + j), t))) by (intros j u _; cbn; do 2 f_equal; lia).
    rewrite IH. cbn [fst snd]. rewrite <- !app_assoc. cbn [app]. do 4 f_equal.
    apply imap_ext. intros j u _. unfold compose. by replace (i + S j)%nat with (S i + j)%nat by lia.
Qed.

(** ** An implementation of what the language leaves open *)
Section insertion.
Context {A : Type} (less : A → A → res bool).

Fixpoint insert_one (x : A) (l : list A) : res (list A) :=
  match l with
  | [] => Ok [x]
  | y :: l' => b ← less y x; if b : bool then r ← insert_one x l'; Ok (y :: r) else Ok (x :: l)
  end.
Fixpoint insertion_sort (l : list A) : res (list A) :=
  match l with
  | [] => Ok []
  | x :: l' => r ← insertion_sort l'; insert_one x r
  end.

Variables (f : A → A → bool) (U : list A).
Hypothesis Hless : ∀ x y, x ∈ U → y ∈ U → less x y = Ok (f x y).
Hypothesis Hasym : ∀ x y, x ∈ U → y ∈ U → f x y = true → f y x = false.
Hypothesis Htrans : ∀ x y z, x ∈ U → y ∈ U → z ∈ U → f x y = false → f y z = false → f x z = false.

Lemma insert_one_run x l : x ∈ U → (∀ y, y ∈ l → y ∈ U) → StronglySorted (λ x y, f y x = false) l →
  ∃ l', insert_one x l = Ok l' ∧ l' ≡ₚ x :: l ∧ StronglySorted (λ x y, f y x = false) l'.
Proof.
  intros Hx. induction l as [|y l IH]; intros HU HS.
  - exists [x]. split; [done|]. split; [done|]. by repeat constructor.
  - cbn [insert_one]. pose proof (HU y ltac:(by left)) as Hy. rewrite (Hless y x Hy Hx). mred.
    apply StronglySorted_inv in HS as [HS HA]. destruct (f y x) eqn:Ef.
    + destruct IH as (l' & E & HP & HS'); [intros z Hz; apply HU; by right|done|].
      rewrite E. mred. exists (y :: l'). split; [done|]. split; [rewrite HP; apply Permutation_swap|].
      constructor; [done|]. rewrite HP. constructor; [by apply Hasym|done].
    + exists (x :: y :: l). split; [done|]. split; [done|]. constructor; [by constructor|]. constructor; [done|].
      rewrite Forall_forall in *. intros z Hz. apply (Htrans z y x); [apply HU; by right|done|done|by apply HA|done].
Qed.

Lemma insertion_sort_run l : (∀ y, y ∈ l → y ∈ U) →
  ∃ l', insertion_sort l = Ok l' ∧ l' ≡ₚ l ∧ StronglySorted (λ x y, f y x = false) l'.
Proof.
  induction l as [|x l IH]; intros HU; [exists []; repeat constructor|].
  destruct IH as (r & E & HP & HS); [intros z Hz; apply HU; by right|].
  destruct (insert_one_run x r) as (l' & E' & HP' & HS'); [apply HU; by left|intros y Hy; apply HU; right; by rewrite <- HP|done|].
  exists l'. cbn [insertion_sort]. rewrite E. mred. split; [done|]. split; [by rewrite HP', HP|done].
Qed.
End insertion.

#[export] Instance insertion_slice_sort : SliceSort.
Proof.
  refine {| slice_sort := @insertion_sort |}.
  intros A less f l HL HA HT. by apply (insertion_sort_run less f l).
Defined.

#[export] Instance listed_map_range : MapRange.
Proof. by refine {| range_keys := λ A m, (map_to_list m).*1 |}. Defined.
