(* ===== verification/Grouping.v ===== *)
(** * Grouping rows ([execution/executors/aggregation_executor.go])

    What the hash table of an aggregation holds after a list of rows: one entry for
    every key that occurs, with the aggregates of the rows with that key, each
    column's on its own.  The table is keyed by a 32-bit hash of the grouping
    values, so this holds as long as the hashes of the keys that occur differ. *)

From S2P Require Import Prelude Bytes Types Tuples HashTable HashIndex Expressions Plans Executors.

(** ** The aggregates of a group *)
(** A row: its key and the values to aggregate. *)
Abbreviation Row := (list Value * list Value)%type.

Definition group (k : list Value) (rows : list Row) : list (list Value) := (filter (λ r, fst r = k) rows).*2.
Definition aggregate (n : nat) (types : list AggregationType) (inputs : list (list Value)) : res (list Value) :=
  res_foldl (CombineAggregateValues n types) inputs (GenerateInitialAggregateValue types).

Lemma group_snoc k rows k' v : group k (rows ++ [(k', v)]) = group k rows ++ (if decide (k' = k) then [v] else []).
Proof. unfold group. rewrite filter_app, fmap_app. f_equal. cbn. by case_decide. Qed.

Lemma group_none k rows : k ∉ rows.*1 → group k rows = [].
Proof.
  unfold group. induction rows as [|[k' v] rows IH]; [done|]. rewrite fmap_cons. cbn [fst]. intros [Hk HN]%not_elem_of_cons.
  rewrite filter_cons_False by (cbn; by intros ->). by apply IH.
Qed.

(** ** The table *)
Section table.
Variable murmur3 : list byte → list byte.
Variables (n : nat) (types : list AggregationType).

(** The hash, with 0 where a key has none; the lemmas are about keys that have. *)
Definition hash_of (k : list Value) : Z := match HashValuesOnAggregateKey murmur3 k with Ok h => h | _ => 0 end.
Definition hashes (k : list Value) : Prop := HashValuesOnAggregateKey murmur3 k = Ok (hash_of k).

(** The key of the rows with a hash. *)
Definition table_of (rows : list Row) (aht : SimpleAggregationHashTable) : Prop :=
  (∀ k, k ∈ rows.*1 → ht_key aht !! hash_of k = Some k ∧
     ∃ vs, aggregate n types (group k rows) = Ok vs ∧ ht_val aht !! hash_of k = Some vs) ∧
  (∀ h, (∀ k, k ∈ rows.*1 → hash_of k ≠ h) → ht_key aht !! h = None ∧ ht_val aht !! h = None).

Lemma table_of_nil : table_of [] NewSimpleAggregationHashTable.
Proof. split; [intros k Hk; by apply not_elem_of_nil in Hk|]. intros h _. cbn. by rewrite !lookup_empty. Qed.

Lemma InsertCombine_run rows aht k v vs :
  table_of rows aht → hashes k → (∀ k', k' ∈ rows.*1 → hash_of k' = hash_of k → k' = k) →
  aggregate n types (group k (rows ++ [(k, v)])) = Ok vs →
  ∃ aht', InsertCombine murmur3 n types k v aht = Ok aht' ∧ table_of (rows ++ [(k, v)]) aht'.
Proof.
  intros [HT HN] Hh HI Ha. assert (Ha' := Ha). rewrite group_snoc, decide_True in Ha' by done.
  unfold aggregate in Ha'. rewrite res_foldl_app in Ha'. apply res_bind_Ok in Ha' as (cur & Hcur & Ha').
  apply res_bind_Ok in Ha' as (vs' & Hvs & [= ->]).
  assert (default (GenerateInitialAggregateValue types) (ht_val aht !! hash_of k) = cur ∧
               default k (ht_key aht !! hash_of k) = k) as [HC HK].
  { destruct (decide (k ∈ rows.*1)) as [Hk|Hk].
    - destruct (HT k Hk) as (-> & vs1 & E1 & ->). unfold aggregate in E1. rewrite Hcur in E1. by injection E1 as ->.
    - destruct (HN (hash_of k)) as [-> ->]; [intros k' Hk' E; apply Hk; by rewrite <- (HI k' Hk' E)|].
      rewrite group_none in Hcur by done. by injection Hcur as ->. }
  unfold InsertCombine, hashes in *. rewrite Hh. mred. rewrite HC, HK, Hvs. mred. eexists. split; [done|].
  split; cbn [ht_val ht_key].
  - intros k' Hk'. destruct (decide (k' = k)) as [->|Hne].
    + rewrite !lookup_insert_eq. split; [done|]. by exists vs.
    + rewrite fmap_app in Hk'. apply elem_of_app in Hk' as [Hk'|Hk']; [|apply list_elem_of_singleton in Hk'; by cbn in Hk'].
      assert (hash_of k ≠ hash_of k') by (intros E; apply Hne; by apply HI).
      rewrite !lookup_insert_ne by done. destruct (HT k' Hk') as (-> & vs1 & E1 & ->). split; [done|].
      exists vs1. split; [|done]. by rewrite group_snoc, decide_False, app_nil_r by done.
  - intros h Hh'. rewrite fmap_app in Hh'.
    assert (hash_of k ≠ h) by (apply Hh', elem_of_app; right; by left).
    rewrite !lookup_insert_ne by done. apply HN. intros k' Hk'. apply Hh', elem_of_app. by left.
Qed.

(** The whole loop.  The conditions are on all rows, the ones to come too. *)
Definition groupable (rows : list Row) : Prop :=
  (∀ k, k ∈ rows.*1 → hashes k ∧ ∃ vs, aggregate n types (group k rows) = Ok vs) ∧
  (∀ k k', k ∈ rows.*1 → k' ∈ rows.*1 → hash_of k' = hash_of k → k' = k).

Lemma groupable_init rows rest : groupable (rows ++ rest) → groupable rows.
Proof.
  intros [HG HI]. rewrite fmap_app in *. split.
  - intros k Hk. destruct (HG k) as (Hh & vs & Ha); [apply elem_of_app; by left|]. split; [done|].
    unfold group in Ha. rewrite filter_app, fmap_app in Ha. unfold aggregate in *. rewrite res_foldl_app in Ha.
    apply res_bind_Ok in Ha as (ws & Hw & _). by exists ws.
  - intros k k' Hk Hk'. apply HI; apply elem_of_app; by left.
Qed.

Lemma gather_groups rows : groupable rows →
  ∃ aht, res_foldl (λ aht r, InsertCombine murmur3 n types (fst r) (snd r) aht) rows NewSimpleAggregationHashTable = Ok aht ∧
    table_of rows aht.
Proof.
  induction rows as [|[k v] rows IH] using rev_ind; intros HG; [eexists; split; [done|apply table_of_nil]|].
  destruct (IH (groupable_init _ _ HG)) as (aht & E & HT). destruct HG as [HG HI].
  assert (Hk : k ∈ (rows ++ [(k, v)]).*1) by (rewrite fmap_app; apply elem_of_app; right; by left).
  destruct (HG k Hk) as (Hh & vs & Ha).
  destruct (InsertCombine_run rows aht k v vs HT Hh) as (aht' & E' & HT'); [|done|].
  { intros k' Hk'. apply HI; [done|]. rewrite fmap_app. apply elem_of_app. by left. }
  exists aht'. split; [|done]. rewrite res_foldl_app, E. mred. cbn [res_foldl fst snd]. by rewrite E'.
Qed.

(** *** The groups that come out *)

(** The keys that occur, each once, with the aggregates of their groups. *)
Definition groups_of (rows : list Row) (gs : list Row) : Prop :=
  NoDup gs.*1 ∧ (∀ k, k ∈ gs.*1 ↔ k ∈ rows.*1) ∧
  Forall (λ g : Row, aggregate n types (group (fst g) rows) = Ok (snd g)) gs.

Lemma table_hashes rows aht h : table_of rows aht → is_Some (ht_val aht !! h) → ∃ k, k ∈ rows.*1 ∧ hash_of k = h.
Proof.
  intros [_ HN] [vs Hv]. destruct (decide (Exists (λ k, hash_of k = h) rows.*1)) as [HE|HE].
  - apply Exists_exists in HE as (k & Hk & E). by exists k.
  - destruct (HN h) as [_ E]; [|by rewrite Hv in E]. intros k Hk E. apply HE, Exists_exists. by exists k.
Qed.

Context `{MapRange}.

Lemma Begin_groups rows aht : groupable rows → table_of rows aht →
  ∃ gs, groups_of rows gs ∧ aht_Begin aht = MkHTIterator gs.*1 gs.*2 0.
Proof.
  intros [_ HI] HT. pose proof HT as [HK _].
  set (hs := range_keys (ht_val aht)).
  assert (HS : ∀ h, h ∈ hs ↔ ∃ k, k ∈ rows.*1 ∧ hash_of k = h).
  { intros h. unfold hs. rewrite range_keys_spec, list_elem_of_fmap. split.
    - intros ([h' vs] & -> & Hv). apply elem_of_map_to_list in Hv. apply (table_hashes _ _ _ HT). by exists vs.
    - intros (k & Hk & <-). destruct (HK k Hk) as (_ & vs & _ & Hv). exists (hash_of k, vs).
      by rewrite elem_of_map_to_list. }
  assert (HD : NoDup hs) by (unfold hs; rewrite range_keys_spec; apply NoDup_fst_map_to_list).
  exists ((λ h, (default [] (ht_key aht !! h), default [] (ht_val aht !! h))) <$> hs). split.
  - assert (HL : ∀ h, h ∈ hs → ∃ k, k ∈ rows.*1 ∧ hash_of k = h ∧ default [] (ht_key aht !! h) = k).
    { intros h (k & Hk & <-)%HS. exists k. destruct (HK k Hk) as (-> & _). done. }
    unfold groups_of. rewrite <- list_fmap_compose. unfold compose; cbn [fst]. split; [|split].
    + clear -HD HL. induction HD as [|h hs Hh HD IH]; cbn; constructor.
      * intros (h' & E & Hh')%list_elem_of_fmap. destruct (HL h ltac:(by left)) as (k & _ & Hk & Ek).
        destruct (HL h' ltac:(by right)) as (k' & _ & Hk' & Ek'). rewrite Ek, Ek' in E. subst k'.
        rewrite Hk in Hk'. by subst h'.
      * apply IH. intros h' Hh'. apply HL. by right.
    + intros k. rewrite list_elem_of_fmap. split.
      * intros (h & -> & Hh). by destruct (HL h Hh) as (k & Hk & _ & ->).
      * intros Hk. exists (hash_of k). destruct (HK k Hk) as (-> & _). split; [done|]. apply HS. by exists k.
    + rewrite Forall_fmap, Forall_forall. intros h (k & Hk & <-)%HS. cbn.
      destruct (HK k Hk) as (-> & vs & E & ->). done.
  - unfold aht_Begin. fold hs. rewrite <- !list_fmap_compose. done.
Qed.
End table.

(** ** Aggregates of integers *)

(** What a column holds besides NULLs. *)
Definition ints (inputs : list Value) : list Z := omap (λ v, if IsNull v then None else integer v) inputs.
Definition int_or_null (v : Value) : Prop := IsNull v = true ∨ ∃ z, v = NewInteger z.

(** COUNT counts the NULLs too; COUNT and SUM wrap; MIN and MAX of no value are the
    extreme integers. *)
Definition sql_aggregate (t : AggregationType) (inputs : list Value) : Value :=
  NewInteger match t with
  | COUNT_AGGREGATE => i32 (Z.of_nat (length inputs))
  | SUM_AGGREGATE => i32 (foldl Z.add 0 (ints inputs))
  | MIN_AGGREGATE => foldl Z.min (2 ^ 31 - 1) (ints inputs)
  | MAX_AGGREGATE => foldl Z.max (- 2 ^ 31) (ints inputs)
  end.

Definition column (j : nat) (inputs : list (list Value)) : list Value := omap (λ r, r !! j) inputs.

Lemma i32_add_i32 a b : i32 (i32 a + b) = i32 (a + b).
Proof.
  unfold i32, swrap. replace (_ - 2 ^ (32 - 1) + b + 2 ^ (32 - 1)) with ((a + 2 ^ (32 - 1)) mod 2 ^ 32 + b) by lia.
  rewrite Zplus_mod_idemp_l. do 2 f_equal. lia.
Qed.

Lemma ints_snoc inputs v : int_or_null v →
  ints (inputs ++ [v]) = ints inputs ++ (if IsNull v then [] else default [] ((λ z, [z]) <$> integer v)).
Proof.
  intros Hv. unfold ints. rewrite omap_app. f_equal. cbn. destruct Hv as [->|[z ->]]; [done|]. done.
Qed.

Lemma combine_one_run t inputs v : int_or_null v →
  combine_one t (sql_aggregate t inputs) (Ok v) = Ok (sql_aggregate t (inputs ++ [v])).
Proof.
  intros Hv. unfold sql_aggregate. rewrite ints_snoc by done. destruct t; cbn [combine_one]; mred.
  - unfold Add. cbn. rewrite i32_add_i32, length_app. cbn. do 3 f_equal. lia.
  - unfold Add. destruct Hv as [->|[z ->]]; [by rewrite app_nil_r|]. cbn. by rewrite i32_add_i32, foldl_app.
  - unfold Min. destruct Hv as [->|[z ->]]; [by rewrite app_nil_r|]. cbn -[Z.leb]. rewrite foldl_app. cbn -[Z.leb].
    destruct (Z.leb_spec (foldl Z.min (2 ^ 31 - 1) (ints inputs)) z); mred; do 2 f_equal; lia.
  - unfold Max. destruct Hv as [->|[z ->]]; [by rewrite app_nil_r|]. cbn -[Z.leb]. rewrite foldl_app. cbn -[Z.leb].
    destruct (Z.leb_spec z (foldl Z.max (- 2 ^ 31) (ints inputs))); mred; do 2 f_equal; lia.
Qed.

Lemma Combine_run n types result input new :
  length types = n → length result = n → length input = n → length new = n →
  (∀ j t r v w, types !! j = Some t → result !! j = Some r → input !! j = Some v → new !! j = Some w →
     combine_one t r (Ok v) = Ok w) →
  CombineAggregateValues n types result input = Ok new.
Proof.
  intros Lt Lr Li Ln HC. unfold CombineAggregateValues.
  destruct (res_foldl_range (λ i s, s = take i new ++ drop i result)
    (λ result i, t ← index types (Z.of_nat i); r ← index result (Z.of_nat i);
       v ← combine_one t r (index input (Z.of_nat i)); Ok (<[i := v]> result)) n result) as (s & E & ->).
  - done.
  - intros i s Hi ->.
    destruct (lookup_lt_is_Some_2 types i) as [t Ht]; [lia|]. destruct (lookup_lt_is_Some_2 result i) as [r Hr]; [lia|].
    destruct (lookup_lt_is_Some_2 input i) as [v Hv]; [lia|]. destruct (lookup_lt_is_Some_2 new i) as [w Hw]; [lia|].
    rewrite (index_nat _ _ _ Ht), (index_nat _ _ _ Hv). mred.
    assert (Lk : length (take i new) = i) by (rewrite length_take; lia).
    rewrite (index_nat _ i r).
    2: { rewrite lookup_app_r by lia. rewrite Lk, Nat.sub_diag, lookup_drop, Nat.add_0_r. done. }
    mred. rewrite (HC i t r v w) by done. mred. eexists. split; [done|].
    rewrite (drop_S _ _ _ Hr), Nat.add_1_r, (take_S_r _ _ _ Hw).
    rewrite <- app_assoc. rewrite insert_app_r_alt by lia. by rewrite Lk, Nat.sub_diag.
  - rewrite E. f_equal. rewrite (take_ge new), drop_ge, app_nil_r by lia. done.
Qed.

(** Each column is aggregated on its own. *)
Lemma aggregate_ints types inputs :
  Forall (λ r, length r = length types ∧ Forall int_or_null r) inputs →
  aggregate (length types) types inputs = Ok (imap (λ j t, sql_aggregate t (column j inputs)) types).
Proof.
  induction inputs as [|r inputs IH] using rev_ind; intros HF.
  - unfold aggregate. cbn. f_equal. unfold GenerateInitialAggregateValue. clear.
    rewrite <- (imap_const _ types) at 1. apply imap_ext. by intros j [] _.
  - apply Forall_app in HF as [HF [[Lr HI] _]%Forall_cons]. unfold aggregate in *. rewrite res_foldl_app, IH by done. mred. cbn [res_foldl].
    rewrite (Combine_run _ _ _ _ (imap (λ j t, sql_aggregate t (column j (inputs ++ [r]))) types)); [done|done|by rewrite length_imap|done|by rewrite length_imap|].
    intros j t x v w Ht Hx Hv Hw. rewrite list_lookup_imap, Ht in Hx, Hw. injection Hx as <-. injection Hw as <-.
    rewrite Forall_forall in HI. assert (HC : column j (inputs ++ [r]) = column j inputs ++ [v]).
    { unfold column. rewrite omap_app. cbn. by rewrite Hv. }
    rewrite HC. apply combine_one_run, HI. by eapply list_elem_of_lookup_2.
Qed.

(** ** The groups that come out of the executor *)

(** [HAVING] as the executor asks it: not about the last group. *)
Definition passes (having : option Expression) (g : Row) : res bool :=
  match having with
  | None => Ok true
  | Some hv => x ← EvaluateAggregate hv (fst g) (snd g); ToBoolean x
  end.
Fixpoint kept (having : option Expression) (gs : list Row) : res (list Row) :=
  match gs with
  | [] => Ok []
  | [g] => Ok [g]
  | g :: gs' => b ← passes having g; rest ← kept having gs'; Ok (if b : bool then g :: rest else rest)
  end.
Definition group_row (out : Schema) (exprs : list Expression) (g : Row) : res Tuple :=
  values ← mapM (λ e, EvaluateAggregate e (fst g) (snd g)) exprs; NewTupleFromSchema values out.

Lemma kept_all gs : kept None gs = Ok gs.
Proof. induction gs as [|g [|g' gs] IH]; [done|done|].
  change ((b ← passes None g; rest ← kept None (g' :: gs); Ok (if b : bool then g :: rest else rest)) = Ok (g :: g' :: gs)).
  by rewrite IH.
Qed.

Section iterate.
Variables (having : option Expression) (gs : list Row).
Hypothesis Hlen : Z.of_nat (length gs) < 2 ^ 31 - 1.

Definition at_group (i : nat) : AggregateHTIterator := MkHTIterator gs.*1 gs.*2 (Z.of_nat i).

Lemma at_group_len i : it_len (at_group i) = Z.of_nat (length gs).
Proof. unfold it_len. cbn. rewrite length_fmap. apply i32_small. unfold in_i32. lia. Qed.

Lemma at_group_end i : (i ≤ length gs)%nat → IsEnd (at_group i) = bool_decide (i = length gs).
Proof. intros Hi. unfold IsEnd. rewrite at_group_len. cbn. case_bool_decide; [apply Z.leb_le|apply Z.leb_gt]; lia. Qed.

Lemma at_group_next_end i : (i ≤ length gs)%nat → IsNextEnd (at_group i) = bool_decide (length gs ≤ S i)%nat.
Proof.
  intros Hi. unfold IsNextEnd. rewrite at_group_len. cbn [at_group it_index]. rewrite i32_small by (unfold in_i32; lia).
  case_bool_decide; [apply Z.leb_le|apply Z.leb_gt]; lia.
Qed.

Lemma at_group_next i : (i < length gs)%nat → it_next (at_group i) = at_group (S i).
Proof. intros Hi. unfold it_next, at_group. cbn. f_equal. rewrite i32_small by (unfold in_i32; lia). lia. Qed.

Lemma at_group_get i g : gs !! i = Some g → it_key (at_group i) = Ok (fst g) ∧ it_val (at_group i) = Ok (snd g).
Proof. intros Hi. unfold it_key, it_val. cbn. by split; apply index_nat; rewrite list_lookup_fmap, Hi. Qed.

Lemma skip_groups_run ks : ∀ fuel i, (i ≤ length gs)%nat → (length gs ≤ i + fuel)%nat → kept having (drop i gs) = Ok ks →
  ∃ j, skip_groups fuel having (at_group i) = Ok (at_group j) ∧ (i ≤ j ≤ length gs)%nat ∧
    match ks with
    | [] => j = length gs
    | g :: ks' => gs !! j = Some g ∧ kept having (drop (S j) gs) = Ok ks'
    end.
Proof.
  intros fuel i. remember (length gs - i)%nat as m eqn:Hm. revert fuel i Hm.
  induction m as [|m IH]; intros fuel i Hm Hi Hf HK.
  - assert (i = length gs) as -> by lia. rewrite drop_all in HK. injection HK as <-. exists (length gs).
    split; [|split; [lia|done]]. destruct fuel; cbn [skip_groups]; rewrite at_group_next_end, bool_decide_true by lia; done.
  - destruct (lookup_lt_is_Some_2 gs i) as [g Hg]; [lia|]. rewrite (drop_S _ _ _ Hg) in HK.
    destruct fuel as [|fuel]; [lia|]. cbn [skip_groups]. rewrite at_group_next_end by done.
    case_bool_decide as Hn.
    + rewrite drop_ge in HK by lia. injection HK as <-. exists i. split; [done|]. split; [lia|]. split; [done|]. by rewrite drop_ge by lia.
    + destruct (drop (S i) gs) as [|g' gs'] eqn:Ed; [apply (f_equal length) in Ed; rewrite length_drop in Ed; cbn in Ed; lia|].
      change ((b ← passes having g; rest ← kept having (g' :: gs'); Ok (if b : bool then g :: rest else rest)) = Ok ks) in HK.
      apply res_bind_Ok in HK as (b & Hb & HK). apply res_bind_Ok in HK as (rest & Hr & HK). rewrite <- Ed in Hr.
      destruct (at_group_get i g Hg) as [Ek Ev].
      destruct having as [hv|].
      * rewrite Ek. mred. rewrite Ev. mred. cbn [passes] in Hb. apply res_bind_Ok in Hb as (x & -> & Hb). mred. rewrite Hb. mred.
        destruct b; injection HK as <-; [exists i; split; [done|split; [lia|done]]|].
        rewrite at_group_next by lia. destruct (IH fuel (S i)) as (j & Ej & Hj & HM); [lia..|done|]. exists j.
        split; [done|]. split; [lia|done].
      * injection Hb as <-. injection HK as <-. exists i. split; [done|]. split; [lia|done].
Qed.

Lemma aggregate_step_run out exprs ks fuel i : (i ≤ length gs)%nat → (length gs ≤ i + fuel)%nat → kept having (drop i gs) = Ok ks →
  match ks with
  | [] => aggregate_step fuel out exprs having (at_group i) = Ok (at_group (length gs), finished)
  | g :: ks' => ∀ t, group_row out exprs g = Ok t → ∃ j, (i ≤ S j)%nat ∧ (S j ≤ length gs)%nat ∧
      aggregate_step fuel out exprs having (at_group i) = Ok (at_group (S j), got t) ∧ kept having (drop (S j) gs) = Ok ks'
  end.
Proof.
  intros Hi Hf HK. destruct (skip_groups_run ks fuel i Hi Hf HK) as (j & Ej & Hj & HM). unfold aggregate_step. rewrite Ej. mred.
  rewrite at_group_end by lia. destruct ks as [|g ks].
  - subst j. by rewrite bool_decide_true by done.
  - intros t Ht. destruct HM as [Hg HK']. pose proof (lookup_lt_Some _ _ _ Hg) as Hlt. rewrite bool_decide_false by lia.
    destruct (at_group_get j g Hg) as [Ek Ev]. rewrite Ek. mred. rewrite Ev. mred.
    unfold group_row in Ht. apply res_bind_Ok in Ht as (vs & -> & Ht). mred. rewrite Ht. mred. rewrite at_group_next by done.
    exists j. split; [lia|]. split; [lia|]. done.
Qed.
End iterate.

(** ** The rows of the child *)

(** The values of a tuple to group by and to aggregate. *)
Definition agg_row (group_bys aggregates : list Expression) (cs : option Schema) (t : Tuple) : res Row :=
  k ← evaluate_all group_bys cs t; v ← evaluate_all aggregates cs t; Ok (k, v).

Lemma agg_row_inv gb ag cs t r : agg_row gb ag cs t = Ok r →
  evaluate_all gb cs t = Ok (fst r) ∧ evaluate_all ag cs t = Ok (snd r).
Proof.
  unfold agg_row. intros HA. apply res_bind_Ok in HA as (k & Ek & HA). apply res_bind_Ok in HA as (v & Ev & [= <-]). done.
Qed.

Lemma groups_of_length n types rows gs : groups_of n types rows gs → (length gs ≤ length rows)%nat.
Proof.
  intros (HD & HE & _). rewrite <- (length_fmap fst gs), <- (length_fmap fst rows).
  apply submseteq_length, NoDup_submseteq; [done|]. intros k Hk. by apply HE.
Qed.

(** The loop over the child's tuples does to the table what the list of rows does. *)
Lemma combine_rows murmur3 n types gb ag cs ts rows aht :
  mapM (agg_row gb ag cs) ts = Ok rows →
  res_foldl (λ aht t, k ← evaluate_all gb cs t; v ← evaluate_all ag cs t; InsertCombine murmur3 n types k v aht) ts aht =
    res_foldl (λ aht r, InsertCombine murmur3 n types (fst r) (snd r) aht) rows aht.
Proof.
  revert rows aht. induction ts as [|t ts IH]; intros rows aht; cbn [mapM]; [by intros [= <-]|].
  intros HM. apply res_bind_Ok in HM as (r & Er & HM). apply res_bind_Ok in HM as (rows' & Er' & [= <-]).
  destruct (agg_row_inv _ _ _ _ _ Er) as [Ek Ev]. cbn [res_foldl]. rewrite Ek. mred. rewrite Ev. mred.
  destruct (InsertCombine _ _ _ _ _ _); try done. cbn. by apply IH.
Qed.

(** *** HAVING, where it has a truth value *)
Definition having_true (having : option Expression) (g : Row) : Prop := passes having g = Ok true.
#[global] Instance having_true_dec having g : Decision (having_true having g).
Proof. unfold having_true. apply _. Defined.

Lemma kept_snoc having gs g : Forall (λ g, ∃ b, passes having g = Ok b) gs →
  kept having (gs ++ [g]) = Ok (filter (having_true having) gs ++ [g]).
Proof.
  induction 1 as [|g0 gs [b Hb] _ IH]; [done|].
  assert (HK : kept having ((g0 :: gs) ++ [g]) =
    (b ← passes having g0; rest ← kept having (gs ++ [g]); Ok (if b : bool then g0 :: rest else rest))) by (by destruct gs).
  rewrite HK, Hb, IH. mred. f_equal. destruct b.
  - by rewrite filter_cons_True by done.
  - rewrite filter_cons_False; [done|]. unfold having_true. by rewrite Hb.
Qed.

(** Keys of storable values have a hash. *)
Lemma hashes_storable murmur3 k : (∀ b, zlen (murmur3 b) = 16) → Forall storable k → hashes murmur3 k.
Proof.
  intros Hm HS. unfold hashes, hash_of, HashValuesOnAggregateKey, HashIndex.GenHashMurMur.
  assert (HM : ∃ bss, mapM Serialize k = Ok bss).
  { induction HS as [|v k Hv _ [bss IH]]; [by exists []|]. destruct (Serialize_storable v Hv) as (bs & E & _).
    exists (bs :: bss). cbn. by rewrite E, IH. }
  destruct HM as [bss ->]. mred. destruct (HashTable.hash_run murmur3 (mjoin bss)) as (h & -> & _); [rewrite Hm; lia|done].
Qed.
