(* ===== verification/Rows.v ===== *)
(** * Rows

    Tables as their users see them: lists of rows of values.  A row is a list of
    values that fit the columns; a table holds rows when its records have the
    bytes made of them.  Here a filter and a projection on tuples are what they
    are on rows, and typed predicates have a truth value on every row. *)

From S2P Require Import Prelude Bytes Types Tuples Disk LogRecord LogManager Replacer ClockReplacer Page BufferPool LockManager PoolView TablePage Engine TableHeap TableScan HashTable HashIndex Expressions Plans Catalog TmpTuples Executors.

(** ** Rows and their bytes *)
Definition row_ok (cols : list Column) (row : list Value) : Prop :=
  Forall2 column_ok cols row ∧ Z.of_nat (length cols) < 2 ^ 32 ∧ fixed_total cols + payload_total (zip cols row) < 2 ^ 32.

(** The bytes a record has for the row. *)
Definition bytes_of (cols : list Column) (row : list Value) (bs : list byte) : Prop :=
  ∃ t, NewTupleFromSchema row (NewSchema cols) = Ok t ∧ data t = bs.

Lemma row_tuple cols row : row_ok cols row →
  ∃ t, NewTupleFromSchema row (NewSchema cols) = Ok t ∧ rid t = None ∧ size t = zlen (data t) ∧
    zlen (data t) = fixed_total cols + payload_total (zip cols row).
Proof.
  intros (Hok & HL & HT). destruct (tuple_reads cols row Hok HL HT) as (t & E & Hs & Hd & Hr & _).
  exists t. unfold zlen. split; [done|]. split; [done|]. split; [done|]. by rewrite Hd.
Qed.

Lemma NewSchema_columns cols row : row_ok cols row → columns (NewSchema cols) = place cols.
Proof.
  intros (Hok & HL & HT). destruct (NewSchema_spec cols) as (b & ->); [by eapply cols_nonneg|by eapply row_fits|done|done].
Qed.

Lemma bytes_reads cols row bs r j v : row_ok cols row → bytes_of cols row bs → row !! j = Some v →
  Tuples.GetValue (stored_tuple r bs) (NewSchema cols) (Z.of_nat j) = Ok v ∧
  GetValueInBytes (stored_tuple r bs) (NewSchema cols) (Z.of_nat j) = Serialize v.
Proof.
  intros (Hok & HL & HT) (t & E & <-) Hv. destruct (tuple_reads cols row Hok HL HT) as (t' & E' & _ & _ & _ & HR).
  rewrite E in E'. injection E' as <-. by apply HR.
Qed.

Lemma bytes_holds cols row bs r : row_ok cols row → bytes_of cols row bs → holds_row (stored_tuple r bs) (NewSchema cols) row.
Proof.
  intros Hok HB. split; [|intros i v Hv; by eapply bytes_reads].
  rewrite (NewSchema_columns _ _ Hok), length_place. symmetry. by eapply Forall2_length, Hok.
Qed.

(** The columns of a row ok, keyed on their types. *)
Lemma row_typed cols row : row_ok cols row → Forall2 (λ v t, has_type v t = true) row (columnType <$> cols).
Proof.
  intros [Hok _]. apply Forall2_fmap_r, Forall2_flip. eapply Forall2_impl; [exact Hok|].
  intros c v (Hs & Hty & _). unfold has_type. rewrite Hty, bool_decide_true by done. rewrite <- Hty. cbn [andb].
  by destruct Hs.
Qed.

(** ** What a table holds *)

(** A record of a table: its place and its row. *)
Abbreviation Located := (RID * list Value)%type.

Definition holds_record (cols : list Column) (e : entry) (x : Located) : Prop :=
  fst e = fst x ∧ row_ok cols (snd x) ∧ ∃ bs, snd e = (false, bs) ∧ bytes_of cols (snd x) bs.

(** The pages [c] of a table hold the rows, in order, and no deleted ones. *)
Definition holds_rows (cols : list Column) (c : list (Z * slots)) (rows : list Located) : Prop :=
  Forall2 (holds_record cols) (heap_entries c) rows.

(** ** Filters *)

(** The rows that pass; nil passes all. *)
Definition row_passes (predicate : option Expression) (row : list Value) : res bool :=
  match predicate with
  | None => Ok true
  | Some p => v ← eval_row p row; ToBoolean v
  end.
Fixpoint filter_rows (predicate : option Expression) (rows : list Located) : res (list Located) :=
  match rows with
  | [] => Ok []
  | x :: rows' => b ← row_passes predicate (snd x); rest ← filter_rows predicate rows'; Ok (if b : bool then x :: rest else rest)
  end.

Lemma selects_row tm cols predicate t row : schema tm = NewSchema cols → holds_row t (NewSchema cols) row →
  selects tm predicate t = row_passes predicate row.
Proof. intros HS HH. destruct predicate as [p|]; [|done]. cbn. by rewrite HS, (Evaluate_row _ _ _ _ HH). Qed.

(** The truth of a predicate on a row, for predicates that have one. *)
Definition truth (predicate : option Expression) (row : list Value) : bool :=
  match row_passes predicate row with Ok b => b | _ => false end.
Definition typed (tys : list TypeID) (predicate : option Expression) : Prop :=
  match predicate with None => True | Some p => typeof tys p = Some Boolean end.

Lemma typed_passes cols predicate row : row_ok cols row → typed (columnType <$> cols) predicate →
  row_passes predicate row = Ok (truth predicate row).
Proof.
  intros Hok HT. unfold truth. destruct predicate as [p|]; [|done]. cbn in *.
  destruct (eval_row_typed _ _ _ _ HT (row_typed _ _ Hok)) as (v & -> & Tv). mred.
  by destruct (boolean_typed v Tv) as [b ->].
Qed.

Lemma typed_filter cols predicate rows : Forall (λ x : Located, row_ok cols (snd x)) rows → typed (columnType <$> cols) predicate →
  filter_rows predicate rows = Ok (filter (λ x : Located, truth predicate (snd x) = true) rows).
Proof.
  intros HF HT. induction HF as [|x rows Hx _ IH]; [done|]. cbn [filter_rows].
  rewrite (typed_passes _ _ _ Hx HT), IH. mred. f_equal.
  destruct (truth predicate (snd x)) eqn:E; [by rewrite filter_cons_True|by rewrite filter_cons_False by (rewrite E; done)].
Qed.

(** ** Projections *)
Definition project_row (out : Schema) (s : Schema) (row : list Value) : res Tuple :=
  values ← mapM (λ c, i ← GetColIndex s (columnName c); index row i) (columns out);
  NewTupleFromSchema values out.

Lemma mapM_ext_res {A B} (f g : A → res B) l : (∀ x, f x = g x) → mapM f l = mapM g l.
Proof. intros HE. induction l as [|x l IH]; [done|]. cbn. by rewrite HE, IH. Qed.

Lemma projects_row tm cols out t row : schema tm = NewSchema cols → holds_row t (NewSchema cols) row →
  projects out tm t = project_row out (schema tm) row.
Proof.
  intros HS HH. unfold projects, project_row. f_equal. rewrite HS. apply mapM_ext_res. intros c.
  destruct (GetColIndex _ _) as [i| | |]; try done. cbn. by apply holds_row_GetValue.
Qed.

(** The tuple of a row fits the rows' columns and is then what [stored_tuple] is. *)
Lemma row_size_bounds cols row : row_ok cols row → 0 ≤ fixed_total cols + payload_total (zip cols row) < 2 ^ 32.
Proof. intros Hok. destruct (row_tuple cols row Hok) as (t & _ & _ & _ & HL). destruct Hok as (_ & _ & HT). unfold zlen in HL. lia. Qed.

(** ** Keys of indexes *)

(** A value determines its bytes and is determined by them. *)
Lemma Serialize_inj v w bs : storable v → storable w → valueType v = valueType w → Serialize v = Ok bs → Serialize w = Ok bs → v = w.
Proof.
  intros Hv Hw HT Ev Ew. destruct (Serialize_storable v Hv) as (b1 & E1 & _ & R1). destruct (Serialize_storable w Hw) as (b2 & E2 & _ & R2).
  assert (b1 = bs) as -> by congruence. assert (b2 = bs) as -> by congruence.
  specialize (R1 []). specialize (R2 []). rewrite HT, R2 in R1. by injection R1.
Qed.

(** Types on which the comparison for equality is equality. *)
Definition exact_type (t : TypeID) : bool := match t with Integer | Varchar => true | _ => false end.

Lemma CompareEquals_exact v w : storable v → storable w → valueType v = valueType w → exact_type (valueType v) = true →
  CompareEquals v w = Ok (bool_decide (v = w)).
Proof.
  intros Hv Hw HT HX. unfold CompareEquals.
  destruct Hv as [n z Hz Hn|n f Hf Hn|n s Hs Hn|n b Hn], Hw as [n' z' Hz' Hn'|n' f' Hf' Hn'|n' s' Hs' Hn'|n' b' Hn']; try done;
    cbn -[Z.eqb]; destruct n, n'; cbn -[Z.eqb]; f_equal.
  - rewrite Hn, Hn' by done. by rewrite bool_decide_true.
  - destruct (Z.eqb_spec z z') as [->|Hne]; [by rewrite bool_decide_true|]. rewrite bool_decide_false; [done|]. by intros [= ?].
  - rewrite Hn, Hn' by done. by rewrite bool_decide_true.
  - unfold bytes_eqb. destruct (bytes_compare s s') eqn:E.
    + apply bytes_compare_eq in E as ->. by rewrite bool_decide_true.
    + rewrite bool_decide_false; [done|]. intros [= ->]. by rewrite bytes_compare_refl in E.
    + rewrite bool_decide_false; [done|]. intros [= ->]. by rewrite bytes_compare_refl in E.
Qed.

(** The predicate [column = constant]. *)
Definition equals (col : Z) (v : Value) : Expression :=
  Comparison (ColumnValue 0 col (valueType v)) (ConstantValue v (valueType v)) Equal Boolean.

Lemma equals_truth cols row j c v w : row_ok cols row → cols !! j = Some c → row !! j = Some w →
  storable v → valueType v = columnType c → exact_type (columnType c) = true →
  row_passes (Some (equals (Z.of_nat j) v)) row = Ok (bool_decide (w = v)).
Proof.
  intros [Hok _] Hc Hw Hv HT HX. destruct (Forall2_lookup_lr _ _ _ _ _ _ Hok Hc Hw) as (Hsw & HTw & _).
  cbn [row_passes equals eval_row]. rewrite (index_nat _ _ _ Hw). unfold compare_with. mred. cbn [performComparison].
  rewrite CompareEquals_exact by (done || congruence). done.
Qed.

(** The search tuple of an index lookup: [v] in its column, and a value of the type
    elsewhere.  There must be no Boolean column. *)
Definition searchable (cols : list Column) : Prop :=
  Forall (λ c, (columnType c = Integer ∨ columnType c = Float ∨ columnType c = Varchar) ∧
    fixedLength c = if IsInlined c then TypeID_Size (columnType c) else 4) cols.
Definition search_row (cols : list Column) (j : nat) (v : Value) : list Value :=
  concat (imap (λ idx col, search_value (Z.of_nat j) v (Z.of_nat idx) col) cols).

Lemma search_row_spec cols j v : searchable cols →
  search_row cols j v =
    imap (λ i c, if decide (i = j) then v else
      match columnType c with Integer => NewInteger 0 | Float => NewFloat 0 | _ => NewVarchar [] end) cols.
Proof.
  intros HS. unfold search_row.
  assert (HG : ∀ cols k, searchable cols →
    concat (imap (λ idx col, search_value (Z.of_nat j) v (Z.of_nat (k + idx)) col) cols) =
    imap (λ i c, if decide ((k + i)%nat = j) then v else
      match columnType c with Integer => NewInteger 0 | Float => NewFloat 0 | _ => NewVarchar [] end) cols).
  { clear cols HS. intros cols. induction cols as [|c0 cols IH]; intros k HS; [done|].
    apply Forall_cons in HS as [[Hty _] HS]. cbn [imap concat].
    rewrite (imap_ext _ (λ idx col, search_value (Z.of_nat j) v (Z.of_nat (S k + idx)) col) cols)
      by (intros i x _; unfold compose; by replace (k + S i)%nat with (S k + i)%nat by lia).
    rewrite IH by done.
    assert (HV : search_value (Z.of_nat j) v (Z.of_nat (k + 0)) c0 =
      [if decide ((k + 0)%nat = j) then v else match columnType c0 with Integer => NewInteger 0 | Float => NewFloat 0 | _ => NewVarchar [] end]).
    { unfold search_value. destruct (decide ((k + 0)%nat = j)) as [->|Hne].
      - rewrite Z.eqb_refl. destruct Hty as [->|[->| ->]]; done.
      - rewrite (proj2 (Z.eqb_neq _ _)) by lia. destruct Hty as [->|[->| ->]]; done. }
    rewrite HV. cbn [app]. f_equal. apply imap_ext. intros i x _. unfold compose. by replace (k + S i)%nat with (S k + i)%nat by lia. }
  apply (HG cols 0%nat HS).
Qed.

Lemma search_tuple cols j c v : searchable cols → cols !! j = Some c → storable v → valueType v = columnType c →
  Z.of_nat (length cols) < 2 ^ 32 → fixed_total cols + payload_total (zip cols (search_row cols j v)) < 2 ^ 32 →
  ∃ t, GenTupleForHashIndexSearch (NewSchema cols) (Z.of_nat j) v = Ok t ∧
    GetValueInBytes t (NewSchema cols) (Z.of_nat j) = Serialize v.
Proof.
  intros HS Hj Hv HT HL HF.
  assert (Hok : row_ok cols (search_row cols j v)).
  { split; [|done]. rewrite (search_row_spec cols j v) by done. apply Forall2_same_length_lookup_2; [by rewrite length_imap|].
    intros i c' w Hc Hw. rewrite list_lookup_imap, Hc in Hw. injection Hw as <-.
    unfold searchable in HS. rewrite Forall_forall in HS. destruct (HS c' ltac:(by eapply list_elem_of_lookup_2)) as [Hty Hfl].
    case_decide as Hd.
    - subst i. assert (c' = c) as -> by congruence. by split.
    - split; [|split; [|done]]; destruct Hty as [->|[->| ->]]; try done; constructor; done. }
  unfold GenTupleForHashIndexSearch. rewrite (NewSchema_columns _ _ Hok).
  assert (HE : concat (imap (λ idx col, search_value (Z.of_nat j) v (Z.of_nat idx) col) (place cols)) = search_row cols j v).
  { unfold search_row. f_equal. unfold place. apply list_eq. intros i. rewrite !list_lookup_imap.
    by destruct (cols !! i). }
  rewrite HE. destruct Hok as (Hok & _ & _). destruct (tuple_reads cols _ Hok HL HF) as ([r sz d] & E & _ & _ & _ & HR).
  eexists. split; [done|]. apply (HR j v). rewrite (search_row_spec cols j v) by done. rewrite list_lookup_imap, Hj. cbn.
  by rewrite decide_True.
Qed.
