(* ===== verification/Operators.v ===== *)
(** * Operators

    What the reading executors return: each, over children that give known results,
    gives the results its operator makes of them.  They change no page, keep no page
    pinned and write no log record. *)

From Stdlib Require Import Sorting.Sorted.
From S2P Require Import Prelude Bytes Types Tuples Disk LogRecord LogManager Replacer ClockReplacer Page BufferPool LockManager PoolView TablePage RecordLocks Engine TableHeap TableScan HashTable HashIndex Expressions Plans Catalog TmpTuples Executors Ordering Grouping.

(** ** Operators on lists of tuples *)
Fixpoint select_rows (sel : Tuple → res bool) (ts : list Tuple) : res (list Tuple) :=
  match ts with
  | [] => Ok []
  | t :: ts' => b ← sel t; rest ← select_rows sel ts'; Ok (if b : bool then t :: rest else rest)
  end.

(** The tuples of a scan: those selected, projected. *)
Definition scan_rows (out : Schema) (predicate : option Expression) (tm : TableMetadata) (ts : list Tuple) : res (list Tuple) :=
  rows ← select_rows (selects tm predicate) ts; mapM (projects out tm) rows.

(** The results of an executor whose child gives [l]: those that an offset skips come
    out as turns without a tuple, and nothing comes out once the limit is
    passed. *)
Fixpoint limit_rows (limit offset : nat) (l : list (option Tuple)) : list (option Tuple) :=
  match l with
  | Some t :: l' =>
      match offset with
      | S o => None :: limit_rows limit o l'
      | O => match limit with O => [] | S k => Some t :: limit_rows k 0 l' end
      end
  | _ => []
  end.

(** The tuples among the results. *)
Definition somes (l : list (option Tuple)) : list Tuple := omap (λ o, o) l.

(** What a query does to the transaction and the lock tables: what reading does. *)
Record query_step {R : Type} `{Replacer R} (e e' : Engine R) : Prop := {
  qs_id : txn_id (etxn e') = txn_id (etxn e);
  qs_writes : write_set (etxn e') = write_set (etxn e);
  qs_prev : prev_lsn (etxn e') = prev_lsn (etxn e);
  qs_exclusive : exclusive_lock_table (elocks e') = exclusive_lock_table (elocks e);
  qs_logging : elogging e' = elogging e;
  qs_log : log_same (estore e) (estore e');
  qs_own : ∀ r, locked_own r (etxn e) → locked_own r (etxn e');
  qs_writable : ∀ r, writable r (etxn e) (elocks e) → writable r (etxn e') (elocks e')
}.

Section steps.
Context {R : Type} `{Replacer R}.
Implicit Types (e : Engine R).

Lemma query_step_refl e : query_step e e.
Proof. by split. Qed.
Lemma query_step_trans e1 e2 e3 : query_step e1 e2 → query_step e2 e3 → query_step e1 e3.
Proof. intros [] []. split; try congruence; [by eapply log_same_trans|eauto|eauto]. Qed.
Lemma read_query_step e e' : read_step e e' → query_step e e'.
Proof. by intros []. Qed.
Lemma same_txn_query e e' : same_txn e e' → query_step e e'.
Proof. intros ST. by apply read_query_step, same_txn_read. Qed.
Lemma readable_query r e e' : query_step e e' → readable r e → readable r e'.
Proof. intros []. by apply unowned_step. Qed.
End steps.

(** ** The engine between two calls

    The pages, the pins, the pages changed and not given back, and the id of the next
    new page. *)
Record Rest : Type := MkRest {
  rpages : gmap Z (list byte);
  rpins : gmap Z Z;
  rleaked : gset Z;
  rnext : Z
}.

(** The pages of [X] are still there, and no more of them are dirty. *)
Definition extends (X Y : Rest) : Prop :=
  rpages X ⊆ rpages Y ∧ ∀ q, q ∈ dom (rpages X) → q ∈ rleaked Y → q ∈ rleaked X.

Lemma extends_refl X : extends X X.
Proof. done. Qed.
Lemma extends_trans X Y Z : extends X Y → extends Y Z → extends X Z.
Proof.
  intros [HP HD] [HP' HD']. split; [by etrans|]. intros q Hq HZ. apply HD; [done|].
  apply HD'; [|done]. by eapply subseteq_dom.
Qed.

(** [j] pages may stay pinned, once each, and [m] may be new; with [j = 0] nothing
    changes. *)
Record grows (j m : nat) (X Y : Rest) : Prop := {
  gr_extends : extends X Y;
  gr_pins : rpins X ⊆ rpins Y;
  gr_size : (base.size (rpins Y) ≤ base.size (rpins X) + j)%nat;
  gr_once : ∀ q i, rpins Y !! q = Some i → rpins X !! q = Some i ∨ i = 1;
  gr_next : rnext X ≤ rnext Y ≤ rnext X + Z.of_nat m;
  gr_same : j = 0%nat → Y = X
}.

Lemma grows_refl m X : grows 0 m X X.
Proof. split; try done; [lia|by left|lia]. Qed.
Lemma grows_trans j m j' m' X Y Z : grows j m X Y → grows j' m' Y Z → grows (j + j') (m + m') X Z.
Proof.
  intros [E P S O N Z1] [E' P' S' O' N' Z2]. split.
  - by eapply extends_trans.
  - by etrans.
  - lia.
  - intros q i Hq. destruct (O' q i Hq) as [Hq'|]; [by apply O|by right].
  - lia.
  - intros HJ. rewrite (Z2 ltac:(lia)). apply Z1. lia.
Qed.
Lemma grows_frames j m k n X Y : grows j m X Y → frames_for (k + j) n (rpins X) → frames_for k n (rpins Y).
Proof.
  intros [_ _ S O _ _] [HF HC]. split; [lia|]. intros q i Hq. destruct (O q i Hq) as [Hq'| ->]; [by eapply HC|lia].
Qed.

Lemma extends_heap X Y t c : extends X Y → heap_rep (rpages X) t c → clean (rleaked X) c →
  heap_rep (rpages Y) t c ∧ clean (rleaked Y) c.
Proof.
  intros [HP HD] [H1 H2 H3] HC. assert (HDom : ∀ q, q ∈ c.*1 → q ∈ dom (rpages X)).
  { intros q Hq. destruct (chain_ids _ _ _ _ H3 Hq) as [[d Hd] _]. by eapply elem_of_dom_2. }
  split.
  - split; [done|done|]. eapply chain_outside; [|exact H3]. intros q Hq. apply HDom, elem_of_dom in Hq as [d Hd].
    rewrite Hd. by eapply lookup_weaken.
  - intros q Hq HY. by apply (HC q Hq), HD; [apply HDom|].
Qed.

Section queries.
Variable murmur3 : list byte → list byte.
Context {R : Type} `{Replacer R} `{SliceSort} `{MapRange}.
Implicit Types (e : Engine R).

(** The engine a query starts in. *)
Variables (e0 : Engine R) (n : nat) (fuel : nat).

Definition rests (X : Rest) e : Prop :=
  shows (estore e) n (leaky (rleaked X) (rpages X) (rpins X)) ∧ query_step e0 e ∧
  nextPageID (diskManager (estore e)) = rnext X.

Lemma rests_read X e e' : rests X e →
  shows (estore e') n (leaky (rleaked X) (rpages X) (rpins X)) → read_step e e' → rests X e'.
Proof.
  intros (_ & Q & N) S RS. split; [done|]. split; [by eapply query_step_trans; [|apply read_query_step]|].
  by rewrite (rs_next _ _ RS).
Qed.

(** A call that leaves the engine at [Y], and every pinned page its object. *)
Definition leads (Y : Rest) e e' : Prop :=
  rests Y e' ∧ keeps_held (estore e) (estore e') (leaky (rleaked Y) (rpages Y) (rpins Y)).

Lemma leads_refl Y e : rests Y e → leads Y e e.
Proof. intros Q. split; [done|by apply keeps_held_all]. Qed.
Lemma leads_trans Y e1 e2 e3 : leads Y e1 e2 → leads Y e2 e3 → leads Y e1 e3.
Proof. intros [_ H1'] [H2' H3']. split; [done|by eapply keeps_held_trans]. Qed.

(** Wherever [X] is extended and two frames are free, [Next] gives the results [l] and
    leaves the engine as it is; then it ends: [d] is whether it says that it is
    done, and not only that there was an error. *)
Fixpoint streams (X : Rest) (d : bool) (depth : nat) (x : Executor) (l : list (option Tuple)) : Prop :=
  ∀ Y e, extends X Y → frames_for 2 n (rpins Y) → rests Y e →
  match l with
  | [] => ∃ x' dn er e', Next murmur3 depth fuel x e = Ok ((x', MkResult None dn er), e') ∧ leads Y e e' ∧
      GetOutputSchema x' = GetOutputSchema x ∧ dn || er = true ∧ (d = true → dn = true)
  | o :: l' => ∃ x' e', Next murmur3 depth fuel x e = Ok ((x', MkResult o false false), e') ∧ leads Y e e' ∧
      GetOutputSchema x' = GetOutputSchema x ∧ streams X d depth x' l'
  end.
(** [Init] makes such an executor; its joins leave [j] pages pinned and make at most [m]
    pages. *)
Definition opens (X : Rest) (j m : nat) (d : bool) (depth : nat) (x : Executor) (l : list (option Tuple)) : Prop :=
  ∀ Y e, extends X Y → frames_for (2 + j) n (rpins Y) → (j ≠ 0%nat → rnext Y + Z.of_nat m < 2 ^ 19) → rests Y e →
  ∃ x' Z e', Init murmur3 depth fuel x e = Ok (x', e') ∧ rests Z e' ∧ grows j m Y Z ∧
    streams Z d depth x' l ∧ GetOutputSchema x' = GetOutputSchema x.

(** A bound on the new pages may be larger. *)
Lemma opens_more X j m m' d depth x l : (m ≤ m')%nat → opens X j m d depth x l → opens X j m' d depth x l.
Proof.
  intros Hm HO Y e HXY HF HN Q. destruct (HO Y e HXY HF) as (x' & Z' & e' & E & Q' & [G1 G2 G3 G4 G5 G6] & HS & HG);
    [intros Hj; specialize (HN Hj); lia|done|].
  exists x', Z', e'. split; [done|]. split; [done|]. split; [split; (done || lia)|done].
Qed.

Lemma streams_extend X Y d depth l : ∀ x, extends X Y → streams X d depth x l → streams Y d depth x l.
Proof.
  induction l as [|o l IH]; intros x HXY HS Z e HYZ HF HR; specialize (HS Z e (extends_trans _ _ _ HXY HYZ) HF HR); [done|].
  destruct HS as (x' & e' & E & HR' & HG & HS). exists x', e'. split; [done|]. split; [done|]. split; [done|by apply IH].
Qed.

(** *** Scans *)
Section scan.
Variables (X : Rest) (tm : TableMetadata) (c : list (Z * list (option (bool * list byte)))).
Hypothesis HR : heap_rep (rpages X) (table tm) c.
Hypothesis HCl : clean (rleaked X) c.
Hypothesis HRd : Forall (λ x : RID * (bool * list byte), readable (fst x) e0) (heap_entries c).
Hypothesis Hpages : (length c ≤ fuel)%nat.
Hypothesis Hturns : (length (heap_entries c) ≤ fuel)%nat.

Definition rest_of (l : list (RID * (bool * list byte))) : Prop :=
  (∀ r x l', l = (r, x) :: l' → at_entry c r x l') ∧ Forall (λ x : RID * (bool * list byte), readable (fst x) e0) l.

Lemma rest_of_tail r x l : rest_of ((r, x) :: l) → rest_of l.
Proof.
  intros [HA HL]. split; [|by apply Forall_cons in HL as [_ HL]].
  intros r' x' l' ->. eapply at_entry_next, HA, eq_refl.
Qed.

Section at_rest.
Variable (Y : Rest).
Hypothesis HXY : extends X Y.
Hypothesis HF : frames_for 2 n (rpins Y).

Lemma next_entry e r bs l :
  rest_of ((r, (false, bs)) :: l) → rests Y e →
  ∃ e', TableScan.Next fuel (MkIterator (table tm) (Some (stored_tuple r bs))) e = Ok (MkIterator (table tm) (shown l), e') ∧ leads Y e e'.
Proof.
  intros HL HQ. pose proof HL as [HA HLr]. destruct (extends_heap _ _ _ _ HXY HR HCl) as [HR' HCl'].
  destruct (Next_run e n _ _ _ (table tm) c r false bs l fuel (proj1 HQ) HR' (HA _ _ _ eq_refl) HF) as (e' & E & S' & RS' & _ & HK); [|done|done|].
  - intros r' x l' ->. apply Forall_cons in HLr as [_ HLr]. apply Forall_cons in HLr as [Hr _].
    by eapply readable_query; [apply HQ|].
  - exists e'. split; [exact E|]. split; [by eapply rests_read|done].
Qed.

Lemma scan_to_run sel rows : ∀ l turns e,
  rest_of l → (length l ≤ turns)%nat → rests Y e → select_rows sel (scan l) = Ok rows →
  ∃ l' e', scan_to turns fuel sel (MkIterator (table tm) (shown l)) e = Ok (MkIterator (table tm) (shown l'), e') ∧
    leads Y e e' ∧ rest_of l' ∧ (length l' ≤ length l)%nat ∧
    match rows with
    | [] => shown l' = None
    | t :: rows' => ∃ r bs l'', l' = (r, (false, bs)) :: l'' ∧ t = stored_tuple r bs ∧ select_rows sel (scan l'') = Ok rows'
    end.
Proof.
  induction l as [|[r [[] bs]] l IH]; intros turns e HL Ht Q; cbn [scan shown].
  - intros [= <-]. exists [], e. pose proof (leads_refl _ _ Q). by destruct turns.
  - intros [= <-]. exists ((r, (true, bs)) :: l), e. pose proof (leads_refl _ _ Q). by destruct turns.
  - cbn [select_rows]. destruct (sel (stored_tuple r bs)) as [b| | |] eqn:Es; try done. mred.
    destruct (select_rows sel (scan l)) as [rest| | |] eqn:Er; try done. mred. intros [= <-].
    assert (E1 : st_lift (S := Engine R) (sel (stored_tuple r bs)) e = Ok (b, e)) by (unfold st_lift; by rewrite Es).
    destruct b.
    + exists ((r, (false, bs)) :: l), e. split; [|split; [by apply leads_refl|split; [done|split; [done|by exists r, bs, l]]]].
      destruct turns; cbn [scan_to Current tuple]; by rewrite (st_bind_run _ _ _ _ _ E1).
    + destruct turns as [|turns]; [cbn in Ht; lia|].
      destruct (next_entry e r bs l HL Q) as (e1 & En & Q1).
      destruct (IH turns e1 (rest_of_tail _ _ _ HL) ltac:(cbn in Ht; lia) (proj1 Q1) eq_refl) as (l' & e2 & E2 & Q2 & HL2 & Hle & HM).
      exists l', e2. split; [|split; [by eapply leads_trans|split; [done|split; [cbn; lia|done]]]].
      cbn [scan_to Current tuple]. rewrite (st_bind_run _ _ _ _ _ E1). by rewrite (st_bind_run _ _ _ _ _ En).
Qed.
End at_rest.

Lemma scan_streams depth out predicate rows : ∀ l outs,
  rest_of l → (length l ≤ fuel)%nat →
  select_rows (selects tm predicate) (scan l) = Ok rows → mapM (projects out tm) rows = Ok outs →
  streams X true (S depth) (SeqScanExecutor out predicate (Some tm) (Some (MkIterator (table tm) (shown l)))) (Some <$> outs).
Proof.
  induction rows as [|t rows IH]; intros l outs HL Ht Es Ep.
  - injection Ep as <-. cbn [fmap list_fmap streams]. intros Y e HXY HF Q.
    destruct (scan_to_run Y HXY HF _ _ l fuel e HL Ht Q Es) as (l' & e' & E & Q' & _ & _ & HM).
    exists (SeqScanExecutor out predicate (Some tm) (Some (MkIterator (table tm) None))), true, false, e'. split; [|done]. rewrite HM in E.
    cbn [Next]. unfold scan_step. unfold mbind, st_mbind. cbn [st_lift deref]. rewrite E. done.
  - cbn in Ep. destruct (projects out tm t) as [o| | |] eqn:Et; try done. mred.
    destruct (mapM (projects out tm) rows) as [outs'| | |] eqn:Eo; try done. mred. injection Ep as <-.
    cbn [fmap list_fmap streams]. intros Y e HXY HF Q.
    destruct (scan_to_run Y HXY HF _ _ l fuel e HL Ht Q Es) as (l' & e1 & E & Q1 & HL1 & Hle & (r & bs & l'' & -> & -> & Es')).
    destruct (next_entry Y HXY HF e1 r bs l'' HL1 (proj1 Q1)) as (e2 & En & Q2).
    exists (SeqScanExecutor out predicate (Some tm) (Some (MkIterator (table tm) (shown l'')))), e2.
    split; [|split; [by eapply leads_trans|split; [done|]]].
    + cbn [Next]. unfold scan_step. unfold mbind, st_mbind. cbn [st_lift deref]. rewrite E. cbn [shown Current tuple].
      rewrite Et. cbn. by rewrite En.
    + apply IH; [by eapply rest_of_tail|cbn in Hle; lia|done|done].
Qed.

Lemma scan_opens depth out predicate it outs :
  scan_rows out predicate tm (scan (heap_entries c)) = Ok outs →
  opens X 0 0 true (S depth) (SeqScanExecutor out predicate (Some tm) it) (Some <$> outs).
Proof.
  intros E. unfold scan_rows in E. destruct (select_rows _ _) as [rows| | |] eqn:Es; try done. cbn in E.
  intros Y e HXY HF _ HQ. destruct (extends_heap _ _ _ _ HXY HR HCl) as [HR' HCl'].
  destruct (start_run e n _ _ _ (table tm) c fuel (proj1 HQ) HR' HF) as (e' & Ei & S' & RS' & _); [|done|done|].
  { eapply Forall_impl; [exact HRd|]. intros x. apply readable_query, HQ. }
  exists (SeqScanExecutor out predicate (Some tm) (Some (MkIterator (table tm) (shown (heap_entries c))))), Y, e'.
  split; [|split; [by eapply rests_read|split; [apply grows_refl|split; [|done]]]].
  - cbn [Init]. unfold start_scan, mbind, st_mbind. cbn [st_lift deref]. by rewrite Ei.
  - eapply streams_extend; [exact HXY|].
    eapply scan_streams; [|done|done|done]. split; [|done]. intros r x l'. apply at_entry_head.
Qed.
End scan.

(** *** Limits *)
Lemma limit_streams X d l : ∀ depth limit offset x em sk,
  streams X d depth x l → 0 ≤ em → 0 ≤ sk → em + Z.of_nat limit < 2 ^ 32 - 1 → sk + Z.of_nat offset < 2 ^ 32 →
  streams X d (S depth) (LimitExecutor (em + Z.of_nat limit) (sk + Z.of_nat offset) x em sk) (limit_rows limit offset l).
Proof.
  induction l as [|o l IH]; intros depth limit offset x em sk HS Hem Hsk Hl Ho.
  - cbn [limit_rows streams]. intros Y e HXY HF Q. destruct (HS Y e HXY HF Q) as (x' & dn & er & e' & E & Q' & _ & HE & HD).
    destruct er; eexists _, _, _, e'; cbn [Next]; rewrite (st_bind_run _ _ _ _ _ E); cbn [snd fst limit_step res_err res_done res_tuple];
      (split; [reflexivity|]); (split; [done|]); (split; [done|]); (split; [|done]); [apply orb_true_r|done].
  - cbn [streams] in HS. destruct o as [t|]; cbn [limit_rows].
    2: { intros Y e HXY HF Q. destruct (HS Y e HXY HF Q) as (x' & e' & E & Q' & _). eexists _, _, _, e'.
         cbn [Next]. rewrite (st_bind_run _ _ _ _ _ E). by split. }
    destruct offset as [|offset].
    + destruct limit as [|limit].
      * intros Y e HXY HF Q. destruct (HS Y e HXY HF Q) as (x' & e' & E & Q' & _). eexists _, _, _, e'.
        cbn [Next]. rewrite (st_bind_run _ _ _ _ _ E). cbn [snd fst limit_step res_err res_done res_tuple].
        rewrite (proj2 (Z.ltb_ge sk _)) by lia. rewrite u32_small by (unfold in_u32; lia).
        rewrite (proj2 (Z.ltb_lt (em + Z.of_nat 0) (em + 1))) by lia. by split.
      * cbn [streams]. intros Y e HXY HF Q. destruct (HS Y e HXY HF Q) as (x' & e' & E & Q' & _ & HS').
        exists (LimitExecutor (em + 1 + Z.of_nat limit) (sk + Z.of_nat 0) x' (em + 1) sk), e'.
        split; [|split; [done|split; [done|apply IH; (done || lia)]]].
        cbn [Next]. rewrite (st_bind_run _ _ _ _ _ E). cbn [snd fst limit_step res_err res_done res_tuple].
        rewrite (proj2 (Z.ltb_ge sk _)) by lia. rewrite u32_small by (unfold in_u32; lia).
        rewrite (proj2 (Z.ltb_ge (em + Z.of_nat (S limit)) (em + 1))) by lia.
        by replace (em + Z.of_nat (S limit)) with (em + 1 + Z.of_nat limit) by lia.
    + cbn [streams]. intros Y e HXY HF Q. destruct (HS Y e HXY HF Q) as (x' & e' & E & Q' & _ & HS').
      exists (LimitExecutor (em + Z.of_nat limit) (sk + 1 + Z.of_nat offset) x' em (sk + 1)), e'.
      split; [|split; [done|split; [done|apply IH; (done || lia)]]].
      cbn [Next]. rewrite (st_bind_run _ _ _ _ _ E). cbn [snd fst limit_step res_err res_done res_tuple].
      rewrite (proj2 (Z.ltb_lt sk _)) by lia. rewrite u32_small by (unfold in_u32; lia).
      by replace (sk + Z.of_nat (S offset)) with (sk + 1 + Z.of_nat offset) by lia.
Qed.

Lemma limit_opens X j m d depth limit offset x l :
  opens X j m d depth x l → Z.of_nat limit < 2 ^ 32 - 1 → Z.of_nat offset < 2 ^ 32 →
  opens X j m d (S depth) (LimitExecutor (Z.of_nat limit) (Z.of_nat offset) x 0 0) (limit_rows limit offset l).
Proof.
  intros HO Hl Ho Y e HXY HF HN Q. destruct (HO Y e HXY HF HN Q) as (x' & Z' & e' & E & Q' & HG & HS & _).
  exists (LimitExecutor (Z.of_nat limit) (Z.of_nat offset) x' 0 0), Z', e'. split; [|split; [done|split; [done|split; [|done]]]].
  - cbn [Init]. by rewrite (st_bind_run _ _ _ _ _ E).
  - by apply (limit_streams Z' d l depth limit offset x' 0 0).
Qed.

(** *** Draining a child *)

(** The tuples of the results, with the turn each came in. *)
Fixpoint numbered (cnt : Z) (l : list (option Tuple)) : list (Z * Tuple) :=
  match l with
  | [] => []
  | Some t :: l' => (cnt, t) :: numbered (i32 (cnt + 1)) l'
  | None :: l' => numbered (i32 (cnt + 1)) l'
  end.

Lemma drain_run {A} X d depth (f : Z → Tuple → A → res A) l : ∀ turns cnt x acc acc' Y e,
  streams X d depth x l → (length l < turns)%nat → extends X Y → frames_for 2 n (rpins Y) → rests Y e →
  res_foldl (λ acc p, f (fst p) (snd p) acc) (numbered cnt l) acc = Ok acc' →
  ∃ x' e', drain murmur3 turns depth fuel f cnt x acc e = Ok ((x', acc'), e') ∧ rests Y e'.
Proof.
  induction l as [|o l IH]; intros turns cnt x acc acc' Y e HS Ht HXY HF Q Ef; (destruct turns as [|turns]; [cbn in Ht; lia|]).
  - cbn in Ef. injection Ef as <-. destruct (HS Y e HXY HF Q) as (x' & dn & er & e' & E & [Q' _] & _ & HE & _). exists x', e'.
    cbn [drain]. rewrite (st_bind_run _ _ _ _ _ E). cbn [res_err res_done]. by rewrite orb_comm, HE.
  - destruct (HS Y e HXY HF Q) as (x' & e1 & E & [Q1 _] & _ & HS'). cbn [drain]. rewrite (st_bind_run _ _ _ _ _ E). cbn [res_err res_done orb res_tuple].
    destruct o as [t|]; cbn [numbered res_foldl fst snd] in Ef; cbn beta iota.
    + destruct (f cnt t acc) as [acc1| | |] eqn:Ea; try done. cbn in Ef.
      assert (EL : st_lift (S := Engine R) (Ok acc1) e1 = Ok (acc1, e1)) by done.
      rewrite (st_bind_run _ _ _ _ _ EL). by apply (IH turns); [|cbn in Ht; lia| | | |].
    + assert (EL : st_lift (S := Engine R) (Ok acc) e1 = Ok (acc, e1)) by done.
      rewrite (st_bind_run _ _ _ _ _ EL). by apply (IH turns); [|cbn in Ht; lia| | | |].
Qed.

Lemma numbered_somes ts i : Z.of_nat (i + length ts) < 2 ^ 31 →
  numbered (Z.of_nat i) (Some <$> ts) = imap (λ j t, (Z.of_nat (i + j), t)) ts.
Proof.
  revert i. induction ts as [|t ts IH]; intros i HL; [done|]. cbn [fmap list_fmap numbered imap]. cbn [length] in HL.
  rewrite i32_small by (unfold in_i32; lia). replace (Z.of_nat i + 1) with (Z.of_nat (S i)) by lia. rewrite IH by lia. f_equal.
  - by rewrite Nat.add_0_r.
  - apply imap_ext. intros j u _. unfold compose. by replace (i + S j)%nat with (S i + j)%nat by lia.
Qed.

(** *** Sorting *)
Lemma sorted_streams X s cols types x depth all ts : ∀ cur, drop cur all = ts →
  streams X true (S depth) (OrderbyExecutor s cols types x all cur) (Some <$> ts).
Proof.
  induction ts as [|t ts IH]; intros cur HD; cbn [fmap list_fmap streams]; intros Y e _ _ Q; apply leads_refl in Q.
  - exists (OrderbyExecutor s cols types x all cur), true, false, e. split; [|done]. cbn [Next]. unfold next_sorted.
    assert (HN : all !! cur = None) by (rewrite <- (Nat.add_0_r cur), <- lookup_drop; by rewrite HD). by rewrite HN.
  - do 2 eexists. assert (HN : all !! cur = Some t) by (rewrite <- (Nat.add_0_r cur), <- lookup_drop; by rewrite HD).
    cbn [Next]. unfold next_sorted. rewrite HN. split; [done|]. split; [done|]. split; [done|]. apply IH.
    rewrite (drop_S _ _ _ HN) in HD. by injection HD.
Qed.

Lemma orderby_opens x ts s cols types keys :
  (length ts < fuel)%nat → Z.of_nat (length ts) < 2 ^ 31 →
  Forall2 (λ k t, sort_key (GetOutputSchema x) cols t = Ok k) keys ts →
  (length cols ≤ length types)%nat → (∀ k k', k ∈ keys → k' ∈ keys → comparable_keys k k') →
  ∃ sorted, sorted ≡ₚ ts ∧ key_sorted types (sort_key (GetOutputSchema x) cols) sorted ∧
    ∀ X j m d depth, opens X j m d depth x (Some <$> ts) →
      opens X j m true (S depth) (OrderbyExecutor s cols types x [] 0) (Some <$> sorted).
Proof.
  intros Hfu Hl HK HT HC.
  destruct (sort_tuples_run types ts keys (length cols)) with (key := sort_key (GetOutputSchema x) cols) as (sorted & Es & HP & HS);
    [by eapply Forall2_length| |done|done|done|].
  { rewrite Forall_forall. intros k Hk. apply list_elem_of_lookup in Hk as [i Hi].
    destruct (Forall2_lookup_l _ _ _ _ _ HK Hi) as (t & _ & E). unfold sort_key in E. by eapply mapM_length_Ok. }
  exists sorted. split; [done|]. split; [done|]. intros X j m d depth HO Y e HXY HF HN Q.
  destruct (HO Y e HXY HF HN Q) as (x' & Z' & e1 & E & Q1 & HGr & HSt & HG).
  destruct (drain_run Z' d depth (λ cnt t acc, gather (GetOutputSchema x) cols acc (cnt, t)) (Some <$> ts) fuel 0 x' ([], [])
    (ts, keyed keys) Z' e1 HSt) as (x2 & e2 & E2 & Q2); [by rewrite length_fmap|apply extends_refl|by eapply grows_frames|done| |].
  { change (numbered 0) with (numbered (Z.of_nat 0)). rewrite numbered_somes by (cbn; lia).
    rewrite (res_foldl_ext _ (gather (GetOutputSchema x) cols)) by (intros ? [? ?]; done).
    rewrite (gather_run _ _ _ _ HK 0). cbn [fst snd app]. done. }
  exists (OrderbyExecutor s cols types x2 sorted 0), Z', e2. split; [|split; [done|split; [done|split; [by apply sorted_streams|done]]]].
  cbn [Init]. rewrite (st_bind_run _ _ _ _ _ E). rewrite HG. unfold gather in E2. cbn [fst snd] in E2.
  rewrite (st_bind_run _ _ _ _ _ E2). cbn [fst snd].
  by rewrite (st_bind_run _ _ _ _ _ (st_lift_run _ _ _ Es)).
Qed.

(** *** Aggregation *)
Lemma group_streams X s exprs hv gb ag types x aht depth gs : ∀ i ks outs,
  Z.of_nat (length gs) < 2 ^ 31 - 1 → (i ≤ length gs)%nat → (length gs ≤ fuel)%nat →
  kept hv (drop i gs) = Ok ks → mapM (group_row s exprs) ks = Ok outs →
  streams X true (S depth) (AggregationExecutor s exprs hv gb ag types x aht (Some (at_group gs i))) (Some <$> outs).
Proof.
  intros i ks. revert i. induction ks as [|g ks IH]; intros i outs Hl Hi Hf HK HM.
  - injection HM as <-. cbn [fmap list_fmap streams]. intros Y e _ _ Q. apply leads_refl in Q.
    pose proof (aggregate_step_run hv gs Hl s exprs [] fuel i Hi ltac:(lia) HK) as E. cbn beta iota in E.
    exists (AggregationExecutor s exprs hv gb ag types x aht (Some (at_group gs (length gs)))), true, false, e.
    split; [|done]. cbn [Next]. unfold mbind, st_mbind, st_lift. mred. by rewrite E.
  - cbn [mapM] in HM. apply res_bind_Ok in HM as (t & Et & HM). apply res_bind_Ok in HM as (outs' & Eo & [= <-]).
    cbn [fmap list_fmap streams]. intros Y e _ _ Q. apply leads_refl in Q.
    destruct (aggregate_step_run hv gs Hl s exprs (g :: ks) fuel i Hi ltac:(lia) HK t Et) as (j & Hij & Hj & E & HK').
    exists (AggregationExecutor s exprs hv gb ag types x aht (Some (at_group gs (S j)))), e.
    split; [|split; [done|split; [done|by apply (IH (S j))]]]. cbn [Next]. unfold mbind, st_mbind, st_lift. mred. by rewrite E.
Qed.

Lemma numbered_fold {A} (f : A → Tuple → res A) ts : ∀ i acc,
  res_foldl (λ acc p, f acc (snd p)) (numbered i (Some <$> ts)) acc = res_foldl f ts acc.
Proof.
  induction ts as [|t ts IH]; intros i acc; [done|]. cbn [fmap list_fmap numbered res_foldl snd].
  destruct (f acc t); try done. apply IH.
Qed.

Lemma aggregation_opens x ts rows s exprs gb ag types :
  (length ts < fuel)%nat → Z.of_nat (length ts) < 2 ^ 31 - 1 →
  mapM (agg_row gb ag (GetOutputSchema x)) ts = Ok rows → groupable murmur3 (length ag) types rows →
  mapM agg_expr exprs = Ok exprs →
  ∃ gs, groups_of (length ag) types rows gs ∧ ∀ X j m d depth hv ks outs, opens X j m d depth x (Some <$> ts) →
    kept hv gs = Ok ks → mapM (group_row s exprs) ks = Ok outs →
    opens X j m true (S depth) (AggregationExecutor s exprs hv gb ag types x NewSimpleAggregationHashTable None) (Some <$> outs).
Proof.
  intros Hfu Hl Hrows HG Hex. destruct (gather_groups _ _ _ _ HG) as (aht & Ea & HT).
  destruct (Begin_groups _ _ _ _ _ HG HT) as (gs & HGs & EB). exists gs. split; [done|]. intros X j m d depth hv ks outs HO HK HM Y e HXY HF HN Q.
  pose proof (groups_of_length _ _ _ _ HGs) as Hle. rewrite (mapM_length_Ok _ _ _ Hrows) in Hle.
  destruct (HO Y e HXY HF HN Q) as (x' & Z' & e1 & E & Q1 & HGr & HSt & HGo).
  destruct (drain_run Z' d depth (λ (_ : Z) t aht, k ← evaluate_all gb (GetOutputSchema x) t; v ← evaluate_all ag (GetOutputSchema x) t;
      InsertCombine murmur3 (length ag) types k v aht) (Some <$> ts) fuel 0 x' NewSimpleAggregationHashTable aht Z' e1 HSt)
    as (x2 & e2 & E2 & Q2); [by rewrite length_fmap|apply extends_refl|by eapply grows_frames|done| |].
  { rewrite (numbered_fold (λ aht t, k ← evaluate_all gb (GetOutputSchema x) t; v ← evaluate_all ag (GetOutputSchema x) t;
      InsertCombine murmur3 (length ag) types k v aht)). by rewrite (combine_rows _ _ _ _ _ _ _ _ _ Hrows). }
  exists (AggregationExecutor s exprs hv gb ag types x2 aht (Some (aht_Begin aht))), Z', e2.
  split; [|split; [done|split; [done|split; [|done]]]].
  - cbn [Init]. rewrite (st_bind_run _ _ _ _ _ E). rewrite (st_bind_run _ _ _ _ _ (st_lift_run _ _ _ Hex)). rewrite HGo.
    by rewrite (st_bind_run _ _ _ _ _ E2).
  - rewrite EB. change (MkHTIterator gs.*1 gs.*2 0) with (at_group gs 0).
    apply (group_streams _ _ _ _ _ _ _ _ _ _ _ 0 ks); [lia|lia|lia|by rewrite drop_0|done].
Qed.

(** *** The engine's loop *)
Lemma run_executor_run X d depth l : ∀ turns x Y e,
  streams X d depth x l → (length l < turns)%nat → extends X Y → frames_for 2 n (rpins Y) → rests Y e →
  ∃ e', run_executor murmur3 turns depth fuel x e = Ok (somes l, e') ∧ rests Y e'.
Proof.
  induction l as [|o l IH]; intros turns x Y e HS Ht HXY HF Q; (destruct turns as [|turns]; [cbn in Ht; lia|]).
  - destruct (HS Y e HXY HF Q) as (x' & dn & er & e' & E & [Q' _] & _ & HE & _). exists e'.
    cbn [run_executor]. rewrite (st_bind_run _ _ _ _ _ E). cbn [res_err res_done]. by rewrite orb_comm, HE.
  - destruct (HS Y e HXY HF Q) as (x' & e1 & E & [Q1 _] & _ & HS').
    destruct (IH turns x' Y e1 HS' ltac:(cbn in Ht; lia) HXY HF Q1) as (e' & E' & Q'). exists e'. split; [|done].
    cbn [run_executor]. rewrite (st_bind_run _ _ _ _ _ E). cbn [res_err res_done orb res_tuple].
    rewrite (st_bind_run _ _ _ _ _ E'). by destruct o.
Qed.
End queries.

(** The engine before a query. *)
Definition rest_at (P : gmap Z (list byte)) (pins : gmap Z Z) (next : Z) : Rest := MkRest P pins ∅ next.

Lemma rests_start {R : Type} `{Replacer R} (e : Engine R) n P pins :
  shows (estore e) n (quiet P pins) → rests e n (rest_at P pins (nextPageID (diskManager (estore e)))) e.
Proof. intros S. split; [exact S|]. split; [apply query_step_refl|done]. Qed.

(** What has neither new pages nor more pins has only read. *)
Lemma rests_reads {R : Type} `{Replacer R} (e e' : Engine R) n P pins :
  rests e n (rest_at P pins (nextPageID (diskManager (estore e)))) e' → read_step e e'.
Proof. intros (_ & [] & HN). by split. Qed.

(** The engine has changed by reading only. *)
Definition quiet_since {R : Type} `{Replacer R} (e0 : Engine R) n P pins (e : Engine R) : Prop :=
  shows (estore e) n (quiet P pins) ∧ read_step e0 e.
