(* ===== verification/Joins.v ===== *)
(** * Hash joins ([execution/executors/hash_join_executor.go])

    The left side goes to temporary pages and a table from hashes to places in them; each
    right tuple is tried against the left tuples with its hash.  What comes out is the
    nested loop over both sides, as long as the pages do not fill up in a way the page
    code does not survive. *)

From S2P Require Import Prelude Bytes Types Tuples Disk LogRecord LogManager Replacer ClockReplacer Page BufferPool LockManager PoolView TablePage Engine TableHeap TableScan HashTable HashIndex Expressions Plans Catalog TmpTuples Executors Ordering Grouping Rows Operators.

Section joins.
Variable murmur3 : list byte → list byte.
Context {R : Type} `{Replacer R} `{SliceSort} `{MapRange}.
Implicit Types (e : Engine R).

(** ** Temporary pages in the pool *)
Lemma on_tmp_page_run {A} e n v pid p bs (f : list byte → res (A * list byte)) a bs' :
  shows (estore e) n v → held (estore e) pid p → is_Some (vpins v !! pid) → vpages v !! pid = Some bs →
  f bs = Ok (a, bs') → length bs' = length bs →
  ∃ e', on_tmp_page p f e = Ok (a, e') ∧ shows (estore e') n (vwrite pid bs' v) ∧ same_txn e e' ∧
    (∀ i q, held (estore e) i q → held (estore e') i q).
Proof.
  intros S Hh HS HB E HL. destruct (held_object _ _ _ _ _ _ S Hh HB) as (f0 & pg & C & HO & _ & <- & HLt & _).
  destruct (shows_write _ _ _ _ _ _ _ (set_pdata bs' pg) S HS C) as (S' & Hk & _); try done.
  exists (set_store (upd_obj p (set_pdata bs' pg) (estore e)) e). split; [|split; [exact S'|split; [by apply same_txn_store|exact Hk]]].
  unfold on_tmp_page. apply with_store_run. rewrite HO. mred. rewrite E. done.
Qed.

(** The tuple [t] is at the place [tmp]. *)
Definition holds_tuple (X : Rest) (tmp : TmpTuple) (t : Tuple) : Prop :=
  ∃ d, rpages X !! tmp_page_id tmp = Some d ∧ tmp_Get (tmp_offset tmp) d = Ok t.

Variables (e0 : Engine R) (n : nat) (fuel : nat).
#[local] Abbreviation rests := (rests e0 n).
#[local] Abbreviation leads := (leads e0 n).

Lemma leads_txn Y e e' : rests Y e → shows (estore e') n (leaky (rleaked Y) (rpages Y) (rpins Y)) →
  keeps_held (estore e) (estore e') (leaky (rleaked Y) (rpages Y) (rpins Y)) → same_txn e e' → leads Y e e'.
Proof. intros Q S HK ST. split; [|done]. eapply rests_read; [exact Q|exact S|by apply same_txn_read]. Qed.

Lemma fetch_tmp_run Y e tmp t : rests Y e → frames_for 1 n (rpins Y) → holds_tuple Y tmp t →
  ∃ e', fetch_tmp tmp e = Ok (t, e') ∧ leads Y e e'.
Proof.
  intros Q HF (d & Hd & Ht). destruct (look_run e n _ _ _ (tmp_page_id tmp) d (proj1 Q) Hd) as
    (p & e1 & pg & e2 & E1 & E2 & Hpg & E3 & S & HK & ST); [by eapply (frames_room 1); [lia|]|].
  exists e2. split; [|by apply leads_txn]. unfold fetch_tmp. estep E1. estep (st_lift_run (deref (Some p)) p e1 eq_refl). estep E2.
  rewrite Hpg. estep (st_lift_run _ _ e1 Ht). by estep E3.
Qed.

(** ** Building

    [X] is the engine before: [Y] has the pages so far, and the last of them, with free
    space up to [f], is pinned and not yet reported dirty. *)
Definition last_page (X Y : Rest) e (b : Building) (f : option Z) : Prop :=
  match b_page b, f with
  | None, None => b_page_id b = InvalidPageID ∧ rpins Y = rpins X ∧ rleaked Y = rleaked X
  | Some p, Some free =>
      let pid := b_page_id b in
      page_in_range pid ∧ rpages X !! pid = None ∧ rpins X !! pid = None ∧ (pid ∉ rleaked X) ∧
      rpins Y = <[pid := 1]> (rpins X) ∧ rleaked Y = {[pid]} ∪ rleaked X ∧ held (estore e) pid p ∧
      ∃ d, rpages Y !! pid = Some d ∧ tmp_page d pid free
  | _, _ => False
  end.

Record building (X Y : Rest) e (b : Building) (f : option Z) (k : nat) (es : list (TmpTuple * Tuple)) : Prop := {
  bd_rests : rests Y e;
  bd_pages : rpages X ⊆ rpages Y;
  bd_last : last_page X Y e b f;
  bd_next : rnext Y = rnext X + Z.of_nat k;
  bd_entries : Forall (λ x, holds_tuple Y (fst x) (snd x) ∧
    (∀ free, f = Some free → tmp_page_id (fst x) = b_page_id b → free ≤ tmp_offset (fst x))) es
}.

(** The building apart from the page it fills. *)
Lemma building_tmp X Y e b f k es tmp : building X Y e b f k es → building X Y e (MkBuilding (b_page b) (b_page_id b) tmp) f k es.
Proof. by intros []. Qed.

Lemma building_start X e : rests X e → building X X e building_0 None 0 [].
Proof. intros Q. split; [done|done|by split|cbn; lia|constructor]. Qed.

(** A call of the left child in between. *)
Lemma building_leads X Y e e' b f k es : building X Y e b f k es → leads Y e e' → building X Y e' b f k es.
Proof.
  intros [Q HP HL HN HE] [Q' HK]. split; [done|done| |done|done]. unfold last_page in *.
  destruct (b_page b) as [p|], f as [free|]; try done. destruct HL as (H1' & H2' & H3' & H4' & H5' & H6' & H7' & H8').
  repeat (split; [done|]). split; [|done]. apply HK; [|done]. cbn. rewrite H5', lookup_insert_eq. by eexists.
Qed.

Lemma building_extends X Y e b f k es : building X Y e b f k es → extends X Y.
Proof.
  intros [Q HP HL HN HE]. split; [done|]. intros q Hq. unfold last_page in HL.
  destruct (b_page b) as [p|], f as [free|]; try done.
  - destruct HL as (_ & HX & _ & _ & _ & -> & _). rewrite elem_of_union, elem_of_singleton. intros [->|]; [|done].
    by apply not_elem_of_dom in HX.
  - destruct HL as (_ & _ & ->). done.
Qed.

Lemma building_grows X Y e b f k es : building X Y e b f k es → grows 1 k X Y.
Proof.
  intros HB. pose proof (building_extends _ _ _ _ _ _ _ HB) as HX. destruct HB as [Q HP HL HN HE]. unfold last_page in HL.
  destruct (b_page b) as [p|], f as [free|]; try done.
  - destruct HL as (_ & _ & HX' & _ & HPi & _). split; [done| | | |lia|done]; rewrite HPi.
    + by apply insert_subseteq.
    + rewrite map_size_insert_None by done. lia.
    + intros q i [[_ <-]|[_ Hq]]%lookup_insert_Some; [by right|by left].
  - destruct HL as (_ & HPi & _). split; [done| | | |lia|done]; rewrite HPi; [done|lia|by left].
Qed.

Lemma union_twice (q : Z) (D : gset Z) : {[q]} ∪ ({[q]} ∪ D) = {[q]} ∪ D.
Proof. set_solver. Qed.

(** A write to the last page that keeps the tuples on it. *)
Definition put_page (pid : Z) (d : list byte) (Y : Rest) : Rest := MkRest (<[pid := d]> (rpages Y)) (rpins Y) (rleaked Y) (rnext Y).

Lemma building_write {A} X Y e b f f' k es p d d' (g : list byte → res (A * list byte)) a :
  building X Y e b (Some f) k es → b_page b = Some p → rpages Y !! b_page_id b = Some d →
  g d = Ok (a, d') → tmp_page d' (b_page_id b) f' → f' ≤ f → (∀ o, f ≤ o → tmp_Get o d' = tmp_Get o d) →
  ∃ e', on_tmp_page p g e = Ok (a, e') ∧ building X (put_page (b_page_id b) d' Y) e' b (Some f') k es.
Proof.
  intros [(S & Q & HNx) HP HL HN HE] Hb Hd Hg HT Hf HG. set (pid := b_page_id b) in *. unfold last_page in HL. rewrite Hb in HL. fold pid in HL.
  destruct HL as (HRn & HX & HXp & HXl & HPi & HLk & Hh & d0 & Hd0 & HT0). assert (d0 = d) as -> by congruence.
  assert (Hpin : is_Some (vpins (leaky (rleaked Y) (rpages Y) (rpins Y)) !! pid)) by (cbn; rewrite HPi, lookup_insert_eq; by eexists).
  assert (Hlen : length d' = length d) by (pose proof (tmp_len _ _ _ HT); pose proof (tmp_len _ _ _ HT0); unfold zlen in *; lia).
  destruct (on_tmp_page_run e n _ pid p d g a d' S Hh Hpin Hd Hg Hlen) as (e' & E & S' & ST & HK).
  exists e'. split; [done|]. split.
  - split; [|split; [by eapply query_step_trans; [|apply same_txn_query]|by rewrite (st_next _ _ ST)]].
    unfold vwrite, leaky in S'. cbn in S'. rewrite HLk in S'.
    rewrite union_twice in S'. unfold leaky. cbn. by rewrite HLk.
  - cbn. by apply insert_subseteq_r.
  - unfold last_page. rewrite Hb. fold pid. repeat (split; [done|]). split; [by apply HK|]. exists d'. split; [|done]. cbn. by rewrite lookup_insert_eq.
  - done.
  - eapply Forall_impl; [exact HE|]. intros [tmp t] [(d1 & Hd1 & Ht) Ho]. cbn in *. split.
    + destruct (decide (tmp_page_id tmp = pid)) as [Hq|Hq].
      * exists d'. cbn. rewrite Hq, lookup_insert_eq. split; [done|]. rewrite HG by (by apply Ho). assert (d1 = d) as -> by congruence. done.
      * exists d1. cbn. by rewrite lookup_insert_ne.
    + intros free [= <-] Hq. specialize (Ho f eq_refl Hq). lia.
Qed.

Lemma store_fits X Y e b f k es p t tmp0 :
  building X Y e b (Some f) k es → b_page b = Some p → plain t → offsetFreeSpace + 4 ≤ f - (4 + size t) →
  let tmp := MkTmpTuple (b_page_id b) (f - (4 + size t)) in
  ∃ Y' e', insert_tmp p t tmp0 e = Ok ((true, tmp), e') ∧
    building X Y' e' (MkBuilding (Some p) (b_page_id b) tmp) (Some (f - (4 + size t))) k (es ++ [(tmp, t)]).
Proof.
  intros HB Hb Ht Hf tmp. pose proof HB as [_ _ HL _ _]. unfold last_page in HL. rewrite Hb in HL.
  destruct HL as (_ & _ & _ & _ & _ & _ & _ & d & Hd & HT).
  destruct (tmp_Insert_fits t d _ f HT Ht Hf) as (d' & E & HT' & Hg & HG).
  assert (H0' : 0 ≤ size t) by (rewrite (pl_size _ Ht); unfold zlen; lia).
  destruct (building_write X Y e b f _ k es p d d' (tmp_Insert t) _ HB Hb Hd E HT' ltac:(lia) HG) as (e' & E' & HB').
  exists (put_page (b_page_id b) d' Y), e'. split; [unfold insert_tmp; by estep E'|].
  destruct HB' as [Q HP HL HN HE]. split; [done|done| |done|].
  - unfold last_page in *. by rewrite Hb in HL.
  - apply Forall_app. split; [done|]. constructor; [|constructor]. split.
    + exists d'. split; [cbn; by rewrite lookup_insert_eq|done].
    + intros free [= <-] _. cbn. lia.
Qed.

Lemma store_refused X Y e b f k es p t tmp0 :
  building X Y e b (Some f) k es → b_page b = Some p → plain t → 0 ≤ f - (4 + size t) < offsetFreeSpace + 4 →
  ∃ Y' e', insert_tmp p t tmp0 e = Ok ((false, tmp0), e') ∧ building X Y' e' b (Some f) k es.
Proof.
  intros HB Hb Ht Hf. pose proof HB as [_ _ HL _ _]. unfold last_page in HL. rewrite Hb in HL.
  destruct HL as (_ & _ & _ & _ & _ & _ & _ & d & Hd & HT).
  pose proof (tmp_Insert_full t d _ f HT Ht Hf) as E.
  destruct (building_write X Y e b f f k es p d d (tmp_Insert t) _ HB Hb Hd E HT ltac:(lia) ltac:(done)) as (e' & E' & HB').
  exists (put_page (b_page_id b) d Y), e'. split; [unfold insert_tmp; by estep E'|done].
Qed.

(** The full page is given back. *)
Lemma give_back X Y e b f k es p tmp :
  building X Y e b (Some f) k es → b_page b = Some p →
  ∃ Y' e', with_store (UnpinPage (b_page_id b) true) e = Ok (true, e') ∧
    building X Y' e' (MkBuilding None InvalidPageID tmp) None k es.
Proof.
  intros [(S & Q & HNx) HP HL HN HE] Hb. set (pid := b_page_id b) in *. unfold last_page in HL. rewrite Hb in HL. fold pid in HL.
  destruct HL as (HRn & HX & HXp & HXl & HPi & HLk & Hh & _).
  assert (Hpin : is_Some (vpins (leaky (rleaked Y) (rpages Y) (rpins Y)) !! pid)) by (cbn; rewrite HPi, lookup_insert_eq; by eexists).
  destruct (unpin_run e n _ pid true S Hpin) as (e' & E & S' & _ & ST); [by left|].
  exists (MkRest (rpages Y) (rpins X) (rleaked X) (rnext Y)), e'. split; [done|]. split; [|done|by split|done|].
  - split; [|split; [by eapply query_step_trans; [|apply same_txn_query]|by rewrite (st_next _ _ ST)]].
    unfold vunpin, vpin_count, leaky in S'. cbn in S'. rewrite HPi, HLk, lookup_insert_eq in S'. cbn in S'.
    rewrite decide_True in S' by lia. rewrite delete_insert_id in S' by done.
    replace (({[pid]} ∪ rleaked X) ∖ {[pid]}) with (rleaked X) in S' by set_solver. exact S'.
  - eapply Forall_impl; [exact HE|]. intros x [Hx _]. by split.
Qed.

(** A new page. *)
Lemma start_page X Y e k es tmp :
  building X Y e (MkBuilding None InvalidPageID tmp) None k es → frames_for 1 n (rpins X) → page_in_range (rnext Y) →
  ∃ p Y' e1 e2, with_store NewPage e = Ok (Some p, e1) ∧ with_store (read_page p) e1 = Ok (NewEmpty (rnext Y), e1) ∧
    on_tmp_page p (λ d, d' ← tmp_Init (rnext Y) PageSize d; Ok (tt, d')) e1 = Ok (tt, e2) ∧
    building X Y' e2 (MkBuilding (Some p) (rnext Y) tmp) (Some PageSize) (S k) es.
Proof.
  intros [(S & Q & HNx) HP (_ & HPi & HLk) HN HE] [HF _] HRn.
  destruct (shows_new (estore e) n _ S) as (p & s1 & E1 & S1 & Hh1 & _ & HL1 & HN1 & HO1).
  { cbn. rewrite HPi. lia. }
  { intros i [l Hl]. cbn in Hl. by rewrite lookup_empty in Hl. }
  { by rewrite HNx. }
  destruct (unused_page (estore e) n _ (rnext Y) S) as (U1 & U2 & _); [lia|]. cbn in U1, U2.
  rewrite HNx in *. set (pid := rnext Y) in *. set (e1 := set_store s1 e).
  destruct (tmp_Init_run pid (zeros (Z.to_nat PageSize))) as (d & Ed & HT); [done|unfold page_in_range in HRn; unfold in_i32; lia|].
  destruct (on_tmp_page_run e1 n _ pid p (zeros (Z.to_nat PageSize)) (λ d, d' ← tmp_Init pid PageSize d; Ok (tt, d')) tt d S1 Hh1) as (e2 & E2 & S2 & ST2 & HK2).
  { cbn. rewrite lookup_insert_eq. by eexists. }
  { cbn. by rewrite lookup_insert_eq. }
  { by rewrite Ed. }
  { pose proof (tmp_len _ _ _ HT) as HL. unfold zlen in HL. unfold zeros. rewrite length_replicate. lia. }
  assert (HXn : rpages X !! pid = None) by (by eapply lookup_weaken_None).
  assert (HXl : pid ∉ rleaked X).
  { rewrite <- HLk. intros Hin. destruct (sh_dirty _ _ _ S pid Hin) as [j Hj]. cbn in Hj. congruence. }
  exists p, (MkRest (<[pid := d]> (rpages Y)) (<[pid := 1]> (rpins X)) ({[pid]} ∪ rleaked X) (pid + 1)), e1, e2.
  split; [by apply with_store_run|]. split; [exact (with_store_run _ e1 _ s1 (read_page_run s1 p _ HO1))|]. split; [done|]. split.
  - split; [|split].
    + unfold vwrite, vnew, leaky in S2. cbn in S2. rewrite insert_insert_eq, HPi, HLk in S2.
      rewrite union_twice in S2. exact S2.
    + eapply query_step_trans; [exact Q|]. eapply (query_step_trans _ e1); [by split|by apply same_txn_query].
    + rewrite (st_next _ _ ST2). exact HN1.
  - cbn. by apply insert_subseteq_r.
  - unfold last_page. cbn [b_page b_page_id]. split; [done|]. split; [done|]. split; [by rewrite <- HPi|]. split; [done|]. split; [done|].
    split; [done|]. split; [by apply HK2|]. exists d. split; [cbn; by rewrite lookup_insert_eq|done].
  - cbn. lia.
  - eapply Forall_impl; [exact HE|]. intros [tm t] [(d1 & Hd1 & Ht) _]. cbn in *.
    assert (tmp_page_id tm ≠ pid) by (intros Hq; rewrite Hq in Hd1; congruence). split; [|done].
    exists d1. cbn. by rewrite lookup_insert_ne.
Qed.

(** The free space after a tuple, on the same page or on a new one; nothing when the page
    code fails. *)
Definition tmp_place (f : option Z) (t : Tuple) : option Z :=
  let need_size := 4 + size t in
  let on_new := if offsetFreeSpace + 4 <=? PageSize - need_size then Some (PageSize - need_size) else None in
  match f with
  | Some free =>
      if offsetFreeSpace + 4 <=? free - need_size then Some (free - need_size)
      else if need_size <=? free then on_new else None
  | None => on_new
  end.
Fixpoint fits (f : option Z) (ts : list Tuple) : bool :=
  match ts with
  | [] => true
  | t :: ts' => match tmp_place f t with Some f' => fits (Some f') ts' | None => false end
  end.

Lemma next_nonneg s v : shows (R := R) s n v → 0 ≤ nextPageID (diskManager s).
Proof.
  intros S. destruct (sh_pool _ _ _ S) as (E & _ & [HF _] & _). etrans; [|exact HF]. apply Z.div_pos; [|unfold PageSize; lia].
  unfold file_size. lia.
Qed.

Lemma new_tmp_page_run X Y e b f k es t :
  building X Y e b f k es → frames_for 1 n (rpins X) → rnext Y < 2 ^ 19 → plain t →
  offsetFreeSpace + 4 ≤ PageSize - (4 + size t) →
  ∃ Y' e' b', new_tmp_page b t e = Ok (b', e') ∧ building X Y' e' b' (Some (PageSize - (4 + size t))) (S k) (es ++ [(b_tmp b', t)]).
Proof.
  intros HB HF HNx Ht Hfit.
  assert (HU : ∃ Y1 e1, (if b_page_id b =? InvalidPageID then mret true else with_store (UnpinPage (b_page_id b) true)) e = Ok (true, e1) ∧
    building X Y1 e1 (MkBuilding None InvalidPageID (b_tmp b)) None k es).
  { destruct (b_page b) as [p|] eqn:Hb.
    - destruct f as [f|]; [|destruct HB as [_ _ HL _ _]; unfold last_page in HL; by rewrite Hb in HL].
      pose proof HB as [_ _ HL _ _]. unfold last_page in HL. rewrite Hb in HL. destruct HL as ([HL _] & _).
      rewrite (proj2 (Z.eqb_neq _ _)) by (unfold InvalidPageID; lia). by apply (give_back X Y e b f k es p).
    - destruct f as [f|]; [destruct HB as [_ _ HL _ _]; unfold last_page in HL; by rewrite Hb in HL|].
      pose proof HB as [_ _ HL _ _]. unfold last_page in HL. rewrite Hb in HL. destruct HL as (Hid & _).
      rewrite Hid, Z.eqb_refl. exists Y, e. split; [done|]. apply (building_tmp _ _ _ _ _ _ _ (b_tmp b)) in HB. by rewrite Hb, Hid in HB. }
  destruct HU as (Y1 & e1 & E1 & HB1).
  assert (HN1 : rnext Y1 = rnext Y) by (rewrite (bd_next _ _ _ _ _ _ _ HB1), (bd_next _ _ _ _ _ _ _ HB); done).
  pose proof (bd_rests _ _ _ _ _ _ _ HB1) as (S1 & _ & HNd). pose proof (next_nonneg _ _ S1) as H0'.
  destruct (start_page X Y1 e1 k es (b_tmp b) HB1 HF) as (p & Y2 & e2 & e3 & E2 & E2' & E3 & HB3); [split; lia|].
  destruct (store_fits X Y2 e3 _ PageSize (S k) es p t (b_tmp b) HB3 eq_refl Ht Hfit) as (Y4 & e4 & E4 & HB4).
  exists Y4, e4, (MkBuilding (Some p) (rnext Y1) (MkTmpTuple (rnext Y1) (PageSize - (4 + size t)))). split; [|exact HB4].
  unfold new_tmp_page. estep E1. estep E2. estep (st_lift_run (deref (Some p)) p e2 eq_refl). estep E2'. cbn [id NewEmpty].
  estep E3. by estep E4.
Qed.

Lemma store_tmp_run X Y e b f f' k es t pids :
  building X Y e b f k es → frames_for 1 n (rpins X) → rnext Y < 2 ^ 19 → plain t → tmp_place f t = Some f' →
  ∃ Y' e' b' pids' k', store_tmp b t pids e = Ok ((b', pids'), e') ∧
    building X Y' e' b' (Some f') k' (es ++ [(b_tmp b', t)]) ∧ (k' ≤ S k)%nat.
Proof.
  intros HB HF HNx Ht HPl.
  assert (HNew : ∀ Y1 e1, building X Y1 e1 b f k es → offsetFreeSpace + 4 ≤ PageSize - (4 + size t) → f' = PageSize - (4 + size t) →
    ∃ Y' e' b' pids' k', (b' ← new_tmp_page b t; mret (b', pids ++ [b_page_id b'])) e1 = Ok ((b', pids'), e') ∧
      building X Y' e' b' (Some f') k' (es ++ [(b_tmp b', t)]) ∧ (k' ≤ S k)%nat).
  { intros Y1 e1 HB1 Hfit ->. assert (HN1 : rnext Y1 = rnext Y) by (rewrite (bd_next _ _ _ _ _ _ _ HB1), (bd_next _ _ _ _ _ _ _ HB); done).
    destruct (new_tmp_page_run X Y1 e1 b f k es t HB1 HF ltac:(lia) Ht Hfit) as (Y2 & e2 & b' & E2 & HB2).
    exists Y2, e2, b', (pids ++ [b_page_id b']), (S k). split; [by estep E2|done]. }
  unfold tmp_place in HPl. destruct (b_page b) as [p|] eqn:Hb.
  - destruct f as [f|]; [|destruct HB as [_ _ HL _ _]; unfold last_page in HL; by rewrite Hb in HL].
    destruct (Z.leb_spec (offsetFreeSpace + 4) (f - (4 + size t))) as [Hfit|Hfull].
    + injection HPl as <-. destruct (store_fits X Y e b f k es p t (b_tmp b) HB Hb Ht Hfit) as (Y' & e' & E & HB').
      exists Y', e', (MkBuilding (Some p) (b_page_id b) (MkTmpTuple (b_page_id b) (f - (4 + size t)))), pids, k.
      split; [|split; [exact HB'|lia]]. unfold store_tmp. rewrite Hb. by estep E.
    + destruct (Z.leb_spec (4 + size t) f); [|done]. destruct (Z.leb_spec (offsetFreeSpace + 4) (PageSize - (4 + size t))); [|done].
      injection HPl as <-. destruct (store_refused X Y e b f k es p t (b_tmp b) HB Hb Ht ltac:(lia)) as (Y1 & e1 & E1 & HB1).
      destruct (HNew Y1 e1 HB1) as (Y' & e' & b' & pids' & k' & E' & HB'); [done|done|].
      exists Y', e', b', pids', k'. split; [|done]. unfold store_tmp. rewrite Hb. by estep E1.
  - destruct f as [f|]; [destruct HB as [_ _ HL _ _]; unfold last_page in HL; by rewrite Hb in HL|].
    destruct (Z.leb_spec (offsetFreeSpace + 4) (PageSize - (4 + size t))); [|done]. injection HPl as <-.
    destruct (HNew Y e HB) as (Y' & e' & b' & pids' & k' & E' & HB'); [done|done|].
    exists Y', e', b', pids', k'. split; [|done]. unfold store_tmp. rewrite Hb. exact E'.
Qed.

(** *** The left side *)

(** The hash of the key, none for a NULL. *)
Definition key_of (expr : option Expression) (s : option Schema) (t : Tuple) : res (option Z) :=
  expr ← deref expr;
  v ← Evaluate expr (Some t) (schema_of s);
  if IsNull v then Ok None else h ← HashValue murmur3 v; Ok (Some h).

Lemma note_left_run expr s t tmp m k : key_of expr s t = Ok k →
  note_left murmur3 expr s t tmp m = Ok (match k with Some h => jht_Insert h tmp m | None => m end).
Proof.
  unfold key_of, note_left. destruct expr as [expr|]; [|done]. mred. destruct (Evaluate _ _ _) as [v| | |]; try done. mred.
  destruct (IsNull v); [by intros [= <-]|]. destruct (HashValue murmur3 v) as [h| | |]; try done. mred. by intros [= <-].
Qed.

(** The table of the tuples stored. *)
Definition noted (key : Tuple → option Z) (es : list (TmpTuple * Tuple)) (m : gmap Z (list TmpTuple)) : gmap Z (list TmpTuple) :=
  foldl (λ m x, match key (snd x) with Some h => jht_Insert h (fst x) m | None => m end) m es.
Definition bucket (key : Tuple → option Z) (h : Z) (es : list (TmpTuple * Tuple)) : list (TmpTuple * Tuple) :=
  filter (λ x, key (snd x) = Some h) es.

Lemma noted_bucket key h es : ∀ m, jht_GetValue h (noted key es m) = jht_GetValue h m ++ (bucket key h es).*1.
Proof.
  unfold bucket. induction es as [|x es IH]; intros m; [by rewrite app_nil_r|]. 
  change (noted key (x :: es) m) with (noted key es (match key (snd x) with Some h => jht_Insert h (fst x) m | None => m end)).
  destruct (key (snd x)) as [h'|] eqn:Ek.
  - rewrite IH. unfold jht_GetValue, jht_Insert. destruct (decide (h' = h)) as [->|Hne].
    + rewrite lookup_insert_eq, filter_cons_True by done. cbn. by rewrite <- app_assoc.
    + rewrite lookup_insert_ne by done. by rewrite filter_cons_False by congruence.
  - rewrite IH. by rewrite filter_cons_False by congruence.
Qed.

Lemma build_join_run X d depth expr key ts : ∀ turns lx b f k es m pids Y e,
  streams murmur3 e0 n fuel X d depth lx (Some <$> ts) → building X Y e b f k es → frames_for 3 n (rpins X) →
  fits f ts = true → Forall plain ts → rnext X + Z.of_nat (k + length ts) < 2 ^ 19 → (length ts < turns)%nat →
  Forall (λ t, key_of expr (GetOutputSchema lx) t = Ok (key t)) ts →
  ∃ lx' Y' e' b' f' k' es' pids',
    build_join murmur3 turns (Next murmur3 depth fuel) expr lx b m pids e = Ok ((lx', noted key es' m, pids'), e') ∧
    building X Y' e' b' f' k' (es ++ es') ∧ es'.*2 = ts ∧ (k' ≤ k + length ts)%nat ∧ GetOutputSchema lx' = GetOutputSchema lx.
Proof.
  induction ts as [|t ts IH]; intros turns lx b f k es m pids Y e HS HB HF Hfit HPl HNx Ht HK; (destruct turns as [|turns]; [cbn in Ht; lia|]);
    (assert (HF2 : frames_for 2 n (rpins Y)) by (eapply grows_frames; [by eapply building_grows|exact HF]));
    pose proof (building_extends _ _ _ _ _ _ _ HB) as HX; pose proof (bd_rests _ _ _ _ _ _ _ HB) as Q.
  - destruct (HS Y e HX HF2 Q) as (x' & dn & er & e' & E & HL & HG & _).
    exists x', Y, e', b, f, k, [], pids. split; [|split; [rewrite app_nil_r; by eapply building_leads|split; [done|split; [cbn; lia|done]]]].
    cbn [build_join]. estep E. cbn [res_done res_tuple]. by destruct dn.
  - destruct (HS Y e HX HF2 Q) as (x' & e1 & E & HL & HG & HS'). apply Forall_cons in HPl as [Hpt HPl]. apply Forall_cons in HK as [Hk HK].
    cbn [fits] in Hfit. destruct (tmp_place f t) as [f1|] eqn:Hpl; [|done]. cbn [length] in *.
    pose proof (building_leads _ _ _ _ _ _ _ _ HB HL) as HB1.
    assert (HF1 : frames_for 1 n (rpins X)) by (destruct HF as [HF HC]; split; [lia|done]).
    destruct (store_tmp_run X Y e1 b f f1 k es t pids HB1 HF1) as (Y2 & e2 & b2 & pids2 & k2 & E2 & HB2 & Hk2); [rewrite (bd_next _ _ _ _ _ _ _ HB1); lia|done|done|].
    rewrite <- HG in Hk. pose proof (note_left_run expr _ t (b_tmp b2) m _ Hk) as En.
    destruct (IH turns x' b2 (Some f1) k2 (es ++ [(b_tmp b2, t)]) (match key t with Some h => jht_Insert h (b_tmp b2) m | None => m end) pids2 Y2 e2
      HS' HB2 HF Hfit HPl) as (lx' & Y' & e' & b' & f' & k' & es' & pids' & E' & HB' & Hes & Hk' & HG'); [lia|lia|by rewrite HG|].
    exists lx', Y', e', b', f', k', ((b_tmp b2, t) :: es'), pids'. rewrite <- app_assoc in HB'. split; [|split; [exact HB'|split; [cbn; by f_equal|split; [lia|congruence]]]].
    cbn [build_join]. estep E. cbn [res_done res_tuple got]. estep E2. estep (st_lift_run _ _ e2 En). exact E'.
Qed.

(** *** The right side *)
Section probing.
Variables (W : Rest) (dr : nat) (lx : Executor) (out : Schema) (pr : Expression) (ls rs : option Schema) (exprs : list Expression).
Variables (es : list (TmpTuple * Tuple)) (key : Tuple → option Z) (rexpr : option Expression) (rk : Tuple → option Z).
Hypothesis Hls : GetOutputSchema lx = ls.
Hypothesis Hes : Forall (λ x, holds_tuple W (fst x) (snd x)) es.
Hypothesis Hlen : Z.of_nat (length es) < 2 ^ 31 - 1.

(** The rows of some left tuples with a right one. *)
Definition pair_up (ts : list Tuple) (u : Tuple) : res (list Tuple) :=
  sel ← select_rows (λ t, valid_pair pr ls rs t u) ts; mapM (λ t, joined out exprs ls rs t u) sel.
(** The left tuples a right one is tried against, and the rows that come out. *)
Definition candidates (u : Tuple) : list (TmpTuple * Tuple) := match rk u with Some h => bucket key h es | None => [] end.
Fixpoint probe_rows (us : list Tuple) : res (list Tuple) :=
  match us with
  | [] => Ok []
  | u :: us' => a ← pair_up (candidates u).*2 u; b ← probe_rows us'; Ok (a ++ b)
  end.

Lemma candidates_held u : Forall (λ x, holds_tuple W (fst x) (snd x)) (candidates u) ∧ (length (candidates u) ≤ length es)%nat.
Proof.
  unfold candidates, bucket. destruct (rk u) as [h0|]; [|split; [constructor|cbn; lia]]. split; [|apply length_filter].
  rewrite Forall_forall in Hes |- *. intros x Hx%list_elem_of_filter. apply Hes, Hx.
Qed.

(** [cur] are the left tuples still to try with the right tuple [u]. *)
Definition trying (j : JoinState) (u : Tuple) (cur : list (TmpTuple * Tuple)) : Prop :=
  ∃ passed, j = MkJoin (noted key es ∅) (passed ++ cur.*1) (Z.of_nat (length passed)) exprs (tmp_page_ids j) u (left_expr j) rexpr ∧
    Z.of_nat (length passed + length cur) < 2 ^ 31 - 1 ∧ Forall (λ x, holds_tuple W (fst x) (snd x)) cur.

Section at_rest.
Variable (Y : Rest).
Hypothesis HXY : extends W Y.
Hypothesis HF : frames_for 2 n (rpins Y).

Lemma find_pair_run u cur : ∀ k e sel, rests Y e → Forall (λ x, holds_tuple W (fst x) (snd x)) cur →
  select_rows (λ t, valid_pair pr ls rs t u) cur.*2 = Ok sel →
  ∃ e', leads Y e e' ∧
    match sel with
    | [] => find_pair pr ls rs u cur.*1 k e = Ok ((k + Z.of_nat (length cur), None), e')
    | t :: sel' => ∃ a x c, cur = a ++ x :: c ∧ snd x = t ∧ select_rows (λ t, valid_pair pr ls rs t u) c.*2 = Ok sel' ∧
        find_pair pr ls rs u cur.*1 k e = Ok ((k + Z.of_nat (length a), Some t), e')
    end.
Proof.
  induction cur as [|[tmp t] cur IH]; intros k e sel Q HH.
  - intros [= <-]. exists e. split; [by apply leads_refl|]. cbn. by rewrite Z.add_0_r.
  - apply Forall_cons in HH as [(d & Hd & Ht) HH]. cbn [fmap list_fmap fst snd select_rows].
    destruct (valid_pair pr ls rs t u) as [b| | |] eqn:Ev; try done. mred.
    destruct (select_rows _ cur.*2) as [sel1| | |] eqn:Es; try done. mred.
    destruct (fetch_tmp_run Y e tmp t Q) as (e1 & E1 & L1).
    { destruct HF as [HF1 HF2]. split; [lia|done]. }
    { exists d. split; [|done]. by eapply lookup_weaken; [|apply HXY]. }
    destruct b.
    + intros [= <-]. exists e1. split; [done|]. exists [], (tmp, t), cur. split; [done|]. split; [done|]. split; [done|].
      cbn [find_pair]. estep E1. estep (st_lift_run _ _ e1 Ev). cbn. by rewrite Z.add_0_r.
    + intros [= <-]. destruct (IH (k + 1) e1 sel1 (proj1 L1) HH eq_refl) as (e2 & L2 & HM).
      exists e2. split; [by eapply leads_trans|]. destruct sel1 as [|t1 sel'].
      * cbn [find_pair]. estep E1. estep (st_lift_run _ _ e1 Ev). rewrite HM. cbn [length]. do 3 f_equal. lia.
      * destruct HM as (a & x & c & -> & Hx & Hc & E2). exists ((tmp, t) :: a), x, c. split; [done|]. split; [done|]. split; [done|].
        cbn [find_pair]. estep E1. estep (st_lift_run _ _ e1 Ev). rewrite E2. cbn [length]. do 3 f_equal. lia.
Qed.

(** The left tuples of a right one: the next row, or none is left. *)
Lemma try_run next rx j u cur o1 e :
  trying j u cur → rests Y e → GetOutputSchema rx = rs → pair_up cur.*2 u = Ok o1 →
  ∃ j' e', leads Y e e' ∧
    match o1 with
    | [] => trying j' u [] ∧ ∀ turns, ∃ turns', (turns ≤ turns')%nat ∧
        join_next murmur3 (S turns) next out pr lx rx j e = join_next murmur3 turns' next out pr lx rx j' e'
    | o :: o1' => ∃ cur', trying j' u cur' ∧ pair_up cur'.*2 u = Ok o1' ∧
        ∀ turns, join_next murmur3 (S turns) next out pr lx rx j e = Ok ((rx, j', got o), e')
    end.
Proof.
  intros (passed & Ej & Hl & HH) Q Hrs HP. unfold pair_up in HP. apply res_bind_Ok in HP as (sel & Es & HP).
  destruct cur as [|x0 cur0].
  { injection Es as <-. injection HP as <-. exists j, e. split; [by apply leads_refl|]. split; [by exists passed|].
    intros turns. exists (S turns). split; [lia|done]. }
  set (cur := x0 :: cur0) in *.
  assert (Hne : (index_ j =? Z.of_nat (length (tmp_tuples j))) = false).
  { rewrite Ej. cbn [index_ tmp_tuples]. rewrite length_app, length_fmap. apply Z.eqb_neq. cbn. lia. }
  assert (Hdrop : drop (Z.to_nat (index_ j)) (tmp_tuples j) = cur.*1).
  { rewrite Ej. cbn [index_ tmp_tuples]. by rewrite Nat2Z.id, drop_app_length. }
  destruct (find_pair_run u cur (index_ j) e sel Q HH Es) as (e' & L & HM). rewrite <- Hdrop in HM.
  assert (Hu : right_tuple j = u) by (by rewrite Ej). assert (Hx : output_exprs_ j = exprs) by (by rewrite Ej).
  assert (Hi : index_ j = Z.of_nat (length passed)) by (by rewrite Ej).
  destruct sel as [|t sel].
  - injection HP as <-. eexists _, e'. split; [done|]. split; cycle 1.
    + intros turns. exists turns. split; [lia|]. cbn [join_next]. rewrite Hne, Hu, Hls, Hrs. estep HM. reflexivity.
    + exists (passed ++ cur.*1). rewrite Ej. cbn [tmp_page_ids left_expr tmp_tuples index_ jht output_exprs_ right_tuple right_expr].
      split; [|split; [rewrite length_app, length_fmap; cbn [length]; lia|constructor]]. rewrite app_nil_r. f_equal.
      rewrite length_app, length_fmap. rewrite i32_small by (unfold in_i32; lia). lia.
  - destruct HM as (a & x & c & Ec & Ht & Hc & HM). cbn [mapM] in HP. apply res_bind_Ok in HP as (o & Ho & HP). apply res_bind_Ok in HP as (o1' & Ho1 & [= <-]).
    assert (Hlc : length cur = (length a + S (length c))%nat) by (rewrite Ec, length_app; done).
    eexists _, e'. split; [done|]. exists c. split; [|split; [unfold pair_up; by rewrite Hc|]]; cycle 1.
    + intros turns. cbn [join_next]. rewrite Hne, Hu, Hls, Hrs. estep HM. rewrite Hx. estep (st_lift_run _ _ e' Ho). reflexivity.
    + exists (passed ++ a.*1 ++ [fst x]). rewrite Ej. cbn [tmp_page_ids left_expr tmp_tuples index_ jht output_exprs_ right_tuple right_expr].
      split; [|split; [rewrite !length_app, length_fmap; cbn [length]; lia|rewrite Ec in HH; apply Forall_app in HH as [_ HH]; by apply Forall_cons in HH as [_ HH]]].
      f_equal.
      * rewrite Ec, fmap_app, <- !app_assoc. done.
      * rewrite !length_app, length_fmap. cbn [length]. rewrite i32_small by (unfold in_i32; lia). lia.
Qed.
End at_rest.

Section streaming.
Variable (Y : Rest).
Hypothesis HXY : extends W Y.
Hypothesis HF : frames_for 2 n (rpins Y).

(** The rows that come out from here on. *)
Definition rows_from (cur : list (TmpTuple * Tuple)) (u : Tuple) (us : list Tuple) : res (list Tuple) :=
  a ← pair_up cur.*2 u; b ← probe_rows us; Ok (a ++ b).

Definition keyed_right (rx : Executor) (us : list Tuple) : Prop :=
  GetOutputSchema rx = rs ∧ Forall (λ u, key_of rexpr rs u = Ok (rk u)) us.

(** What a turn answers. *)
Definition answers (rx : Executor) (us : list Tuple) e (r : res (Executor * JoinState * Result * Engine R)) (rows : list Tuple) : Prop :=
  ∃ rx' j' x e', r = Ok ((rx', j', x), e') ∧ leads Y e e' ∧
    match rows with
    | [] => x = failed false
    | o :: rows' => x = got o ∧ ∃ us' u' cur', streams murmur3 e0 n fuel W true dr rx' (Some <$> us') ∧ keyed_right rx' us' ∧
        trying j' u' cur' ∧ rows_from cur' u' us' = Ok rows' ∧ (length us' ≤ length us)%nat
    end.

Lemma next_right us : ∀ turns rx j u e rows,
  streams murmur3 e0 n fuel W true dr rx (Some <$> us) → keyed_right rx us → trying j u [] → rests Y e →
  probe_rows us = Ok rows → (2 * length us < turns)%nat →
  answers rx us e (join_next murmur3 turns (Next murmur3 dr fuel) out pr lx rx j e) rows.
Proof.
  induction us as [|u1 us IH]; intros turns rx j u e rows HS [Hrs HK] (passed & Ej & Hl & _) Q HP Ht; (destruct turns as [|turns]; [lia|]);
    (assert (Hend : (index_ j =? Z.of_nat (length (tmp_tuples j))) = true) by (rewrite Ej; cbn [index_ tmp_tuples]; rewrite app_nil_r; apply Z.eqb_refl)).
  - injection HP as <-. destruct (HS Y e HXY HF Q) as (x' & dn & er & e' & E & HL & _ & _ & HD). specialize (HD eq_refl) as ->.
    do 4 eexists. split; [|by split]. cbn [join_next]. rewrite Hend. estep E. reflexivity.
  - destruct (HS Y e HXY HF Q) as (x' & e1 & E & HL & HG & HS'). apply Forall_cons in HK as [Hk HK].
    cbn [probe_rows] in HP. apply res_bind_Ok in HP as (a & Ha & HP). apply res_bind_Ok in HP as (b & Hb & [= <-]).
    set (j1 := MkJoin (noted key es ∅) (candidates u1).*1 0 exprs (tmp_page_ids j) u1 (left_expr j) rexpr).
    assert (Et : take_right murmur3 (GetOutputSchema x') u1 (MkJoin (jht j) [] 0 (output_exprs_ j) (tmp_page_ids j) (right_tuple j) (left_expr j) (right_expr j)) = Ok j1).
    { rewrite Ej. unfold take_right, j1, candidates. cbn [right_expr jht output_exprs_ tmp_page_ids left_expr]. rewrite HG, Hrs.
      unfold key_of in Hk. apply res_bind_Ok in Hk as (ex & -> & Hk). mred. apply res_bind_Ok in Hk as (v & -> & Hk). mred.
      destruct (IsNull v); [by injection Hk as <-|]. apply res_bind_Ok in Hk as (h & -> & [= <-]). mred.
      rewrite noted_bucket. done. }
    destruct (candidates_held u1) as [Hch Hcl].
    assert (HT1 : trying j1 u1 (candidates u1)) by (exists []; split; [done|]; split; [cbn [length]; lia|done]).
    destruct turns as [|turns]; [cbn in Ht; lia|].
    destruct (try_run Y HXY HF (Next murmur3 dr fuel) x' j1 u1 (candidates u1) a e1 HT1 (proj1 HL) ltac:(congruence) Ha) as (j2 & e2 & L2 & HM).
    assert (EJ : join_next murmur3 (S (S turns)) (Next murmur3 dr fuel) out pr lx rx j e =
                 join_next murmur3 (S turns) (Next murmur3 dr fuel) out pr lx x' j1 e1).
    { cbn [join_next]. rewrite Hend. estep E. cbn [res_done res_tuple].
      estep (st_lift_run (deref (Some u1)) u1 e1 eq_refl). by estep (st_lift_run _ _ e1 Et). }
    rewrite EJ. destruct a as [|o a].
    + destruct HM as [HT2 HM]. destruct (HM turns) as (turns' & Hle & ->).
      destruct (IH turns' x' j2 u1 e2 b HS') as (rx' & j' & x & e' & E' & L' & HA); try done;
        [by split; [congruence|]|apply L2|cbn in Ht; lia|].
      exists rx', j', x, e'. split; [done|]. split; [eapply leads_trans; [exact HL|]; by eapply leads_trans|].
      cbn [app]. destruct b as [|o b]; [done|]. destruct HA as (-> & us' & u' & cur' & H1' & H2' & H3' & H4' & H5').
      split; [done|]. exists us', u', cur'. cbn [length]. repeat (split; [done|]). lia.
    + destruct HM as (cur' & HT2 & HP2 & HM). rewrite HM. exists x', j2, (got o), e2. split; [done|].
      split; [by eapply leads_trans|]. cbn [app]. split; [done|]. exists us, u1, cur'. split; [done|].
      split; [by split; [congruence|]|]. split; [done|]. split; [unfold rows_from; by rewrite HP2, Hb|cbn; lia].
Qed.

Lemma join_next_run us turns rx j u cur e rows :
  streams murmur3 e0 n fuel W true dr rx (Some <$> us) → keyed_right rx us → trying j u cur → rests Y e →
  rows_from cur u us = Ok rows → (2 * length us + 1 < turns)%nat →
  answers rx us e (join_next murmur3 turns (Next murmur3 dr fuel) out pr lx rx j e) rows.
Proof.
  intros HS HK HT Q HP Ht. unfold rows_from in HP. apply res_bind_Ok in HP as (a & Ha & HP). apply res_bind_Ok in HP as (b & Hb & [= <-]).
  destruct turns as [|turns]; [lia|].
  destruct (try_run Y HXY HF (Next murmur3 dr fuel) rx j u cur a e HT Q (proj1 HK) Ha) as (j2 & e2 & L2 & HM).
  destruct a as [|o a].
  - destruct HM as [HT2 HM]. destruct (HM turns) as (turns' & Hle & ->).
    destruct (next_right us turns' rx j2 u e2 b HS HK HT2 (proj1 L2) Hb ltac:(lia)) as (rx' & j' & x & e' & E' & L' & HA).
    exists rx', j', x, e'. split; [done|]. split; [by eapply leads_trans|done].
  - destruct HM as (cur' & HT2 & HP2 & HM). rewrite HM. exists rx, j2, (got o), e2. split; [done|].
    split; [done|]. cbn [app]. split; [done|]. exists us, u, cur'. split; [done|]. split; [done|]. split; [done|].
    split; [unfold rows_from; by rewrite HP2, Hb|lia].
Qed.
End streaming.

Lemma join_streams sl sr rows : ∀ rx j u cur us,
  streams murmur3 e0 n fuel W true dr rx (Some <$> us) → keyed_right rx us → trying j u cur → rows_from cur u us = Ok rows →
  (2 * length us + 1 < fuel)%nat →
  streams murmur3 e0 n fuel W false (S dr) (HashJoinExecutor out sl sr pr lx rx j) (Some <$> rows).
Proof.
  induction rows as [|o rows IH]; intros rx j u cur us HS HK HT HP Ht; cbn [fmap list_fmap streams]; intros Y e HXY HF Q;
    destruct (join_next_run Y HXY HF us fuel rx j u cur e _ HS HK HT Q HP Ht) as (rx' & j' & x & e' & E & HL & HA).
  - subst x. exists (HashJoinExecutor out sl sr pr lx rx' j'), false, true, e'. split; [|by split].
    cbn [Next]. by estep E.
  - destruct HA as (-> & us' & u' & cur' & HS' & HK' & HT' & HP' & Hle).
    exists (HashJoinExecutor out sl sr pr lx rx' j'), e'. split; [cbn [Next]; by estep E|]. split; [done|]. split; [done|].
    apply (IH _ _ u' cur' us'); (done || lia).
Qed.

(** *** The nested loop *)
Variables (ts : list Tuple).
Hypothesis Hts : es.*2 = ts.

(** Two tuples match when neither key is NULL and the predicate is true of them. *)
Definition matches (t u : Tuple) : res bool :=
  match key t, rk u with Some _, Some _ => valid_pair pr ls rs t u | _, _ => Ok false end.
Fixpoint nested_loop (us : list Tuple) : res (list Tuple) :=
  match us with
  | [] => Ok []
  | u :: us' =>
      sel ← select_rows (λ t, matches t u) ts;
      a ← mapM (λ t, joined out exprs ls rs t u) sel;
      b ← nested_loop us'; Ok (a ++ b)
  end.

Lemma select_candidates u sel :
  (∀ t, t ∈ ts → matches t u = Ok true → key t = rk u) → select_rows (λ t, matches t u) ts = Ok sel →
  select_rows (λ t, valid_pair pr ls rs t u) (candidates u).*2 = Ok sel.
Proof.
  rewrite <- Hts. unfold candidates, matches, bucket. clear. intros HC. destruct (rk u) as [h|] eqn:Eu.
  - revert sel. induction es as [|x es0 IH]; intros sel; [done|]. cbn [fmap list_fmap select_rows].
    assert (HC' : ∀ t, t ∈ es0.*2 → (match key t with Some _ => valid_pair pr ls rs t u | None => Ok false end) = Ok true → key t = Some h)
      by (intros t Ht; apply HC; by right).
    intros HSel. apply res_bind_Ok in HSel as (b & Hb & HSel). apply res_bind_Ok in HSel as (rest & Hrest & HSel).
    specialize (IH HC' rest Hrest). destruct (decide (key (snd x) = Some h)) as [Hk|Hk].
    + rewrite filter_cons_True by done. cbn [fmap list_fmap select_rows]. rewrite Hk in Hb. by rewrite Hb, IH.
    + rewrite filter_cons_False by done. rewrite IH, <- HSel. f_equal. destruct b; [|done].
      exfalso. apply Hk, HC; [by left|exact Hb].
  - intros HSel. rewrite <- HSel. symmetry. clear. induction es as [|x es0 IH]; [done|]. cbn [fmap list_fmap select_rows].
    rewrite IH. by destruct (key (snd x)).
Qed.

Lemma nested_probe us rows : (∀ t u, t ∈ ts → u ∈ us → matches t u = Ok true → key t = rk u) →
  nested_loop us = Ok rows → probe_rows us = Ok rows.
Proof.
  revert rows. induction us as [|u us IH]; intros rows HC; cbn [nested_loop probe_rows]; [done|]. intros HN.
  apply res_bind_Ok in HN as (sel & Hsel & HN). apply res_bind_Ok in HN as (a & Ha & HN). apply res_bind_Ok in HN as (b & Hb & <-).
  unfold pair_up. rewrite (select_candidates u sel) by (done || (intros t Ht; apply HC; [done|by left])). mred. rewrite Ha. mred.
  rewrite (IH b) by (done || (intros t u' Ht Hu; apply HC; [done|by right])). done.
Qed.
End probing.

(** What the two sides have to be. *)
Record joinable (out : Schema) (pr : Expression) (sl sr ls rs : option Schema) (exprs : list Expression)
    (le re : option Expression) (key rk : Tuple → option Z) (ts us : list Tuple) : Prop := {
  jo_exprs : join_exprs out (schema_of sl) (schema_of sr) = Ok exprs;
  jo_left : GetChildAt pr 0 = Ok le;
  jo_right : GetChildAt pr 1 = Ok re;
  jo_plain : Forall plain ts;
  jo_fits : fits None ts = true;
  jo_keys : Forall (λ t, key_of le ls t = Ok (key t)) ts ∧ Forall (λ u, key_of re rs u = Ok (rk u)) us;
  (** equal keys have equal hashes *)
  jo_hashes : ∀ t u, t ∈ ts → u ∈ us → matches pr ls rs key rk t u = Ok true → key t = rk u;
  jo_fuel : (length ts < fuel)%nat ∧ (2 * length us + 1 < fuel)%nat
}.

Lemma join_opens X jl ml dl jr mr depth lx rx sl sr out pr exprs le re key rk ts us rows :
  opens murmur3 e0 n fuel X jl ml dl depth lx (Some <$> ts) → opens murmur3 e0 n fuel X jr mr true depth rx (Some <$> us) →
  joinable out pr sl sr (GetOutputSchema lx) (GetOutputSchema rx) exprs le re key rk ts us →
  nested_loop out pr (GetOutputSchema lx) (GetOutputSchema rx) exprs key rk ts us = Ok rows →
  opens murmur3 e0 n fuel X (S (jl + jr)) (ml + mr + length ts) false (S depth)
    (HashJoinExecutor out sl sr pr lx rx fresh_join) (Some <$> rows).
Proof.
  intros HOl HOr [Hex Hle Hre Hpl Hfit [Hkl Hkr] Hhash [Hfl Hfr]] HN Y e HXY HF HNx Q. specialize (HNx ltac:(lia)).
  destruct (HOl Y e HXY) as (lx1 & Z1 & e1 & E1 & Q1 & HG1 & HS1 & Hs1); [destruct HF; split; [lia|done]|lia|done|].
  assert (HX1 : extends X Z1) by (eapply extends_trans; [exact HXY|apply HG1]).
  destruct (HOr Z1 e1 HX1) as (rx1 & Z2 & e2 & E2 & Q2 & HG2 & HS2 & Hs2);
    [eapply (grows_frames jl ml); [exact HG1|]; destruct HF; split; [lia|done]|pose proof (gr_next _ _ _ _ HG1); lia|done|].
  pose proof (grows_trans _ _ _ _ _ _ _ HG1 HG2) as HG12.
  assert (HF3 : frames_for 3 n (rpins Z2)) by (eapply grows_frames; [exact HG12|]; destruct HF; split; [lia|done]).
  pose proof (gr_next _ _ _ _ HG12) as Hn12.
  destruct (build_join_run Z2 dl depth le key ts fuel lx1 building_0 None 0 [] ∅ [] Z2 e2) as
    (lx2 & W & e3 & b' & f' & k' & es & pids & E3 & HB & Hes & Hk' & Hs3); try done.
  { eapply streams_extend; [apply HG2|exact HS1]. }
  { by apply building_start. }
  { rewrite Nat.add_0_l. lia. }
  { by rewrite Hs1. }
  cbn [app] in HB. pose proof (building_grows _ _ _ _ _ _ _ HB) as HG3.
  assert (HHeld : Forall (λ x, holds_tuple W (fst x) (snd x)) es) by (eapply Forall_impl; [apply (bd_entries _ _ _ _ _ _ _ HB)|]; by intros x [? _]).
  assert (Hlen : Z.of_nat (length es) < 2 ^ 31 - 1).
  { rewrite <- (length_fmap snd es), Hes. pose proof (next_nonneg _ _ (proj1 Q)) as H0'. destruct Q as (_ & _ & HNd). lia. }
  set (j := MkJoin (noted key es ∅) [] 0 exprs pids ZeroTuple le re).
  exists (HashJoinExecutor out sl sr pr lx2 rx1 j), W, e3. split; [|split; [apply (bd_rests _ _ _ _ _ _ _ HB)|split; [|split; [|done]]]].
  - cbn [Init]. estep (st_lift_run _ _ e Hex). estep E1. estep E2. estep (st_lift_run _ _ e2 Hle). estep (st_lift_run _ _ e2 Hre).
    cbn [jht tmp_page_ids fresh_join]. estep E3. reflexivity.
  - pose proof (grows_trans _ _ _ _ _ _ _ HG12 HG3) as HG.
    destruct HG as [G1 G2 G3 G4 G5 G6]. split; [done|done|lia|done|lia|lia].
  - eapply (join_streams W depth lx2 out pr (GetOutputSchema lx) (GetOutputSchema rx) exprs es key re rk) with (u := ZeroTuple) (cur := []); try done.
    + congruence.
    + eapply streams_extend; [apply HG3|exact HS2].
    + exists []. split; [done|]. split; [cbn; lia|constructor].
    + unfold rows_from. cbn. by rewrite (nested_probe out pr (GetOutputSchema lx) (GetOutputSchema rx) exprs es key rk ts Hes us rows Hhash HN).
Qed.
End joins.
