(* ===== verification/IndexScan.v ===== *)
(** * Scans by index ([execution/executors/hash_scan_index_executor.go])

    A lookup in the hash index of a column against the sequential scan with the same
    equality: when the index has an entry for every row and no key shares its hash
    with another, they return the same tuples. *)

From S2P Require Import Prelude Bytes Types Tuples Disk LogRecord LogManager Replacer ClockReplacer Page BufferPool LockManager PoolView TablePage Engine TableHeap TableScan HashPage Probe HashTable HashIndex Expressions Plans Catalog TmpTuples Executors Rows Operators.

(** ** Scans of rows *)
Lemma scan_of_rows cols c rows : holds_rows cols c rows →
  ∃ ts, scan (heap_entries c) = ts ∧ Forall2 (λ t x, holds_row t (NewSchema cols) (snd x)) ts rows.
Proof.
  unfold holds_rows. intros HH. eexists. split; [done|]. induction HH as [|[r [b bs]] [r' row] l rows (Hr & Hok & bs' & Hb & HB) _ IH]; [constructor|].
  cbn in Hr, Hok, Hb, HB. injection Hb as -> ->. cbn [scan]. constructor; [|done]. by apply bytes_holds.
Qed.

Lemma scan_rows_run tm cols out pr c rows hit outs :
  schema tm = NewSchema cols → holds_rows cols c rows → filter_rows pr rows = Ok hit →
  mapM (project_row out (schema tm)) hit.*2 = Ok outs →
  scan_rows out pr tm (scan (heap_entries c)) = Ok outs.
Proof.
  intros HS HH HFi HP. destruct (scan_of_rows cols c rows HH) as (ts & -> & HT). unfold scan_rows. clear HH.
  revert hit outs HFi HP. induction HT as [|t x ts rows Hx _ IH]; intros hit outs; cbn [filter_rows select_rows].
  - intros [= <-] [= <-]. done.
  - rewrite (selects_row tm cols pr t (snd x)) by done. intros HFi HP.
    apply res_bind_Ok in HFi as (b & -> & HFi). apply res_bind_Ok in HFi as (rest & Hr & [= <-]). mred.
    destruct b.
    + cbn in HP. apply res_bind_Ok in HP as (o & Ho & HP). apply res_bind_Ok in HP as (os & Hos & [= <-]).
      specialize (IH rest os Hr Hos). apply res_bind_Ok in IH as (sel & -> & Em). mred. cbn [mapM].
      rewrite (projects_row tm cols out t (snd x)), Ho by done. mred. by rewrite Em.
    + specialize (IH rest outs Hr HP). apply res_bind_Ok in IH as (sel & -> & Em). by mred.
Qed.

(** ** Projections of permuted rows *)
Lemma mapM_perm {A B} (f : A → res B) l l' k : l ≡ₚ l' → mapM f l = Ok k → ∃ k', mapM f l' = Ok k' ∧ k' ≡ₚ k.
Proof.
  intros HP. revert k. induction HP as [|x l l' _ IH|x y l|l1 l2 l3 _ IH1 _ IH2]; intros k; cbn [mapM].
  - intros [= <-]. by exists [].
  - intros HM. apply res_bind_Ok in HM as (a & Ha & HM). apply res_bind_Ok in HM as (as' & Has & [= <-]).
    destruct (IH _ Has) as (k' & Hk & HP'). exists (a :: k'). rewrite Ha. mred. rewrite Hk. mred. split; [done|by rewrite HP'].
  - intros HM. apply res_bind_Ok in HM as (a & Ha & HM). apply res_bind_Ok in HM as (bs & Hbs & [= <-]).
    apply res_bind_Ok in Hbs as (b & Hb & Hbs). apply res_bind_Ok in Hbs as (cs & Hcs & [= <-]).
    exists (b :: a :: cs). rewrite Hb. mred. rewrite Ha. mred. rewrite Hcs. mred. split; [done|apply Permutation_swap].
  - intros HM. destruct (IH1 _ HM) as (k2 & H2 & P2). destruct (IH2 _ H2) as (k3 & H3 & P3). exists k3. split; [done|by rewrite P3].
Qed.

(** ** The rows an index leads to *)
Section index_scan.
Variable murmur3 : list byte → list byte.
Context {R : Type} `{Replacer R} `{SliceSort} `{MapRange}.
Implicit Types (e : Engine R).

(** The hash under which the row's value in column [j] is indexed. *)
Definition key_hash (j : nat) (row : list Value) : res Z :=
  v ← deref (row !! j); bs ← Serialize v; hash murmur3 bs.

(** The index has one entry per row. *)
Definition index_of (j : nat) (rows : list Located) (es : list (Z * Z)) : Prop :=
  ∃ ps, es ≡ₚ ps ∧ Forall2 (λ (x : Located) p, key_hash j (snd x) = Ok (fst p) ∧ snd p = PackRIDtoUint32 (fst x)) rows ps.

(** The pages of an index. *)
Record index_pages (P : gmap Z (list byte)) (ix : IndexHandle) (ids : list Z) (cs : list cell) : Prop := {
  ixp_pages : table_pages P (ix_header ix) ids cs;
  ixp_ok : table_ok (start_of (length ids)) cs
}.

Lemma index_pages_keep P P' ix ids cs : (∀ q, q ∈ ix_header ix :: ids → P' !! q = P !! q) →
  index_pages P ix ids cs → index_pages P' ix ids cs.
Proof.
  intros HE [[(hd & Hh & HH) HN ND (bss & Hc & HF)] HO]. split; [|done]. split; [|done|done|].
  - exists hd. split; [|done]. rewrite HE; [done|by left].
  - exists bss. split; [done|]. clear Hc. assert (HE' : ∀ q, q ∈ ids → P' !! q = P !! q) by (intros q Hq; apply HE; by right).
    clear -HF HE'. induction HF as [|b bs ids bss (d & Hd & Hl & Hc) _ IH]; constructor.
    + exists d. split; [|done]. rewrite HE'; [done|by left].
    + apply IH. intros q Hq. apply HE'. by right.
Qed.

Lemma index_pages_dom P ix ids cs q : index_pages P ix ids cs → q ∈ ix_header ix :: ids → q ∈ dom P.
Proof.
  intros [[(hd & Hh & _) _ _ (bss & _ & HF)] _] [->|Hq]%elem_of_cons; [by eapply elem_of_dom_2|].
  apply list_elem_of_lookup in Hq as [i Hi]. destruct (Forall2_lookup_l _ _ _ _ _ HF Hi) as (bs & _ & d & Hd & _).
  by eapply elem_of_dom_2.
Qed.

Lemma index_extends X Y ix ids cs : extends X Y → index_pages (rpages X) ix ids cs → (∀ b, b ∈ ix_header ix :: ids → b ∉ rleaked X) →
  index_pages (rpages Y) ix ids cs ∧ ∀ b, b ∈ ix_header ix :: ids → b ∉ rleaked Y.
Proof.
  intros [HP HD] HI HC. assert (HDom : ∀ q, q ∈ ix_header ix :: ids → q ∈ dom (rpages X)) by (intros q; by eapply index_pages_dom).
  split.
  - eapply index_pages_keep; [|exact HI]. intros q Hq. apply HDom, elem_of_dom in Hq as [d Hd]. rewrite Hd. by eapply lookup_weaken.
  - intros q Hq HY. by apply (HC q Hq), HD; [apply HDom|].
Qed.

Lemma index_rows j rows cs (ids : list Z) h : index_of j rows (entries cs) → table_ok (start_of (length ids)) cs →
  ∃ xs, values_in h (rot (start_of (length ids) h) cs) = (PackRIDtoUint32 ∘ fst) <$> xs ∧
    xs ≡ₚ filter (λ x : Located, key_hash j (snd x) = Ok h) rows.
Proof.
  intros (ps & HP & HF) HO. pose proof (values_found _ _ h HO) as HV. fold (values_of h (entries cs)) in HV.
  rewrite (perm_values h _ _ HP) in HV.
  assert (HE : values_of h ps = (PackRIDtoUint32 ∘ fst) <$> filter (λ x : Located, key_hash j (snd x) = Ok h) rows).
  { clear HP HV. unfold values_of. induction HF as [|x [k p] rows ps [Hk Hp] _ IH]; [done|]. cbn [List.filter fst snd] in *.
    destruct (Z.eqb_spec k h) as [->|Hne].
    - rewrite filter_cons_True by done. rewrite !fmap_cons, IH. cbn. by rewrite Hp.
    - rewrite filter_cons_False by (rewrite Hk; congruence). exact IH. }
  rewrite HE in HV. destruct (Permutation_map_inv _ _ HV) as (xs & E & HX).
  exists xs. split; [exact E|]. by symmetry.
Qed.

Variables (e0 : Engine R) (n : nat) (fuel : nat).
Variables (X : Rest) (tm : TableMetadata) (cols : list Column) (c : list (Z * slots)) (rows : list Located).
Hypothesis HS : schema tm = NewSchema cols.
Hypothesis HR : heap_rep (rpages X) (table tm) c.
Hypothesis HCl : clean (rleaked X) c.
Hypothesis HRows : holds_rows cols c rows.
Hypothesis HRd : Forall (λ x : Located, TableScan.readable (fst x) e0) rows.
Hypothesis Hbits : Forall (λ x : Located, 0 ≤ PageId (fst x) < 2 ^ 16 ∧ 0 ≤ SlotNum (fst x) < 2 ^ 16) rows.

Variables (ix : IndexHandle) (j : nat) (ids : list Z) (cs : list cell).
Hypothesis Hsch : tuple_schema (ix_metadata ix) = NewSchema cols.
Hypothesis Hcol : ix_col ix = Z.of_nat j.
Hypothesis HIx : index_pages (rpages X) ix ids cs.
Hypothesis HICl : ∀ b, b ∈ ix_header ix :: ids → b ∉ rleaked X.
Hypothesis Hfu : (length cs ≤ fuel)%nat.

(** The tuple of a row. *)
Definition tuple_of_row (x : Located) (t : Tuple) : Prop :=
  ∃ bs, t = stored_tuple (fst x) bs ∧ row_ok cols (snd x) ∧ bytes_of cols (snd x) bs.

Section at_rest.
Variable (Y : Rest).
Hypothesis HXY : extends X Y.
Hypothesis HF : frames_for 2 n (rpins Y).
#[local] Abbreviation rests := (rests e0 n Y).

Lemma scan_key_run e key kb h :
  rests e → GetValueInBytes key (NewSchema cols) (Z.of_nat j) = Ok kb → hash murmur3 kb = Ok h →
  ∃ e', with_index ix (ScanKey murmur3 fuel key) e =
    Ok (UnpackUint32toRID <$> values_in h (rot (start_of (length ids) h) cs), e') ∧ rests e'.
Proof.
  intros HQ Hk Hh. pose proof (shows_pins _ _ _ (proj1 HQ)) as HPp. cbn in HPp.
  destruct (index_extends _ _ _ _ _ HXY HIx HICl) as [HIx' HICl'].
  destruct (GetValue_leaky murmur3 (estore e) n (rleaked Y) (rpages Y) (rpins Y) (ix_header ix) ids cs kb h fuel (proj1 HQ))
    as (s' & E & S' & [HL HN]); [apply HIx'|apply HIx'|done|done| |done|done|].
  { split; [|intros b Hb]; apply HICl'; [by left|by right]. }
  exists (set_store s' e). split.
  - unfold with_index, ScanKey, key_bytes. unfold mbind, st_mbind, st_get. cbn [metadata col_idx]. rewrite Hsch, Hcol, Hk.
    cbn [st_lift]. unfold on_container, zoom. cbn [container]. rewrite E. cbn. done.
  - eapply rests_read; [exact HQ|exact S'|]. by split.
Qed.

Lemma fetch_row e x : rests e → x ∈ rows →
  ∃ t e', TableHeap.GetTuple (table tm) (fst x) e = Ok (Some t, e') ∧ tuple_of_row x t ∧ rests e'.
Proof.
  intros HQ Hx. apply list_elem_of_lookup in Hx as [i Hi]. destruct (extends_heap _ _ _ _ HXY HR HCl) as [HR' HCl'].
  destruct (Forall2_lookup_r _ _ _ _ _ HRows Hi) as ([r [b bs]] & He & Hr & Hok & bs' & Hb & HB). cbn in Hr, Hb. injection Hb as -> ->. subst r.
  destruct (heap_entry_slot c (fst x) (false, bs')) as [H0' HSl]; [by eapply list_elem_of_lookup_2|].
  pose proof HRd as HRd'. rewrite Forall_forall in HRd'.
  destruct (GetTuple_run e n _ _ _ (table tm) c (fst x) false bs' (proj1 HQ) HR' HSl H0') as (e' & E & S' & RS' & _);
    [| |exact HCl'|].
  - by eapply (frames_room 2); [lia|].
  - eapply readable_query; [apply HQ|]. apply HRd'. by eapply list_elem_of_lookup_2.
  - exists (stored_tuple (fst x) bs'), e'. split; [done|]. split; [by exists bs'|]. by eapply rests_read.
Qed.

Lemma fetch_rows xs : ∀ e found, rests e → xs ⊆ rows →
  ∃ ts e', fetch_all (table tm) (fst <$> xs) found e = Ok (found ++ ts, e') ∧ Forall2 tuple_of_row xs ts ∧ rests e'.
Proof.
  induction xs as [|x xs IH]; intros e found Q Hsub.
  - exists [], e. rewrite app_nil_r. split; [done|]. split; [constructor|done].
  - destruct (fetch_row e x Q) as (t & e1 & E1 & Ht & Q1); [apply Hsub; by left|].
    destruct (IH e1 (found ++ [t]) Q1) as (ts & e2 & E2 & HT & Q2); [intros y Hy; apply Hsub; by right|].
    exists (t :: ts), e2. cbn [fmap list_fmap fetch_all]. rewrite (st_bind_run _ _ _ _ _ E1), E2, <- app_assoc.
    split; [done|]. split; [by constructor|done].
Qed.
End at_rest.

(** The results: the tuples found, projected. *)
Lemma found_streams Y out pr depth ts : ∀ outs, mapM (projects out tm) ts = Ok outs →
  streams murmur3 e0 n fuel Y true (S depth) (HashScanIndexExecutor out pr (Some tm) ts) (Some <$> outs).
Proof.
  induction ts as [|t ts IH]; intros outs; cbn [mapM].
  - intros [= <-] Z e _ _ Q. apply leads_refl in Q. exists (HashScanIndexExecutor out pr (Some tm) []), true, false, e. by split.
  - intros HM. apply res_bind_Ok in HM as (o & Ho & HM). apply res_bind_Ok in HM as (os & Hos & [= <-]).
    cbn [fmap list_fmap streams]. intros Z e _ _ Q. apply leads_refl in Q. do 2 eexists. split; [|split; [exact Q|split; [|by apply IH]]]; [|done].
    cbn [Next next_found]. unfold mbind, st_mbind, st_lift. mred. rewrite Ho. done.
Qed.

Lemma project_tuples out xs ts : Forall2 tuple_of_row xs ts →
  mapM (projects out tm) ts = mapM (project_row out (schema tm)) xs.*2.
Proof.
  induction 1 as [|x t xs ts (bs & -> & Hok & HB) _ IH]; [done|]. cbn [fmap list_fmap mapM].
  rewrite (projects_row tm cols out _ (snd x)) by (done || by apply bytes_holds). by rewrite IH.
Qed.

Lemma unpack_rows xs : xs ⊆ rows → UnpackUint32toRID <$> ((PackRIDtoUint32 ∘ fst) <$> xs) = fst <$> xs.
Proof.
  intros Hsub. rewrite <- list_fmap_compose. apply list_fmap_ext. intros i x Hx. unfold compose.
  pose proof Hbits as HB. rewrite Forall_forall in HB. destruct (HB x) as [B1 B2]; [apply Hsub; by eapply list_elem_of_lookup_2|].
  by apply unpack_pack.
Qed.

(** The rows whose key is [v], in the order of the index. *)
Variables (cj : Column) (v : Value) (kb : list byte) (h : Z).
Hypothesis Hj : cols !! j = Some cj.
Hypothesis Hfind : find_index (Z.of_nat j) 0 (take (Z.to_nat (GetColumnNum tm)) (indexes tm)) = Ok ix.
Hypothesis HSe : searchable cols.
Hypothesis Hv : storable v.
Hypothesis HTy : valueType v = columnType cj.
Hypothesis HX : exact_type (columnType cj) = true.
Hypothesis Hfits : fixed_total cols + payload_total (zip cols (search_row cols j v)) < 2 ^ 32.
Hypothesis HLen : Z.of_nat (length cols) < 2 ^ 32.
Hypothesis Hkb : Serialize v = Ok kb.
Hypothesis Hh : hash murmur3 kb = Ok h.
Hypothesis Hindex : index_of j rows (entries cs).

(** No row has another key with the hash of the one searched. *)
Hypothesis Hcoll : Forall (λ x : Located, key_hash j (snd x) = Ok h → snd x !! j = Some v) rows.

Lemma hits_by_key : filter (λ x : Located, key_hash j (snd x) = Ok h) rows = filter (λ x : Located, snd x !! j = Some v) rows.
Proof.
  clear -Hcoll Hkb Hh. induction Hcoll as [|x l Hx HC IH]; [done|].
  destruct (decide (snd x !! j = Some v)) as [Hd|Hd].
  - assert (Hk : key_hash j (snd x) = Ok h) by (unfold key_hash; rewrite Hd; mred; rewrite Hkb; exact Hh).
    rewrite !filter_cons_True by done. by rewrite (IH HC).
  - rewrite !filter_cons_False by naive_solver. by rewrite (IH HC).
Qed.

Lemma hits_by_predicate :
  filter_rows (Some (equals (Z.of_nat j) v)) rows = Ok (filter (λ x : Located, snd x !! j = Some v) rows).
Proof.
  clear -HRows Hj Hv HTy HX. unfold holds_rows in HRows. induction HRows as [|e x l rows (_ & Hok & _) HC IH]; [done|].
  cbn [filter_rows]. destruct Hok as (Hok & Hok'). destruct (Forall2_lookup_l _ _ _ _ _ Hok Hj) as (w & Hw & _).
  rewrite (equals_truth cols (snd x) j cj v w) by done. rewrite (IH HC). mred. f_equal.
  destruct (decide (w = v)) as [->|Hne].
  - rewrite bool_decide_true by done. by rewrite filter_cons_True by done.
  - rewrite bool_decide_false by done. by rewrite filter_cons_False by congruence.
Qed.

Lemma index_scan_opens out outs :
  mapM (project_row out (schema tm)) (filter (λ x : Located, snd x !! j = Some v) rows).*2 = Ok outs →
  ∃ found, found ≡ₚ outs ∧ ∀ depth,
    opens murmur3 e0 n fuel X 0 0 true (S depth) (HashScanIndexExecutor out (equals (Z.of_nat j) v) (Some tm) []) (Some <$> found).
Proof.
  intros HM. destruct (index_rows j rows cs ids h Hindex (ixp_ok _ _ _ _ HIx)) as (xs & EV & HP). rewrite hits_by_key in HP.
  assert (Hsub : xs ⊆ rows) by (intros x Hx; rewrite HP, list_elem_of_filter in Hx; apply Hx).
  destruct (mapM_perm _ _ xs.*2 _ ltac:(apply fmap_Permutation; symmetry; exact HP) HM) as (found & Ef & HPf).
  exists found. split; [done|]. intros depth Y e HXY HF _ Q.
  destruct (search_tuple cols j cj v HSe Hj Hv HTy HLen Hfits) as (key & Eg & Ek). rewrite Hkb in Ek.
  destruct (scan_key_run Y HXY HF e key kb h Q Ek Hh) as (e1 & E1 & Q1). rewrite EV, (unpack_rows xs Hsub) in E1.
  destruct (fetch_rows Y HXY HF xs e1 [] Q1 Hsub) as (ts & e2 & E2 & HTs & Q2).
  exists (HashScanIndexExecutor out (equals (Z.of_nat j) v) (Some tm) ts), Y, e2.
  split; [|split; [done|split; [apply grows_refl|split; [|done]]]].
  - cbn [Init]. unfold index_lookup. cbn [deref equals GetLeftSideColIdx GetRightSideValue Evaluate].
    unfold mbind at 1, st_mbind at 1. cbn [st_lift]. unfold mbind at 1, st_mbind at 1, mbind at 1, st_mbind at 1. cbn [st_lift].
    unfold mbind at 1, st_mbind at 1. unfold st_lift at 1. rewrite Hfind. unfold mbind at 1, st_mbind at 1. cbn [st_lift].
    unfold mbind at 1, st_mbind at 1. unfold st_lift at 1. rewrite HS, Eg. rewrite (st_bind_run _ _ _ _ _ E1), E2. done.
  - apply found_streams. by rewrite (project_tuples out xs ts HTs).
Qed.
End index_scan.
