(* ===== verification/IndexedTables.v ===== *)
(** * Tables with indexes ([execution/executors/insert_executor.go])

    A table and the hash indexes of its columns on the pages of one pool: the pages
    are apart, every index has an entry for every row.  Inserting a row keeps that:
    the row gets a record, and each index an entry for it. *)

From S2P Require Import Prelude Bytes Types Tuples Disk LogRecord LogManager Replacer ClockReplacer Page BufferPool LockManager PoolView TablePage Engine TableHeap TableScan HashPage Probe HashTable HashIndex Expressions Plans Catalog TmpTuples Executors Rows Operators IndexScan.

(** ** Rows under an insert *)
Lemma put_slot_S k y x (ls : slots) : put_slot (S k) y (x :: ls) = x :: put_slot k y ls.
Proof.
  unfold put_slot. change (S k <? length (x :: ls))%nat with (k <? length ls)%nat.
  by destruct (k <? length ls)%nat.
Qed.

Lemma page_entries_put q bs ls : ∀ z,
  ∃ l1 l2, page_entries q z ls = l1 ++ l2 ∧
    page_entries q z (put_slot (free_slot ls) (Some (false, bs)) ls) =
      l1 ++ (MkRID q (z + Z.of_nat (free_slot ls)), (false, bs)) :: l2.
Proof.
  induction ls as [|[x|] ls IH]; intros z.
  - exists [], []. cbn. by rewrite Z.add_0_r.
  - destruct (IH (z + 1)) as (l1 & l2 & E1 & E2). exists ((MkRID q z, x) :: l1), l2. cbn [page_entries free_slot]. rewrite E1.
    split; [done|]. rewrite put_slot_S. cbn [page_entries]. rewrite E2. cbn [free_slot app].
    by replace (z + Z.of_nat (S (free_slot ls))) with (z + 1 + Z.of_nat (free_slot ls)) by lia.
  - exists [], (page_entries q (z + 1) ls). cbn. by rewrite Z.add_0_r.
Qed.

Lemma heap_insert_entries new bs c : ∀ c' r, heap_insert new bs c = (c', r) →
  ∃ l1 l2, heap_entries c = l1 ++ l2 ∧ heap_entries c' = l1 ++ (r, (false, bs)) :: l2.
Proof.
  induction c as [|[q ls] c IH]; intros c' r; cbn [heap_insert].
  - intros [= <- <-]. by exists [], [].
  - case_match.
    + intros [= <- <-]. destruct (page_entries_put q bs ls 0) as (l1 & l2 & E1 & E2). exists l1, (l2 ++ heap_entries c).
      cbn [heap_entries]. rewrite E1, E2, <- !app_assoc. done.
    + destruct (heap_insert new bs c) as [c'' r''] eqn:E. intros [= <- <-]. destruct (IH _ _ eq_refl) as (l1 & l2 & E1 & E2).
      exists (page_entries q 0 ls ++ l1), l2. cbn [heap_entries]. by rewrite E1, E2, <- !app_assoc.
Qed.

Lemma holds_rows_insert cols c c' r new bs rows row :
  heap_insert new bs c = (c', r) → holds_rows cols c rows → row_ok cols row → bytes_of cols row bs →
  ∃ rows', holds_rows cols c' rows' ∧ rows' ≡ₚ (r, row) :: rows.
Proof.
  intros HI HH Hok HB. destruct (heap_insert_entries _ _ _ _ _ HI) as (l1 & l2 & E1 & E2).
  unfold holds_rows in *. rewrite E1 in HH. apply Forall2_app_inv_l in HH as (r1 & r2 & H1 & H2 & ->).
  exists (r1 ++ (r, row) :: r2). split; [|by rewrite Permutation_middle]. rewrite E2. apply Forall2_app; [done|].
  constructor; [|done]. split; [done|]. split; [done|]. by exists bs.
Qed.

(** ** The pages of a table and its indexes *)
Section tables.
Variable murmur3 : list byte → list byte.
Hypothesis murmur3_size : ∀ key, zlen (murmur3 key) = 16.
Context {R : Type} `{Replacer R}.
Implicit Types (e : Engine R).

(** The index of column [j] is on the blocks [ids] and holds [M]. *)
Record index_on (P : gmap Z (list byte)) (tm : TableMetadata) (j : nat) (ix : IndexHandle) (ids : list Z) (M : Multimap) : Prop := {
  io_schema : tuple_schema (ix_metadata ix) = schema tm;
  io_col : ix_col ix = Z.of_nat j;
  io_cells : ∃ cs, index_pages P ix ids cs ∧ entries cs ≡ₚ mm_entries M ∧ used cs ≡ₚ mm_used M
}.

(** [blocks j] are the blocks of the index of column [j], [Ms j] what it holds. *)
Record table_on e (n : nat) (P : gmap Z (list byte)) (pins : gmap Z Z) (tm : TableMetadata) (cols : list Column)
    (c : list (Z * slots)) (blocks : nat → list Z) (Ms : nat → Multimap) : Prop := {
  to_shows : shows (estore e) n (quiet P pins);
  to_frames : frames_for 2 n pins;
  to_schema : schema tm = NewSchema cols;
  to_columns : Z.of_nat (length cols) < 2 ^ 32 ∧ length (columns (schema tm)) = length cols ∧ length (indexes tm) = length cols;
  to_heap : heap_rep P (table tm) c;
  to_index : ∀ j ix, indexes tm !! j = Some (Some ix) → index_on P tm j ix (blocks j) (Ms j);
  to_apart : ∀ j ix q, indexes tm !! j = Some (Some ix) → q ∈ ix_header ix :: blocks j → q ∉ c.*1;
  to_distinct : ∀ j j' ix ix' q, indexes tm !! j = Some (Some ix) → indexes tm !! j' = Some (Some ix') → j ≠ j' →
    q ∈ blocks j → q ∉ ix_header ix' :: blocks j'
}.

(** Every index has an entry for every row. *)
Definition indexed (tm : TableMetadata) (rows : list Located) (Ms : nat → Multimap) : Prop :=
  ∀ j ix, indexes tm !! j = Some (Some ix) → index_of murmur3 j rows (mm_entries (Ms j)).

Lemma index_on_keep P P' tm j ix ids M : (∀ q, q ∈ ix_header ix :: ids → P' !! q = P !! q) →
  index_on P tm j ix ids M → index_on P' tm j ix ids M.
Proof.
  intros HE [H1 H2 (cs & HI & HM)]. split; [done|done|]. exists cs. split; [by eapply index_pages_keep|done].
Qed.

(** What is not the pool's stays: the transaction, the locks, the log. *)
Definition store_step e e' : Prop :=
  etxn e' = etxn e ∧ elocks e' = elocks e ∧ elogging e' = elogging e ∧ calm (estore e) (estore e').
Lemma store_step_refl e : store_step e e.
Proof. unfold store_step. split; [done|]. split; [done|]. split; [done|apply calm_refl]. Qed.
Lemma store_step_trans e1 e2 e3 : store_step e1 e2 → store_step e2 e3 → store_step e1 e3.
Proof. intros (? & ? & ? & ?) (? & ? & ? & ?). split; [congruence|]. split; [congruence|]. split; [congruence|]. by eapply calm_trans. Qed.

Lemma index_column e n P pins tm cols c blocks Ms j ix : table_on e n P pins tm cols c blocks Ms →
  indexes tm !! j = Some (Some ix) → (j < length cols)%nat.
Proof. intros HT Hj. rewrite <- (proj2 (proj2 (to_columns _ _ _ _ _ _ _ _ _ HT))). by eapply lookup_lt_Some. Qed.

(** One index: the entry is added. *)
Definition added (h v : Z) (M : Multimap) : Multimap := MkMultimap ((h, v) :: mm_entries M) (v :: mm_used M).

Lemma enter_run e n P pins tm j ix ids M key kb r fuel :
  shows (estore e) n (quiet P pins) → frames_for 2 n pins → index_on P tm j ix ids M →
  GetValueInBytes key (schema tm) (Z.of_nat j) = Ok kb → PackRIDtoUint32 r ∉ mm_used M →
  (length (mm_used M) < capacity ids)%nat → (capacity ids ≤ fuel)%nat →
  ∃ h P' e', hash murmur3 kb = Ok h ∧ enter murmur3 fuel key r ix e = Ok (tt, e') ∧
    shows (estore e') n (quiet P' pins) ∧ only_blocks ids P P' ∧ index_on P' tm j ix ids (added h (PackRIDtoUint32 r) M) ∧
    store_step e e'.
Proof.
  intros S HF [Hs Hc (cs & [HT HO] & HE & HU)] Hk Hnew Hroom Hfu. pose proof (shows_pins _ _ _ S) as HPp. cbn in HPp.
  set (idx := MkIndex (MkHashTable (estore e) NewRWLatch (ix_header ix)) (ix_metadata ix) (ix_col ix)).
  destruct (InsertEntry_run murmur3 murmur3_size idx n P pins ids M key kb r fuel) as (h & b & M' & P' & cn & Hh & E & HS & HM & HB & HHd & HCa);
    [by unfold key_of; cbn; rewrite Hs, Hc|constructor; exists cs; split; [by split|done]|done|].
  exists h, P', (set_store (hstore cn) e). split; [done|]. split.
  { unfold enter, with_index. fold idx. by rewrite E. }
  destruct HM as [(cs' & HT' & HE' & HU')].
  assert (M' = added h (PackRIDtoUint32 r) M) as -> by (inversion HS; subst; [done|done|lia]).
  split; [apply (ti_shows _ _ _ _ _ _ HT')|]. split; [done|]. split; [|by split].
  split; [done|done|]. exists cs'. split; [|done]. split; [|apply (ti_ok _ _ _ _ _ _ HT')].
  pose proof (ti_pages _ _ _ _ _ _ HT') as HP. by rewrite HHd in HP.
Qed.

(** ** The loop over the indexes of a row *)
Lemma over_indexes_run (Q : nat → Engine R → Prop) tm (f : IndexHandle → Prelude.st (Engine R) unit) n :
  (∀ j ix e, indexes tm !! j = Some (Some ix) → Q j e → ∃ e', f ix e = Ok (tt, e') ∧ Q (S j) e') →
  (∀ j e, indexes tm !! j = Some None → Q j e → Q (S j) e) →
  ∀ i e, (i + n ≤ length (indexes tm))%nat → Q i e →
  ∃ e', over_indexes n (Z.of_nat i) tm f e = Ok (tt, e') ∧ Q (i + n)%nat e'.
Proof.
  intros HSome HNone. induction n as [|n IH]; intros i e Hi HQ.
  - exists e. by rewrite Nat.add_0_r.
  - destruct (lookup_lt_is_Some_2 (indexes tm) i) as [o Ho]; [lia|]. cbn [over_indexes]. unfold GetIndex.
    rewrite (st_bind_run _ _ _ _ _ (st_lift_run _ _ e (index_nat _ _ _ Ho))).
    replace (Z.of_nat i + 1) with (Z.of_nat (S i)) by lia. replace (i + S n)%nat with (S i + n)%nat by lia.
    destruct o as [ix|].
    + destruct (HSome i ix e Ho HQ) as (e1 & E1 & Q1). rewrite (st_bind_run _ _ _ _ _ E1). apply IH; [lia|done].
    + rewrite (st_bind_run _ _ e tt e eq_refl). apply IH; [lia|by apply HNone].
Qed.

(** The first [k] columns' indexes changed by [up]. *)
Definition changed (k : nat) (up : nat → Multimap → Multimap) (Ms : nat → Multimap) (j : nat) : Multimap :=
  if decide (j < k)%nat then up j (Ms j) else Ms j.

Lemma changed_other k up Ms j : j ≠ k → changed (S k) up Ms j = changed k up Ms j.
Proof. intros Hne. unfold changed. destruct (decide (j < k)%nat), (decide (j < S k)%nat); (done || lia). Qed.

(** A loop over the indexes that changes each of them on its own blocks. *)
Lemma each_index_run (f : IndexHandle → Prelude.st (Engine R) unit) (up : nat → Multimap → Multimap) e n P pins tm cols c blocks Ms :
  table_on e n P pins tm cols c blocks Ms →
  (∀ e1 P1 j ix, indexes tm !! j = Some (Some ix) → shows (estore e1) n (quiet P1 pins) → index_on P1 tm j ix (blocks j) (Ms j) →
    ∃ P2 e2, f ix e1 = Ok (tt, e2) ∧ shows (estore e2) n (quiet P2 pins) ∧ only_blocks (blocks j) P1 P2 ∧
      index_on P2 tm j ix (blocks j) (up j (Ms j)) ∧ store_step e1 e2) →
  ∃ P' e', each_index tm f e = Ok (tt, e') ∧ table_on e' n P' pins tm cols c blocks (changed (length cols) up Ms) ∧ store_step e e'.
Proof.
  intros [S HF HS (HL & HLc & HLi) HH HIx HAp HDi] Hf.
  set (Q := λ (k : nat) (e' : Engine R), ∃ P', shows (estore e') n (quiet P' pins) ∧ heap_rep P' (table tm) c ∧
    (∀ j ix, indexes tm !! j = Some (Some ix) → index_on P' tm j ix (blocks j) (changed k up Ms j)) ∧ store_step e e').
  destruct (over_indexes_run Q tm f (length cols)) with (i := 0%nat) (e := e) as (e' & E & P' & S' & HH' & HIx' & HSt).
  - intros j ix e1 Hj (P1 & S1 & HH1 & HIx1 & HSt1). pose proof (HIx1 j ix Hj) as HI1.
    assert (HM : changed j up Ms j = Ms j) by (unfold changed; by rewrite decide_False by lia). rewrite HM in HI1.
    destruct (Hf e1 P1 j ix Hj S1 HI1) as (P2 & e2 & E2 & S2 & HB2 & HI2 & HSt2).
    exists e2. split; [exact E2|]. exists P2. split; [done|]. split; [|split; [|by eapply store_step_trans]].
    + destruct HH1 as [HN ND HC]. split; [done|done|]. eapply chain_outside; [|exact HC]. intros q Hq. apply HB2.
      intros Hqb. eapply HAp; [exact Hj| |exact Hq]. by right.
    + intros j' ix' Hj'. destruct (decide (j' = j)) as [->|Hne].
      * assert (ix' = ix) as -> by congruence. unfold changed. by rewrite decide_True by lia.
      * rewrite changed_other by done. eapply index_on_keep; [|by apply HIx1]. intros q Hq. apply HB2. intros Hqb.
        eapply (HDi j j' ix ix' q); [done|done|congruence|done|done].
  - intros j e1 Hj (P1 & S1 & HH1 & HIx1 & HSt1). exists P1. split; [done|]. split; [done|]. split; [|done].
    intros j' ix' Hj'. rewrite changed_other by (intros ->; congruence). by apply HIx1.
  - lia.
  - exists P. split; [done|]. split; [done|]. split; [|apply store_step_refl].
    intros j ix Hj. unfold changed. rewrite decide_False by lia. by apply HIx.
  - rewrite Nat.add_0_l in *. exists P', e'. split; [|by split].
    unfold each_index, GetColumnNum, GetColumnCount. rewrite HLc, u32_small by (unfold in_u32; lia). rewrite Nat2Z.id. exact E.
Qed.

(** The key of the row in column [j], and its entry there. *)
Definition row_hash (j : nat) (row : list Value) : Z := match key_hash murmur3 j row with Ok h => h | _ => 0 end.

Lemma row_key cols row bs r j : row_ok cols row → bytes_of cols row bs → (j < length cols)%nat →
  ∃ kb, GetValueInBytes (stored_tuple r bs) (NewSchema cols) (Z.of_nat j) = Ok kb ∧
    hash murmur3 kb = Ok (row_hash j row) ∧ key_hash murmur3 j row = Ok (row_hash j row).
Proof.
  intros Hok HB Hj. destruct (lookup_lt_is_Some_2 row j) as [v Hv]; [destruct Hok as [Hok _]; by rewrite <- (Forall2_length _ _ _ Hok)|].
  destruct (bytes_reads cols row bs r j v Hok HB Hv) as [_ Hkb].
  assert (Hst : storable v).
  { destruct Hok as [Hok _]. destruct (Forall2_lookup_r _ _ _ _ _ Hok Hv) as (cj & _ & Hsv & _). done. }
  destruct (Serialize_storable v Hst) as (kb & Ekb & _). rewrite Ekb in Hkb.
  destruct (hash_run murmur3 kb) as (h & Hh & _); [rewrite murmur3_size; lia|].
  assert (HK : key_hash murmur3 j row = Ok h) by (unfold key_hash; rewrite Hv; mred; rewrite Ekb; exact Hh).
  assert (HR : row_hash j row = h) by (unfold row_hash; by rewrite HK).
  exists kb. rewrite HR. done.
Qed.

Definition room_for (tm : TableMetadata) (blocks : nat → list Z) (Ms : nat → Multimap) (r : RID) (fuel : nat) : Prop :=
  ∀ j ix, indexes tm !! j = Some (Some ix) → (PackRIDtoUint32 r ∉ mm_used (Ms j)) ∧
    (length (mm_used (Ms j)) < capacity (blocks j))%nat ∧ (capacity (blocks j) ≤ fuel)%nat.

Definition added_all (r : RID) (row : list Value) (j : nat) : Multimap → Multimap := added (row_hash j row) (PackRIDtoUint32 r).

Lemma each_enter_run e n P pins tm cols c blocks Ms row bs r fuel :
  table_on e n P pins tm cols c blocks Ms → row_ok cols row → bytes_of cols row bs → room_for tm blocks Ms r fuel →
  ∃ P' e', each_index tm (enter murmur3 fuel (stored_tuple r bs) r) e = Ok (tt, e') ∧
    table_on e' n P' pins tm cols c blocks (changed (length cols) (added_all r row) Ms) ∧ store_step e e'.
Proof.
  intros HT Hok HB HRm. eapply each_index_run; [exact HT|]. intros e1 P1 j ix Hj S1 HI1.
  destruct (row_key cols row bs r j Hok HB (index_column _ _ _ _ _ _ _ _ _ _ _ HT Hj)) as (kb & Hkb & Hh & _).
  rewrite <- (to_schema _ _ _ _ _ _ _ _ _ HT) in Hkb. destruct (HRm j ix Hj) as (R1 & R2 & R3).
  destruct (enter_run e1 n P1 pins tm j ix (blocks j) (Ms j) (stored_tuple r bs) kb r fuel S1 (to_frames _ _ _ _ _ _ _ _ _ HT) HI1 Hkb R1 R2 R3)
    as (h & P2 & e2 & Hh' & E2 & S2 & HB2 & HI2 & HSt2).
  assert (h = row_hash j row) as -> by congruence. by exists P2, e2.
Qed.

(** ** Inserting a row *)

(** The lock an insert takes hides no record from the transaction. *)
Lemma LockExclusive_readable t r lm t' lm' : LockExclusive t r lm = (true, t', lm') → ∀ r',
  (∀ u, exclusive_lock_table lm !! r' = Some u → u = txn_id t) → ∀ u, exclusive_lock_table lm' !! r' = Some u → u = txn_id t'.
Proof.
  intros E r' HR u. destruct (LockExclusive_keeps _ _ _ _ _ _ E) as [-> _]. unfold LockExclusive in E.
  destruct (exclusive_lock_table lm !! r) as [w|] eqn:Ex.
  - injection E as _ _ <-. apply HR.
  - destruct (shared_lock_table lm !! r) as [[|]|]; try done; injection E as <- <-; cbn;
      (destruct (decide (r = r')) as [->|Hne]; [rewrite lookup_insert_eq; by intros [= <-]|rewrite lookup_insert_ne by done; apply HR]).
Qed.

Lemma logged_readable lock mk e e' r' :
  (∀ t lm t' lm', lock t lm = Ok (true, t', lm') → (∀ u, exclusive_lock_table lm !! r' = Some u → u = txn_id t) →
     ∀ u, exclusive_lock_table lm' !! r' = Some u → u = txn_id t') →
  logged lock mk e e' → TableScan.readable r' e → TableScan.readable r' e'.
Proof.
  intros HL [Hg HLg] HR u Hu. destruct (elogging e).
  - destruct HLg as (t' & lm' & El & <- & -> & _). cbn. by eapply HL.
  - destruct HLg as (-> & Hl & _). rewrite Hl in Hu. by apply HR.
Qed.

Lemma insert_readable c new r t e e' r' : insert_logged c new r t e e' → TableScan.readable r' e → TableScan.readable r' e'.
Proof.
  intros (e1 & H1 & H2) HR. apply (logged_readable _ _ e1 e' r') in H2; [done| |].
  - intros t0 lm t' lm' E. unfold insert_lock in E. apply (LockExclusive_readable t0 r). by injection E.
  - case_decide.
    + destruct H1 as (q & _ & H1). eapply logged_readable; [|exact H1|exact HR]. intros t0 lm t' lm' E. unfold no_lock in E. by injection E as <- <-.
    + intros u Hu. rewrite (tk_locks _ _ H1) in Hu. rewrite (tk_txn _ _ H1). by apply HR.
Qed.

Lemma index_of_add j rows rows' r row es h : key_hash murmur3 j row = Ok h → rows' ≡ₚ (r, row) :: rows →
  index_of murmur3 j rows es → index_of murmur3 j rows' ((h, PackRIDtoUint32 r) :: es).
Proof.
  intros Hk HP (ps & HE & HF).
  assert (HF' : Forall2 (λ (x : Located) p, key_hash murmur3 j (snd x) = Ok (fst p) ∧ snd p = PackRIDtoUint32 (fst x))
    ((r, row) :: rows) ((h, PackRIDtoUint32 r) :: ps)) by (constructor; done).
  destruct (Permutation_Forall2 (Permutation_sym HP) HF') as (ps' & HP' & HF2).
  exists ps'. split; [|done]. by rewrite HE.
Qed.

Lemma table_on_inserted e e' n P P' pins tm cols c c' blocks Ms new bs r :
  table_on e n P pins tm cols c blocks Ms → heap_insert new bs c = (c', r) → new = nextPageID (diskManager (estore e)) →
  shows (estore e') n (quiet P' pins) → heap_rep P' (table tm) c' → (∀ i, i ∉ c'.*1 → P' !! i = P !! i) →
  table_on e' n P' pins tm cols c' blocks Ms.
Proof.
  intros [S HF HS HL HH HIx HAp HDi] HI -> S' HH' HO.
  assert (HAp' : ∀ j ix q, indexes tm !! j = Some (Some ix) → q ∈ ix_header ix :: blocks j → q ∉ c'.*1).
  { intros j ix q Hj Hq Hin. pose proof (HAp j ix q Hj Hq) as HN.
    destruct (heap_insert_ids _ _ _ _ _ HI) as [_ [[Hids _]|[Hids _]]]; rewrite Hids in Hin; [done|].
    apply elem_of_app in Hin as [Hin|Hin]; [done|]. apply list_elem_of_singleton in Hin as ->.
    destruct (unused_page _ _ _ (nextPageID (diskManager (estore e))) S ltac:(lia)) as [HNo _]. cbn in HNo.
    destruct (HIx j ix Hj) as [_ _ (cs & [[(hd & Hh & _) _ _ (bss & _ & HB)] _] & _)].
    apply elem_of_cons in Hq as [Hq|Hq]; [rewrite Hq in HNo; congruence|].
    apply list_elem_of_lookup in Hq as [i Hi]. destruct (Forall2_lookup_l _ _ _ _ _ HB Hi) as (b & _ & d & Hd & _). congruence. }
  split; try done. intros j ix Hj. eapply index_on_keep; [|by apply HIx]. intros q Hq. apply HO. by eapply HAp'.
Qed.

Lemma insert_row_run e n P pins tm cols c blocks Ms rows row bs new c' r fuel :
  table_on e n P pins tm cols c blocks Ms → holds_rows cols c rows → indexed tm rows Ms →
  row_ok cols row → bytes_of cols row bs → 0 < zlen bs → zlen bs + sizeTuple ≤ free_space [] →
  new = nextPageID (diskManager (estore e)) → page_in_range new → (length c < fuel)%nat → heap_insert new bs c = (c', r) →
  (elogging e = true → grantable r (etxn e) (elocks e)) → room_for tm blocks Ms r fuel →
  ∃ e' P' rows' Ms', insert_rows murmur3 fuel tm [row] e = Ok (false, e') ∧ table_on e' n P' pins tm cols c' blocks Ms' ∧
    holds_rows cols c' rows' ∧ rows' ≡ₚ (r, row) :: rows ∧ indexed tm rows' Ms' ∧
    (∀ j, mm_used (Ms' j) = if decide (j < length cols)%nat then PackRIDtoUint32 r :: mm_used (Ms j) else mm_used (Ms j)) ∧
    ∃ e1, insert_logged c new r (MkTuple None (zlen bs) bs) e e1 ∧
      etxn e' = AddIntoWriteSet (NewWriteRecord r WINSERT ZeroTuple (firstPageId (table tm))) (etxn e1) ∧
      elocks e' = elocks e1 ∧ elogging e' = elogging e1.
Proof.
  intros HT HH HX Hok HB H0 Hfit Hnew HRn Hfu HI HG HRm.
  destruct (row_tuple cols row Hok) as (t & Et & Hr & Hsz & _). destruct HB as (t' & Et' & <-).
  assert (t' = t) as -> by congruence. destruct t as [rid0 sz d]. cbn in Hr, Hsz. subst rid0 sz. cbn [data] in *.
  subst new. pose proof HT as [S HF HS _ HHp _ _ _].
  assert (Htok : tuple_ok (MkTuple None (zlen d) d)) by done.
  destruct (InsertTuple_run e n P pins (table tm) c (MkTuple None (zlen d) d) fuel c' r S HHp HF Htok H0 Hfit HRn Hfu HI HG)
    as (e1 & e2 & P2 & E2 & He2 & S2 & HH2 & HO & HLg).
  pose proof (table_on_inserted e e2 n P P2 pins tm cols c c' blocks Ms _ d r HT HI eq_refl S2 HH2 HO) as HT2.
  destruct (holds_rows_insert cols c c' r _ d rows row HI HH Hok) as (rows' & HH' & HP); [by eexists|].
  destruct (each_enter_run e2 n P2 pins tm cols c' blocks Ms row d r fuel HT2 Hok) as (P3 & e3 & E3 & HT3 & (Ht3 & Hl3 & Hg3 & _));
    [by eexists|done|].
  exists e3, P3, rows', (changed (length cols) (added_all r row) Ms). split; [|split; [done|split; [done|split; [done|split; [|split]]]]].
  - cbn [insert_rows]. rewrite HS. rewrite (st_bind_run _ _ _ _ _ (st_lift_run _ _ e Et)). rewrite (st_bind_run _ _ _ _ _ E2).
    cbn [fst snd SetRID size data]. change (MkTuple (Some r) (zlen d) d) with (stored_tuple r d). by rewrite (st_bind_run _ _ _ _ _ E3).
  - intros j ix Hj. pose proof (index_column _ _ _ _ _ _ _ _ _ _ _ HT Hj) as Hjc. unfold changed.
    rewrite decide_True by done. destruct (row_key cols row d r j Hok ltac:(by eexists) Hjc) as (_ & _ & _ & HK).
    eapply index_of_add; [exact HK|exact HP|by eapply HX].
  - intros j. unfold changed. by case_decide.
  - exists e1. split; [done|]. by rewrite Ht3, Hl3, Hg3, He2.
Qed.
End tables.
