(* ===== verification/ScanActions.v ===== *)
(** * Scans that change what they select ([execution/executors/delete_executor.go],
    [update_executor.go])

    DELETE and UPDATE scan a table and act on each record their predicate selects before
    the iterator goes on.  Here the scan, for any action that changes the record it is at
    and nothing else of the table: every record is met once, in order, and ends as it was
    or as the action leaves it. *)

From S2P Require Import Prelude Bytes Types Tuples Disk LogRecord LogManager Replacer ClockReplacer Page BufferPool LockManager PoolView TablePage RecordLocks Engine TableHeap TableScan HashPage Probe HashTable HashIndex Expressions Plans Catalog TmpTuples Executors Ordering Grouping Rows Operators IndexScan IndexedTables.

(** ** Entries of a table with one record changed *)
Lemma page_entries_app q l1 : ∀ k l2, page_entries q k (l1 ++ l2) = page_entries q k l1 ++ page_entries q (k + Z.of_nat (length l1)) l2.
Proof.
  induction l1 as [|[x|] l1 IH]; intros k l2.
  - by rewrite Z.add_0_r.
  - cbn [app page_entries length]. rewrite IH. cbn [app]. by replace (k + 1 + Z.of_nat (length l1)) with (k + Z.of_nat (S (length l1))) by lia.
  - cbn [app page_entries length]. rewrite IH. by replace (k + 1 + Z.of_nat (length l1)) with (k + Z.of_nat (S (length l1))) by lia.
Qed.
Lemma heap_entries_app c1 c2 : heap_entries (c1 ++ c2) = heap_entries c1 ++ heap_entries c2.
Proof. induction c1 as [|[q ls] c1 IH]; [done|]. cbn. by rewrite IH, app_assoc. Qed.

Lemma at_entry_split c : ∀ l1 r x l, heap_entries c = l1 ++ (r, x) :: l → at_entry c r x l.
Proof.
  intros l1. induction l1 as [|[r1 x1] l1 IH] using rev_ind; intros r x l HE; [by apply at_entry_head|].
  rewrite <- app_assoc in HE. eapply at_entry_next, IH, HE.
Qed.

(** The entry the slot stands for, before and after. *)
Lemma page_entries_at q ls k x y : ls !! k = Some (Some x) →
  page_entries q 0 (<[k := y]> ls) =
    page_entries q 0 (take k ls) ++ (match y with Some y => [(MkRID q (Z.of_nat k), y)] | None => [] end) ++
      page_entries q (Z.of_nat k + 1) (drop (S k) ls).
Proof.
  intros Hk. pose proof (lookup_lt_Some _ _ _ Hk) as Hlt. rewrite insert_take_drop by done.
  rewrite page_entries_app, length_take_le by lia. rewrite Z.add_0_l. by destruct y.
Qed.
Lemma at_entry_set c r x l y : NoDup c.*1 → at_entry c r x l →
  ∃ l1, heap_entries c = l1 ++ (r, x) :: l ∧
    heap_entries (set_slot r y c) = l1 ++ (match y with Some y => [(r, y)] | None => [] end) ++ l.
Proof.
  intros ND (c1 & ls & c2 & -> & H0 & Hx & ->).
  exists (heap_entries c1 ++ page_entries (PageId r) 0 (take (Z.to_nat (SlotNum r)) ls)).
  assert (HR : MkRID (PageId r) (Z.of_nat (Z.to_nat (SlotNum r))) = r) by (destruct r; cbn in *; f_equal; lia).
  rewrite (set_slot_insert _ (length c1) r ls y ND) by (by rewrite list_lookup_middle).
  rewrite insert_app_r_alt, Nat.sub_diag by lia. cbn [base.insert list_insert].
  replace (Z.to_nat (SlotNum r + 1)) with (S (Z.to_nat (SlotNum r))) by lia.
  replace (SlotNum r + 1) with (Z.of_nat (Z.to_nat (SlotNum r)) + 1) by lia.
  split.
  - rewrite heap_entries_app. cbn [heap_entries]. rewrite <- (list_insert_id ls _ _ Hx) at 1.
    rewrite (page_entries_at _ _ _ x (Some x) Hx), HR, <- !app_assoc. done.
  - rewrite heap_entries_app. cbn [heap_entries]. rewrite (page_entries_at _ _ _ x y Hx), HR, <- !app_assoc. done.
Qed.

Lemma page_entries_rid q ls : ∀ k r, r ∈ (page_entries q k ls).*1 → PageId r = q ∧ k ≤ SlotNum r.
Proof.
  induction ls as [|[x|] ls IH]; intros k r; cbn [page_entries fmap list_fmap fst]; [by intros ?%elem_of_nil| |].
  - intros [->|Hr]%elem_of_cons; [cbn; lia|]. destruct (IH _ _ Hr). lia.
  - intros Hr. destruct (IH _ _ Hr). lia.
Qed.
Lemma heap_entries_nodup c : NoDup c.*1 → NoDup (heap_entries c).*1.
Proof.
  assert (HP : ∀ q ls k, NoDup (page_entries q k ls).*1).
  { intros q ls. induction ls as [|[x|] ls IH]; intros k; cbn [page_entries fmap list_fmap fst]; [constructor| |done].
    constructor; [|done]. intros Hin%page_entries_rid. cbn in Hin. lia. }
  assert (HI : ∀ c r, r ∈ (heap_entries c).*1 → PageId r ∈ c.*1).
  { clear c. induction c as [|[q ls] c IH]; intros r; cbn [heap_entries fmap list_fmap fst]; [by intros ?%elem_of_nil|]. rewrite fmap_app.
    intros [[Hq _]%page_entries_rid|Hr]%elem_of_app; [rewrite Hq; by left|right; by apply IH]. }
  induction c as [|[q ls] c IH]; [constructor|]. cbn [heap_entries fmap list_fmap fst]. intros [Hq ND]%NoDup_cons.
  rewrite fmap_app. apply NoDup_app. split; [done|]. split; [|by apply IH].
  intros r [Hr _]%page_entries_rid Hin%HI. rewrite Hr in Hin. done.
Qed.

(** A record taken out of the table. *)
Lemma heap_entries_drop c r : NoDup c.*1 → r ∈ (heap_entries c).*1 →
  heap_entries (set_slot r None c) = filter (λ x : entry, fst x ≠ r) (heap_entries c).
Proof.
  intros ND ([r' x] & -> & Hin)%list_elem_of_fmap. cbn in *. apply list_elem_of_split in Hin as (l1 & l2 & HE).
  pose proof (at_entry_split _ _ _ _ _ HE) as HA. destruct (at_entry_set c r' x l2 None ND HA) as (l1' & HE1 & ->).
  rewrite HE in HE1. apply app_inv_tail in HE1 as <-. pose proof (heap_entries_nodup c ND) as NE. rewrite HE in NE |- *.
  rewrite fmap_app in NE. cbn in NE. apply NoDup_app in NE as (_ & N1 & [N2 _]%NoDup_cons).
  assert (HF : ∀ l : list entry, r' ∉ l.*1 → filter (λ x : entry, fst x ≠ r') l = l).
  { intros l. induction l as [|y l IH]; [done|]. rewrite fmap_cons. intros [Hy Hl]%not_elem_of_cons.
    rewrite filter_cons_True by congruence. by rewrite IH. }
  rewrite filter_app, filter_cons_False by (cbn; by intros []). cbn [app]. rewrite !HF; [done|done|].
  intros Hin. apply (N1 r' Hin). by left.
Qed.

(** ** The rows a predicate selects *)
Definition chosen (pr : option Expression) (l : list Located) : list Located := filter (λ x : Located, truth pr (snd x) = true) l.
Definition spared (pr : option Expression) (l : list Located) : list Located := filter (λ x : Located, truth pr (snd x) = false) l.

Lemma chosen_app pr l1 l2 : chosen pr (l1 ++ l2) = chosen pr l1 ++ chosen pr l2.
Proof. apply filter_app. Qed.
Lemma spared_app pr l1 l2 : spared pr (l1 ++ l2) = spared pr l1 ++ spared pr l2.
Proof. apply filter_app. Qed.
Lemma chosen_one pr x : chosen pr [x] = if truth pr (snd x) then [x] else [].
Proof. unfold chosen. destruct (truth pr (snd x)) eqn:E; [by rewrite filter_cons_True|by rewrite filter_cons_False by congruence]. Qed.
Lemma spared_one pr x : spared pr [x] = if truth pr (snd x) then [] else [x].
Proof. unfold spared. destruct (truth pr (snd x)) eqn:E; [by rewrite filter_cons_False by congruence|by rewrite filter_cons_True]. Qed.
Lemma chosen_sublist pr l : chosen pr l `sublist_of` l.
Proof. apply sublist_filter. Qed.
Lemma spared_sublist pr l : spared pr l `sublist_of` l.
Proof. apply sublist_filter. Qed.

Lemma holds_rids cols c rows : holds_rows cols c rows → (heap_entries c).*1 = rows.*1.
Proof. unfold holds_rows. induction 1 as [|x y l k (Hr & _) _ IH]; [done|]. by rewrite !fmap_cons, Hr, IH. Qed.
Lemma holds_nodup P t cols c rows : heap_rep P t c → holds_rows cols c rows → NoDup rows.*1.
Proof. intros HH HR. rewrite <- (holds_rids cols c rows HR). apply heap_entries_nodup, (hr_nodup _ _ _ HH). Qed.

Section actions.
Variable murmur3 : list byte → list byte.
Context {R : Type} `{Replacer R} `{SliceSort} `{MapRange}.
Implicit Types (e : Engine R).

(** ** The table under a change of its own pages *)
Lemma table_on_changed e e' n P P' pins tm cols c c' blocks Ms :
  table_on e n P pins tm cols c blocks Ms → shows (estore e') n (quiet P' pins) → heap_rep P' (table tm) c' → c'.*1 = c.*1 →
  (∀ i, i ∉ c.*1 → P' !! i = P !! i) → table_on e' n P' pins tm cols c' blocks Ms.
Proof.
  intros [S HF HS HL HH HIx HAp HDi] S' HH' HC HO. split; try done.
  - intros j ix Hj. eapply index_on_keep; [|by apply HIx]. intros q Hq. apply HO. by eapply HAp.
  - rewrite HC. exact HAp.
Qed.
Lemma table_on_read e e' n P pins tm cols c blocks Ms :
  table_on e n P pins tm cols c blocks Ms → shows (estore e') n (quiet P pins) → table_on e' n P pins tm cols c blocks Ms.
Proof. intros HT S'. eapply table_on_changed; [exact HT|done|apply HT|done|done]. Qed.

(** The iterator goes on from the RID of its tuple. *)
Lemma Next_rid fuel (t : TableHeap) r bs bs' :
  TableScan.Next (R := R) fuel (MkIterator t (Some (stored_tuple r bs))) = TableScan.Next fuel (MkIterator t (Some (stored_tuple r bs'))).
Proof. done. Qed.

(** ** The transaction *)

(** One write: its record is locked and noted in the write set; the other locks stay. *)
Record write_step (note : WriteRecord) e e' : Prop := {
  ws_id : txn_id (etxn e') = txn_id (etxn e);
  ws_state : txn_state (etxn e') = txn_state (etxn e);
  ws_logging : elogging e' = elogging e;
  ws_writes : write_set (etxn e') = write_set (etxn e) ++ [note];
  ws_unowned : ∀ r, TableScan.readable r e → TableScan.readable r e';
  ws_others : ∀ r, r ≠ wrid note → (locked_own r (etxn e) → locked_own r (etxn e')) ∧
    (writable r (etxn e) (elocks e) → writable r (etxn e') (elocks e'));
  ws_own : elogging e = true → locked_own (wrid note) (etxn e')
}.

(** The lock to write can be had, where locks are taken at all. *)
Definition may_write (r : RID) e : Prop := elogging e = true → writable r (etxn e) (elocks e).

Lemma may_write_ready r mk e : may_write r e → (∀ i l, appendable (mk i l)) →
  ready (write_lock r) mk (etxn e) (elocks e) (elogging e).
Proof.
  intros HW HA HL. destruct (HW HL) as (t' & lm' & E & _). exists t', lm'. destruct (write_lock_txn _ _ _ _ _ _ E) as (H1' & H2' & _).
  by repeat (split; [done|]).
Qed.

Lemma logged_write note mk e e1 : may_write (wrid note) e → logged (write_lock (wrid note)) mk e e1 →
  write_step note e (set_txn (AddIntoWriteSet note (etxn e1)) e1).
Proof.
  intros HW [HE HL]. destruct (elogging e) eqn:EL.
  - destruct HL as (t' & lm' & E & Hlm & Ht & _). destruct (HW EL) as (t'' & lm'' & E' & HO).
    rewrite E in E'. injection E' as <- <-. destruct (write_lock_txn _ _ _ _ _ _ E) as (H1' & _ & H3' & H4').
    split; cbn; rewrite ?Ht, ?Hlm; cbn; try congruence.
    + intros r' HR. unfold TableScan.readable. cbn. rewrite Hlm. apply (write_lock_keeps _ _ _ _ _ r' E). exact HR.
    + intros r' Hne. destruct (write_lock_keeps _ _ _ _ _ r' E) as [_ K]. destruct (K Hne) as [K1 K2].
      split; [intros Ho; by eapply locked_own_same, K1|intros Hw; by eapply writable_same, K2].
    + intros _. by eapply locked_own_same, HO.
  - destruct HL as (Ht & Hlm & _). split; cbn; rewrite ?Ht, ?Hlm; cbn; try congruence.
    + unfold TableScan.readable. cbn. by rewrite Hlm.
    + intros r' _. split; [by apply locked_own_same|by apply writable_same].
Qed.

Lemma write_step_store note e e1 e2 : write_step note e e1 → store_step e1 e2 → write_step note e e2.
Proof.
  intros [W1 W2 W3 W4 W5 W6 W7] (Ht & Hl & Hg & _). split; rewrite ?Ht, ?Hl, ?Hg; try done.
  intros r' HR. unfold TableScan.readable. rewrite Ht, Hl. by apply W5.
Qed.

(** Since [e0], the writes [notes] have been made. *)
Record wrote (notes : list WriteRecord) e0 e : Prop := {
  wr_id : txn_id (etxn e) = txn_id (etxn e0);
  wr_state : txn_state (etxn e) = txn_state (etxn e0);
  wr_logging : elogging e = elogging e0;
  wr_writes : write_set (etxn e) = write_set (etxn e0) ++ notes;
  wr_unowned : ∀ r, TableScan.readable r e0 → TableScan.readable r e;
  wr_own : elogging e0 = true → ∀ r, r ∈ (wrid <$> notes) → locked_own r (etxn e);
  wr_others : ∀ r, r ∉ (wrid <$> notes) → (locked_own r (etxn e0) → locked_own r (etxn e)) ∧ (may_write r e0 → may_write r e)
}.

Lemma wrote_nothing e0 : wrote [] e0 e0.
Proof. split; try done; [by rewrite app_nil_r|]. intros _ r Hr. by apply elem_of_nil in Hr. Qed.
Lemma wrote_read notes e0 e e' : wrote notes e0 e → read_step e e' → txn_state (etxn e') = txn_state (etxn e) → wrote notes e0 e'.
Proof.
  intros [G1 Gs G2 G3 G4 G5 G6] RS HS. pose proof RS as [H1' H2' _ _ H5' _ _ H8' H9']. split; try congruence.
  - intros r Hr. eapply readable_step; [exact RS|by apply G4].
  - eauto.
  - intros r Hr. destruct (G6 r Hr) as [K1 K2]. split; [by eauto|]. intros Hw. specialize (K2 Hw). unfold may_write in *.
    rewrite H5'. eauto.
Qed.
Lemma wrote_more notes note e0 e e' : wrid note ∉ (wrid <$> notes) → wrote notes e0 e → write_step note e e' → wrote (notes ++ [note]) e0 e'.
Proof.
  intros Hnew [G1 Gs G2 G3 G4 G5 G6] [D1 Ds D2 D3 D4 D5 D6]. split; try congruence.
  - by rewrite D3, G3, app_assoc.
  - eauto.
  - intros HL r'. rewrite fmap_app. intros [Hr|Hr]%elem_of_app; [apply D5; [congruence|by apply G5]|].
    apply list_elem_of_singleton in Hr as ->. apply D6. congruence.
  - intros r'. rewrite fmap_app. intros [Hr Hne]%not_elem_of_app. cbn in Hne. rewrite list_elem_of_singleton in Hne.
    destruct (G6 r' Hr) as [K1 K2]. destruct (D5 r' Hne) as [K3 K4].
    split; [by eauto|]. intros Hw. specialize (K2 Hw). unfold may_write in *. rewrite D2. eauto.
Qed.

(** ** The scan *)
Section loop.
Variables (e0 : Engine R) (n : nat) (pins : gmap Z Z) (fuel : nat) (tm : TableMetadata) (cols : list Column).
Variables (c : list (Z * slots)) (blocks : nat → list Z) (rows : list Located) (pr : option Expression).
Hypothesis Htyped : typed (columnType <$> cols) pr.
Hypothesis Hreadable : Forall (λ x : Located, TableScan.readable (fst x) e0) rows.
Hypothesis Hwrite : Forall (λ x : Located, may_write (fst x) e0) rows.
Hypothesis Hdistinct : NoDup rows.*1.
Hypothesis Hpages : (length c ≤ fuel)%nat.
Hypothesis Hturns : (length rows < fuel)%nat.

(** The action, what it answers for a row, what the record is then, the write it notes,
    and what it keeps true of the indexes, given the rows passed and those to come. *)
Variable act : Tuple → st (Engine R) Result.
Variable answers : Tuple → Located → Prop.
Variable becomes : bool * list byte → Located → Prop.
Variable note : Located → WriteRecord.
Variable Inv : list Located → list Located → (nat → Multimap) → Prop.
Hypothesis Hnote : ∀ x, wrid (note x) = fst x.
Hypothesis Hact : ∀ passed r row rest bs l e P c' Ms,
  table_on e n P pins tm cols c' blocks Ms → at_entry c' r (false, bs) l → row_ok cols row → bytes_of cols row bs →
  rows = passed ++ (r, row) :: rest → truth pr row = true → txn_state (etxn e) = txn_state (etxn e0) → may_write r e →
  Inv passed ((r, row) :: rest) Ms →
  ∃ t x e' P' Ms', act (stored_tuple r bs) e = Ok (got t, e') ∧ answers t (r, row) ∧ becomes x (r, row) ∧
    table_on e' n P' pins tm cols (set_slot r (Some x) c') blocks Ms' ∧ Inv (passed ++ [(r, row)]) rest Ms' ∧
    write_step (note (r, row)) e e'.
Hypothesis Hskip : ∀ passed x rest Ms, rows = passed ++ x :: rest → truth pr (snd x) = false → Inv passed (x :: rest) Ms → Inv (passed ++ [x]) rest Ms.

(** A record that the scan has passed. *)
Definition passed_record (x : entry) (y : Located) : Prop :=
  if truth pr (snd y) then fst x = fst y ∧ becomes (snd x) y else holds_record cols x y.

(** The engine when the scan has passed the rows [passed] and the iterator is at the
    entries [l] of [rest]. *)
Definition scanning (passed : list Located) (l : list entry) (rest : list Located) e : Prop :=
  ∃ dn P c' Ms, table_on e n P pins tm cols c' blocks Ms ∧ c'.*1 = c.*1 ∧ heap_entries c' = dn ++ l ∧
    Forall2 passed_record dn passed ∧ Forall2 (holds_record cols) l rest ∧ Inv passed rest Ms ∧
    wrote (note <$> chosen pr passed) e0 e ∧ rows = passed ++ rest.

Lemma note_rids l : wrid <$> (note <$> l) = l.*1.
Proof. rewrite <- list_fmap_compose. apply list_fmap_ext. intros i x _. apply Hnote. Qed.

Lemma chosen_passed passed r row rest : rows = passed ++ (r, row) :: rest → r ∉ (wrid <$> (note <$> chosen pr passed)).
Proof.
  rewrite note_rids. intros HR Hin. rewrite HR, fmap_app in Hdistinct. apply NoDup_app in Hdistinct as (_ & ND & _).
  apply (ND r); [|by left]. eapply elem_of_sublist; [exact Hin|]. by apply fmap_sublist, chosen_sublist.
Qed.

(** Going on from a record that has been seen to. *)
Lemma move_on passed rest e P c' Ms dn r b bs l : table_on e n P pins tm cols c' blocks Ms → c'.*1 = c.*1 → heap_entries c' = dn ++ (r, (b, bs)) :: l →
  rows = passed ++ rest → Forall2 (holds_record cols) l rest → wrote (note <$> chosen pr passed) e0 e →
  ∃ e', TableScan.Next fuel (MkIterator (table tm) (Some (stored_tuple r bs))) e = Ok (MkIterator (table tm) (shown l), e') ∧
    table_on e' n P pins tm cols c' blocks Ms ∧ wrote (note <$> chosen pr passed) e0 e'.
Proof.
  intros HT HC HE HR HF HG.
  destruct (Next_run e n ∅ P pins (table tm) c' r b bs l fuel (to_shows _ _ _ _ _ _ _ _ _ HT) (to_heap _ _ _ _ _ _ _ _ _ HT))
    as (e' & E & S' & RS & Hst & _); [by eapply at_entry_split|apply HT| | |apply clean_nothing|].
  - intros r' x l' ->. apply Forall2_cons_inv_l in HF as (y & rest' & (Hr & _) & _ & ->). cbn in Hr. subst r'.
    apply (wr_unowned _ _ _ HG). rewrite HR in Hreadable. apply Forall_app in Hreadable as [_ HF]. by apply Forall_cons in HF as [HF _].
  - pose proof (f_equal length HC) as HL. rewrite !length_fmap in HL. lia.
  - exists e'. split; [done|]. split; [by eapply table_on_read|]. eapply wrote_read; [exact HG|exact RS|].
    rewrite Hst. destruct HF as [|x y l rest (_ & _ & bs' & Hx & _) _]; [done|]. destruct x as [r' x]. cbn in Hx. by subst x.
Qed.

Lemma row_truth e P c' Ms row r bs : table_on e n P pins tm cols c' blocks Ms → row_ok cols row → bytes_of cols row bs →
  selects tm pr (stored_tuple r bs) = Ok (truth pr row).
Proof.
  intros HT Hok HB. pose proof (to_schema _ _ _ _ _ _ _ _ _ HT) as HS.
  rewrite (selects_row tm cols pr _ row HS); [|by apply bytes_holds]. by apply (typed_passes cols).
Qed.

(** A record that is not selected. *)
Lemma skip_run passed r bs row l rest e :
  scanning passed ((r, (false, bs)) :: l) ((r, row) :: rest) e → truth pr row = false →
  ∃ e', TableScan.Next fuel (MkIterator (table tm) (Some (stored_tuple r bs))) e = Ok (MkIterator (table tm) (shown l), e') ∧
    scanning (passed ++ [(r, row)]) l rest e'.
Proof.
  intros (dn & P & c' & Ms & HT & HC & HE & HDn & HL & HX & HG & HR) Ht. apply Forall2_cons in HL as [Hrec HL].
  assert (HR' : rows = (passed ++ [(r, row)]) ++ rest) by (by rewrite <- app_assoc).
  assert (HCh : chosen pr (passed ++ [(r, row)]) = chosen pr passed) by (rewrite chosen_app, chosen_one; cbn [snd]; by rewrite Ht, app_nil_r).
  rewrite <- HCh in HG. destruct (move_on _ _ e P c' Ms dn r false bs l HT HC HE HR' HL HG) as (e' & E & HT' & HG').
  exists e'. split; [exact E|]. exists (dn ++ [(r, (false, bs))]), P, c', Ms. split; [done|]. split; [done|]. split; [by rewrite <- app_assoc|].
  split; [apply Forall2_app; [done|constructor; [|done]]; unfold passed_record; cbn [snd]; by rewrite Ht|].
  split; [done|]. split; [by apply Hskip|done].
Qed.

(** A record that is. *)
Lemma take_run passed r bs row l rest e :
  scanning passed ((r, (false, bs)) :: l) ((r, row) :: rest) e → truth pr row = true →
  ∃ t e1 e', act (stored_tuple r bs) e = Ok (got t, e1) ∧ answers t (r, row) ∧
    TableScan.Next fuel (MkIterator (table tm) (Some (stored_tuple r bs))) e1 = Ok (MkIterator (table tm) (shown l), e') ∧
    scanning (passed ++ [(r, row)]) l rest e'.
Proof.
  intros (dn & P & c' & Ms & HT & HC & HE & HDn & HL & HX & HG & HR) Ht. apply Forall2_cons in HL as [(_ & Hok & bs' & Hbs & HB) HL].
  injection Hbs as <-. assert (HR' : rows = (passed ++ [(r, row)]) ++ rest) by (by rewrite <- app_assoc).
  assert (HCh : chosen pr (passed ++ [(r, row)]) = chosen pr passed ++ [(r, row)]) by (rewrite chosen_app, chosen_one; cbn [snd]; by rewrite Ht).
  pose proof (chosen_passed passed r row rest HR) as Hnew. pose proof (at_entry_split _ _ _ _ _ HE) as HA.
  destruct (Hact passed r row rest bs l e P c' Ms HT HA Hok HB HR Ht (wr_state _ _ _ HG)) as (t & x & e1 & P1 & Ms1 & E1 & Hans & Hx & HT1 & HX1 & HD); [|done|].
  { apply (wr_others _ _ _ HG r Hnew). rewrite HR in Hwrite. apply Forall_app in Hwrite as [_ HF]. by apply Forall_cons in HF as [HF _]. }
  destruct (at_entry_set c' r (false, bs) l (Some x) (hr_nodup _ _ _ (to_heap _ _ _ _ _ _ _ _ _ HT)) HA) as (l1 & HE1 & HE2).
  rewrite HE in HE1. apply app_inv_tail in HE1 as <-.
  assert (HG1 : wrote (note <$> chosen pr (passed ++ [(r, row)])) e0 e1)
    by (rewrite HCh, fmap_app; eapply wrote_more; [by rewrite Hnote|exact HG|exact HD]).
  destruct x as [b bs2]. 
  assert (HNx : ∃ e', TableScan.Next fuel (MkIterator (table tm) (Some (stored_tuple r bs))) e1 = Ok (MkIterator (table tm) (shown l), e') ∧
    table_on e' n P1 pins tm cols (set_slot r (Some (b, bs2)) c') blocks Ms1 ∧ wrote (note <$> chosen pr (passed ++ [(r, row)])) e0 e').
  { rewrite (Next_rid fuel (table tm) r bs bs2). by eapply (move_on _ rest e1 P1 _ Ms1 dn r b bs2 l HT1); [by rewrite set_slot_ids|exact HE2| | |]. }
  destruct HNx as (e' & E & HT' & HG').
  exists t, e1, e'. split; [exact E1|]. split; [done|]. split; [exact E|]. exists (dn ++ [(r, (b, bs2))]), P1, (set_slot r (Some (b, bs2)) c'), Ms1.
  split; [done|]. split; [by rewrite set_slot_ids|]. split; [by rewrite HE2, <- app_assoc|].
  split; [apply Forall2_app; [done|constructor; [|done]]; unfold passed_record; cbn [snd]; by rewrite Ht|]. done.
Qed.

(** To the next record that is selected. *)
Lemma skips_run : ∀ rest passed l e turns, scanning passed l rest e → (length rest ≤ turns)%nat →
  ∃ r1 r2 l2 e', rest = r1 ++ r2 ∧ chosen pr r1 = [] ∧ scanning (passed ++ r1) l2 r2 e' ∧
    scan_to turns fuel (selects tm pr) (MkIterator (table tm) (shown l)) e = Ok (MkIterator (table tm) (shown l2), e') ∧
    match r2 with [] => l2 = [] | x :: _ => truth pr (snd x) = true ∧ ∃ bs l3, l2 = (fst x, (false, bs)) :: l3 end.
Proof.
  induction rest as [|[r row] rest IH]; intros passed l e turns HD Ht; pose proof HD as (dn & P & c' & Ms & HT & _ & _ & _ & HL & _).
  - apply Forall2_nil_inv_r in HL as ->. exists [], [], [], e. rewrite !app_nil_r. do 3 (split; [done|]). split; [by destruct turns|done].
  - apply Forall2_cons_inv_r in HL as ([r' x] & l' & (Hr & Hok & bs & Hx & HB) & HL & ->). cbn in Hr, Hok, Hx, HB. subst r' x.
    assert (E1 : st_lift (S := Engine R) (selects tm pr (stored_tuple r bs)) e = Ok (truth pr row, e))
      by (unfold st_lift; by rewrite (row_truth _ _ _ _ _ _ _ HT Hok HB)).
    destruct (truth pr row) eqn:Et.
    + exists [], ((r, row) :: rest), ((r, (false, bs)) :: l'), e. rewrite app_nil_r. do 3 (split; [done|]). split; [|by eauto].
      destruct turns; cbn [scan_to Current tuple shown]; by rewrite (st_bind_run _ _ _ _ _ E1).
    + destruct turns as [|turns]; [cbn in Ht; lia|]. destruct (skip_run _ _ _ _ _ _ _ HD Et) as (e1 & En & HD1).
      destruct (IH _ _ _ turns HD1 ltac:(cbn in Ht; lia)) as (r1 & r2 & l2 & e2 & -> & HCh & HD2 & E2 & HM).
      exists ((r, row) :: r1), r2, l2, e2. split; [done|]. split; [unfold chosen; by rewrite filter_cons_False by (cbn; congruence)|].
      split; [by rewrite <- app_assoc in HD2|]. split; [|done].
      cbn [scan_to Current tuple shown]. rewrite (st_bind_run _ _ _ _ _ E1). by rewrite (st_bind_run _ _ _ _ _ En).
Qed.

(** The executor, given that its [Next] is the step of the scan. *)
Variables (mk : option TableHeapIterator → Executor) (depth : nat).
Hypothesis Hnext : ∀ it, Next murmur3 depth fuel (mk it) = (r ← scan_step fuel (Some tm) it pr (λ _, act); mret (mk (fst r), snd r)).

Lemma actions_run : ∀ turns rest passed l e, scanning passed l rest e → (length (chosen pr rest) < turns)%nat →
  ∃ ts e', run_executor murmur3 turns depth fuel (mk (Some (MkIterator (table tm) (shown l)))) e = Ok (ts, e') ∧
    Forall2 answers ts (chosen pr rest) ∧ scanning (passed ++ rest) [] [] e'.
Proof.
  induction turns as [|turns IH]; intros rest passed l e HD Ht; [lia|].
  assert (Hl : (length rest ≤ fuel)%nat).
  { destruct HD as (_ & _ & _ & _ & _ & _ & _ & _ & _ & _ & _ & HR). pose proof (f_equal length HR) as HL. rewrite length_app in HL. lia. }
  destruct (skips_run rest passed l e fuel HD Hl) as (r1 & r2 & l2 & e1 & -> & HCh & HD1 & E1 & HM).
  cbn [run_executor]. rewrite Hnext. unfold scan_step. rewrite chosen_app, HCh in Ht |- *. cbn [app] in Ht |- *. destruct r2 as [|[r row] r2].
  - subst l2. exists [], e1. rewrite app_nil_r. split; [|done].
    unfold mbind, st_mbind. cbn [st_lift deref]. by rewrite E1.
  - destruct HM as (Htr & bs & l3 & ->). cbn [fst snd] in *.
    destruct (take_run _ _ _ _ _ _ _ HD1 Htr) as (t & e2 & e3 & E2 & Hans & E3 & HD2).
    change ((r, row) :: r2) with ([(r, row)] ++ r2) in Ht |- * at 1. rewrite chosen_app, chosen_one in Ht |- *. cbn [snd] in Ht |- *. rewrite Htr in Ht |- *.
    destruct (IH _ _ _ _ HD2 ltac:(cbn in Ht; lia)) as (ts & e4 & E4 & HF & HD4).
    exists (t :: ts), e4. split; [|split; [by constructor|by rewrite <- !app_assoc in HD4]].
    unfold mbind, st_mbind. cbn [st_lift deref]. rewrite E1. cbn [shown Current tuple]. rewrite E2, E3.
    cbn [fst snd got res_err res_done res_tuple orb mret st_mret]. by rewrite E4.
Qed.

Lemma scan_start P Ms : table_on e0 n P pins tm cols c blocks Ms → holds_rows cols c rows → Inv [] rows Ms →
  ∃ e1, start_scan fuel (Some tm) e0 = Ok (Some (MkIterator (table tm) (shown (heap_entries c))), e1) ∧ scanning [] (heap_entries c) rows e1.
Proof.
  intros HT HH HX.
  assert (HRd' : Forall (λ x : entry, TableScan.readable (fst x) e0) (heap_entries c)).
  { apply (Forall_fmap fst (λ r, TableScan.readable r e0)). rewrite (holds_rids cols c rows HH). by apply Forall_fmap. }
  pose proof HT as [S HF _ _ HHp _ _ _].
  destruct (start_run e0 n ∅ P pins (table tm) c fuel S HHp HF HRd' Hpages (clean_nothing c)) as (e1 & E1 & S1 & RS & Hst).
  exists e1. split.
  - unfold start_scan, mbind, st_mbind. cbn [st_lift deref]. by rewrite E1.
  - exists [], P, c, Ms. split; [by eapply table_on_read|]. do 2 (split; [done|]). split; [constructor|]. split; [exact HH|]. split; [done|]. split; [|done].
    eapply wrote_read; [apply wrote_nothing|exact RS|]. rewrite Hst.
    destruct HH as [|x y l rest (_ & _ & bs' & Hx & _) _]; [done|]. destruct x as [r' x]. cbn in Hx. by subst x.
Qed.

Lemma scan_actions_run P Ms x0 : table_on e0 n P pins tm cols c blocks Ms → holds_rows cols c rows → Inv [] rows Ms →
  (Init murmur3 depth fuel x0 = (it ← start_scan fuel (Some tm); mret (mk it))) →
  ∃ ts e' P' c' Ms', (x ← Init murmur3 depth fuel x0; run_executor murmur3 fuel depth fuel x) e0 = Ok (ts, e') ∧
    Forall2 answers ts (chosen pr rows) ∧ table_on e' n P' pins tm cols c' blocks Ms' ∧ c'.*1 = c.*1 ∧
    Forall2 passed_record (heap_entries c') rows ∧ Inv rows [] Ms' ∧ wrote (note <$> chosen pr rows) e0 e'.
Proof.
  intros HT HH HX HI. destruct (scan_start P Ms HT HH HX) as (e1 & E1 & HD).
  destruct (actions_run fuel rows [] (heap_entries c) e1 HD) as (ts & e2 & E2 & Hts & (dn & P' & c' & Ms' & HT' & HC & HE & HDn & _ & HX' & HG & _)).
  { pose proof (sublist_length _ _ (chosen_sublist pr rows)). lia. }
  rewrite app_nil_r in HE. cbn [app] in HDn, HX', HG. subst dn. exists ts, e2, P', c', Ms'. split; [|by repeat (split; [done|])].
  rewrite HI. unfold mbind, st_mbind. rewrite E1. exact E2.
Qed.
End loop.
End actions.
