(* ===== verification/ExampleDatabase.v ===== *)
(** * A database to look at

    A pool of two frames, a table with an integer and a string column, a hash index
    of one block on the first, two rows inserted by the transaction 7, which logs. *)

From Stdlib Require Import Strings.String.
From S2P Require Import Prelude Bytes Types Tuples Disk LogRecord LogManager Replacer ClockReplacer Page BufferPool LockManager PoolView TablePage Engine TableHeap TableScan HashPage Probe HashTable HashIndex Expressions Plans Catalog TmpTuples Executors Rows Operators IndexScan IndexedTables.

Definition db_columns : list Column := [NewColumn (text "a") Integer true; NewColumn (text "b") Varchar false].
Definition db_schema : Schema := NewSchema db_columns.
Definition db_index : IndexHandle := MkIndexHandle 1 (NewIndexMetadata (text "a_index") (text "t") db_schema [0]) 0.
Definition db_table : TableMetadata := MkTableMetadata db_schema (text "t") table_0 [Some db_index; None] 0.
Definition db_catalog : Catalog := MkCatalog {[0 := db_table]} {[text "t" := db_table]} 1 table_0.

Definition db_row1 : list Value := [NewInteger 5; NewVarchar (text "x")].
Definition db_row2 : list Value := [NewInteger 3; NewVarchar (text "y")].
Definition db_bytes (row : list Value) : list byte :=
  match NewTupleFromSchema row db_schema with Ok t => data t | _ => [] end.
Definition db_c1 : list (Z * slots) := [(0, [Some (false, db_bytes db_row1)])].
Definition db_c2 : list (Z * slots) := [(0, [Some (false, db_bytes db_row1); Some (false, db_bytes db_row2)])].
Definition db_rows : list Located := [(MkRID 0 0, db_row1); (MkRID 0 1, db_row2)].

Definition db0 : Engine ClockReplacer := engine_of (with_store (NewLinearProbeHashTable 1)) table_engine.
Definition db1 : Engine ClockReplacer := engine_of (insert_rows example_murmur3 252 db_table [db_row1]) db0.
Definition db2 : Engine ClockReplacer := engine_of (insert_rows example_murmur3 252 db_table [db_row2]) db1.

Lemma db_row_ok row : row = db_row1 ∨ row = db_row2 → row_ok db_columns row ∧ bytes_of db_columns row (db_bytes row) ∧
  0 < zlen (db_bytes row) ∧ zlen (db_bytes row) + sizeTuple ≤ free_space [].
Proof.
  intros Hr. split; [|split; [|split]].
  - split; [|split; [reflexivity|destruct Hr as [->| ->]; vm_compute; reflexivity]].
    destruct Hr as [->| ->]; repeat constructor; try (vm_compute; done).
  - destruct Hr as [->| ->]; eexists; (split; [vm_compute; reflexivity|vm_compute; reflexivity]).
  - destruct Hr as [->| ->]; vm_compute; reflexivity.
  - destruct Hr as [->| ->]; vm_compute; discriminate.
Qed.

Lemma db_not_full row bs : row = db_row1 ∨ row = db_row2 → db_bytes row = bs → zlen bs + sizeTuple ≤ free_space [].
Proof. intros Hr <-. by apply db_row_ok. Qed.

Lemma indexed_perm murmur3 tm rows rows' Ms : rows ≡ₚ rows' → indexed murmur3 tm rows Ms → indexed murmur3 tm rows' Ms.
Proof.
  intros HP HX j ix Hj. destruct (HX j ix Hj) as (ps & HE & HF).
  destruct (Permutation_Forall2 HP HF) as (ps' & HP' & HF'). exists ps'. split; [|done]. by rewrite HE.
Qed.

Lemma db0_store hid s1 : NewLinearProbeHashTable 1 (estore table_engine) = Ok (hid, s1) → db0 = set_store s1 table_engine.
Proof.
  intros E. pose proof (with_store_run (NewLinearProbeHashTable 1) table_engine _ _ E) as E'. unfold db0, engine_of. by rewrite E'.
Qed.

Lemma db1_def : db1 = engine_of (insert_rows example_murmur3 252 db_table [db_row1]) db0.
Proof. reflexivity. Qed.
Lemma db2_def : db2 = engine_of (insert_rows example_murmur3 252 db_table [db_row2]) db1.
Proof. reflexivity. Qed.

Lemma set_store_rest (s : Store ClockReplacer) (e : Engine ClockReplacer) :
  elogging (set_store s e) = elogging e ∧ etxn (set_store s e) = etxn e ∧ elocks (set_store s e) = elocks e.
Proof. done. Qed.

#[local] Opaque table_engine db0 db1 db2.

Lemma db0_on : ∃ P ids, table_on db0 2 P ∅ db_table db_columns [(0, [])] (λ _, ids) (λ _, MkMultimap [] []) ∧
  indexed example_murmur3 db_table [] (λ _, MkMultimap [] []) ∧ capacity ids = 252%nat ∧
  elogging db0 = true ∧ etxn db0 = SetPrevLSN 0 (NewTransaction 7) ∧ elocks db0 = NewLockManager.
Proof.
  destruct table_engine_shows as (P & S & HR & HN & HE & HT & HL). destruct no_pins_room as [HP HF].
  destruct (NewLinearProbeHashTable_run (estore table_engine) 2 P ∅ 1 S HP HF ltac:(lia)) as (s1 & P1 & ids & E & HLi & _ & HM & HK & HB).
  { rewrite HN. unfold page_in_range, in_i32. lia. }
  pose proof (db0_store _ _ E) as E0.
  clear E. rewrite HN in HM. exists P1, ids. rewrite E0. destruct HM as [(cs & HTi & He & Hu)].
  assert (HR1 : heap_rep P1 table_0 [(0, [])]).
  { destruct HR as [H1 H2 H3]. split; [done|done|]. eapply chain_outside; [|exact H3]. intros q Hq.
    destruct (chain_ids _ _ _ _ H3 Hq) as [[d Hd] _]. by rewrite Hd, (HK _ _ Hd). }
  destruct HR as [_ _ H3]. destruct (chain_ids _ _ _ 0 H3 ltac:(by left)) as [[d Hd] _].
  destruct (set_store_rest s1 table_engine) as (G1 & G2 & G3). rewrite G1, G2, G3.
  split; [|split; [|split; [unfold capacity; by rewrite HLi|exact (conj HE (conj HT HL))]]].
  - split.
    + exact (ti_shows _ _ _ _ _ _ HTi).
    + exact HF.
    + reflexivity.
    + split; [reflexivity|]. split; reflexivity.
    + exact HR1.
    + intros j ix Hj. destruct j as [|[|j]]; [|discriminate Hj|discriminate Hj]. injection Hj as <-. split; [reflexivity|reflexivity|].
      exists cs. split; [|exact (conj He Hu)]. split; [exact (ti_pages _ _ _ _ _ _ HTi)|exact (ti_ok _ _ _ _ _ _ HTi)].
    + intros j ix q Hj Hq. destruct j as [|[|j]]; [|discriminate Hj|discriminate Hj]. injection Hj as <-. intros ->%list_elem_of_singleton.
      apply elem_of_cons in Hq as [Hq|Hq]; [discriminate Hq|]. rewrite Forall_forall in HB. specialize (HB 0 Hq). congruence.
    + intros j j' ix ix' q Hj Hj' Hne. destruct j as [|[|j]]; [|discriminate Hj|discriminate Hj].
      destruct j' as [|[|j']]; [destruct (Hne eq_refl)|discriminate Hj'|discriminate Hj'].
  - intros j ix Hj. exists []. split; [reflexivity|constructor].
Qed.

(** The state after one insert, from the one before. *)
Lemma db_insert e e' P ids Ms c c' rows row r :
  let blocks := λ _ : nat, ids in
  e' = engine_of (insert_rows example_murmur3 252 db_table [row]) e → row = db_row1 ∨ row = db_row2 →
  table_on e 2 P ∅ db_table db_columns c blocks Ms → holds_rows db_columns c rows → indexed example_murmur3 db_table rows Ms →
  capacity ids = 252%nat → (length c < 252)%nat → page_in_range (nextPageID (diskManager (estore e))) →
  heap_insert (nextPageID (diskManager (estore e))) (db_bytes row) c = (c', r) → grantable r (etxn e) (elocks e) →
  (PackRIDtoUint32 r ∉ mm_used (Ms 0%nat)) → (length (mm_used (Ms 0%nat)) < 2)%nat →
  insert_rows example_murmur3 252 db_table [row] e = Ok (false, e') ∧
  ∃ P' rows' Ms', table_on e' 2 P' ∅ db_table db_columns c' blocks Ms' ∧ holds_rows db_columns c' rows' ∧ rows' ≡ₚ (r, row) :: rows ∧
    indexed example_murmur3 db_table rows' Ms' ∧ mm_used (Ms' 0%nat) = PackRIDtoUint32 r :: mm_used (Ms 0%nat).
Proof.
  intros blocks He' Hrow HT HH HX Hcap Hc HRn HI HG Hnew Hus. destruct (db_row_ok row Hrow) as (Hok & HB & H0 & Hfit).
  destruct (insert_row_run example_murmur3 example_murmur3_size e 2 P ∅ db_table db_columns c blocks Ms rows row (db_bytes row) _ c' r 252
    HT HH HX Hok HB H0 Hfit eq_refl HRn Hc HI (λ _, HG)) as (e1 & P' & rows' & Ms' & E & HT' & HH' & HP & HX' & HU & _).
  - intros j ix Hj. destruct j as [|[|j]]; [|discriminate Hj|discriminate Hj]. unfold blocks. rewrite Hcap. split; [exact Hnew|]. split; [lia|lia].
  - unfold engine_of in He'. rewrite E in He'. subst e'. split; [exact E|]. exists P', rows', Ms'. split; [exact HT'|].
    split; [exact HH'|]. split; [exact HP|]. split; [exact HX'|]. exact (HU 0%nat).
Qed.

Lemma db1_on : ∃ P ids Ms rows, table_on db1 2 P ∅ db_table db_columns db_c1 (λ _, ids) Ms ∧
  holds_rows db_columns db_c1 rows ∧ rows ≡ₚ [(MkRID 0 0, db_row1)] ∧ indexed example_murmur3 db_table rows Ms ∧
  capacity ids = 252%nat ∧ mm_used (Ms 0%nat) = [0] ∧ insert_rows example_murmur3 252 db_table [db_row1] db0 = Ok (false, db1).
Proof.
  destruct db0_on as (P & ids & HT & HX & Hcap & HE & Htx & Hlk).
  assert (HN : nextPageID (diskManager (estore db0)) = 3) by (vm_compute; reflexivity).
  destruct (db_insert db0 db1 P ids _ [(0, [])] db_c1 [] db_row1 (MkRID 0 0) db1_def ltac:(by left) HT) as (E & P' & rows' & Ms' & HT' & HH' & HP & HX' & HU).
  - constructor.
  - exact HX.
  - exact Hcap.
  - cbn. lia.
  - rewrite HN. unfold page_in_range. lia.
  - rewrite HN. vm_compute. reflexivity.
  - rewrite Hlk. vm_compute. exact I.
  - apply not_elem_of_nil.
  - cbn. lia.
  - exists P', ids, Ms', rows'. split; [exact HT'|]. split; [exact HH'|]. split; [exact HP|]. split; [exact HX'|].
    split; [exact Hcap|]. split; [exact HU|exact E].
Qed.

Lemma db_row1_grantable : grantable (MkRID 0 0) (etxn db0) (elocks db0).
Proof. vm_compute. exact I. Qed.
Lemma db_row2_grantable : grantable (MkRID 0 1) (etxn db1) (elocks db1).
Proof. vm_compute. exact I. Qed.

Lemma db_holds_rows : holds_rows db_columns db_c2 db_rows.
Proof.
  destruct (db_row_ok db_row1 ltac:(by left)) as (Ok1 & B1 & _). destruct (db_row_ok db_row2 ltac:(by right)) as (Ok2 & B2 & _).
  constructor; [|constructor; [|constructor]].
  - split; [reflexivity|]. split; [exact Ok1|]. exists (db_bytes db_row1). split; [reflexivity|exact B1].
  - split; [reflexivity|]. split; [exact Ok2|]. exists (db_bytes db_row2). split; [reflexivity|exact B2].
Qed.

Lemma db2_on : ∃ P ids Ms, table_on db2 2 P ∅ db_table db_columns db_c2 (λ _, ids) Ms ∧
  holds_rows db_columns db_c2 db_rows ∧ indexed example_murmur3 db_table db_rows Ms ∧ capacity ids = 252%nat.
Proof.
  destruct db1_on as (P & ids & Ms & rows & HT & HH & HP & HX & Hcap & HU & _).
  assert (HN : nextPageID (diskManager (estore db1)) = 3) by (vm_compute; reflexivity).
  destruct (db_insert db1 db2 P ids Ms db_c1 db_c2 rows db_row2 (MkRID 0 1) db2_def ltac:(by right) HT HH HX Hcap) as (E & P' & rows' & Ms' & HT' & HH' & HP' & HX' & HU').
  - cbn. lia.
  - rewrite HN. unfold page_in_range. lia.
  - rewrite HN. vm_compute. reflexivity.
  - exact db_row2_grantable.
  - rewrite HU. apply (bool_decide_unpack _). vm_compute. exact I.
  - rewrite HU. cbn. lia.
  - exists P', ids, Ms'. split; [exact HT'|]. split; [exact db_holds_rows|]. split; [|exact Hcap].
    eapply indexed_perm; [|exact HX']. rewrite HP', HP. apply Permutation_swap.
Qed.

Lemma db_readable : Forall (λ x : Located, TableScan.readable (fst x) db2) db_rows.
Proof. repeat constructor; intros u; vm_compute; by intros [= <-]. Qed.

Lemma db_rids : Forall (λ x : Located, 0 ≤ PageId (fst x) < 2 ^ 16 ∧ 0 ≤ SlotNum (fst x) < 2 ^ 16) db_rows.
Proof. constructor; [cbn; lia|]. constructor; [cbn; lia|constructor]. Qed.
