(* ===== verification/Deletes.v ===== *)
(** * Deleting rows ([execution/executors/delete_executor.go])

    DELETE with a predicate, over a table with its indexes: the scan marks the records it
    selects and takes their entries out of the indexes, and COMMIT empties the slots. *)

From S2P Require Import Prelude Bytes Types Tuples Disk LogRecord LogManager Replacer ClockReplacer Page BufferPool LockManager PoolView TablePage RecordLocks Engine TableHeap TableScan TransactionManager HashPage Probe HashTable HashIndex Expressions Plans Catalog TmpTuples Executors Ordering Grouping Rows Operators IndexScan IndexedTables ScanActions ExampleDatabase.

(** ** Committing the deletes *)
Definition drop_all (gs : list RID) (c : list (Z * slots)) : list (Z * slots) := foldl (λ c r, set_slot r None c) c gs.
Definition pin_all (gs : list RID) (pins : gmap Z Z) : gmap Z Z := foldl (λ p r, pin_page (PageId r) p) pins gs.

Lemma drop_all_ids gs : ∀ c, (drop_all gs c).*1 = c.*1.
Proof. induction gs as [|r gs IH]; intros c; [done|]. cbn. unfold drop_all in IH. by rewrite IH, set_slot_ids. Qed.

(** The entries left, and the steps of the loop. *)
Lemma drop_all_entries gs : ∀ c, NoDup c.*1 → NoDup gs → (∀ r, r ∈ gs → r ∈ (heap_entries c).*1) →
  heap_entries (drop_all gs c) = filter (λ x : entry, fst x ∉ gs) (heap_entries c).
Proof.
  induction gs as [|r gs IH]; intros c ND NG HG; cbn [drop_all foldl].
  - clear HG. induction (heap_entries c) as [|x l IH]; [done|]. rewrite filter_cons_True by apply not_elem_of_nil. by f_equal.
  - apply NoDup_cons in NG as [Hr NG]. pose proof (heap_entries_drop c r ND (HG r ltac:(by left))) as HE.
    change (foldl _ (set_slot r None c) gs) with (drop_all gs (set_slot r None c)). rewrite IH; [|by rewrite set_slot_ids|done|].
    + rewrite HE, list_filter_filter. apply list_filter_iff. intros x. rewrite not_elem_of_cons. tauto.
    + intros r' Hr'. specialize (HG r' ltac:(by right)). rewrite HE.
      apply list_elem_of_fmap in HG as (x & -> & Hx). apply list_elem_of_fmap. exists x. split; [done|].
      apply list_elem_of_filter. split; [|done]. intros Heq. apply Hr. by rewrite <- Heq.
Qed.

Lemma drop_all_steps (note : RID → WriteRecord) gs : (∀ r, ∃ x y, note r = NewWriteRecord r WDELETE x y) →
  ∀ D pins c, NoDup c.*1 → NoDup gs → (∀ r, r ∈ gs → r ∈ (heap_entries c).*1) →
  ∃ mks D', steps commit_step (MkWork D pins c) (note <$> gs) mks (MkWork D' (pin_all gs pins) (drop_all gs c)).
Proof.
  intros Hnote. induction gs as [|r gs IH]; intros D pins c ND NG HG.
  - exists [], D. constructor.
  - apply NoDup_cons in NG as [Hr NG]. pose proof (HG r ltac:(by left)) as Hin.
    pose proof (heap_entries_drop c r ND Hin) as HE. apply list_elem_of_fmap in Hin as ([r0 [b bs]] & Hr0 & Hin). cbn in Hr0. subst r0.
    destruct (heap_entry_slot _ _ _ Hin) as [H0' HS].
    destruct (IH ({[PageId r]} ∪ D) (pin_page (PageId r) pins) (set_slot r None c)) as (mks & D' & HSt); [by rewrite set_slot_ids|done| |].
    + intros r' Hr'. specialize (HG r' ltac:(by right)). rewrite HE.
      apply list_elem_of_fmap in HG as (x & -> & Hx). apply list_elem_of_fmap. exists x. split; [done|].
      apply list_elem_of_filter. split; [|done]. intros Heq. apply Hr. by rewrite <- Heq.
    + exists ([apply_record r bs] ++ mks), D'. destruct (Hnote r) as (x & y & Hn). cbn [fmap list_fmap]. rewrite Hn.
      econstructor; [by eapply commit_delete|exact HSt].
Qed.

Lemma other_steps w xs : Forall (λ x, wtype x ≠ WDELETE) xs → steps commit_step w xs [] w.
Proof.
  induction 1 as [|x xs Hx _ IH]; [constructor|]. change (@nil (Z → Z → LogRecord)) with ([] ++ @nil (Z → Z → LogRecord)).
  econstructor; [by apply commit_other|done].
Qed.
Lemma steps_join step w1 xs m1 w2 ys m2 w3 : steps step w1 xs m1 w2 → steps step w2 ys m2 w3 → steps step w1 (xs ++ ys) (m1 ++ m2) w3.
Proof. induction 1; [done|]. intros HS. rewrite <- !app_assoc. cbn [app]. econstructor; eauto. Qed.

(** ** Indexes without a row *)
Lemma without_app h v l1 l2 : without h v (l1 ++ l2) = without h v l1 ++ without h v l2.
Proof. unfold without. by rewrite List.filter_app. Qed.
Lemma without_absent_value h v l : Forall (λ p : Z * Z, snd p ≠ v) l → without h v l = l.
Proof.
  induction 1 as [|[k w] l Hne _ IH]; [done|]. cbn in Hne |- *. rewrite (proj2 (Z.eqb_neq w v)), andb_false_r by done.
  cbn [negb]. by f_equal.
Qed.
Lemma without_perm h v l1 l2 : l1 ≡ₚ l2 → without h v l1 ≡ₚ without h v l2.
Proof.
  induction 1 as [|x l1 l2 HP IH|x y l|l1 l2 l3 H1 IH1 H2 IH2]; cbn; [done| | |by etrans].
  - by case_match; [apply perm_skip|].
  - repeat case_match; (done || apply Permutation_swap).
Qed.

Lemma without_cons h v l : without h v ((h, v) :: l) = without h v l.
Proof. unfold without. cbn. by rewrite !Z.eqb_refl. Qed.

(** RIDs that an index can tell apart. *)
Definition packable (r : RID) : Prop := 0 ≤ PageId r < 2 ^ 16 ∧ 0 ≤ SlotNum r < 2 ^ 16.
Lemma pack_inj r r' : packable r → packable r' → PackRIDtoUint32 r = PackRIDtoUint32 r' → r = r'.
Proof. intros [H1 H2] [H1' H2'] E. by rewrite <- (unpack_pack r), <- (unpack_pack r'), E. Qed.

Section deletes.
Variable murmur3 : list byte → list byte.
Hypothesis murmur3_size : ∀ key, zlen (murmur3 key) = 16.
Context {R : Type} `{Replacer R} `{SliceSort} `{MapRange}.
Implicit Types (e : Engine R).

Lemma index_of_drop j l1 r row l2 es h : key_hash murmur3 j row = Ok h → Forall (λ x : Located, packable (fst x)) (l1 ++ (r, row) :: l2) →
  NoDup (l1 ++ (r, row) :: l2).*1 → index_of murmur3 j (l1 ++ (r, row) :: l2) es →
  index_of murmur3 j (l1 ++ l2) (without h (PackRIDtoUint32 r) es).
Proof.
  intros Hk HP ND (ps & HE & HF). apply Forall2_app_inv_l in HF as (p1 & p2 & F1 & F2 & ->).
  apply Forall2_cons_inv_l in F2 as ([h' v'] & p3 & [Hh Hv] & F3 & ->). cbn in Hh, Hv. assert (h' = h) as -> by congruence. subst v'.
  apply Forall_app in HP as [HP1 HP2]. apply Forall_cons in HP2 as [HPr HP2]. cbn in HPr.
  rewrite fmap_app in ND. apply NoDup_app in ND as (_ & NDa & NDb). cbn in NDa, NDb. apply NoDup_cons in NDb as [NDb _].
  assert (HO : ∀ l ps, Forall2 (λ (x : Located) p, key_hash murmur3 j (snd x) = Ok (fst p) ∧ snd p = PackRIDtoUint32 (fst x)) l ps →
    Forall (λ x : Located, packable (fst x)) l → r ∉ l.*1 → Forall (λ p : Z * Z, snd p ≠ PackRIDtoUint32 r) ps).
  { intros l ps HF HPl Hr. induction HF as [|x p l ps [_ Hp] _ IH]; [done|]. apply Forall_cons in HPl as [Hx HPl].
    cbn in Hr. apply not_elem_of_cons in Hr as [Hrx Hr]. constructor; [|by apply IH]. rewrite Hp. intros HEq.
    apply Hrx. symmetry. by apply pack_inj. }
  exists (p1 ++ p3). split; [|by apply Forall2_app].
  rewrite (without_perm _ _ _ _ HE), without_app, without_cons.
  rewrite (without_absent_value _ _ p1), (without_absent_value _ _ p3); [done|by apply (HO l2)|].
  apply (HO l1); [done|done|]. intros Hin. apply (NDa r Hin). by left.
Qed.

(** ** Taking a row out of the indexes *)
Definition removed (h v : Z) (M : Multimap) : Multimap := MkMultimap (without h v (mm_entries M)) (mm_used M).

Lemma withdraw_run e n P pins tm j ix ids M key kb r fuel :
  shows (estore e) n (quiet P pins) → frames_for 2 n pins → index_on P tm j ix ids M →
  GetValueInBytes key (schema tm) (Z.of_nat j) = Ok kb → (capacity ids ≤ fuel)%nat →
  ∃ h P' e', hash murmur3 kb = Ok h ∧ withdraw murmur3 fuel key r ix e = Ok (tt, e') ∧
    shows (estore e') n (quiet P' pins) ∧ only_blocks ids P P' ∧ index_on P' tm j ix ids (removed h (PackRIDtoUint32 r) M) ∧
    store_step e e'.
Proof.
  intros S HF [Hs Hc (cs & [HT HO] & HE & HU)] Hk Hfu. pose proof (shows_pins _ _ _ S) as HPp. cbn in HPp.
  set (idx := MkIndex (MkHashTable (estore e) NewRWLatch (ix_header ix)) (ix_metadata ix) (ix_col ix)).
  destruct (DeleteEntry_run murmur3 murmur3_size idx n P pins ids M key kb r fuel) as (h & P' & cn & Hh & E & [(cs' & HT' & HE' & HU')] & HB & HHd & HCa);
    [by unfold key_of; cbn; rewrite Hs, Hc|constructor; exists cs; split; [by split|done]|done|].
  exists h, P', (set_store (hstore cn) e). split; [done|]. split.
  { unfold withdraw, with_index. fold idx. by rewrite E. }
  split; [apply (ti_shows _ _ _ _ _ _ HT')|]. split; [done|]. split; [|by split].
  split; [done|done|]. exists cs'. split; [|done]. split; [|apply (ti_ok _ _ _ _ _ _ HT')].
  pose proof (ti_pages _ _ _ _ _ _ HT') as HP. by rewrite HHd in HP.
Qed.

Definition removed_all (r : RID) (row : list Value) (j : nat) : Multimap → Multimap := removed (row_hash murmur3 j row) (PackRIDtoUint32 r).

Lemma each_withdraw_run e n P pins tm cols c blocks Ms row bs r fuel :
  table_on e n P pins tm cols c blocks Ms → row_ok cols row → bytes_of cols row bs →
  (∀ j ix, indexes tm !! j = Some (Some ix) → (capacity (blocks j) ≤ fuel)%nat) →
  ∃ P' e', each_index tm (withdraw murmur3 fuel (stored_tuple r bs) r) e = Ok (tt, e') ∧
    table_on e' n P' pins tm cols c blocks (changed (length cols) (removed_all r row) Ms) ∧ store_step e e'.
Proof.
  intros HT Hok HB HRm. eapply each_index_run; [exact HT|]. intros e1 P1 j ix Hj S1 HI1.
  destruct (row_key murmur3 murmur3_size cols row bs r j Hok HB (index_column _ _ _ _ _ _ _ _ _ _ _ HT Hj)) as (kb & Hkb & Hh & _).
  rewrite <- (to_schema _ _ _ _ _ _ _ _ _ HT) in Hkb.
  destruct (withdraw_run e1 n P1 pins tm j ix (blocks j) (Ms j) (stored_tuple r bs) kb r fuel S1 (to_frames _ _ _ _ _ _ _ _ _ HT) HI1 Hkb (HRm j ix Hj))
    as (h & P2 & e2 & Hh' & E2 & S2 & HB2 & HI2 & HSt2).
  assert (h = row_hash murmur3 j row) as -> by congruence. by exists P2, e2.
Qed.

(** ** The step at a selected record *)
Definition delete_note (tm : TableMetadata) (x : Located) : WriteRecord := NewWriteRecord (fst x) WDELETE ZeroTuple (firstPageId (table tm)).
(** What the scan answers for a row, and the record then. *)
Definition tuple_of (cols : list Column) (t : Tuple) (x : Located) : Prop := ∃ bs, t = stored_tuple (fst x) bs ∧ bytes_of cols (snd x) bs.
Definition marked_record (cols : list Column) (x : bool * list byte) (y : Located) : Prop :=
  fst x = true ∧ row_ok cols (snd y) ∧ bytes_of cols (snd y) (snd x).

Lemma delete_at_run e n P pins tm cols c blocks Ms r row bs l l1 l2 fuel :
  table_on e n P pins tm cols c blocks Ms → at_entry c r (false, bs) l → row_ok cols row → bytes_of cols row bs →
  may_write r e → indexed murmur3 tm (l1 ++ (r, row) :: l2) Ms →
  Forall (λ x : Located, packable (fst x)) (l1 ++ (r, row) :: l2) → NoDup (l1 ++ (r, row) :: l2).*1 →
  (∀ j ix, indexes tm !! j = Some (Some ix) → (capacity (blocks j) ≤ fuel)%nat) →
  ∃ e' P' Ms', delete_at murmur3 fuel tm (stored_tuple r bs) e = Ok (got (stored_tuple r bs), e') ∧
    table_on e' n P' pins tm cols (set_slot r (Some (true, bs)) c) blocks Ms' ∧ indexed murmur3 tm (l1 ++ l2) Ms' ∧
    write_step (delete_note tm (r, row)) e e'.
Proof.
  intros HT HA Hok HB HW HX HPk ND Hcap. destruct (at_entry_slot _ _ _ _ HA) as [Hs0 HSl]. pose proof HT as [S HF _ _ HH _ _ _].
  destruct (MarkDelete_run e n P pins (table tm) c r bs S HH HSl Hs0) as (e1 & e1' & P1 & E1 & -> & S1 & HH1 & HO & HL & _);
    [by eapply (frames_room 2); [lia|]|by apply may_write_ready; [done|]; intros i l0; apply delete_appendable|].
  assert (Hq : PageId r ∈ c.*1).
  { destruct HSl as (i & ls & Hi & _). apply list_elem_of_fmap. exists (PageId r, ls). split; [done|]. by eapply list_elem_of_lookup_2. }
  pose proof (logged_write (delete_note tm (r, row)) _ e e1 HW HL) as HD. set (e2 := set_txn _ e1) in *.
  pose proof (table_on_changed e e2 n P P1 pins tm cols c (set_slot r (Some (true, bs)) c) blocks Ms HT S1 HH1 (set_slot_ids _ _ _)) as HT1.
  specialize (HT1 ltac:(intros i Hi; apply HO; congruence)).
  destruct (each_withdraw_run e2 n P1 pins tm cols _ blocks Ms row bs r fuel HT1 Hok HB Hcap) as (P2 & e3 & E3 & HT2 & HSt).
  exists e3, P2, (changed (length cols) (removed_all r row) Ms). split; [|split; [done|split]].
  - unfold delete_at. rewrite (st_bind_run _ _ e r e eq_refl). rewrite (st_bind_run _ _ _ _ _ E1). cbn [negb].
    by rewrite (st_bind_run _ _ _ _ _ E3).
  - intros j ix Hj. pose proof (index_column _ _ _ _ _ _ _ _ _ _ _ HT Hj) as Hjc. unfold changed. rewrite decide_True by done.
    destruct (row_key murmur3 murmur3_size cols row bs r j Hok HB Hjc) as (_ & _ & _ & HK).
    eapply index_of_drop; [exact HK|done|done|by eapply HX].
  - by eapply write_step_store.
Qed.

Lemma rev_reverse {A} (l : list A) : rev l = reverse l.
Proof. apply rev_alt. Qed.
Lemma same_rid (l : list Located) x y : NoDup l.*1 → x ∈ l → y ∈ l → fst x = fst y → x = y.
Proof.
  intros ND [i Hi]%list_elem_of_lookup [j Hj]%list_elem_of_lookup HE.
  assert (i = j) as ->; [|congruence]. eapply (NoDup_lookup l.*1); [done| |]; rewrite list_lookup_fmap; [by rewrite Hi|rewrite Hj; cbn; congruence].
Qed.

(** ** A table to delete from *)
Record delete_ready e n P pins fuel tm cols c blocks Ms rows pr : Prop := {
  dr_table : table_on e n P pins tm cols c blocks Ms;
  dr_rows : holds_rows cols c rows;
  dr_indexed : indexed murmur3 tm rows Ms;
  dr_typed : typed (columnType <$> cols) pr;
  (** an index can tell the records apart *)
  dr_packable : Forall (λ x : Located, packable (fst x)) rows;
  (** nobody else has locks on them *)
  dr_readable : Forall (λ x : Located, TableScan.readable (fst x) e) rows;
  dr_writable : Forall (λ x : Located, may_write (fst x) e) rows;
  dr_capacity : ∀ j ix, indexes tm !! j = Some (Some ix) → (capacity (blocks j) ≤ fuel)%nat;
  dr_pages : (length c ≤ fuel)%nat;
  dr_turns : (length rows < fuel)%nat
}.

Lemma indexed_sublist pr (rows passed rest : list Located) : Forall (λ x : Located, packable (fst x)) rows → NoDup rows.*1 → rows = passed ++ rest →
  Forall (λ x : Located, packable (fst x)) (spared pr passed ++ rest) ∧ NoDup (spared pr passed ++ rest).*1.
Proof.
  intros HPk ND HR. assert (HS : (spared pr passed ++ rest) `sublist_of` rows) by (rewrite HR; apply sublist_app; [apply spared_sublist|done]).
  split; [|eapply sublist_NoDup; [exact ND|by apply fmap_sublist]].
  apply Forall_forall. intros x Hx. rewrite Forall_forall in HPk. apply HPk. by eapply elem_of_sublist.
Qed.

(** The whole of DELETE. *)
Lemma delete_all_run cat e n P pins fuel o tm cols c blocks Ms rows pr :
  GetTableByOID cat o = Some tm → delete_ready e n P pins fuel tm cols c blocks Ms rows pr →
  ∃ ts e' P' c' Ms', Execute murmur3 fuel cat (DeletePlanNode pr o) e = Ok (ts, e') ∧ Forall2 (tuple_of cols) ts (chosen pr rows) ∧
    table_on e' n P' pins tm cols c' blocks Ms' ∧ Forall2 (passed_record cols pr (marked_record cols)) (heap_entries c') rows ∧
    indexed murmur3 tm (spared pr rows) Ms' ∧ wrote (delete_note tm <$> chosen pr rows) e e'.
Proof.
  intros Ho [HT HH HX Hty HPk HRd HWr Hcap Hpg Htu].
  pose proof (holds_nodup _ _ _ _ _ (to_heap _ _ _ _ _ _ _ _ _ HT) HH) as ND.
  destruct (scan_actions_run murmur3 e n pins fuel tm cols c blocks rows pr Hty HRd HWr ND Hpg Htu (delete_at murmur3 fuel tm) (tuple_of cols)
    (marked_record cols) (delete_note tm) (λ passed rest M, indexed murmur3 tm (spared pr passed ++ rest) M) (λ _, eq_refl))
    with (mk := DeleteExecutor pr (Some tm)) (depth := 1%nat) (P := P) (Ms := Ms) (x0 := DeleteExecutor pr (Some tm) None)
    as (ts & e' & P' & c' & Ms' & E & Hts & HT' & _ & HE & HX' & HG); try done.
  - intros passed r row rest bs l e1 P1 c1 Ms1 HT1 HA Hok HB HR Ht _ HW HX1. destruct (indexed_sublist pr rows _ _ HPk ND HR) as [HPk1 ND1].
    destruct (delete_at_run e1 n P1 pins tm cols c1 blocks Ms1 r row bs l (spared pr passed) rest fuel HT1 HA Hok HB HW HX1 HPk1 ND1 Hcap)
      as (e2 & P2 & Ms2 & E2 & HT2 & HX2 & HD).
    exists (stored_tuple r bs), (true, bs), e2, P2, Ms2. split; [exact E2|]. split; [by exists bs|]. split; [done|]. split; [done|]. split; [|done].
    rewrite spared_app, spared_one. cbn [snd]. by rewrite Ht, app_nil_r.
  - intros passed x rest M _ Ht HX1. rewrite spared_app, spared_one, Ht, <- app_assoc. exact HX1.
  - rewrite app_nil_r in HX'. exists ts, e', P', c', Ms'. split; [|done]. unfold Execute. cbn [CreateExecutor height]. rewrite Ho. exact E.
Qed.

Lemma passed_rids cols pr c rows : Forall2 (passed_record cols pr (marked_record cols)) (heap_entries c) rows → (heap_entries c).*1 = rows.*1.
Proof.
  induction 1 as [|x y l k Hx _ IH]; [done|]. rewrite !fmap_cons, IH. f_equal. unfold passed_record in Hx.
  by destruct (truth pr (snd y)), Hx as [Hx _].
Qed.

Lemma passed_unmarked cols pr es rows (gs : list RID) : Forall2 (passed_record cols pr (marked_record cols)) es rows →
  (∀ x, x ∈ rows → fst x ∈ gs ↔ truth pr (snd x) = true) →
  Forall2 (holds_record cols) (filter (λ x : entry, fst x ∉ gs) es) (spared pr rows).
Proof.
  induction 1 as [|x y es rows Hx _ IH]; intros HG; [constructor|].
  assert (HGy := HG y ltac:(by left)). specialize (IH (λ z Hz, HG z (list_elem_of_further _ _ _ Hz))).
  unfold spared, passed_record in *. destruct (truth pr (snd y)) eqn:Et; destruct Hx as [Hr Hx].
  - rewrite filter_cons_False, filter_cons_False by (rewrite ?Hr; (congruence || tauto)). exact IH.
  - rewrite filter_cons_True, filter_cons_True by (rewrite ?Hr; (done || (intros Hg; apply HGy in Hg; done))).
    constructor; [by split|exact IH].
Qed.

(** ** Properties *)

(** C12: DELETE marks the records of the rows that its predicate selects and answers their
    tuples; the other records stay live, every record keeps its bytes. The entries of the
    rows selected are taken out of every index, which stay complete for the other rows.
    The write set gets a DELETE for each, in order; where logging is on, the transaction
    then has these records to itself. *)
Theorem delete_query cat e n P pins fuel o tm cols c blocks Ms rows pr :
  GetTableByOID cat o = Some tm → delete_ready e n P pins fuel tm cols c blocks Ms rows pr →
  ∃ ts e' P' c' Ms', Execute murmur3 fuel cat (DeletePlanNode pr o) e = Ok (ts, e') ∧ Forall2 (tuple_of cols) ts (chosen pr rows) ∧
    table_on e' n P' pins tm cols c' blocks Ms' ∧ Forall2 (passed_record cols pr (marked_record cols)) (heap_entries c') rows ∧
    indexed murmur3 tm (spared pr rows) Ms' ∧ wrote (delete_note tm <$> chosen pr rows) e e'.
Proof.
  intros Ho HR. destruct (delete_all_run cat e n P pins fuel o tm cols c blocks Ms rows pr Ho HR)
    as (ts & e' & P' & c' & Ms' & E & Hts & HT & HE & HX & HG).
  by exists ts, e', P', c', Ms'.
Qed.

(** C6: DELETE and then COMMIT, in a transaction that deleted nothing before: afterwards the
    table holds the rows that the predicate does not select, and no others, and every
    index is complete for them. The pages of the rows deleted stay pinned, a pin for
    each. *)
Theorem delete_commit cat e n P pins fuel o tm cols c blocks Ms rows pr mgr :
  GetTableByOID cat o = Some tm → delete_ready e n P pins fuel tm cols c blocks Ms rows pr →
  Forall (λ x, wtype x ≠ WDELETE ∧ owner (wrid x) e) (write_set (etxn e)) →
  frames_for 1 n (pin_all (rev (chosen pr rows).*1) pins) → 0 < readers (global_txn_latch mgr) →
  ∃ ts e1 e2 P' D c' Ms', Execute murmur3 fuel cat (DeletePlanNode pr o) e = Ok (ts, e1) ∧ Forall2 (tuple_of cols) ts (chosen pr rows) ∧
    Commit (MkSystem mgr e1) = Ok (tt, MkSystem (with_readers (-1) mgr) e2) ∧
    shows (estore e2) n (MkView P' (pin_all (rev (chosen pr rows).*1) pins) D ∅) ∧ heap_rep P' (table tm) c' ∧
    holds_rows cols c' (spared pr rows) ∧
    (∀ j ix, indexes tm !! j = Some (Some ix) → index_on P' tm j ix (blocks j) (Ms' j)) ∧ indexed murmur3 tm (spared pr rows) Ms' ∧
    ended COMMITTED e1 e2.
Proof.
  intros Ho HR HW HF Hl. destruct (delete_all_run cat e n P pins fuel o tm cols c blocks Ms rows pr Ho HR)
    as (ts & e1 & P1 & c1 & Ms' & E & Hts & HT & HE & HX & HG).
  pose proof HR as [HT0 HH _ _ _ _ _ _ _ _]. pose proof (hr_nodup _ _ _ (to_heap _ _ _ _ _ _ _ _ _ HT)) as NC.
  set (gs := rev (chosen pr rows).*1) in *.
  pose proof (holds_nodup _ _ _ _ _ (to_heap _ _ _ _ _ _ _ _ _ HT0) HH) as ND.
  assert (NG : NoDup gs).
  { unfold gs. rewrite rev_reverse, reverse_Permutation. eapply sublist_NoDup; [exact ND|]. by apply fmap_sublist, chosen_sublist. }
  pose proof (passed_rids _ _ _ _ HE) as Hrids.
  assert (Hgs : ∀ r, r ∈ gs ↔ r ∈ (chosen pr rows).*1) by (intros r; unfold gs; by rewrite rev_reverse, elem_of_reverse).
  assert (Hin : ∀ r, r ∈ gs → r ∈ (heap_entries c1).*1).
  { intros r Hr. rewrite Hrids. apply Hgs in Hr. eapply elem_of_sublist; [exact Hr|]. by apply fmap_sublist, chosen_sublist. }
  set (del := λ r, delete_note tm (r, [])).
  assert (Hdel : del <$> (chosen pr rows).*1 = delete_note tm <$> chosen pr rows) by (rewrite <- list_fmap_compose; by apply list_fmap_ext).
  assert (Hids : wrid <$> (delete_note tm <$> chosen pr rows) = (chosen pr rows).*1) by (by apply note_rids).
  destruct (drop_all_steps del gs) with (D := (∅ : gset Z)) (pins := pins) (c := c1) as (mks & D & HS);
    [intros r; by eexists _, _|done|done|done|].
  assert (HSt : steps commit_step (MkWork ∅ pins c1) (rev (write_set (etxn e1))) (mks ++ []) (MkWork D (pin_all gs pins) (drop_all gs c1))).
  { rewrite (wr_writes _ _ _ HG), rev_app_distr, <- Hdel. eapply steps_join.
    - rewrite rev_reverse, <- fmap_reverse, <- rev_reverse. exact HS.
    - apply other_steps, Forall_rev. eapply Forall_impl; [exact HW|]. by intros x []. }
  destruct (Commit_run (MkSystem mgr e1) n P1 pins (table tm) c1 _ _ (to_shows _ _ _ _ _ _ _ _ _ HT) (to_heap _ _ _ _ _ _ _ _ _ HT) HSt)
    as (e2 & P2 & E2 & S2 & HH2 & HO & HEn & _).
  - cbn [engine]. rewrite (wr_writes _ _ _ HG). apply Forall_app. split.
    + eapply Forall_impl; [exact HW|]. intros x [_ Hx] HL. rewrite (wr_logging _ _ _ HG) in HL.
      destruct (decide (wrid x ∈ (wrid <$> (delete_note tm <$> chosen pr rows)))) as [Hg|Hg]; [by apply (wr_own _ _ _ HG)|].
      apply (wr_others _ _ _ HG); [done|by apply Hx].
    + apply Forall_forall. intros x Hx HL. rewrite (wr_logging _ _ _ HG) in HL. apply (wr_own _ _ _ HG); [done|].
      by apply list_elem_of_fmap_2.
  - exact HF.
  - exact Hl.
  - exists ts, e1, e2, P2, D, (drop_all gs c1), Ms'. split; [exact E|]. split; [done|]. split; [exact E2|]. split; [exact S2|]. split; [exact HH2|].
    split; [|split; [|split; [done|exact HEn]]].
    + unfold holds_rows. rewrite (drop_all_entries gs c1 NC NG Hin). apply passed_unmarked; [done|].
      intros x Hx. rewrite Hgs. unfold chosen. split.
      * intros (y & Hy & [Hty Hiny]%list_elem_of_filter)%list_elem_of_fmap. 
        by rewrite (same_rid rows x y).
      * intros Ht. apply list_elem_of_fmap. exists x. split; [done|]. by apply list_elem_of_filter.
    + intros j ix Hj. eapply index_on_keep; [|by apply (to_index _ _ _ _ _ _ _ _ _ HT)]. intros q Hq. apply HO. by eapply (to_apart _ _ _ _ _ _ _ _ _ HT).
Qed.
End deletes.

(** ** On the example database *)
#[local] Opaque db2.

(** [DELETE FROM t WHERE a = 5] *)
Definition db_five : option Expression := Some (equals 0 (NewInteger 5)).

Lemma db_own r : r = MkRID 0 0 ∨ r = MkRID 0 1 → locked_own r (etxn db2).
Proof. intros [->| ->]; split; vm_compute; reflexivity. Qed.

Lemma db_delete_ready : ∃ P ids Ms, delete_ready example_murmur3 db2 2 P ∅ 252 db_table db_columns db_c2 (λ _, ids) Ms db_rows db_five.
Proof.
  destruct db2_on as (P & ids & Ms & HT & HH & HX & Hcap). exists P, ids, Ms. split; try done.
  - repeat constructor; cbn; lia.
  - exact db_readable.
  - repeat constructor; intros _; apply writable_cases; left; apply db_own; [by left|by right].
  - intros j ix _. by rewrite Hcap.
  - cbn. lia.
  - cbn. lia.
Qed.

Lemma db_chosen : chosen db_five db_rows = [(MkRID 0 0, db_row1)].
Proof. vm_compute. reflexivity. Qed.

Lemma delete_query_witness : ∃ ts e1, Execute example_murmur3 252 db_catalog (DeletePlanNode db_five 0) db2 = Ok (ts, e1) ∧
  Forall2 (tuple_of db_columns) ts [(MkRID 0 0, db_row1)].
Proof.
  destruct db_delete_ready as (P & ids & Ms & HR).
  destruct (delete_query example_murmur3 example_murmur3_size db_catalog db2 2 P ∅ 252 0 db_table db_columns db_c2 (λ _, ids) Ms db_rows db_five
    eq_refl HR) as (ts & e' & P' & c' & Ms' & E & HF & _).
  exists ts, e'. split; [exact E|]. rewrite <- db_chosen. exact HF.
Defined.

(** A transaction runs. *)
Definition db_manager : TransactionManager := MkTransactionManager 8 (MkLatch 1 false) ∅.

Lemma delete_commit_witness : ∃ ts e1 e2, Execute example_murmur3 252 db_catalog (DeletePlanNode db_five 0) db2 = Ok (ts, e1) ∧
  Commit (MkSystem db_manager e1) = Ok (tt, MkSystem (with_readers (-1) db_manager) e2).
Proof.
  destruct db_delete_ready as (P & ids & Ms & HR).
  destruct (delete_commit example_murmur3 example_murmur3_size db_catalog db2 2 P ∅ 252 0 db_table db_columns db_c2 (λ _, ids) Ms db_rows db_five
    db_manager eq_refl HR) as (ts & e1 & e2 & P' & D & c' & Ms' & E & _ & E2 & _).
  - apply Forall_forall. intros x Hx. assert (HW : (wrid <$> write_set (etxn db2)) = [MkRID 0 0; MkRID 0 1] ∧ Forall (λ x, wtype x = WINSERT) (write_set (etxn db2))).
    { split; vm_compute; [reflexivity|repeat constructor]. }
    destruct HW as [HW1 HW2]. split; [rewrite Forall_forall in HW2; by rewrite (HW2 x Hx)|]. intros _. apply db_own.
    apply (list_elem_of_fmap_2 wrid) in Hx. rewrite HW1 in Hx.
    apply elem_of_cons in Hx as [Hx|Hx]; [left; exact Hx|right]. apply list_elem_of_singleton in Hx. exact Hx.
  - rewrite db_chosen. split; [vm_compute; lia|]. intros i j Hij. unfold pin_all in Hij. cbn in Hij.
    apply lookup_insert_Some in Hij as [[_ <-]|[_ Hij]]; [vm_compute; reflexivity|by rewrite lookup_empty in Hij].
  - reflexivity.
  - exists ts, e1, e2. split; [exact E|exact E2].
Defined.

(** [INSERT], [DELETE] of the row and [INSERT] of it again, each in a transaction that
    commits, and then the scan and the lookup for it. The row takes the record it had
    before, so the index refuses its entry: the scan finds the row and the lookup does
    not. *)
Definition roomy_system : System ClockReplacer :=
  MkSystem (MkTransactionManager 0 (MkLatch 0 false) ∅)
    (MkEngine (new_store 10 (NewDiskManagerImpl [] [])) NewLockManager (NewTransaction 7) true).
Definition transaction (p : Plan) : st (System ClockReplacer) (list Tuple) :=
  _ ← Begin None; ts ← with_engine (Execute example_murmur3 252 db_catalog p); _ ← Commit; mret ts.
Definition insert_again : st (System ClockReplacer) (nat * nat) :=
  _ ← with_engine NewTableHeap; _ ← with_engine (with_store (NewLinearProbeHashTable 1));
  _ ← transaction (InsertPlanNode [db_row1] 0); _ ← transaction (DeletePlanNode db_five 0);
  _ ← transaction (InsertPlanNode [db_row1] 0);
  scanned ← transaction (SeqScanPlanNode db_schema db_five 0);
  looked_up ← transaction (HashScanIndexPlanNode db_schema (equals 0 (NewInteger 5)) 0);
  mret (length scanned, length looked_up).
Example reinserted_row_not_found :
  match insert_again roomy_system with Ok (found, _) => found = (1%nat, 0%nat) | _ => False end.
Proof. vm_compute. reflexivity. Qed.
