(* ===== verification/Updates.v ===== *)
(** * Updating rows ([execution/executors/update_executor.go])

    UPDATE with a predicate over a table without indexes, where no row gets longer: each
    record the predicate selects gets the new values in place, of all columns or of
    those listed, and the others stay.  With an index the executor does not keep it
    complete, and of a list of columns that does not ascend it sets only some, as the
    examples at the end show. *)

From Stdlib Require Import Strings.String Sorting.Sorted.
From S2P Require Import Prelude Bytes Types Tuples Disk LogRecord LogManager Replacer ClockReplacer Page BufferPool LockManager PoolView TablePage RecordLocks Engine TableHeap TableScan TransactionManager HashPage Probe HashTable HashIndex Expressions Plans Catalog TmpTuples Executors Ordering Grouping Rows Operators IndexScan IndexedTables ScanActions ExampleDatabase Deletes.

(** ** Rows with new values *)

(** The listed columns from [new], the others from [old]. *)
Definition set_columns (idxs : list Z) (new old : list Value) : list Value :=
  imap (λ j v, if bool_decide (Z.of_nat j ∈ idxs) then default v (new !! j) else v) old.
Definition updated (idxs : option (list Z)) (new old : list Value) : list Value :=
  match idxs with None => new | Some idxs => set_columns idxs new old end.

(** The executor reads the list in step with the columns: it has to ascend. *)
Definition column_list (idxs : option (list Z)) : Prop :=
  match idxs with None => True | Some idxs => StronglySorted Z.lt idxs ∧ Forall (λ i, 0 ≤ i) idxs end.

Lemma merge_values_run nt ot sc new old : holds_row nt sc new → holds_row ot sc old →
  ∀ m k idxs, (k + m)%nat = length old → StronglySorted Z.lt idxs → Forall (λ i, Z.of_nat k ≤ i) idxs →
  merge_values nt ot sc idxs (Z.of_nat k) m =
    Ok (imap (λ j v, if bool_decide (Z.of_nat (k + j) ∈ idxs) then default v (new !! (k + j)%nat) else v) (drop k old)).
Proof.
  intros [Ln Rn] [Lo Ro]. induction m as [|m IH]; intros k idxs Hk Hs Hi.
  - rewrite drop_ge by lia. done.
  - destruct (lookup_lt_is_Some_2 old k) as [v Hv]; [lia|]. destruct (lookup_lt_is_Some_2 new k) as [w Hw]; [lia|].
    rewrite (drop_S old v k Hv). cbn [merge_values imap]. rewrite Nat.add_0_r, Hw. cbn [default from_option].
    set (matched := match idxs with i :: _ => Z.of_nat k =? i | [] => false end).
    assert (HM : matched = bool_decide (Z.of_nat k ∈ idxs) ∧ StronglySorted Z.lt (if matched then tl idxs else idxs) ∧
      Forall (λ i, Z.of_nat (S k) ≤ i) (if matched then tl idxs else idxs) ∧
      ∀ i, Z.of_nat k < i → i ∈ (if matched then tl idxs else idxs) ↔ i ∈ idxs).
    { unfold matched. destruct idxs as [|i0 idxs].
      - rewrite bool_decide_false by (apply not_elem_of_nil). split; [done|]. split; [done|]. by split; [constructor|].
      - apply StronglySorted_inv in Hs as [Hs Hlt]. apply Forall_cons in Hi as [Hi0 Hi].
        destruct (Z.eqb_spec (Z.of_nat k) i0) as [<-|Hne]; cbn [tl].
        + rewrite bool_decide_true by (by left). split; [done|]. split; [done|]. split.
          * eapply Forall_impl; [exact Hlt|]. intros x. cbn. lia.
          * intros i Hik. rewrite elem_of_cons. naive_solver lia.
        + rewrite bool_decide_false.
          2: { intros [Heq|Hin]%elem_of_cons; [done|]. rewrite Forall_forall in Hlt. specialize (Hlt _ Hin). lia. }
          split; [done|]. split; [by constructor|]. split; [|done]. constructor; [lia|].
          eapply Forall_impl; [exact Hlt|]. intros x. cbn. lia. }
    destruct HM as (HM & Hs' & Hi' & HE). rewrite HM.
    assert (HG : Tuples.GetValue (if bool_decide (Z.of_nat k ∈ idxs) then nt else ot) sc (Z.of_nat k) =
      Ok (if bool_decide (Z.of_nat k ∈ idxs) then w else v)) by (case_bool_decide; [by apply Rn|by apply Ro]).
    rewrite HG. mred. rewrite <- HM. replace (Z.of_nat k + 1) with (Z.of_nat (S k)) by lia. rewrite (IH (S k)) by (done || lia). mred.
    f_equal. f_equal. apply imap_ext. intros j x _. unfold compose. cbn beta.
    replace (k + S j)%nat with (S k + j)%nat by lia. erewrite bool_decide_ext; [done|]. apply HE. lia.
Qed.

Lemma holds_new cols row r sz t : row_ok cols row → NewTupleFromSchema row (NewSchema cols) = Ok t →
  holds_row (MkTuple r sz (data t)) (NewSchema cols) row.
Proof.
  intros Hok E. split.
  - rewrite (NewSchema_columns _ _ Hok), length_place. symmetry. by eapply Forall2_length, Hok.
  - intros i v Hv. destruct Hok as (Hok & HL & HT). destruct (tuple_reads cols row Hok HL HT) as (t' & E' & _ & _ & _ & HR).
    rewrite E in E'. injection E' as <-. by apply HR.
Qed.

(** The tuple an update writes is that of the row with the new values. *)
Lemma make_update_run cols idxs new old nt r bs : row_ok cols new → row_ok cols old → bytes_of cols old bs →
  NewTupleFromSchema new (NewSchema cols) = Ok nt → column_list idxs →
  make_update_tuple nt (stored_tuple r bs) idxs (match idxs with None => None | Some _ => Some (NewSchema cols) end) =
    NewTupleFromSchema (updated idxs new old) (NewSchema cols).
Proof.
  intros Hn Ho HB E Hc. destruct idxs as [idxs|]; [|exact (eq_sym E)]. destruct Hc as [Hs H0]. cbn [make_update_tuple updated].
  pose proof (bytes_holds cols old bs r Ho HB) as HHo. pose proof (holds_new cols new (rid nt) (size nt) nt Hn E) as HHn.
  replace (MkTuple (rid nt) (size nt) (data nt)) with nt in HHn by (by destruct nt).
  pose proof (merge_values_run nt (stored_tuple r bs) (NewSchema cols) new old HHn HHo (length old) 0 idxs eq_refl Hs) as HMg.
  rewrite <- (proj1 HHo). change 0 with (Z.of_nat 0). rewrite HMg by (eapply Forall_impl; [exact H0|]; intros x; cbn; lia). mred. done.
Qed.

Section updates.
Variable murmur3 : list byte → list byte.
Context {R : Type} `{Replacer R} `{SliceSort} `{MapRange}.
Implicit Types (e : Engine R).

(** ** The step at a selected record *)
Definition row_bytes (cols : list Column) (row : list Value) : list byte :=
  match NewTupleFromSchema row (NewSchema cols) with Ok t => data t | _ => [] end.
Definition update_note (tm : TableMetadata) (cols : list Column) (x : Located) : WriteRecord :=
  NewWriteRecord (fst x) WUPDATE (stored_tuple (fst x) (row_bytes cols (snd x))) (firstPageId (table tm)).
Definition updated_record (cols : list Column) (idxs : option (list Z)) (new : list Value) (x : bool * list byte) (y : Located) : Prop :=
  fst x = false ∧ row_ok cols (updated idxs new (snd y)) ∧ bytes_of cols (updated idxs new (snd y)) (snd x).

(** The new row is no longer than the old. *)
Definition shrinks (cols : list Column) (idxs : option (list Z)) (new old : list Value) : Prop :=
  row_ok cols (updated idxs new old) ∧ 0 < fixed_total cols + payload_total (zip cols (updated idxs new old)) ∧
  payload_total (zip cols (updated idxs new old)) ≤ payload_total (zip cols old).

Definition no_indexes (tm : TableMetadata) : Prop := ∀ j ix, indexes tm !! j ≠ Some (Some ix).

Lemma no_index_run e n P pins tm cols c blocks Ms f : table_on e n P pins tm cols c blocks Ms → no_indexes tm →
  ∃ P' e', each_index tm f e = Ok (tt, e') ∧ table_on e' n P' pins tm cols c blocks (changed (length cols) (λ _ M, M) Ms) ∧ store_step e e'.
Proof. intros HT HN. eapply each_index_run; [exact HT|]. intros e1 P1 j ix Hj. by destruct (HN j ix). Qed.

Lemma logged_state lock mk e e1 : (∀ t lm t' lm', lock t lm = Ok (true, t', lm') → txn_state t' = txn_state t) →
  logged lock mk e e1 → txn_state (etxn e1) = txn_state (etxn e).
Proof.
  intros HS [_ HL]. destruct (elogging e); [|by destruct HL as (-> & _)].
  destruct HL as (t' & lm' & E & _ & -> & _). cbn. by eapply HS.
Qed.

Lemma update_at_run e n P pins tm cols c blocks Ms r row bs l new idxs nt fuel :
  table_on e n P pins tm cols c blocks Ms → at_entry c r (false, bs) l → row_ok cols row → bytes_of cols row bs →
  may_write r e → txn_state (etxn e) ≠ ABORTED → no_indexes tm → row_ok cols new → NewTupleFromSchema new (NewSchema cols) = Ok nt →
  0 < size nt → column_list idxs → shrinks cols idxs new row →
  ∃ bs' e' P' Ms', update_at murmur3 fuel tm new idxs (stored_tuple r bs) e = Ok (got nt, e') ∧ bytes_of cols (updated idxs new row) bs' ∧
    table_on e' n P' pins tm cols (set_slot r (Some (false, bs')) c) blocks Ms' ∧ write_step (update_note tm cols (r, row)) e e'.
Proof.
  intros HT HA Hok HB HW HSt HNo Hnew Ent Hsz Hcl (Hokn & Hpos & Hle). destruct (at_entry_slot _ _ _ _ HA) as [Hs0 HSl].
  pose proof HT as [S HF HSc _ HH _ _ _]. destruct (row_tuple cols _ Hokn) as (u & Eu & Hru & Hszu & Hlu).
  destruct (row_tuple cols row Hok) as (o & Eo & _ & _ & Hlo).
  assert (Hbs : row_bytes cols row = bs ∧ zlen bs = fixed_total cols + payload_total (zip cols row)).
  { unfold row_bytes. destruct HB as (t & Et & <-). rewrite Et in Eo |- *. injection Eo as ->. done. }
  destruct Hbs as [Hbs Hlbs]. pose proof (make_update_run cols idxs new row nt r bs Hnew Hok HB Ent Hcl) as HMk. rewrite Eu in HMk.
  destruct (heap_slot_page _ _ _ _ _ HH HSl) as (_ & d & _ & W & _ & HSd & _). destruct (occupied_intro r d false bs W Hs0 HSd) as [].
  assert (Hu : tuple_ok u) by (unfold tuple_ok, zlen in *; lia).
  assert (Hfit : fits c r bs u).
  { intros i ls Hi. destruct (chain_page _ _ _ _ _ _ (hr_chain _ _ _ HH) Hi) as (_ & d' & next & _ & HI & _).
    pose proof (free_space_range d' (pg_wf _ _ _ _ HI)) as HFs. rewrite (pg_contents _ _ _ _ HI) in HFs. lia. }
  assert (HPs : zlen bs ≤ PageSize) by lia.
  destruct (UpdateTuple_run e n P pins ∅ (table tm) c r bs nt idxs (match idxs with None => None | Some _ => Some (schema tm) end) u fuel S HH HSl Hs0)
    as (e1 & P1 & E1 & S1 & HH1 & HO & HL & _).
  - by eapply (frames_room 2); [lia|].
  - done.
  - rewrite HSc. exact HMk.
  - done.
  - unfold PageSize in HPs. lia.
  - done.
  - apply may_write_ready; [done|]. intros i l0. apply update_appendable; [done|done|lia].
  - assert (HSt1 : txn_state (etxn e1) = txn_state (etxn e)) by (eapply logged_state; [|exact HL]; intros; by eapply write_lock_txn).
    assert (HD : write_step (update_note tm cols (r, row)) e (update_noted (table tm) r bs e1)).
    { unfold update_noted. rewrite decide_False by congruence. unfold update_note. cbn [fst snd]. rewrite Hbs. by eapply logged_write. }
    replace (∅ ∖ {[PageId r]} : gset Z) with (∅ : gset Z) in S1 by set_solver.
    assert (Hq : PageId r ∈ c.*1).
    { destruct HSl as (i & ls & Hi & _). apply list_elem_of_fmap. exists (PageId r, ls). split; [done|]. by eapply list_elem_of_lookup_2. }
    set (e2 := update_noted (table tm) r bs e1) in *.
    assert (HT1 : table_on e2 n P1 pins tm cols (set_slot r (Some (false, data u)) c) blocks Ms).
    { eapply table_on_changed; [exact HT|unfold e2; rewrite update_noted_store; exact S1|done|by rewrite set_slot_ids|].
      intros i Hi. apply HO. congruence. }
    destruct (no_index_run e2 n P1 pins tm cols _ blocks Ms (λ ix, _ ← withdraw murmur3 fuel (stored_tuple r bs) r ix; enter murmur3 fuel nt r ix) HT1 HNo)
      as (P2 & e3 & E3 & HT2 & HSs).
    exists (data u), e3, P2, (changed (length cols) (λ _ M, M) Ms). split; [|split; [by exists u|split; [done|by eapply write_step_store]]].
    unfold update_at. rewrite (st_bind_run _ _ e r e eq_refl). rewrite HSc. rewrite (st_bind_run _ _ e nt e) by (unfold st_lift; by rewrite Ent).
    rewrite HSc in E1. rewrite (st_bind_run _ _ _ _ _ E1). cbn [negb]. unfold default. cbn [from_option id]. by rewrite (st_bind_run _ _ _ _ _ E3).
Qed.
(** ** A table to update *)
Record update_ready e n P pins fuel tm cols c blocks Ms rows pr new idxs : Prop := {
  ur_table : table_on e n P pins tm cols c blocks Ms;
  ur_rows : holds_rows cols c rows;
  ur_indexes : no_indexes tm;
  ur_typed : typed (columnType <$> cols) pr;
  ur_new : row_ok cols new;
  ur_nonempty : 0 < fixed_total cols + payload_total (zip cols new);
  ur_columns : column_list idxs;
  ur_shrinks : Forall (λ x : Located, shrinks cols idxs new (snd x)) (chosen pr rows);
  (** nobody else has locks on them *)
  ur_readable : Forall (λ x : Located, TableScan.readable (fst x) e) rows;
  ur_writable : Forall (λ x : Located, may_write (fst x) e) rows;
  ur_running : txn_state (etxn e) ≠ ABORTED;
  ur_pages : (length c ≤ fuel)%nat;
  ur_turns : (length rows < fuel)%nat
}.

(** ** Properties *)

(** C7: UPDATE on a table without indexes, where no selected row gets longer: the rows that
    the predicate selects get the new values, of all columns or of those listed, in
    their places, and no other row changes. The listed columns ascend, for the executor
    reads the list in step with the columns and a column listed after a later one keeps its
    value. The answer has the tuple of the new values
    once per row selected. The write set gets an UPDATE with the old tuple for each,
    in order; where logging is on, the transaction then has these records to itself. *)
Theorem update_query cat e n P pins fuel o tm cols c blocks Ms rows pr new idxs :
  GetTableByOID cat o = Some tm → update_ready e n P pins fuel tm cols c blocks Ms rows pr new idxs →
  ∃ t e' P' c' Ms', Execute murmur3 fuel cat (UpdatePlanNode new idxs pr o) e = Ok (replicate (length (chosen pr rows)) t, e') ∧
    NewTupleFromSchema new (schema tm) = Ok t ∧ table_on e' n P' pins tm cols c' blocks Ms' ∧
    holds_rows cols c' ((λ x : Located, (fst x, if truth pr (snd x) then updated idxs new (snd x) else snd x)) <$> rows) ∧
    wrote (update_note tm cols <$> chosen pr rows) e e'.
Proof.
  intros Ho [HT HH HNo Hty Hnew H0' Hcl Hsh HRd HWr HSt Hpg Htu]. destruct (row_tuple cols new Hnew) as (nt & Ent & _ & Hsz & Hln).
  pose proof (holds_nodup _ _ _ _ _ (to_heap _ _ _ _ _ _ _ _ _ HT) HH) as ND.
  destruct (scan_actions_run murmur3 e n pins fuel tm cols c blocks rows pr Hty HRd HWr ND Hpg Htu (update_at murmur3 fuel tm new idxs) (λ t _, t = nt)
    (updated_record cols idxs new) (update_note tm cols) (λ _ _ _, True) (λ _, eq_refl))
    with (mk := UpdateExecutor new idxs pr (Some tm)) (depth := 1%nat) (P := P) (Ms := Ms) (x0 := UpdateExecutor new idxs pr (Some tm) None)
    as (ts & e' & P' & c' & Ms' & E & Hts & HT' & _ & HE & _ & HG); try done.
  - intros passed r row rest bs l e1 P1 c1 Ms1 HT1 HA Hok HB HR Ht HSt1 HW _.
    assert (Hs1 : shrinks cols idxs new row).
    { rewrite Forall_forall in Hsh. apply (Hsh (r, row)). unfold chosen. apply list_elem_of_filter. split; [done|]. rewrite HR. apply elem_of_app. right. by left. }
    destruct (update_at_run e1 n P1 pins tm cols c1 blocks Ms1 r row bs l new idxs nt fuel HT1 HA Hok HB HW) as (bs' & e2 & P2 & Ms2 & E2 & HB2 & HT2 & HD);
      [congruence|done|done|done|lia|done|done|].
    exists nt, (false, bs'), e2, P2, Ms2. split; [exact E2|]. split; [done|]. split; [split; [done|split; [apply Hs1|exact HB2]]|]. by repeat (split; [done|]).
  - exists nt, e', P', c', Ms'. split; [|split; [by rewrite (to_schema _ _ _ _ _ _ _ _ _ HT)|split; [done|split; [|done]]]].
    + unfold Execute. cbn [CreateExecutor height]. rewrite Ho. rewrite E. f_equal. f_equal. rewrite <- (Forall2_length _ _ _ Hts).
      clear -Hts. induction Hts as [|t x ts xs -> _ IH]; [done|]. cbn. by rewrite <- IH.
    + unfold holds_rows. clear -HE. induction HE as [|x y es rows Hx _ IH]; [constructor|]. rewrite fmap_cons. constructor; [|exact IH].
      unfold passed_record in Hx. destruct (truth pr (snd y)).
      * destruct Hx as (Hr & Hb & Hok & HB). split; [done|]. split; [done|]. exists (snd (snd x)). split; [|done].
        destruct x as [? []]. cbn in *. by subst.
      * destruct y as [r row]. exact Hx.
Qed.
End updates.

(** ** On the example database *)
#[local] Opaque db2.

(** The table of the example without its index. *)
Definition plain_table : TableMetadata := MkTableMetadata db_schema (text "t") table_0 [None; None] 0.
Definition plain_catalog : Catalog := MkCatalog {[0 := plain_table]} {[text "t" := plain_table]} 1 table_0.

(** [UPDATE t SET b = 'z' WHERE a = 5] *)
Definition db_new : list Value := [NewInteger 5; NewVarchar (text "z")].

Lemma update_query_witness : ∃ t e1, Execute example_murmur3 252 plain_catalog (UpdatePlanNode db_new (Some [1]) db_five 0) db2 = Ok ([t], e1) ∧
  NewTupleFromSchema db_new db_schema = Ok t.
Proof.
  destruct db2_on as (P & ids & Ms & HT & HH & _ & _).
  assert (HT' : table_on db2 2 P ∅ plain_table db_columns db_c2 (λ _, ids) Ms).
  { destruct HT as [S HF HS HL HHp _ _ _]. split; try done; intros [|[|j]]; done. }
  assert (Hok : row_ok db_columns db_new) by (split; [repeat constructor; try (vm_compute; done)|split; [reflexivity|vm_compute; reflexivity]]).
  destruct (update_query example_murmur3 plain_catalog db2 2 P ∅ 252 0 plain_table db_columns db_c2 (λ _, ids) Ms db_rows db_five db_new (Some [1]))
    as (t & e' & P' & c' & Ms' & E & Et & _); [reflexivity| |].
  - split.
    + exact HT'.
    + exact HH.
    + intros [|[|j]]; done.
    + reflexivity.
    + exact Hok.
    + vm_compute. reflexivity.
    + split; repeat constructor; lia.
    + rewrite db_chosen. constructor; [|constructor]. split; [exact Hok|]. split; vm_compute; [reflexivity|discriminate].
    + exact db_readable.
    + repeat constructor; intros _; apply writable_cases; left; apply db_own; [by left|by right].
    + vm_compute. discriminate.
    + cbn. lia.
    + cbn. lia.
  - exists t, e'. rewrite db_chosen in E. split; [exact E|exact Et].
Defined.

(** With the index on [a], the same update: the row is no longer found under its key,
    which has not changed. *)
Lemma updated_row_leaves_index :
  match Execute example_murmur3 252 db_catalog (UpdatePlanNode db_new (Some [1]) db_five 0) db2 with
  | Ok (_, e) =>
      (ts ← Execute example_murmur3 252 db_catalog (SeqScanPlanNode db_schema db_five 0) e; Ok (length (fst ts))) = Ok 1%nat ∧
      (ts ← Execute example_murmur3 252 db_catalog (HashScanIndexPlanNode db_schema (equals 0 (NewInteger 5)) 0) e; Ok (length (fst ts))) = Ok 0%nat
  | _ => False
  end.
Proof. vm_compute. split; reflexivity. Qed.

(** [UPDATE t SET b = 'z', a = 7 WHERE a = 5], with the columns listed in this order: [a]
    keeps its value. *)
Definition both_new : list Value := [NewInteger 7; NewVarchar (text "z")].
Example unsorted_list_partly_applied :
  match Execute example_murmur3 252 plain_catalog (UpdatePlanNode both_new (Some [1; 0]) db_five 0) db2 with
  | Ok (_, e) =>
      (ts ← Execute example_murmur3 252 plain_catalog (SeqScanPlanNode db_schema db_five 0) e;
       mapM (λ t, mapM (λ i, Tuples.GetValue t db_schema i) [0; 1]) (fst ts)) = Ok [[NewInteger 5; NewVarchar (text "z")]]
  | _ => False
  end.
Proof. vm_compute. reflexivity. Qed.
