(* ===== verification/Queries.v ===== *)
(** * Queries

    The answers of plans.  [means] gives a plan built of scans, index lookups, hash joins,
    sorting, aggregation and limits the answers it may have, from the tables' contents
    alone; the executors give one of them and change no page that was there.  A join may
    leave temporary pages, one of them pinned. *)

From Stdlib Require Import Strings.String Sorting.Sorted.
From S2P Require Import Prelude Bytes Types Tuples Disk LogRecord LogManager Replacer ClockReplacer Page BufferPool LockManager PoolView TablePage Engine TableHeap TableScan HashPage Probe HashTable HashIndex Expressions Plans Catalog TmpTuples Executors Ordering Grouping Rows Operators Joins IndexScan IndexedTables ExampleDatabase.

Section queries.
Variable murmur3 : list byte → list byte.
Hypothesis murmur3_size : ∀ key, zlen (murmur3 key) = 16.
Context {R : Type} `{Replacer R} `{SliceSort} `{MapRange}.
Implicit Types (e : Engine R).

(** ** Equality on an indexed column *)
Record equality_lookup (tm : TableMetadata) (cols : list Column) (rows : list Located) (j : nat) (v : Value) : Prop := {
  el_column : ∃ cj, cols !! j = Some cj ∧ valueType v = columnType cj ∧ exact_type (columnType cj) = true;
  el_index : ∃ ix, indexes tm !! j = Some (Some ix);
  el_searchable : searchable cols;
  el_value : storable v;
  el_fits : fixed_total cols + payload_total (zip cols (search_row cols j v)) < 2 ^ 32;
  el_rids : Forall (λ x : Located, 0 ≤ PageId (fst x) < 2 ^ 16 ∧ 0 ≤ SlotNum (fst x) < 2 ^ 16) rows;
  (** no other key of the column has its hash *)
  el_hash : Forall (λ x : Located, ∀ h, key_hash murmur3 j (snd x) = Ok h → key_hash murmur3 j (<[j := v]> (snd x)) = Ok h →
    snd x !! j = Some v) rows
}.

Definition with_key (j : nat) (v : Value) (rows : list Located) : list (list Value) :=
  (filter (λ x : Located, snd x !! j = Some v) rows).*2.

Lemma find_index_run (ixs : list (option IndexHandle)) ix : ∀ j k, ixs !! j = Some (Some ix) → find_index (Z.of_nat (k + j)) (Z.of_nat k) ixs = Ok ix.
Proof.
  induction ixs as [|o ixs IH]; intros j k Hj; [done|]. destruct j as [|j].
  - injection Hj as ->. cbn [find_index]. by rewrite Nat.add_0_r, Z.eqb_refl.
  - cbn in Hj. specialize (IH j (S k) Hj). replace (k + S j)%nat with (S k + j)%nat by lia.
    replace (Z.of_nat (S k)) with (Z.of_nat k + 1) in IH by lia. destruct o as [o|]; cbn [find_index]; [|done].
    by rewrite (proj2 (Z.eqb_neq _ _)) by lia.
Qed.

Lemma table_find_index e n P pins tm cols c blocks Ms j ix : table_on e n P pins tm cols c blocks Ms →
  indexes tm !! j = Some (Some ix) → find_index (Z.of_nat j) 0 (take (Z.to_nat (GetColumnNum tm)) (indexes tm)) = Ok ix.
Proof.
  intros HT Hj. destruct (to_columns _ _ _ _ _ _ _ _ _ HT) as (H1' & H2' & H3').
  unfold GetColumnNum, GetColumnCount. rewrite H2', u32_small by (unfold in_u32; lia). rewrite Nat2Z.id, take_ge by lia.
  apply (find_index_run (indexes tm) ix j 0 Hj).
Qed.

(** The joins of a plan; each leaves a page pinned. *)
Fixpoint joins (p : Plan) : nat :=
  match p with
  | LimitPlanNode c _ _ | AggregationPlanNode _ _ c _ _ _ _ | OrderbyPlanNode _ c _ _ => joins c
  | HashJoinPlanNode _ l r _ => Datatypes.S (joins l + joins r)
  | _ => 0
  end.
(** A join ends with an error that it is not done, and so does a limit over it. *)
Fixpoint says_done (p : Plan) : bool :=
  match p with
  | LimitPlanNode c _ _ => says_done c
  | HashJoinPlanNode _ _ _ _ => false
  | _ => true
  end.

Variable cat : Catalog.

Lemma lookup_opens e n P pins tm cols c blocks Ms rows j v fuel out outs :
  table_on e n P pins tm cols c blocks Ms → holds_rows cols c rows → indexed murmur3 tm rows Ms →
  Forall (λ x : Located, TableScan.readable (fst x) e) rows → equality_lookup tm cols rows j v → (capacity (blocks j) ≤ fuel)%nat →
  mapM (project_row out (schema tm)) (with_key j v rows) = Ok outs →
  ∃ found, found ≡ₚ outs ∧ ∀ depth,
    opens murmur3 e n fuel (rest_at P pins (nextPageID (diskManager (estore e)))) 0 0 true (S depth)
      (HashScanIndexExecutor out (equals (Z.of_nat j) v) (Some tm) []) (Some <$> found).
Proof.
  intros HT HH HX HRd [(cj & Hj & HTy & HEx) (ix & Hix) HSe Hv HFi HBi HHa] Hfu HM.
  pose proof (table_find_index _ _ _ _ _ _ _ _ _ j ix HT Hix) as Hfind.
  destruct HT as [S HF HS (HL & _) HHp HIx _ _]. destruct (HIx j ix Hix) as [I1 I2 (cs & HIP & HE & _)].
  destruct (Serialize_storable v Hv) as (kb & Ekb & _).
  destruct (hash_run murmur3 kb) as (h & Hh & _); [rewrite murmur3_size; lia|].
  destruct (HX j ix Hix) as (ps & HP & HFps).
  apply (index_scan_opens murmur3 e n fuel (rest_at P pins (nextPageID (diskManager (estore e)))) tm cols c rows HS HHp
    (clean_nothing c) HH HRd HBi ix j (blocks j) cs (eq_trans I1 HS) I2 HIP) with (cj := cj) (kb := kb) (h := h); try done.
  - by rewrite (table_length _ _ _ _ (ixp_pages _ _ _ _ HIP)).
  - exists ps. by rewrite HE.
  - rewrite Forall_forall in HHa |- *. intros x Hx Hk. apply (HHa x Hx h Hk).
    unfold key_hash in Hk |- *. destruct (snd x !! j) as [w|] eqn:Ew; [|done].
    rewrite list_lookup_insert_eq by by eapply lookup_lt_Some. cbn. rewrite Ekb. done.
Qed.

(** ** What a plan may answer *)
Section plans.
Variables (e0 : Engine R) (n : nat) (P : gmap Z (list byte)) (pins : gmap Z Z) (fuel : nat).
#[local] Abbreviation start := (rest_at P pins (nextPageID (diskManager (estore e0)))).

Lemma CreateExecutor_schema p : GetOutputSchema (CreateExecutor cat p) = OutputSchema p.
Proof. by destruct p. Qed.

(** The tuples can be sorted by the columns: their keys exist and can be compared. *)
Definition sortable (s : option Schema) (cols : list Z) (ts : list Tuple) : Prop :=
  (length ts < fuel)%nat ∧ Z.of_nat (length ts) < 2 ^ 31 ∧
  ∃ keys, Forall2 (λ k t, sort_key s cols t = Ok k) keys ts ∧ ∀ k k', k ∈ keys → k' ∈ keys → comparable_keys k k'.

(** The answers that a plan may give on these pages: all are equal up to the order in
    which sorting leaves equal keys, [range] the groups and an index its rows. *)
Inductive means : Plan → (list (option Tuple) → Prop) → Prop :=
  | means_scan s pr o tm c outs :
      GetTableByOID cat o = Some tm → heap_rep P (table tm) c →
      Forall (λ x : entry, TableScan.readable (fst x) e0) (heap_entries c) →
      (length c ≤ fuel)%nat → (length (heap_entries c) ≤ fuel)%nat →
      scan_rows s pr tm (scan (heap_entries c)) = Ok outs →
      means (SeqScanPlanNode s pr o) (λ l, l = Some <$> outs)
  | means_lookup s o tm cols c blocks Ms rows j v outs :
      GetTableByOID cat o = Some tm → table_on e0 n P pins tm cols c blocks Ms → holds_rows cols c rows →
      indexed murmur3 tm rows Ms → Forall (λ x : Located, TableScan.readable (fst x) e0) rows →
      equality_lookup tm cols rows j v → (capacity (blocks j) ≤ fuel)%nat →
      mapM (project_row s (schema tm)) (with_key j v rows) = Ok outs →
      means (HashScanIndexPlanNode s (equals (Z.of_nat j) v) o) (λ l, ∃ found, found ≡ₚ outs ∧ l = Some <$> found)
  | means_limit p A limit offset :
      means p A → Z.of_nat limit < 2 ^ 32 - 1 → Z.of_nat offset < 2 ^ 32 →
      means (LimitPlanNode p (Z.of_nat limit) (Z.of_nat offset)) (λ l, ∃ l0, A l0 ∧ l = limit_rows limit offset l0)
  | means_orderby p A s cols types :
      means p A → (length cols ≤ length types)%nat →
      (∀ l, A l → ∃ ts, l = Some <$> ts ∧ sortable (OutputSchema p) cols ts) →
      means (OrderbyPlanNode s p cols types)
        (λ l, ∃ ts sorted, A (Some <$> ts) ∧ l = Some <$> sorted ∧ sorted ≡ₚ ts ∧
           key_sorted types (sort_key (OutputSchema p) cols) sorted)
  | means_aggregation p A s exprs hv gb ag types :
      means p A → mapM agg_expr exprs = Ok exprs →
      (∀ l, A l → ∃ ts rows, l = Some <$> ts ∧ (length ts < fuel)%nat ∧ Z.of_nat (length ts) < 2 ^ 31 - 1 ∧
         mapM (agg_row gb ag (OutputSchema p)) ts = Ok rows ∧ groupable murmur3 (length ag) types rows ∧
         ∀ gs, groups_of (length ag) types rows gs → ∃ ks outs, kept hv gs = Ok ks ∧ mapM (group_row s exprs) ks = Ok outs) →
      means (AggregationPlanNode s exprs p hv gb ag types)
        (λ l, ∃ ts rows gs ks outs, A (Some <$> ts) ∧ mapM (agg_row gb ag (OutputSchema p)) ts = Ok rows ∧
           groups_of (length ag) types rows gs ∧ kept hv gs = Ok ks ∧ mapM (group_row s exprs) ks = Ok outs ∧ l = Some <$> outs)
  | means_join s p1 p2 pr A B exprs le re key rk :
      means p1 A → means p2 B → says_done p2 = true →
      (∀ l1 l2, A l1 → B l2 → ∃ ts us rows, l1 = Some <$> ts ∧ l2 = Some <$> us ∧
         joinable murmur3 fuel s pr (OutputSchema p1) (OutputSchema p2) (OutputSchema p1) (OutputSchema p2) exprs le re key rk ts us ∧
         nested_loop s pr (OutputSchema p1) (OutputSchema p2) exprs key rk ts us = Ok rows) →
      means (HashJoinPlanNode s p1 p2 pr)
        (λ l, ∃ ts us rows, A (Some <$> ts) ∧ B (Some <$> us) ∧
           nested_loop s pr (OutputSchema p1) (OutputSchema p2) exprs key rk ts us = Ok rows ∧ l = Some <$> rows).

Lemma plan_opens p A : means p A →
  ∃ l, A l ∧ ∀ depth, (height p ≤ depth)%nat →
    opens murmur3 e0 n fuel start (joins p) (joins p * fuel) (says_done p) depth (CreateExecutor cat p) l.
Proof.
  induction 1 as [s pr o tm c outs Ht HR HRd Hp Hf Hs|s o tm cols c blocks Ms rows j v outs Ht HT HH HX HRd HE Hfu HM
    |p A limit offset _ (l & HA & HO) Hl Ho
    |p A s cols types _ (l & HA & HO) HT HS|p A s exprs hv gb ag types _ (l & HA & HO) Hex HS
    |s p1 p2 pr A B exprs le re key rk _ (l1 & HA & HO1) _ (l2 & HB & HO2) Hd HJ]; cbn [height CreateExecutor joins says_done].
  - eexists. split; [done|]. intros [|depth] Hh; [lia|]. rewrite Ht. eapply scan_opens; [exact HR|apply clean_nothing|done..].
  - destruct (lookup_opens _ _ _ _ _ _ _ _ _ _ j v fuel s outs HT HH HX HRd HE Hfu HM) as (found & HP & HO).
    exists (Some <$> found). split; [by exists found|]. intros [|depth] Hh; [lia|]. rewrite Ht. apply HO.
  - exists (limit_rows limit offset l). split; [by exists l|]. intros [|depth] Hh; [lia|]. apply limit_opens; [apply HO; lia|done..].
  - destruct (HS l HA) as (ts & -> & Hfu & Hle & keys & HK & HC). rewrite <- (CreateExecutor_schema p) in HK.
    destruct (orderby_opens murmur3 e0 n fuel (CreateExecutor cat p) ts s cols types keys Hfu Hle HK HT HC) as (sorted & HP & HKS & HO').
    rewrite CreateExecutor_schema in HKS. exists (Some <$> sorted). split; [by exists ts, sorted|].
    intros [|depth] Hh; [lia|]. eapply HO', HO. lia.
  - destruct (HS l HA) as (ts & rows & -> & Hfu & Hle & Hr & HG & HK). pose proof Hr as Hr'. rewrite <- (CreateExecutor_schema p) in Hr'.
    destruct (aggregation_opens murmur3 e0 n fuel (CreateExecutor cat p) ts rows s exprs gb ag types Hfu Hle Hr' HG Hex) as (gs & HGs & HO').
    destruct (HK gs HGs) as (ks & outs & Hks & Ho). exists (Some <$> outs). split; [by exists ts, rows, gs, ks, outs|].
    intros [|depth] Hh; [lia|]. eapply HO'; [apply HO; lia|done|done].
  - destruct (HJ l1 l2 HA HB) as (ts & us & rows & -> & -> & HJo & HN). exists (Some <$> rows). split; [by exists ts, us, rows|].
    intros [|depth] Hh; [lia|]. rewrite <- !CreateExecutor_schema in HJo, HN. rewrite Hd in HO2.
    eapply opens_more; [|eapply join_opens; [apply HO1; lia|apply HO2; lia|rewrite !CreateExecutor_schema in *; exact HJo|exact HN]].
    pose proof (proj1 (jo_fuel _ _ _ _ _ _ _ _ _ _ _ _ _ _ _ HJo)). lia.
Qed.

Lemma plan_runs p A :
  shows (estore e0) n (quiet P pins) → frames_for (2 + joins p) n pins → means p A → (∀ l, A l → (length l < fuel)%nat) →
  (joins p ≠ 0%nat → nextPageID (diskManager (estore e0)) + Z.of_nat (joins p * fuel) < 2 ^ 19) →
  ∃ l e' Z, Execute murmur3 fuel cat p e0 = Ok (somes l, e') ∧ A l ∧ rests e0 n Z e' ∧ grows (joins p) (joins p * fuel) start Z.
Proof.
  intros S HF HM HL HN. destruct (plan_opens p A HM) as (l & HA & HO).
  destruct (HO (height p) ltac:(lia) start e0 (extends_refl _) HF HN (rests_start _ _ _ _ S)) as (x & Z & e1 & E1 & Q1 & HG & HS & _).
  destruct (run_executor_run murmur3 e0 n fuel Z _ (height p) l fuel x Z e1 HS (HL l HA) (extends_refl _)) as (e2 & E2 & Q2);
    [by eapply grows_frames|done|].
  exists l, e2, Z. split; [|done]. unfold Execute. by rewrite (st_bind_run _ _ _ _ _ E1).
Qed.

(** A query without a join leaves the pages and the pins as they are. *)
Lemma quiet_runs p A :
  shows (estore e0) n (quiet P pins) → frames_for 2 n pins → means p A → joins p = 0%nat → (∀ l, A l → (length l < fuel)%nat) →
  ∃ l e', Execute murmur3 fuel cat p e0 = Ok (somes l, e') ∧ A l ∧ quiet_since e0 n P pins e'.
Proof.
  intros S HF HM HJ HL. destruct (plan_runs p A S) as (l & e' & Z & E & HA & Q & HG); try done; [by rewrite HJ|].
  rewrite (gr_same _ _ _ _ HG HJ) in Q. exists l, e'. split; [done|]. split; [done|]. split; [apply Q|by apply rests_reads in Q].
Qed.
End plans.

Lemma somes_fmap (ts : list Tuple) : somes (Some <$> ts) = ts.
Proof. induction ts as [|t ts IH]; [done|]. cbn. by f_equal. Qed.

Lemma somes_limit limit : ∀ offset ts, somes (limit_rows limit offset (Some <$> ts)) = take limit (drop offset ts).
Proof.
  intros offset ts. revert limit offset. induction ts as [|t ts IH]; intros limit offset; [by destruct limit, offset|].
  destruct offset as [|offset]; [destruct limit as [|limit]; [done|]|]; cbn [fmap list_fmap limit_rows].
  - change (somes (Some t :: ?l)) with (t :: somes l). cbn [drop take]. f_equal. rewrite IH. by rewrite drop_0.
  - change (somes (None :: ?l)) with (somes l). apply IH.
Qed.

Lemma limit_length limit : ∀ offset l, (length (limit_rows limit offset l) ≤ length l)%nat.
Proof.
  intros offset l. revert limit offset. induction l as [|[t|] l IH]; intros limit offset; [done| |cbn; lia].
  destruct offset as [|offset]; [destruct limit as [|limit]; [cbn; lia|]|]; cbn [limit_rows length]; [specialize (IH limit 0%nat)|specialize (IH limit offset)]; lia.
Qed.

(** ** Properties *)

(** C2: every query of scans, index lookups, hash joins, sorting, grouping and limits that
    [means] gives a meaning over the tables' contents gets an answer that this meaning
    allows. With two free frames and one more for each join, and page ids left below 2 ^ 19
    for the temporary pages of the joins, it returns, without a panic and with the fuel of
    its rows; no page that was there changes, nothing is logged and no record is locked
    exclusively. A join may leave temporary pages behind, and at most one more page pinned
    than before; a query without joins leaves the pages and the pins as they were. *)
Theorem query_answers e n P pins fuel p A :
  shows (estore e) n (quiet P pins) → frames_for (2 + joins p) n pins → means e n P pins fuel p A → (∀ l, A l → (length l < fuel)%nat) →
  (joins p ≠ 0%nat → nextPageID (diskManager (estore e)) + Z.of_nat (joins p * fuel) < 2 ^ 19) →
  ∃ l e' P' pins' D, Execute murmur3 fuel cat p e = Ok (somes l, e') ∧ A l ∧
    shows (estore e') n (leaky D P' pins') ∧ query_step e e' ∧ P ⊆ P' ∧ pins ⊆ pins' ∧
    (base.size pins' ≤ base.size pins + joins p)%nat ∧
    (joins p = 0%nat → P' = P ∧ pins' = pins ∧ D = ∅ ∧ read_step e e').
Proof.
  intros S HF HM HL HN. destruct (plan_runs e n P pins fuel p A S HF HM HL HN) as (l & e' & [P' pins' D nx] & E & HA & Q & HG).
  exists l, e', P', pins', D. split; [done|]. split; [done|]. split; [apply Q|]. split; [apply Q|]. pose proof HG as [[HP _] HPi Hsz _ _ HSm].
  split; [done|]. split; [done|]. split; [done|]. intros HJ. injection (HSm HJ) as -> -> -> ->. by apply rests_reads in Q.
Qed.

(** The table that a plan reads: its rows, as its users see them. *)
Record table_rows e (P : gmap Z (list byte)) (fuel : nat) (o : Z) (tm : TableMetadata) (cols : list Column)
    (c : list (Z * slots)) (rows : list Located) : Prop := {
  tr_table : GetTableByOID cat o = Some tm;
  tr_schema : schema tm = NewSchema cols;
  tr_heap : heap_rep P (table tm) c;
  tr_rows : holds_rows cols c rows;
  tr_readable : Forall (λ x : Located, TableScan.readable (fst x) e) rows;
  tr_pages : (length c ≤ fuel)%nat;
  tr_turns : (length rows < fuel)%nat
}.

Lemma scan_means e n P pins fuel o tm cols c rows out pr hit outs :
  table_rows e P fuel o tm cols c rows → filter_rows pr rows = Ok hit → mapM (project_row out (schema tm)) hit.*2 = Ok outs →
  means e n P pins fuel (SeqScanPlanNode out pr o) (λ l, l = Some <$> outs).
Proof.
  intros [Ht HS HH HRo HRd Hp Hf] HFi HM. eapply means_scan; try done.
  - clear -HRo HRd. revert HRd. induction HRo as [|x y l rows (Hx & _) _ IH]; intros HRd; [constructor|].
    apply Forall_cons in HRd as [Hy HRd]. constructor; [by rewrite Hx|by apply IH].
  - rewrite (Forall2_length _ _ _ HRo). lia.
  - by eapply scan_rows_run.
Qed.

Lemma typed_hits e P fuel o tm cols c rows pr : table_rows e P fuel o tm cols c rows → typed (columnType <$> cols) pr →
  filter_rows pr rows = Ok (filter (λ x : Located, truth pr (snd x) = true) rows).
Proof.
  intros HT Hty. eapply typed_filter; [|exact Hty]. pose proof (tr_rows _ _ _ _ _ _ _ _ HT) as HR. clear -HR.
  unfold holds_rows in HR. induction HR as [|x y l rows (_ & Hok & _) _ IH]; by constructor.
Qed.

(** The rows of the answer of a selection and projection. *)
Definition selected (pr : option Expression) (rows : list Located) : list (list Value) :=
  (filter (λ x : Located, truth pr (snd x) = true) rows).*2.

Lemma selected_length pr rows : (length (selected pr rows) ≤ length rows)%nat.
Proof. unfold selected. rewrite length_fmap. apply length_filter. Qed.

(** C8: SELECT with WHERE, ORDER BY, LIMIT and OFFSET, ordered by columns that hold Integers
    or strings and no NULL in the rows selected: other values have no order that the
    executor's comparison would follow. For a predicate that type checks, the answer is a
    stretch of the projected rows where the predicate is true, sorted by the columns and
    directions given; which of equal rows comes first is open. LIMIT and OFFSET fit in 32
    bits, and LIMIT is not the largest such number. *)
Theorem top_n_query e n P pins fuel o tm cs c rows out pr outs cols types limit offset :
  shows (estore e) n (quiet P pins) → frames_for 2 n pins → table_rows e P fuel o tm cs c rows →
  typed (columnType <$> cs) pr → mapM (project_row out (schema tm)) (selected pr rows) = Ok outs →
  sortable fuel (Some out) cols outs → (length cols ≤ length types)%nat →
  Z.of_nat limit < 2 ^ 32 - 1 → Z.of_nat offset < 2 ^ 32 →
  ∃ sorted e', Execute murmur3 fuel cat
      (LimitPlanNode (OrderbyPlanNode (Some out) (SeqScanPlanNode out pr o) cols types) (Z.of_nat limit) (Z.of_nat offset)) e =
      Ok (take limit (drop offset sorted), e') ∧
    sorted ≡ₚ outs ∧ key_sorted types (sort_key (Some out) cols) sorted ∧
    shows (estore e') n (quiet P pins) ∧ read_step e e'.
Proof.
  intros S HF HT Hty HM HSo HL Hl Ho.
  pose proof (scan_means e n P pins fuel o tm cs c rows out pr _ outs HT (typed_hits _ _ _ _ _ _ _ _ _ HT Hty) HM) as M1.
  pose proof (means_orderby e n P pins fuel _ _ (Some out) cols types M1 HL) as M2.
  assert (HS1 : ∀ l, l = Some <$> outs → ∃ ts, l = Some <$> ts ∧ sortable fuel (OutputSchema (SeqScanPlanNode out pr o)) cols ts) by (intros l ->; by exists outs).
  specialize (M2 HS1). pose proof (means_limit e n P pins fuel _ _ limit offset M2 Hl Ho) as M3.
  destruct (quiet_runs e n P pins fuel _ _ S HF M3 eq_refl) as (l & e' & E & (l0 & (ts & sorted & Ets & -> & HP & HK) & ->) & S' & RS).
  - intros l (l0 & (ts & sorted & Ets & -> & HP & _) & ->). apply (inj (fmap Some)) in Ets as ->.
    eapply Nat.le_lt_trans; [apply limit_length|]. rewrite length_fmap, (Permutation_length HP). apply HSo.
  - apply (inj (fmap Some)) in Ets as ->. exists sorted, e'. rewrite somes_limit in E. done.
Qed.

(** The rows a grouping sees, with what it needs of them: keys with different hashes, and
    integers or NULLs to aggregate. *)
Record integer_groups (types : list AggregationType) (arows : list Row) : Prop := {
  ig_keys : Forall (λ r : Row, Forall storable (fst r)) arows;
  ig_values : Forall (λ r : Row, length (snd r) = length types ∧ Forall int_or_null (snd r)) arows;
  ig_hash : ∀ k k', k ∈ arows.*1 → k' ∈ arows.*1 → hash_of murmur3 k' = hash_of murmur3 k → k' = k
}.

(** The aggregates of the group with key [k]. *)
Definition aggregates_of (types : list AggregationType) (arows : list Row) (k : list Value) : list Value :=
  imap (λ i t, sql_aggregate t (column i (group k arows))) types.

Lemma group_forall (Q : list Value → Prop) k arows : Forall (λ r : Row, Q (snd r)) arows → Forall Q (group k arows).
Proof.
  intros HQ. unfold group. rewrite Forall_fmap, Forall_forall. intros r Hr%list_elem_of_filter.
  rewrite Forall_forall in HQ. apply HQ, Hr.
Qed.

Lemma group_aggregate types arows k : integer_groups types arows →
  aggregate (length types) types (group k arows) = Ok (aggregates_of types arows k).
Proof.
  intros [_ HV _]. apply aggregate_ints. by apply (group_forall (λ r, length r = length types ∧ Forall int_or_null r)).
Qed.

Lemma integer_groupable types arows : integer_groups types arows → groupable murmur3 (length types) types arows.
Proof.
  intros HG. pose proof HG as [HK _ HI]. split; [|done]. intros k Hk. split; [|eexists; by apply group_aggregate].
  apply hashes_storable; [done|]. apply list_elem_of_fmap in Hk as (r & -> & Hr). rewrite Forall_forall in HK. by apply HK.
Qed.

Lemma groups_aggregates types arows gs : integer_groups types arows → groups_of (length types) types arows gs →
  gs = (λ k, (k, aggregates_of types arows k)) <$> gs.*1.
Proof.
  intros HG (_ & _ & HF). induction HF as [|[k vs] gs Hg _ IH]; [done|]. cbn [fmap list_fmap fst].
  cbn in Hg. rewrite (group_aggregate types arows k HG) in Hg. injection Hg as <-. by f_equal.
Qed.

(** The groups that come out, and their rows. *)
Definition out_groups (hv : option Expression) (gs : list Row) : list Row :=
  filter (having_true hv) (take (length gs - 1) gs) ++ drop (length gs - 1) gs.

Lemma having_groups types arows s exprs hv : integer_groups types arows →
  (∀ k, k ∈ arows.*1 → (∃ b, passes hv (k, aggregates_of types arows k) = Ok b) ∧
     ∃ t, group_row s exprs (k, aggregates_of types arows k) = Ok t) →
  ∀ gs, groups_of (length types) types arows gs →
  ∃ ts, kept hv gs = Ok (out_groups hv gs) ∧ mapM (group_row s exprs) (out_groups hv gs) = Ok ts.
Proof.
  intros HG HK gs HGs. pose proof (groups_aggregates _ _ _ HG HGs) as Egs. destruct HGs as (_ & HE & _).
  assert (HF' : Forall (λ g : Row, (∃ b, passes hv g = Ok b) ∧ ∃ t, group_row s exprs g = Ok t) gs).
  { rewrite Egs, Forall_fmap, Forall_forall. intros k Hk. apply HK. by apply HE. }
  assert (HMs : ∀ l, (∀ g, g ∈ l → g ∈ gs) → ∃ ts, mapM (group_row s exprs) l = Ok ts).
  { rewrite Forall_forall in HF'. clear -HF'. induction l as [|g l IH]; intros Hl; [by exists []|].
    destruct (HF' g (Hl g ltac:(by left))) as (_ & t & Ht). destruct IH as (ts & Hts); [intros g' Hg'; apply Hl; by right|].
    exists (t :: ts). cbn. by rewrite Ht, Hts. }
  destruct gs as [|g gs _] using rev_ind; [by exists []|]. clear Egs HE. apply Forall_app in HF' as [HFi _].
  assert (Eo : out_groups hv (gs ++ [g]) = filter (having_true hv) gs ++ [g]).
  { unfold out_groups. rewrite length_app. cbn [length]. replace (length gs + 1 - 1)%nat with (length gs) by lia.
    by rewrite take_app_length, drop_app_length. }
  rewrite Eo. destruct (HMs (filter (having_true hv) gs ++ [g])) as [ts Hts].
  { intros g'. rewrite !elem_of_app, list_elem_of_filter. naive_solver. }
  exists ts. split; [|done]. apply kept_snoc. eapply Forall_impl; [exact HFi|]. by intros ? [? _].
Qed.

(** C9: GROUP BY with COUNT, SUM, MIN and MAX over integers and NULLs, where different keys
    have different 32-bit hashes: the executor tells groups apart by the hash alone. There
    is one group per key that occurs, with the aggregates of all rows with that key: COUNT
    of the rows and SUM wrapped to 32 bits, MIN and MAX of the values that are not NULL.
    Every group gives a row of the answer when HAVING is true of it; the last one that the
    map's iteration finds does so whatever HAVING says. *)
Theorem group_by_query e n P pins fuel o tm cs c rows out pr outs s exprs hv gb ag types arows :
  shows (estore e) n (quiet P pins) → frames_for 2 n pins → table_rows e P fuel o tm cs c rows →
  typed (columnType <$> cs) pr → mapM (project_row out (schema tm)) (selected pr rows) = Ok outs →
  mapM (agg_row gb ag (Some out)) outs = Ok arows → integer_groups types arows → length ag = length types →
  mapM agg_expr exprs = Ok exprs → Z.of_nat (length rows) < 2 ^ 31 - 1 →
  (∀ k, k ∈ arows.*1 → (∃ b, passes hv (k, aggregates_of types arows k) = Ok b) ∧
     ∃ t, group_row s exprs (k, aggregates_of types arows k) = Ok t) →
  ∃ ks ts e', Execute murmur3 fuel cat (AggregationPlanNode s exprs (SeqScanPlanNode out pr o) hv gb ag types) e = Ok (ts, e') ∧
    NoDup ks ∧ (∀ k, k ∈ ks ↔ k ∈ arows.*1) ∧
    (let gs := (λ k, (k, aggregates_of types arows k)) <$> ks in
     mapM (group_row s exprs) (out_groups hv gs) = Ok ts) ∧
    shows (estore e') n (quiet P pins) ∧ read_step e e'.
Proof.
  intros S HF HT Hty HM Ha HG Hag Hex Hlen HK.
  pose proof (scan_means e n P pins fuel o tm cs c rows out pr _ outs HT (typed_hits _ _ _ _ _ _ _ _ _ HT Hty) HM) as M1.
  assert (Hol : (length outs ≤ length rows)%nat) by (rewrite (mapM_length_Ok _ _ _ HM); apply selected_length).
  pose proof (tr_turns _ _ _ _ _ _ _ _ HT) as Hturns.
  pose proof (having_groups types arows s exprs hv HG HK) as Hkept. rewrite <- Hag in Hkept.
  assert (HS1 : ∀ l, l = Some <$> outs → ∃ ts rows0, l = Some <$> ts ∧ (length ts < fuel)%nat ∧ Z.of_nat (length ts) < 2 ^ 31 - 1 ∧
     mapM (agg_row gb ag (OutputSchema (SeqScanPlanNode out pr o))) ts = Ok rows0 ∧ groupable murmur3 (length ag) types rows0 ∧
     ∀ gs, groups_of (length ag) types rows0 gs → ∃ ks outs0, kept hv gs = Ok ks ∧ mapM (group_row s exprs) ks = Ok outs0).
  { intros l ->. exists outs, arows. split; [done|]. split; [lia|]. split; [lia|]. split; [done|].
    split; [rewrite Hag; by apply integer_groupable|]. intros gs HGs. destruct (Hkept gs HGs) as (o0 & H1' & H2'). by exists (out_groups hv gs), o0. }
  pose proof (means_aggregation e n P pins fuel _ _ s exprs hv gb ag types M1 Hex HS1) as M2.
  destruct (quiet_runs e n P pins fuel _ _ S HF M2 eq_refl) as (l & e' & E & (ts0 & rows0 & gs & ks & outs0 & E0 & Er & HGs & Ek & Eo & ->) & S' & RS).
  - intros l (ts0 & rows0 & gs & ks & outs0 & E0 & Er & HGs & Ek & Eo & ->). rewrite length_fmap, (mapM_length_Ok _ _ _ Eo).
    apply (inj (fmap Some)) in E0 as <-. cbn [OutputSchema] in Er. assert (rows0 = arows) as -> by congruence.
    pose proof (groups_of_length _ _ _ _ HGs) as Hgl. rewrite (mapM_length_Ok _ _ _ Ha) in Hgl.
    destruct (Hkept gs HGs) as (_ & Ek' & _). assert (ks = out_groups hv gs) as -> by congruence.
    unfold out_groups. rewrite length_app, length_drop.
    pose proof (length_filter (having_true hv) (take (length gs - 1) gs)) as HL1. rewrite length_take in HL1. lia.
  - apply (inj (fmap Some)) in E0 as <-. cbn [OutputSchema] in Er. assert (rows0 = arows) as -> by congruence.
    destruct (Hkept gs HGs) as (_ & Ek' & _). assert (ks = out_groups hv gs) as -> by congruence.
    rewrite Hag in HGs. pose proof (groups_aggregates _ _ _ HG HGs) as Egs. pose proof HGs as (HD & HE & _).
    exists gs.*1, outs0, e'. rewrite somes_fmap in E. rewrite <- Egs. done.
Qed.

(** C10: an index lookup answers what the sequential scan with the same equality answers, up
    to the order of the rows, in a table without a Boolean column and for a value of an
    Integer or string column, as long as the index has an entry for every row, the RIDs
    fit in 16 + 16 bits and no other key of the column has the hash of the one searched.
    With a Boolean column the search tuple cannot be made ([boolean_column_panics]). *)
Theorem index_scan_is_seq_scan e n P pins fuel o tm cols c blocks Ms rows out outs j v :
  table_on e n P pins tm cols c blocks Ms → indexed murmur3 tm rows Ms → table_rows e P fuel o tm cols c rows →
  equality_lookup tm cols rows j v → (capacity (blocks j) ≤ fuel)%nat →
  mapM (project_row out (schema tm)) (with_key j v rows) = Ok outs →
  ∃ found e1 e2, Execute murmur3 fuel cat (SeqScanPlanNode out (Some (equals (Z.of_nat j) v)) o) e = Ok (outs, e1) ∧
    Execute murmur3 fuel cat (HashScanIndexPlanNode out (equals (Z.of_nat j) v) o) e = Ok (found, e2) ∧
    found ≡ₚ outs ∧ quiet_since e n P pins e1 ∧ quiet_since e n P pins e2.
Proof.
  intros HT HX HTr HE Hfu HM. pose proof HTr as [Ht HS _ HRo HRd _ Hturns].
  pose proof (to_frames _ _ _ _ _ _ _ _ _ HT) as HF. pose proof (to_shows _ _ _ _ _ _ _ _ _ HT) as S.
  assert (Hlen : (length outs ≤ length rows)%nat).
  { rewrite (mapM_length_Ok _ _ _ HM). unfold with_key. rewrite length_fmap. apply length_filter. }
  pose proof HE as [(cj & Hj & HTy & HEx) _ _ Hv _ _ _].
  pose proof (hits_by_predicate cols c rows HRo j cj v Hj Hv HTy HEx) as Hhits.
  pose proof (scan_means e n P pins fuel o tm cols c rows out _ _ outs HTr Hhits HM) as M1.
  destruct (quiet_runs e n P pins fuel _ _ S HF M1 eq_refl) as (l1 & e1 & E1 & -> & Q1); [intros l ->; rewrite length_fmap; lia|].
  pose proof (means_lookup e n P pins fuel out o tm cols c blocks Ms rows j v outs Ht HT HRo HX HRd HE Hfu HM) as M2.
  destruct (quiet_runs e n P pins fuel _ _ S HF M2 eq_refl) as (l2 & e2 & E2 & (found & HP & ->) & Q2).
  { intros l (found & HP & ->). rewrite length_fmap, (Permutation_length HP). lia. }
  exists found, e1, e2. rewrite somes_fmap in E1, E2. done.
Qed.

(** *** Statements *)
Lemma Execute_insert e fuel o tm row e' : GetTableByOID cat o = Some tm → (0 < fuel)%nat →
  insert_rows murmur3 fuel tm [row] e = Ok (false, e') →
  Execute murmur3 fuel cat (InsertPlanNode [row] o) e = Ok ([], e').
Proof.
  intros Ht Hf E. unfold Execute. cbn [CreateExecutor height Init]. rewrite Ht. rewrite (st_bind_run _ _ e _ _ eq_refl).
  destruct fuel as [|fuel]; [lia|]. cbn [run_executor Next deref]. unfold mbind, st_mbind. cbn [st_lift res_mbind res_bind].
  unfold mbind, res_mbind. cbn [res_bind]. rewrite E. done.
Qed.

(** C5: what INSERT stores, a lookup finds. Into a table with indexes on its columns, kept
    complete so far, INSERT of a row gives it a record [r] and an entry in every
    index, and the lookup of one of its values in an index then answers the row,
    together with the rows that had the value before.

    For this the packed RID [r] was never in one of the indexes, and each has a free cell
    ([room_for]): to a record whose row was deleted before an index refuses the entry, and
    the new row is not found ([reinserted_row_not_found] in [Deletes]).  The lookup has the
    conditions of every lookup ([equality_lookup]): an Integer or string column, no Boolean
    column in the table, RIDs of 16 + 16 bits, no other key with the same hash. *)
Theorem inserted_row_is_found e n P pins fuel o tm cols c blocks Ms rows row bs c' r out t0 outs j v :
  table_on e n P pins tm cols c blocks Ms → holds_rows cols c rows → indexed murmur3 tm rows Ms → GetTableByOID cat o = Some tm →
  row_ok cols row → bytes_of cols row bs → 0 < zlen bs → zlen bs + sizeTuple ≤ free_space [] →
  page_in_range (nextPageID (diskManager (estore e))) → (length c < fuel)%nat → (S (length rows) < fuel)%nat →
  heap_insert (nextPageID (diskManager (estore e))) bs c = (c', r) → (elogging e = true → grantable r (etxn e) (elocks e)) →
  room_for tm blocks Ms r fuel → Forall (λ x : Located, TableScan.readable (fst x) e) ((r, row) :: rows) →
  row !! j = Some v → equality_lookup tm cols ((r, row) :: rows) j v →
  project_row out (schema tm) row = Ok t0 → mapM (project_row out (schema tm)) (with_key j v rows) = Ok outs →
  ∃ e1 P1 Ms1 rows1 found e2, Execute murmur3 fuel cat (InsertPlanNode [row] o) e = Ok ([], e1) ∧
    table_on e1 n P1 pins tm cols c' blocks Ms1 ∧ holds_rows cols c' rows1 ∧ rows1 ≡ₚ (r, row) :: rows ∧ indexed murmur3 tm rows1 Ms1 ∧
    Execute murmur3 fuel cat (HashScanIndexPlanNode out (equals (Z.of_nat j) v) o) e1 = Ok (found, e2) ∧ found ≡ₚ t0 :: outs ∧
    quiet_since e1 n P1 pins e2.
Proof.
  intros HT HH HX Ht Hok HB H0' Hfit HRn Hfu Hfu2 HI HG HRm HRd Hv HE Ht0 HM.
  destruct (insert_row_run murmur3 murmur3_size e n P pins tm cols c blocks Ms rows row bs _ c' r fuel HT HH HX Hok HB H0' Hfit eq_refl HRn Hfu HI HG HRm)
    as (e1 & P1 & rows1 & Ms1 & E1 & HT1 & HH1 & HP & HX1 & _ & ea & HLg & Htx & Hlk & _).
  assert (HRd1 : Forall (λ x : Located, TableScan.readable (fst x) e1) rows1).
  { rewrite HP. eapply Forall_impl; [exact HRd|]. intros x Hx u Hu. rewrite Htx. rewrite Hlk in Hu.
    exact (insert_readable c _ r _ e ea _ HLg Hx u Hu). }
  assert (HE1 : equality_lookup tm cols rows1 j v) by (destruct HE; split; try done; by rewrite HP).
  assert (HM1 : ∃ outs1, mapM (project_row out (schema tm)) (with_key j v rows1) = Ok outs1 ∧ outs1 ≡ₚ t0 :: outs).
  { apply (mapM_perm _ (row :: with_key j v rows)); [|by cbn; rewrite Ht0, HM]. unfold with_key. rewrite HP.
    rewrite filter_cons_True by done. done. }
  destruct HM1 as (outs1 & HM1 & HP1).
  assert (Hcap : (capacity (blocks j) ≤ fuel)%nat) by (destruct (el_index _ _ _ _ _ HE) as [ix Hix]; by destruct (HRm j ix Hix) as (_ & _ & ?)).
  pose proof (means_lookup e1 n P1 pins fuel out o tm cols c' blocks Ms1 rows1 j v outs1 Ht HT1 HH1 HX1 HRd1 HE1 Hcap HM1) as M.
  destruct (quiet_runs e1 n P1 pins fuel _ _ (to_shows _ _ _ _ _ _ _ _ _ HT1) (to_frames _ _ _ _ _ _ _ _ _ HT1) M eq_refl) as (l & e2 & E2 & (found & HPf & ->) & Q).
  { intros l (found & HPf & ->). rewrite length_fmap, (Permutation_length HPf), (mapM_length_Ok _ _ _ HM1). unfold with_key.
    rewrite length_fmap. pose proof (length_filter (λ x : Located, snd x !! j = Some v) rows1) as HL. rewrite (Permutation_length HP) in HL. cbn in HL. lia. }
  rewrite somes_fmap in E2. exists e1, P1, Ms1, rows1, found, e2. split; [apply (Execute_insert _ _ _ tm); (done || lia)|].
  split; [done|]. split; [done|]. split; [done|]. split; [done|]. split; [done|]. split; [by rewrite HPf|done].
Qed.
End queries.

(** ** On the example database *)
Lemma db_table_rows P Ms ids : table_on db2 2 P ∅ db_table db_columns db_c2 (λ _, ids) Ms →
  table_rows db_catalog db2 P 252 0 db_table db_columns db_c2 db_rows.
Proof.
  intros HT. split; [reflexivity|reflexivity|exact (to_heap _ _ _ _ _ _ _ _ _ HT)|exact db_holds_rows|exact db_readable|cbn; lia|cbn; lia].
Qed.

(** [SELECT a, b FROM t WHERE a < 10 ORDER BY a LIMIT 1 OFFSET 1] *)
Definition db_where : option Expression :=
  Some (Comparison (ColumnValue 0 0 Integer) (ConstantValue (NewInteger 10) Integer) LessThan Boolean).
Definition db_tuple (row : list Value) : Tuple :=
  match NewTupleFromSchema row db_schema with Ok t => t | _ => ZeroTuple end.

Lemma top_n_query_witness : ∃ sorted e',
  Execute example_murmur3 252 db_catalog
    (LimitPlanNode (OrderbyPlanNode (Some db_schema) (SeqScanPlanNode db_schema db_where 0) [0] [ASC]) 1 1) db2 =
    Ok (take 1 (drop 1 sorted), e') ∧ sorted ≡ₚ [db_tuple db_row1; db_tuple db_row2].
Proof.
  destruct db2_on as (P & ids & Ms & HT & _).
  destruct (top_n_query example_murmur3 example_murmur3_size db_catalog db2 2 P ∅ 252 0 db_table db_columns db_c2 db_rows db_schema db_where
    [db_tuple db_row1; db_tuple db_row2] [0] [ASC] 1 1 (to_shows _ _ _ _ _ _ _ _ _ HT) (to_frames _ _ _ _ _ _ _ _ _ HT)
    (db_table_rows P Ms ids HT)) as (sorted & e' & E & HP & _).
  - vm_compute. reflexivity.
  - vm_compute. reflexivity.
  - split; [cbn; lia|]. split; [cbn; lia|]. exists [[NewInteger 5]; [NewInteger 3]]. split.
    + constructor; [vm_compute; reflexivity|]. constructor; [vm_compute; reflexivity|constructor].
    + intros k k' Hk Hk'. apply elem_of_cons in Hk as [->|[->|[]%elem_of_nil]%elem_of_cons];
        apply elem_of_cons in Hk' as [->|[->|[]%elem_of_nil]%elem_of_cons]; (constructor; [by eexists|constructor]).
  - cbn. lia.
  - cbn. lia.
  - cbn. lia.
  - exists sorted, e'. split; [exact E|exact HP].
Defined.

Lemma db_lookup v : v = NewInteger 5 ∨ v = NewInteger 7 → equality_lookup example_murmur3 db_table db_columns db_rows 0 v.
Proof.
  intros Hv. split.
  - eexists. split; [reflexivity|]. destruct Hv as [->| ->]; split; reflexivity.
  - eexists. reflexivity.
  - constructor; [split; [by left|reflexivity]|]. constructor; [split; [right; by right|reflexivity]|constructor].
  - destruct Hv as [->| ->]; (apply storable_integer; [unfold in_i32; lia|done]).
  - destruct Hv as [->| ->]; vm_compute; reflexivity.
  - exact db_rids.
  - constructor; [|constructor; [|constructor]]; intros h; destruct Hv as [->| ->]; vm_compute; by intros [= <-] [=].
Qed.

(** The search tuple has no value for a Boolean column, so making it panics. *)
Example boolean_column_panics :
  GenTupleForHashIndexSearch (NewSchema [NewColumn (text "a") Integer true; NewColumn (text "b") Boolean false]) 0 (NewInteger 5) = Panic.
Proof. vm_compute. reflexivity. Qed.

Lemma index_scan_is_seq_scan_witness : ∃ e1 e2,
  Execute example_murmur3 252 db_catalog (SeqScanPlanNode db_schema (Some (equals 0 (NewInteger 5))) 0) db2 = Ok ([db_tuple db_row1], e1) ∧
  Execute example_murmur3 252 db_catalog (HashScanIndexPlanNode db_schema (equals 0 (NewInteger 5)) 0) db2 = Ok ([db_tuple db_row1], e2).
Proof.
  destruct db2_on as (P & ids & Ms & HT & _ & HX & Hcap).
  destruct (index_scan_is_seq_scan example_murmur3 example_murmur3_size db_catalog db2 2 P ∅ 252 0 db_table db_columns db_c2 (λ _, ids) Ms
    db_rows db_schema [db_tuple db_row1] 0 (NewInteger 5) HT HX (db_table_rows P Ms ids HT) (db_lookup _ ltac:(by left))) as (found & e1 & e2 & E1 & E2 & HP & _).
  - rewrite Hcap. lia.
  - vm_compute. reflexivity.
  - apply Permutation_singleton_r in HP as ->. exists e1, e2. split; [exact E1|exact E2].
Defined.

(** [SELECT b, COUNT(a), SUM(a) FROM t GROUP BY b] *)
Definition db_group_schema : Schema :=
  NewSchema [NewColumn (text "b") Varchar false; NewColumn (text "n") Integer false; NewColumn (text "s") Integer false].
Definition db_group_exprs : list Expression :=
  [AggregateValueExpression true 0 Varchar; AggregateValueExpression false 0 Integer; AggregateValueExpression false 1 Integer].
Definition db_groups : list Row :=
  [([NewVarchar (text "x")], [NewInteger 5; NewInteger 5]); ([NewVarchar (text "y")], [NewInteger 3; NewInteger 3])].

Lemma db_integer_groups : integer_groups example_murmur3 [COUNT_AGGREGATE; SUM_AGGREGATE] db_groups.
Proof.
  split.
  - constructor; [|constructor; [|constructor]]; (constructor; [apply storable_varchar; [vm_compute; reflexivity|discriminate]|constructor]).
  - constructor; [|constructor; [|constructor]]; (split; [reflexivity|constructor; [right; by eexists|constructor; [right; by eexists|constructor]]]).
  - intros k k' Hk Hk'. cbn in Hk, Hk'. apply elem_of_cons in Hk as [->|[->|[]%elem_of_nil]%elem_of_cons];
      apply elem_of_cons in Hk' as [->|[->|[]%elem_of_nil]%elem_of_cons]; vm_compute; by intros.
Qed.

Lemma group_by_query_witness : ∃ ks ts e',
  Execute example_murmur3 252 db_catalog
    (AggregationPlanNode db_group_schema db_group_exprs (SeqScanPlanNode db_schema db_where 0) None [ColumnValue 0 1 Varchar]
       [ColumnValue 0 0 Integer; ColumnValue 0 0 Integer] [COUNT_AGGREGATE; SUM_AGGREGATE]) db2 = Ok (ts, e') ∧
  NoDup ks ∧ (∀ k, k ∈ ks ↔ k ∈ [[NewVarchar (text "x")]; [NewVarchar (text "y")]]).
Proof.
  destruct db2_on as (P & ids & Ms & HT & _).
  destruct (group_by_query example_murmur3 example_murmur3_size db_catalog db2 2 P ∅ 252 0 db_table db_columns db_c2 db_rows db_schema db_where
    [db_tuple db_row1; db_tuple db_row2] db_group_schema db_group_exprs None [ColumnValue 0 1 Varchar]
    [ColumnValue 0 0 Integer; ColumnValue 0 0 Integer] [COUNT_AGGREGATE; SUM_AGGREGATE] db_groups
    (to_shows _ _ _ _ _ _ _ _ _ HT) (to_frames _ _ _ _ _ _ _ _ _ HT) (db_table_rows P Ms ids HT)) as (ks & ts & e' & E & HD & HK & _).
  - vm_compute. reflexivity.
  - vm_compute. reflexivity.
  - vm_compute. reflexivity.
  - exact db_integer_groups.
  - reflexivity.
  - reflexivity.
  - cbn. lia.
  - intros k Hk. cbn in Hk. split; [by exists true|].
    apply elem_of_cons in Hk as [->|[->|[]%elem_of_nil]%elem_of_cons]; eexists; vm_compute; reflexivity.
  - exists ks, ts, e'. split; [exact E|]. split; [exact HD|exact HK].
Defined.

Lemma query_answers_witness : ∃ l e',
  Execute example_murmur3 252 db_catalog (LimitPlanNode (HashScanIndexPlanNode db_schema (equals 0 (NewInteger 5)) 0) 1 0) db2 =
    Ok (somes l, e') ∧ length l = 1%nat.
Proof.
  destruct db2_on as (P & ids & Ms & HT & _ & HX & Hcap).
  assert (Hc : (capacity ids ≤ 252)%nat) by (rewrite Hcap; lia).
  assert (HM : mapM (project_row db_schema (schema db_table)) (with_key 0 (NewInteger 5) db_rows) = Ok [db_tuple db_row1])
    by (vm_compute; reflexivity).
  pose proof (means_lookup example_murmur3 db_catalog db2 2 P ∅ 252 db_schema 0 db_table db_columns db_c2 (λ _, ids) Ms db_rows 0 (NewInteger 5)
    [db_tuple db_row1] eq_refl HT db_holds_rows HX db_readable (db_lookup _ ltac:(by left)) Hc HM) as M.
  apply (means_limit _ _ _ _ _ _ _ _ _ 1 0) in M; [|cbn; lia|cbn; lia].
  assert (HL : ∀ l, (∃ l0, (∃ found, found ≡ₚ [db_tuple db_row1] ∧ l0 = Some <$> found) ∧ l = limit_rows 1 0 l0) → length l = 1%nat).
  { intros l (l0 & (found & HP & ->) & ->). apply Permutation_singleton_r in HP as ->. reflexivity. }
  destruct (query_answers example_murmur3 example_murmur3_size db_catalog db2 2 P ∅ 252
    (LimitPlanNode (HashScanIndexPlanNode db_schema (equals 0 (NewInteger 5)) 0) 1 0) _ (to_shows _ _ _ _ _ _ _ _ _ HT)
    (to_frames _ _ _ _ _ _ _ _ _ HT) M) as (l & e' & P' & pins' & D' & E & HA & _).
  - intros l HA. rewrite (HL l HA). lia.
  - done.
  - exists l, e'. split; [exact E|exact (HL l HA)].
Defined.

(** The second insert, into the table with the first row. *)
Lemma inserted_row_is_found_witness : ∃ e1 e2,
  Execute example_murmur3 252 db_catalog (InsertPlanNode [db_row2] 0) db1 = Ok ([], e1) ∧
  Execute example_murmur3 252 db_catalog (HashScanIndexPlanNode db_schema (equals 0 (NewInteger 3)) 0) e1 = Ok ([db_tuple db_row2], e2).
Proof.
  destruct db1_on as (P & ids & Ms & rows & HT & HH & HPr & HX & Hcap & HU & _).
  destruct (db_row_ok db_row2 ltac:(by right)) as (Hok & HB & H0 & Hfit).
  assert (HN : nextPageID (diskManager (estore db1)) = 3) by (vm_compute; reflexivity).
  apply Permutation_singleton_r in HPr as ->.
  destruct (inserted_row_is_found example_murmur3 example_murmur3_size db_catalog db1 2 P ∅ 252 0 db_table db_columns db_c1 (λ _, ids) Ms
    [(MkRID 0 0, db_row1)] db_row2 (db_bytes db_row2) db_c2 (MkRID 0 1) db_schema (db_tuple db_row2) [] 0 (NewInteger 3)
    HT HH HX eq_refl Hok HB H0 Hfit) as (e1 & P1 & Ms1 & rows1 & found & e2 & E1 & _ & _ & _ & _ & E2 & HP & _).
  - rewrite HN. unfold page_in_range. lia.
  - cbn. lia.
  - cbn. lia.
  - rewrite HN. vm_compute. reflexivity.
  - intros _. exact db_row2_grantable.
  - intros j ix Hj. destruct j as [|[|j]]; [|discriminate Hj|discriminate Hj]. rewrite Hcap, HU.
    split; [apply (bool_decide_unpack _); vm_compute; exact I|]. cbn. lia.
  - constructor; [|constructor; [|constructor]]; intros u; vm_compute; by intros [= <-].
  - reflexivity.
  - split.
    + eexists. split; [reflexivity|]. split; reflexivity.
    + eexists. reflexivity.
    + constructor; [split; [by left|reflexivity]|]. constructor; [split; [right; by right|reflexivity]|constructor].
    + apply storable_integer; [unfold in_i32; lia|done].
    + vm_compute. reflexivity.
    + constructor; [cbn; lia|]. constructor; [cbn; lia|constructor].
    + constructor; [|constructor; [|constructor]]; intros h; vm_compute; by intros [= <-] [=].
  - vm_compute. reflexivity.
  - vm_compute. reflexivity.
  - apply Permutation_singleton_r in HP as ->. exists e1, e2. split; [exact E1|exact E2].
Defined.
