(* ===== verification/JoinQueries.v ===== *)
(** * Join queries

    SELECT over two tables joined on equal columns: the hash join of two scans answers the
    pairs of selected rows whose columns have the same value and not NULL, right row by right row. *)

From Stdlib Require Import Strings.String.
From S2P Require Import Prelude Bytes Types Tuples Disk LogRecord LogManager Replacer ClockReplacer Page BufferPool LockManager PoolView TablePage Engine TableHeap TableScan HashPage Probe HashTable HashIndex Expressions Plans Catalog TmpTuples Executors Ordering Grouping Rows Operators Joins IndexScan IndexedTables ExampleDatabase Queries.

(** ** Pairs of rows *)

(** The tuple of a row of these columns. *)
Definition makes (cols : list Column) (t : Tuple) (row : list Value) : Prop :=
  row_ok cols row ∧ NewTupleFromSchema row (NewSchema cols) = Ok t.

Definition same_key (i j : nat) (l r : list Value) : bool :=
  match l !! i, r !! j with
  | Some v, Some w => bool_decide (v = w) && negb (IsNull v)
  | _, _ => false
  end.
Definition join_pairs (i j : nat) (lrows rrows : list (list Value)) : list (list Value * list Value) :=
  rrows ≫= λ r, (λ l, (l, r)) <$> filter (λ l, same_key i j l r = true) lrows.

(** The row of a pair: each column from the side it says, by name. *)
Definition pair_row (out sl sr : Schema) (p : list Value * list Value) : res Tuple :=
  values ← mapM (λ c,
    if isLeft c then i ← GetColIndex sl (columnName c); index (fst p) i
    else i ← GetColIndex sr (columnName c); index (snd p) i) (columns out);
  NewTupleFromSchema values out.

(** The predicate [left column = right column]. *)
Definition on_columns (i j : nat) (ty : TypeID) : Expression :=
  Comparison (ColumnValue 0 (Z.of_nat i) ty) (ColumnValue 1 (Z.of_nat j) ty) Equal Boolean.

Lemma makes_holds cols t row : makes cols t row → holds_row t (NewSchema cols) row ∧ plain t.
Proof.
  intros [Hok E]. pose proof Hok as (Hc & HL & HT). destruct (tuple_reads cols row Hc HL HT) as (t' & E' & Hs & Hd & Hr & HV).
  assert (t' = t) as -> by congruence. split; [|split; [done|]].
  - split; [rewrite (NewSchema_columns _ _ Hok), length_place; symmetry; by eapply Forall2_length|].
    intros i v Hv. destruct t as [r z d]. by apply (HV i v r z).
  - unfold zlen. by rewrite Hd.
Qed.

Lemma fits_one_page ts : ∀ free, Forall plain ts → free ≤ PageSize → offsetFreeSpace + 4 ≤ free - foldr (λ t n, 4 + size t + n) 0 ts →
  fits (Some free) ts = true.
Proof.
  induction ts as [|t ts IH]; intros free HP Hf Hsum; [done|]. apply Forall_cons in HP as [Hp HP]. cbn [foldr] in Hsum. cbn [fits tmp_place].
  assert (H0 : ∀ l, Forall plain l → 0 ≤ foldr (λ t n, 4 + size t + n) 0 l).
  { clear. induction 1 as [|t l Ht _ IH]; cbn; [lia|]. rewrite (pl_size _ Ht). unfold zlen. lia. }
  specialize (H0 ts HP). assert (0 ≤ size t) by (rewrite (pl_size _ Hp); unfold zlen; lia).
  rewrite (proj2 (Z.leb_le _ _)) by lia. apply IH; [done|lia|lia].
Qed.

(** Tuples of at most 16 bytes fill any number of pages. *)
Lemma fits_small ts : ∀ f, Forall (λ t, plain t ∧ size t ≤ 16) ts → (∀ free, f = Some free → offsetFreeSpace + 4 ≤ free) → fits f ts = true.
Proof.
  induction ts as [|t ts IH]; intros f HP Hf; [done|]. apply Forall_cons in HP as [[Hp Hs] HP]. cbn [fits].
  assert (0 ≤ size t) by (rewrite (pl_size _ Hp); unfold zlen; lia).
  assert (Hn : (offsetFreeSpace + 4 <=? PageSize - (4 + size t)) = true) by (apply Z.leb_le; unfold offsetFreeSpace, PageSize; lia).
  unfold tmp_place. rewrite Hn. destruct f as [free|].
  - specialize (Hf free eq_refl). destruct (Z.leb_spec (offsetFreeSpace + 4) (free - (4 + size t))).
    + apply IH; [done|]. by intros ? [= <-].
    + rewrite (proj2 (Z.leb_le _ free)) by (unfold offsetFreeSpace in *; lia). apply IH; [done|]. intros ? [= <-]. by apply Z.leb_le.
  - apply IH; [done|]. intros ? [= <-]. by apply Z.leb_le.
Qed.

Lemma mapM_app_Ok {A B} (f : A → res B) l1 l2 k : mapM f (l1 ++ l2) = Ok k →
  ∃ a b, mapM f l1 = Ok a ∧ mapM f l2 = Ok b ∧ k = a ++ b.
Proof.
  revert k. induction l1 as [|x l1 IH]; intros k; cbn [app mapM].
  - intros HM. by exists [], k.
  - intros HM. apply res_bind_Ok in HM as (y & Hy & HM). apply res_bind_Ok in HM as (ys & Hys & [= <-]).
    destruct (IH ys Hys) as (a & b & Ha & Hb & ->). exists (y :: a), b. rewrite Hy. mred. by rewrite Ha.
Qed.

Lemma schema_of_Some s : schema_of (Some s) = s.
Proof. done. Qed.

Section joins.
Variable murmur3 : list byte → list byte.
Hypothesis murmur3_size : ∀ key, zlen (murmur3 key) = 16.

Definition value_hash (v : Value) : Z := match HashValue murmur3 v with Ok h => h | _ => 0 end.
Definition key_hash_of (s : Schema) (i : nat) (t : Tuple) : option Z :=
  match Tuples.GetValue t s (Z.of_nat i) with
  | Ok v => if IsNull v then None else Some (value_hash v)
  | _ => None
  end.

Lemma value_hash_run v : storable v → exact_type (valueType v) = true → HashValue murmur3 v = Ok (value_hash v).
Proof.
  intros Hv HX. unfold value_hash. destruct (Serialize_storable v Hv) as (bs & Eb & _).
  destruct (hash_run murmur3 bs) as (h & Eh & _); [rewrite murmur3_size; lia|].
  assert (E : HashValue murmur3 v = Ok h); [|by rewrite E].
  unfold HashValue, GenHashMurMur. destruct (valueType v); try done; by rewrite Eb.
Qed.

Lemma column_value cols t row i c v : makes cols t row → cols !! i = Some c → row !! i = Some v →
  Tuples.GetValue t (NewSchema cols) (Z.of_nat i) = Ok v ∧ storable v ∧ valueType v = columnType c.
Proof.
  intros HM Hc Hv. split; [|].
  - rewrite (holds_row_GetValue _ _ _ _ (proj1 (makes_holds _ _ _ HM))). by apply index_nat.
  - destruct HM as ((Hok & _) & _). destruct (Forall2_lookup_lr _ _ _ _ _ _ Hok Hc Hv) as (? & ? & _). done.
Qed.

Lemma key_of_column cols t row i c side ty : makes cols t row → cols !! i = Some c → exact_type (columnType c) = true →
  key_of murmur3 (Some (ColumnValue side (Z.of_nat i) ty)) (Some (NewSchema cols)) t = Ok (key_hash_of (NewSchema cols) i t).
Proof.
  intros HM Hc HX. assert (∃ v, row !! i = Some v) as [v Hv].
  { destruct HM as ((Hok & _) & _). destruct (Forall2_lookup_l _ _ _ _ _ Hok Hc) as (v & Hv & _). by exists v. }
  destruct (column_value cols t row i c v HM Hc Hv) as (Eg & Hs & Ht).
  unfold key_of, key_hash_of. cbn [deref]. mred. cbn [Evaluate schema_of]. mred. cbn [deref]. mred. rewrite schema_of_Some, Eg. mred.
  destruct (IsNull v); [done|]. rewrite value_hash_run by (done || congruence). by mred.
Qed.

Section pairs.
Variables (lcols rcols : list Column) (i j : nat) (lc rc : Column) (ty : TypeID) (out : Schema) (exprs : list Expression).
Hypothesis Hlc : lcols !! i = Some lc.
Hypothesis Hrc : rcols !! j = Some rc.
Hypothesis Hty : columnType lc = columnType rc.
Hypothesis HX : exact_type (columnType lc) = true.
Hypothesis Hexprs : join_exprs out (NewSchema lcols) (NewSchema rcols) = Ok exprs.
#[local] Abbreviation sl := (NewSchema lcols).
#[local] Abbreviation sr := (NewSchema rcols).
#[local] Abbreviation pr := (on_columns i j ty).
#[local] Abbreviation lkey := (key_hash_of sl i).
#[local] Abbreviation rkey := (key_hash_of sr j).

Lemma row_value cols t row k c : makes cols t row → cols !! k = Some c → ∃ v, row !! k = Some v.
Proof.
  intros ((Hok & _) & _) Hc. destruct (Forall2_lookup_l _ _ _ _ _ Hok Hc) as (v & Hv & _). by exists v.
Qed.

(** The predicate on a pair is equality of the values, and equal values have one hash. *)
Lemma matches_run t l u r : makes lcols t l → makes rcols u r →
  matches pr (Some sl) (Some sr) lkey rkey t u = Ok (same_key i j l r) ∧ (same_key i j l r = true → lkey t = rkey u).
Proof.
  intros Hl Hr. destruct (row_value _ _ _ _ _ Hl Hlc) as [v Hv]. destruct (row_value _ _ _ _ _ Hr Hrc) as [w Hw].
  destruct (column_value _ _ _ _ _ _ Hl Hlc Hv) as (Ev & Hsv & Htv). destruct (column_value _ _ _ _ _ _ Hr Hrc Hw) as (Ew & Hsw & Htw).
  assert (Hp : valid_pair pr (Some sl) (Some sr) t u = Ok (bool_decide (v = w))).
  { unfold valid_pair. rewrite !schema_of_Some. rewrite (EvaluateJoin_rows pr t sl l u sr r) by (done || by eapply makes_holds).
    unfold on_columns. cbn [eval_rows Z.eqb]. rewrite (index_nat _ _ _ Hv), (index_nat _ _ _ Hw). unfold compare_with. mred. cbn [performComparison].
    rewrite CompareEquals_exact by (done || congruence). done. }
  unfold matches, key_hash_of, same_key. rewrite Ev, Ew, Hv, Hw, Hp. destruct (decide (v = w)) as [<-|Hne].
  - rewrite bool_decide_true by done. by destruct (IsNull v).
  - rewrite bool_decide_false by done. split; [by destruct (IsNull v), (IsNull w)|done].
Qed.

Lemma joined_run t l u r : makes lcols t l → makes rcols u r →
  joined out exprs (Some sl) (Some sr) t u = pair_row out sl sr (l, r).
Proof.
  intros Hl Hr. unfold joined, pair_row. rewrite !schema_of_Some. cbn [fst snd].
  assert (E : mapM (λ e, EvaluateJoin e t sl u sr) exprs = mapM (λ c,
    if isLeft c then i ← GetColIndex sl (columnName c); index l i else i ← GetColIndex sr (columnName c); index r i) (columns out));
    [|by rewrite E].
  revert Hexprs. unfold join_exprs. generalize (columns out) as cs. intros cs. revert exprs.
  induction cs as [|c cs IH]; intros xs; cbn [mapM]; [by intros [= <-]|]. intros HE.
  apply res_bind_Ok in HE as (x & Hx & HE). apply res_bind_Ok in HE as (xs' & Hxs & [= <-]). cbn [mapM]. rewrite (IH xs' Hxs).
  destruct (isLeft c); apply res_bind_Ok in Hx as (k & -> & [= <-]); mred; cbn [EvaluateJoin Z.eqb];
    [rewrite (holds_row_GetValue _ _ _ _ (proj1 (makes_holds _ _ _ Hl)))|rewrite (holds_row_GetValue _ _ _ _ (proj1 (makes_holds _ _ _ Hr)))]; done.
Qed.

Lemma select_rows_run ts lrows u r : Forall2 (makes lcols) ts lrows → makes rcols u r →
  ∃ sel, select_rows (λ t, matches pr (Some sl) (Some sr) lkey rkey t u) ts = Ok sel ∧
    Forall2 (makes lcols) sel (filter (λ l, same_key i j l r = true) lrows).
Proof.
  intros HT Hr. induction HT as [|t l ts lrows Hl _ (sel & Es & IH)]; [by exists []|]. cbn [select_rows].
  rewrite (proj1 (matches_run t l u r Hl Hr)), Es. mred. eexists. split; [done|]. destruct (same_key i j l r) eqn:Ek.
  - rewrite filter_cons_True by done. by constructor.
  - by rewrite filter_cons_False by (rewrite Ek; done).
Qed.

Lemma joined_rows sel lrows u r : Forall2 (makes lcols) sel lrows → makes rcols u r →
  mapM (λ t, joined out exprs (Some sl) (Some sr) t u) sel = mapM (pair_row out sl sr) ((λ l, (l, r)) <$> lrows).
Proof.
  intros HT Hr. induction HT as [|t l sel lrows Hl _ IH]; [done|]. cbn [fmap list_fmap mapM]. by rewrite (joined_run t l u r), IH.
Qed.

Lemma nested_loop_run ts lrows us rrows outs : Forall2 (makes lcols) ts lrows → Forall2 (makes rcols) us rrows →
  mapM (pair_row out sl sr) (join_pairs i j lrows rrows) = Ok outs →
  nested_loop out pr (Some sl) (Some sr) exprs lkey rkey ts us = Ok outs.
Proof.
  intros HT HU. revert outs. induction HU as [|u r us rrows Hr _ IH]; intros outs; [done|]. cbn [nested_loop].
  change (join_pairs i j lrows (r :: rrows)) with (((λ l, (l, r)) <$> filter (λ l, same_key i j l r = true) lrows) ++ join_pairs i j lrows rrows).
  intros HM. destruct (mapM_app_Ok _ _ _ _ HM) as (a & b & Ha & Hb & ->).
  destruct (select_rows_run ts lrows u r HT Hr) as (sel & Es & HSel). rewrite Es. mred.
  rewrite (joined_rows sel _ u r HSel Hr), Ha. mred. by rewrite (IH b Hb).
Qed.
End pairs.

(** ** The query *)
Section queries.
Context {R : Type} `{Replacer R} `{SliceSort} `{MapRange}.
Implicit Types (e : Engine R).
Variable cat : Catalog.

(** The rows that a scan projects to its output columns. *)
Definition projected (cols : list Column) (s : Schema) (rows prows : list (list Value)) : Prop :=
  Forall2 (λ row prow, mapM (λ c, i ← GetColIndex s (columnName c); index row i) (columns (NewSchema cols)) = Ok prow ∧ row_ok cols prow) rows prows.

Lemma projected_tuples cols s rows prows : projected cols s rows prows →
  ∃ ts, mapM (project_row (NewSchema cols) s) rows = Ok ts ∧ Forall2 (makes cols) ts prows.
Proof.
  induction 1 as [|row prow rows prows [Ep Hok] _ (ts & Es & HT)]; [by exists []|].
  destruct (row_tuple cols prow Hok) as (t & Et & _). exists (t :: ts). assert (E : project_row (NewSchema cols) s row = Ok t) by (unfold project_row; rewrite Ep; exact Et).
  cbn [mapM]. rewrite E. mred. rewrite Es. split; [done|]. by constructor.
Qed.

(** A side of the join: a scan of a table, with its selected and projected rows. *)
Record join_side e (P : gmap Z (list byte)) (fuel : nat) (o : Z) (pr : option Expression) (cols : list Column) (prows : list (list Value)) : Prop := {
  js_table : ∃ tm cs c rows, table_rows cat e P fuel o tm cs c rows ∧ typed (columnType <$> cs) pr ∧
    projected cols (schema tm) (selected pr rows) prows
}.

Lemma join_side_means e n P pins fuel o pr cols prows : join_side e P fuel o pr cols prows →
  ∃ ts, Forall2 (makes cols) ts prows ∧ (length ts < fuel)%nat ∧
    means murmur3 cat e n P pins fuel (SeqScanPlanNode (NewSchema cols) pr o) (λ l, l = Some <$> ts).
Proof.
  intros [(tm & cs & c & rows & HT & Hty & HP)]. destruct (projected_tuples _ _ _ _ HP) as (ts & Es & HM).
  exists ts. split; [done|]. split.
  - rewrite (mapM_length_Ok _ _ _ Es). pose proof (selected_length pr rows). pose proof (tr_turns _ _ _ _ _ _ _ _ _ HT). lia.
  - eapply scan_means; [exact HT|by eapply typed_hits|exact Es].
Qed.

(** C11: the hash join of two scans on equal columns of one type, integers or strings: the
    answer is the nested loop, for each selected row of the right side the selected
    rows of the left side with the same value in the join columns, NULLs never, each
    pair made into the output columns. The left rows have to go onto the temporary pages
    without overflow. One temporary page stays pinned and the tables' pages are as
    they were. *)
Theorem join_query e n P pins fuel o1 o2 pr1 pr2 lcols rcols lrows rrows i j lc rc ty out exprs outs :
  shows (estore e) n (quiet P pins) → frames_for 3 n pins →
  join_side e P fuel o1 pr1 lcols lrows → join_side e P fuel o2 pr2 rcols rrows →
  lcols !! i = Some lc → rcols !! j = Some rc → columnType lc = columnType rc → exact_type (columnType lc) = true →
  join_exprs out (NewSchema lcols) (NewSchema rcols) = Ok exprs →
  (∀ ts, Forall2 (makes lcols) ts lrows → fits None ts = true) →
  mapM (pair_row out (NewSchema lcols) (NewSchema rcols)) (join_pairs i j lrows rrows) = Ok outs →
  (2 * length rrows + 1 < fuel)%nat → (length outs < fuel)%nat → nextPageID (diskManager (estore e)) + Z.of_nat fuel < 2 ^ 19 →
  ∃ e' P' pins' D, Execute murmur3 fuel cat (HashJoinPlanNode out (SeqScanPlanNode (NewSchema lcols) pr1 o1)
      (SeqScanPlanNode (NewSchema rcols) pr2 o2) (on_columns i j ty)) e = Ok (outs, e') ∧
    shows (estore e') n (leaky D P' pins') ∧ P ⊆ P' ∧ pins ⊆ pins' ∧ (base.size pins' ≤ base.size pins + 1)%nat ∧ query_step e e'.
Proof.
  intros S HF H1' H2' Hlc Hrc Hty HX Hex Hfit HM Hr Ho HN.
  destruct (join_side_means e n P pins fuel o1 pr1 lcols lrows H1') as (ts & HTs & Hlt & M1).
  destruct (join_side_means e n P pins fuel o2 pr2 rcols rrows H2') as (us & HUs & Hlu & M2).
  pose proof (nested_loop_run lcols rcols i j lc rc ty out exprs Hlc Hrc Hty HX Hex ts lrows us rrows outs HTs HUs HM) as HNL.
  assert (HJ : joinable murmur3 fuel out (on_columns i j ty) (Some (NewSchema lcols)) (Some (NewSchema rcols)) (Some (NewSchema lcols)) (Some (NewSchema rcols))
    exprs (Some (ColumnValue 0 (Z.of_nat i) ty)) (Some (ColumnValue 1 (Z.of_nat j) ty)) (key_hash_of (NewSchema lcols) i) (key_hash_of (NewSchema rcols) j) ts us).
  { split; [done|done|done| |by apply Hfit| | |by rewrite (Forall2_length _ _ _ HUs)].
    - clear -HTs. induction HTs as [|t l ts lrows Hl _ IH]; constructor; [by eapply makes_holds|done].
    - split; [clear -HTs Hlc HX murmur3_size; induction HTs as [|t l ts lrows Hl _ IH]; constructor; [by eapply key_of_column|done]|].
      rewrite Hty in HX. clear -HUs Hrc HX murmur3_size. induction HUs as [|u r us rrows Hr' _ IH]; constructor; [by eapply key_of_column|done].
    - intros t u Ht Hu Hm. apply list_elem_of_lookup in Ht as [a Ha]. apply list_elem_of_lookup in Hu as [b Hb].
      destruct (Forall2_lookup_l _ _ _ _ _ HTs Ha) as (l & _ & Hl). destruct (Forall2_lookup_l _ _ _ _ _ HUs Hb) as (r & _ & Hr').
      destruct (matches_run lcols rcols i j lc rc ty Hlc Hrc Hty HX t l u r Hl Hr') as [Em Hk]. apply Hk. congruence. }
  pose proof (means_join murmur3 cat e n P pins fuel out _ _ (on_columns i j ty) _ _ exprs (Some (ColumnValue 0 (Z.of_nat i) ty))
    (Some (ColumnValue 1 (Z.of_nat j) ty)) (key_hash_of (NewSchema lcols) i) (key_hash_of (NewSchema rcols) j) M1 M2 eq_refl) as M.
  specialize (M ltac:(intros l1 l2 -> ->; by exists ts, us, outs)).
  destruct (plan_runs murmur3 murmur3_size cat e n P pins fuel (HashJoinPlanNode out (SeqScanPlanNode (NewSchema lcols) pr1 o1) (SeqScanPlanNode (NewSchema rcols) pr2 o2) (on_columns i j ty)) _ S HF M) as (l & e' & [P' pins' D nx] & E & HA & Q & HG).
  - intros l (ts' & us' & rows & E1 & E2 & E3 & ->). apply (inj (fmap Some)) in E1 as ->. apply (inj (fmap Some)) in E2 as ->.
    cbn [OutputSchema] in E3. assert (rows = outs) as -> by congruence. by rewrite length_fmap.
  - intros _. cbn [joins]. rewrite Nat.mul_1_l. done.
  - destruct HA as (ts' & us' & rows & E1 & E2 & E3 & ->). apply (inj (fmap Some)) in E1 as ->. apply (inj (fmap Some)) in E2 as ->.
    cbn [OutputSchema] in E3. assert (rows = outs) as -> by congruence. rewrite somes_fmap in E.
    exists e', P', pins', D. split; [done|]. destruct HG as [[HP _] HPi Hsz _ _ _]. split; [apply Q|]. split; [done|]. split; [done|].
    split; [exact Hsz|apply Q].
Qed.
End queries.
End joins.

(** ** A join of a table with itself

    Three frames, the rows of the example database in a table without indexes. *)
Definition join_table : TableMetadata := MkTableMetadata db_schema (text "t") table_0 [None; None] 0.
Definition join_catalog : Catalog := MkCatalog {[0 := join_table]} {[text "t" := join_table]} 1 table_0.
Definition join_start : Engine ClockReplacer := MkEngine (new_store 3 empty_disk) NewLockManager (NewTransaction 7) false.
Definition join_db0 : Engine ClockReplacer := engine_of NewTableHeap join_start.
Definition join_db1 : Engine ClockReplacer := engine_of (insert_rows example_murmur3 10 join_table [db_row1]) join_db0.
Definition join_db2 : Engine ClockReplacer := engine_of (insert_rows example_murmur3 10 join_table [db_row2]) join_db1.

Lemma join_db1_def : join_db1 = engine_of (insert_rows example_murmur3 10 join_table [db_row1]) join_db0.
Proof. reflexivity. Qed.
Lemma join_db2_def : join_db2 = engine_of (insert_rows example_murmur3 10 join_table [db_row2]) join_db1.
Proof. reflexivity. Qed.

Lemma no_pins_three : frames_for 3 3 ∅ ∧ frames_for 2 3 ∅.
Proof. split; (split; [rewrite map_size_empty; lia|]; intros pid i Hi; by rewrite lookup_empty in Hi). Qed.

#[local] Abbreviation join_on e P c Ms := (table_on e 3 P ∅ join_table db_columns c (λ _, []) Ms).

Lemma join_no_index j ix : indexes join_table !! j = Some (Some ix) → False.
Proof. by destruct j as [|[|j]]. Qed.

Lemma join_db0_on : ∃ P, join_on join_db0 P [(0, [])] (λ _, MkMultimap [] []).
Proof.
  destruct (NewTableHeap_run join_start 3 ∅ ∅) as (e' & d & E & S & HR & _).
  - apply (new_store_shows 3 empty_disk); [unfold in_u32; lia|done|vm_compute; discriminate].
  - rewrite map_size_empty. lia.
  - unfold page_in_range. vm_compute. split; [discriminate|reflexivity].
  - unfold join_db0, engine_of. rewrite E. exists (<[0 := d]> ∅).
    split; [exact S|apply no_pins_three|reflexivity|split; [reflexivity|split; reflexivity]|exact HR| | |];
      intros j ix; intros; exfalso; by eapply join_no_index.
Qed.

#[local] Opaque join_db0 join_db1 join_db2.

Lemma join_db_insert e e' P Ms c c' rows row r :
  e' = engine_of (insert_rows example_murmur3 10 join_table [row]) e → row = db_row1 ∨ row = db_row2 →
  join_on e P c Ms → holds_rows db_columns c rows → (length c < 10)%nat → page_in_range (nextPageID (diskManager (estore e))) →
  heap_insert (nextPageID (diskManager (estore e))) (db_bytes row) c = (c', r) → elogging e = false →
  ∃ P' Ms' rows', join_on e' P' c' Ms' ∧ holds_rows db_columns c' rows' ∧ rows' ≡ₚ (r, row) :: rows.
Proof.
  intros He' Hrow HT HH Hc HRn HI HG. destruct (db_row_ok row Hrow) as (Hok & HB & H0 & Hfit).
  destruct (insert_row_run example_murmur3 example_murmur3_size e 3 P ∅ join_table db_columns c (λ _, []) Ms rows row (db_bytes row)
    (nextPageID (diskManager (estore e))) c' r 10 HT HH) as (e1 & P' & rows' & Ms' & E & HT' & HH' & HP & _); try done.
  - intros j ix Hj. exfalso. by eapply join_no_index.
  - by rewrite HG.
  - intros j ix Hj. exfalso. by eapply join_no_index.
  - unfold engine_of in He'. rewrite E in He'. subst e'. by exists P', Ms', rows'.
Qed.

Lemma join_db2_on : ∃ P Ms, join_on join_db2 P db_c2 Ms.
Proof.
  destruct join_db0_on as (P0 & HT0).
  destruct (join_db_insert join_db0 join_db1 P0 _ [(0, [])] db_c1 [] db_row1 (MkRID 0 0) join_db1_def ltac:(by left) HT0) as (P1 & Ms1 & rows1 & HT1 & HH1 & _).
  - constructor.
  - cbn. lia.
  - unfold page_in_range. vm_compute. split; [discriminate|reflexivity].
  - vm_compute. reflexivity.
  - vm_compute. reflexivity.
  - destruct (join_db_insert join_db1 join_db2 P1 Ms1 db_c1 db_c2 rows1 db_row2 (MkRID 0 1) join_db2_def ltac:(by right) HT1 HH1) as (P2 & Ms2 & _ & HT2 & _).
    + cbn. lia.
    + unfold page_in_range. vm_compute. split; [discriminate|reflexivity].
    + vm_compute. reflexivity.
    + vm_compute. reflexivity.
    + by exists P2, Ms2.
Qed.

(** [SELECT l.a, r.b FROM t l JOIN t r ON l.a = r.a] *)
Definition join_out : Schema := NewSchema [NewColumn (text "a") Integer false; SetIsLeft false (NewColumn (text "b") Varchar false)].
Definition join_tuple (row : list Value) : Tuple := match NewTupleFromSchema row join_out with Ok t => t | _ => ZeroTuple end.

Lemma join_side_db P Ms : join_on join_db2 P db_c2 Ms → join_side join_catalog join_db2 P 10 0 None db_columns [db_row1; db_row2].
Proof.
  intros HT. split. exists join_table, db_columns, db_c2, db_rows. split; [|split; [exact I|]].
  - split; [reflexivity|reflexivity|exact (to_heap _ _ _ _ _ _ _ _ _ HT)|exact db_holds_rows| |cbn; lia|cbn; lia].
    constructor; [|constructor; [|constructor]]; intros u; vm_compute; by intros [=].
  - constructor; [|constructor; [|constructor]]; (split; [vm_compute; reflexivity|]); [apply (db_row_ok db_row1); by left|apply (db_row_ok db_row2); by right].
Qed.

Lemma join_query_witness : ∃ e',
  Execute example_murmur3 10 join_catalog (HashJoinPlanNode join_out (SeqScanPlanNode db_schema None 0) (SeqScanPlanNode db_schema None 0)
    (on_columns 0 0 Integer)) join_db2 = Ok ([join_tuple db_row1; join_tuple db_row2], e').
Proof.
  destruct join_db2_on as (P & Ms & HT). pose proof (join_side_db P Ms HT) as HS.
  destruct (join_query example_murmur3 example_murmur3_size join_catalog join_db2 3 P ∅ 10 0 0 None None db_columns db_columns
    [db_row1; db_row2] [db_row1; db_row2] 0 0 (NewColumn (text "a") Integer true) (NewColumn (text "a") Integer true) Integer join_out
    [ColumnValue 0 0 Invalid; ColumnValue 1 1 Invalid] [join_tuple db_row1; join_tuple db_row2]
    (to_shows _ _ _ _ _ _ _ _ _ HT) (proj1 no_pins_three) HS HS eq_refl eq_refl eq_refl eq_refl) as (e' & P' & pins' & D & E & _).
  - vm_compute. reflexivity.
  - intros ts HTs. apply fits_small; [|discriminate]. clear -HTs.
    apply Forall2_cons_inv_r in HTs as (t1 & ts1 & [Hok1 E1] & HTs & ->).
    apply Forall2_cons_inv_r in HTs as (t2 & ts2 & [Hok2 E2] & HTs & ->). apply Forall2_nil_inv_r in HTs as ->.
    constructor; [|constructor; [|constructor]].
    + split; [by apply (makes_holds db_columns t1 db_row1)|]. vm_compute in E1. injection E1 as <-. vm_compute. discriminate.
    + split; [by apply (makes_holds db_columns t2 db_row2)|]. vm_compute in E2. injection E2 as <-. vm_compute. discriminate.
  - vm_compute. reflexivity.
  - cbn. lia.
  - cbn. lia.
  - vm_compute. reflexivity.
  - exists e'. exact E.
Defined.
