(* ===== verification/TestData.v ===== *)
(** * Test data ([execution/executors/table_generator.go], [testing_utils.go])

    The generator that fills tables with serial and random values, and the helpers that
    make plans and run test cases.  The random numbers and the clock are a class, with
    the range that [rand.Int31n] documents: the numbers are otherwise open.  A column
    meta is passed on with its counter. *)

From Stdlib Require Import Strings.String SpecFloat.
From S2P Require Import Prelude Bytes Types Tuples Disk LogRecord LogManager Replacer ClockReplacer Page BufferPool LockManager PoolView TablePage RecordLocks Engine TableHeap TableScan TransactionManager HashPage Probe HashTable HashIndex Expressions Plans Catalog TmpTuples Executors Rows IndexScan IndexedTables ScanActions.

(** ** Random numbers *)
Class Random : Type := {
  generator : Type;
  Seed : Z → generator;
  (** of a positive bound *)
  random_below : Z → generator → Z * generator;
  random_below_range : ∀ n g, 0 < n → 0 ≤ fst (random_below n g) < n;
  (** the [k]-th reading of the clock, in nanoseconds *)
  UnixNano : nat → Z
}.

(** A generator that counts. *)
Instance counting_random : Random.
Proof.
  refine {| generator := Z; Seed s := s; random_below n g := (g mod n, g + 1); UnixNano k := Z.of_nat k |}.
  intros n g Hn. by apply Z.mod_pos_bound.
Defined.

(** ** Data *)
Record ColumnInsertMeta : Type := MkColumnInsertMeta {
  cm_name : list byte; cm_type : TypeID; cm_nullable : bool; cm_dist : Z; cm_min : Z; cm_max : Z; serial_counter_ : Z
}.
Record TableInsertMeta : Type := MkTableInsertMeta { tm_name : list byte; num_rows_ : Z; col_meta_ : list ColumnInsertMeta }.
Record MakeSchemaMeta : Type := MkMakeSchemaMeta { col_name_ : list byte; expr_ : Expression }.

Definition DistSerial : Z := 0.
Definition DistUniform : Z := 1.
Definition TEST1_SIZE : Z := 1000.
Definition TEST2_SIZE : Z := 100.

(** ** Values *)
Section generate.
Context `{Random}.

Definition Int31n (n : Z) (g : generator) : res (Z * generator) := _ ← guard_res (0 <? n); Ok (random_below n g).

Definition count_up (m : ColumnInsertMeta) : ColumnInsertMeta :=
  MkColumnInsertMeta (cm_name m) (cm_type m) (cm_nullable m) (cm_dist m) (cm_min m) (cm_max m) (i32 (serial_counter_ m + 1)).
Fixpoint serial_values (count : nat) (m : ColumnInsertMeta) : list Value * ColumnInsertMeta :=
  match count with
  | O => ([], m)
  | S count' => let r := serial_values count' (count_up m) in (NewInteger (serial_counter_ m) :: fst r, snd r)
  end.
Fixpoint random_values (count : nat) (max : Z) (make : Z → Value) (g : generator) : res (list Value) :=
  match count with
  | O => Ok []
  | S count' =>
      r ← Int31n max g;
      vs ← random_values count' max make (snd r);
      Ok (make (fst r) :: vs)
  end.

(** [k] counts the readings of the clock. *)
Definition GenNumericValues (m : ColumnInsertMeta) (count : nat) (k : nat) : res (list Value * ColumnInsertMeta * nat) :=
  if cm_dist m =? DistSerial then Ok (serial_values count m, k)
  else
    vs ← random_values count (cm_max m) NewInteger (Seed (UnixNano k));
    Ok (vs, m, S k).

(** [float32] of an integer, and the quotient. *)
Definition float32 (z : Z) : spec_float := binary_normalize 24 128 z 0 false.
Definition quotient (a b : Z) : Z := F32.encode (SFdiv 24 128 (float32 a) (float32 b)).

Definition GenNumericValuesFloat (m : ColumnInsertMeta) (count : nat) (k : nat) : res (list Value * ColumnInsertMeta * nat) :=
  if cm_dist m =? DistSerial then Ok (serial_values count m, k)
  else
    let seed := UnixNano k in
    vs ← random_values count (cm_max m) (λ z, NewFloat (quotient z seed)) (Seed seed);
    Ok (vs, m, S k).

Definition MakeValues (m : ColumnInsertMeta) (count : nat) (k : nat) : res (list Value * ColumnInsertMeta * nat) :=
  match cm_type m with
  | Integer => GenNumericValues m count k
  | Float => GenNumericValuesFloat m count k
  | _ => Panic
  end.

(** ** Filling a table *)

(** The values of a batch, column by column. *)
Fixpoint make_columns (metas : list ColumnInsertMeta) (count : nat) (k : nat) :
    res (list (list Value) * list ColumnInsertMeta * nat) :=
  match metas with
  | [] => Ok ([], [], k)
  | m :: metas' =>
      r ← MakeValues m count k;
      let '(vs, m', k') := r in
      rest ← make_columns metas' count k';
      let '(vss, ms, k'') := rest in
      Ok (vs :: vss, m' :: ms, k'')
  end.

Context {R : Type} `{Replacer R}.

(** The loop over the rows of a batch, from row [i] on. *)
Fixpoint fill_rows (fuel : nat) (info : TableMetadata) (values : list (list Value)) (i : Z) (n : nat) : st (Engine R) unit :=
  match n with
  | O => mret tt
  | S n' =>
      entry ← st_lift (mapM (λ column, index column i) values);
      t ← st_lift (NewTupleFromSchema entry (schema info));
      r ← TableHeap.InsertTuple fuel (table info) t;
      match fst r with
      | inl _ => st_lift Panic
      | inr _ => fill_rows fuel info values (i + 1) n'
      end
  end.

(** [math.Min] of two [uint32] as [float64] is exact. *)
Fixpoint fill_batches (turns fuel : nat) (info : TableMetadata) (num_rows num_inserted : Z) (metas : list ColumnInsertMeta) (k : nat) :
    st (Engine R) (list ColumnInsertMeta * nat) :=
  if num_inserted <? num_rows then
    match turns with
    | O => st_lift OutOfFuel
    | S turns' =>
        let num_values := Z.min 128 (u32 (num_rows - num_inserted)) in
        r ← st_lift (make_columns metas (Z.to_nat num_values) k);
        let '(values, metas', k') := r in
        _ ← fill_rows fuel info values 0 (Z.to_nat num_values);
        fill_batches turns' fuel info num_rows (u32 (num_inserted + num_values)) metas' k'
    end
  else mret (metas, k).
Definition FillTable (fuel : nat) (info : TableMetadata) (table_meta : TableInsertMeta) (k : nat) : st (Engine R) (list ColumnInsertMeta * nat) :=
  fill_batches fuel fuel info (num_rows_ table_meta) 0 (col_meta_ table_meta) k.

(** The tables of the tests; the fourth column of the second is named as the third. *)
Definition test_schema (names : list string) : Schema := NewSchema ((λ n, NewColumn (text n) Integer false) <$> names).
Definition serial_meta (n : string) : ColumnInsertMeta := MkColumnInsertMeta (text n) Integer false DistSerial 0 0 0.
Definition uniform_meta (n : string) (max : Z) : ColumnInsertMeta := MkColumnInsertMeta (text n) Integer false DistUniform 0 max 0.
Definition GenerateTestTabls (fuel : nat) (c : Catalog) (k : nat) : st (Engine R) (TableMetadata * TableMetadata * Catalog) :=
  r1 ← CreateTable fuel c (text "test_1") (test_schema ["colA"; "colB"; "colC"; "colD"]%string);
  r2 ← CreateTable fuel (fst r1) (text "test_2") (test_schema ["col1"; "col2"; "col3"; "col3"]%string);
  let tableMeta1 := MkTableInsertMeta (text "test_1") TEST1_SIZE
    [serial_meta "colA"; uniform_meta "colB" 9; uniform_meta "colC" 9999; uniform_meta "colD" 99999] in
  let tableMeta2 := MkTableInsertMeta (text "test_2") TEST2_SIZE
    [serial_meta "col1"; uniform_meta "col2" 9; uniform_meta "col3" 1024; uniform_meta "col4" 2048] in
  f ← FillTable fuel (snd r1) tableMeta1 k;
  _ ← FillTable fuel (snd r2) tableMeta2 (snd f);
  mret (snd r1, snd r2, fst r2).
End generate.

(** ** Plans *)
Definition MakeColumnValueExpression (schema_ : Schema) (tuple_idx_on_join : Z) (col_name : list byte) : res Expression :=
  col_idx ← GetColIndex schema_ col_name;
  c ← GetColumn schema_ col_idx;
  Ok (ColumnValue tuple_idx_on_join col_idx (columnType c)).
Definition MakeComparisonExpression (lhs rhs : Expression) (comp_type : ComparisonType) : Expression :=
  Comparison lhs rhs comp_type Boolean.
Definition MakeAggregateValueExpression (is_group_by_term : bool) (col_index : Z) : Expression :=
  AggregateValueExpression is_group_by_term col_index Integer.
Definition MakeConstantValueExpression (val : Value) : Expression := ConstantValue val (valueType val).

(** Of column values and of aggregate values; the expression of a column is not modelled. *)
Definition return_type (x : Expression) : TypeID :=
  match x with
  | ColumnValue _ _ t | AggregateValueExpression _ _ t | ConstantValue _ t | Comparison _ _ _ t | LogicalOp _ _ _ t => t
  end.
Definition MakeOutputSchema (exprs : list MakeSchemaMeta) : Schema :=
  NewSchema ((λ input, NewColumn (col_name_ input) (return_type (expr_ input)) false) <$> exprs).
Definition MakeOutputSchemaAgg (exprs : list MakeSchemaMeta) : Schema :=
  NewSchema ((λ input, NewColumn (col_name_ input) (return_type (expr_ input)) false) <$> exprs).

(** ** Test cases ([testing_utils.go]) *)

(** The dynamic types that [GetValue] tells apart. *)
Inductive Data : Type := DInt (z : Z) | DFloat32 (f : Z) | DString (s : list byte) | DBool (b : bool) | DValue (v : Value) | DOther.

Definition GetValue (data : Data) : Value :=
  match data with
  | DInt v => NewInteger (i32 v)
  | DFloat32 v => NewFloat v
  | DString v => NewVarchar v
  | DBool v => NewBoolean v
  | DValue v => v
  | DOther => MkValue Invalid false None None None None
  end.
Definition GetValueType (data : Data) : res TypeID :=
  match data with
  | DInt _ => Ok Integer
  | DFloat32 _ => Ok Float
  | DString _ => Ok Varchar
  | DBool _ => Ok Boolean
  | DValue v => Ok (valueType v)
  | DOther => Panic
  end.

Record Predicate : Type := MkPredicate { LeftColumn : list byte; Operator : ComparisonType; RightColumn : Data }.
Record Assertion : Type := MkAssertion { a_column : list byte; a_exp : Data }.
(** The three kinds of test cases have these fields in common. *)
Record TestCase : Type := MkTestCase {
  tc_metadata : TableMetadata; tc_columns : list (list byte * TypeID); tc_predicate : Predicate;
  tc_asserts : list Assertion; tc_total_hits : Z
}.

Definition out_schema (columns : list (list byte * TypeID)) : Schema := NewSchema ((λ c, NewColumn (fst c) (snd c) false) <$> columns).
Definition case_expression (tc : TestCase) : res Expression :=
  i ← GetColIndex (schema (tc_metadata tc)) (LeftColumn (tc_predicate tc));
  t ← GetValueType (RightColumn (tc_predicate tc));
  Ok (Comparison (ColumnValue 0 i t) (ConstantValue (GetValue (RightColumn (tc_predicate tc))) t) (Operator (tc_predicate tc)) Boolean).

(** Whether the assertions hold of the first result; without one they panic. *)
Fixpoint assertions (s : Schema) (results : list Tuple) (asserts : list Assertion) : res bool :=
  match asserts with
  | [] => Ok true
  | a :: asserts' =>
      colIndex ← GetColIndex s (a_column a);
      t ← deref (results !! 0%nat);
      v ← Tuples.GetValue t s colIndex;
      b ← CompareEquals (GetValue (a_exp a)) v;
      if b : bool then assertions s results asserts' else Ok false
  end.
Definition hits (tc : TestCase) (results : list Tuple) : bool := tc_total_hits tc =? u32 (Z.of_nat (length results)).

Section cases.
Variable murmur3 : list byte → list byte.
Context {R : Type} `{Replacer R} `{SliceSort} `{MapRange}.

(** Whether the test passes. *)
Definition ExecuteSeqScanTestCase (fuel : nat) (c : Catalog) (tc : TestCase) : st (Engine R) bool :=
  let outSchema := out_schema (tc_columns tc) in
  expression ← st_lift (case_expression tc);
  results ← Execute murmur3 fuel c (SeqScanPlanNode outSchema (Some expression) (oid (tc_metadata tc)));
  if negb (hits tc results) then mret false
  else match results with [] => mret true | _ => st_lift (assertions outSchema results (tc_asserts tc)) end.
Definition ExecuteHashIndexScanTestCase (fuel : nat) (c : Catalog) (tc : TestCase) : st (Engine R) bool :=
  let outSchema := out_schema (tc_columns tc) in
  expression ← st_lift (case_expression tc);
  results ← Execute murmur3 fuel c (HashScanIndexPlanNode outSchema expression (oid (tc_metadata tc)));
  if negb (hits tc results) then mret false else st_lift (assertions outSchema results (tc_asserts tc)).

(** In a transaction of its own, committed before the results are looked at. *)
Definition ExecuteDeleteTestCase (fuel : nat) (c : Catalog) (tc : TestCase) : st (System R) bool :=
  _ ← Begin None;
  let outSchema := out_schema (tc_columns tc) in
  expression ← st_lift (case_expression tc);
  results ← with_engine (Execute murmur3 fuel c (DeletePlanNode (Some expression) (oid (tc_metadata tc))));
  _ ← Commit;
  if negb (hits tc results) then mret false else st_lift (assertions outSchema results (tc_asserts tc)).
End cases.

(** * What the generator puts into a table *)

(** What the [j]-th value of a column can be. *)
Definition drawn (j : Z) (m : ColumnInsertMeta) (v : Value) : Prop :=
  if cm_dist m =? DistSerial then v = NewInteger (i32 (serial_counter_ m + j))
  else ∃ z, v = NewInteger z ∧ 0 ≤ z < cm_max m.
(** The meta of an integer column from which values can be drawn. *)
Definition drawable (m : ColumnInsertMeta) : Prop :=
  cm_type m = Integer ∧ in_i32 (serial_counter_ m) ∧ (cm_dist m ≠ DistSerial → 0 < cm_max m < 2 ^ 31).

Lemma drawn_storable j m v : drawable m → drawn j m v → storable v ∧ valueType v = Integer.
Proof.
  unfold drawn. intros (_ & _ & Hm). case_match eqn:E.
  - intros ->. split; [|done]. constructor; [apply i32_range|done].
  - apply Z.eqb_neq in E. specialize (Hm E). intros (z & -> & Hz). split; [|done]. constructor; [unfold in_i32; lia|done].
Qed.

Lemma i32_add a b : i32 (i32 a + b) = i32 (a + b).
Proof.
  unfold i32, swrap. f_equal. replace (32 - 1) with 31 by lia.
  replace ((a + 2 ^ 31) mod 2 ^ 32 - 2 ^ 31 + b + 2 ^ 31) with ((a + 2 ^ 31) mod 2 ^ 32 + b) by lia.
  rewrite Zplus_mod_idemp_l. f_equal. lia.
Qed.

(** The meta after [n] values. *)
Definition advanced (n : nat) (m : ColumnInsertMeta) : ColumnInsertMeta :=
  if cm_dist m =? DistSerial then Nat.iter n count_up m else m.

Lemma iter_count_up n m : drawable m →
  let m' := Nat.iter n count_up m in
  drawable m' ∧ cm_dist m' = cm_dist m ∧ cm_max m' = cm_max m ∧ serial_counter_ m' = i32 (serial_counter_ m + Z.of_nat n).
Proof.
  intros Hm. induction n as [|n (IH1 & IH2 & IH3 & IH4)].
  - split; [done|]. split; [done|]. split; [done|]. cbn. rewrite Z.add_0_r, i32_small; [done|apply Hm].
  - change (Nat.iter (S n) count_up m) with (count_up (Nat.iter n count_up m)). cbv zeta. revert IH1 IH2 IH3 IH4.
    generalize (Nat.iter n count_up m). intros m1 (G1 & G2 & G3) IH2 IH3 IH4. cbn.
    split; [split; [exact G1|split; [apply i32_range|exact G3]]|]. split; [done|]. split; [done|].
    rewrite IH4, i32_add. f_equal. lia.
Qed.

Lemma advanced_drawable n m : drawable m → drawable (advanced n m).
Proof. intros Hm. unfold advanced. destruct (_ =? _); [|done]. by apply iter_count_up. Qed.
Lemma advanced_drawn n m j v : drawable m → drawn j (advanced n m) v ↔ drawn (Z.of_nat n + j) m v.
Proof.
  intros Hm. unfold drawn, advanced. destruct (cm_dist m =? DistSerial) eqn:E; [|by rewrite E].
  destruct (iter_count_up n m Hm) as (_ & -> & _ & ->). rewrite E, i32_add.
  by replace (serial_counter_ m + Z.of_nat n + j) with (serial_counter_ m + (Z.of_nat n + j)) by lia.
Qed.

(** ** Batches of values *)
Section batches.
Context `{Random}.

Lemma serial_values_run n m : drawable m →
  snd (serial_values n m) = Nat.iter n count_up m ∧ length (fst (serial_values n m)) = n ∧
  ∀ j v, fst (serial_values n m) !! j = Some v → v = NewInteger (i32 (serial_counter_ m + Z.of_nat j)).
Proof.
  revert m. induction n as [|n IH]; intros m Hm; [by split|]. cbn [serial_values fst snd].
  destruct (iter_count_up 1 m Hm) as (Hm' & _ & _ & HC). cbn [Nat.iter nat_rect] in Hm', HC.
  destruct (IH (count_up m) Hm') as (IH1 & IH2 & IH3). split; [|split; [cbn; by rewrite IH2|]].
  - rewrite IH1. by rewrite <- Nat.iter_succ_r.
  - intros [|j] v; cbn [lookup list_lookup].
    + intros [= <-]. rewrite Z.add_0_r, i32_small by apply Hm. done.
    + intros Hv. rewrite (IH3 _ _ Hv), HC, i32_add. do 2 f_equal. lia.
Qed.

Lemma random_values_run n max make g : 0 < max →
  ∃ vs, random_values n max make g = Ok vs ∧ length vs = n ∧ ∀ j v, vs !! j = Some v → ∃ z, v = make z ∧ 0 ≤ z < max.
Proof.
  intros Hmax. revert g. induction n as [|n IH]; intros g; [by exists []|]. cbn [random_values].
  assert (Int31n max g = Ok (random_below max g)) as -> by (unfold Int31n; by rewrite (proj2 (Z.ltb_lt _ _) Hmax)). mred.
  destruct (IH (snd (random_below max g))) as (vs & E & HL & HV).
  rewrite E. mred. eexists. split; [done|]. split; [cbn; by rewrite HL|]. intros [|j] v; [|apply HV].
  intros [= <-]. eexists. split; [done|]. by apply random_below_range.
Qed.

Lemma MakeValues_run n m k : drawable m →
  ∃ vs k', MakeValues m n k = Ok (vs, advanced n m, k') ∧ length vs = n ∧ ∀ j v, vs !! j = Some v → drawn (Z.of_nat j) m v.
Proof.
  intros Hm. pose proof Hm as (Ht & _ & Hmax). unfold MakeValues, GenNumericValues, advanced, drawn. rewrite Ht.
  destruct (cm_dist m =? DistSerial) eqn:E.
  - destruct (serial_values_run n m Hm) as (H1 & H2 & H3). rewrite <- H1. destruct (serial_values n m) as [vs m']. by exists vs, k.
  - apply Z.eqb_neq in E. destruct (random_values_run n (cm_max m) NewInteger (Seed (UnixNano k))) as (vs & -> & H2 & H3); [by apply Hmax|].
    mred. by exists vs, (S k).
Qed.

Lemma make_columns_run n metas k : Forall drawable metas →
  ∃ values k', make_columns metas n k = Ok (values, advanced n <$> metas, k') ∧
    Forall2 (λ m vs, length vs = n ∧ ∀ j v, vs !! j = Some v → drawn (Z.of_nat j) m v) metas values.
Proof.
  intros HM. revert k. induction HM as [|m metas Hm _ IH]; intros k; [by exists [], k|]. cbn [make_columns].
  destruct (MakeValues_run n m k Hm) as (vs & k1 & -> & HV). mred. destruct (IH k1) as (vss & k2 & -> & HVs). mred.
  exists (vs :: vss), k2. split; [done|]. by constructor.
Qed.

(** A row across the columns of a batch. *)
Lemma batch_row n metas (values : list (list Value)) j : (j < n)%nat →
  Forall2 (λ m vs, length vs = n ∧ ∀ j v, vs !! j = Some v → drawn (Z.of_nat j) m v) metas values →
  ∃ row, mapM (λ column, index column (Z.of_nat j)) values = Ok row ∧ Forall2 (drawn (Z.of_nat j)) metas row.
Proof.
  intros Hj. induction 1 as [|m vs metas values [HL HV] _ (row & E & IH)]; [by exists []|]. cbn.
  destruct (lookup_lt_is_Some_2 vs j) as [v Hv]; [lia|]. rewrite (index_nat _ _ _ Hv). cbn. rewrite E. cbn.
  exists (v :: row). split; [done|]. constructor; [by apply HV|done].
Qed.
End batches.

(** ** Rows into the table *)
Definition integer_column (col : Column) : Prop := columnType col = Integer ∧ fixedLength col = TypeID_Size Integer.

Lemma integers_total cols : Forall integer_column cols → fixed_total cols = 5 * Z.of_nat (length cols).
Proof. induction 1 as [|c l [_ Hc] _ IH]; [done|]. cbn [fixed_total foldr length]. fold (fixed_total l). rewrite Hc, IH. cbn. lia. Qed.

Lemma drawn_columns_ok cols metas j row : Forall integer_column cols → Forall drawable metas → Forall2 (drawn j) metas row →
  length metas = length cols → Forall2 column_ok cols row ∧ payload_total (zip cols row) = 0.
Proof.
  intros HI. revert metas row. induction HI as [|c l [Hty Hc] _ IH]; intros [|m metas] row HM HD HL; try done.
  { apply Forall2_nil_inv_l in HD as ->. by split. }
  apply Forall2_cons_inv_l in HD as (v & row' & Hv & HD & ->). apply Forall_cons in HM as [Hm HM].
  destruct (IH metas row' HM HD ltac:(by injection HL)) as [IH1 IH2]. destruct (drawn_storable _ _ _ Hm Hv) as [HS HT].
  assert (HIn : IsInlined c = true) by (unfold IsInlined; by rewrite Hty).
  split; [constructor; [split; [done|split; [by rewrite Hty|by rewrite HIn, Hty]]|done]|].
  cbn [zip zip_with payload_total foldr]. unfold payload_size at 1. cbn [fst]. rewrite HIn. exact IH2.
Qed.

Section fill.
Context `{Random} {R : Type} `{Replacer R}.
Variables (n : nat) (pins : gmap Z Z) (info : TableMetadata) (cols : list Column) (fuel : nat).
Hypothesis HFr : frames_for 2 n pins.
Hypothesis HSc : schema info = NewSchema cols.
Hypothesis HInt : Forall integer_column cols.
Hypothesis HFit : (0 < length cols)%nat ∧ fixed_total cols + sizeTuple ≤ free_space [].
Implicit Types (e : Engine R).

Lemma drawn_row_ok metas j row : Forall drawable metas → Forall2 (drawn j) metas row → length metas = length cols →
  row_ok cols row ∧ payload_total (zip cols row) = 0.
Proof.
  intros HM HD HL. pose proof (integers_total cols HInt) as HF. destruct (drawn_columns_ok cols metas j row HInt HM HD HL) as [HC HP].
  split; [|exact HP]. split; [done|]. rewrite HP. destruct HFit as [_ Hs]. unfold free_space, total, PageSize in Hs. cbn in Hs. zsolve.
Qed.

(** With logging on, the records that hold none of the rows can be locked. *)
Definition lockable e (rows : list Located) : Prop :=
  elogging e = true → ∀ r, r ∉ rows.*1 → grantable r (etxn e) (elocks e).

(** The table may be filled with [left] rows more. *)
Record fillable e (P : gmap Z (list byte)) (c : list (Z * slots)) (rows : list Located) (left : Z) : Prop := {
  fl_shows : shows (estore e) n (quiet P pins);
  fl_heap : heap_rep P (table info) c;
  fl_rows : holds_rows cols c rows;
  fl_locks : lockable e rows;
  fl_pages : 0 ≤ nextPageID (diskManager (estore e)) ∧ nextPageID (diskManager (estore e)) + left ≤ 2 ^ 19;
  fl_fuel : Z.of_nat (length c) + left ≤ Z.of_nat fuel
}.

(** Locking the new record leaves the others as they were. *)
Lemma insert_lockable c new r t e e' rows rows' row w : insert_logged c new r t e e' → rows' ≡ₚ (r, row) :: rows →
  lockable e rows → lockable (set_txn (AddIntoWriteSet w (etxn e')) e') rows'.
Proof.
  intros (e1 & H1 & H2) HP HL. assert (HL1 : lockable e1 rows).
  { case_decide; [|destruct H1 as [Kl Kt Kg _]; unfold lockable; rewrite Kl, Kt, Kg; exact HL].
    destruct H1 as (q & _ & HE & H1). intros HE1 r' Hr'. rewrite HE in HE1. rewrite HE1 in H1. destruct H1 as (t' & lm' & [= <- <-] & -> & -> & _).
    exact (HL HE1 r' Hr'). }
  destruct H2 as [HE H2]. intros HE' r' Hr'. cbn in HE'. rewrite HE in HE'. rewrite HE' in H2. destruct H2 as (t' & lm' & E & Hlm & Ht & _).
  rewrite HP, fmap_cons, not_elem_of_cons in Hr'. destruct Hr' as [Hne Hr'].
  cbn. rewrite Hlm, Ht. injection E as E. specialize (HL1 HE' r' Hr'). revert HL1. unfold LockExclusive in E. unfold grantable.
  cbn [fst] in Hne. destruct (exclusive_lock_table (elocks e1) !! r); [by injection E as _ <- <-|].
  destruct (shared_lock_table (elocks e1) !! r) as [[|]|]; try done; injection E as <- <-; cbn; by rewrite lookup_insert_ne.
Qed.

Lemma fill_row e P c rows left row : fillable e P c rows left → 0 < left → row_ok cols row → payload_total (zip cols row) = 0 →
  ∃ t r t' e' P' c' rows', NewTupleFromSchema row (schema info) = Ok t ∧
    TableHeap.InsertTuple fuel (table info) t e = Ok ((inr r, t'), e') ∧
    fillable e' P' c' rows' (left - 1) ∧ rows' ≡ₚ (r, row) :: rows.
Proof.
  intros [S HR HH HE HN Hf] Hleft Hok HP. destruct (row_tuple cols row Hok) as (t & Et & _ & Hsz & Hlen). rewrite HP, Z.add_0_r in Hlen.
  destruct (heap_insert (nextPageID (diskManager (estore e))) (data t) c) as [c' r] eqn:HI.
  assert (H0' : 0 < fixed_total cols) by (rewrite (integers_total _ HInt); lia).
  destruct (holds_rows_insert cols c c' r _ (data t) rows row HI HH Hok) as (rows' & HH' & HPm); [by exists t|].
  assert (Hnew : r ∉ rows.*1).
  { assert (HND : NoDup c'.*1).
    { destruct (heap_insert_ids _ _ _ _ _ HI) as [_ [[-> _]|[-> _]]]; [apply HR|]. apply NoDup_app. split; [apply HR|]. split; [|apply NoDup_singleton].
      intros q Hq ->%list_elem_of_singleton. exact (heap_new_id _ _ _ _ _ _ S HR Hq). }
    apply heap_entries_nodup in HND. rewrite (holds_rids _ _ _ HH'), HPm in HND. by apply NoDup_cons in HND as [? _]. }
  destruct (InsertTuple_next e n P pins (table info) c t fuel c' r S HR HFr) as (e1 & e' & P' & E & He & S' & HR' & _ & HL & HD);
    [done|lia|lia|unfold page_in_range; lia|lia|done|intros HE'; exact (HE HE' r Hnew)|].
  assert (Hlc : (length c ≤ length c' ≤ length c + 1)%nat).
  { destruct (heap_insert_ids _ _ _ _ _ HI) as [_ [[Hids _]|[Hids _]]]; apply (f_equal length) in Hids;
      rewrite ?length_app, !length_fmap in Hids; cbn in Hids; lia. }
  exists t, r, (SetRID r t), e', P', c', rows'. split; [by rewrite HSc|]. split; [done|]. split; [|done].
  split; [done|done|done| |lia|lia]. rewrite He. by eapply insert_lockable.
Qed.

Lemma fill_rows_run k e P c rows left i values metas :
  fillable e P c rows left → Z.of_nat k ≤ left → Forall drawable metas → length metas = length cols →
  (∀ j : nat, (j < k)%nat → ∃ row, mapM (λ column, index column (i + Z.of_nat j)) values = Ok row ∧ Forall2 (drawn (i + Z.of_nat j)) metas row) →
  ∃ e' P' c' rows' new, fill_rows fuel info values i k e = Ok (tt, e') ∧ fillable e' P' c' rows' (left - Z.of_nat k) ∧
    rows' ≡ₚ new ++ rows ∧ length new = k ∧ ∀ j x, new !! j = Some x → Forall2 (drawn (i + Z.of_nat j)) metas (snd x).
Proof.
  intros HF Hk HM HL HV. revert e P c rows left i HF Hk HV. induction k as [|k IH]; intros e P c rows left i HF Hk HV.
  - exists e, P, c, rows, []. rewrite Z.sub_0_r. done.
  - destruct (HV 0%nat ltac:(lia)) as (row & E & HD). rewrite Z.add_0_r in E, HD.
    destruct (drawn_row_ok _ _ _ HM HD HL) as [Hok HP].
    destruct (fill_row e P c rows left row HF ltac:(lia) Hok HP) as (t & r & t' & e1 & P1 & c1 & rows1 & Et & Ei & HF1 & HP1).
    destruct (IH e1 P1 c1 rows1 (left - 1) (i + 1) HF1 ltac:(lia)) as (e' & P' & c' & rows' & new & E' & HF' & HP' & HL' & HN').
    { intros j Hj. replace (i + 1 + Z.of_nat j) with (i + Z.of_nat (S j)) by lia. apply HV. lia. }
    exists e', P', c', rows', ((r, row) :: new). cbn [fill_rows].
    rewrite (st_bind_run _ _ _ _ _ (st_lift_run _ _ e E)). rewrite (st_bind_run _ _ _ _ _ (st_lift_run _ _ e Et)).
    rewrite (st_bind_run _ _ _ _ _ Ei). cbn [fst]. split; [exact E'|].
    split; [by replace (left - Z.of_nat (S k)) with (left - 1 - Z.of_nat k) by lia|].
    split; [rewrite HP', HP1; by rewrite <- Permutation_middle|]. split; [cbn; by rewrite HL'|].
    intros [|j] x Hx; [injection Hx as <-; by rewrite Z.add_0_r|]. replace (i + Z.of_nat (S j)) with (i + 1 + Z.of_nat j) by lia. by apply HN'.
Qed.

(** ** All batches *)
Lemma fill_batches_run turns e P c rows num num_inserted metas k :
  fillable e P c rows (num - num_inserted) → 0 ≤ num_inserted ≤ num → num < 2 ^ 32 → num - num_inserted < Z.of_nat turns →
  Forall drawable metas → length metas = length cols →
  ∃ metas' k' e' P' c' rows' new, fill_batches turns fuel info num num_inserted metas k e = Ok ((metas', k'), e') ∧
    fillable e' P' c' rows' 0 ∧ rows' ≡ₚ new ++ rows ∧ Z.of_nat (length new) = num - num_inserted ∧
    ∀ j x, new !! j = Some x → Forall2 (drawn (Z.of_nat j)) metas (snd x).
Proof.
  revert e P c rows num_inserted metas k. induction turns as [|turns IH]; intros e P c rows num_inserted metas k HF Hi Hn Ht HM HL; [lia|].
  cbn [fill_batches]. destruct (Z.ltb_spec num_inserted num) as [Hlt|Hge].
  - rewrite (u32_small (num - num_inserted)) by (unfold in_u32; lia). set (b := Z.min 128 (num - num_inserted)).
    destruct (make_columns_run (Z.to_nat b) metas k HM) as (values & k1 & Em & HV).
    destruct (fill_rows_run (Z.to_nat b) e P c rows (num - num_inserted) 0 values metas HF ltac:(lia) HM HL) as (e1 & P1 & c1 & rows1 & new1 & E1 & HF1 & HP1 & HL1 & HN1).
    { intros j Hj. rewrite Z.add_0_l. by eapply batch_row. }
    rewrite (st_bind_run _ _ _ _ _ (st_lift_run _ _ e Em)). rewrite (st_bind_run _ _ _ _ _ E1).
    rewrite (u32_small (num_inserted + b)) by (unfold in_u32; lia).
    destruct (IH e1 P1 c1 rows1 (num_inserted + b) (advanced (Z.to_nat b) <$> metas) k1) as (metas' & k' & e' & P' & c' & rows' & new & E' & HF' & HP' & HL' & HN').
    + by replace (num - (num_inserted + b)) with (num - num_inserted - Z.of_nat (Z.to_nat b)) by lia.
    + lia.
    + lia.
    + lia.
    + apply Forall_fmap. eapply Forall_impl; [exact HM|]. intros m. apply advanced_drawable.
    + by rewrite length_fmap.
    + exists metas', k', e', P', c', rows', (new1 ++ new). split; [exact E'|]. split; [done|].
      split; [rewrite HP', HP1, !app_assoc; f_equiv; apply Permutation_app_comm|]. split; [rewrite length_app; lia|].
      intros j x [Hx|[Hj Hx]]%lookup_app_Some; [specialize (HN1 j x Hx); by rewrite Z.add_0_l in HN1|].
      specialize (HN' _ _ Hx). rewrite Forall2_fmap_l in HN'. clear -HN' HM HL1 Hj.
      revert HM. induction HN' as [|m v l vs Hv _ IH]; intros HM; constructor; apply Forall_cons in HM as [Hm HM]; [|by apply IH].
      apply advanced_drawn in Hv; [|done]. replace (Z.of_nat j) with (Z.of_nat (Z.to_nat b) + Z.of_nat (j - length new1)) by lia. exact Hv.
  - assert (num_inserted = num) as -> by lia. rewrite Z.sub_diag in HF.
    exists metas, k, e, P, c, rows, []. split; [done|]. split; [done|]. split; [done|]. split; [cbn; lia|done].
Qed.
End fill.

(** C34: [FillTable] ends without an error, whatever the random numbers are, and puts
    [num_rows_] rows into a table of integer columns, beside those it has: in the
    [j]-th of them, counted from 0, a serial column holds its counter plus [j], in 32
    bits, and every other one a number from 0 up to its maximum.  There are page ids left for
    a new page per row, two frames are free, and with logging on nobody else has a lock
    on a record that holds no row yet. *)
Theorem fill_table `{Random} {R} `{Replacer R} (e : Engine R) n P pins info cols meta k c rows fuel :
  frames_for 2 n pins → schema info = NewSchema cols → Forall integer_column cols → (0 < length cols)%nat →
  fixed_total cols + sizeTuple ≤ free_space [] → Forall drawable (col_meta_ meta) → length (col_meta_ meta) = length cols →
  shows (estore e) n (quiet P pins) → heap_rep P (table info) c → holds_rows cols c rows → lockable e rows →
  0 ≤ nextPageID (diskManager (estore e)) → nextPageID (diskManager (estore e)) + num_rows_ meta ≤ 2 ^ 19 → 0 ≤ num_rows_ meta →
  Z.of_nat (length c) + num_rows_ meta ≤ Z.of_nat fuel → num_rows_ meta < Z.of_nat fuel →
  ∃ metas' k' e' P' c' rows' new, FillTable fuel info meta k e = Ok ((metas', k'), e') ∧
    shows (estore e') n (quiet P' pins) ∧ heap_rep P' (table info) c' ∧ holds_rows cols c' rows' ∧
    rows' ≡ₚ new ++ rows ∧ Z.of_nat (length new) = num_rows_ meta ∧
    ∀ j x, new !! j = Some x → Forall2 (drawn (Z.of_nat j)) (col_meta_ meta) (snd x).
Proof.
  intros HFr HSc HInt HL HFit HM HLm S HR HH HE H0' HN Hn Hf Hf'. unfold FillTable.
  destruct (fill_batches_run n pins info cols fuel HFr HSc HInt (conj HL HFit) fuel e P c rows (num_rows_ meta) 0 (col_meta_ meta) k)
    as (metas' & k' & e' & P' & c' & rows' & new & E & [S' HR' HH' _ _ _] & HP & HLn & HD); try done; try lia.
  - rewrite Z.sub_0_r. split; (done || lia).
  - exists metas', k', e', P', c', rows', new. rewrite Z.sub_0_r in HLn. done.
Qed.

Definition example_columns : list Column := [NewColumn (text "colA") Integer false; NewColumn (text "colB") Integer false].
Definition example_info : TableMetadata := MkTableMetadata (NewSchema example_columns) (text "test_1") table_0 [None; None] 0.
Definition example_meta : TableInsertMeta := MkTableInsertMeta (text "test_1") 200 [serial_meta "colA"; uniform_meta "colB" 9].

Lemma example_drawable : Forall drawable (col_meta_ example_meta).
Proof.
  constructor; [|constructor; [|constructor]]; split; [reflexivity| |reflexivity|]; (split; [unfold in_i32; cbn; lia|]).
  - by intros [].
  - cbn. lia.
Qed.

(** The 130th of 200 rows: its serial column holds 129. *)
Lemma fill_table_witness :
  ∃ r e' c' rows' new, @FillTable counting_random _ _ 202 example_info example_meta 0 table_engine = Ok (r, e') ∧
    holds_rows example_columns c' rows' ∧ rows' ≡ₚ new ∧ length new = 200%nat ∧
    ∃ x, new !! 129%nat = Some x ∧ snd x !! 0%nat = Some (NewInteger 129).
Proof.
  destruct table_engine_shows as (P & S & HR & HN & _). destruct no_pins_room as [HP HF].
  destruct (@fill_table counting_random _ _ table_engine 2 P ∅ example_info example_columns example_meta 0 [(0, [])] [] 202)
    as (ms & k & e' & P' & c' & rows' & new & E & _ & _ & HH & HPm & HL & HD).
  - exact HF.
  - reflexivity.
  - repeat constructor.
  - cbn. lia.
  - vm_compute. discriminate.
  - exact example_drawable.
  - reflexivity.
  - exact S.
  - exact HR.
  - constructor.
  - intros _ r _. vm_compute. exact I.
  - rewrite HN. lia.
  - rewrite HN. cbn. lia.
  - cbn. lia.
  - cbn. lia.
  - cbn. lia.
  - exists (ms, k), e', c', rows', new. split; [exact E|]. split; [exact HH|]. rewrite app_nil_r in HPm. split; [exact HPm|].
    assert (HL' : length new = 200%nat) by (cbn in HL; lia). split; [exact HL'|].
    destruct (lookup_lt_is_Some_2 new 129) as [x Hx]; [rewrite HL'; apply Nat.ltb_lt; reflexivity|]. exists x. split; [exact Hx|].
    specialize (HD _ _ Hx). apply Forall2_cons_inv_l in HD as (v & row & Hv & _ & ->). cbn in Hv. rewrite Hv. reflexivity.
Defined.
