(* ===== verification/CatalogRecovery.v ===== *)
(** * The catalog across a restart

    What [CreateTable] writes to the two pages of the catalog, and what
    [RecoveryCatalogFromCatalogPage] makes of them when the database is opened again:
    the same tables, as long as both parts of the catalog fit on a page each. *)

From Stdlib Require Import Strings.String.
From S2P Require Import Prelude Bytes Types Tuples Disk LogRecord LogManager Replacer ClockReplacer Page BufferPool LockManager PoolView TablePage RecordLocks Engine TableHeap TableScan TransactionManager Checkpoint HashTable HashIndex Expressions Plans Catalog TmpTuples Executors Rows IndexedTables.

(** ** Schemas built again *)
Lemma place_step acc o c : NewSchema_step acc (SetOffset o c) = NewSchema_step acc c.
Proof. by destruct acc. Qed.
Lemma NewSchema_placed (f : nat → Z) cols : NewSchema (imap (λ i c, SetOffset (f i) c) cols) = NewSchema cols.
Proof.
  unfold NewSchema. assert (HE : ∀ acc, foldl NewSchema_step acc (imap (λ i c, SetOffset (f i) c) cols) = foldl NewSchema_step acc cols).
  { revert f. induction cols as [|c cols IH]; intros f acc; [done|]. cbn [imap foldl]. rewrite place_step. apply (IH (λ i, f (S i))). }
  by rewrite HE.
Qed.

(** A column as it is made for a table without indexes. *)
Definition plain (c : Column) : Prop :=
  hasIndex c = false ∧ isLeft c = true ∧ in_u32 (fixedLength c) ∧ in_u32 (variableLength c) ∧ in_u32 (columnOffset c) ∧
  zlen (columnName c) + 3 < 2 ^ 15.
Definition plain_table (cols : list Column) : Prop :=
  Forall (λ c, plain (SetOffset 0 c)) cols ∧ fixed_total cols < 2 ^ 32 ∧ Z.of_nat (length cols) < 2 ^ 32.

Lemma plain_nonneg cols : Forall (λ c, plain (SetOffset 0 c)) cols → Forall (λ c, 0 ≤ fixedLength c) cols.
Proof. intros HF. eapply Forall_impl; [exact HF|]. intros c (_ & _ & Hf & _). apply Hf. Qed.
Lemma plain_columns cols : plain_table cols → columns (NewSchema cols) = place cols.
Proof. intros (HF & HT & HL). destruct (NewSchema_spec cols) as (b & ->); [by apply plain_nonneg|done..]. Qed.
Lemma plain_placed cols : plain_table cols → Forall plain (place cols).
Proof.
  intros (HF & HT & HL). apply Forall_lookup. intros i c. unfold place. rewrite list_lookup_imap.
  destruct (cols !! i) as [c0|] eqn:Hi; [|done]. intros [= <-]. pose proof (proj1 (Forall_lookup _ _) HF _ _ Hi) as Hc.
  destruct Hc as (H1 & H2 & H3 & H4 & _ & H6). repeat (split; [done|]). split; [|done]. cbn.
  pose proof (plain_nonneg _ HF) as HP. rewrite <- (take_drop i cols) in HT, HP at 1. rewrite fixed_total_app in HT. apply Forall_app in HP as [HP1 HP2].
  pose proof (fixed_total_nonneg _ HP1). pose proof (fixed_total_nonneg _ HP2). unfold in_u32. lia.
Qed.
Lemma plain_schema cols : plain_table cols → NewSchema (columns (NewSchema cols)) = NewSchema cols.
Proof. intros HP. rewrite (plain_columns _ HP). apply NewSchema_placed. Qed.

(** ** Rows of the catalog *)
Definition tables_columns : list Column := [plain_column "oid" Integer; plain_column "name" Varchar; plain_column "first_page" Integer].
Definition catalog_columns : list Column :=
  [plain_column "table_oid" Integer; plain_column "type" Integer; plain_column "name" Varchar; plain_column "fixed_length" Integer;
   plain_column "variable_length" Integer; plain_column "offset" Integer; plain_column "has_index" Integer].

Lemma number_of_type t : number_type (i32 (type_number t)) = t.
Proof. by destruct t. Qed.
Lemma read_u32 z : in_u32 z → u32 (i32 z) = z.
Proof. intros Hz. rewrite u32_i32. by apply u32_small. Qed.

Lemma integer_ok n z : column_ok (plain_column n Integer) (NewInteger (i32 z)).
Proof. split; [|by split]. constructor; [apply i32_range|done]. Qed.
Lemma varchar_ok n s : zlen s + 3 < 2 ^ 15 → column_ok (plain_column n Varchar) (NewVarchar s).
Proof. intros Hs. split; [|by split]. constructor; [exact Hs|done]. Qed.

Lemma varchar_payload n s cvs : zlen s + 3 < 2 ^ 15 →
  payload_total ((plain_column n Varchar, NewVarchar s) :: cvs) = zlen s + 3 + payload_total cvs.
Proof.
  intros Hs. change (payload_size (plain_column n Varchar, NewVarchar s) + payload_total cvs = zlen s + 3 + payload_total cvs).
  assert (HS : Types.Size (NewVarchar s) = Ok (zlen s + 1 + 2)).
  { cbn. unfold zlen in *. by rewrite u32_small by (unfold in_u32; lia). }
  unfold payload_size. cbn [fst snd]. change (IsInlined (plain_column n Varchar)) with false. cbn match. rewrite HS. lia.
Qed.
Lemma integer_payload n z cvs : payload_total ((plain_column n Integer, NewInteger z) :: cvs) = payload_total cvs.
Proof. done. Qed.

(** The bytes of a row, without its slot. *)
Definition row_size (cols : list Column) (row : list Value) : Z := fixed_total cols + payload_total (zip cols row).

Lemma table_row_ok m : zlen (name m) + 3 < 2 ^ 15 → row_ok tables_columns (table_row m) ∧ row_size tables_columns (table_row m) = zlen (name m) + 17.
Proof.
  intros Hn. assert (HP : row_size tables_columns (table_row m) = zlen (name m) + 17).
  { unfold row_size. change (fixed_total tables_columns) with 14. unfold tables_columns, table_row, zip. cbn [zip_with].
    rewrite integer_payload, varchar_payload, integer_payload by done. cbn. lia. }
  split; [|exact HP]. split; [|split; [done|]].
  - constructor; [apply integer_ok|]. constructor; [by apply varchar_ok|]. constructor; [apply integer_ok|constructor].
  - unfold row_size in HP. rewrite HP. lia.
Qed.

Lemma column_row_ok m c : zlen (columnName c) + 3 < 2 ^ 15 →
  row_ok catalog_columns (column_row m c) ∧ row_size catalog_columns (column_row m c) = zlen (columnName c) + 37.
Proof.
  intros Hn. assert (HP : row_size catalog_columns (column_row m c) = zlen (columnName c) + 37).
  { unfold row_size. change (fixed_total catalog_columns) with 34. unfold catalog_columns, column_row, zip. cbn [zip_with].
    rewrite !integer_payload, varchar_payload, !integer_payload by done. cbn. lia. }
  split; [|exact HP]. split; [|split; [done|]].
  - constructor; [apply integer_ok|]. constructor; [apply integer_ok|]. constructor; [by apply varchar_ok|].
    constructor; [apply integer_ok|]. constructor; [apply integer_ok|]. constructor; [apply integer_ok|].
    constructor; [|constructor]. destruct (hasIndex c); [apply (integer_ok _ 1)|apply (integer_ok _ 0)].
  - unfold row_size in HP. rewrite HP. lia.
Qed.

(** ** Reading the rows back *)

(** A record with the bytes of the row, not deleted. *)
Definition entry_of (cols : list Column) (e : entry) (row : list Value) : Prop :=
  row_ok cols row ∧ ∃ bs, snd e = (false, bs) ∧ bytes_of cols row bs.

Lemma read_named cols s n r bs row j v : row_ok cols row → bytes_of cols row bs → s = NewSchema cols →
  GetColIndex s (text n) = Ok (Z.of_nat j) → row !! j = Some v → named_value s n (stored_tuple r bs) = Ok v.
Proof. intros Hok HB -> HG Hv. unfold named_value. rewrite HG. mred. by eapply bytes_reads. Qed.

Lemma read_integer cols s n r bs row j z : row_ok cols row → bytes_of cols row bs → s = NewSchema cols →
  GetColIndex s (text n) = Ok (Z.of_nat j) → row !! j = Some (NewInteger z) → named_integer s n (stored_tuple r bs) = Ok z.
Proof. intros Hok HB Hs HG Hv. unfold named_integer. rewrite (read_named _ _ _ _ _ _ _ _ Hok HB Hs HG Hv). done. Qed.
Lemma read_varchar cols s n r bs row j z : row_ok cols row → bytes_of cols row bs → s = NewSchema cols →
  GetColIndex s (text n) = Ok (Z.of_nat j) → row !! j = Some (NewVarchar z) → named_varchar s n (stored_tuple r bs) = Ok z.
Proof. intros Hok HB Hs HG Hv. unfold named_varchar. rewrite (read_named _ _ _ _ _ _ _ _ Hok HB Hs HG Hv). done. Qed.

Lemma read_column_row m c o r bs : plain c → 0 ≤ oid m < 2 ^ 31 → row_ok catalog_columns (column_row m c) →
  bytes_of catalog_columns (column_row m c) bs →
  read_column o (stored_tuple r bs) = Ok (if decide (oid m = o) then Some c else None).
Proof.
  intros (HI & HLf & Hf & Hv & Ho & _) Hoid Hok HB. unfold read_column.
  assert (HX : ∀ n j z, GetColIndex ColumnsCatalogSchema (text n) = Ok (Z.of_nat j) → column_row m c !! j = Some (NewInteger z) →
    named_integer ColumnsCatalogSchema n (stored_tuple r bs) = Ok z).
  { intros n j z. exact (read_integer _ _ n r bs _ j z Hok HB eq_refl). }
  assert (HV : named_varchar ColumnsCatalogSchema "name" (stored_tuple r bs) = Ok (columnName c)).
  { apply (read_varchar catalog_columns ColumnsCatalogSchema "name" r bs (column_row m c) 2 (columnName c) Hok HB); reflexivity. }
  rewrite (HX "table_oid"%string 0%nat (i32 (oid m))) by (reflexivity || (vm_compute; reflexivity)). mred. rewrite i32_small by (unfold in_i32; lia).
  destruct (Z.eqb_spec (oid m) o) as [Heq|Hne]; [rewrite decide_True by done|by rewrite decide_False]. cbn [negb].
  rewrite (HX "type"%string 1%nat (i32 (type_number (columnType c)))) by (reflexivity || (vm_compute; reflexivity)). mred.
  rewrite HV. mred.
  rewrite (HX "fixed_length"%string 3%nat (i32 (fixedLength c))) by (reflexivity || (vm_compute; reflexivity)). mred.
  rewrite (HX "variable_length"%string 4%nat (i32 (variableLength c))) by (reflexivity || (vm_compute; reflexivity)). mred.
  rewrite (HX "offset"%string 5%nat (i32 (columnOffset c))) by (reflexivity || (vm_compute; reflexivity)). mred.
  rewrite (HX "has_index"%string 6%nat (boolToInt32 (hasIndex c))) by (reflexivity || (vm_compute; reflexivity)). mred.
  rewrite number_of_type, !read_u32 by done. clear -HI HLf. destruct c as [cn ct fl vl off hi lf]. cbn in HI, HLf. subst hi lf. cbn.
  unfold NewColumn. destruct (decide (ct ≠ Varchar)) as [|Heq']; [done|]. by destruct ct; try (exfalso; by apply Heq').
Qed.

(** ** A table on one page *)
Definition live (bss : list (list byte)) : slots := (λ bs, Some (false, bs)) <$> bss.
Definition on_page (P : gmap Z (list byte)) (q : Z) (cols : list Column) (rows : list (list Value)) : Prop :=
  ∃ bss, Forall2 (λ row bs, row_ok cols row ∧ bytes_of cols row bs) rows bss ∧ heap_rep P (InitTableHeap q) [(q, live bss)].
(** The bytes of the rows, with their slots, and whether a page has the room. *)
Definition rows_size (cols : list Column) (rows : list (list Value)) : Z := foldr (λ row z, row_size cols row + sizeTuple + z) 0 rows.
Definition fits (cols : list Column) (rows : list (list Value)) : Prop := rows_size cols rows ≤ free_space [].

Lemma rows_size_app cols l1 l2 : rows_size cols (l1 ++ l2) = rows_size cols l1 + rows_size cols l2.
Proof. unfold rows_size. induction l1 as [|x l1 IH]; cbn; [done|]. rewrite IH. lia. Qed.

Lemma free_slot_live bss : free_slot (live bss) = length bss.
Proof. induction bss as [|bs bss IH]; cbn; [done|]. by rewrite <- IH. Qed.
Lemma free_space_live cols rows bss : Forall2 (λ row bs, row_ok cols row ∧ bytes_of cols row bs) rows bss →
  free_space (live bss) = free_space [] - rows_size cols rows.
Proof.
  unfold free_space, total. induction 1 as [|row bs rows bss (Hok & t & Et & <-) _ IH]; [done|].
  destruct (row_tuple cols row Hok) as (t' & Et' & _ & _ & Hz). assert (t' = t) as -> by congruence.
  cbn [live fmap list_fmap length sum_list_with rows_size foldr]. fold (live bss). fold (rows_size cols rows).
  change (Some <$> bss) with (Some <$> bss). unfold row_size. unfold zlen in Hz. cbn [length sum_list_with] in IH. cbn [weight snd].
  lia.
Qed.

Lemma on_page_keep P P' q cols rows : P' !! q = P !! q → on_page P q cols rows → on_page P' q cols rows.
Proof.
  intros HE (bss & HF & [H1 H2 H3]). exists bss. split; [done|]. split; [done|done|]. eapply chain_outside; [|exact H3].
  by intros i ->%list_elem_of_singleton.
Qed.
Lemma on_page_has P q cols rows : on_page P q cols rows → is_Some (P !! q).
Proof. intros (bss & _ & [_ _ HC]). apply (chain_ids _ _ _ q HC). by left. Qed.

Lemma no_pins_room2 n : (2 ≤ n)%nat → frames_for 2 n ∅.
Proof. intros Hn. split; [rewrite map_size_empty; lia|]. intros pid i. by rewrite lookup_empty. Qed.

(** What the catalog's two tables are while nothing is logged. *)
Section pages.
Context {R : Type} `{Replacer R}.
Variables (n : nat) (fuel : nat).
Hypothesis Hn : (2 ≤ n)%nat.
Hypothesis Hfuel : (2 ≤ fuel)%nat.
Implicit Types (e : Engine R).

Record still e (P : gmap Z (list byte)) (next : Z) : Prop := {
  st_shows : shows (estore e) n (quiet P ∅);
  st_quiet : elogging e = false;
  st_next : nextPageID (diskManager (estore e)) = next
}.

Lemma insert_on_page e P next q cols rows row : still e P next → on_page P q cols rows → row_ok cols row → 0 < row_size cols row →
  fits cols (rows ++ [row]) → page_in_range next →
  ∃ t x e' P', NewTupleFromSchema row (NewSchema cols) = Ok t ∧ TableHeap.InsertTuple fuel (InitTableHeap q) t e = Ok (x, e') ∧
    still e' P' next ∧ on_page P' q cols (rows ++ [row]) ∧ ∀ i, i ≠ q → P' !! i = P !! i.
Proof.
  intros [S HE HN] (bss & HF & HR) Hok H0 HFit HRn. destruct (row_tuple cols row Hok) as (t & Et & _ & Hsz & Hz).
  fold (row_size cols row) in Hz. unfold fits in HFit. rewrite rows_size_app in HFit. cbn [rows_size foldr] in HFit. fold (rows_size cols rows) in HFit.
  pose proof (free_space_live _ _ _ HF) as HS. assert (Hs0 : 0 ≤ rows_size cols rows).
  { clear -HF. induction HF as [|row bs rows bss (Hok & t & Et & <-) _ IH]; [done|].
    destruct (row_tuple cols row Hok) as (t' & _ & _ & _ & Hz). cbn [rows_size foldr]. fold (rows_size cols rows) (row_size cols row). unfold row_size.
    rewrite <- Hz. unfold zlen, sizeTuple. lia. }
  assert (HI : heap_insert next (data t) [(q, live bss)] = ([(q, live (bss ++ [data t]))], MkRID q (Z.of_nat (length bss)))).
  { cbn [heap_insert]. rewrite (proj2 (Z.leb_le _ _)) by (rewrite HS, Hz; lia). rewrite free_slot_live. unfold put_slot, live.
    rewrite length_fmap, Nat.ltb_irrefl, fmap_app. done. }
  rewrite <- HN in HI, HRn.
  destruct (InsertTuple_next e n P ∅ (InitTableHeap q) [(q, live bss)] t fuel _ _ S HR (no_pins_room2 n Hn) Hsz ltac:(lia) ltac:(lia) HRn ltac:(cbn; lia) HI) as (e1 & e' & P' & E & He & S' & HR' & HO & HL & HD);
    [by rewrite HE|].
  exists t. eexists _, e', P'. split; [done|]. split; [exact E|]. split; [|split].
  - split; [done| |cbn in HD; lia]. rewrite He. destruct HL as (e2 & H1 & [H2 _]). cbn. rewrite H2.
    case_decide; [destruct H1 as (q' & _ & [-> _])|destruct H1 as [_ _ ->]]; done.
  - exists (bss ++ [data t]). split; [|done]. apply Forall2_app; [done|]. constructor; [|constructor]. split; [done|]. by exists t.
  - intros i Hi. apply HO. cbn. by intros ->%list_elem_of_singleton.
Qed.

(** *** Writing a table into the catalog *)
Definition meta_rows (ms : list TableMetadata) : list (list Value) := concat ((λ m, column_row m <$> columns (schema m)) <$> ms).
Definition meta_ok (m : TableMetadata) : Prop :=
  zlen (name m) + 3 < 2 ^ 15 ∧ Forall plain (columns (schema m)) ∧ 0 ≤ oid m < 2 ^ 31 ∧ 0 ≤ firstPageId (table m) < 2 ^ 31.

Lemma fits_prefix cols l1 l2 : Forall (λ row, 0 ≤ row_size cols row) l2 → fits cols (l1 ++ l2) → fits cols l1.
Proof.
  unfold fits. rewrite rows_size_app. intros HF HS. assert (0 ≤ rows_size cols l2); [|lia].
  clear -HF. induction HF as [|row l Hr _ IH]; [done|]. cbn [rows_size foldr]. fold (rows_size cols l). cbn beta in Hr. unfold sizeTuple. lia.
Qed.

Lemma insert_columns_run e P next m cs rows : still e P next → on_page P 1 catalog_columns rows → Forall plain cs →
  fits catalog_columns (rows ++ (column_row m <$> cs)) → page_in_range next →
  ∃ e' P', insert_columns fuel (InitTableHeap 1) m cs e = Ok (tt, e') ∧ still e' P' next ∧
    on_page P' 1 catalog_columns (rows ++ (column_row m <$> cs)) ∧ ∀ i, i ≠ 1 → P' !! i = P !! i.
Proof.
  intros S HO HF. revert e P rows S HO. induction HF as [|c cs (_ & _ & _ & _ & _ & Hc) HF IH]; intros e P rows S HO HFit HRn.
  - exists e, P. rewrite app_nil_r. done.
  - rewrite fmap_cons in HFit |- *. destruct (column_row_ok m c Hc) as [Hok Hsz].
    rewrite cons_middle, app_assoc in HFit |- *.
    destruct (insert_on_page e P next 1 catalog_columns rows (column_row m c) S HO Hok) as (t & x & e1 & P1 & Et & Ei & S1 & HO1 & HK1); [unfold zlen in *; lia| |done|].
    { eapply fits_prefix; [|exact HFit]. apply Forall_fmap. eapply Forall_impl; [exact HF|]. intros c' (_ & _ & _ & _ & _ & Hc').
      cbn. rewrite (proj2 (column_row_ok m c' Hc')). unfold zlen. lia. }
    destruct (IH e1 P1 _ S1 HO1 HFit HRn) as (e2 & P2 & E2 & S2 & HO2 & HK2).
    exists e2, P2. cbn [insert_columns]. change ColumnsCatalogSchema with (NewSchema catalog_columns).
    rewrite (st_bind_run _ _ _ _ _ (st_lift_run _ _ e Et)). rewrite (st_bind_run _ _ _ _ _ Ei).
    split; [exact E2|]. split; [done|]. split; [done|]. intros i Hi. by rewrite HK2, HK1.
Qed.

(** Page [pid] is on disk with its contents, or clean in the pool. *)
Definition settled (s : Store R) (pid : Z) : Prop := ∀ f p pg, cached s pid f p pg → isDirty pg = false.

Lemma flush_clean_run s P pid : shows s n (quiet P ∅) →
  ∃ b s', FlushPage pid s = Ok (b, s') ∧ shows s' n (quiet P ∅) ∧ settled s' pid ∧ (∀ i, settled s i → settled s' i) ∧
    nextPageID (diskManager s') = nextPageID (diskManager s).
Proof.
  intros S. destruct (sh_pool _ _ _ S) as (E & [I _] & _). destruct (pageTable (bpm s) !! pid) as [f|] eqn:HT.
  - destruct (pi_map _ _ _ I _ _ HT) as (_ & p & pg & C & _).
    destruct (shows_flush s n _ pid f p pg S C eq_refl) as (s1 & E1 & S1 & C1 & Hold & HT1 & _ & HN1);
      [unfold vlatch_of; cbn; by rewrite lookup_empty|].
    exists true, s1. split; [exact E1|]. split; [done|]. split; [|split; [|done]].
    + intros f' p' q C'. by destruct (cached_fun _ _ _ _ _ _ _ _ C1 C') as (_ & _ & <-).
    + intros i Hi f' p' q C'. destruct (decide (i = pid)) as [->|Hne].
      { by destruct (cached_fun _ _ _ _ _ _ _ _ C1 C') as (_ & _ & <-). }
      pose proof (proj1 C') as HTi. rewrite HT1 in HTi. destruct (pi_map _ _ _ I _ _ HTi) as (_ & p0 & pg0 & C0 & _).
      destruct (cached_fun _ _ _ _ _ _ _ _ (Hold _ _ _ _ Hne C0) C') as (_ & _ & <-). by eapply Hi.
  - exists false, s. split; [unfold FlushPage; rewrite (st_bind_run _ _ s s s) by done; by rewrite HT|]. split; [done|].
    split; [|done]. intros f p pg C. destruct C as [HT' _]. congruence.
Qed.

Definition on_disk (s : Store R) (pid : Z) (bs : list byte) : Prop :=
  page_present pid (diskManager s) ∧ page_bytes pid (diskManager s) = bs.
Lemma settled_on_disk s P pid bs : shows s n (quiet P ∅) → settled s pid → P !! pid = Some bs → on_disk s pid bs.
Proof.
  intros S HS HP. destruct (sh_pages _ _ _ S _ _ HP) as [(f & p & pg & C & <-)|(_ & HB & HBb)]; [|by split].
  destruct (sh_cached _ _ _ S _ _ _ _ C) as (_ & _ & _ & HCc). apply HCc; [by eapply HS|cbn; set_solver].
Qed.

(** The two pages of the catalog, in the pool and on disk. *)
Definition catalog_pages (P : gmap Z (list byte)) (ms : list TableMetadata) : Prop :=
  on_page P 0 tables_columns (table_row <$> ms) ∧ on_page P 1 catalog_columns (meta_rows ms).
Definition catalog_fits (ms : list TableMetadata) : Prop := fits tables_columns (table_row <$> ms) ∧ fits catalog_columns (meta_rows ms).
Definition saved e (P : gmap Z (list byte)) : Prop := ∀ pid bs, pid = 0 ∨ pid = 1 → P !! pid = Some bs → on_disk (estore e) pid bs.

Lemma insertTable_run e P next c m ms : still e P next → catalog_pages P ms → tableHeap c = InitTableHeap 0 →
  table <$> (tableIds c !! 0) = Some (InitTableHeap 1) → meta_ok m → catalog_fits (ms ++ [m]) → page_in_range next →
  ∃ e' P', insertTable fuel c m e = Ok (tt, e') ∧ still e' P' next ∧ catalog_pages P' (ms ++ [m]) ∧ saved e' P'.
Proof.
  intros S [HO0 HO1] Hh Ht (Hnm & Hpl & _) [HF0 HF1] HRn. unfold meta_rows in HF1. rewrite fmap_app in HF0. rewrite fmap_app, concat_app in HF1.
  cbn [fmap list_fmap concat] in HF1. rewrite app_nil_r in HF1. fold (meta_rows ms) in HF1.
  destruct (table_row_ok m Hnm) as [Hok Hsz].
  destruct (insert_on_page e P next 0 tables_columns _ (table_row m) S HO0 Hok) as (t & x & e1 & P1 & Et & Ei & S1 & HO0' & HK1); [unfold zlen in *; lia|done|done|].
  assert (HO1' : on_page P1 1 catalog_columns (meta_rows ms)) by (eapply on_page_keep; [|exact HO1]; by apply HK1).
  destruct (insert_columns_run e1 P1 next m _ _ S1 HO1' Hpl HF1 HRn) as (e2 & P2 & E2 & [S2 Hq2 HN2] & HO12 & HK2).
  assert (HO02 : on_page P2 0 tables_columns ((table_row <$> ms) ++ [table_row m])) by (eapply on_page_keep; [|exact HO0']; by apply HK2).
  destruct (flush_clean_run (estore e2) P2 0 S2) as (b0 & s3 & E3 & S3 & HS30 & _ & HN3).
  destruct (flush_clean_run s3 P2 1 S3) as (b1 & s4 & E4 & S4 & HS41 & HS4 & HN4).
  exists (set_store s4 (set_store s3 e2)), P2. split; [|split; [|split]].
  - unfold insertTable. rewrite (st_bind_run _ _ _ _ _ (st_lift_run _ _ e Et)). rewrite Hh. rewrite (st_bind_run _ _ _ _ _ Ei).
    assert (EC : (match columns (schema m) with
       | [] => mret tt
       | cols => columns_table ← st_lift (deref (tableIds c !! ColumnsCatalogOID)); insert_columns fuel (table columns_table) m cols
       end) e1 = Ok (tt, e2)).
    { unfold ColumnsCatalogOID. destruct (tableIds c !! 0) as [t0|]; [|done]. injection Ht as Ht0. rewrite <- Ht0 in E2.
      destruct (columns (schema m)) as [|c0 cs]; [exact E2|]. rewrite (st_bind_run _ _ _ _ _ (st_lift_run _ t0 e1 eq_refl)). exact E2. }
    rewrite (st_bind_run _ _ _ _ _ EC). rewrite (st_bind_run _ _ _ _ _ (with_store_run _ _ _ _ E3)).
    rewrite (st_bind_run _ _ _ _ _ (with_store_run (FlushPage ColumnsCatalogPageId) (set_store s3 e2) _ _ E4)). done.
  - split; [done|done|]. cbn. rewrite HN4, HN3. done.
  - split; [by rewrite fmap_app|]. unfold meta_rows. rewrite fmap_app, concat_app. cbn [fmap list_fmap concat]. by rewrite app_nil_r.
  - intros pid bs Hp HP. eapply settled_on_disk; [exact S4| |exact HP]. destruct Hp as [-> | ->]; [by apply HS4|done].
Qed.

(** *** Creating the tables *)

(** The table made as number [i]: its first page is the next after those of the tables
    before it and of the catalog's first table. *)
Definition new_meta (i : nat) (t : list byte * list Column) : TableMetadata :=
  let s := NewSchema (snd t) in
  MkTableMetadata s (fst t) (InitTableHeap (Z.of_nat i + 1)) ((λ _, None) <$> columns s) (Z.of_nat i).
Fixpoint metas_from (i : nat) (ts : list (list byte * list Column)) : list TableMetadata :=
  match ts with [] => [] | t :: ts' => new_meta i t :: metas_from (S i) ts' end.
Definition ids_of (ms : list TableMetadata) : gmap Z TableMetadata := foldl (λ ids m, <[oid m := m]> ids) ∅ ms.
Definition names_of (ms : list TableMetadata) : gmap (list byte) TableMetadata := foldl (λ names m, <[name m := m]> names) ∅ ms.
Definition catalog_of (ms : list TableMetadata) : Catalog :=
  MkCatalog (ids_of ms) (names_of ms) (Z.of_nat (length ms)) (InitTableHeap 0).
Definition table_ok (t : list byte * list Column) : Prop := zlen (fst t) + 3 < 2 ^ 15 ∧ plain_table (snd t).

(** As [NewTableMetadata] makes them. *)
Definition made (m : TableMetadata) : Prop :=
  meta_ok m ∧ NewSchema (columns (schema m)) = schema m ∧ indexes m = (λ _, None) <$> columns (schema m).

Lemma new_meta_made i t : table_ok t → Z.of_nat i < 2 ^ 30 → made (new_meta i t).
Proof.
  intros [Hnm Hpl] Hi. split; [split; [done|split; [|split; cbn; lia]]|split; [by apply plain_schema|done]].
  cbn [schema new_meta]. rewrite (plain_columns _ Hpl). by apply plain_placed.
Qed.

Lemma new_indexes_none s nm i cs e : Forall (λ c, hasIndex c = false) cs → new_indexes s nm i cs e = Ok ((λ _, None) <$> cs, e).
Proof.
  intros HF. revert i. induction HF as [|c cs Hc _ IH]; intros i; [done|]. cbn [new_indexes]. rewrite Hc.
  rewrite (st_bind_run _ _ e None e) by done. by rewrite (st_bind_run _ _ _ _ _ (IH (i + 1))).
Qed.
Lemma NewTableMetadata_run m e : made m → NewTableMetadata (schema m) (name m) (table m) (oid m) e = Ok (m, e).
Proof.
  intros ((_ & HF & _) & _ & HI). unfold NewTableMetadata.
  rewrite (st_bind_run _ _ _ _ _ (new_indexes_none (schema m) (name m) 0 (columns (schema m)) e ltac:(eapply Forall_impl; [exact HF|by intros c []]))).
  rewrite <- HI. by destruct m.
Qed.

Definition numbered (ms : list TableMetadata) : Prop := ∀ i m, ms !! i = Some m → oid m = Z.of_nat i ∧ table m = InitTableHeap (Z.of_nat i + 1).
Lemma ids_of_lookup ms i : numbered ms → ids_of ms !! Z.of_nat i = ms !! i.
Proof.
  induction ms as [|m ms IH] using rev_ind; intros HN; [done|]. unfold ids_of. rewrite foldl_app. cbn [foldl]. fold (ids_of ms).
  destruct (HN (length ms) m) as [-> _]; [by rewrite list_lookup_middle|]. destruct (decide (i = length ms)) as [->|Hne].
  - by rewrite lookup_insert_eq, list_lookup_middle.
  - rewrite lookup_insert_ne by lia. rewrite IH; [|intros j m' Hj; apply HN; by apply lookup_app_l_Some].
    destruct (decide (i < length ms)%nat); [by rewrite lookup_app_l|]. rewrite !lookup_ge_None_2; [done| |lia]. rewrite length_app. cbn. lia.
Qed.

Lemma empty_on_page P q cols : heap_rep P (InitTableHeap q) [(q, [])] → on_page P q cols [].
Proof. intros HR. by exists []. Qed.

Lemma CreateTable_run e P ms t : still e P (Z.of_nat (length ms) + 1) → on_page P 0 tables_columns (table_row <$> ms) →
  (ms ≠ [] → on_page P 1 catalog_columns (meta_rows ms)) → numbered ms → table_ok t → catalog_fits (ms ++ [new_meta (length ms) t]) →
  Z.of_nat (length ms) + 2 < 2 ^ 19 →
  ∃ e' P', CreateTable fuel (catalog_of ms) (fst t) (NewSchema (snd t)) e =
      Ok ((catalog_of (ms ++ [new_meta (length ms) t]), new_meta (length ms) t), e') ∧
    still e' P' (Z.of_nat (length (ms ++ [new_meta (length ms) t])) + 1) ∧ catalog_pages P' (ms ++ [new_meta (length ms) t]) ∧ saved e' P' ∧
    numbered (ms ++ [new_meta (length ms) t]).
Proof.
  intros [S Hq HN] HO0 HO1 HNum Ht HFit Hlen. set (k := length ms) in *. set (m := new_meta k t) in *.
  assert (Hm : made m) by (apply new_meta_made; [done|lia]).
  assert (HNum' : numbered (ms ++ [m])).
  { intros i m' [Hi|[Hge Hi]]%lookup_app_Some; [by apply HNum|]. apply list_lookup_singleton_Some in Hi as [Hi <-].
    assert (i = k) as -> by (unfold k in *; lia). by split. }
  destruct (NewTableHeap_run e n P ∅ S) as (e1 & d & E1 & S1 & HR1 & [HL1 _] & HN1);
    [rewrite map_size_empty; lia|rewrite HN; unfold page_in_range; lia|]. rewrite HN in E1, S1, HR1, HN1.
  set (P1 := <[Z.of_nat k + 1 := d]> P) in *.
  assert (HC1 : catalog_pages P1 ms).
  { split; [eapply on_page_keep; [|exact HO0]; unfold P1; by rewrite lookup_insert_ne by lia|].
    destruct (decide (ms = [])) as [->|Hne]; [by apply empty_on_page|]. eapply on_page_keep; [|by apply HO1].
    unfold P1. rewrite lookup_insert_ne; [done|]. destruct ms; [done|unfold k; cbn; lia]. }
  set (c' := MkCatalog (<[Z.of_nat k := m]> (ids_of ms)) (<[name m := m]> (names_of ms)) (u32 (Z.of_nat k + 1)) (InitTableHeap 0)).
  assert (HId : ids_of (ms ++ [m]) = <[Z.of_nat k := m]> (ids_of ms)) by (unfold ids_of; by rewrite foldl_app).
  destruct (insertTable_run e1 P1 (Z.of_nat k + 1 + 1) c' m ms) as (e2 & P2 & E2 & S2 & HC2 & HS2).
  - split; [exact S1|congruence|done].
  - done.
  - done.
  - cbn [tableIds c']. rewrite <- HId. change 0 with (Z.of_nat 0). rewrite (ids_of_lookup _ _ HNum').
    destruct ((ms ++ [m]) !! 0%nat) as [m0|] eqn:H0; [cbn; by destruct (HNum' _ _ H0) as [_ ->]|].
    apply lookup_ge_None_1 in H0. rewrite length_app in H0. cbn in H0. lia.
  - apply Hm.
  - done.
  - unfold page_in_range. lia.
  - exists e2, P2. split; [|split; [|done]].
    + unfold CreateTable. cbn [nextTableId catalog_of]. rewrite (st_bind_run _ _ _ _ _ E1).
      pose proof (NewTableMetadata_run m e1 Hm) as EM. cbn [schema name table oid m new_meta] in EM. rewrite (st_bind_run _ _ _ _ _ EM).
      change (tableIds (catalog_of ms)) with (ids_of ms). change (tableNames (catalog_of ms)) with (names_of ms).
      change (length ms) with k. rewrite (st_bind_run _ _ _ _ _ E2).
      assert (HC : c' = catalog_of (ms ++ [m])); [|rewrite <- HC; reflexivity].
      unfold c', catalog_of. rewrite HId. unfold names_of. rewrite foldl_app. cbn [foldl]. f_equal. rewrite length_app. cbn.
      rewrite u32_small by (unfold in_u32; lia). unfold k. lia.
    + replace (Z.of_nat (length (ms ++ [m]))) with (Z.of_nat k + 1) by (rewrite length_app; cbn; unfold k; lia). done.
Qed.

Fixpoint create_tables (c : Catalog) (ts : list (list byte * list Column)) : st (Engine R) Catalog :=
  match ts with
  | [] => mret c
  | t :: ts' => r ← CreateTable fuel c (fst t) (NewSchema (snd t)); create_tables (fst r) ts'
  end.
(** A new database, and all of its tables: the first is the catalog's own. *)
Definition new_database (ts : list (list byte * list Column)) : st (Engine R) Catalog :=
  c ← BootstrapCatalog fuel; create_tables c ts.
Definition all_metas (ts : list (list byte * list Column)) : list TableMetadata :=
  metas_from 0 ((text "columns_catalog", catalog_columns) :: ts).

Lemma catalog_fits_prefix l1 l2 : Forall meta_ok l2 → catalog_fits (l1 ++ l2) → catalog_fits l1.
Proof.
  intros HF [H0 H1]. rewrite fmap_app in H0. unfold meta_rows in H1. rewrite fmap_app, concat_app in H1. split.
  - eapply fits_prefix; [|exact H0]. apply Forall_fmap. eapply Forall_impl; [exact HF|]. intros m (Hm & _). cbn.
    rewrite (proj2 (table_row_ok m Hm)). unfold zlen. lia.
  - eapply fits_prefix; [|exact H1]. clear -HF. induction HF as [|m l (_ & Hm & _) _ IH]; [constructor|]. cbn [fmap list_fmap concat].
    apply Forall_app; split; [|exact IH]. apply Forall_fmap. eapply Forall_impl; [exact Hm|]. intros c (_ & _ & _ & _ & _ & Hc). cbn.
    rewrite (proj2 (column_row_ok m c Hc)). unfold zlen. lia.
Qed.
Lemma catalog_fits_length ms : Forall (λ m, zlen (name m) + 3 < 2 ^ 15) ms → catalog_fits ms → Z.of_nat (length ms) ≤ 4072.
Proof.
  intros HF [H0 _]. assert (Z.of_nat (length ms) ≤ rows_size tables_columns (table_row <$> ms)).
  { clear -HF. induction HF as [|m ms Hm _ IH]; [done|]. cbn [fmap list_fmap length rows_size foldr].
    fold (rows_size tables_columns (table_row <$> ms)). rewrite (proj2 (table_row_ok m Hm)). unfold zlen, sizeTuple. lia. }
  unfold fits in H0. change (free_space []) with 4072 in H0. lia.
Qed.

Lemma metas_made i ts : Forall table_ok ts → Z.of_nat (i + length ts) < 2 ^ 30 → Forall made (metas_from i ts).
Proof.
  intros HF. revert i. induction HF as [|t ts Ht _ IH]; intros i Hi; [constructor|]. cbn in Hi. constructor; [apply new_meta_made; [done|lia]|].
  apply IH. lia.
Qed.
Lemma length_metas i ts : length (metas_from i ts) = length ts.
Proof. revert i. induction ts as [|t ts IH]; intros i; [done|]. cbn. by rewrite IH. Qed.

Lemma create_tables_run ts ms e P : still e P (Z.of_nat (length ms) + 1) → catalog_pages P ms → ms ≠ [] → saved e P → numbered ms →
  Forall table_ok ts → Forall made (metas_from (length ms) ts) → catalog_fits (ms ++ metas_from (length ms) ts) →
  Z.of_nat (length ms + length ts) + 1 < 2 ^ 19 →
  ∃ e' P', create_tables (catalog_of ms) ts e = Ok (catalog_of (ms ++ metas_from (length ms) ts), e') ∧
    still e' P' (Z.of_nat (length ms + length ts) + 1) ∧ catalog_pages P' (ms ++ metas_from (length ms) ts) ∧ saved e' P' ∧
    numbered (ms ++ metas_from (length ms) ts).
Proof.
  intros S HC Hne HS HN HF. revert ms e P S HC Hne HS HN. induction HF as [|t ts Ht HF IH]; intros ms e P S HC Hne HS HN HM HFit Hlen.
  - exists e, P. cbn. rewrite app_nil_r, Nat.add_0_r. done.
  - cbn [metas_from] in *. apply Forall_cons in HM as [Hm HM]. set (m := new_meta (length ms) t) in *.
    rewrite cons_middle, app_assoc in HFit |- *. cbn in Hlen.
    assert (HM' : Forall meta_ok (metas_from (Datatypes.S (length ms)) ts)) by (eapply Forall_impl; [exact HM|]; by intros m' []).
    destruct (CreateTable_run e P ms t S (proj1 HC) (λ _, proj2 HC) HN Ht) as (e1 & P1 & E1 & S1 & HC1 & HS1 & HN1);
      [by eapply catalog_fits_prefix|lia|]. fold m in E1, S1, HC1, HN1.
    assert (HL : length (ms ++ [m]) = Datatypes.S (length ms)) by (rewrite length_app; cbn; lia).
    destruct (IH (ms ++ [m]) e1 P1 S1 HC1) as (e2 & P2 & E2 & S2 & HC2 & HS2 & HN2).
    + intros HE. apply (f_equal length) in HE. rewrite HL in HE. done.
    + done.
    + done.
    + by rewrite HL.
    + by rewrite HL.
    + rewrite HL. lia.
    + rewrite HL in E2, S2, HC2, HN2. exists e2, P2. cbn [create_tables]. rewrite (st_bind_run _ _ _ _ _ E1). split; [exact E2|].
      cbn [length]. by replace (length ms + Datatypes.S (length ts))%nat with (Datatypes.S (length ms) + length ts)%nat by lia.
Qed.

Lemma catalog_table_ok : table_ok (text "columns_catalog", catalog_columns).
Proof.
  split; [by vm_compute|]. split; [|by vm_compute]. unfold catalog_columns, plain_column.
  repeat (constructor; [split; [done|]; split; [done|]; split; [split; by vm_compute|]; split; [split; by vm_compute|]; split; [split; by vm_compute|by vm_compute]|]).
  constructor.
Qed.

Lemma new_database_run e ts : still e ∅ 0 → Forall table_ok ts → (length ts < 4072)%nat → catalog_fits (all_metas ts) →
  ∃ e' P', new_database ts e = Ok (catalog_of (all_metas ts), e') ∧ still e' P' (Z.of_nat (length ts) + 2) ∧
    catalog_pages P' (all_metas ts) ∧ saved e' P' ∧ numbered (all_metas ts) ∧ Forall made (all_metas ts).
Proof.
  intros [S Hq HN] HF Hts HFit. set (t0 := (text "columns_catalog", catalog_columns)) in *.
  assert (HM : Forall made (all_metas ts)) by (apply metas_made; [constructor; [exact catalog_table_ok|done]|cbn [length]; lia]).
  pose proof HM as HM'. unfold all_metas in HM', HFit. cbn [metas_from] in HM', HFit. fold t0 in HM', HFit. set (m0 := new_meta 0 t0) in *.
  apply Forall_cons in HM' as [_ HM'].
  destruct (NewTableHeap_run e n ∅ ∅ S) as (e1 & d & E1 & S1 & HR1 & [HL1 _] & HN1);
    [rewrite map_size_empty; lia|rewrite HN; unfold page_in_range; lia|]. rewrite HN in E1, S1, HR1, HN1.
  destruct (CreateTable_run e1 (<[0 := d]> ∅) [] t0) as (e2 & P2 & E2 & S2 & HC2 & HS2 & HN2).
  - split; [exact S1|congruence|exact HN1].
  - by apply empty_on_page.
  - done.
  - intros i m. by rewrite lookup_nil.
  - exact catalog_table_ok.
  - eapply catalog_fits_prefix; [|exact HFit]. eapply Forall_impl; [exact HM'|]. by intros m [].
  - cbn. lia.
  - cbn [length app] in E2, S2, HC2, HN2. fold m0 in E2, S2, HC2, HN2.
    destruct (create_tables_run ts [m0] e2 P2 S2 HC2) as (e3 & P3 & E3 & S3 & HC3 & HS3 & HN3); [done|done|done|done|exact HM'|exact HFit|cbn [length]; lia|].
    exists e3, P3. unfold new_database, BootstrapCatalog.
    assert (EB : (tableCatalogHeap ← NewTableHeap;
        r ← CreateTable fuel (MkCatalog ∅ ∅ 0 tableCatalogHeap) (text "columns_catalog") ColumnsCatalogSchema; mret (fst r)) e =
      Ok (catalog_of [m0], e2)).
    { rewrite (st_bind_run _ _ _ _ _ E1). rewrite (st_bind_run _ _ _ _ _ E2). done. }
    rewrite (st_bind_run _ _ _ _ _ EB). split; [exact E3|].
    split; [by replace (Z.of_nat (length ts) + 2) with (Z.of_nat (length [m0] + length ts) + 1) by (cbn [length]; lia)|done].
Qed.
End pages.

(** ** Opening the database again *)
Section restart.
Context {R : Type} `{Replacer R}.
Variables (n : nat) (pages fuel : nat).
Hypothesis Hn : (2 ≤ n)%nat.
Hypothesis Hpages : (1 ≤ pages)%nat.
Implicit Types (e : Engine R).

(** The files are opened, the pool is new and nothing is locked. *)
Definition restarted (e : Engine R) (t : Transaction) : Engine R :=
  let d := diskManager (estore e) in
  MkEngine (new_store (Z.of_nat n) (NewDiskManagerImpl (content (db d)) (content (log d)))) NewLockManager t false.

Record reading e (P : gmap Z (list byte)) : Prop := {
  rg_shows : shows (estore e) n (quiet P ∅);
  rg_readable : ∀ r, readable r e
}.
Lemma reading_step e e' P : reading e P → shows (estore e') n (quiet P ∅) → read_step e e' → reading e' P.
Proof. intros [S HR] S' RS. split; [done|]. intros r. by eapply readable_step. Qed.

Lemma restarted_reading e P t next ms : Z.of_nat n < 2 ^ 32 → still n e P next → next < 2 ^ 19 → catalog_pages P ms → saved e P →
  ∃ P', reading (restarted e t) P' ∧ catalog_pages P' ms.
Proof.
  intros Hn32 [S _ HN] Hnext [H0 H1] HS. destruct (on_page_has _ _ _ _ H0) as [b0 Hb0]. destruct (on_page_has _ _ _ _ H1) as [b1 Hb1].
  exists (<[0 := b0]> (<[1 := b1]> ∅)). split; [split|split].
  - unfold restarted. cbn [estore]. rewrite <- (Nat2Z.id n) at 2. apply new_store_pages.
    + unfold in_u32. lia.
    + done.
    + destruct (sh_pool _ _ _ S) as (E & _ & [HI _] & _). unfold file_size in *. cbn [db log content NewDiskManagerImpl nextPageID].
      rewrite HN in HI. set (np := Z.of_nat (length (content (db (diskManager (estore e))))) / PageSize) in *.
      destruct (Z.ltb_spec 0 np); [|done]. rewrite i32_small by (unfold in_i32; lia). lia.
    + intros pid bs Hp. assert (HD : on_disk (estore e) pid bs); [|exact HD].
      apply lookup_insert_Some in Hp as [[<- <-]|[_ [[<- <-]|[_ Hp]]%lookup_insert_Some]]; [by apply HS; auto|by apply HS; auto|by rewrite lookup_empty in Hp].
  - intros r u. cbn. by rewrite lookup_empty.
  - eapply on_page_keep; [|exact H0]. by rewrite lookup_insert_eq.
  - eapply on_page_keep; [|exact H1]. by rewrite lookup_insert_ne, lookup_insert_eq.
Qed.

(** The records of a page are its rows, in order. *)
Lemma page_rows_entries q cols rows bss : Forall2 (λ row bs, row_ok cols row ∧ bytes_of cols row bs) rows bss →
  Forall2 (entry_of cols) (heap_entries [(q, live bss)]) rows.
Proof.
  intros HF. cbn [heap_entries]. rewrite app_nil_r. generalize 0. induction HF as [|row bs rows bss [Hok HB] _ IH]; intros z; [constructor|].
  constructor; [|apply IH]. split; [done|]. by exists bs.
Qed.

Lemma start_reading e P t c : reading e P → heap_rep P t c → (length c ≤ pages)%nat →
  ∃ e', NewTableHeapIterator pages t e = Ok (MkIterator t (shown (heap_entries c)), e') ∧ reading e' P.
Proof.
  intros HRg HR Hc. pose proof HRg as [S HRd]. destruct (start_run e n ∅ P ∅ t c pages S HR (no_pins_room2 n Hn)) as (e' & E & S' & RS & _);
    [apply Forall_forall; intros x _; apply HRd|done|apply clean_nothing|]. exists e'. split; [exact E|]. by apply (reading_step e).
Qed.
Lemma next_reading e P t c r bs l : reading e P → heap_rep P t c → (length c ≤ pages)%nat → at_entry c r (false, bs) l →
  ∃ e', TableScan.Next pages (MkIterator t (Some (stored_tuple r bs))) e = Ok (MkIterator t (shown l), e') ∧ reading e' P.
Proof.
  intros HRg HR Hc HA. pose proof HRg as [S HRd]. destruct (Next_run e n ∅ P ∅ t c r false bs l pages S HR HA (no_pins_room2 n Hn)) as (e' & E & S' & RS & _);
    [intros; apply HRd|done|apply clean_nothing|]. exists e'. split; [exact E|]. by apply (reading_step e).
Qed.

(** *** The columns of one table *)
Definition columns_of (o : Z) (mcs : list (TableMetadata * Column)) : list Column :=
  omap (λ mc, if decide (oid (fst mc) = o) then Some (snd mc) else None) mcs.

Lemma read_columns_run f o P t c l mcs e : reading e P → heap_rep P t c → (length c ≤ pages)%nat →
  (∀ r x l', l = (r, x) :: l' → at_entry c r x l') →
  Forall2 (entry_of catalog_columns) l ((λ mc, column_row (fst mc) (snd mc)) <$> mcs) →
  Forall (λ mc : TableMetadata * Column, plain (snd mc) ∧ 0 ≤ oid (fst mc) < 2 ^ 31) mcs → (length l ≤ f)%nat →
  ∃ e', read_columns f pages o (MkIterator t (shown l)) e = Ok (columns_of o mcs, e') ∧ reading e' P.
Proof.
  intros HRg HR Hc HA HF HM Hf. revert f l e HRg HA HF Hf. induction HM as [|[m col] mcs [Hcol Hoid] _ IH]; intros f l e HRg HA HF Hf.
  - apply Forall2_nil_inv_r in HF as ->. exists e. split; [|done]. by destruct f.
  - apply Forall2_cons_inv_r in HF as ([r [b bs]] & l' & (Hok & bs' & [= -> ->] & HB) & HF & ->).
    destruct f as [|f]; [cbn in Hf; lia|]. destruct (next_reading e P t c r bs' l' HRg HR Hc (HA _ _ _ eq_refl)) as (e1 & E1 & HRg1).
    destruct (IH f l' e1 HRg1) as (e2 & E2 & HRg2); [|done|cbn in Hf; lia|].
    { intros r' x l'' ->. eapply at_entry_next, HA, eq_refl. }
    exists e2. split; [|done]. cbn [shown read_columns Current tuple].
    rewrite (st_bind_run _ _ _ _ _ (st_lift_run _ _ e (read_column_row m col o r bs' Hcol Hoid Hok HB))).
    rewrite (st_bind_run _ _ _ _ _ E1), (st_bind_run _ _ _ _ _ E2). 
    change (columns_of o ((m, col) :: mcs)) with
      (match (if decide (oid m = o) then Some col else None) with Some y => y :: columns_of o mcs | None => columns_of o mcs end).
    by destruct (decide (oid m = o)).
Qed.

Definition all_columns (ms : list TableMetadata) : list (TableMetadata * Column) := concat ((λ m, pair m <$> columns (schema m)) <$> ms).
Lemma all_columns_rows ms : (λ mc, column_row (fst mc) (snd mc)) <$> all_columns ms = meta_rows ms.
Proof.
  unfold all_columns, meta_rows. induction ms as [|m ms IH]; [done|]. cbn [fmap list_fmap concat]. rewrite fmap_app. f_equal; [|exact IH].
  by rewrite <- list_fmap_compose.
Qed.

Lemma columns_of_app o l1 l2 : columns_of o (l1 ++ l2) = columns_of o l1 ++ columns_of o l2.
Proof. apply omap_app. Qed.
Lemma columns_of_table m o : columns_of o (pair m <$> columns (schema m)) = if decide (oid m = o) then columns (schema m) else [].
Proof.
  generalize (columns (schema m)). intros cs. unfold columns_of. induction cs as [|c cs IH]; [by destruct (decide _)|].
  cbn [fmap list_fmap omap list_omap fst snd] in *. rewrite IH. by destruct (decide _).
Qed.
Lemma columns_of_other o ms : (∀ m, m ∈ ms → oid m ≠ o) → columns_of o (all_columns ms) = [].
Proof.
  induction ms as [|m ms IH]; intros HO; [done|]. unfold all_columns. cbn [fmap list_fmap concat]. rewrite columns_of_app, columns_of_table.
  rewrite decide_False by (apply HO; by left). apply IH. intros m' Hm'. apply HO. by right.
Qed.
Lemma columns_of_all ms m : NoDup (oid <$> ms) → m ∈ ms → columns_of (oid m) (all_columns ms) = columns (schema m).
Proof.
  induction ms as [|m0 ms IH]; intros HND Hm; [by apply not_elem_of_nil in Hm|]. cbn in HND. apply NoDup_cons in HND as [Hn0 HND].
  unfold all_columns. cbn [fmap list_fmap concat]. rewrite columns_of_app, columns_of_table. fold (all_columns ms).
  apply elem_of_cons in Hm as [->|Hm].
  - rewrite decide_True by done. rewrite columns_of_other, app_nil_r; [done|]. intros m' Hm' HE. apply Hn0. rewrite <- HE. by apply list_elem_of_fmap_2.
  - rewrite decide_False; [by apply IH|]. intros HE. apply Hn0. rewrite HE. by apply list_elem_of_fmap_2.
Qed.

(** *** All tables *)
Lemma live_entry P q cols rows : on_page P q cols rows →
  ∃ c, heap_rep P (InitTableHeap q) c ∧ length c = 1%nat ∧ Forall2 (entry_of cols) (heap_entries c) rows.
Proof. intros (bss & HF & HR). exists [(q, live bss)]. split; [done|]. split; [done|]. by apply page_rows_entries. Qed.

Lemma read_table_columns f P ms o e : reading e P → catalog_pages P ms → Forall made ms → (length (all_columns ms) ≤ f)%nat →
  ∃ it e0 e', NewTableHeapIterator pages (InitTableHeap ColumnsCatalogPageId) e = Ok (it, e0) ∧
    read_columns f pages o it e0 = Ok (columns_of o (all_columns ms), e') ∧ reading e' P.
Proof.
  intros HRg [_ HO] HM Hf. destruct (live_entry _ _ _ _ HO) as (c & HR & Hc & HF).
  destruct (start_reading e P (InitTableHeap 1) c HRg HR ltac:(lia)) as (e1 & E1 & HRg1).
  rewrite <- all_columns_rows in HF. pose proof (Forall2_length _ _ _ HF) as HL. rewrite length_fmap in HL.
  destruct (read_columns_run f o P (InitTableHeap 1) c (heap_entries c) (all_columns ms) e1 HRg1 HR ltac:(lia)) as (e2 & E2 & HRg2); [|done| |lia|].
  - intros r x l'. apply at_entry_head.
  - clear -HM. unfold all_columns. induction HM as [|m ms ((_ & Hcs & Ho & _) & _) _ IH]; [constructor|]. cbn [fmap list_fmap concat].
    apply Forall_app; split; [|exact IH]. apply Forall_fmap. eapply Forall_impl; [exact Hcs|]. by intros col Hcol.
  - exists (MkIterator (InitTableHeap 1) (shown (heap_entries c))), e1, e2. by split.
Qed.

Lemma table_row_read m r bs : meta_ok m → row_ok tables_columns (table_row m) → bytes_of tables_columns (table_row m) bs →
  named_integer TableCatalogSchema "oid" (stored_tuple r bs) = Ok (oid m) ∧
  named_varchar TableCatalogSchema "name" (stored_tuple r bs) = Ok (name m) ∧
  named_integer TableCatalogSchema "first_page" (stored_tuple r bs) = Ok (firstPageId (table m)).
Proof.
  intros (_ & _ & Ho & Hp) Hok HB. split; [|split].
  - rewrite (read_integer tables_columns _ "oid" r bs (table_row m) 0 (i32 (oid m)) Hok HB) by (reflexivity || (vm_compute; reflexivity)).
    by rewrite i32_small by (unfold in_i32; lia).
  - apply (read_varchar tables_columns _ "name" r bs (table_row m) 1 (name m) Hok HB); (reflexivity || (vm_compute; reflexivity)).
  - rewrite (read_integer tables_columns _ "first_page" r bs (table_row m) 2 (i32 (firstPageId (table m))) Hok HB) by (reflexivity || (vm_compute; reflexivity)).
    by rewrite i32_small by (unfold in_i32; lia).
Qed.

Lemma read_tables_run f P all t c l ms ids names e : reading e P → catalog_pages P all → Forall made all → NoDup (oid <$> all) →
  heap_rep P t c → (length c ≤ pages)%nat → (length (all_columns all) ≤ fuel)%nat → ms ⊆ all →
  (∀ r x l', l = (r, x) :: l' → at_entry c r x l') → Forall2 (entry_of tables_columns) l (table_row <$> ms) →
  (length l + length (all_columns all) ≤ f)%nat →
  ∃ e', read_tables f pages (MkIterator t (shown l)) ids names e =
      Ok ((foldl (λ ids m, <[oid m := m]> ids) ids ms, foldl (λ names m, <[name m := m]> names) names ms), e') ∧ reading e' P.
Proof.
  intros HRg HC HM HND HR Hc Hfu. revert f l ids names e HRg. induction ms as [|m ms IH]; intros f l ids names e HRg Hsub HA HF Hf.
  - apply Forall2_nil_inv_r in HF as ->. exists e. split; [|done]. by destruct f.
  - rewrite fmap_cons in HF. apply Forall2_cons_inv_r in HF as ([r [b bs]] & l' & (Hok & bs' & [= -> ->] & HB) & HF & ->).
    assert (Hin : m ∈ all) by (apply Hsub; by left). pose proof (proj1 (Forall_forall _ _) HM _ Hin) as Hm.
    pose proof Hm as (Hmk & HSc & HIx). destruct f as [|f]; [cbn in Hf; lia|].
    destruct (table_row_read m r bs' Hmk Hok HB) as (R1 & R2 & R3).
    destruct (read_table_columns (Datatypes.S f) P all (oid m) e HRg HC HM ltac:(cbn in Hf; lia)) as (it0 & e0 & e1 & E0 & E1 & HRg1).
    rewrite (columns_of_all _ _ HND Hin) in E1.
    destruct (next_reading e1 P t c r bs' l' HRg1 HR Hc (HA _ _ _ eq_refl)) as (e2 & E2 & HRg2).
    destruct (IH f l' (<[oid m := m]> ids) (<[name m := m]> names) e2 HRg2) as (e3 & E3 & HRg3);
      [intros m' Hm'; apply Hsub; by right|intros r' x l'' ->; eapply at_entry_next, HA, eq_refl|done|cbn in Hf; lia|].
    exists e3. split; [|done]. cbn [shown read_tables Current tuple foldl].
    rewrite (st_bind_run _ _ _ _ _ (st_lift_run _ _ e R1)), (st_bind_run _ _ _ _ _ (st_lift_run _ _ e R2)), (st_bind_run _ _ _ _ _ (st_lift_run _ _ e R3)).
    rewrite (st_bind_run _ _ _ _ _ E0), (st_bind_run _ _ _ _ _ E1).
    rewrite HSc. pose proof (NewTableMetadata_run m e1 Hm) as EM. destruct Hmk as (_ & _ & Ho & _).
    rewrite (u32_small (oid m)) by (unfold in_u32; lia).
    replace (InitTableHeap (firstPageId (table m))) with (table m) by by destruct (table m).
    rewrite (st_bind_run _ _ _ _ _ EM), (st_bind_run _ _ _ _ _ E2). exact E3.
Qed.

Lemma recovery_run P ms e : reading e P → catalog_pages P ms → Forall made ms → NoDup (oid <$> ms) → 
  (length ms + length (all_columns ms) ≤ fuel)%nat →
  ∃ e', RecoveryCatalogFromCatalogPage fuel pages e = Ok (MkCatalog (ids_of ms) (names_of ms) 1 (InitTableHeap 0), e') ∧ reading e' P.
Proof.
  intros HRg HC HM HND Hf. destruct (live_entry _ _ _ _ (proj1 HC)) as (c & HR & Hc & HF).
  destruct (start_reading e P (InitTableHeap 0) c HRg HR ltac:(lia)) as (e1 & E1 & HRg1).
  pose proof (Forall2_length _ _ _ HF) as HL. rewrite length_fmap in HL.
  destruct (read_tables_run fuel P ms (InitTableHeap 0) c (heap_entries c) ms ∅ ∅ e1 HRg1 HC HM HND HR ltac:(lia)) as (e2 & E2 & HRg2);
    [lia|done|intros r x l'; apply at_entry_head|done|lia|].
  exists e2. split; [|done]. unfold RecoveryCatalogFromCatalogPage, TableCatalogPageId.
  by rewrite (st_bind_run _ _ _ _ _ E1), (st_bind_run _ _ _ _ _ E2).
Qed.
End restart.

Lemma numbered_nodup ms : numbered ms → NoDup (oid <$> ms).
Proof.
  intros HN. apply NoDup_alt. intros i j o Hi Hj. rewrite list_lookup_fmap in Hi, Hj.
  destruct (ms !! i) as [m|] eqn:Ei; [|done]. destruct (ms !! j) as [m'|] eqn:Ej; [|done].
  injection Hi as <-. injection Hj as Hj. rewrite (proj1 (HN _ _ Ei)), (proj1 (HN _ _ Ej)) in Hj. lia.
Qed.

(** A new database with a pool of three pages, and a table of two columns. *)
Definition first_engine : Engine ClockReplacer :=
  MkEngine (new_store 3 (NewDiskManagerImpl [] [])) NewLockManager (NewTransaction 1) false.
Definition first_tables : list (list byte * list Column) :=
  [(text "people", [plain_column "age" Integer; plain_column "called" Varchar]); (text "t", [plain_column "x" Boolean])].

(** That a part fits on one page is needed. Only the first page of each part is written to
    disk, so a table whose columns take a second page cannot be read back unless all pages
    are flushed; and as a record goes to the first page with room for it, a column may then
    be stored, and read back, before the column it follows. *)
Definition numbered_column (i : nat) : Column :=
  NewColumn (text "a_column_name_" ++ (byte_of_Z (48 + Z.of_nat i `div` 10) :: byte_of_Z (48 + Z.of_nat i `mod` 10) :: text "____")) Integer false.
Definition wide_columns : list Column := (numbered_column <$> seq 0 57) ++ [plain_column "b" Integer].
Definition flush_first (flush : bool) : st (Engine ClockReplacer) unit :=
  if flush then with_store (FlushAllPages [0; 1; 2; 3]) else mret tt.
Definition recovered_columns (flush : bool) : res (list (list byte)) :=
  match (_ ← new_database 300 [(text "wide", wide_columns)]; flush_first flush) first_engine with
  | Ok (_, e1) =>
    match RecoveryCatalogFromCatalogPage 300 5 (restarted 3 e1 (NewTransaction 2)) with
    | Ok (c, _) => match tableNames c !! text "wide" with Some m => Ok (columnName <$> columns (schema m)) | None => Ok [] end
    | Panic => Panic | Blocked => Blocked | OutOfFuel => OutOfFuel
    end
  | _ => OutOfFuel
  end.
Example second_page_not_flushed : recovered_columns false = Panic.
Proof. by vm_compute. Qed.
Example columns_out_of_order :
  recovered_columns true = Ok (columnName <$> (numbered_column <$> seq 0 56) ++ [plain_column "b" Integer; numbered_column 56]).
Proof. by vm_compute. Qed.

(** C40: the catalog survives a restart. On an empty database and with logging off,
    [BootstrapCatalog] and then [CreateTable] for each of a list of tables without indexes
    make the catalog of these tables, by their ids and by their names. The rows of all tables
    must fit on one page, and those of all columns on another. When the database and log files
    are opened again right after that with a new buffer pool, without its pages having been
    flushed, [RecoveryCatalogFromCatalogPage] makes the same tables of the files, with the same
    ids, names, first pages and columns; only the next table id is 1 whatever it was before. *)
Theorem catalog_survives_restart {R : Type} `{Replacer R} (e : Engine R) n fuel pages ts t :
  (2 ≤ n)%nat → Z.of_nat n < 2 ^ 32 → (2 ≤ fuel)%nat → (1 ≤ pages)%nat →
  shows (estore e) n (quiet ∅ ∅) → elogging e = false → nextPageID (diskManager (estore e)) = 0 →
  Forall table_ok ts → catalog_fits (all_metas ts) → (length (all_metas ts) + length (all_columns (all_metas ts)) ≤ fuel)%nat →
  ∃ c e1 c' e2, new_database fuel ts e = Ok (c, e1) ∧ c = catalog_of (all_metas ts) ∧
    RecoveryCatalogFromCatalogPage fuel pages (restarted n e1 t) = Ok (c', e2) ∧
    tableIds c' = tableIds c ∧ tableNames c' = tableNames c ∧ tableHeap c' = tableHeap c ∧ nextTableId c' = 1.
Proof.
  intros Hn Hn32 Hfu Hpg S Hq HN HF HFit Hf.
  assert (Hlen : (length ts < 4072)%nat).
  { assert (HL : (length (all_metas ts) = Datatypes.S (length ts))) by apply length_metas.
    enough (Z.of_nat (length (all_metas ts)) ≤ 4072) by lia. apply (catalog_fits_length n fuel Hn Hfu); [|exact HFit].
    constructor; [by vm_compute|]. generalize 1%nat. clear -HF. induction HF as [|t ts [Ht _] _ IH]; intros i; constructor; [exact Ht|apply IH]. }
  destruct (new_database_run n fuel Hn Hfu e ts) as (e1 & P1 & E1 & S1 & HC1 & HS1 & HNum & HM); [by split|done|done|done|].
  destruct (restarted_reading n pages Hn Hpg e1 P1 t _ _ Hn32 S1 ltac:(lia) HC1 HS1) as (P2 & HRg & HC2).
  destruct (recovery_run n pages fuel Hn Hpg P2 (all_metas ts) _ HRg HC2 HM (numbered_nodup _ HNum) Hf) as (e2 & E2 & _).
  exists (catalog_of (all_metas ts)), e1. eexists _, e2. split; [exact E1|]. split; [done|]. split; [exact E2|done].
Qed.

Lemma catalog_survives_restart_witness :
  ∃ c e1 c' e2, new_database 20 first_tables first_engine = Ok (c, e1) ∧ c = catalog_of (all_metas first_tables) ∧
    RecoveryCatalogFromCatalogPage 20 1 (restarted 3 e1 (NewTransaction 2)) = Ok (c', e2) ∧
    tableIds c' = tableIds c ∧ tableNames c' = tableNames c ∧ tableHeap c' = tableHeap c ∧ nextTableId c' = 1.
Proof.
  apply (catalog_survives_restart first_engine 3 20 1 first_tables (NewTransaction 2)); try lia; try reflexivity.
  - apply (new_store_shows 3); [split; lia|done|by vm_compute].
  - repeat (constructor; [split; [by vm_compute|]; split; [|split; by vm_compute]; unfold plain_column; repeat (constructor; [split; [done|]; split; [done|]; split; [split; by vm_compute|]; split; [split; by vm_compute|]; split; [split; by vm_compute|by vm_compute]|]); constructor|]).
    constructor.
  - split; by vm_compute.
  - vm_compute; lia.
Defined.
