(* ===== verification/Parser.v ===== *)
(** * The SQL front end ([parser])

    The visitors that read a statement's syntax tree into a [QueryInfo].  The tree is
    made by a third-party parser; here it is data: the kinds of node that the
    visitors know with the fields they read, and the children that [Accept] visits,
    in its order. *)

From Stdlib Require Import SpecFloat Strings.String.
From S2P Require Import Prelude Bytes Types Expressions Plans.

(** ** Syntax trees *)
Inductive DatumKind : Type := KindInt64 | KindUint64 | KindMysqlDecimal | OtherKind.
Inductive Opcode : Type := EQ | GT | GE | LT | LE | NE | LogicAnd | LogicOr | OtherOp.
Inductive ColumnTp : Type := TypeTiny | TypeLong | TypeFloat | TypeLonglong | OtherTp.

(** A column's name comes twice: [String()], with the table if one is given, and
    [Name.String()].  A value comes as its kind and [String()]: a word for the
    kind, a space, and the value. *)
Inductive NodeKind : Type :=
  | SelectStmt | CreateTableStmt | InsertStmt | DeleteStmt | UpdateStmt
  | FieldList | SelectField (WildCard : bool) | TableRefsClause | Assignment | Join | OnCondition | TableSource
  | TableNameExpr | TableName (Name : list byte) | ColumnDef (Name : list byte) (Tp : ColumnTp)
  | Constraint (Name : list byte) | ColumnNameExpr (full : list byte) | ColumnName (full Name : list byte)
  | IsNullExpr (Not : bool) | ValueExpr (kind : DatumKind) (str : list byte) | AggregateFuncExpr (F : list byte)
  | LimitNode | OrderByClause | ByItem (Desc : bool) | OtherNode.

#[warnings="-register-all"]
Inductive Node : Type :=
  | BinaryOperationExpr (Op : Opcode) (L R : Node)
  | Tree (kind : NodeKind) (children : list Node).

(** A visitor's [Enter] says whether to skip the children. *)
Section accept.
Context {V : Type} (Enter : Node → V → res (V * bool)).

Fixpoint Accept (n : Node) (v : V) : res V :=
  x ← Enter n v;
  let '(v, skipChildren) := x in
  if skipChildren : bool then Ok v
  else
    match n with
    | BinaryOperationExpr _ l r => v ← Accept l v; Accept r v
    | Tree _ cs =>
        (fix walk cs v := match cs with [] => Ok v | c :: cs' => v ← Accept c v; walk cs' v end) cs v
    end.
End accept.

(** ** What the front end makes of it *)

(** The [-1] of the two types is [None]; a field of type [interface{}] holds nothing, a
    name, a value or an expression. *)
#[warnings="-register-all"]
Inductive BinaryOpExpression : Type :=
  MkBinaryOp (LogicalOperationType_ : option LogicalOpType) (ComparisonOperationType_ : option ComparisonType)
    (Left_ Right_ : Operand)
with Operand : Type :=
  | NoOperand | NameOperand (name : list byte) | ValueOperand (value : Value) | ExprOperand (e : BinaryOpExpression).

(** [new(BinaryOpExpression)]: the zero values are AND and Equal. *)
Definition new_binary_op : BinaryOpExpression := MkBinaryOp (Some AND) (Some Equal) NoOperand NoOperand.

Record SetExpression : Type := MkSet { set_ColName_ : option (list byte); UpdateValue_ : option Value }.
Record ColDefExpression : Type := MkColDef { def_ColName_ : list byte; ColType_ : TypeID }.
Record IndexDefExpression : Type := MkIndexDef { IndexName_ : list byte; Colnames_ : list (list byte) }.
Record SelectFieldExpression : Type := MkSelectField {
  IsAgg_ : bool; AggType_ : AggregationType; TableName_ : option (list byte); sf_ColName_ : option (list byte)
}.
Record OrderByExpression : Type := MkOrderBy { IsDesc_ : bool; ob_ColName_ : list byte }.

Inductive QueryType : Type := SELECT | CREATE_TABLE | INSERT | DELETE | UPDATE.
#[global] Instance QueryType_eq_dec : EqDecision QueryType.
Proof. solve_decision. Defined.

Record QueryInfo : Type := MkQueryInfo {
  QueryType_ : QueryType;
  SelectFields_ : list (option SelectFieldExpression);
  SetExpressions_ : list SetExpression;
  NewTable_ : option (list byte);
  ColDefExpressions_ : list ColDefExpression;
  IndexDefExpressions_ : list IndexDefExpression;
  TargetCols_ : list (list byte);
  Values_ : list Value;
  OnExpressions_ : BinaryOpExpression;
  JoinTables_ : list (list byte);
  WhereExpression_ : BinaryOpExpression;
  LimitNum_ : Z;
  OffsetNum_ : Z;
  OrderByExpressions_ : list OrderByExpression
}.

Definition NewRootSQLVisitor : QueryInfo :=
  MkQueryInfo SELECT [] [] None [] [] [] [] new_binary_op [] new_binary_op (-1) (-1) [].

(** *** Assignments to its fields *)
Definition set_type (x : QueryType) (q : QueryInfo) : QueryInfo :=
  MkQueryInfo x (SelectFields_ q) (SetExpressions_ q) (NewTable_ q) (ColDefExpressions_ q)
    (IndexDefExpressions_ q) (TargetCols_ q) (Values_ q) (OnExpressions_ q) (JoinTables_ q)
    (WhereExpression_ q) (LimitNum_ q) (OffsetNum_ q) (OrderByExpressions_ q).
Definition put_fields (x : list (option SelectFieldExpression)) (q : QueryInfo) : QueryInfo :=
  MkQueryInfo (QueryType_ q) x (SetExpressions_ q) (NewTable_ q) (ColDefExpressions_ q)
    (IndexDefExpressions_ q) (TargetCols_ q) (Values_ q) (OnExpressions_ q) (JoinTables_ q)
    (WhereExpression_ q) (LimitNum_ q) (OffsetNum_ q) (OrderByExpressions_ q).
Definition put_sets (x : list SetExpression) (q : QueryInfo) : QueryInfo :=
  MkQueryInfo (QueryType_ q) (SelectFields_ q) x (NewTable_ q) (ColDefExpressions_ q)
    (IndexDefExpressions_ q) (TargetCols_ q) (Values_ q) (OnExpressions_ q) (JoinTables_ q)
    (WhereExpression_ q) (LimitNum_ q) (OffsetNum_ q) (OrderByExpressions_ q).
Definition set_new_table (x : list byte) (q : QueryInfo) : QueryInfo :=
  MkQueryInfo (QueryType_ q) (SelectFields_ q) (SetExpressions_ q) (Some x) (ColDefExpressions_ q)
    (IndexDefExpressions_ q) (TargetCols_ q) (Values_ q) (OnExpressions_ q) (JoinTables_ q)
    (WhereExpression_ q) (LimitNum_ q) (OffsetNum_ q) (OrderByExpressions_ q).
Definition put_columns (x : list ColDefExpression) (q : QueryInfo) : QueryInfo :=
  MkQueryInfo (QueryType_ q) (SelectFields_ q) (SetExpressions_ q) (NewTable_ q) x
    (IndexDefExpressions_ q) (TargetCols_ q) (Values_ q) (OnExpressions_ q) (JoinTables_ q)
    (WhereExpression_ q) (LimitNum_ q) (OffsetNum_ q) (OrderByExpressions_ q).
Definition put_indexes (x : list IndexDefExpression) (q : QueryInfo) : QueryInfo :=
  MkQueryInfo (QueryType_ q) (SelectFields_ q) (SetExpressions_ q) (NewTable_ q) (ColDefExpressions_ q)
    x (TargetCols_ q) (Values_ q) (OnExpressions_ q) (JoinTables_ q)
    (WhereExpression_ q) (LimitNum_ q) (OffsetNum_ q) (OrderByExpressions_ q).
Definition put_targets (x : list (list byte)) (q : QueryInfo) : QueryInfo :=
  MkQueryInfo (QueryType_ q) (SelectFields_ q) (SetExpressions_ q) (NewTable_ q) (ColDefExpressions_ q)
    (IndexDefExpressions_ q) x (Values_ q) (OnExpressions_ q) (JoinTables_ q)
    (WhereExpression_ q) (LimitNum_ q) (OffsetNum_ q) (OrderByExpressions_ q).
Definition put_values (x : list Value) (q : QueryInfo) : QueryInfo :=
  MkQueryInfo (QueryType_ q) (SelectFields_ q) (SetExpressions_ q) (NewTable_ q) (ColDefExpressions_ q)
    (IndexDefExpressions_ q) (TargetCols_ q) x (OnExpressions_ q) (JoinTables_ q)
    (WhereExpression_ q) (LimitNum_ q) (OffsetNum_ q) (OrderByExpressions_ q).
Definition set_on (x : BinaryOpExpression) (q : QueryInfo) : QueryInfo :=
  MkQueryInfo (QueryType_ q) (SelectFields_ q) (SetExpressions_ q) (NewTable_ q) (ColDefExpressions_ q)
    (IndexDefExpressions_ q) (TargetCols_ q) (Values_ q) x (JoinTables_ q)
    (WhereExpression_ q) (LimitNum_ q) (OffsetNum_ q) (OrderByExpressions_ q).
Definition put_tables (x : list (list byte)) (q : QueryInfo) : QueryInfo :=
  MkQueryInfo (QueryType_ q) (SelectFields_ q) (SetExpressions_ q) (NewTable_ q) (ColDefExpressions_ q)
    (IndexDefExpressions_ q) (TargetCols_ q) (Values_ q) (OnExpressions_ q) x
    (WhereExpression_ q) (LimitNum_ q) (OffsetNum_ q) (OrderByExpressions_ q).
Definition set_where (x : BinaryOpExpression) (q : QueryInfo) : QueryInfo :=
  MkQueryInfo (QueryType_ q) (SelectFields_ q) (SetExpressions_ q) (NewTable_ q) (ColDefExpressions_ q)
    (IndexDefExpressions_ q) (TargetCols_ q) (Values_ q) (OnExpressions_ q) (JoinTables_ q)
    x (LimitNum_ q) (OffsetNum_ q) (OrderByExpressions_ q).
Definition set_limit (x : Z) (q : QueryInfo) : QueryInfo :=
  MkQueryInfo (QueryType_ q) (SelectFields_ q) (SetExpressions_ q) (NewTable_ q) (ColDefExpressions_ q)
    (IndexDefExpressions_ q) (TargetCols_ q) (Values_ q) (OnExpressions_ q) (JoinTables_ q)
    (WhereExpression_ q) x (OffsetNum_ q) (OrderByExpressions_ q).
Definition set_offset (x : Z) (q : QueryInfo) : QueryInfo :=
  MkQueryInfo (QueryType_ q) (SelectFields_ q) (SetExpressions_ q) (NewTable_ q) (ColDefExpressions_ q)
    (IndexDefExpressions_ q) (TargetCols_ q) (Values_ q) (OnExpressions_ q) (JoinTables_ q)
    (WhereExpression_ q) (LimitNum_ q) x (OrderByExpressions_ q).
Definition put_orders (x : list OrderByExpression) (q : QueryInfo) : QueryInfo :=
  MkQueryInfo (QueryType_ q) (SelectFields_ q) (SetExpressions_ q) (NewTable_ q) (ColDefExpressions_ q)
    (IndexDefExpressions_ q) (TargetCols_ q) (Values_ q) (OnExpressions_ q) (JoinTables_ q)
    (WhereExpression_ q) (LimitNum_ q) (OffsetNum_ q) x.

(** [append] to a field. *)
Definition add_field (x : option SelectFieldExpression) (q : QueryInfo) : QueryInfo := put_fields (SelectFields_ q ++ [x]) q.
Definition add_set (x : SetExpression) (q : QueryInfo) : QueryInfo := put_sets (SetExpressions_ q ++ [x]) q.
Definition add_column (x : ColDefExpression) (q : QueryInfo) : QueryInfo := put_columns (ColDefExpressions_ q ++ [x]) q.
Definition add_index (x : IndexDefExpression) (q : QueryInfo) : QueryInfo := put_indexes (IndexDefExpressions_ q ++ [x]) q.
Definition add_target (x : list byte) (q : QueryInfo) : QueryInfo := put_targets (TargetCols_ q ++ [x]) q.
Definition add_value (x : Value) (q : QueryInfo) : QueryInfo := put_values (Values_ q ++ [x]) q.
Definition add_table (x : list byte) (q : QueryInfo) : QueryInfo := put_tables (JoinTables_ q ++ [x]) q.
Definition add_order (x : OrderByExpression) (q : QueryInfo) : QueryInfo := put_orders (OrderByExpressions_ q ++ [x]) q.

(** ** Strings of the standard library *)
Definition space : byte := byte_of_Z 32.
Definition dot : byte := byte_of_Z 46.

(** [strings.Split] at a separator of one byte. *)
Fixpoint Split (s : list byte) (sep : byte) : list (list byte) :=
  match s with
  | [] => [[]]
  | b :: s' =>
      if decide (b = sep) then [] :: Split s' sep
      else match Split s' sep with w :: ws => (b :: w) :: ws | [] => [[b]] end
  end.
Definition Contains (s : list byte) (b : byte) : bool := bool_decide (b ∈ s).

Definition digit (b : byte) : option Z :=
  let c := Z_of_byte b in if (48 <=? c) && (c <=? 57) then Some (c - 48) else None.
Fixpoint parse_digits (acc : Z) (s : list byte) : option Z :=
  match s with
  | [] => Some acc
  | b :: s' => match digit b with Some d => parse_digits (10 * acc + d) s' | None => None end
  end.
(** The sign, and what follows it. *)
Definition signed (s : list byte) : bool * list byte :=
  match s with
  | b :: s' => if Z_of_byte b =? 45 then (true, s') else if Z_of_byte b =? 43 then (false, s') else (false, s)
  | [] => (false, [])
  end.

(** [strconv.Atoi] without its error: 0 for what is not a number, the nearest [int] for
    one out of range. *)
Definition Atoi (s : list byte) : Z :=
  let '(neg, ds) := signed s in
  match ds with
  | [] => 0
  | _ =>
      match parse_digits 0 ds with
      | None => 0
      | Some n => if neg : bool then Z.max (- 2 ^ 63) (- n) else Z.min (2 ^ 63 - 1) n
      end
  end.

(** [strconv.ParseFloat] at 32 bits without its error, of digits with at most one point, as
    a decimal is written: the nearest [float32]. *)
Definition decimal_float (neg : bool) (m : Z) (places : nat) : spec_float :=
  match m with
  | Zpos p =>
      match Z.pow 10 (Z.of_nat places) with
      | Zpos q => SFdiv 24 128 (S754_finite neg p 0) (S754_finite false q 0)
      | _ => S754_nan
      end
  | _ => S754_zero neg
  end.
Definition ParseFloat (s : list byte) : Z :=
  let '(neg, ds) := signed s in
  let zero := F32.encode (S754_zero false) in
  match Split ds dot with
  | [w] => match w, parse_digits 0 w with _ :: _, Some m => F32.encode (decimal_float neg m 0) | _, _ => zero end
  | [w; p] =>
      match w ++ p, parse_digits 0 (w ++ p) with
      | _ :: _, Some m => F32.encode (decimal_float neg m (length p))
      | _, _ => zero
      end
  | _ => zero
  end.

(** ** Values *)
Definition ValueExprToValue (kind : DatumKind) (str : list byte) : res Value :=
  w ← index (Split str space) 1;
  Ok (match kind with
      | KindInt64 | KindUint64 => NewInteger (i32 (Atoi w))
      | KindMysqlDecimal => NewFloat (ParseFloat w)
      | OtherKind => NewVarchar w
      end).

(** ** Visitors *)

(** [ChildDataVisitor]: the names and values below a node. *)
Definition ChildDataVisitor_Enter (n : Node) (v : list Operand) : res (list Operand * bool) :=
  match n with
  | Tree (ColumnName _ name) _ => Ok (v ++ [NameOperand name], true)
  | Tree (ValueExpr k s) _ => x ← ValueExprToValue k s; Ok (v ++ [ValueOperand x], true)
  | _ => Ok (v, false)
  end.
Definition ChildDatas_ (n : Node) : res (list Operand) := Accept ChildDataVisitor_Enter n [].

(** The type assertions [x.( *string)] and [x.( *types.Value)]. *)
Definition as_string (x : Operand) : res (list byte) := match x with NameOperand s => Ok s | _ => Panic end.
Definition as_value (x : Operand) : res Value := match x with ValueOperand v => Ok v | _ => Panic end.

Definition GetTypesForBOperationExpr (op : Opcode) : res (option LogicalOpType * option ComparisonType) :=
  match op with
  | EQ => Ok (None, Some Equal)
  | GT => Ok (None, Some GreaterThan)
  | GE => Ok (None, Some GreaterThanOrEqual)
  | LT => Ok (None, Some LessThan)
  | LE => Ok (None, Some LessThanOrEqual)
  | NE => Ok (None, Some NotEqual)
  | LogicAnd => Ok (Some AND, None)
  | LogicOr => Ok (Some OR, None)
  | OtherOp => Panic
  end.

(** What an operation makes of the expressions of its sides.  A side that is a name or a
    value is an expression of neither type, with it on the left. *)
Definition binary_operation (op : Opcode) (l r : BinaryOpExpression) : res BinaryOpExpression :=
  x ← GetTypesForBOperationExpr op;
  let '(logicType, compType) := x in
  match logicType, compType with
  | None, Some _ =>
      let left_ := match l with MkBinaryOp None None a _ => a | _ => ExprOperand l end in
      let right_ := match r with MkBinaryOp None None a _ => a | _ => ExprOperand l end in
      Ok (MkBinaryOp logicType compType left_ right_)
  | _, _ => Ok (MkBinaryOp logicType compType (ExprOperand l) (ExprOperand r))
  end.

Definition is_null (not : bool) (children : list Node) : res BinaryOpExpression :=
  ds ← ChildDatas_ (Tree (IsNullExpr not) children);
  x ← index ds 0;
  Ok (MkBinaryOp None (Some (if not : bool then NotEqual else Equal)) x (ValueOperand NewNull)).

(** [Accept] with a [BinaryOpVisitor], whose [Enter] accepts both sides with new ones. *)
Fixpoint BinaryOpVisitor_Accept (n : Node) (v : BinaryOpExpression) : res BinaryOpExpression :=
  match n with
  | BinaryOperationExpr op l r =>
      lv ← BinaryOpVisitor_Accept l new_binary_op;
      rv ← BinaryOpVisitor_Accept r new_binary_op;
      binary_operation op lv rv
  | Tree (IsNullExpr not) cs => is_null not cs
  | Tree (ColumnNameExpr full) _ =>
      let '(MkBinaryOp _ _ _ r) := v in Ok (MkBinaryOp None None (NameOperand full) r)
  | Tree (ValueExpr k s) _ =>
      x ← ValueExprToValue k s;
      let '(MkBinaryOp _ _ _ r) := v in Ok (MkBinaryOp None None (ValueOperand x) r)
  | Tree _ cs =>
      (fix walk cs v := match cs with [] => Ok v | c :: cs' => v ← BinaryOpVisitor_Accept c v; walk cs' v end) cs v
  end.

(** The table of a name with a point in it. *)
Definition table_of_name (full : list byte) : option (list byte) :=
  if Contains full dot then Some (hd [] (Split full dot)) else None.

(** [AggFuncVisitor]: the column and the table. *)
Definition AggFuncVisitor : Type := (option (list byte) * option (list byte))%type.
Definition AggFuncVisitor_Enter (n : Node) (v : AggFuncVisitor) : res (AggFuncVisitor * bool) :=
  match n with
  | Tree (ColumnName full name) _ => Ok ((Some name, table_of_name full), true)
  | Tree (ValueExpr k s) _ =>
      x ← ValueExprToValue k s;
      if decide (valueType x = Integer) then Ok ((Some (text "*"), snd v), true) else Ok (v, false)
  | _ => Ok (v, false)
  end.

Definition aggregate_type (F : list byte) : option AggregationType :=
  if decide (F = text "count") then Some COUNT_AGGREGATE
  else if decide (F = text "max") then Some MAX_AGGREGATE
  else if decide (F = text "min") then Some MIN_AGGREGATE
  else if decide (F = text "sum") then Some SUM_AGGREGATE
  else None.

Definition SelectFieldsVisitor_Enter (n : Node) (q : QueryInfo) : res (QueryInfo * bool) :=
  match n with
  | Tree (ColumnName full name) _ =>
      Ok (add_field (Some (MkSelectField false COUNT_AGGREGATE (table_of_name full) (Some name))) q, true)
  | Tree (SelectField true) _ =>
      Ok (add_field (Some (MkSelectField false COUNT_AGGREGATE None (Some (text "*")))) q, true)
  | Tree (AggregateFuncExpr F) _ =>
      av ← Accept AggFuncVisitor_Enter n (None, None);
      let sfield := t ← aggregate_type F; Some (MkSelectField true t (snd av) (fst av)) in
      Ok (add_field sfield q, true)
  | _ => Ok (q, false)
  end.

(** [AssignVisitor]: the column and the value. *)
Definition AssignVisitor_Enter (n : Node) (v : SetExpression) : res (SetExpression * bool) :=
  match n with
  | Tree (ColumnName full _) _ => Ok (MkSet (Some full) (UpdateValue_ v), true)
  | Tree (ValueExpr k s) _ => x ← ValueExprToValue k s; Ok (MkSet (set_ColName_ v) (Some x), true)
  | _ => Ok (v, false)
  end.

Definition JoinVisitor_Enter (n : Node) (q : QueryInfo) : res (QueryInfo * bool) :=
  match n with
  | Tree (TableName name) _ => Ok (add_table name q, true)
  | BinaryOperationExpr _ _ _ => b ← BinaryOpVisitor_Accept n new_binary_op; Ok (set_on b q, true)
  | _ => Ok (q, false)
  end.

Definition column_type (tp : ColumnTp) : TypeID :=
  match tp with TypeTiny | TypeLong => Integer | TypeFloat | TypeLonglong => Float | OtherTp => Varchar end.

(** The cases of [RootSQLVisitor.Enter] that read a clause with a visitor of its own. *)
Definition enter_where (op : Opcode) (n : Node) (q : QueryInfo) : res QueryInfo :=
  w ← BinaryOpVisitor_Accept n new_binary_op;
  x ← GetTypesForBOperationExpr op;
  let '(MkBinaryOp _ _ l r) := w in
  Ok (set_where (MkBinaryOp (fst x) (snd x) l r) q).
Definition enter_limit (n : Node) (q : QueryInfo) : res QueryInfo :=
  ds ← ChildDatas_ n;
  x ← index ds 0; v ← as_value x; l ← ToInteger v;
  if decide (length ds = 1%nat) then Ok (set_limit l q)
  else y ← index ds 1; w ← as_value y; o ← ToInteger w; Ok (set_offset o (set_limit l q)).
Definition enter_order (desc : bool) (n : Node) (q : QueryInfo) : res QueryInfo :=
  ds ← ChildDatas_ n; x ← index ds 0; s ← as_string x; Ok (add_order (MkOrderBy desc s) q).
Definition enter_index (name : list byte) (n : Node) (q : QueryInfo) : res QueryInfo :=
  ds ← ChildDatas_ n; cols ← mapM as_string ds; Ok (add_index (MkIndexDef name cols) q).

Definition RootSQLVisitor_Enter (n : Node) (q : QueryInfo) : res (QueryInfo * bool) :=
  match n with
  | BinaryOperationExpr op _ _ => q ← enter_where op n q; Ok (q, true)
  | Tree k _ =>
      match k with
      | SelectStmt => Ok (set_type SELECT q, false)
      | CreateTableStmt => Ok (set_type CREATE_TABLE q, false)
      | InsertStmt => Ok (set_type INSERT q, false)
      | DeleteStmt => Ok (set_type DELETE q, false)
      | UpdateStmt => Ok (set_type UPDATE q, false)
      | SelectField _ => q ← Accept SelectFieldsVisitor_Enter n q; Ok (q, true)
      | Assignment => x ← Accept AssignVisitor_Enter n (MkSet None None); Ok (add_set x q, true)
      | Join => q ← Accept JoinVisitor_Enter n q; Ok (q, true)
      | FieldList | TableRefsClause | OnCondition | TableSource | TableNameExpr | ColumnNameExpr _ | OrderByClause => Ok (q, false)
      | TableName name => Ok (if decide (QueryType_ q = CREATE_TABLE) then set_new_table name q else q, false)
      | ColumnDef name tp =>
          if decide (QueryType_ q = CREATE_TABLE) then Ok (add_column (MkColDef name (column_type tp)) q, true) else Ok (q, false)
      | Constraint name =>
          if decide (QueryType_ q = CREATE_TABLE) then q ← enter_index name n q; Ok (q, true) else Ok (q, false)
      | ColumnName full _ => if decide (QueryType_ q = INSERT) then Ok (add_target full q, true) else Ok (q, false)
      | ValueExpr k s => v ← ValueExprToValue k s; Ok (add_value v q, true)
      | LimitNode => q ← enter_limit n q; Ok (q, true)
      | ByItem desc => q ← enter_order desc n q; Ok (q, true)
      | IsNullExpr _ | AggregateFuncExpr _ | OtherNode => Panic
      end
  end.

Definition extractInfoFromAST (root : Node) : res QueryInfo := Accept RootSQLVisitor_Enter root NewRootSQLVisitor.
