(* ===== verification/Statements.v ===== *)
(** * Statements

    What the front end tells of a statement.  A statement is given by its clauses; its
    syntax tree has the shape the third-party parser documents; the visitors turn
    the tree into the [QueryInfo] that says the same. *)

From Stdlib Require Import Strings.String.
From S2P Require Import Prelude Bytes Types Expressions Plans Parser.

(** ** Literals *)

(** A number as [fmt] prints it. *)
Definition digit_byte (d : Z) : byte := byte_of_Z (48 + d).
Fixpoint digits (fuel : nat) (n : Z) : list byte :=
  match fuel with
  | O => []
  | S fuel' => if n <? 10 then [digit_byte n] else digits fuel' (n / 10) ++ [digit_byte (n mod 10)]
  end.
Definition decimal (z : Z) : list byte :=
  if z <? 0 then byte_of_Z 45 :: digits 19 (- z) else digits 19 z.

Lemma parse_digits_app xs : ∀ a ys,
  parse_digits a (xs ++ ys) = (b ← parse_digits a xs; parse_digits b ys).
Proof. induction xs as [|x xs IH]; intros a ys; [done|]. cbn. destruct (digit x); [apply IH|done]. Qed.

Lemma digit_digit_byte d : 0 ≤ d < 10 → digit (digit_byte d) = Some d.
Proof.
  intros Hd. unfold digit, digit_byte. rewrite Z_of_byte_of_Z, Z.mod_small by lia.
  rewrite (proj2 (Z.leb_le _ _)), (proj2 (Z.leb_le _ _)) by lia. cbn. f_equal. lia.
Qed.

Lemma parse_digits_digits fuel : ∀ n, 0 ≤ n < 10 ^ Z.of_nat fuel → parse_digits 0 (digits fuel n) = Some n.
Proof.
  induction fuel as [|fuel IH]; intros n Hn; [cbn in *; f_equal; lia|]. cbn [digits].
  rewrite Nat2Z.inj_succ, Z.pow_succ_r in Hn by lia. destruct (Z.ltb_spec n 10) as [Hs|Hs].
  - cbn [parse_digits]. by rewrite digit_digit_byte by lia.
  - rewrite parse_digits_app, IH by (split; [apply Z.div_pos; lia|apply Z.div_lt_upper_bound; lia]).
    cbn. rewrite digit_digit_byte by (apply Z.mod_pos_bound; lia). f_equal. pose proof (Z.div_mod n 10). lia.
Qed.

Lemma digits_plain fuel n b : 0 ≤ n → b ∈ digits fuel n → 48 ≤ Z_of_byte b < 58.
Proof.
  revert n. induction fuel as [|fuel IH]; intros n Hn; cbn [digits]; [by intros ?%elem_of_nil|].
  assert (Hd : ∀ d, 0 ≤ d < 10 → 48 ≤ Z_of_byte (digit_byte d) < 58).
  { intros d Hd. unfold digit_byte. rewrite Z_of_byte_of_Z, Z.mod_small; lia. }
  destruct (Z.ltb_spec n 10) as [Hs|Hs].
  - intros ->%list_elem_of_singleton. apply Hd. lia.
  - rewrite elem_of_app, list_elem_of_singleton. intros [Hb| ->].
    + eapply IH; [|exact Hb]. apply Z.div_pos; lia.
    + apply Hd, Z.mod_pos_bound. lia.
Qed.

Lemma digits_nonempty fuel n : digits (S fuel) n ≠ [].
Proof. cbn [digits]. destruct (n <? 10); [done|]. by destruct (digits fuel _). Qed.

Lemma Atoi_decimal z : - 2 ^ 63 ≤ z < 2 ^ 63 → Atoi (decimal z) = z.
Proof.
  intros Hz. unfold decimal. destruct (Z.ltb_spec z 0) as [Hn|Hn].
  - unfold Atoi. change (signed (byte_of_Z 45 :: ?l)) with (true, l).
    pose proof (digits_nonempty 18 (- z)). destruct (digits 19 (- z)) as [|b bs] eqn:E; [done|].
    rewrite <- E, parse_digits_digits by lia. lia.
  - unfold Atoi. pose proof (digits_nonempty 18 z). destruct (digits 19 z) as [|b bs] eqn:E; [done|].
    assert (HB : 48 ≤ Z_of_byte b < 58) by (eapply (digits_plain 19 z); [lia|]; rewrite E; left).
    unfold signed. rewrite (proj2 (Z.eqb_neq _ _)), (proj2 (Z.eqb_neq _ _)) by lia.
    rewrite <- E, parse_digits_digits by lia. lia.
Qed.

Lemma Split_plain s sep : sep ∉ s → Split s sep = [s].
Proof.
  induction s as [|b s IH]; [done|]. intros Hs. cbn [Split]. rewrite decide_False by (intros ->; apply Hs; left).
  rewrite IH; [done|]. intros Hin. apply Hs. by right.
Qed.

Lemma Split_at w rest sep : sep ∉ w → Split (w ++ sep :: rest) sep = w :: Split rest sep.
Proof.
  induction w as [|b w IH]; intros Hs; cbn [app Split]; [by rewrite decide_True|].
  rewrite decide_False by (intros ->; apply Hs; left). rewrite IH; [done|]. intros Hin. apply Hs. by right.
Qed.

Lemma decimal_no_space z : space ∉ decimal z.
Proof.
  unfold decimal. destruct (Z.ltb_spec z 0) as [Hn|Hn].
  - rewrite elem_of_cons. intros [Hs|Hs]; [by vm_compute in Hs|].
    apply digits_plain in Hs; [|lia]. vm_compute in Hs. by destruct Hs.
  - intros Hs. apply digits_plain in Hs; [|lia]. vm_compute in Hs. by destruct Hs.
Qed.

(** The second word of a literal's string. *)
Lemma ValueExprToValue_word kind k w rest : space ∉ k → space ∉ w → rest = [] ∨ (∃ r, rest = space :: r) →
  ValueExprToValue kind (k ++ space :: w ++ rest) =
    Ok (match kind with
        | KindInt64 | KindUint64 => NewInteger (i32 (Atoi w))
        | KindMysqlDecimal => NewFloat (ParseFloat w)
        | OtherKind => NewVarchar w
        end).
Proof.
  intros Hk Hw Hr. unfold ValueExprToValue. rewrite Split_at by done.
  assert (E : ∃ ws, Split (w ++ rest) space = w :: ws).
  { destruct Hr as [->|(r & ->)]; [rewrite app_nil_r, Split_plain by done; by exists []|].
    rewrite Split_at by done. by eexists. }
  destruct E as (ws & ->). done.
Qed.

(** ** Conditions *)
Definition literal : Type := (DatumKind * list byte)%type.
Definition literal_node (l : literal) : Node := Tree (ValueExpr (fst l) (snd l)) [].
Definition int_literal (z : Z) : literal := (KindInt64, text "KindInt64 " ++ decimal z).
(** The visitor reads the literal as the value. *)
Definition read_as (l : literal) (v : Value) : Prop := ValueExprToValue (fst l) (snd l) = Ok v.

(** The constants of a statement: a whole number, a number with a point, a string; how
    the parser shows each of them, and the value it stands for. *)
Inductive Constant : Type := WholeNumber (z : Z) | PointNumber (s : list byte) | StringOf (s : list byte).
Definition constant_literal (c : Constant) : literal :=
  match c with
  | WholeNumber z => int_literal z
  | PointNumber s => (KindMysqlDecimal, text "KindMysqlDecimal " ++ s)
  | StringOf s => (OtherKind, text "KindString " ++ s)
  end.
Definition constant_node (c : Constant) : Node := literal_node (constant_literal c).
Definition constant_value (c : Constant) : Value :=
  match c with WholeNumber z => NewInteger z | PointNumber s => NewFloat (ParseFloat s) | StringOf s => NewVarchar s end.
(** Whole numbers of 32 bits, and strings without a space. *)
Definition constant_ok (c : Constant) : Prop :=
  match c with WholeNumber z => in_i32 z | PointNumber s | StringOf s => space ∉ s end.

(** A column: its table, if the statement gives it, and its name. *)
Definition column_name : Type := (option (list byte) * list byte)%type.
Definition full_name (c : column_name) : list byte := match fst c with Some t => t ++ dot :: snd c | None => snd c end.
Definition name_ok (c : column_name) : Prop := (dot ∉ snd c) ∧ (∀ t, fst c = Some t → dot ∉ t).
Definition column_node (c : column_name) : Node := Tree (ColumnName (full_name c) (snd c)) [].

Inductive Side : Type := ColumnSide (c : column_name) | ConstantSide (c : Constant).
Definition side_node (s : Side) : Node :=
  match s with
  | ColumnSide c => Tree (ColumnNameExpr (full_name c)) [column_node c]
  | ConstantSide c => constant_node c
  end.
Definition side_ok (s : Side) : Prop := match s with ColumnSide _ => True | ConstantSide c => constant_ok c end.
Definition side_operand (s : Side) : Operand :=
  match s with ColumnSide c => NameOperand (full_name c) | ConstantSide c => ValueOperand (constant_value c) end.

Inductive Condition : Type :=
  | Compare (t : ComparisonType) (l r : Side)
  | Both (l r : Condition)
  | Either (l r : Condition)
  | NullTest (not : bool) (c : column_name)
  | Parentheses (c : Condition).

Definition comparison_op (t : ComparisonType) : Opcode :=
  match t with
  | Equal => EQ | NotEqual => NE | GreaterThan => GT | GreaterThanOrEqual => GE | LessThan => LT | LessThanOrEqual => LE
  end.
Fixpoint condition_node (c : Condition) : Node :=
  match c with
  | Compare t l r => BinaryOperationExpr (comparison_op t) (side_node l) (side_node r)
  | Both l r => BinaryOperationExpr LogicAnd (condition_node l) (condition_node r)
  | Either l r => BinaryOperationExpr LogicOr (condition_node l) (condition_node r)
  | NullTest not c => Tree (IsNullExpr not) [Tree (ColumnNameExpr (full_name c)) [column_node c]]
  | Parentheses c => Tree OtherNode [condition_node c]
  end.
Fixpoint condition_ok (c : Condition) : Prop :=
  match c with
  | Compare _ l r => side_ok l ∧ side_ok r
  | Both l r | Either l r => condition_ok l ∧ condition_ok r
  | NullTest _ _ => True
  | Parentheses c => condition_ok c
  end.
(** What the visitor is to make of it: a test for NULL compares with NULL, and its column
    loses the table. *)
Fixpoint condition_expr (c : Condition) : BinaryOpExpression :=
  match c with
  | Compare t l r => MkBinaryOp None (Some t) (side_operand l) (side_operand r)
  | Both l r => MkBinaryOp (Some AND) None (ExprOperand (condition_expr l)) (ExprOperand (condition_expr r))
  | Either l r => MkBinaryOp (Some OR) None (ExprOperand (condition_expr l)) (ExprOperand (condition_expr r))
  | NullTest not c => MkBinaryOp None (Some (if not : bool then NotEqual else Equal)) (NameOperand (snd c)) (ValueOperand NewNull)
  | Parentheses c => condition_expr c
  end.

(** *** Walks *)
Lemma Accept_tree {V} (Enter : Node → V → res (V * bool)) k cs v v' :
  Enter (Tree k cs) v = Ok (v', false) → Accept Enter (Tree k cs) v = res_foldl (λ v c, Accept Enter c v) cs v'.
Proof.
  intros E. cbn [Accept]. rewrite E. mred. clear E v. revert v'. induction cs as [|c cs IH]; intros v; [done|].
  cbn [res_foldl]. destruct (Accept Enter c v); [apply IH|done..].
Qed.

Lemma Accept_skip {V} (Enter : Node → V → res (V * bool)) n v v' : Enter n v = Ok (v', true) → Accept Enter n v = Ok v'.
Proof. intros E. destruct n; cbn [Accept]; by rewrite E. Qed.

(** A list of nodes, each of which adds to the result. *)
Lemma fold_nodes {V A} (Enter : Node → V → res (V * bool)) (node : A → Node) (add : A → V → V) (P : V → Prop) l v :
  (∀ a v, a ∈ l → P v → Accept Enter (node a) v = Ok (add a v) ∧ P (add a v)) → P v →
  res_foldl (λ v c, Accept Enter c v) (node <$> l) v = Ok (foldl (λ v a, add a v) v l) ∧ P (foldl (λ v a, add a v) v l).
Proof.
  revert v. induction l as [|a l IH]; intros v HE HP; [done|]. cbn [fmap list_fmap res_foldl foldl].
  destruct (HE a v ltac:(left) HP) as [-> HP']. mred. apply IH; [|done]. intros a' v' Ha'. apply HE. by right.
Qed.

(** Literals read back. *)
Lemma int_literal_read z : - 2 ^ 63 ≤ z < 2 ^ 63 → read_as (int_literal z) (NewInteger (i32 z)).
Proof.
  intros Hz. unfold read_as, int_literal. cbn [fst snd].
  change (text "KindInt64 ") with (text "KindInt64" ++ [space]). rewrite <- app_assoc.
  pose proof (ValueExprToValue_word KindInt64 (text "KindInt64") (decimal z) []) as E. rewrite app_nil_r in E.
  change ([space] ++ decimal z) with (space :: decimal z). rewrite E; [by rewrite Atoi_decimal by done| | |by left].
  - apply (bool_decide_unpack _). vm_compute. exact I.
  - apply decimal_no_space.
Qed.

Lemma constant_read c : constant_ok c → read_as (constant_literal c) (constant_value c).
Proof.
  assert (HW : ∀ kind k w, bool_decide (space ∉ k) → space ∉ w → read_as (kind, (k ++ [space]) ++ w) (match kind with
    | KindInt64 | KindUint64 => NewInteger (i32 (Atoi w)) | KindMysqlDecimal => NewFloat (ParseFloat w) | OtherKind => NewVarchar w end)).
  { intros kind k w Hk Hw. unfold read_as. cbn [fst snd]. rewrite <- app_assoc. rewrite <- (app_nil_r w) at 1.
    apply (ValueExprToValue_word kind k w []); [by apply bool_decide_unpack in Hk|done|by left]. }
  destruct c as [z|w|w]; cbn [constant_ok constant_literal constant_value]; intros Hc.
  - pose proof (int_literal_read z) as E. rewrite i32_small in E by done. apply E. unfold in_i32 in Hc. lia.
  - apply (HW KindMysqlDecimal (text "KindMysqlDecimal") w); [by vm_compute|done].
  - apply (HW OtherKind (text "KindString") w); [by vm_compute|done].
Qed.

Lemma table_of_full_name c : name_ok c → table_of_name (full_name c) = fst c.
Proof.
  destruct c as [[t|] n]; intros [Hn Ht]; cbn [fst snd] in *; unfold table_of_name, full_name; cbn [fst snd].
  - rewrite Split_at by by apply Ht. unfold Contains. rewrite bool_decide_eq_true_2 by (apply elem_of_app; right; left). done.
  - unfold Contains. by rewrite bool_decide_eq_false_2.
Qed.

Lemma side_run s : side_ok s → ∀ v, BinaryOpVisitor_Accept (side_node s) v =
  Ok (let '(MkBinaryOp _ _ _ r) := v in MkBinaryOp None None (side_operand s) r).
Proof.
  intros Hs [a b l r]. destruct s as [c|c]; [done|]. cbn [side_ok side_node side_operand] in *. pose proof (constant_read c Hs) as E.
  unfold constant_node, literal_node, read_as in *. cbn [BinaryOpVisitor_Accept]. by rewrite E.
Qed.

Lemma condition_run c : condition_ok c → ∀ v, BinaryOpVisitor_Accept (condition_node c) v = Ok (condition_expr c).
Proof.
  induction c as [t l r|l IHl r IHr|l IHl r IHr|not c|c IH]; cbn [condition_ok condition_node condition_expr]; intros Hok v.
  - destruct Hok as [Hl Hr]. cbn [BinaryOpVisitor_Accept]. rewrite !side_run by done. mred. by destruct t.
  - destruct Hok as [Hl Hr]. cbn [BinaryOpVisitor_Accept]. rewrite IHl, IHr by done. done.
  - destruct Hok as [Hl Hr]. cbn [BinaryOpVisitor_Accept]. rewrite IHl, IHr by done. done.
  - done.
  - cbn [BinaryOpVisitor_Accept]. by rewrite IH by done.
Qed.

(** ** Clauses *)
Inductive SelectItem : Type :=
  | AllColumns
  | PlainColumn (c : column_name)
  | Aggregated (t : AggregationType) (arg : option column_name).

Definition aggregate_name (t : AggregationType) : list byte :=
  text (match t with COUNT_AGGREGATE => "count" | SUM_AGGREGATE => "sum" | MIN_AGGREGATE => "min" | MAX_AGGREGATE => "max" end).
(** [COUNT( * )] counts the number 1. *)
Definition item_node (i : SelectItem) : Node :=
  match i with
  | AllColumns => Tree (SelectField true) []
  | PlainColumn c => Tree (SelectField false) [Tree (ColumnNameExpr (full_name c)) [column_node c]]
  | Aggregated t arg => Tree (SelectField false) [Tree (AggregateFuncExpr (aggregate_name t))
      [match arg with
       | Some c => Tree (ColumnNameExpr (full_name c)) [column_node c]
       | None => literal_node (int_literal 1)
       end]]
  end.
Definition item_field (i : SelectItem) : SelectFieldExpression :=
  match i with
  | AllColumns => MkSelectField false COUNT_AGGREGATE None (Some (text "*"))
  | PlainColumn c => MkSelectField false COUNT_AGGREGATE (fst c) (Some (snd c))
  | Aggregated t (Some c) => MkSelectField true t (fst c) (Some (snd c))
  | Aggregated t None => MkSelectField true t None (Some (text "*"))
  end.

(** [Root] for the visitor of the whole statement. *)
#[local] Abbreviation Root := (Accept RootSQLVisitor_Enter).

Definition item_ok (i : SelectItem) : Prop := match i with PlainColumn c | Aggregated _ (Some c) => name_ok c | _ => True end.
Lemma item_run i q : item_ok i → Root (item_node i) q = Ok (add_field (Some (item_field i)) q).
Proof.
  intros Hi. destruct i as [|c|t [c|]]; [done| | |by destruct t]; pose proof (table_of_full_name c Hi) as E; cbn [item_field]; rewrite <- E;
    [done|by destruct t].
Qed.

Definition fields_node (l : list SelectItem) : Node := Tree FieldList (item_node <$> l).
Definition tables_node (tables : list (list byte)) (on : option Condition) : Node :=
  Tree TableRefsClause [Tree Join (((λ n, Tree TableSource [Tree (TableName n) []]) <$> tables) ++
    match on with Some c => [Tree OnCondition [condition_node c]] | None => [] end)].
Definition order_node (l : list (bool * column_name)) : Node :=
  Tree OrderByClause ((λ x, Tree (ByItem (fst x)) [Tree (ColumnNameExpr (full_name (snd x))) [column_node (snd x)]]) <$> l).
Definition limit_node (limit : Z) (offset : option Z) : Node :=
  Tree LimitNode (literal_node <$> (int_literal limit :: match offset with Some o => [int_literal o] | None => [] end)).
Definition assignment_node (x : column_name * Constant) : Node :=
  Tree Assignment [column_node (fst x); constant_node (snd x)].
(** The types a column is declared with, as the parser tells them, and what is stored. *)
Inductive DeclaredType : Type := IntType | TinyintType | FloatType | VarcharType.
Definition declared_tp (t : DeclaredType) : ColumnTp :=
  match t with IntType => TypeLong | TinyintType => TypeTiny | FloatType => TypeFloat | VarcharType => OtherTp end.
Definition stored_type (t : DeclaredType) : TypeID :=
  match t with IntType | TinyintType => Integer | FloatType => Float | VarcharType => Varchar end.
Definition column_def_node (x : list byte * DeclaredType) : Node := Tree (ColumnDef (fst x) (declared_tp (snd x))) [].
Definition index_node (x : list byte * list column_name) : Node := Tree (Constraint (fst x)) (column_node <$> snd x).

(** The visitors read a condition where a binary operation is at its top. *)
Definition is_operation (c : Condition) : bool := match c with Compare _ _ _ | Both _ _ | Either _ _ => true | _ => false end.
Definition clause_condition (c : Condition) : Prop := is_operation c = true ∧ condition_ok c.

Lemma where_run c q : clause_condition c → Root (condition_node c) q = Ok (set_where (condition_expr c) q).
Proof.
  intros [Ho Hc]. apply Accept_skip. pose proof (condition_run c Hc new_binary_op) as E.
  destruct c as [t l r|l r|l r| |]; try done; cbn [condition_node RootSQLVisitor_Enter] in *; unfold enter_where; rewrite E; mred; [by destruct t|done|done].
Qed.

(** *** Lists of parts *)
Lemma parts_run {A} (node : A → Node) (add : A → QueryInfo → QueryInfo) (T : QueryType → Prop) l q :
  (∀ a q, a ∈ l → T (QueryType_ q) → Root (node a) q = Ok (add a q)) → (∀ a q, QueryType_ (add a q) = QueryType_ q) →
  T (QueryType_ q) → res_foldl (λ q c, Root c q) (node <$> l) q = Ok (foldl (λ q a, add a q) q l).
Proof.
  intros HE HT HQ. apply (fold_nodes RootSQLVisitor_Enter node add (λ q, T (QueryType_ q))); [|done].
  intros a q' Ha HQ'. split; [by apply HE|by rewrite HT].
Qed.

Lemma adds_all {A B} (get : QueryInfo → list B) (add : A → QueryInfo → QueryInfo) (f : A → B) (put : list B → QueryInfo → QueryInfo) :
  (∀ a q, add a q = put (get q ++ [f a]) q) → (∀ l l' q, put l (put l' q) = put l q) → (∀ l q, get (put l q) = l) →
  (∀ q, put (get q) q = q) → ∀ l q, foldl (λ q a, add a q) q l = put (get q ++ (f <$> l)) q.
Proof.
  intros HA HP HG HI l. induction l as [|a l IH]; intros q; cbn [foldl fmap list_fmap]; [by rewrite app_nil_r, HI|].
  by rewrite IH, HA, HP, HG, <- app_assoc.
Qed.

Lemma fields_run l q : Forall item_ok l → Root (fields_node l) q = Ok (put_fields (SelectFields_ q ++ (Some ∘ item_field <$> l)) q).
Proof.
  intros Hl. rewrite Forall_forall in Hl. unfold fields_node. rewrite (Accept_tree _ _ _ _ q) by done.
  rewrite <- (adds_all SelectFields_ (λ i, add_field (Some (item_field i))) (Some ∘ item_field) put_fields) by (done || by intros []).
  apply (parts_run item_node _ (λ _, True)); [|done|done]. intros i q' Hi _. by apply item_run, Hl.
Qed.

Definition with_tables (tables : list (list byte)) (on : option Condition) (q : QueryInfo) : QueryInfo :=
  let q := foldl (λ q n, add_table n q) q tables in
  match on with Some c => set_on (condition_expr c) q | None => q end.

Lemma tables_run tables on q : (∀ c, on = Some c → clause_condition c) → Root (tables_node tables on) q = Ok (with_tables tables on q).
Proof.
  intros Ho. unfold tables_node. rewrite (Accept_tree _ _ _ _ q) by done. cbn [res_foldl].
  set (J := Tree Join _). assert (EJ : Accept JoinVisitor_Enter J q = Ok (with_tables tables on q)).
  { unfold J. rewrite (Accept_tree _ _ _ _ q) by done. rewrite res_foldl_app.
    destruct (fold_nodes JoinVisitor_Enter (λ n, Tree TableSource [Tree (TableName n) []]) add_table (λ _, True) tables q) as [-> _]; [done|done|].
    mred. unfold with_tables. destruct on as [c|]; [|done]. destruct (Ho c eq_refl) as [Hc Hok].
    pose proof (condition_run c Hok new_binary_op) as E. cbn [res_foldl].
    assert (EC : ∀ q, Accept JoinVisitor_Enter (condition_node c) q = Ok (set_on (condition_expr c) q)).
    { intros q'. apply Accept_skip. destruct c as [t l r|l r|l r| |]; try done; cbn [condition_node JoinVisitor_Enter] in *; by rewrite E. }
    rewrite (Accept_tree _ _ _ _ (foldl (λ q n, add_table n q) q tables)) by done. cbn [res_foldl]. by rewrite EC. }
  assert (EJ' : Root J q = Ok (with_tables tables on q)) by (apply Accept_skip; unfold J in *; cbn [RootSQLVisitor_Enter]; by rewrite EJ).
  by rewrite EJ'.
Qed.

Lemma order_run l q : Root (order_node l) q =
  Ok (foldl (λ q x, add_order (MkOrderBy (fst x) (snd (snd x))) q) q l).
Proof.
  unfold order_node. rewrite (Accept_tree _ _ _ _ q) by done.
  apply (parts_run (A := bool * column_name) (λ x, Tree (ByItem (fst x)) [Tree (ColumnNameExpr (full_name (snd x))) [column_node (snd x)]])
    (λ x, add_order (MkOrderBy (fst x) (snd (snd x)))) (λ _, True)); done.
Qed.

Lemma limit_run limit offset q : in_i32 limit → (∀ o, offset = Some o → in_i32 o) →
  Root (limit_node limit offset) q = Ok (set_offset (default (OffsetNum_ q) offset) (set_limit limit q)).
Proof.
  intros Hl Ho. assert (HI : ∀ z v, in_i32 z → Accept ChildDataVisitor_Enter (literal_node (int_literal z)) v = Ok (v ++ [ValueOperand (NewInteger z)])).
  { intros z v Hz. pose proof (int_literal_read z) as E. unfold in_i32 in Hz. unfold read_as in E. apply Accept_skip. unfold literal_node.
    cbn [ChildDataVisitor_Enter]. rewrite E by lia. mred. by rewrite i32_small by done. }
  apply Accept_skip. unfold limit_node. cbn [RootSQLVisitor_Enter]. unfold enter_limit, ChildDatas_.
  rewrite (Accept_tree _ _ _ _ []) by done. destruct offset as [o|]; cbn [fmap list_fmap res_foldl].
  - rewrite HI by done. mred. rewrite HI by by apply Ho. done.
  - rewrite HI by done. done.
Qed.

Lemma assignment_run x q : constant_ok (snd x) →
  Root (assignment_node x) q = Ok (add_set (MkSet (Some (full_name (fst x))) (Some (constant_value (snd x)))) q).
Proof.
  destruct x as [c k]. cbn [fst snd]. intros Hv%constant_read. apply Accept_skip. unfold assignment_node. cbn [RootSQLVisitor_Enter].
  rewrite (Accept_tree _ _ _ _ (MkSet None None)) by done. unfold read_as in Hv. unfold constant_node, literal_node. cbn [fst snd res_foldl].
  cbn [Accept AssignVisitor_Enter column_node]. mred. by rewrite Hv.
Qed.

Lemma value_run c q : constant_ok c → Root (constant_node c) q = Ok (add_value (constant_value c) q).
Proof.
  intros Hv%constant_read. apply Accept_skip. unfold read_as in Hv. unfold constant_node, literal_node. cbn [RootSQLVisitor_Enter]. by rewrite Hv.
Qed.

Lemma names_run (l : list column_name) : ∀ v,
  res_foldl (λ v c, Accept ChildDataVisitor_Enter c v) (column_node <$> l) v = Ok (v ++ (NameOperand ∘ snd <$> l)).
Proof.
  induction l as [|c l IH]; intros v; [by rewrite app_nil_r|]. cbn [fmap list_fmap res_foldl].
  rewrite (Accept_skip _ _ v (v ++ [NameOperand (snd c)])) by done. mred. rewrite IH. by rewrite <- app_assoc.
Qed.

Lemma target_run c q : QueryType_ q = INSERT → Root (column_node c) q = Ok (add_target (full_name c) q).
Proof. intros HQ. apply Accept_skip. unfold column_node. cbn. by rewrite HQ. Qed.

Lemma column_def_run x q : QueryType_ q = CREATE_TABLE → Root (column_def_node x) q = Ok (add_column (MkColDef (fst x) (stored_type (snd x))) q).
Proof. intros HQ. apply Accept_skip. cbn [column_def_node RootSQLVisitor_Enter]. unfold column_def_node. cbn. rewrite HQ. by destruct (snd x). Qed.

Lemma index_run x q : QueryType_ q = CREATE_TABLE → Root (index_node x) q = Ok (add_index (MkIndexDef (fst x) (snd <$> snd x)) q).
Proof.
  intros HQ. apply Accept_skip. unfold index_node. cbn [RootSQLVisitor_Enter]. rewrite HQ. cbn [decide].
  unfold enter_index, ChildDatas_. rewrite (Accept_tree _ _ _ _ []) by done. rewrite names_run. mred.
  assert (E : mapM as_string (NameOperand ∘ snd <$> snd x) = Ok (snd <$> snd x)).
  { induction (snd x) as [|c l IH]; [done|]. cbn [fmap list_fmap mapM]. cbn. by rewrite IH. }
  cbn [app]. by rewrite E.
Qed.

(** ** Statements *)
Inductive Statement : Type :=
  | Select (fields : list SelectItem) (tables : list (list byte)) (on where_ : option Condition)
      (order : list (bool * column_name)) (limit : option (Z * option Z))
  | InsertInto (table : list byte) (cols : list column_name) (values : list Constant)
  | DeleteFrom (table : list byte) (where_ : option Condition)
  | UpdateSet (table : list byte) (sets : list (column_name * Constant)) (where_ : option Condition)
  | CreateTableOf (name : list byte) (cols : list (list byte * DeclaredType)) (indexes : list (list byte * list column_name)).

Definition where_nodes (w : option Condition) : list Node := match w with Some c => [condition_node c] | None => [] end.
Definition statement_node (s : Statement) : Node :=
  match s with
  | Select fields tables on w order limit =>
      Tree SelectStmt (tables_node tables on :: where_nodes w ++ fields_node fields ::
        match order with [] => [] | _ => [order_node order] end ++
        match limit with Some (l, o) => [limit_node l o] | None => [] end)
  | InsertInto t cols values =>
      Tree InsertStmt (tables_node [t] None :: (column_node <$> cols) ++ (constant_node <$> values))
  | DeleteFrom t w => Tree DeleteStmt (tables_node [t] None :: where_nodes w)
  | UpdateSet t sets w => Tree UpdateStmt (tables_node [t] None :: (assignment_node <$> sets) ++ where_nodes w)
  | CreateTableOf t cols indexes =>
      Tree CreateTableStmt (Tree (TableName t) [] :: (column_def_node <$> cols) ++ (index_node <$> indexes))
  end.

Definition opt_condition (w : option Condition) : Prop := ∀ c, w = Some c → clause_condition c.
Definition statement_ok (s : Statement) : Prop :=
  match s with
  | Select fields _ on w _ limit => Forall item_ok fields ∧ opt_condition on ∧ opt_condition w ∧
      ∀ l o, limit = Some (l, o) → in_i32 l ∧ ∀ z, o = Some z → in_i32 z
  | InsertInto _ _ values => Forall constant_ok values
  | DeleteFrom _ w => opt_condition w
  | UpdateSet _ sets w => Forall (λ x, constant_ok (snd x)) sets ∧ opt_condition w
  | CreateTableOf _ _ _ => True
  end.

Definition opt_expr (w : option Condition) : BinaryOpExpression := from_option condition_expr new_binary_op w.
(** What there is to know of a statement. *)
Definition statement_info (s : Statement) : QueryInfo :=
  match s with
  | Select fields tables on w order limit =>
      MkQueryInfo SELECT (Some ∘ item_field <$> fields) [] None [] [] [] [] (opt_expr on) tables (opt_expr w)
        (from_option fst (-1) limit) (default (-1) (limit ≫= snd))
        ((λ x, MkOrderBy (fst x) (snd (snd x))) <$> order)
  | InsertInto t cols values =>
      MkQueryInfo INSERT [] [] None [] [] (full_name <$> cols) (constant_value <$> values) new_binary_op [t] new_binary_op (-1) (-1) []
  | DeleteFrom t w => MkQueryInfo DELETE [] [] None [] [] [] [] new_binary_op [t] (opt_expr w) (-1) (-1) []
  | UpdateSet t sets w =>
      MkQueryInfo UPDATE [] ((λ x, MkSet (Some (full_name (fst x))) (Some (constant_value (snd x)))) <$> sets) None [] [] [] [] new_binary_op [t]
        (opt_expr w) (-1) (-1) []
  | CreateTableOf t cols indexes =>
      MkQueryInfo CREATE_TABLE [] [] (Some t) ((λ x, MkColDef (fst x) (stored_type (snd x))) <$> cols)
        ((λ x, MkIndexDef (fst x) (snd <$> snd x)) <$> indexes) [] [] new_binary_op [] new_binary_op (-1) (-1) []
  end.

Lemma where_nodes_run w q : opt_condition w →
  res_foldl (λ q c, Root c q) (where_nodes w) q = Ok (match w with Some c => set_where (condition_expr c) q | None => q end).
Proof. intros Hw. destruct w as [c|]; [|done]. cbn [where_nodes res_foldl]. by rewrite where_run by by apply Hw. Qed.

Lemma opt_none : opt_condition None.
Proof. by intros c. Qed.

Lemma with_tables_eq tables on q :
  with_tables tables on q = (let q := put_tables (JoinTables_ q ++ tables) q in
    match on with Some c => set_on (condition_expr c) q | None => q end).
Proof.
  unfold with_tables. rewrite (adds_all JoinTables_ add_table id put_tables) by (done || by intros []). by rewrite list_fmap_id.
Qed.

Lemma read_select fields tables on w order limit : statement_ok (Select fields tables on w order limit) →
  extractInfoFromAST (statement_node (Select fields tables on w order limit)) = Ok (statement_info (Select fields tables on w order limit)).
Proof.
  intros (Hf & Hon & Hw & Hl). unfold extractInfoFromAST. cbn [statement_node].
  rewrite (Accept_tree _ _ _ _ (set_type SELECT NewRootSQLVisitor)) by done.
  cbn [res_foldl]. rewrite tables_run by done. mred. rewrite res_foldl_app, where_nodes_run by done. mred.
  cbn [res_foldl]. rewrite fields_run by done. mred. rewrite res_foldl_app.
  set (q1 := put_fields _ _).
  assert (EO : res_foldl (λ q c, Root c q) (match order with [] => [] | _ => [order_node order] end) q1 =
    Ok (put_orders (OrderByExpressions_ q1 ++ ((λ x, MkOrderBy (fst x) (snd (snd x))) <$> order)) q1)).
  { destruct order as [|x order]; [by destruct q1; cbn; rewrite app_nil_r|]. cbn [res_foldl]. rewrite order_run. mred.
    by rewrite (adds_all OrderByExpressions_ (λ x : bool * column_name, add_order (MkOrderBy (fst x) (snd (snd x)))) (λ x, MkOrderBy (fst x) (snd (snd x))) put_orders) by (done || by intros []). }
  rewrite EO. mred. unfold q1. rewrite with_tables_eq. destruct limit as [[l o]|]; cbn [res_foldl].
  - destruct (Hl l o eq_refl). rewrite limit_run by done. mred. by destruct on, w, o.
  - by destruct on, w.
Qed.

Lemma read_insert t cols values : statement_ok (InsertInto t cols values) →
  extractInfoFromAST (statement_node (InsertInto t cols values)) = Ok (statement_info (InsertInto t cols values)).
Proof.
  intros Hv. unfold extractInfoFromAST. cbn [statement_node].
  rewrite (Accept_tree _ _ _ _ (set_type INSERT NewRootSQLVisitor)) by done.
  cbn [res_foldl]. rewrite tables_run by apply opt_none. mred. rewrite res_foldl_app.
  rewrite (parts_run column_node (λ c, add_target (full_name c)) (λ t, t = INSERT)); [|intros a q _ HQ; by apply target_run|done|done]. mred.
  rewrite (adds_all TargetCols_ (λ c : column_name, add_target (full_name c)) full_name put_targets) by (done || by intros []).
  cbn [statement_ok] in Hv. rewrite Forall_forall in Hv.
  rewrite (parts_run constant_node (λ c, add_value (constant_value c)) (λ _, True)); [|intros a q Ha _; by apply value_run, Hv|done|done].
  by rewrite (adds_all Values_ (λ c, add_value (constant_value c)) constant_value put_values) by (done || by intros []).
Qed.

Lemma read_delete t w : statement_ok (DeleteFrom t w) →
  extractInfoFromAST (statement_node (DeleteFrom t w)) = Ok (statement_info (DeleteFrom t w)).
Proof.
  intros Hw. unfold extractInfoFromAST. cbn [statement_node].
  rewrite (Accept_tree _ _ _ _ (set_type DELETE NewRootSQLVisitor)) by done.
  cbn [res_foldl]. rewrite tables_run by apply opt_none. mred. rewrite where_nodes_run by done. by destruct w.
Qed.

Lemma read_update t sets w : statement_ok (UpdateSet t sets w) →
  extractInfoFromAST (statement_node (UpdateSet t sets w)) = Ok (statement_info (UpdateSet t sets w)).
Proof.
  intros [Hs Hw]. unfold extractInfoFromAST. cbn [statement_node].
  rewrite (Accept_tree _ _ _ _ (set_type UPDATE NewRootSQLVisitor)) by done.
  cbn [res_foldl]. rewrite tables_run by apply opt_none. mred. rewrite res_foldl_app. rewrite Forall_forall in Hs.
  rewrite (parts_run assignment_node (λ x, add_set (MkSet (Some (full_name (fst x))) (Some (constant_value (snd x))))) (λ _, True));
    [|intros a q Ha _; by apply assignment_run, Hs|done|done]. mred.
  rewrite (adds_all SetExpressions_ (λ x : column_name * Constant, add_set (MkSet (Some (full_name (fst x))) (Some (constant_value (snd x)))))
    (λ x, MkSet (Some (full_name (fst x))) (Some (constant_value (snd x)))) put_sets) by (done || by intros []).
  rewrite where_nodes_run by done. by destruct w.
Qed.

Lemma read_create t cols indexes :
  extractInfoFromAST (statement_node (CreateTableOf t cols indexes)) = Ok (statement_info (CreateTableOf t cols indexes)).
Proof.
  unfold extractInfoFromAST. cbn [statement_node].
  rewrite (Accept_tree _ _ _ _ (set_type CREATE_TABLE NewRootSQLVisitor)) by done.
  cbn [res_foldl]. rewrite (Accept_tree _ _ _ _ (set_new_table t (set_type CREATE_TABLE NewRootSQLVisitor))) by done. mred.
  cbn [res_foldl]. mred. rewrite res_foldl_app.
  rewrite (parts_run column_def_node (λ x, add_column (MkColDef (fst x) (stored_type (snd x)))) (λ t, t = CREATE_TABLE));
    [|intros a q _ HQ; by apply column_def_run|done|done]. mred.
  rewrite (adds_all ColDefExpressions_ (λ x : list byte * DeclaredType, add_column (MkColDef (fst x) (stored_type (snd x)))) (λ x, MkColDef (fst x) (stored_type (snd x))) put_columns) by (done || by intros []).
  rewrite (parts_run index_node (λ x, add_index (MkIndexDef (fst x) (snd <$> snd x))) (λ t, t = CREATE_TABLE));
    [|intros a q _ HQ; by apply index_run|done|done].
  by rewrite (adds_all IndexDefExpressions_ (λ x : list byte * list column_name, add_index (MkIndexDef (fst x) (snd <$> snd x))) (λ x, MkIndexDef (fst x) (snd <$> snd x)) put_indexes) by (done || by intros []).
Qed.

(** ** Properties *)

(** C33: the front end reads the statements of the type [Statement]: SELECT (columns,
    aggregates, a join with its condition, WHERE, ORDER BY, LIMIT and OFFSET), INSERT,
    DELETE, UPDATE and CREATE TABLE (columns and indexes). The visitors turn the syntax tree
    of such a statement into the query information that says what it says, with nothing left
    over from one clause in another. What is left out, because the code reads it wrongly or
    not at all, [statement_ok] and the type say: ON and WHERE have a comparison, AND or OR at
    their top (a test for NULL or parentheses there panic), the sides of a comparison are
    columns and constants, constants are whole numbers of 32 bits that are one literal in
    the tree (not a minus before one), numbers with a point, and strings without a space,
    names of selected columns have no point in them, BIGINT is no
    column type, and there is no GROUP BY. An ordering column and the column of a test for
    NULL lose their table. *)
Theorem statement_read s : statement_ok s → extractInfoFromAST (statement_node s) = Ok (statement_info s).
Proof.
  destruct s; [apply read_select|apply read_insert|apply read_delete|apply read_update|intros _; apply read_create].
Qed.

(** [SELECT staff.a, COUNT( * ) FROM staff JOIN friend ON staff.c = friend.c
    WHERE a = 10 AND (b IS NOT NULL OR c <> 'x') ORDER BY a DESC LIMIT 100 OFFSET 200] *)
Definition plain (s : string) : column_name := (None, text s).
Definition qualified (t s : string) : column_name := (Some (text t), text s).
Definition example_select : Statement :=
  Select [PlainColumn (qualified "staff" "a"); Aggregated COUNT_AGGREGATE None] [text "staff"; text "friend"]
    (Some (Compare Equal (ColumnSide (qualified "staff" "c")) (ColumnSide (qualified "friend" "c"))))
    (Some (Both (Compare Equal (ColumnSide (plain "a")) (ConstantSide (WholeNumber 10)))
       (Parentheses (Either (NullTest true (plain "b"))
          (Compare NotEqual (ColumnSide (plain "c")) (ConstantSide (StringOf (text "x"))))))))
    [(true, plain "a")] (Some (100, Some 200)).

Lemma statement_read_witness :
  extractInfoFromAST (statement_node example_select) = Ok (statement_info example_select) ∧
  TableName_ <$> omap id (SelectFields_ (statement_info example_select)) = [Some (text "staff"); None] ∧
  OffsetNum_ (statement_info example_select) = 200.
Proof.
  split; [|split; reflexivity]. apply statement_read. split; [|split; [|split]].
  - constructor; [|by constructor]. split; [by apply (bool_decide_unpack _)|]. intros t [= <-]. by apply (bool_decide_unpack _).
  - intros c [= <-]. repeat split.
  - intros c [= <-]. split; [done|]. split; [split; [done|split; by vm_compute]|]. split; [done|]. split; [done|]. by apply (bool_decide_unpack _).
  - intros l o [= <- <-]. split; [unfold in_i32; lia|]. intros z [= <-]. unfold in_i32. lia.
Defined.

(** Whole numbers of 64 bits are taken into the 32 bits of an Integer: a literal is read
    as itself exactly when it fits, and wraps round otherwise. *)
Theorem integer_literal z : - 2 ^ 63 ≤ z < 2 ^ 63 →
  read_as (int_literal z) (NewInteger (i32 z)) ∧ (read_as (int_literal z) (NewInteger z) ↔ in_i32 z).
Proof.
  intros Hz. pose proof (int_literal_read z Hz) as E. split; [done|]. unfold read_as in *. rewrite E. split.
  - intros [= Hi]. rewrite <- Hi. apply i32_range.
  - intros Hi. by rewrite i32_small.
Qed.

Lemma integer_literal_witness :
  read_as (int_literal (2 ^ 32 + 7)) (NewInteger 7) ∧ ¬ read_as (int_literal (2 ^ 32 + 7)) (NewInteger (2 ^ 32 + 7)).
Proof.
  destruct (integer_literal (2 ^ 32 + 7)) as [HE HN]; [split; [discriminate|reflexivity]|].
  split; [exact HE|]. intros HL%HN. destruct HL as [_ HL]. by vm_compute in HL.
Defined.

(** *** What is read wrongly *)

(** A WHERE clause that is a test for NULL, or put in parentheses, at its top is not
    understood: the visitor of the statement panics on it. *)
Theorem where_refused t c : is_operation c = false → extractInfoFromAST (statement_node (DeleteFrom t (Some c))) = Panic.
Proof.
  intros Hc. unfold extractInfoFromAST. cbn [statement_node where_nodes].
  rewrite (Accept_tree _ _ _ _ (set_type DELETE NewRootSQLVisitor)) by done.
  cbn [res_foldl]. rewrite tables_run by apply opt_none. mred. by destruct c.
Qed.

Lemma where_refused_witness : extractInfoFromAST (statement_node (DeleteFrom (text "t") (Some (NullTest false (plain "a"))))) = Panic.
Proof. apply where_refused. reflexivity. Defined.

(** The right side of a comparison that is itself a condition is lost: the left side is
    put in its place. *)
Lemma right_condition_lost t l c : side_ok l → clause_condition c →
  BinaryOpVisitor_Accept (BinaryOperationExpr (comparison_op t) (side_node l) (condition_node c)) new_binary_op =
    Ok (MkBinaryOp None (Some t) (side_operand l) (ExprOperand (MkBinaryOp None None (side_operand l) NoOperand))).
Proof.
  intros Hl [Ho Hc]. cbn [BinaryOpVisitor_Accept]. rewrite side_run, (condition_run c Hc) by done. mred.
  destruct c; try done; by destruct t.
Qed.

(** A string is cut at its first space. *)
Lemma string_literal_cut w r : space ∉ w → read_as (OtherKind, text "KindString" ++ space :: w ++ space :: r) (NewVarchar w).
Proof.
  intros Hw. unfold read_as. cbn [fst snd]. rewrite ValueExprToValue_word; [done| |done|right; by exists r].
  apply (bool_decide_unpack _). vm_compute. exact I.
Qed.

(** A node that the visitor of conditions does not know is passed over: the value below a
    minus sign is read without it. *)
Lemma sign_lost z : - 2 ^ 63 ≤ z < 2 ^ 63 →
  BinaryOpVisitor_Accept (Tree OtherNode [literal_node (int_literal z)]) new_binary_op =
    Ok (MkBinaryOp None None (ValueOperand (NewInteger (i32 z))) NoOperand).
Proof.
  intros Hz. pose proof (int_literal_read z Hz) as E. unfold read_as in E. cbn [BinaryOpVisitor_Accept literal_node].
  cbn [fst snd int_literal] in *. rewrite E. done.
Qed.
